(* ===== verification/_CoqProject ===== *)
-Q . S2P
Prelude.v
Effects.v
Sha256.v
HashTree.v
Merkle.v
Consistency.v
JsString.v
Base64.v
Tiles.v
Url.v
Lr.v
Checkpoint.v
Policy.v
Budget.v
CheckpointTrust.v
TlogProof.v
HashTiles.v
StreamSource.v
Json.v
JsonText.v
Double.v
Utils.v
TxtRecord.v
Jwk.v
EventCodec.v
Lifecycle.v
StreamVerifier.v
StreamBundle.v
IdentityCache.v
Retry.v
AgentStatus.v
LogRegistry.v
TrustProfile.v
FanOut.v
Verification.v
SharedVerification.v
CallProgress.v
DnsidConfig.v
Reader.v
ReaderSpec.v
ReaderCalls.v
Writer.v
ManagedRotation.v
RotationSafety.v
Publishing.v
PublishingSafety.v
PublishedRecord.v
Issuance.v
HttpMessages.v
SignatureFields.v
HttpSignatures.v
ProfileRules.v
HttpSafety.v
PlainFields.v
FieldText.v
HttpBase.v
HttpRoundTrip.v
HttpExamples.v
Jose.v
JoseSafety.v
JoseRoundTrip.v
JoseExamples.v
