(* ===== verification/Prelude.v ===== *)
(** * DNSid TypeScript SDK

    A verification development for the protocol core ([packages/protocol]), the
    transparency-log binding ([packages/log-c2sp-tlog]), HTTP message signatures
    ([packages/http-signatures]), JOSE tokens ([packages/jose]) and the managed key rotation
    of [packages/sdk].  File names below are relative to these packages' [src/] directories.

    ** The program

    An agent's identity is a signed [_dnsid] TXT record.  A verifier looks the record up,
    fetches the keys of the accountable entity and of the agent, checks the record's
    signature, asks a lifecycle log whether the keys are bound to each other, asks the
    status endpoint whether the agent is active, and caches the result.  The log is a
    C2SP tlog-tiles transparency log: signed and cosigned checkpoints over a Merkle tree
    whose leaves are the lifecycle events of many identities.  An agent publishes its record,
    signs its lifecycle events together with the accountable entity, and rotates its keys.
    It signs HTTP requests and responses (RFC 9421) and JOSE tokens with its operational key,
    and verifies those of others by resolving the identity that a signature names.

    The layers, from the bottom up; every file models the source named with it:

    - language and platform: [Prelude] (errors, the result monad, lists, [errors.ts]),
      [JsString] (strings of code units), [Base64], [Json] ([canonical.ts],
      [strict-json.ts]), [Sha256], [Url], [Budget] ([verification-budget.ts]), [FanOut]
      (awaits, two concurrent branches under one signal), [Effects] (code that calls its
      environment and may fail in between), [JsonText] (properties of the JSON texts), [Double]
      (arithmetic of the numbers of the language);
    - the tree: [HashTree] (RFC 6962 over an abstract node function), [Merkle]
      ([merkle.ts]), [Consistency] (the consistency check of [checkpoint-trust.ts]),
      [Tiles] ([tiles.ts]), [HashTiles] ([hash-tiles.ts]);
    - checkpoints: [Checkpoint] ([checkpoint.ts], [signed-note.ts]), [Policy] ([policy.ts]),
      [CheckpointTrust] ([checkpoint-trust.ts]: the store of trusted checkpoints),
      [TlogProof] ([proof.ts]), [TrustProfile] ([trust-profile.ts]), [Lr] ([lr.ts]);
    - events: [Jwk] ([jwks.ts]), [EventCodec] ([event-codec.ts], [log-events.ts]),
      [Lifecycle] ([verified-domain.ts]), [StreamVerifier] ([stream-verifier.ts]),
      [StreamSource] ([stream-source.ts]), [StreamBundle] ([stream-bundle.ts]), [Reader] with
      [ReaderSpec] and [ReaderCalls] ([reader.ts]: one load of evidence, and the calls of one
      reader), [Writer] ([writer.ts]);
    - the identity: [Utils] ([utils.ts]), [TxtRecord] ([txt-record.ts]), [AgentStatus]
      ([agent-status.ts]), [IdentityCache] ([identity-cache.ts]), [Retry] ([retry.ts]),
      [LogRegistry] ([log-registry.ts]), [Verification], [SharedVerification]
      and [CallProgress] ([identity-manager.ts]: one verification, the manager that shares
      them, and what becomes of its calls),
      [DnsidConfig] ([validateDnsidConfig], and the factory of [node-identity-manager.ts]);
    - the own identity: [Publishing] with [PublishingSafety] and [PublishedRecord] (the
      signing, writing, rotating and publishing methods of [identity-manager.ts]), [Issuance]
      (its bilateral issuance binding), [ManagedRotation] with [RotationSafety]
      ([managed-key-rotation.ts]: rotation through a registry);
    - HTTP messages ([http-signatures/src/index.ts]): [HttpMessages] (messages, component
      identifiers and their values), [SignatureFields] (the signature base, the fields
      [Signature-Input], [Signature], [Content-Digest], [Accept-Signature] and
      [Cache-Control]), [HttpSignatures] (the profile: signing, verifying, the negotiated
      response, the signed fetch), with their properties in [HttpSafety], [HttpBase] and
      [HttpRoundTrip]; [PlainFields] (the texts of structured fields) and [FieldText] (the
      scanners on them), and the runs of [HttpExamples];
    - tokens: [Jose] ([jose/src/index.ts], and the token parsers of [strict-json.ts]) with
      [JoseSafety], [JoseRoundTrip] and [JoseExamples]; [ProfileRules] has the rules of the
      operations that the profiles share.

    ** How the model reads the code

    Functions that may throw return [res A], an exception being a value [exn] with its
    class, code, category and transience; messages keep their constant part.  A record is
    the object's fields, an inductive type a tagged union, [gmap] a [Map] whose order does
    not matter and an association list one whose order does.  Numbers are integers where
    the code requires safe integers; the few places where doubles are rounded say so.
    Loops are structural, or carry fuel that a theorem shows to be enough
    ([HashTiles.authenticatedTilePrefixRoot_terminates], [Retry], the [length] of the
    input in the parsers).  Asynchronous code is modelled at its awaits: a [FanOut.task] is
    the tree of the awaits of a function, the trusted checkpoint store and the identity
    manager are state machines whose schedules are arbitrary lists of events, so their
    theorems cover every interleaving, cancellation and failure.  A reader reads an outside
    world that may change from one call to the next; the depth of a chain of migrations is
    the fuel [maxDepth - depth] of its verifier.  Publishing and rotation are computations
    over the list of the calls made so far: the answers are arbitrary functions of that
    list, an operation that fails keeps the calls it made, a crash is a cut of the list, and
    the theorems speak about every such list.

    Code that is not the repository's is an interface (a type class) or a parameter:
    [Sha256.Hash256], [Url.URLApi], [Utils.Unicode], [Checkpoint.Ed25519],
    [Jwk.JwkApi] ([jose] and WebCrypto), [HttpMessages.StructuredFields] (the
    structured-headers package; [PlainFields.Rfc8941] states what RFC 8941 says of the texts
    it writes and reads, for printable strings with their escapes, integers, booleans and byte
    sequences), the [Date] parser, fetchers, resolvers and clocks.
    [SharedVerification.IdentityCacheApi] is the contract between the manager and its
    cache, discharged by [IdentityCache]; [Verification.LogReader] is the contract between
    the manager and the log binding; key providers, log writers, registries and durable
    stores are the fields of an [Environment].  Every class has an instance that the witnesses
    evaluate with.  Cryptographic soundness is not assumed: a theorem about hashes ends in
    "or these two different inputs, computed by this function, have the same digest".

    ** What the theorems show

    - Verification ([Verification], [SharedVerification], [CallProgress]): a call that returns an identity
      returns one whose record, keys, log binding and status were all verified for its own
      domain, whatever is interleaved; the concurrent evaluation computes the sequential
      one; a revoked identity is reported as such; a refresh is never overwritten by older
      work; a caller that gives up does not disturb those it shares with; no call is left waiting
      in a schedule that goes on, and what it returns is the answer to its question.
    - Trust in the log ([CheckpointTrust], [Consistency], [HashTiles]): the stored checkpoint
      never rolls back or forks under any schedule, an accepted advance extends the old
      log, the compare-and-swap loop ends.
    - Evidence ([Merkle], [TlogProof], [Policy], [StreamSource], [StreamBundle]): what is
      accepted is in the log that the checkpoint is the head of, under the local policy; the
      quorum evaluator is optimal; a scan is complete, and an honest server is accepted.
    - Lifecycle ([StreamVerifier], [Lifecycle]): accepted histories run an abstract
      authority machine (who may sign what after which event), and snapshots a lifecycle
      machine.
    - The reader ([ReaderSpec], [ReaderCalls]): after any calls, what a history, a binding, a
      non-revocation answer or an exported history says was verified under the trusted key
      from evidence the policy accepts, across migrations; non-revocation never uses the
      cache.
    - Writing and publishing ([Writer], [PublishingSafety], [PublishedRecord], [Issuance]): an
      event that is written carries every required signature over its canonical bytes and is
      what its readers parse; a published record is one that verifiers accept; the issuance
      binding determines its content.
    - Rotation ([PublishingSafety], [RotationSafety]): whatever fails and, with a registry,
      wherever the process dies and resumes, publication, logging, activation, retirement of the old key and
      the application's signing keep their order.
    - HTTP messages ([HttpSafety], [HttpBase], [HttpRoundTrip]): an accepted request or response
      is signed by a key of an identity that was verified in this call, over the base of this
      message, with a timely signature and the digest of its body; a base determines the
      values it covers; what a profile signs, a profile that resolves the signer accepts.
    - Tokens ([JoseSafety], [JoseRoundTrip]): an accepted token is signed by a published key of
      an identity that was verified in this call, has one text, and its claims hold before
      and after that verification; what a profile issues, its audience accepts.
    - Formats and configuration ([TxtRecord], [Tiles], [Lr], [Json], [JsonText], [EventCodec],
      [DnsidConfig]): round trips, canonical forms, that signed bytes determine what they sign,
      and that an accepted configuration is well formed and decides acceptance.

    ** Not modelled

    Sockets, TLS and DNS ([packages/transport]), the cloud key services
    ([packages/key-aws], [packages/key-gcp]), configuration and key files and the issuance
    workflow ([packages/sdk]), and the registry's HTTP client ([packages/registry]) are input
    and output around the core: the model takes their answers as parameters.  The
    OpenID Connect bridge and Web Bot Auth are further protocols on top of the token parsers,
    the signatures and an HTTP server; the verification registries cache readers around
    network calls.  Of the fetch API the model has methods, URLs, header values and bodies as
    chunks; redirect modes, referrers and caches have no counterpart.  Concurrent calls of
    one reader that share a pending load, property order of JSON objects, stack exhaustion
    and memory are not represented. *)

From Stdlib Require Export ZArith Lia Bool Ascii String.
From Stdlib Require Export Strings.Byte.
From stdpp Require Export base tactics list strings gmap sets sorting.

#[global] Open Scope Z_scope.
(** ** Exceptions

    The error classes of [packages/protocol/src/errors.ts] and
    [packages/log-c2sp-tlog/src/errors.ts].  A [VerificationError] carries its
    machine-readable code, lifecycle category, transience and (for the tlog
    subclass) the HTTP status; the text is the constant part of the message.  Errors of
    the platform's system calls carry a string code ([ESystem]). *)

Inductive VerificationCode :=
  | DNSResolution | DNSSECFailed | RecordNotFound | RecordInvalid
  | SignatureInvalid | KeyNotFound | TLSError | HTTPError | KeyAgeExceeded
  | StatusUnavailable | StatusNotActive | LogError | CounterpartyNotAccepted.

Inductive LifecycleErrorCategory :=
  | GENESIS_REQUIRED | DUPLICATE_ISSUANCE | INVALID_ISSUANCE | TERMINAL_STATE
  | DOMAIN_MISMATCH | KEY_CONTINUITY | INVALID_REVOCATION_REASON
  | INVALID_MIGRATION | SNAPSHOT_EMPTY | SNAPSHOT_NON_PREFIX
  | UNSUPPORTED_EVENT | CHAIN_CONTINUITY | INVALID_EVIDENCE
  | INCOMPLETE_STREAM | LOG_ROLLBACK | LOG_FORK | LOG_INCONSISTENT
  | CHECKPOINT_STORE_ERROR.

(** The subclasses of [VerificationError] that handlers test with [instanceof]. *)
Inductive verification_class :=
  | PlainVerificationError | C2spTlogErrorClass | C2spTlogParseErrorClass
  | C2spTlogVerificationErrorClass | C2spTlogResourceLimitErrorClass
  | MissingC2spConsistencyEvidenceErrorClass
  | C2spCheckpointConsistencyErrorClass | C2spCheckpointStoreErrorClass.

#[export] Instance VerificationCode_eq_dec : EqDecision VerificationCode.
Proof. solve_decision. Defined.
#[export] Instance LifecycleErrorCategory_eq_dec : EqDecision LifecycleErrorCategory.
Proof. solve_decision. Defined.
#[export] Instance verification_class_eq_dec : EqDecision verification_class.
Proof. solve_decision. Defined.

Record VerificationError := mkVerificationError {
  ve_class : verification_class;
  ve_code : VerificationCode;
  ve_transient : bool;
  ve_errorCategory : option LifecycleErrorCategory;
  ve_status : option Z;
  ve_message : string
}.

#[export] Instance VerificationError_eq_dec : EqDecision VerificationError.
Proof. solve_decision. Defined.

Inductive exn :=
  | EVerification (e : VerificationError)
  | EParse (message : string)
  | EValidation (message : string)
  | EArgument (message : string)
  | ERange (message : string)
  | EError (message : string)
  | ESystem (code message : string).

#[export] Instance exn_eq_dec : EqDecision exn.
Proof. solve_decision. Defined.

(** ** Results: a computation returns a value or throws. *)

Inductive res (A : Type) :=
  | Ok (a : A)
  | Throw (e : exn).
Arguments Ok {A} a.
Arguments Throw {A} e.

#[export] Instance res_ret : MRet res := @Ok.
#[export] Instance res_bind : MBind res := fun A B f m =>
  match m with Ok a => f a | Throw e => Throw e end.
#[export] Instance res_fmap : FMap res := fun A B f m =>
  match m with Ok a => Ok (f a) | Throw e => Throw e end.

#[export] Instance res_eq_dec {A} `{EqDecision A} : EqDecision (res A).
Proof. solve_decision. Defined.

(** [if (b) throw e;] *)
Definition throw_if (b : bool) (e : exn) : res unit :=
  if b then Throw e else Ok tt.

(** [a || b] where [b] may throw. *)
Definition or_else (a : bool) (b : res bool) : res bool := if a then Ok true else b.

(** [try m catch (e) { h e }] *)
Definition catch {A} (m : res A) (h : exn -> res A) : res A :=
  match m with Ok a => Ok a | Throw e => h e end.

Definition is_ok {A} (m : res A) : bool :=
  match m with Ok _ => true | Throw _ => false end.

Definition of_option {A} (o : option A) (e : exn) : res A :=
  match o with Some a => Ok a | None => Throw e end.

(** [o === undefined] *)
Definition is_none {A} (o : option A) : bool := match o with None => true | Some _ => false end.

(** A [for] loop over a list whose body may throw. *)
Fixpoint for_each {A S} (f : S -> A -> res S) (l : list A) (s : S) : res S :=
  match l with
  | [] => Ok s
  | a :: l => s ← f s a; for_each f l s
  end.

Fixpoint map_res {A B} (f : A -> res B) (l : list A) : res (list B) :=
  match l with
  | [] => Ok []
  | a :: l => b ← f a; bs ← map_res f l; Ok (b :: bs)
  end.

Lemma Ok_inj {A} (a b : A) : Ok a = Ok b -> a = b.
Proof. congruence. Qed.

Lemma bind_Ok {A B} (m : res A) (f : A -> res B) b :
  m ≫= f = Ok b <-> exists a, m = Ok a /\ f a = Ok b.
Proof. destruct m; cbn; naive_solver. Qed.

Lemma bind_Throw {A B} (m : res A) (f : A -> res B) e :
  m ≫= f = Throw e <-> m = Throw e \/ exists a, m = Ok a /\ f a = Throw e.
Proof. destruct m; cbn; naive_solver. Qed.

Lemma throw_if_Ok b e u : throw_if b e = Ok u <-> b = false.
Proof. destruct b, u; cbn; naive_solver. Qed.

Lemma throw_if_Throw b e e' : throw_if b e = Throw e' <-> b = true /\ e = e'.
Proof. destruct b; cbn; naive_solver. Qed.

Lemma catch_Ok {A} (m : res A) h a :
  catch m h = Ok a <-> m = Ok a \/ exists e, m = Throw e /\ h e = Ok a.
Proof. destruct m; cbn; naive_solver. Qed.

Lemma of_option_Ok {A} (o : option A) e a : of_option o e = Ok a <-> o = Some a.
Proof. destruct o; cbn; naive_solver. Qed.

Lemma map_res_length {A B} (f : A -> res B) l bs :
  map_res f l = Ok bs -> List.length bs = List.length l.
Proof.
  revert bs; induction l as [|a l IH]; cbn; intros bs H.
  { by injection H as <-. }
  apply bind_Ok in H as (b & _ & H). apply bind_Ok in H as (bs' & Hl & H).
  injection H as <-. cbn. by rewrite (IH _ Hl).
Qed.

Lemma map_res_Forall2 {A B} (f : A -> res B) l bs :
  map_res f l = Ok bs <-> Forall2 (fun a b => f a = Ok b) l bs.
Proof.
  revert bs; induction l as [|a l IH]; intros bs; cbn.
  - split; [intros [= <-]; constructor | by inversion 1].
  - split.
    + intros (b & Hb & H)%bind_Ok. apply bind_Ok in H as (bs' & Hl & [= <-]).
      constructor; [done | by apply IH].
    + inversion 1 as [|? b ? bs' Hb Hl]; subst. rewrite Hb; cbn.
      apply IH in Hl. by rewrite Hl.
Qed.

Lemma for_each_app {A S} (f : S -> A -> res S) l1 l2 s :
  for_each f (l1 ++ l2) s = (s' ← for_each f l1 s; for_each f l2 s').
Proof.
  revert s; induction l1 as [|a l1 IH]; intros s; cbn; [done|].
  destruct (f s a); cbn; [apply IH | done].
Qed.

(** Rule of invariants for loops. *)
Lemma for_each_inv {A S} (I : S -> Prop) (f : S -> A -> res S) l s s' :
  (forall s a s', a ∈ l -> I s -> f s a = Ok s' -> I s') ->
  I s -> for_each f l s = Ok s' -> I s'.
Proof.
  revert s; induction l as [|a l IH]; cbn; intros s Hf Hs H.
  { by injection H as <-. }
  apply bind_Ok in H as (s1 & H1 & H).
  eapply IH; [| | exact H].
  - intros ? ? ? Hin. apply Hf. by right.
  - eapply Hf; [by left | exact Hs | exact H1].
Qed.

(** Inverts a successful run of monadic code into the steps it took. *)
Ltac res_step :=
  match goal with
  | H : Ok _ = Ok _ |- _ => apply Ok_inj in H; subst
  | H : Throw _ = Ok _ |- _ => discriminate H
  | H : Ok _ = Throw _ |- _ => discriminate H
  | H : mret _ = Ok _ |- _ => apply Ok_inj in H; subst
  | H : throw_if _ _ = Ok _ |- _ => apply throw_if_Ok in H
  | H : of_option _ _ = Ok _ |- _ => apply of_option_Ok in H
  | H : mbind _ _ = Ok _ |- _ =>
      let a := fresh "v" in let Ha := fresh "Hv" in
      apply bind_Ok in H as (a & Ha & H)
  | u : unit |- _ => destruct u
  end.
Ltac res_inv := repeat res_step.

(** Splits boolean connectives in the context. *)
Ltac bool_inv :=
  repeat match goal with
  | H : bool_decide _ = true |- _ => apply bool_decide_eq_true in H
  | H : andb _ _ = true |- _ => apply andb_true_iff in H as [? ?]
  | H : bool_decide _ = false |- _ => apply bool_decide_eq_false in H
  | H : negb _ = true |- _ => apply negb_true_iff in H
  | H : orb _ _ = false |- _ => apply orb_false_iff in H as [? ?]
  | H : negb _ = false |- _ => apply negb_false_iff in H
  | H : Z.eqb _ _ = true |- _ => apply Z.eqb_eq in H
  | H : Z.eqb _ _ = false |- _ => apply Z.eqb_neq in H
  | H : Z.ltb _ _ = true |- _ => apply Z.ltb_lt in H
  | H : Z.ltb _ _ = false |- _ => apply Z.ltb_ge in H
  | H : Z.leb _ _ = true |- _ => apply Z.leb_le in H
  | H : Z.leb _ _ = false |- _ => apply Z.leb_gt in H
  | H : Nat.ltb _ _ = true |- _ => apply Nat.ltb_lt in H
  | H : Nat.ltb _ _ = false |- _ => apply Nat.ltb_ge in H
  | H : Nat.leb _ _ = true |- _ => apply Nat.leb_le in H
  | H : Nat.leb _ _ = false |- _ => apply Nat.leb_gt in H
  | H : Nat.eqb _ _ = true |- _ => apply Nat.eqb_eq in H
  | H : Nat.eqb _ _ = false |- _ => apply Nat.eqb_neq in H
  end.

(** ** Error constructors of [log-c2sp-tlog/src/errors.ts] *)

Definition log_error (cls : verification_class) (transient : bool)
    (category : option LifecycleErrorCategory) (status : option Z) (message : string) : exn :=
  EVerification {|
    ve_class := cls; ve_code := LogError; ve_transient := transient;
    ve_errorCategory := Some (default INVALID_EVIDENCE category);
    ve_status := status; ve_message := message |}.

Definition C2spTlogError (message : string) (transient : bool) (status : option Z) : exn :=
  log_error C2spTlogErrorClass transient None status message.
Definition C2spTlogParseError (message : string) : exn :=
  log_error C2spTlogParseErrorClass false None None message.
Definition C2spTlogVerificationErrorIn (message : string) (category : LifecycleErrorCategory) : exn :=
  log_error C2spTlogVerificationErrorClass false (Some category) None message.
Definition C2spTlogVerificationError (message : string) : exn :=
  C2spTlogVerificationErrorIn message INVALID_EVIDENCE.
Definition C2spTlogResourceLimitError (message : string) : exn :=
  log_error C2spTlogResourceLimitErrorClass false (Some INVALID_EVIDENCE) None message.

(** [new VerificationError(message, init)] for the plain class. *)
Definition newVerificationError (message : string) (code : VerificationCode)
    (category : option LifecycleErrorCategory) (transient : bool) : exn :=
  EVerification {|
    ve_class := PlainVerificationError; ve_code := code; ve_transient := transient;
    ve_errorCategory := category; ve_status := None; ve_message := message |}.

(** [c2spLogError]: adapts a failure at the package boundary. *)
Definition c2spLogError (message : string) (cause : exn) (transient : bool) : exn :=
  match cause with
  | EVerification e =>
      if bool_decide (ve_code e = LogError) then cause
      else newVerificationError message LogError
             (Some (default INVALID_EVIDENCE (ve_errorCategory e))) (ve_transient e)
  | _ => newVerificationError message LogError (Some INVALID_EVIDENCE) transient
  end.

(** ** Numbers

    [Number.isSafeInteger] on a value the model keeps as an integer. *)

Definition MAX_SAFE_INTEGER : Z := 2 ^ 53 - 1.

Definition isSafeInteger (z : Z) : bool :=
  (- MAX_SAFE_INTEGER <=? z) && (z <=? MAX_SAFE_INTEGER).

Lemma isSafeInteger_spec z :
  isSafeInteger z = true <-> - MAX_SAFE_INTEGER <= z <= MAX_SAFE_INTEGER.
Proof. unfold isSafeInteger. rewrite andb_true_iff. lia. Qed.

(** ** Bytes

    A [Uint8Array] is a list of bytes; a store of a number keeps it modulo 256. *)

Notation bytes := (list byte).

Definition b2z (b : byte) : Z := Z.of_N (Byte.to_N b).
Definition z2b (z : Z) : byte := default x00 (Byte.of_N (Z.to_N (z mod 256))).

#[export] Instance byte_eq_dec : EqDecision byte := Byte.byte_eq_dec.

Lemma b2z_range b : 0 <= b2z b < 256.
Proof. unfold b2z. pose proof (Byte.to_N_bounded b). lia. Qed.

Lemma b2z_z2b z : b2z (z2b z) = z mod 256.
Proof.
  unfold b2z, z2b. pose proof (Z.mod_pos_bound z 256 eq_refl) as Hz.
  destruct (Byte.of_N (Z.to_N (z mod 256))) as [b|] eqn:E; cbn.
  - apply Byte.to_of_N in E. rewrite E. lia.
  - apply Byte.of_N_None_iff in E. lia.
Qed.

Lemma b2z_z2b_small z : 0 <= z < 256 -> b2z (z2b z) = z.
Proof. intros H. by rewrite b2z_z2b, Z.mod_small. Qed.

Lemma z2b_b2z b : z2b (b2z b) = b.
Proof.
  unfold z2b. rewrite Z.mod_small by apply b2z_range.
  unfold b2z. rewrite N2Z.id, Byte.of_to_N. done.
Qed.

Lemma b2z_inj b c : b2z b = b2z c -> b = c.
Proof. intros H. by rewrite <-(z2b_b2z b), <-(z2b_b2z c), H. Qed.

(** ** Lists *)

Definition zlen {A} (l : list A) : Z := Z.of_nat (List.length l).

Lemma zlen_nonneg {A} (l : list A) : 0 <= zlen l.
Proof. unfold zlen. lia. Qed.

Lemma zlen_app {A} (l k : list A) : zlen (l ++ k) = zlen l + zlen k.
Proof. unfold zlen. rewrite length_app. lia. Qed.

Lemma zlen_cons {A} (a : A) l : zlen (a :: l) = 1 + zlen l.
Proof. unfold zlen. cbn [List.length]. lia. Qed.

Lemma zlen_pos {A} (l : list A) : l <> [] -> 0 < zlen l.
Proof. destruct l; [done|]. rewrite zlen_cons. pose proof (zlen_nonneg l). lia. Qed.

Lemma zlen_nil_inv {A} (l : list A) : zlen l = 0 -> l = [].
Proof. destruct l; [done|]. rewrite zlen_cons. pose proof (zlen_nonneg l). lia. Qed.

Lemma take_app_zlen {A} (l k : list A) n : n = zlen l -> take (Z.to_nat n) (l ++ k) = l.
Proof. intros ->. unfold zlen. rewrite Nat2Z.id. apply take_app_length. Qed.

Lemma drop_app_zlen {A} (l k : list A) n : n = zlen l -> drop (Z.to_nat n) (l ++ k) = k.
Proof. intros ->. unfold zlen. rewrite Nat2Z.id. apply drop_app_length. Qed.

Lemma existsb_false_Forall {A} (f : A -> bool) l :
  existsb f l = false <-> Forall (fun a => f a = false) l.
Proof.
  induction l as [|a l IH]; cbn.
  - split; [constructor | done].
  - rewrite orb_false_iff, Forall_cons, IH. done.
Qed.

Lemma forallb_true_Forall {A} (f : A -> bool) l :
  forallb f l = true <-> Forall (fun a => f a = true) l.
Proof.
  induction l as [|a l IH]; cbn.
  - split; [constructor | done].
  - rewrite andb_true_iff, Forall_cons, IH. done.
Qed.

(** [Array.prototype.sort], which is stable: [before a b] says that the comparator
    puts [a] strictly before [b]. *)
Fixpoint sort_insert {A} (before : A -> A -> bool) (x : A) (l : list A) : list A :=
  match l with
  | [] => [x]
  | y :: r => if before y x then y :: sort_insert before x r else x :: l
  end.
Fixpoint sort_by {A} (before : A -> A -> bool) (l : list A) : list A :=
  match l with
  | [] => []
  | x :: l => sort_insert before x (sort_by before l)
  end.

Lemma sort_insert_perm {A} (before : A -> A -> bool) x l : sort_insert before x l ≡ₚ x :: l.
Proof.
  induction l as [|y l IH]; cbn; [done|]. destruct (before y x); [|done].
  rewrite IH. apply Permutation_swap.
Qed.

Lemma sort_by_perm {A} (before : A -> A -> bool) l : sort_by before l ≡ₚ l.
Proof. induction l as [|x l IH]; cbn; [done|]. by rewrite sort_insert_perm, IH. Qed.

Lemma Forall2_perm_r {A B} (R : A -> B -> Prop) l k k' :
  Forall2 R l k -> k ≡ₚ k' -> exists l', l ≡ₚ l' /\ Forall2 R l' k'.
Proof.
  intros H Hp. revert l H; induction Hp as [|b k k' _ IH|b c k|k1 k2 k3 _ IH1 _ IH2]; intros l H.
  - exists l. done.
  - apply Forall2_cons_inv_r in H as (a & l0 & Hab & Hl & ->).
    destruct (IH _ Hl) as (l' & Hp & Hl'). exists (a :: l'). split; [by constructor|by constructor].
  - apply Forall2_cons_inv_r in H as (a & l0 & Hab & Hl & ->).
    apply Forall2_cons_inv_r in Hl as (a' & l1 & Hac & Hl & ->).
    exists (a' :: a :: l1). split; [constructor|by repeat constructor].
  - destruct (IH1 _ H) as (l1 & Hp1 & H1). destruct (IH2 _ H1) as (l2 & Hp2 & H2).
    exists l2. split; [by etrans|done].
Qed.

(** A sorted list: no element must precede an earlier one. *)
Definition not_before {A} (before : A -> A -> bool) (x y : A) : Prop := before y x = false.

Lemma sort_by_sorted {A} (before : A -> A -> bool) l :
  (forall x y, before x y = true -> before y x = false) ->
  (forall x y z, not_before before x y -> not_before before y z -> not_before before x z) ->
  StronglySorted (not_before before) (sort_by before l).
Proof.
  intros Hasym Htrans. induction l as [|x l IH]; cbn; [constructor|].
  induction IH as [|y k Hk IHk Hy]; cbn; [repeat constructor|].
  destruct (before y x) eqn:E.
  - constructor; [done|]. rewrite sort_insert_perm. constructor; [by apply Hasym|done].
  - constructor; [by constructor|]. constructor; [done|].
    eapply Forall_impl; [exact Hy|]. intros z Hz. by eapply Htrans.
Qed.

(** [new Set(l).size === l.length] *)
Definition distinct {A} `{EqDecision A} (l : list A) : bool := bool_decide (NoDup l).

(** Induction on the length of a list. *)
Lemma list_len_ind {A} (P : list A -> Prop) :
  (forall l, (forall k, (List.length k < List.length l)%nat -> P k) -> P l) -> forall l, P l.
Proof.
  intros H l. remember (List.length l) as n eqn:En. revert l En.
  induction n as [n IH] using lt_wf_ind; intros l ->. apply H.
  intros k Hk. by eapply IH.
Qed.

Create HintDb dnsid.
#[export] Hint Resolve zlen_nonneg b2z_range : dnsid.
#[export] Hint Rewrite @zlen_app @zlen_cons b2z_z2b z2b_b2z : dnsid.

(** ** Counting *)

Definition count {A} (f : A -> bool) (l : list A) : nat := List.length (List.filter f l).

Lemma count_insert {A} (f : A -> bool) l i x y : l !! i = Some x ->
  (count f (<[i := y]> l) + Nat.b2n (f x) = count f l + Nat.b2n (f y))%nat.
Proof.
  unfold count. revert i; induction l as [|z l IH]; intros i H; [done|].
  destruct i as [|i].
  - injection H as ->. cbn. destruct (f x), (f y); cbn; lia.
  - specialize (IH i H). cbn. destruct (f z); [exact (f_equal S IH)|exact IH].
Qed.

Lemma count_le {A} (f : A -> bool) l : (count f l <= List.length l)%nat.
Proof. unfold count. induction l as [|z l IH]; cbn; [lia|]. destruct (f z); cbn; lia. Qed.
