(* ===== verification/Effects.v ===== *)
(** Code that calls its environment and may fail in between.

    A computation extends the list of the calls made so far, each recorded with its answer,
    and returns or raises.  The answer of a call is a function of the calls before it, so a
    theorem for every environment covers every behaviour of it; what a failed computation
    has called stays called. *)

From S2P Require Import Prelude.

Inductive outcome (fail A : Type) := Returns (a : A) | Raises (e : fail).
Arguments Returns {fail A} a.
Arguments Raises {fail A} e.

Definition Eff (event fail A : Type) : Type := list event -> outcome fail A * list event.

Section Operations.
Context {event fail : Type}.

#[export] Instance Eff_ret : MRet (Eff event fail) := fun A a t => (Returns a, t).
#[export] Instance Eff_bind : MBind (Eff event fail) := fun A B f m t =>
  match m t with (Returns a, t) => f a t | (Raises e, t) => (Raises e, t) end.

Definition call {B} (answer : list event -> B) (log : B -> event) : Eff event fail B :=
  fun t => (Returns (answer t), t ++ [log (answer t)]).
Definition raise {A} (e : fail) : Eff event fail A := fun t => (Raises e, t).
Definition pure_res {A} (inject : exn -> fail) (r : res A) : Eff event fail A :=
  match r with Ok a => mret a | Throw e => raise (inject e) end.
(** A call whose answer is a value or an exception. *)
Definition ask {A} (inject : exn -> fail) (answer : list event -> res A) (log : res A -> event) : Eff event fail A :=
  r ← call answer log; pure_res inject r.
Definition try_with {A} (m : Eff event fail A) (handler : fail -> Eff event fail A) : Eff event fail A := fun t =>
  match m t with (Returns a, t) => (Returns a, t) | (Raises e, t) => handler e t end.

(** ** What holds when a computation ends *)

Definition wp {A} (m : Eff event fail A) (t : list event) (Q : outcome fail A -> list event -> Prop) : Prop :=
  Q (fst (m t)) (snd (m t)).

Lemma wp_mono {A} (m : Eff event fail A) t (Q R : outcome fail A -> list event -> Prop) :
  wp m t Q -> (forall o t', Q o t' -> R o t') -> wp m t R.
Proof. unfold wp. auto. Qed.

Lemma wp_ret {A} (a : A) t Q : Q (Returns a) t -> wp (mret a) t Q.
Proof. done. Qed.

Lemma wp_raise {A} e t (Q : outcome fail A -> list event -> Prop) : Q (Raises e) t -> wp (raise e) t Q.
Proof. done. Qed.

Lemma wp_bind {A B} (m : Eff event fail A) (f : A -> Eff event fail B) t Q :
  wp m t (fun o t' => match o with Returns a => wp (f a) t' Q | Raises e => Q (Raises e) t' end) -> wp (m ≫= f) t Q.
Proof. unfold wp, mbind, Eff_bind. destruct (m t) as [[a|e] t']; done. Qed.

Lemma wp_call {B} (answer : list event -> B) log t Q :
  (forall b, Q (Returns b) (t ++ [log b])) -> wp (call answer log) t Q.
Proof. intros H. apply H. Qed.

Lemma wp_pure {A} inject (r : res A) t Q :
  (forall a, r = Ok a -> Q (Returns a) t) -> (forall e, r = Throw e -> Q (Raises (inject e)) t) ->
  wp (pure_res inject r) t Q.
Proof. intros H1 H2. unfold wp, pure_res. destruct r; [by apply H1|by apply H2]. Qed.

Lemma wp_try {A} (m : Eff event fail A) h t Q :
  wp m t (fun o t' => match o with Returns a => Q (Returns a) t' | Raises e => wp (h e) t' Q end) ->
  wp (try_with m h) t Q.
Proof. unfold wp, try_with. destruct (m t) as [[a|e] t']; done. Qed.

Lemma wp_ask {A} inject (answer : list event -> res A) log t Q :
  (forall r, Q (match r with Ok a => Returns a | Throw e => Raises (inject e) end) (t ++ [log r])) ->
  wp (ask inject answer log) t Q.
Proof. intros H. apply wp_bind, wp_call. intros [a|e]; [apply wp_ret, (H (Ok a))|apply wp_raise, (H (Throw e))]. Qed.

(** ** What a computation has made sure of when it returns

    [returning m t Q]: the calls are added to [t], and when [m] returns, [Q] holds. *)

Definition returning {A} (m : Eff event fail A) (t : list event) (Q : A -> list event -> Prop) : Prop :=
  wp m t (fun o t' => t `prefix_of` t' /\ match o with Returns a => Q a t' | Raises _ => True end).

Lemma returning_run {A} (m : Eff event fail A) t Q a t' : returning m t Q -> m t = (Returns a, t') -> Q a t'.
Proof. unfold returning, wp. intros [_ H] E. by rewrite E in H. Qed.

Lemma returning_mono {A} (m : Eff event fail A) t (Q R : A -> list event -> Prop) :
  returning m t Q -> (forall a t', t `prefix_of` t' -> Q a t' -> R a t') -> returning m t R.
Proof. unfold returning. intros H HQR. refine (wp_mono _ _ _ _ H _). intros [a|e] t' [Hp HQ]; split; auto. Qed.

Lemma returning_and {A} (m : Eff event fail A) t (Q R : A -> list event -> Prop) :
  returning m t Q -> returning m t R -> returning m t (fun a t' => Q a t' /\ R a t').
Proof. unfold returning, wp. destruct (m t) as [[a|e] t']; naive_solver. Qed.

(** What a run returns is what it returns. *)
Lemma returning_self {A} (m : Eff event fail A) t Q :
  returning m t Q -> returning m t (fun a t' => m t = (Returns a, t') /\ Q a t').
Proof. unfold returning, wp. destruct (m t) as [[a|e] t']; naive_solver. Qed.

Lemma returning_ret {A} (a : A) t (Q : A -> list event -> Prop) : Q a t -> returning (mret a) t Q.
Proof. intros H. by apply wp_ret. Qed.

Lemma returning_raise {A} e t (Q : A -> list event -> Prop) : returning (raise e) t Q.
Proof. by apply wp_raise. Qed.

Lemma returning_bind {A B} (m : Eff event fail A) (f : A -> Eff event fail B) t Q :
  returning m t (fun a t' => returning (f a) t' Q) -> returning (m ≫= f) t Q.
Proof.
  unfold returning. intros H. apply wp_bind. refine (wp_mono _ _ _ _ H _). intros [a|e] t' [Hp HQ]; [|done].
  refine (wp_mono _ _ _ _ HQ _). intros [b|e] t'' [Hp' HQ']; (split; [by etrans|done]).
Qed.

Lemma returning_call {B} (answer : list event -> B) log t (Q : B -> list event -> Prop) :
  (forall b, Q b (t ++ [log b])) -> returning (call answer log) t Q.
Proof. intros H. apply wp_call. intros b. split; [by apply prefix_app_r|done]. Qed.

(** The answer is the one for the calls before it. *)
Lemma returning_call_at {B} (answer : list event -> B) log t (Q : B -> list event -> Prop) :
  Q (answer t) (t ++ [log (answer t)]) -> returning (call answer log) t Q.
Proof. intros H. split; [by apply prefix_app_r|done]. Qed.

Lemma returning_pure {A} inject (r : res A) t (Q : A -> list event -> Prop) :
  (forall a, r = Ok a -> Q a t) -> returning (pure_res inject r) t Q.
Proof. intros H. apply wp_pure; [intros a Ha; split; auto|done]. Qed.

Lemma returning_ask {A} inject (answer : list event -> res A) log t (Q : A -> list event -> Prop) :
  (forall a, answer t = Ok a -> Q a (t ++ [log (Ok a)])) -> returning (ask inject answer log) t Q.
Proof.
  intros H. apply returning_bind, returning_call_at. destruct (answer t) as [a|e] eqn:E.
  - apply returning_ret. by apply H.
  - apply returning_raise.
Qed.

(** *** Computations that return a value after any calls *)

Definition delivers {A} (m : Eff event fail A) (a : A) : Prop := forall t, exists t', m t = (Returns a, t').

Lemma delivers_ret {A} (a : A) : delivers (mret a) a.
Proof. intros t. by exists t. Qed.

Lemma delivers_bind {A B} (m : Eff event fail A) (f : A -> Eff event fail B) a b :
  delivers m a -> delivers (f a) b -> delivers (m ≫= f) b.
Proof.
  intros Hm Hf t. destruct (Hm t) as [t1 E]. destruct (Hf t1) as [t2 E2]. exists t2.
  unfold mbind, Eff_bind. by rewrite E.
Qed.

Lemma delivers_call {A B} (answer : list event -> B) log (f : B -> Eff event fail A) a :
  (forall t, delivers (f (answer t)) a) -> delivers (call answer log ≫= f) a.
Proof. intros H t. apply (H t (t ++ [log (answer t)])). Qed.

Lemma delivers_pure {A} inject (a : A) : delivers (pure_res inject (Ok a)) a.
Proof. apply delivers_ret. Qed.

Lemma delivers_ask {A} inject (answer : list event -> res A) log a :
  (forall t, answer t = Ok a) -> delivers (ask inject answer log) a.
Proof. intros H. apply delivers_call. intros t. rewrite H. apply delivers_pure. Qed.

Lemma delivers_try {A} (m : Eff event fail A) h a : delivers m a -> delivers (try_with m h) a.
Proof. intros H t. destruct (H t) as [t' E]. exists t'. unfold try_with. by rewrite E. Qed.

Lemma returning_try {A} (m : Eff event fail A) h t Q :
  returning m t Q -> (forall e t', t `prefix_of` t' -> returning (h e) t' Q) -> returning (try_with m h) t Q.
Proof.
  unfold returning. intros H Hh. apply wp_try. refine (wp_mono _ _ _ _ H _). intros [a|e] t' [Hp HQ]; [done|].
  refine (wp_mono _ _ _ _ (Hh _ _ Hp) _). intros [b|e'] t'' [Hp' HQ']; (split; [by etrans|done]).
Qed.

(** ** Traces whose every call was allowed when it was made *)

Section Allowed.
Context (allowed : list event -> event -> Prop).

Definition all_allowed (t : list event) : Prop := forall i e, t !! i = Some e -> allowed (take i t) e.

Lemma all_allowed_nil : all_allowed [].
Proof. intros i e H. by rewrite lookup_nil in H. Qed.

Lemma all_allowed_snoc t e : all_allowed (t ++ [e]) <-> all_allowed t /\ allowed t e.
Proof.
  split.
  - intros H. split.
    + intros i e' Hi. rewrite <-(take_app_le t [e] i); [|by apply lookup_lt_Some in Hi; lia].
      apply H. by apply lookup_app_l_Some.
    + specialize (H (length t) e). rewrite take_app_length in H. apply H.
      rewrite lookup_app_r by lia. by rewrite Nat.sub_diag.
  - intros [H He] i e' Hi. apply lookup_app_Some in Hi as [Hi|[Hl Hi]].
    + rewrite take_app_le by (apply lookup_lt_Some in Hi; lia). by apply H.
    + apply list_lookup_singleton_Some in Hi as [Hz <-].
      replace i with (length t) by lia. by rewrite take_app_length.
Qed.

Lemma all_allowed_take t n : all_allowed t -> all_allowed (take n t).
Proof.
  intros H i e Hi. apply lookup_take_Some in Hi as [Hi Hn]. rewrite take_take, Nat.min_l by lia. by apply H.
Qed.
End Allowed.
End Operations.

#[export] Hint Resolve all_allowed_nil : core.
