(* ===== verification/Sha256.v ===== *)
(** SHA-256.

    The program calls the platform's SHA-256 ([node:crypto] and
    [@noble/hashes]).  The components that hash are developed against the
    interface [Hash256]; [Sha256_instance] is the FIPS 180-4 function, so that
    definitions and witnesses evaluate to the digests the program computes. *)

From S2P Require Import Prelude.

(** ** The interface: a function from byte strings to 32-byte digests. *)

Class Hash256 := {
  digest : bytes -> bytes;
  digest_length : forall m, List.length (digest m) = 32%nat
}.

(** ** FIPS 180-4 *)

Module FIPS.

Definition w32 (x : Z) : Z := Z.land x (Z.ones 32).
Definition add32 (x y : Z) : Z := w32 (x + y).
Definition rotr (n x : Z) : Z := Z.lor (Z.shiftr x n) (w32 (Z.shiftl x (32 - n))).
Definition ch (x y z : Z) : Z := Z.lxor (Z.land x y) (Z.land (Z.lxor x (Z.ones 32)) z).
Definition maj (x y z : Z) : Z := Z.lxor (Z.land x y) (Z.lxor (Z.land x z) (Z.land y z)).
Definition bsig0 (x : Z) : Z := Z.lxor (rotr 2 x) (Z.lxor (rotr 13 x) (rotr 22 x)).
Definition bsig1 (x : Z) : Z := Z.lxor (rotr 6 x) (Z.lxor (rotr 11 x) (rotr 25 x)).
Definition ssig0 (x : Z) : Z := Z.lxor (rotr 7 x) (Z.lxor (rotr 18 x) (Z.shiftr x 3)).
Definition ssig1 (x : Z) : Z := Z.lxor (rotr 17 x) (Z.lxor (rotr 19 x) (Z.shiftr x 10)).

(** The constants: fractional parts of square and cube roots of the first primes. *)
Definition is_prime (n : nat) : bool :=
  (2 <=? n)%nat && forallb (fun d => negb (Nat.modulo n d =? 0)%nat) (seq 2 (n - 2)).
Definition primes64 : list Z := Eval vm_compute in
  map Z.of_nat (List.filter is_prime (seq 2 310)).

(** The integer [k]-th root of [n], one bit at a time from bit [b]. *)
Fixpoint iroot (k : Z) (b : nat) (acc n : Z) : Z :=
  match b with
  | O => acc
  | S b =>
      let acc' := acc + 2 ^ Z.of_nat b in
      iroot k b (if acc' ^ k <=? n then acc' else acc) n
  end.

Definition K : list Z := Eval vm_compute in
  map (fun p => w32 (iroot 3 36 0 (p * 2 ^ 96))) primes64.

Record regs := Regs { ra : Z; rb : Z; rc : Z; rd : Z; re : Z; rf : Z; rg : Z; rh : Z }.

Definition H0 : regs := Eval vm_compute in
  let h i := w32 (iroot 2 40 0 (nth i primes64 0 * 2 ^ 64)) in
  Regs (h 0%nat) (h 1%nat) (h 2%nat) (h 3%nat) (h 4%nat) (h 5%nat) (h 6%nat) (h 7%nat).

Definition round (s : regs) (kw : Z * Z) : regs :=
  let '(k, w) := kw in
  let t1 := add32 (add32 (add32 (add32 (rh s) (bsig1 (re s))) (ch (re s) (rf s) (rg s))) k) w in
  let t2 := add32 (bsig0 (ra s)) (maj (ra s) (rb s) (rc s)) in
  Regs (add32 t1 t2) (ra s) (rb s) (rc s) (add32 (rd s) t1) (re s) (rf s) (rg s).

(** The message schedule; the window holds the last sixteen words. *)
Fixpoint schedule (n : nat) (window : list Z) : list Z :=
  match n with
  | O => []
  | S n =>
      match window with
      | w0 :: rest =>
          let w' := add32 (add32 (ssig1 (nth 13 rest 0)) (nth 8 rest 0))
                          (add32 (ssig0 (nth 0 rest 0)) w0) in
          w0 :: schedule n (rest ++ [w'])
      | [] => []
      end
  end.

Definition compress (s : regs) (block : list Z) : regs :=
  let t := foldl round s (combine K (schedule 64 block)) in
  Regs (add32 (ra s) (ra t)) (add32 (rb s) (rb t)) (add32 (rc s) (rc t)) (add32 (rd s) (rd t))
       (add32 (re s) (re t)) (add32 (rf s) (rf t)) (add32 (rg s) (rg t)) (add32 (rh s) (rh t)).

(** Big-endian words. *)
Fixpoint words (l : bytes) : list Z :=
  match l with
  | a :: b :: c :: d :: l =>
      (b2z a * 2 ^ 24 + b2z b * 2 ^ 16 + b2z c * 2 ^ 8 + b2z d) :: words l
  | _ => []
  end.

Definition be (n : nat) (z : Z) : bytes :=
  map (fun i => z2b (Z.shiftr z (8 * Z.of_nat (n - 1 - i)))) (seq 0 n).

Definition pad (m : bytes) : bytes :=
  let zeros := Z.to_nat ((55 - zlen m) mod 64) in
  m ++ x80 :: repeat x00 zeros ++ be 8 (8 * zlen m).

Fixpoint blocks (fuel : nat) (l : list Z) (s : regs) : regs :=
  match fuel, l with
  | S fuel, _ :: _ => blocks fuel (skipn 16 l) (compress s (firstn 16 l))
  | _, _ => s
  end.

Definition sha256 (m : bytes) : bytes :=
  let ws := words (pad m) in
  let s := blocks (List.length ws) ws H0 in
  concat (map (be 4) [ra s; rb s; rc s; rd s; re s; rf s; rg s; rh s]).

Lemma fips_length m : List.length (sha256 m) = 32%nat.
Proof. reflexivity. Qed.

End FIPS.

Definition Sha256_instance : Hash256 := {|
  digest := FIPS.sha256; digest_length := FIPS.fips_length |}.

(** The digests of the empty message and of "abc" (FIPS 180-4 examples). *)
Example sha256_empty :
  map b2z (FIPS.sha256 []) =
  [0xe3;0xb0;0xc4;0x42;0x98;0xfc;0x1c;0x14;0x9a;0xfb;0xf4;0xc8;0x99;0x6f;0xb9;0x24;
   0x27;0xae;0x41;0xe4;0x64;0x9b;0x93;0x4c;0xa4;0x95;0x99;0x1b;0x78;0x52;0xb8;0x55].
Proof. vm_compute. reflexivity. Qed.

Example sha256_abc :
  map b2z (FIPS.sha256 [x61; x62; x63]) =
  [0xba;0x78;0x16;0xbf;0x8f;0x01;0xcf;0xea;0x41;0x41;0x40;0xde;0x5d;0xae;0x22;0x23;
   0xb0;0x03;0x61;0xa3;0x96;0x17;0x7a;0x9c;0xb4;0x10;0xff;0x61;0xf2;0x00;0x15;0xad].
Proof. vm_compute. reflexivity. Qed.

(** A checksum in place of SHA-256, which keeps the runs of examples short. *)
Definition checksum (m : bytes) : Z := foldl (fun a b => Z.land (a * 5 + b2z b + 1) 65535) 7 m.
Definition Checksum : Hash256.
Proof.
  refine {| digest := fun m => repeat x00 30 ++ map (fun i => z2b (Z.shiftr (checksum m) (8 * Z.of_nat i))) (seq 0 2) |}.
  intros m. by rewrite length_app, repeat_length, length_map, length_seq.
Defined.
