(* ===== verification/HashTree.v ===== *)
(** Hash trees over an abstract node function.

    The Merkle routines of the program only ever combine hashes with a binary
    node function, so their tree algebra is developed here over any type [A]
    with a function [node]: level pairing, the RFC 6962 tree head [mth], the
    audit path [path], and the climb that recomputes a root from a path.  The
    components instantiate [node] with SHA-256, or with the free tree
    constructor when a proof needs to see the shape of the tree. *)

From S2P Require Import Prelude.

(** Parity of an index, at [nat] and at the number type of the code. *)
Lemma index_cases (i : nat) :
  (exists y, i = (2 * y)%nat /\ Nat.even i = true /\ (i / 2)%nat = y /\
     Z.of_nat i mod 2 = 0 /\ Z.of_nat i / 2 = Z.of_nat (i / 2)) \/
  (exists y, i = (2 * y + 1)%nat /\ Nat.even i = false /\ (i / 2)%nat = y /\
     Z.of_nat i mod 2 = 1 /\ Z.of_nat i / 2 = Z.of_nat (i / 2)).
Proof.
  assert (Hq : Z.of_nat i / 2 = Z.of_nat (i / 2)) by (by rewrite Nat2Z.inj_div).
  pose proof (Nat.div_mod_eq i 2) as Hd. pose proof (Nat2Z.inj_mod i 2) as Hm.
  destruct (Nat.even i) eqn:E.
  - left. apply Nat.even_spec in E as [y ->]. exists y.
    rewrite Nat.mul_comm, Nat.div_mul in * by lia. rewrite Nat.Div0.mod_mul in Hm. auto.
  - right. assert (Nat.odd i = true) as [y ->]%Nat.odd_spec by (by rewrite <-Nat.negb_even, E).
    exists y. rewrite Nat.add_comm, Nat.mul_comm, Nat.div_add in * by lia.
    rewrite Nat.Div0.mod_add in Hm. auto.
Qed.

Lemma half_succ_even i : 0 <= i -> (i + 1 + 1) / 2 = i / 2 + 1.
Proof.
  intros Hi. replace (i + 1 + 1) with (i + 1 * 2) by lia. rewrite Z.div_add by lia. lia.
Qed.

Section Tree.
Context {A : Type} (node : A -> A -> A) (d : A).

(** One pass of pairing neighbours; an odd last element is carried up. *)
Fixpoint pair_level (level : list A) : list A :=
  match level with
  | a :: b :: rest => node a b :: pair_level rest
  | [a] => [a]
  | [] => []
  end.

(** The largest power of two strictly below [n] (for [2 <= n]). *)
Definition split_point (n : nat) : nat := (2 ^ Nat.log2 (n - 1))%nat.

(** RFC 6962 section 2.1: the head of a non-empty list of leaf hashes. *)
Fixpoint mth_fuel (fuel : nat) (l : list A) : A :=
  match fuel, l with
  | S fuel, [a] => a
  | S fuel, _ :: _ =>
      let k := split_point (length l) in
      node (mth_fuel fuel (take k l)) (mth_fuel fuel (drop k l))
  | _, _ => d
  end.
Definition mth (l : list A) : A := mth_fuel (length l) l.

(** RFC 6962 section 2.1.1: the audit path of leaf [i], leaf level first. *)
Fixpoint path_fuel (fuel : nat) (i : nat) (l : list A) : list A :=
  match fuel with
  | O => []
  | S fuel =>
      if (length l <=? 1)%nat then [] else
      let k := split_point (length l) in
      if (i <? k)%nat then path_fuel fuel i (take k l) ++ [mth (drop k l)]
      else path_fuel fuel (i - k) (drop k l) ++ [mth (take k l)]
  end.
Definition path (i : nat) (l : list A) : list A := path_fuel (length l) i l.

(** The climb: at each level the running hash is the right child when its
    index is odd or last, the left child otherwise. *)
Fixpoint climb (hash : A) (i n : Z) (proof : list A) : A :=
  match proof with
  | [] => hash
  | sibling :: proof =>
      let hash :=
        if i mod 2 =? 1 then node sibling hash
        else if i <? n - 1 then node hash sibling
        else node sibling hash in
      climb hash (i / 2) ((n + 1) / 2) proof
  end.

(** The sides taken by the climb; [true] when the running hash is the left child. *)
Fixpoint sides (i n : Z) (proof : list A) : list (bool * A) :=
  match proof with
  | [] => []
  | s :: proof =>
      (negb (i mod 2 =? 1) && (i <? n - 1), s) :: sides (i / 2) ((n + 1) / 2) proof
  end.

Definition join (hash : A) (step : bool * A) : A :=
  if fst step then node hash (snd step) else node (snd step) hash.

(** *** Split points *)

Lemma split_point_bounds n : (2 <= n)%nat ->
  (1 <= split_point n < n /\ n <= 2 * split_point n)%nat.
Proof.
  intros Hn. unfold split_point.
  pose proof (Nat.log2_spec (n - 1) ltac:(lia)) as [H1 H2].
  rewrite Nat.pow_succ_r' in H2.
  assert (2 ^ Nat.log2 (n - 1) <> 0)%nat by (apply Nat.pow_nonzero; lia). lia.
Qed.

Lemma split_point_half n : (3 <= n)%nat ->
  split_point n = (2 * split_point ((n + 1) / 2))%nat.
Proof.
  intros Hn. unfold split_point.
  replace ((n + 1) / 2 - 1)%nat with ((n - 1) / 2)%nat
    by (pose proof (Nat.div_mod_eq (n + 1) 2); pose proof (Nat.div_mod_eq (n - 1) 2);
        pose proof (Nat.mod_upper_bound (n + 1) 2); pose proof (Nat.mod_upper_bound (n - 1) 2); lia).
  rewrite <-Nat.pow_succ_r'. f_equal.
  pose proof (Nat.log2_spec (n - 1) ltac:(lia)) as [H1 H2].
  destruct (Nat.log2 (n - 1)) as [|k] eqn:E.
  { cbn in H2. lia. }
  f_equal. symmetry. apply Nat.log2_unique; [lia|].
  rewrite !Nat.pow_succ_r' in *.
  pose proof (Nat.div_mod_eq (n - 1) 2); pose proof (Nat.mod_upper_bound (n - 1) 2). lia.
Qed.

(** *** Pairing *)

Lemma pair_ind (P : list A -> Prop) :
  P [] -> (forall a, P [a]) -> (forall a b l, P l -> P (a :: b :: l)) -> forall l, P l.
Proof.
  intros H0 H1 H2 l. apply (list_len_ind P). intros [|a [|b k]] IH; auto.
  apply H2, IH. cbn. lia.
Qed.

Lemma length_pair_level l : length (pair_level l) = ((length l + 1) / 2)%nat.
Proof.
  induction l as [| |a b l IH] using pair_ind; [done|done|].
  cbn [pair_level length]. rewrite IH.
  replace (S (S (length l)) + 1)%nat with ((length l + 1) + 1 * 2)%nat by lia.
  rewrite Nat.div_add by lia. lia.
Qed.

Lemma pair_level_app l1 l2 : Nat.even (length l1) = true ->
  pair_level (l1 ++ l2) = pair_level l1 ++ pair_level l2.
Proof.
  induction l1 as [| |a b l IH] using pair_ind; cbn; intros H; [done|done|].
  f_equal. by apply IH.
Qed.

Lemma pair_level_lookup l j :
  pair_level l !! j =
  match l !! (2 * j)%nat, l !! S (2 * j) with
  | Some a, Some b => Some (node a b)
  | o, _ => o
  end.
Proof.
  revert j; induction l as [|a|a b l IH] using pair_ind; intros j; [done| |].
  - destruct j as [|j]; [done|]. cbn [pair_level]. rewrite lookup_cons_ne_0 by done.
    replace (2 * S j)%nat with (S (S (2 * j))) by lia. done.
  - destruct j as [|j]; [done|]. cbn [pair_level].
    replace (2 * S j)%nat with (S (S (2 * j))) by lia. apply IH.
Qed.

Lemma pair_level_shorter l : (2 <= length l)%nat -> (length (pair_level l) < length l)%nat.
Proof.
  intros H. rewrite length_pair_level.
  pose proof (Nat.div_mod_eq (length l + 1) 2); lia.
Qed.

(** *** The tree head *)

Lemma mth_fuel_eq f1 f2 l : (length l <= f1)%nat -> (length l <= f2)%nat ->
  mth_fuel f1 l = mth_fuel f2 l.
Proof.
  revert f1 f2; induction l as [l IH] using list_len_ind; intros [|f1] [|f2] H1 H2;
    destruct l as [|a [|b l]]; cbn -[split_point] in *; try done; try lia.
  pose proof (split_point_bounds (S (S (length l))) ltac:(lia)).
  f_equal; apply IH; rewrite ?length_take, ?length_drop; cbn [length]; lia.
Qed.

Lemma mth_fuel_S f l : (2 <= length l)%nat ->
  mth_fuel (S f) l =
  node (mth_fuel f (take (split_point (length l)) l)) (mth_fuel f (drop (split_point (length l)) l)).
Proof. destruct l as [|a [|b l]]; cbn [length]; [lia|lia|done]. Qed.

Lemma mth_single a : mth [a] = a.
Proof. done. Qed.

Lemma mth_split l : (2 <= length l)%nat ->
  let k := split_point (length l) in mth l = node (mth (take k l)) (mth (drop k l)).
Proof.
  intros H k. unfold mth. pose proof (split_point_bounds (length l) H) as Hk. fold k in Hk.
  destruct (length l) as [|f] eqn:El; [lia|].
  rewrite mth_fuel_S by lia. rewrite El. fold k.
  f_equal; apply mth_fuel_eq; rewrite ?length_take, ?length_drop; lia.
Qed.

Lemma even_double k : Nat.even (2 * k) = true.
Proof. by rewrite Nat.even_mul. Qed.

Lemma half_split n : (3 <= n)%nat ->
  (let k := split_point n in let m := (n + 1) / 2 in
   2 <= m /\ k / 2 = split_point m /\ (k + 1) / 2 = split_point m
   /\ k = 2 * split_point m)%nat.
Proof.
  intros Hn k m. pose proof (split_point_half n Hn) as Hk. fold k m in Hk.
  pose proof (Nat.div_mod_eq (n + 1) 2); pose proof (Nat.mod_upper_bound (n + 1) 2).
  split; [lia|]. rewrite Hk. split; [|split; [|done]].
  - rewrite Nat.mul_comm, Nat.div_mul by lia. done.
  - rewrite Nat.add_comm, Nat.mul_comm, Nat.div_add by lia. done.
Qed.

Lemma pair_level_take_drop l : (3 <= length l)%nat ->
  let k := split_point (length l) in let m := split_point (length (pair_level l)) in
  take m (pair_level l) = pair_level (take k l) /\
  drop m (pair_level l) = pair_level (drop k l).
Proof.
  intros H k m. pose proof (half_split (length l) H) as (Hm & Hk1 & Hk2 & Hk).
  fold k in Hk1, Hk2, Hk. rewrite <-length_pair_level in *. fold m in Hk1, Hk2, Hk.
  pose proof (split_point_bounds (length l) ltac:(lia)) as Hb. fold k in Hb.
  assert (Hl : length (take k l) = k) by (rewrite length_take; lia).
  assert (Hp : length (pair_level (take k l)) = m) by (rewrite length_pair_level, Hl; lia).
  rewrite <-(take_drop k l) at 1 3.
  rewrite pair_level_app by (rewrite Hl, Hk; apply even_double).
  rewrite <-Hp. split; [apply take_app_length | apply drop_app_length].
Qed.

(** Pairing a level does not change the head of the tree. *)
Lemma mth_pair_level l : mth (pair_level l) = mth l.
Proof.
  induction l as [l IH] using list_len_ind.
  destruct (decide (length l <= 2)%nat) as [Hs|Hs].
  { destruct l as [|a [|b [|c l]]]; cbn in Hs; [done|done|done|lia]. }
  assert (H3 : (3 <= length l)%nat) by lia.
  pose proof (pair_level_take_drop l H3) as [Ht Hd].
  pose proof (split_point_bounds (length l) ltac:(lia)).
  assert (2 <= length (pair_level l))%nat.
  { rewrite length_pair_level. apply (half_split (length l) H3). }
  rewrite (mth_split l), (mth_split (pair_level l)) by lia. cbn zeta.
  rewrite Ht, Hd. f_equal; apply IH; rewrite ?length_take, ?length_drop; lia.
Qed.

(** *** Audit paths *)

Lemma path_fuel_eq f1 f2 i l : (length l <= f1)%nat -> (length l <= f2)%nat ->
  path_fuel f1 i l = path_fuel f2 i l.
Proof.
  revert f1 f2 i; induction l as [l IH] using list_len_ind; intros [|f1] [|f2] i H1 H2.
  - done.
  - destruct l; [done|cbn in H1; lia].
  - destruct l; [done|cbn in H2; lia].
  - cbn. destruct (Nat.leb_spec (length l) 1) as [|Hl]; [done|].
    pose proof (split_point_bounds (length l) ltac:(lia)).
    case_match; f_equal; apply IH; rewrite ?length_take, ?length_drop; lia.
Qed.

Lemma path_split i l : (2 <= length l)%nat ->
  let k := split_point (length l) in
  path i l = if (i <? k)%nat then path i (take k l) ++ [mth (drop k l)]
             else path (i - k) (drop k l) ++ [mth (take k l)].
Proof.
  intros H k. unfold path. pose proof (split_point_bounds (length l) H) as Hk. fold k in Hk.
  destruct (length l) as [|f] eqn:El; [lia|]. cbn [path_fuel]. rewrite El. fold k.
  destruct (Nat.leb_spec (S f) 1) as [|_]; [lia|].
  case_match; f_equal; apply path_fuel_eq; rewrite ?length_take, ?length_drop; lia.
Qed.

Lemma path_single i a : path i [a] = [].
Proof. done. Qed.

(** The sibling of [i] in a level, absent for an unpaired last element. *)
Definition sibling (i : nat) (level : list A) : list A :=
  match (if Nat.even i then level !! S i else level !! (i - 1)%nat) with
  | Some s => [s]
  | None => []
  end.

Lemma sibling_take i k l : Nat.even k = true -> (i < k)%nat ->
  sibling i (take k l) = sibling i l.
Proof.
  intros Hk Hi. unfold sibling. destruct (Nat.even i) eqn:Ei.
  - apply Nat.even_spec in Hk as [x ->], Ei as [y ->].
    rewrite lookup_take_lt by lia. done.
  - rewrite lookup_take_lt by lia. done.
Qed.

Lemma sibling_drop i k l : Nat.even k = true -> (k <= i)%nat ->
  sibling (i - k) (drop k l) = sibling i l.
Proof.
  intros Hk Hi. unfold sibling. rewrite Nat.even_sub, Hk by done.
  destruct (index_cases i) as [(y & Hy & Ei & _)|(y & Hy & Ei & _)]; rewrite Ei; cbn;
    rewrite lookup_drop.
  - by replace (k + S (i - k))%nat with (S i) by lia.
  - apply Nat.even_spec in Hk as [x ->].
    by replace (2 * x + (i - 2 * x - 1))%nat with (i - 1)%nat by lia.
Qed.

Lemma sub_double_half i m : (2 * m <= i)%nat -> ((i - 2 * m) / 2 = i / 2 - m)%nat.
Proof.
  intros H. replace i with ((i - 2 * m) + m * 2)%nat at 2 by lia.
  rewrite Nat.div_add by lia. lia.
Qed.

Lemma half_lt i m : (i < 2 * m)%nat <-> (i / 2 < m)%nat.
Proof. pose proof (Nat.div_mod_eq i 2); pose proof (Nat.mod_upper_bound i 2); lia. Qed.

(** One level of the audit path: the sibling, then the path one level up. *)
Lemma path_pair_level l i : (2 <= length l)%nat -> (i < length l)%nat ->
  path i l = sibling i l ++ path (i / 2) (pair_level l).
Proof.
  revert i; induction l as [l IH] using list_len_ind; intros i H2 Hi.
  destruct (decide (length l = 2%nat)) as [Hs|Hs].
  { destruct l as [|a [|b [|c l]]]; try (cbn in *; lia).
    destruct i as [|[|i]]; [done|done|cbn in Hi; lia]. }
  assert (H3 : (3 <= length l)%nat) by lia.
  pose proof (pair_level_take_drop l H3) as [Ht Hd].
  pose proof (split_point_bounds (length l) ltac:(lia)) as Hb.
  pose proof (half_split (length l) H3) as (Hm & _ & _ & Hk).
  rewrite <-length_pair_level in Hm, Hk.
  rewrite (path_split i l), (path_split (i / 2) (pair_level l)) by lia. cbn zeta.
  rewrite Ht, Hd, !mth_pair_level.
  set (k := split_point (length l)) in *. set (m := split_point (length (pair_level l))) in *.
  pose proof (split_point_bounds (length (pair_level l)) ltac:(lia)) as Hbm. fold m in Hbm.
  assert (He : Nat.even k = true) by (rewrite Hk; apply even_double).
  destruct (Nat.ltb_spec i k) as [Hik|Hik].
  - rewrite (proj2 (Nat.ltb_lt _ _)) by (apply half_lt; lia).
    rewrite IH by (rewrite length_take; lia).
    rewrite sibling_take by (done || lia). by rewrite app_assoc.
  - rewrite (proj2 (Nat.ltb_ge _ _))
      by (destruct (Nat.le_gt_cases m (i / 2)) as [|Hc]; [done|apply half_lt in Hc; lia]).
    rewrite <-(sub_double_half i m), <-Hk by lia.
    rewrite <-(sibling_drop i k l He Hik), app_assoc. f_equal.
    destruct (decide (length (drop k l) = 1%nat)) as [H1|H1].
    + rewrite length_drop in H1. replace (i - k)%nat with 0%nat by lia.
      destruct (drop k l) as [|x [|y r]] eqn:Er; [done|done|].
      apply (f_equal length) in Er. rewrite length_drop in Er. cbn in Er. lia.
    + rewrite length_drop in H1. apply IH; rewrite length_drop; lia.
Qed.

(** *** The climb *)

Lemma climb_sides h i n p : climb h i n p = foldl join h (sides i n p).
Proof.
  revert h i n; induction p as [|s p IH]; intros h i n; cbn; [done|].
  rewrite IH. f_equal. unfold join; cbn. repeat case_match; done.
Qed.

(** An index that is last stays last, so every further sibling is on the left. *)
Lemma climb_last h i p : 0 <= i -> climb h i (i + 1) p = foldl (fun h s => node s h) h p.
Proof.
  revert h i; induction p as [|s p IH]; intros h i Hi; cbn; [done|].
  replace (if i mod 2 =? 1 then node s h else if i <? i + 1 - 1 then node h s else node s h)
    with (node s h) by (repeat case_match; bool_inv; done || lia).
  rewrite half_succ_even by done. apply IH, Z.div_pos; lia.
Qed.

Lemma zlen_pair_level l : zlen (pair_level l) = (zlen l + 1) / 2.
Proof. unfold zlen. rewrite length_pair_level. rewrite Nat2Z.inj_div, Nat2Z.inj_add. done. Qed.

(** The climb along the audit path of a leaf reaches the tree head. *)
Lemma climb_path l i h : l !! i = Some h ->
  climb h (Z.of_nat i) (zlen l) (path i l) = mth l.
Proof.
  revert i h; induction l as [l IH] using list_len_ind; intros i h Hi.
  pose proof (lookup_lt_Some _ _ _ Hi) as Hlt.
  destruct l as [|a [|b l]]; [cbn in Hlt; lia| |].
  { destruct i; [|cbn in Hlt; lia]. by injection Hi as ->. }
  set (L := a :: b :: l) in *.
  rewrite path_pair_level by (cbn in *; lia).
  rewrite <-(mth_pair_level L).
  assert (Hp : (length (pair_level L) < length L)%nat) by (apply pair_level_shorter; cbn; lia).
  destruct (index_cases i) as [(y & Hy & Ei & Hy2 & Hz & Hi2)|(y & Hy & Ei & Hy2 & Hz & Hi2)];
    unfold sibling; rewrite Ei.
  - destruct (L !! S i) as [s|] eqn:Es; cbn [app climb].
    + rewrite Hz, Hi2, <-zlen_pair_level. cbn [Z.eqb].
      pose proof (lookup_lt_Some _ _ _ Es).
      rewrite (proj2 (Z.ltb_lt _ _)) by (unfold zlen; lia).
      apply IH; [done|]. rewrite pair_level_lookup, Hy2, <-Hy, Hi, Es. done.
    + apply lookup_ge_None in Es.
      assert (Hn : zlen L = Z.of_nat i + 1) by (unfold zlen; lia).
      rewrite Hn, climb_last by lia.
      rewrite <-(climb_last h (Z.of_nat i / 2)) by (apply Z.div_pos; lia).
      rewrite <-half_succ_even, <-Hn, <-zlen_pair_level, Hi2 by lia.
      apply IH; [done|]. rewrite pair_level_lookup, Hy2, <-Hy, Hi.
      by rewrite (proj2 (lookup_ge_None L (S i))) by done.
  - assert (is_Some (L !! (i - 1)%nat)) as [s Es] by (apply lookup_lt_is_Some; lia).
    rewrite Es; cbn [app climb]. rewrite Hz, Hi2, <-zlen_pair_level. cbn [Z.eqb].
    apply IH; [done|]. rewrite pair_level_lookup, Hy2.
    replace (2 * y)%nat with (i - 1)%nat by lia. rewrite Es.
    replace (S (i - 1)) with i by lia. by rewrite Hi.
Qed.

End Tree.

(** *** Homomorphisms between hash trees *)

Section Hom.
Context {A B : Type} (nodeA : A -> A -> A) (nodeB : B -> B -> B) (dA : A) (dB : B) (f : A -> B).
Context (Hf : forall a b, f (nodeA a b) = nodeB (f a) (f b)).

Lemma mth_hom l : l <> [] -> f (mth nodeA dA l) = mth nodeB dB (map f l).
Proof.
  induction l as [l IH] using list_len_ind; intros Hl.
  destruct (decide (length l = 1%nat)) as [H1|H1].
  { by destruct l as [|a [|b l]]; try (cbn in H1; lia). }
  assert (H2 : (2 <= length l)%nat) by (destruct l as [|a [|b l]]; cbn in *; [done|done|lia]).
  pose proof (split_point_bounds (length l) H2).
  rewrite (mth_split nodeA), (mth_split nodeB) by (rewrite ?length_map; lia). cbn zeta.
  rewrite Hf, length_map, !IH, firstn_map, skipn_map; try done;
    try (rewrite ?length_take, ?length_drop; lia);
    intros E%(f_equal length); rewrite ?length_take, ?length_drop in E; cbn in E; lia.
Qed.

Lemma path_fuel_length fuel i (l : list A) (k : list B) : length l = length k ->
  length (path_fuel nodeA dA fuel i l) = length (path_fuel nodeB dB fuel i k).
Proof.
  revert i l k; induction fuel as [|fuel IH]; intros i l k H; [done|]. cbn.
  rewrite H. case_match; [done|]. case_match; rewrite !length_app; cbn; f_equal;
    apply IH; rewrite ?length_take, ?length_drop; lia.
Qed.

Lemma path_length i (l : list A) (k : list B) : length l = length k ->
  length (path nodeA dA i l) = length (path nodeB dB i k).
Proof. intros H. unfold path. rewrite H. by apply path_fuel_length. Qed.

(** The sides of a climb depend on the number of siblings only. *)
Lemma sides_fst i n (p : list A) (q : list B) : length p = length q ->
  map fst (sides i n p) = map fst (sides i n q).
Proof.
  revert i n q; induction p as [|s p IH]; intros i n [|t q] H; try done.
  cbn in *. f_equal. apply IH. lia.
Qed.

End Hom.

Lemma map_snd_sides {A} i n (p : list A) : map snd (sides i n p) = p.
Proof. revert i n; induction p as [|s p IH]; intros i n; cbn; [done|]. by rewrite IH. Qed.

(** A function that maps nodes to concatenations lists the leaves in order. *)
Lemma mth_concat {A B} (node : A -> A -> A) d (f : A -> list B) l :
  (forall a b, f (node a b) = f a ++ f b) -> l <> [] -> f (mth node d l) = concat (map f l).
Proof.
  intros Hf. induction l as [l IH] using list_len_ind; intros Hl.
  destruct (decide (length l = 1%nat)) as [H1|H1].
  { destruct l as [|a [|b l]]; try (cbn in H1; lia). cbn. by rewrite app_nil_r. }
  assert (H2 : (2 <= length l)%nat) by (destruct l as [|a [|b l]]; cbn in *; [done|done|lia]).
  pose proof (split_point_bounds (length l) H2).
  rewrite mth_split by lia. cbn zeta. rewrite Hf.
  rewrite !IH; try (rewrite ?length_take, ?length_drop; lia);
    try (intros E%(f_equal length); rewrite ?length_take, ?length_drop in E; cbn in E; lia).
  by rewrite <-concat_app, <-map_app, take_drop.
Qed.
