(* ===== verification/Merkle.v ===== *)
(** Merkle trees of the transparency log: [log-c2sp-tlog/src/merkle.ts].

    The leaf and node hashes, the root of a list of entries, and the check of
    an inclusion proof, against the RFC 6962 tree head and audit path of
    [HashTree].  Soundness is stated with an explicit collision extractor: from
    an accepted proof of something that is not in the log, [inclusion_collision]
    computes two different messages with the same digest. *)

From S2P Require Import Prelude Sha256 HashTree.

Section Merkle.
Context `{H256 : Hash256}.

(** SHA-256 over the concatenation of the given chunks. *)
Definition sha256 (chunks : list bytes) : bytes := digest (concat chunks).

Definition leafHash (entryBytes : bytes) : bytes := sha256 [[x00]; entryBytes].

Definition nodeHash (left right : bytes) : bytes := sha256 [[x01]; left; right].

Definition inclusionRoot (leaf : bytes) (index treeSize : Z) (proof : list bytes) : res bytes :=
  throw_if (negb (isSafeInteger index) || negb (isSafeInteger treeSize)
            || (index <? 0) || (treeSize <=? index))
    (EError "invalid inclusion index or tree size");;
  Ok (climb nodeHash leaf index treeSize proof).

Definition verifyInclusion (entryBytes : bytes) (index treeSize : Z) (rootHash : bytes)
    (proof : list bytes) : res bool :=
  root ← inclusionRoot (leafHash entryBytes) index treeSize proof;
  Ok (bool_decide (root = rootHash)).

(** [while (level.length > 1)]; every pass shortens the level. *)
Fixpoint reduceLevels (fuel : nat) (level : list bytes) : list bytes :=
  match fuel with
  | O => level
  | S fuel =>
      if (1 <? length level)%nat then reduceLevels fuel (pair_level nodeHash level) else level
  end.

Definition merkleRootFromEntries (entries : list bytes) : bytes :=
  if (length entries =? 0)%nat then sha256 []
  else nth 0 (reduceLevels (length entries) (map leafHash entries)) [].

(** ** Specification: RFC 6962 *)

Definition MTH (entries : list bytes) : bytes :=
  match entries with
  | [] => sha256 []
  | _ => mth nodeHash [] (map leafHash entries)
  end.

Definition PATH (i : nat) (entries : list bytes) : list bytes :=
  path nodeHash [] i (map leafHash entries).

(** The tree of entries itself, and the collision extractor. *)
Inductive htree :=
  | HLeaf (entry : bytes)
  | HNode (left right : htree).

Fixpoint root_hash (t : htree) : bytes :=
  match t with
  | HLeaf e => leafHash e
  | HNode l r => nodeHash (root_hash l) (root_hash r)
  end.

Definition preimage (t : htree) : bytes :=
  match t with
  | HLeaf e => x00 :: e
  | HNode l r => x01 :: root_hash l ++ root_hash r
  end.

Fixpoint leaves (t : htree) : list bytes :=
  match t with HLeaf e => [e] | HNode l r => leaves l ++ leaves r end.

Fixpoint leaf_at (dirs : list bool) (t : htree) : option bytes :=
  match dirs, t with
  | [], HLeaf e => Some e
  | b :: dirs, HNode l r => leaf_at dirs (if b then l else r)
  | _, _ => None
  end.

Definition tree_of (entries : list bytes) : htree := mth HNode (HLeaf []) (map HLeaf entries).

(** The value of a claimed path, read from the root down. *)
Fixpoint value (e : bytes) (steps : list (bool * bytes)) : bytes :=
  match steps with
  | [] => leafHash e
  | (b, s) :: steps => if b then nodeHash (value e steps) s else nodeHash s (value e steps)
  end.

Definition claimed_preimage (e : bytes) (steps : list (bool * bytes)) : bytes :=
  match steps with
  | [] => x00 :: e
  | (b, s) :: steps => x01 :: if b then value e steps ++ s else s ++ value e steps
  end.

Fixpoint find_collision (e : bytes) (steps : list (bool * bytes)) (t : htree)
    : option (bytes * bytes) :=
  if bool_decide (claimed_preimage e steps = preimage t) then
    match steps, t with
    | (b, _) :: steps, HNode l r => find_collision e steps (if b then l else r)
    | _, _ => None
    end
  else Some (claimed_preimage e steps, preimage t).

Definition inclusion_collision (entries : list bytes) (e : bytes) (index : Z) (proof : list bytes)
    : option (bytes * bytes) :=
  find_collision e (rev (sides index (zlen entries) proof)) (tree_of entries).

(** ** Lemmas *)

Lemma sha256_length chunks : length (sha256 chunks) = 32%nat.
Proof. apply digest_length. Qed.

Lemma root_hash_length t : length (root_hash t) = 32%nat.
Proof. destruct t; apply sha256_length. Qed.

Lemma root_hash_preimage t : root_hash t = digest (preimage t).
Proof. destruct t; cbn; unfold leafHash, nodeHash, sha256; cbn; by rewrite ?app_nil_r. Qed.

Lemma value_length e steps : length (value e steps) = 32%nat.
Proof. destruct steps as [|[[] s] steps]; apply sha256_length. Qed.

Lemma value_preimage e steps : value e steps = digest (claimed_preimage e steps).
Proof.
  destruct steps as [|[[] s] steps]; cbn; unfold leafHash, nodeHash, sha256; cbn;
    by rewrite ?app_nil_r.
Qed.

Lemma root_hash_tree_of entries : entries <> [] -> root_hash (tree_of entries) = MTH entries.
Proof.
  intros Hne. unfold tree_of, MTH. rewrite (mth_hom HNode nodeHash _ [] root_hash) by
    (done || by destruct entries).
  rewrite map_map. by destruct entries.
Qed.

Lemma leaves_tree_of entries : entries <> [] -> leaves (tree_of entries) = entries.
Proof.
  intros Hne. unfold tree_of. rewrite (mth_concat _ _ leaves) by (done || by destruct entries).
  rewrite map_map. clear Hne. induction entries as [|e es IH]; cbn in *; congruence.
Qed.

Lemma leaf_at_leaves dirs t e : leaf_at dirs t = Some e -> e ∈ leaves t.
Proof.
  revert t; induction dirs as [|b dirs IH]; intros [e'|l r] H; cbn in *; try done.
  - injection H as ->. by constructor.
  - apply elem_of_app. destruct b; [left|right]; by apply IH.
Qed.

Lemma reduceLevels_head fuel (level : list bytes) : level <> [] -> (length level <= fuel + 1)%nat ->
  reduceLevels fuel level = [mth nodeHash [] level].
Proof.
  revert level; induction fuel as [|fuel IH]; intros level Hne Hf; cbn [reduceLevels].
  - destruct level as [|a [|b l]]; [done|done|cbn in Hf; lia].
  - destruct (Nat.ltb_spec 1 (length level)) as [Hl|Hl].
    + pose proof (pair_level_shorter nodeHash level ltac:(lia)).
      rewrite IH; [by rewrite mth_pair_level| |lia].
      destruct level as [|a [|b l]]; [done|cbn in Hl; lia|done].
    + destruct level as [|a [|b l]]; [done|done|cbn in Hl; lia].
Qed.

Lemma merkleRootFromEntries_MTH entries : merkleRootFromEntries entries = MTH entries.
Proof.
  unfold merkleRootFromEntries, MTH. destruct entries as [|e es]; [done|].
  cbn [length Nat.eqb]. rewrite reduceLevels_head; [done|done|]. rewrite length_map. cbn. lia.
Qed.

Lemma value_climb e i n proof :
  value e (rev (sides i n proof)) = climb nodeHash (leafHash e) i n proof.
Proof.
  rewrite climb_sides. generalize (sides i n proof). intros steps.
  induction steps as [|[b s] steps IH] using rev_ind; [done|].
  rewrite rev_app_distr, foldl_app. cbn. unfold join; cbn. rewrite IH. by destruct b.
Qed.

(** The extractor is right: it returns a collision, or the path leads to [e]. *)
Lemma find_collision_spec e steps t :
  Forall (fun s => length s = 32%nat) (map snd steps) ->
  value e steps = root_hash t ->
  match find_collision e steps t with
  | Some (x, y) => x <> y /\ digest x = digest y
  | None => leaf_at (map fst steps) t = Some e
  end.
Proof.
  revert t; induction steps as [|[b s] steps IH]; intros t Hs Hv; cbn [find_collision];
    case_bool_decide as Hp;
    try (split; [done|]; by rewrite <-value_preimage, <-root_hash_preimage);
    destruct t as [e'|l r]; try discriminate Hp.
  - by injection Hp as ->.
  - cbn in Hs, Hp. inversion Hs as [|? ? Hlen Hs']; subst. injection Hp as Hp. cbn.
    destruct b; apply app_inj_1 in Hp as [? ?];
      rewrite ?value_length, ?root_hash_length, ?Hlen; try done; by apply IH.
Qed.

Lemma verifyInclusion_Ok e i n root proof b : verifyInclusion e i n root proof = Ok b ->
  0 <= i < n /\ b = bool_decide (climb nodeHash (leafHash e) i n proof = root).
Proof. unfold verifyInclusion, inclusionRoot. intros H. res_inv. bool_inv. split; [lia|done]. Qed.

Lemma length_MTH entries : length (MTH entries) = 32%nat.
Proof.
  destruct entries as [|e es]; [apply sha256_length|].
  rewrite <-root_hash_tree_of by done. apply root_hash_length.
Qed.

(** In the free tree, the audit path of leaf [i] leads to leaf [i]. *)
Lemma leaf_at_path entries i e (proof : list bytes) :
  entries !! i = Some e -> length proof = length (PATH i entries) ->
  leaf_at (map fst (rev (sides (Z.of_nat i) (zlen entries) proof))) (tree_of entries) = Some e.
Proof.
  intros Hi Hp. pose (ts := map HLeaf entries).
  assert (Ht : ts !! i = Some (HLeaf e)) by (unfold ts; by rewrite list_lookup_fmap, Hi).
  pose proof (climb_path HNode (HLeaf []) ts i (HLeaf e) Ht) as Hc.
  rewrite climb_sides in Hc. fold (tree_of entries) in Hc.
  assert (zlen ts = zlen entries) as Hz by (unfold zlen, ts; by rewrite length_map).
  rewrite Hz in Hc. unfold tree_of. fold ts. rewrite <-Hc, map_rev.
  rewrite (sides_fst _ _ proof (path HNode (HLeaf []) i ts)).
  2:{ rewrite Hp. unfold PATH. apply path_length. unfold ts. by rewrite !length_map. }
  generalize (sides (Z.of_nat i) (zlen entries) (path HNode (HLeaf []) i ts)). intros steps.
  induction steps as [|[b s] steps IH] using rev_ind; [done|].
  rewrite map_app, rev_app_distr, foldl_app. cbn. unfold join; cbn. by destruct b.
Qed.

(** An accepted proof leads to its entry in the tree of the log, or yields a collision. *)
Lemma inclusion_leaf entries e i proof :
  Forall (fun s => length s = 32%nat) proof ->
  verifyInclusion e i (zlen entries) (merkleRootFromEntries entries) proof = Ok true ->
  match inclusion_collision entries e i proof with
  | Some (x, y) => x <> y /\ digest x = digest y
  | None => entries <> []
      /\ leaf_at (map fst (rev (sides i (zlen entries) proof))) (tree_of entries) = Some e
  end.
Proof.
  intros Hlen [Hr Hv]%verifyInclusion_Ok. symmetry in Hv. apply bool_decide_eq_true in Hv.
  assert (Hne : entries <> []) by (intros ->; unfold zlen in Hr; cbn in Hr; lia).
  rewrite merkleRootFromEntries_MTH, <-root_hash_tree_of, <-value_climb in Hv by done.
  apply find_collision_spec in Hv; [|rewrite map_rev, map_snd_sides; by apply Forall_rev].
  unfold inclusion_collision. by destruct (find_collision _ _ _) as [[x y]|].
Qed.

(** An accepted proof is of a member of the log, or contains a collision. *)
Lemma inclusion_member entries e i proof :
  Forall (fun s => length s = 32%nat) proof ->
  verifyInclusion e i (zlen entries) (merkleRootFromEntries entries) proof = Ok true ->
  match inclusion_collision entries e i proof with
  | Some (x, y) => x <> y /\ digest x = digest y
  | None => e ∈ entries
  end.
Proof.
  intros Hlen H. pose proof (inclusion_leaf _ _ _ _ Hlen H) as Hl.
  destruct (inclusion_collision _ _ _ _) as [[x y]|]; [done|]. destruct Hl as [Hne Hl].
  rewrite <-(leaves_tree_of entries) by done. by eapply leaf_at_leaves.
Qed.

(** ** Properties *)

(** C27: the level-by-level loop of [merkleRootFromEntries] computes the RFC 6962
    Merkle tree head of the entries, for every list of entries (the loop always
    ends with a single hash: the model's fuel is the number of entries). *)
Theorem merkleRootFromEntries_rfc6962 entries :
  merkleRootFromEntries entries = MTH entries
  /\ (entries <> [] -> length (reduceLevels (length entries) (map leafHash entries)) = 1%nat).
Proof.
  split; [apply merkleRootFromEntries_MTH|]. intros Hne.
  rewrite reduceLevels_head; [done|by destruct entries|]. rewrite length_map. lia.
Qed.

(** Completeness of inclusion proofs: the RFC 6962 audit path of every entry
    verifies against the root of the log. *)
Theorem verifyInclusion_complete entries i e :
  entries !! i = Some e -> zlen entries <= MAX_SAFE_INTEGER ->
  verifyInclusion e (Z.of_nat i) (zlen entries) (merkleRootFromEntries entries) (PATH i entries)
  = Ok true.
Proof.
  intros Hi Hs. pose proof (lookup_lt_Some _ _ _ Hi) as Hlt.
  unfold verifyInclusion, inclusionRoot, isSafeInteger, zlen in *.
  rewrite !(proj2 (Z.leb_le _ _)) by (unfold MAX_SAFE_INTEGER in *; lia).
  rewrite (proj2 (Z.ltb_ge _ _)), (proj2 (Z.leb_gt _ _)) by lia. cbn.
  f_equal. apply bool_decide_eq_true. rewrite merkleRootFromEntries_MTH.
  unfold PATH. rewrite <-(length_map leafHash entries).
  etransitivity; [apply climb_path; by rewrite list_lookup_fmap, Hi|]. by destruct entries.
Qed.

(** C21: soundness of inclusion proofs: if [verifyInclusion] accepts an entry
    against the root of the log with 32-byte siblings, then either the entry is
    in the log or [inclusion_collision] computes two different messages with the
    same SHA-256 digest. *)
Theorem verifyInclusion_sound entries e i proof :
  Forall (fun s => length s = 32%nat) proof ->
  verifyInclusion e i (zlen entries) (merkleRootFromEntries entries) proof = Ok true ->
  match inclusion_collision entries e i proof with
  | Some (x, y) => x <> y /\ digest x = digest y
  | None => e ∈ entries
  end.
Proof. apply inclusion_member. Qed.

(** Soundness with the index: when the proof has the length of the audit
    path of its index, an accepted entry is the entry logged at that index, or
    [inclusion_collision] computes a collision. *)
Theorem verifyInclusion_sound_index entries e (i : nat) proof :
  Forall (fun s => length s = 32%nat) proof ->
  length proof = length (PATH i entries) ->
  verifyInclusion e (Z.of_nat i) (zlen entries) (merkleRootFromEntries entries) proof = Ok true ->
  match inclusion_collision entries e (Z.of_nat i) proof with
  | Some (x, y) => x <> y /\ digest x = digest y
  | None => entries !! i = Some e
  end.
Proof.
  intros Hlen Hp H. pose proof (inclusion_leaf _ _ _ _ Hlen H) as Hl.
  destruct (inclusion_collision _ _ _ _) as [[x y]|]; [done|]. destruct Hl as [Hne Hl].
  apply verifyInclusion_Ok in H as [Hr _].
  assert (is_Some (entries !! i)) as [e' He'] by (apply lookup_lt_is_Some; unfold zlen in Hr; lia).
  rewrite (leaf_at_path _ _ e') in Hl by done. congruence.
Qed.

End Merkle.

(** Six one-byte entries, and the proof of the fifth presented for the third. *)
Definition six_entries : list bytes := [[x00]; [x01]; [x02]; [x03]; [x04]; [x05]].
Definition short_proof `{Hash256} : list bytes :=
  [leafHash [x05]; merkleRootFromEntries [[x00]; [x01]; [x02]; [x03]]].

(** [verifyInclusion] does not bind the index: the two-sibling proof of entry
    4 of a six-entry log is accepted as a proof of that entry at index 2, where
    the log holds another entry, whatever the hash function (the climb does not
    check that the proof is as long as the audit path of its index). *)
Theorem verifyInclusion_index_not_bound `{Hash256} :
  verifyInclusion [x04] 2 6 (merkleRootFromEntries six_entries) short_proof = Ok true
  /\ six_entries !! 2%nat = Some [x02]
  /\ length short_proof <> length (PATH 2 six_entries).
Proof.
  split; [|split; [done|cbn; lia]].
  change (Ok (bool_decide (climb nodeHash (leafHash [x04]) 2 6 short_proof =
    merkleRootFromEntries six_entries)) = Ok true).
  by rewrite bool_decide_eq_true_2.
Qed.

Lemma merkleRootFromEntries_rfc6962_witness :
  merkleRootFromEntries (H256 := Sha256_instance) six_entries = MTH (H256 := Sha256_instance) six_entries.
Proof. apply (merkleRootFromEntries_rfc6962 (H256 := Sha256_instance) six_entries). Defined.

Lemma verifyInclusion_complete_witness :
  verifyInclusion (H256 := Sha256_instance) [x04] 4 6
    (merkleRootFromEntries (H256 := Sha256_instance) six_entries)
    (PATH (H256 := Sha256_instance) 4 six_entries) = Ok true.
Proof.
  apply (verifyInclusion_complete (H256 := Sha256_instance) six_entries 4 [x04]);
    [reflexivity | vm_compute; discriminate].
Defined.

Lemma verifyInclusion_sound_witness :
  let H := Sha256_instance in
  match inclusion_collision six_entries [x04] 2 short_proof with
  | Some (x, y) => x <> y /\ digest x = digest y
  | None => [x04] ∈ six_entries
  end.
Proof.
  apply (verifyInclusion_sound (H256 := Sha256_instance) six_entries [x04] 2 short_proof).
  - repeat constructor.
  - vm_compute. reflexivity.
Defined.

Lemma verifyInclusion_sound_index_witness :
  let H := Sha256_instance in
  match inclusion_collision six_entries [x04] 4 (PATH 4 six_entries) with
  | Some (x, y) => x <> y /\ digest x = digest y
  | None => six_entries !! 4%nat = Some [x04]
  end.
Proof.
  apply (verifyInclusion_sound_index (H256 := Sha256_instance) six_entries [x04] 4
           (PATH (H256 := Sha256_instance) 4 six_entries)).
  - repeat constructor.
  - reflexivity.
  - vm_compute. reflexivity.
Defined.
