(* ===== verification/Consistency.v ===== *)
(** Consistency proofs: [verifyC2spConsistencyProof] of
    [log-c2sp-tlog/src/checkpoint-trust.ts], against the RFC 6962 proof and with
    a collision extractor for soundness. *)

From S2P Require Import Prelude Sha256 HashTree Merkle.

(** [x & 1]: the operand is converted to a signed 32-bit integer first. *)
Definition toInt32 (x : Z) : Z := (x + 2 ^ 31) mod 2 ^ 32 - 2 ^ 31.
Definition and1 (x : Z) : Z := Z.land (toInt32 x) 1.

(** [while ((oldIndex & 1) === 1)]: both indices are halved. *)
Fixpoint shift_odd (fuel : nat) (oldIndex newIndex : Z) : Z * Z :=
  match fuel with
  | O => (oldIndex, newIndex)
  | S fuel =>
      if and1 oldIndex =? 1 then shift_odd fuel (oldIndex / 2) (newIndex / 2)
      else (oldIndex, newIndex)
  end.

(** [while (oldIndex !== 0 && (oldIndex & 1) === 0)] *)
Fixpoint shift_even (fuel : nat) (oldIndex newIndex : Z) : Z * Z :=
  match fuel with
  | O => (oldIndex, newIndex)
  | S fuel =>
      if negb (oldIndex =? 0) && (and1 oldIndex =? 0)
      then shift_even fuel (oldIndex / 2) (newIndex / 2)
      else (oldIndex, newIndex)
  end.

(** A safe integer has at most 53 bits, so 54 halvings always end both loops. *)
Definition index_fuel : nat := 54.

Arguments shift_odd : simpl never.
Arguments shift_even : simpl never.

Section Consistency.
Context `{H256 : Hash256}.

(** The loop over the proof from [cursor] on; [None] is [return false]. *)
Fixpoint consistency_loop (oldIndex newIndex : Z) (oldHash newHash : bytes) (proof : list bytes)
    : option (Z * bytes * bytes) :=
  match proof with
  | [] => Some (newIndex, oldHash, newHash)
  | node :: proof =>
      if newIndex =? 0 then None
      else if (and1 oldIndex =? 1) || (oldIndex =? newIndex) then
        let '(oldIndex, newIndex) := shift_even index_fuel oldIndex newIndex in
        consistency_loop (oldIndex / 2) (newIndex / 2) (nodeHash node oldHash) (nodeHash node newHash) proof
      else
        consistency_loop (oldIndex / 2) (newIndex / 2) oldHash (nodeHash newHash node) proof
  end.

(** The hash both climbs start from, and the rest of the proof. *)
Definition consistency_start (oldIndex : Z) (fromRoot : bytes) (proof : list bytes)
    : option (bytes * list bytes) :=
  if oldIndex =? 0 then Some (fromRoot, proof)
  else match proof with
       | [] => None
       | node :: proof => Some (node, proof)
       end.

Definition equalBytes (left right : bytes) : bool := bool_decide (left = right).

Definition verifyC2spConsistencyProof (fromSize toSize : Z) (fromRoot toRoot : bytes)
    (proof : list bytes) : bool :=
  if negb (isSafeInteger fromSize) || negb (isSafeInteger toSize) || (fromSize <? 0) || (toSize <? 0)
  then false
  else if negb (length fromRoot =? 32)%nat || negb (length toRoot =? 32)%nat
          || existsb (fun node => negb (length node =? 32)%nat) proof
  then false
  else if fromSize =? 0 then
    (length proof =? 0)%nat && equalBytes fromRoot (merkleRootFromEntries [])
    && (negb (toSize =? 0) || equalBytes fromRoot toRoot)
  else if fromSize =? toSize then (length proof =? 0)%nat && equalBytes fromRoot toRoot
  else if toSize <? fromSize then false
  else
    let '(oldIndex, newIndex) := shift_odd index_fuel (fromSize - 1) (toSize - 1) in
    match consistency_start oldIndex fromRoot proof with
    | None => false
    | Some (hash, proof) =>
        match consistency_loop oldIndex newIndex hash hash proof with
        | None => false
        | Some (newIndex, oldHash, newHash) =>
            (newIndex =? 0) && equalBytes oldHash fromRoot && equalBytes newHash toRoot
        end
    end.

(** ** Specification: RFC 6962 section 2.1.2 *)

Fixpoint subproof_fuel (fuel m : nat) (l : list bytes) (b : bool) : list bytes :=
  match fuel with
  | O => []
  | S fuel =>
      if (m =? length l)%nat then if b then [] else [mth nodeHash [] l]
      else
        let k := split_point (length l) in
        if (m <=? k)%nat then subproof_fuel fuel m (take k l) b ++ [mth nodeHash [] (drop k l)]
        else subproof_fuel fuel (m - k) (drop k l) false ++ [mth nodeHash [] (take k l)]
  end.
Definition subproof (m : nat) (l : list bytes) (b : bool) : list bytes :=
  subproof_fuel (length l) m l b.

(** The consistency proof of the first [m] entries of a log. *)
Definition PROOF (m : nat) (entries : list bytes) : list bytes :=
  if (m =? 0)%nat then [] else subproof m (map leafHash entries) true.

(** ** The collision extractor *)

(** The steps the loop takes, leaf side first; [true] when the sibling is on the right. *)
Fixpoint consistency_steps (oldIndex newIndex : Z) (proof : list bytes) : list (bool * bytes) :=
  match proof with
  | [] => []
  | node :: proof =>
      if (and1 oldIndex =? 1) || (oldIndex =? newIndex) then
        let '(oldIndex, newIndex) := shift_even index_fuel oldIndex newIndex in
        (false, node) :: consistency_steps (oldIndex / 2) (newIndex / 2) proof
      else (true, node) :: consistency_steps (oldIndex / 2) (newIndex / 2) proof
  end.

Fixpoint path_value (h : bytes) (steps : list (bool * bytes)) : bytes :=
  match steps with
  | [] => h
  | (b, s) :: steps =>
      if b then nodeHash (path_value h steps) s else nodeHash s (path_value h steps)
  end.

Definition collision_result (A : Type) : Type := (bytes * bytes) + A.

(** Walks down a tree along a claimed path; the sibling subtrees and the end. *)
Fixpoint descend (h : bytes) (steps : list (bool * bytes)) (t : htree)
    : collision_result (list (bool * htree) * htree) :=
  match steps with
  | [] => inr ([], t)
  | (b, s) :: steps =>
      let claimed := x01 :: if b then path_value h steps ++ s else s ++ path_value h steps in
      if bool_decide (claimed = preimage t) then
        match t with
        | HLeaf _ => inr ([], t)
        | HNode l r =>
            match descend h steps (if b then l else r) with
            | inl c => inl c
            | inr (sibs, t') => inr ((b, if b then r else l) :: sibs, t')
            end
        end
      else inl (claimed, preimage t)
  end.

Fixpoint tree_diff (t u : htree) : option (bytes * bytes) :=
  if bool_decide (preimage t = preimage u) then
    match t, u with
    | HNode l r, HNode l' r' =>
        match tree_diff l l' with Some c => Some c | None => tree_diff r r' end
    | _, _ => None
    end
  else Some (preimage t, preimage u).

Fixpoint trees_diff (ts us : list htree) : option (bytes * bytes) :=
  match ts, us with
  | t :: ts, u :: us => match tree_diff t u with Some c => Some c | None => trees_diff ts us end
  | _, _ => None
  end.

Definition lefts (sibs : list (bool * htree)) : list htree :=
  map snd (List.filter (fun s => negb (fst s)) sibs).

Definition consistency_collision (old new : list bytes) (proof : list bytes)
    : option (bytes * bytes) :=
  if (length old =? 0)%nat then None
  else if (length old =? length new)%nat then tree_diff (tree_of old) (tree_of new)
  else
    let '(i, j) := shift_odd index_fuel (zlen old - 1) (zlen new - 1) in
    let '(h, p) := default (MTH old, []) (consistency_start i (MTH old) proof) in
    let steps := rev (consistency_steps i j p) in
    match descend h steps (tree_of new),
          descend h (List.filter (fun s => negb (fst s)) steps) (tree_of old) with
    | inl c, _ => Some c
    | _, inl c => Some c
    | inr (sn, tn), inr (so, t_o) => trees_diff (t_o :: lefts so) (tn :: lefts sn)
    end.

(** ** Lemmas: soundness *)

Lemma path_value_length h steps : length h = 32%nat -> length (path_value h steps) = 32%nat.
Proof. destruct steps as [|[[] s] steps]; [done|intros; apply sha256_length..]. Qed.

Lemma path_value_cons h b s steps : path_value h ((b, s) :: steps) =
  digest (x01 :: if b then path_value h steps ++ s else s ++ path_value h steps).
Proof. destruct b; cbn; unfold nodeHash, sha256; cbn; by rewrite app_nil_r. Qed.

Definition is_collision (c : bytes * bytes) : Prop := c.1 <> c.2 /\ digest c.1 = digest c.2.

Lemma descend_spec h steps t :
  length h = 32%nat -> Forall (fun s => length s = 32%nat) (map snd steps) ->
  path_value h steps = root_hash t ->
  match descend h steps t with
  | inl c => is_collision c
  | inr (sibs, t') =>
      root_hash t' = h /\ map (fun s => (s.1, root_hash s.2)) sibs = steps
      /\ exists rest, leaves t = concat (map leaves (lefts sibs)) ++ leaves t' ++ rest
      /\ (Forall (fun s => fst s = false) steps -> rest = [])
  end.
Proof.
  intros Hh. revert t; induction steps as [|[b s] steps IH]; intros t Hs Hv; cbn [descend].
  { split; [done|]. split; [done|]. exists []. cbn. by rewrite app_nil_r. }
  rewrite path_value_cons, root_hash_preimage in Hv.
  case_bool_decide as Hp; [|by split].
  destruct t as [e|l r]; [discriminate Hp|].
  cbn in Hs. apply Forall_cons in Hs as [Hlen Hs]. injection Hp as Hp.
  destruct b; apply app_inj_1 in Hp as [Hp1 Hp2];
    rewrite ?path_value_length, ?root_hash_length, ?Hlen; try done;
    [specialize (IH l Hs Hp1)|specialize (IH r Hs Hp2)];
    destruct (descend h steps _) as [c|[sibs t']]; try done;
    destruct IH as (Ht & Hm & rest & Hl & Hr); cbn;
    (split; [done|]); (split; [congruence|]).
  - exists (rest ++ leaves r). rewrite Hl, <-!app_assoc. split; [done|].
    intros Hf. by apply Forall_cons in Hf as [? _].
  - exists rest. unfold lefts in *. cbn. rewrite Hl, <-app_assoc. split; [done|].
    intros Hf. apply Forall_cons in Hf as [_ Hf]. auto.
Qed.

Lemma tree_diff_spec t u : root_hash t = root_hash u ->
  match tree_diff t u with Some c => is_collision c | None => t = u end.
Proof.
  revert u; induction t as [e|l IHl r IHr]; intros u Hr; destruct u as [e'|l' r']; cbn [tree_diff];
    (case_bool_decide as Hp; [|split; [done|]; cbn [fst snd]; by rewrite <-!root_hash_preimage]);
    try discriminate Hp.
  - by injection Hp as ->.
  - injection Hp as Hp. apply app_inj_1 in Hp as [H1 H2]; [|by rewrite !root_hash_length].
    specialize (IHl l' H1). specialize (IHr r' H2).
    destruct (tree_diff l l'); [done|]. destruct (tree_diff r r'); [done|]. by subst.
Qed.

Lemma tree_diff_MTH old new : old <> [] -> new <> [] -> MTH old = MTH new ->
  match tree_diff (tree_of old) (tree_of new) with Some c => is_collision c | None => old = new end.
Proof.
  intros Ho Hn Hr. rewrite <-!root_hash_tree_of in Hr by done.
  pose proof (tree_diff_spec _ _ Hr) as Hd. destruct (tree_diff _ _); [done|].
  by rewrite <-(leaves_tree_of old), <-(leaves_tree_of new), Hd.
Qed.

Lemma trees_diff_spec ts us : map root_hash ts = map root_hash us ->
  match trees_diff ts us with Some c => is_collision c | None => ts = us end.
Proof.
  revert us; induction ts as [|t ts IH]; intros [|u us] H; try done. cbn in H |- *.
  injection H as H1 H2. pose proof (tree_diff_spec t u H1). specialize (IH us H2).
  destruct (tree_diff t u); [done|]. destruct (trees_diff ts us); [done|]. by subst.
Qed.

Lemma lefts_roots sibs steps : map (fun s => (s.1, root_hash s.2)) sibs = steps ->
  map root_hash (lefts sibs) = map snd (List.filter (fun s => negb (fst s)) steps).
Proof.
  intros <-. unfold lefts. induction sibs as [|[[] t] sibs IH]; cbn; [done|done|]. by rewrite IH.
Qed.

Lemma filter_idem {A} (f : A -> bool) l : List.filter f (List.filter f l) = List.filter f l.
Proof. induction l as [|a l IH]; cbn; [done|]. destruct (f a) eqn:E; cbn; rewrite ?E, ?IH; done. Qed.

(** The loop computes the values of its steps. *)
Lemma consistency_loop_steps i j oh nh p r : consistency_loop i j oh nh p = Some r ->
  let steps := rev (consistency_steps i j p) in
  r.1.2 = path_value oh (List.filter (fun s => negb (fst s)) steps) /\ r.2 = path_value nh steps.
Proof.
  assert (Hsnoc : forall h steps b s,
    path_value h (steps ++ [(b, s)]) = path_value (if b then nodeHash h s else nodeHash s h) steps).
  { intros h steps b s. induction steps as [|[c u] steps IH]; cbn; [by destruct b|]. by rewrite IH. }
  revert i j oh nh; induction p as [|s p IH]; intros i j oh nh; cbn; [by intros [= <-]|].
  destruct (j =? 0); [done|].
  destruct ((and1 i =? 1) || (i =? j)).
  - destruct (shift_even index_fuel i j) as [i' j']. intros H. cbn.
    rewrite List.filter_app, !Hsnoc. cbn. rewrite Hsnoc. by apply IH.
  - intros H. cbn. rewrite List.filter_app, Hsnoc. cbn. rewrite app_nil_r. by apply IH.
Qed.

Lemma consistency_steps_snd i j p : map snd (consistency_steps i j p) = p.
Proof.
  revert i j; induction p as [|s p IH]; intros i j; cbn; [done|].
  case_match; [destruct (shift_even index_fuel i j)|]; cbn; by rewrite IH.
Qed.

Lemma Forall_filter_snd (P : bytes -> Prop) (f : bool * bytes -> bool) steps :
  Forall P (map snd steps) -> Forall P (map snd (List.filter f steps)).
Proof.
  induction steps as [|s steps IH]; cbn; [done|]. intros [H1 H2]%Forall_cons.
  destruct (f s); cbn; [constructor|]; auto.
Qed.

(** Two trees that agree with the same steps share a prefix of leaves. *)
Lemma descend_both h steps told tnew :
  length h = 32%nat -> Forall (fun s => length s = 32%nat) (map snd steps) ->
  path_value h steps = root_hash tnew ->
  path_value h (List.filter (fun s => negb (fst s)) steps) = root_hash told ->
  match descend h steps tnew, descend h (List.filter (fun s => negb (fst s)) steps) told with
  | inl c, _ => is_collision c
  | _, inl c => is_collision c
  | inr (sn, tn), inr (so, t_o) =>
      match trees_diff (t_o :: lefts so) (tn :: lefts sn) with
      | Some c => is_collision c
      | None => leaves told `prefix_of` leaves tnew
      end
  end.
Proof.
  intros Hh Hs Hn Ho. pose proof (descend_spec h steps tnew Hh Hs Hn) as Hdn.
  pose proof (descend_spec h _ told Hh (Forall_filter_snd _ _ _ Hs) Ho) as Hdo.
  destruct (descend h steps tnew) as [c|[sn tn]]; [done|].
  destruct (descend h _ told) as [c|[so t_o]]; [done|].
  destruct Hdn as (Htn & Hsn & restn & Hln & _). destruct Hdo as (Hto & Hso & resto & Hlo & Hr).
  pose proof (trees_diff_spec (t_o :: lefts so) (tn :: lefts sn)) as Hd.
  destruct (trees_diff _ _) as [c|].
  - apply Hd. cbn [map]. rewrite Htn, Hto. f_equal.
    by rewrite (lefts_roots _ _ Hsn), (lefts_roots _ _ Hso), filter_idem.
  - specialize (Hd ltac:(cbn [map]; rewrite Htn, Hto; f_equal;
      by rewrite (lefts_roots _ _ Hsn), (lefts_roots _ _ Hso), filter_idem)).
    injection Hd as -> Hlefts. rewrite Hln, Hlo, Hlefts, Hr.
    + rewrite app_nil_r. exists restn. by rewrite app_assoc.
    + clear. induction steps as [|[[] s] steps IH]; cbn; [constructor|done|by constructor].
Qed.

(** ** Lemmas: completeness *)

Lemma and1_mod x : and1 x = x mod 2.
Proof.
  unfold and1, toInt32. change 1 with (Z.ones 1) at 1. rewrite Z.land_ones by lia.
  change (2 ^ 1) with 2. change (2 ^ 31) with 2147483648. change (2 ^ 32) with 4294967296.
  Z.to_euclidean_division_equations. lia.
Qed.

Lemma shift_odd_S f o n :
  shift_odd (S f) o n = if and1 o =? 1 then shift_odd f (o / 2) (n / 2) else (o, n).
Proof. done. Qed.

Lemma shift_even_S f o n :
  shift_even (S f) o n =
  if negb (o =? 0) && (and1 o =? 0) then shift_even f (o / 2) (n / 2) else (o, n).
Proof. done. Qed.

Lemma shift_odd_irrel f1 f2 o n : 0 <= o < 2 ^ Z.of_nat f1 -> o < 2 ^ Z.of_nat f2 ->
  shift_odd f1 o n = shift_odd f2 o n.
Proof.
  revert f2 o n; induction f1 as [|f1 IH]; intros [|f2] o n H1 H2;
    rewrite ?shift_odd_S; try done.
  1,2: assert (o = 0) as -> by (cbn in *; lia); done.
  case_match; [|done]. rewrite Nat2Z.inj_succ, Z.pow_succ_r in H1, H2 by lia.
  apply IH; [split; [apply Z.div_pos; lia|]|]; apply Z.div_lt_upper_bound; lia.
Qed.

Lemma shift_even_irrel f1 f2 o n : 0 <= o < 2 ^ Z.of_nat f1 -> o < 2 ^ Z.of_nat f2 ->
  shift_even f1 o n = shift_even f2 o n.
Proof.
  revert f2 o n; induction f1 as [|f1 IH]; intros [|f2] o n H1 H2;
    rewrite ?shift_even_S; try done.
  1,2: assert (o = 0) as -> by (cbn in *; lia); done.
  case_match; [|done]. rewrite Nat2Z.inj_succ, Z.pow_succ_r in H1, H2 by lia.
  apply IH; [split; [apply Z.div_pos; lia|]|]; apply Z.div_lt_upper_bound; lia.
Qed.

Lemma shift_odd_odd o n : 0 <= o < 2 ^ 53 -> o mod 2 = 1 ->
  shift_odd index_fuel o n = shift_odd index_fuel (o / 2) (n / 2).
Proof.
  intros Ho Hm. rewrite (shift_odd_S 53 o n : shift_odd index_fuel o n = _).
  rewrite and1_mod, Hm. cbn [Z.eqb Pos.eqb].
  apply shift_odd_irrel; [split; [apply Z.div_pos; lia|]|]; apply Z.div_lt_upper_bound;
    unfold index_fuel; change (Z.of_nat 53) with 53; change (Z.of_nat 54) with 54; lia.
Qed.

Lemma shift_odd_even o n : o mod 2 = 0 -> shift_odd index_fuel o n = (o, n).
Proof.
  intros Hm. rewrite (shift_odd_S 53 o n : shift_odd index_fuel o n = _). by rewrite and1_mod, Hm.
Qed.

Lemma shift_even_odd o n : o mod 2 = 1 -> shift_even index_fuel o n = (o, n).
Proof.
  intros Hm. rewrite (shift_even_S 53 o n : shift_even index_fuel o n = _).
  by rewrite and1_mod, Hm, andb_false_r.
Qed.

Lemma shift_even_even o n : 0 < o < 2 ^ 53 -> o mod 2 = 0 ->
  shift_even index_fuel o n = shift_even index_fuel (o / 2) (n / 2).
Proof.
  intros Ho Hm. rewrite (shift_even_S 53 o n : shift_even index_fuel o n = _).
  rewrite and1_mod, Hm, (proj2 (Z.eqb_neq o 0)) by lia. cbn [Z.eqb negb andb].
  apply shift_even_irrel; [split; [apply Z.div_pos; lia|]|]; apply Z.div_lt_upper_bound;
    unfold index_fuel; change (Z.of_nat 53) with 53; change (Z.of_nat 54) with 54; lia.
Qed.

(** Levels at which the last node has no sibling consume nothing. *)
Lemma loop_shift i oh nh s p : 0 < i < 2 ^ 53 -> i mod 2 = 0 ->
  consistency_loop i i oh nh (s :: p) = consistency_loop (i / 2) (i / 2) oh nh (s :: p).
Proof.
  intros Hi Hm. cbn [consistency_loop]. rewrite !Z.eqb_refl, !orb_true_r, shift_even_even by done.
  assert (0 < i / 2) by (pose proof (Z.div_mod i 2); lia).
  rewrite !(proj2 (Z.eqb_neq _ 0)) by lia. done.
Qed.

Lemma pair_level_take_even i (l : list bytes) : Nat.even i = true -> (i <= length l)%nat ->
  pair_level nodeHash (take i l) = take (i / 2) (pair_level nodeHash l).
Proof.
  intros He Hi. rewrite <-(take_drop i l) at 2.
  rewrite pair_level_app by (by rewrite length_take, Nat.min_l).
  assert (length (pair_level nodeHash (take i l)) = (i / 2)%nat) as <-.
  { rewrite length_pair_level, length_take, Nat.min_l by done.
    apply Nat.even_spec in He as [y ->].
    rewrite Nat.add_comm, Nat.mul_comm, Nat.div_add, Nat.div_mul by lia. done. }
  by rewrite take_app_length.
Qed.

Notation head l := (mth nodeHash ([] : bytes) l).

Lemma head_take_even y l X : (2 * y <= length l)%nat ->
  head (take (2 * y) l ++ [X]) = head (take y (pair_level nodeHash l) ++ [X]).
Proof.
  intros Hl. rewrite <-(mth_pair_level nodeHash [] (take (2 * y) l ++ [X])).
  rewrite pair_level_app, pair_level_take_even
    by (rewrite ?length_take, ?Nat.min_l; try apply even_double; lia).
  by rewrite (Nat.mul_comm 2 y), Nat.div_mul.
Qed.

Lemma head_take_odd y l s X : l !! (2 * y)%nat = Some s ->
  head (take (S (2 * y)) l ++ [X]) = head (take y (pair_level nodeHash l) ++ [nodeHash s X]).
Proof.
  intros Hs. pose proof (lookup_lt_Some _ _ _ Hs).
  rewrite (take_S_r _ _ _ Hs), <-app_assoc. cbn [app].
  rewrite <-(mth_pair_level nodeHash [] (take (2 * y) l ++ [s; X])).
  rewrite pair_level_app, pair_level_take_even
    by (rewrite ?length_take, ?Nat.min_l; try apply even_double; lia).
  by rewrite (Nat.mul_comm 2 y), Nat.div_mul.
Qed.

Lemma path_nonempty i (l : list bytes) : (2 <= length l)%nat ->
  exists s p, path nodeHash [] i l = s :: p.
Proof.
  intros H. rewrite path_split by done. cbn zeta.
  case_match; (destruct (path _ _ _ _) as [|s p]; [by eexists _, _|by eexists _, _]).
Qed.

(** The loop along an audit path climbs both trees. *)
Lemma loop_path l i X h : l !! i = Some h -> zlen l < 2 ^ 53 ->
  consistency_loop (Z.of_nat i) (zlen l - 1) X h (path nodeHash [] i l)
  = Some (0, head (take i l ++ [X]), head l).
Proof.
  revert i X h; induction l as [l IH] using list_len_ind; intros i X h Hi Hsz.
  pose proof (lookup_lt_Some _ _ _ Hi) as Hlt.
  destruct l as [|a [|b l]]; [cbn in Hlt; lia| |].
  { destruct i; [|cbn in Hlt; lia]. by injection Hi as ->. }
  set (L := a :: b :: l) in *. assert (H2 : (2 <= length L)%nat) by (cbn; lia).
  pose proof (pair_level_shorter nodeHash L H2) as Hsh.
  pose proof (zlen_pair_level nodeHash L) as Hzp.
  assert (Hn2 : (zlen L - 1) / 2 = zlen (pair_level nodeHash L) - 1)
    by (rewrite Hzp; Z.to_euclidean_division_equations; lia).
  assert (Hsz' : zlen (pair_level nodeHash L) < 2 ^ 53) by (unfold zlen in *; lia).
  rewrite path_pair_level, <-(mth_pair_level nodeHash [] L) by done.
  destruct (index_cases i) as [(y & Hy & Ei & Hy2 & Hz & Hi2)|(y & Hy & Ei & Hy2 & Hz & Hi2)];
    unfold sibling; rewrite Ei.
  - rewrite Hy, head_take_even, <-Hy by lia.
    destruct (L !! S i) as [s|] eqn:Es; cbn [app].
    + cbn [consistency_loop]. pose proof (lookup_lt_Some _ _ _ Es).
      rewrite and1_mod, Hz, (proj2 (Z.eqb_neq _ 0)), (proj2 (Z.eqb_neq (Z.of_nat i) _))
        by (unfold zlen; lia).
      cbn [Z.eqb orb]. rewrite Hi2, Hn2, Hy2. apply IH; [done| |done].
      by rewrite pair_level_lookup, <-Hy, Hi, Es.
    + apply lookup_ge_None in Es.
      destruct (path_nonempty y (pair_level nodeHash L)) as (s & p & Hp).
      { rewrite length_pair_level. pose proof (Nat.div_mod_eq (length L + 1) 2).
        pose proof (Nat.mod_upper_bound (length L + 1) 2). lia. }
      assert (Hl : zlen L - 1 = Z.of_nat i) by (unfold zlen; lia).
      rewrite Hl in *. rewrite Hy2, Hp, loop_shift, <-Hp, Hi2, Hy2 by lia.
      replace (consistency_loop (Z.of_nat y) (Z.of_nat y))
        with (consistency_loop (Z.of_nat y) (zlen (pair_level nodeHash L) - 1)) by (f_equal; lia).
      apply IH; [done| |done]. rewrite pair_level_lookup, <-Hy, Hi.
      by rewrite (proj2 (lookup_ge_None L (S i))) by done.
  - assert (is_Some (L !! (2 * y)%nat)) as [s Es] by (apply lookup_lt_is_Some; lia).
    replace (i - 1)%nat with (2 * y)%nat by lia. rewrite Es; cbn [app consistency_loop].
    rewrite and1_mod, Hz, (proj2 (Z.eqb_neq _ 0)) by (unfold zlen; lia).
    cbn [Z.eqb Pos.eqb orb]. rewrite shift_even_odd, Hi2, Hn2, Hy2 by done.
    replace i with (S (2 * y)) in Hi |- * by lia. rewrite (head_take_odd y L s X Es).
    apply IH; [done| |done]. by rewrite pair_level_lookup, Es, Hi.
Qed.

(** *** The RFC 6962 proof as a path *)

Lemma subproof_fuel_eq f1 f2 m l b : (0 < m <= length l)%nat ->
  (length l <= f1)%nat -> (length l <= f2)%nat ->
  subproof_fuel f1 m l b = subproof_fuel f2 m l b.
Proof.
  revert f1 f2 m b; induction l as [l IH] using list_len_ind; intros [|f1] [|f2] m b Hm H1 H2;
    try lia. cbn [subproof_fuel]. destruct (Nat.eqb_spec m (length l)) as [|Hne]; [done|].
  pose proof (split_point_bounds (length l) ltac:(lia)).
  destruct (Nat.leb_spec m (split_point (length l))); f_equal; apply IH;
    rewrite ?length_take, ?length_drop; lia.
Qed.

Lemma subproof_split m l b : (0 < m < length l)%nat ->
  let k := split_point (length l) in
  subproof m l b = if (m <=? k)%nat then subproof m (take k l) b ++ [head (drop k l)]
                   else subproof (m - k) (drop k l) false ++ [head (take k l)].
Proof.
  intros Hm k. unfold subproof. pose proof (split_point_bounds (length l) ltac:(lia)) as Hk.
  fold k in Hk. destruct (length l) as [|f] eqn:El; [lia|]. cbn [subproof_fuel]. rewrite El. fold k.
  destruct (Nat.eqb_spec m (S f)) as [|_]; [lia|].
  destruct (Nat.leb_spec m k); f_equal; apply subproof_fuel_eq;
    rewrite ?length_take, ?length_drop; lia.
Qed.

Lemma subproof_full l b : l <> [] -> subproof (length l) l b = if b then [] else [head l].
Proof. unfold subproof. destruct l as [|a l]; [done|]. cbn [length subproof_fuel]. by rewrite Nat.eqb_refl. Qed.

(** An even size is proved one level up. *)
Lemma subproof_even y l b : (0 < 2 * y <= length l)%nat ->
  subproof (2 * y) l b = subproof y (pair_level nodeHash l) b.
Proof.
  revert y b; induction l as [l IH] using list_len_ind; intros y b Hm.
  assert (Hpl : length (pair_level nodeHash l) = ((length l + 1) / 2)%nat) by apply length_pair_level.
  pose proof (Nat.div_mod_eq (length l + 1) 2); pose proof (Nat.mod_upper_bound (length l + 1) 2).
  destruct (decide (2 * y = length l)%nat) as [He|Hne].
  { assert (Hy : y = length (pair_level nodeHash l)) by lia.
    rewrite Hy at 2. rewrite He, !subproof_full, mth_pair_level; try done;
      intros E%(f_equal length); cbn in E; lia. }
  assert (H3 : (3 <= length l)%nat) by lia.
  pose proof (pair_level_take_drop nodeHash l H3) as [Ht Hd].
  pose proof (half_split (length l) H3) as (Hm2 & _ & _ & Hk). rewrite <-Hpl in Hm2, Hk.
  pose proof (split_point_bounds (length l) ltac:(lia)) as Hb.
  rewrite (subproof_split (2 * y)), (subproof_split y) by lia. cbn zeta.
  rewrite Ht, Hd, !mth_pair_level.
  set (k := split_point (length l)) in *. set (m := split_point (length (pair_level nodeHash l))) in *.
  destruct (Nat.leb_spec (2 * y) k), (Nat.leb_spec y m); try lia.
  - rewrite IH; [done|rewrite length_take; lia..].
  - replace (2 * y - k)%nat with (2 * (y - m))%nat by lia.
    rewrite IH; [done|rewrite length_drop; lia..].
Qed.

(** An odd size: the last old node, then its audit path. *)
Lemma subproof_odd m l b h : l !! m = Some h -> Nat.even m = true ->
  (S m < length l \/ S m = 1)%nat ->
  subproof (S m) l b = (if (m =? 0)%nat && b then [] else [h]) ++ path nodeHash [] m l.
Proof.
  revert m b; induction l as [l IH] using list_len_ind; intros m b Hh He Hm.
  pose proof (lookup_lt_Some _ _ _ Hh) as Hlt.
  destruct (decide (length l = 1%nat)) as [H1|H1].
  { destruct l as [|a [|c l]]; try (cbn in H1; lia). destruct m; [|cbn in Hlt; lia].
    injection Hh as ->. by destruct b. }
  assert (H2 : (2 <= length l)%nat) by lia.
  pose proof (split_point_bounds (length l) H2) as Hb.
  rewrite subproof_split, path_split by lia. cbn zeta.
  set (k := split_point (length l)) in *.
  assert (Hk : k = 1%nat \/ Nat.even k = true).
  { destruct (decide (length l = 2%nat)) as [E|E].
    - left. subst k. by rewrite E.
    - right. subst k. rewrite split_point_half by lia. apply even_double. }
  destruct (Nat.leb_spec (S m) k) as [Hmk|Hmk].
  - rewrite (proj2 (Nat.ltb_lt m k)) by lia. rewrite IH, app_assoc; try done.
    + rewrite length_take; lia.
    + by rewrite lookup_take_lt.
    + rewrite length_take, Nat.min_l by lia. destruct Hk as [->|Hk]; [lia|].
      apply Nat.even_spec in He as [x ->], Hk as [z ->]. lia.
  - rewrite (proj2 (Nat.ltb_ge m k)) by lia. replace (S m - k)%nat with (S (m - k)) by lia.
    assert (Hk2 : Nat.even k = true) by (destruct Hk as [Hk|Hk]; [lia|done]).
    rewrite IH, andb_false_r, app_assoc.
    + rewrite (proj2 (Nat.eqb_neq m 0)) by lia. done.
    + rewrite length_drop; lia.
    + rewrite lookup_drop. by replace (k + (m - k))%nat with m by lia.
    + by rewrite Nat.even_sub, He, Hk2 by lia.
    + rewrite length_drop. lia.
Qed.

Lemma loop_subproof m l : (0 < m < length l)%nat -> zlen l < 2 ^ 53 ->
  let '(i, j) := shift_odd index_fuel (Z.of_nat m - 1) (zlen l - 1) in
  exists h p, consistency_start i (head (take m l)) (subproof m l true) = Some (h, p)
  /\ consistency_loop i j h h p = Some (0, head (take m l), head l).
Proof.
  revert m; induction l as [l IH] using list_len_ind; intros m Hm Hsz.
  destruct m as [|m]; [lia|]. replace (Z.of_nat (S m) - 1) with (Z.of_nat m) by lia.
  destruct (index_cases m) as [(y & Hy & Ei & Hy2 & Hz & Hi2)|(y & Hy & Ei & Hy2 & Hz & Hi2)].
  - rewrite shift_odd_even by done.
    assert (is_Some (l !! m)) as [h Hh] by (apply lookup_lt_is_Some; lia).
    rewrite (subproof_odd m l true h Hh Ei) by lia. unfold consistency_start.
    destruct (Nat.eqb_spec m 0) as [->|Hm0]; cbn [andb app].
    + exists h, (path nodeHash [] 0 l). rewrite (take_S_r _ _ _ Hh).
      split; [done|]. by apply (loop_path l 0 h h Hh).
    + rewrite (proj2 (Z.eqb_neq (Z.of_nat m) 0)) by lia.
      exists h, (path nodeHash [] m l). rewrite (take_S_r _ _ _ Hh).
      split; [done|]. by apply (loop_path l m h h Hh).
  - pose proof (zlen_pair_level nodeHash l) as Hzp.
    assert (Hn2 : (zlen l - 1) / 2 = zlen (pair_level nodeHash l) - 1)
      by (rewrite Hzp; Z.to_euclidean_division_equations; lia).
    assert (Hpl : (S y < length (pair_level nodeHash l))%nat).
    { rewrite length_pair_level. pose proof (Nat.div_mod_eq (length l + 1) 2);
      pose proof (Nat.mod_upper_bound (length l + 1) 2); lia. }
    pose proof (pair_level_shorter nodeHash l ltac:(lia)) as Hsh.
    rewrite shift_odd_odd, Hi2, Hn2, Hy2 by (unfold zlen in Hsz; lia).
    replace (S m) with (2 * S y)%nat by lia. rewrite subproof_even by lia.
    rewrite <-(mth_pair_level nodeHash [] (take (2 * S y) l)), pair_level_take_even
      by (try apply even_double; lia).
    rewrite (Nat.mul_comm 2 (S y)), Nat.div_mul, <-(mth_pair_level nodeHash [] l) by lia.
    replace (Z.of_nat y) with (Z.of_nat (S y) - 1) by lia.
    apply IH; [done|lia|unfold zlen in *; lia].
Qed.

Definition hash32 (h : bytes) : Prop := length h = 32%nat.

Lemma head_hash32 l : l <> [] -> Forall hash32 l -> hash32 (head l).
Proof.
  intros Hne Hl. destruct l as [|a [|b l]]; [done|by apply Forall_cons in Hl as [? _]|].
  rewrite mth_split by (cbn; lia). apply sha256_length.
Qed.

Lemma subproof_hash32 m l b : Forall hash32 l -> (0 < m <= length l)%nat ->
  Forall hash32 (subproof m l b).
Proof.
  revert m b; induction l as [l IH] using list_len_ind; intros m b Hl Hm.
  destruct (decide (m = length l)) as [->|Hne].
  { assert (l <> []) by (intros ->; cbn in Hm; lia). rewrite subproof_full by done.
    destruct b; repeat constructor. by apply head_hash32. }
  pose proof (split_point_bounds (length l) ltac:(lia)). rewrite subproof_split by lia. cbn zeta.
  assert (Hcut : forall k, Forall hash32 (take k l) /\ Forall hash32 (drop k l))
    by (intros k; rewrite <-Forall_app, take_drop; done).
  assert (Hne' : forall k : list bytes, (0 < length k)%nat -> k <> []) by (intros [] ?; [cbn in *; lia|done]).
  destruct (Nat.leb_spec m (split_point (length l))); apply Forall_app; split; repeat constructor;
    (apply IH || apply head_hash32); try apply Hcut; try apply Hne';
    rewrite ?length_take, ?length_drop; lia.
Qed.

Lemma verify_guards (n1 n2 : Z) (r1 r2 : bytes) p :
  0 <= n1 <= MAX_SAFE_INTEGER -> 0 <= n2 <= MAX_SAFE_INTEGER -> hash32 r1 -> hash32 r2 ->
  Forall hash32 p ->
  negb (isSafeInteger n1) || negb (isSafeInteger n2) || (n1 <? 0) || (n2 <? 0) = false
  /\ negb (length r1 =? 32)%nat || negb (length r2 =? 32)%nat
     || existsb (fun node => negb (length node =? 32)%nat) p = false.
Proof.
  intros H1 H2 Hr1 Hr2 Hp. unfold hash32 in *. rewrite Hr1, Hr2.
  rewrite !(proj2 (isSafeInteger_spec _)) by lia.
  rewrite !(proj2 (Z.ltb_ge _ _)) by lia. split; [done|]. cbn [Nat.eqb negb orb].
  apply existsb_false_Forall. eapply Forall_impl; [exact Hp|]. cbn. by intros x ->.
Qed.

Lemma MTH_head entries : entries <> [] -> MTH entries = head (map leafHash entries).
Proof. by destruct entries. Qed.

Lemma consistency_sound old new proof :
  verifyC2spConsistencyProof (zlen old) (zlen new)
    (merkleRootFromEntries old) (merkleRootFromEntries new) proof = true ->
  match consistency_collision old new proof with
  | Some c => is_collision c
  | None => old `prefix_of` new
  end.
Proof.
  rewrite !merkleRootFromEntries_MTH. unfold verifyC2spConsistencyProof, consistency_collision.
  case_match; [done|]. case_match eqn:H32; [done|]. apply orb_false_iff in H32 as [_ H32].
  assert (Hp : Forall hash32 proof).
  { apply existsb_false_Forall in H32. eapply Forall_impl; [exact H32|]. cbn.
    intros x Hx. by bool_inv. }
  destruct (Z.eqb_spec (zlen old) 0) as [H0|H0].
  { intros _. destruct old as [|e old]; [apply prefix_nil|].
    rewrite zlen_cons in H0. pose proof (zlen_nonneg old). lia. }
  assert (Ho : old <> []) by (by intros ->).
  rewrite (proj2 (Nat.eqb_neq (length old) 0)) by (unfold zlen in H0; lia).
  destruct (Z.eqb_spec (zlen old) (zlen new)) as [He|He].
  { unfold zlen in He. rewrite (proj2 (Nat.eqb_eq (length old) (length new))) by lia.
    intros [_ Hr]%andb_true_iff. apply bool_decide_eq_true in Hr.
    assert (Hn : new <> []) by (intros ->; destruct old; [done|cbn in He; lia]).
    pose proof (tree_diff_MTH old new Ho Hn Hr) as Hd.
    destruct (tree_diff _ _); [exact Hd|]. by rewrite Hd. }
  rewrite (proj2 (Nat.eqb_neq (length old) (length new))) by (unfold zlen in He; lia).
  destruct (Z.ltb_spec (zlen new) (zlen old)); [done|].
  assert (Hn : new <> []) by (intros ->; change (zlen (@nil bytes)) with 0 in *; pose proof (zlen_nonneg old); lia).
  destruct (shift_odd _ _ _) as [i j].
  destruct (consistency_start i (MTH old) proof) as [[h p]|] eqn:Es; [|done]. cbn [from_option id].
  assert (Hhp : hash32 h /\ Forall hash32 p).
  { unfold consistency_start in Es. case_match; [simplify_eq; split; [apply length_MTH|done]|].
    destruct proof as [|node proof]; simplify_eq. by apply Forall_cons in Hp. }
  destruct Hhp as [Hh Hps].
  destruct (consistency_loop i j h h p) as [[[j' oh] nh]|] eqn:El; [|done].
  intros [[_ Hoh]%andb_true_iff Hnh]%andb_true_iff.
  apply bool_decide_eq_true in Hoh as ->, Hnh as ->.
  apply consistency_loop_steps in El as [Hvo Hvn]. cbn in Hvo, Hvn.
  rewrite <-root_hash_tree_of in Hvo, Hvn by done.
  pose proof (descend_both h (rev (consistency_steps i j p)) (tree_of old) (tree_of new) Hh) as Hd.
  rewrite map_rev, consistency_steps_snd in Hd.
  specialize (Hd ltac:(by apply Forall_rev) (eq_sym Hvn) (eq_sym Hvo)).
  rewrite !leaves_tree_of in Hd by done.
  destruct (descend h _ (tree_of new)) as [c|[sn tn]]; [exact Hd|].
  destruct (descend h _ (tree_of old)) as [c|[so t_o]]; [exact Hd|].
  destruct (trees_diff _ _); exact Hd.
Qed.

(** ** Properties *)

(** C20: completeness of consistency proofs: for every log and every earlier size,
    the RFC 6962 consistency proof is accepted between the two roots. *)
Theorem verifyC2spConsistencyProof_complete entries m :
  (m <= length entries)%nat -> zlen entries <= MAX_SAFE_INTEGER ->
  verifyC2spConsistencyProof (Z.of_nat m) (zlen entries)
    (merkleRootFromEntries (take m entries)) (merkleRootFromEntries entries) (PROOF m entries) = true.
Proof.
  intros Hm Hsz. rewrite !merkleRootFromEntries_MTH. unfold verifyC2spConsistencyProof, PROOF.
  assert (Hl : Forall hash32 (map leafHash entries))
    by (apply Forall_map, Forall_true; intros; apply sha256_length).
  set (p := if (m =? 0)%nat then [] else subproof m (map leafHash entries) true).
  assert (Hp : Forall hash32 p).
  { subst p. destruct (Nat.eqb_spec m 0); [constructor|].
    apply subproof_hash32; [done|]. rewrite length_map. lia. }
  destruct (verify_guards (Z.of_nat m) (zlen entries) (MTH (take m entries)) (MTH entries) p)
    as [-> ->]; try done; try apply length_MTH; [unfold zlen in *; lia..|].
  destruct (Z.eqb_spec (Z.of_nat m) 0) as [H0|H0].
  { assert (m = 0%nat) as -> by lia. subst p. rewrite take_0. cbn [Nat.eqb length MTH].
    unfold equalBytes. rewrite bool_decide_eq_true_2 by done.
    destruct (Z.eqb_spec (zlen entries) 0) as [Hz|]; [|done].
    destruct entries; [by rewrite bool_decide_eq_true_2|by rewrite zlen_cons in Hz; pose proof (zlen_nonneg entries); lia]. }
  assert (Hne : entries <> []) by (intros ->; cbn in Hm; lia).
  assert (Hne' : take m entries <> []) by (destruct entries, m; [done|done|cbn in H0; lia|done]).
  subst p. rewrite (proj2 (Nat.eqb_neq m 0)) in * by lia.
  destruct (Z.eqb_spec (Z.of_nat m) (zlen entries)) as [He|He].
  { assert (Hme : m = length entries) by (unfold zlen in He; lia).
    rewrite Hme, take_ge by done. rewrite <-(length_map leafHash entries) at 1.
    rewrite subproof_full by (by destruct entries). cbn. unfold equalBytes.
    by rewrite bool_decide_eq_true_2. }
  rewrite (proj2 (Z.ltb_ge _ _)) by (unfold zlen in *; lia).
  rewrite !MTH_head, <-firstn_map by done.
  pose proof (loop_subproof m (map leafHash entries)) as Hloop.
  unfold zlen in *. rewrite length_map in Hloop.
  specialize (Hloop ltac:(lia) ltac:(unfold MAX_SAFE_INTEGER in Hsz; lia)).
  destruct (shift_odd _ _ _) as [i j]. destruct Hloop as (h & p & -> & ->).
  unfold equalBytes. by rewrite !bool_decide_eq_true_2.
Qed.

(** C19: soundness of consistency proofs: if a proof is accepted between the roots
    of two logs, then the first log is a prefix of the second, or
    [consistency_collision] computes two different messages with the same
    SHA-256 digest. *)
Theorem verifyC2spConsistencyProof_sound old new proof :
  verifyC2spConsistencyProof (zlen old) (zlen new)
    (merkleRootFromEntries old) (merkleRootFromEntries new) proof = true ->
  match consistency_collision old new proof with
  | Some (x, y) => x <> y /\ digest x = digest y
  | None => old `prefix_of` new
  end.
Proof.
  intros H%consistency_sound. by destruct (consistency_collision old new proof) as [[x y]|].
Qed.

End Consistency.

Definition seven_entries : list bytes := [[x00]; [x01]; [x02]; [x03]; [x04]; [x05]; [x06]].

Lemma verifyC2spConsistencyProof_complete_witness :
  let H := Sha256_instance in
  verifyC2spConsistencyProof 3 7 (merkleRootFromEntries (take 3 seven_entries))
    (merkleRootFromEntries seven_entries) (PROOF 3 seven_entries) = true.
Proof.
  apply (verifyC2spConsistencyProof_complete (H256 := Sha256_instance) seven_entries 3);
    [cbn; lia | vm_compute; discriminate].
Defined.

Lemma verifyC2spConsistencyProof_sound_witness :
  let H := Sha256_instance in
  match consistency_collision (take 3 seven_entries) seven_entries (PROOF 3 seven_entries) with
  | Some (x, y) => x <> y /\ digest x = digest y
  | None => take 3 seven_entries `prefix_of` seven_entries
  end.
Proof.
  apply (verifyC2spConsistencyProof_sound (H256 := Sha256_instance) (take 3 seven_entries)
           seven_entries (PROOF (H256 := Sha256_instance) 3 seven_entries)).
  vm_compute. reflexivity.
Defined.
