(* ===== verification/JsString.v ===== *)
(** JavaScript strings.

    A JavaScript string is a sequence of 16-bit code units, kept here as
    numbers.  This file holds the string operations of the language that the
    program uses (searching, slicing, splitting, joining, trimming, decimal
    numerals, the UTF-8 codecs) with the lemmas the components share. *)

From S2P Require Import Prelude.

Notation jsstr := (list Z).

(** The string literal of the source for an ASCII text. *)
Definition js (s : string) : jsstr :=
  map (fun a => Z.of_N (N_of_ascii a)) (list_ascii_of_string s).

(** A code unit is a 16-bit number. *)
Definition unit16 (u : Z) : bool := (0 <=? u) && (u <? 65536).

(** ** Character classes of the regular expressions *)

Definition is_digit (u : Z) : bool := (48 <=? u) && (u <=? 57).
Definition is_upper (u : Z) : bool := (65 <=? u) && (u <=? 90).
Definition is_lower (u : Z) : bool := (97 <=? u) && (u <=? 122).
Definition is_alpha (u : Z) : bool := is_upper u || is_lower u.
Definition is_alnum (u : Z) : bool := is_alpha u || is_digit u.
Definition is_hex (u : Z) : bool :=
  is_digit u || ((65 <=? u) && (u <=? 70)) || ((97 <=? u) && (u <=? 102)).

(** [\s], which is also the set removed by [trim]. *)
Definition is_space (u : Z) : bool :=
  ((9 <=? u) && (u <=? 13)) || (u =? 32) || (u =? 160) || (u =? 5760)
  || ((8192 <=? u) && (u <=? 8202)) || (u =? 8232) || (u =? 8233)
  || (u =? 8239) || (u =? 8287) || (u =? 12288) || (u =? 65279).

(** ** Searching and slicing *)

Fixpoint startsWith (s p : jsstr) : bool :=
  match p, s with
  | [], _ => true
  | x :: p, y :: s => (x =? y) && startsWith s p
  | _, [] => false
  end.

Definition endsWith (s p : jsstr) : bool := startsWith (rev s) (rev p).

(** [s.indexOf(p)] *)
Fixpoint indexOf_from (i : Z) (s p : jsstr) : Z :=
  if startsWith s p then i
  else match s with [] => -1 | _ :: s => indexOf_from (i + 1) s p end.
Definition indexOf (s p : jsstr) : Z := indexOf_from 0 s p.

Definition includes (s p : jsstr) : bool := negb (indexOf s p =? -1).

(** [s.lastIndexOf(c)] for a single code unit. *)
Fixpoint lastIndexOf_from (i : Z) (s : jsstr) (c best : Z) : Z :=
  match s with
  | [] => best
  | x :: s => lastIndexOf_from (i + 1) s c (if x =? c then i else best)
  end.
Definition lastIndexOf (s : jsstr) (c : Z) : Z := lastIndexOf_from 0 s c (-1).

(** [s.slice(a)] and [s.slice(a, b)] for [0 <= a]. *)
Definition slice_from {A} (s : list A) (a : Z) : list A := drop (Z.to_nat a) s.
Definition slice {A} (s : list A) (a b : Z) : list A := take (Z.to_nat (b - a)) (drop (Z.to_nat a) s).

(** ** Splitting and joining on one code unit *)

Fixpoint split_on (c : Z) (s : jsstr) : list jsstr :=
  match s with
  | [] => [[]]
  | x :: s =>
      if x =? c then [] :: split_on c s
      else match split_on c s with
           | p :: ps => (x :: p) :: ps
           | [] => [[x]]
           end
  end.

Fixpoint join (sep : jsstr) (parts : list jsstr) : jsstr :=
  match parts with
  | [] => []
  | [p] => p
  | p :: parts => p ++ sep ++ join sep parts
  end.

(** [s.replace(/c/g, d)] for a code unit, and removal of a code unit. *)
Definition replace_unit (c d : Z) (s : jsstr) : jsstr := map (fun x => if x =? c then d else x) s.
Definition remove_unit (c : Z) (s : jsstr) : jsstr := List.filter (fun x => negb (x =? c)) s.

(** ** Trimming *)

Fixpoint dropWhile {A} (f : A -> bool) (l : list A) : list A :=
  match l with
  | [] => []
  | x :: r => if f x then dropWhile f r else l
  end.
Definition trimStart (s : jsstr) : jsstr := dropWhile is_space s.
Definition trimEnd (s : jsstr) : jsstr := rev (dropWhile is_space (rev s)).
Definition trim (s : jsstr) : jsstr := trimEnd (trimStart s).

(** [s.split(/x+/)] on runs of code units of a class. *)
Fixpoint split_runs_aux (f : Z -> bool) (in_run : bool) (s : jsstr) : list jsstr :=
  match s with
  | [] => [[]]
  | x :: s =>
      if f x then
        if in_run then split_runs_aux f true s else [] :: split_runs_aux f true s
      else match split_runs_aux f false s with
           | p :: ps => (x :: p) :: ps
           | [] => [[x]]
           end
  end.
Definition split_runs (f : Z -> bool) (s : jsstr) : list jsstr := split_runs_aux f false s.

(** Lexicographic order of code units ([<] on strings, [Array.prototype.sort]). *)
Fixpoint str_ltb (a b : jsstr) : bool :=
  match a, b with
  | [], [] => false
  | [], _ :: _ => true
  | _ :: _, [] => false
  | x :: a, y :: b => (x <? y) || ((x =? y) && str_ltb a b)
  end.
Definition str_le (a b : jsstr) : Prop := str_ltb b a = false.

(** ** Decimal numerals *)

(** [String(n)] for a non-negative integer below 10^21. *)
Fixpoint dec_fuel (fuel : nat) (z : Z) : jsstr :=
  match fuel with
  | O => []
  | S fuel => if z <? 10 then [48 + z] else dec_fuel fuel (z / 10) ++ [48 + z mod 10]
  end.
Definition dec (z : Z) : jsstr := dec_fuel (S (Z.to_nat (Z.log2 z))) z.

Definition digits_value (s : jsstr) : Z := foldl (fun acc u => acc * 10 + (u - 48)) 0 s.

(** The canonical decimal numerals: 0, or digits without a leading zero. *)
Definition isDecimal (s : jsstr) : bool :=
  match s with
  | [] => false
  | x :: s =>
      if x =? 48 then match s with [] => true | _ => false end
      else (49 <=? x) && (x <=? 57) && forallb is_digit s
  end.

(** Lowercase hexadecimal of a byte string ([Buffer.toString('hex')]). *)
Definition hex_digit (n : Z) : Z := if n <? 10 then 48 + n else 87 + n.
Definition to_hex (l : bytes) : jsstr :=
  concat (map (fun b => [hex_digit (b2z b / 16); hex_digit (b2z b mod 16)]) l).

Definition hex_value (u : Z) : Z :=
  if is_digit u then u - 48 else if u <=? 70 then u - 55 else u - 87.

(** ** UTF-8 *)

(** [new TextEncoder().encode(s)]: a lone surrogate becomes U+FFFD. *)
Definition utf8_scalar (c : Z) : bytes :=
  if c <? 128 then [z2b c]
  else if c <? 2048 then [z2b (192 + c / 64); z2b (128 + c mod 64)]
  else if c <? 65536 then
    [z2b (224 + c / 4096); z2b (128 + c / 64 mod 64); z2b (128 + c mod 64)]
  else [z2b (240 + c / 262144); z2b (128 + c / 4096 mod 64);
        z2b (128 + c / 64 mod 64); z2b (128 + c mod 64)].

Definition is_high (u : Z) : bool := (55296 <=? u) && (u <=? 56319).
Definition is_low (u : Z) : bool := (56320 <=? u) && (u <=? 57343).

Fixpoint utf8_encode (s : jsstr) : bytes :=
  match s with
  | [] => []
  | u :: s' =>
      if is_high u then
        match s' with
        | v :: s'' =>
            if is_low v then utf8_scalar (65536 + (u - 55296) * 1024 + (v - 56320)) ++ utf8_encode s''
            else utf8_scalar 65533 ++ utf8_encode s'
        | [] => utf8_scalar 65533
        end
      else if is_low u then utf8_scalar 65533 ++ utf8_encode s'
      else utf8_scalar u ++ utf8_encode s'
  end.

Definition units_of_scalar (c : Z) : jsstr :=
  if c <? 65536 then [c]
  else [55296 + (c - 65536) / 1024; 56320 + (c - 65536) mod 1024].

Definition is_cont (b : Z) : bool := (128 <=? b) && (b <? 192).

(** One scalar value at the head of a byte string, with what follows it;
    [None] when the bytes are not well-formed UTF-8. *)
Definition utf8_next (l : list Z) : option (Z * list Z) :=
  match l with
  | a :: l =>
      if a <? 128 then Some (a, l)
      else if (194 <=? a) && (a <? 224) then
        match l with
        | b :: l => if is_cont b then Some ((a - 192) * 64 + (b - 128), l) else None
        | _ => None
        end
      else if (224 <=? a) && (a <? 240) then
        match l with
        | b :: c :: l =>
            let v := (a - 224) * 4096 + (b - 128) * 64 + (c - 128) in
            if is_cont b && is_cont c && (2048 <=? v) && negb (is_high v || is_low v)
            then Some (v, l) else None
        | _ => None
        end
      else if (240 <=? a) && (a <? 245) then
        match l with
        | b :: c :: e :: l =>
            let v := (a - 240) * 262144 + (b - 128) * 4096 + (c - 128) * 64 + (e - 128) in
            if is_cont b && is_cont c && is_cont e && (65536 <=? v) && (v <? 1114112)
            then Some (v, l) else None
        | _ => None
        end
      else None
  | [] => None
  end.

Fixpoint utf8_decode_fuel (fuel : nat) (l : list Z) : option jsstr :=
  match fuel, l with
  | _, [] => Some []
  | O, _ => None
  | S fuel, _ =>
      '(v, l) ← utf8_next l;
      s ← utf8_decode_fuel fuel l;
      Some (units_of_scalar v ++ s)
  end.

(** [new TextDecoder('utf-8', { fatal: true, ignoreBOM: true }).decode(bytes)] *)
Definition utf8_decode_bom (l : bytes) : option jsstr :=
  utf8_decode_fuel (length l) (map b2z l).

(** [new TextDecoder('utf-8', { fatal: true }).decode(bytes)]: a leading byte
    order mark is removed. *)
Definition utf8_decode (l : bytes) : option jsstr :=
  match utf8_decode_bom l with
  | Some (65279 :: s) => Some s
  | o => o
  end.

(** [new TextDecoder().decode(bytes)]: the replacing decoder of the WHATWG encoding
    standard.  Its state holds the continuation bytes needed, the bounds of the next
    byte and the bits so far. *)
Definition lossy_start (b : Z) : jsstr * option (Z * Z * Z * Z) :=
  if b <? 128 then ([b], None)
  else if (194 <=? b) && (b <? 224) then ([], Some (1, 128, 191, b - 192))
  else if (224 <=? b) && (b <? 240) then
    ([], Some (2, (if b =? 224 then 160 else 128), (if b =? 237 then 159 else 191), b - 224))
  else if (240 <=? b) && (b <? 245) then
    ([], Some (3, (if b =? 240 then 144 else 128), (if b =? 244 then 143 else 191), b - 240))
  else ([65533], None).

Fixpoint utf8_lossy (state : option (Z * Z * Z * Z)) (l : list Z) : jsstr :=
  match l with
  | [] => match state with None => [] | Some _ => [65533] end
  | b :: l =>
      match state with
      | None => let '(out, state) := lossy_start b in out ++ utf8_lossy state l
      | Some (needed, lower, upper, bits) =>
          if (lower <=? b) && (b <=? upper) then
            let bits := bits * 64 + (b - 128) in
            if needed =? 1 then units_of_scalar bits ++ utf8_lossy None l
            else utf8_lossy (Some (needed - 1, 128, 191, bits)) l
          else let '(out, state) := lossy_start b in 65533 :: out ++ utf8_lossy state l
      end
  end.

Definition text_decode (l : bytes) : jsstr :=
  match utf8_lossy None (map b2z l) with
  | 65279 :: s => s
  | s => s
  end.

(** ** Lemmas *)

Lemma startsWith_app p s : startsWith (p ++ s) p = true.
Proof. induction p as [|x p IH]; cbn; [by destruct s|]. by rewrite Z.eqb_refl. Qed.

Lemma startsWith_spec s p : startsWith s p = true <-> exists t, s = p ++ t.
Proof.
  split; [|intros [t ->]; apply startsWith_app].
  revert s; induction p as [|x p IH]; intros s H; cbn in *; [by exists s|].
  destruct s as [|y s]; [done|]. cbn in H. bool_inv.
  destruct (IH s ltac:(done)) as [t ->].
  exists t. cbn. congruence.
Qed.

Lemma split_on_ne c s : split_on c s <> [].
Proof. destruct s as [|x s]; cbn; [done|]. repeat case_match; done. Qed.

Lemma join_cons sep p q ps : join sep (p :: q :: ps) = p ++ sep ++ join sep (q :: ps).
Proof. done. Qed.

(** Joining the pieces of a split gives the string back. *)
Lemma join_split c s : join [c] (split_on c s) = s.
Proof.
  induction s as [|x s IH]; cbn [split_on]; [done|].
  pose proof (split_on_ne c s). destruct (split_on c s) as [|p ps] eqn:E; [done|].
  destruct (Z.eqb_spec x c) as [->|Hx].
  - rewrite join_cons. cbn [app]. by rewrite IH.
  - destruct ps as [|q ps]; cbn in *; congruence.
Qed.

Lemma split_on_nosep c s : c ∉ s -> split_on c s = [s].
Proof.
  induction s as [|x s IH]; cbn; [done|]. rewrite not_elem_of_cons. intros [Hx Hs].
  rewrite IH by done. by rewrite (proj2 (Z.eqb_neq x c)) by congruence.
Qed.

Lemma split_on_app c p s : c ∉ p -> split_on c (p ++ c :: s) = p :: split_on c s.
Proof.
  induction p as [|x p IH]; cbn; [by rewrite Z.eqb_refl|].
  rewrite not_elem_of_cons. intros [Hx Hp].
  rewrite IH by done. by rewrite (proj2 (Z.eqb_neq x c)) by congruence.
Qed.

(** Splitting a join gives the pieces back when none holds the separator. *)
Lemma split_join c ps : ps <> [] -> Forall (fun p => c ∉ p) ps -> split_on c (join [c] ps) = ps.
Proof.
  intros Hne H. induction H as [|p ps Hp Hps IH]; [done|].
  destruct ps as [|q ps]; [by apply split_on_nosep|].
  rewrite join_cons. cbn [app]. rewrite split_on_app by done. by rewrite IH.
Qed.

Lemma split_on_snoc c s : split_on c (s ++ [c]) = split_on c s ++ [[]].
Proof.
  induction s as [|x s IH]; cbn; [by rewrite Z.eqb_refl|]. rewrite IH. destruct (x =? c); [done|].
  destruct (split_on c s) as [|p ps] eqn:E; [by apply split_on_ne in E|done].
Qed.

Lemma endsWith_spec s p : endsWith s p = true <-> exists t, s = t ++ p.
Proof.
  unfold endsWith. rewrite startsWith_spec. split; intros [t E].
  - exists (rev t). by rewrite <-(rev_involutive s), E, rev_app_distr, rev_involutive.
  - exists (rev t). by rewrite E, rev_app_distr.
Qed.

Lemma split_on_Forall c s : Forall (fun p => c ∉ p) (split_on c s).
Proof.
  induction s as [|x s IH]; cbn.
  - repeat constructor. apply not_elem_of_nil.
  - destruct (Z.eqb_spec x c); [constructor; [apply not_elem_of_nil|done]|].
    pose proof (split_on_ne c s). destruct (split_on c s) as [|p ps]; [done|].
    apply Forall_cons in IH as [Hp Hps]. constructor; [|done].
    apply not_elem_of_cons. by split; [congruence|].
Qed.

(** *** Order *)

Lemma str_ltb_irrefl a : str_ltb a a = false.
Proof. induction a as [|x a IH]; cbn; [done|]. by rewrite Z.ltb_irrefl, Z.eqb_refl, IH. Qed.

Lemma str_ltb_trans a b c : str_ltb a b = true -> str_ltb b c = true -> str_ltb a c = true.
Proof.
  revert b c; induction a as [|x a IH]; intros [|y b] [|z c]; cbn; try done.
  rewrite !orb_true_iff, !andb_true_iff, !Z.ltb_lt, !Z.eqb_eq.
  intros [?|[-> ?]] [?|[-> ?]]; [left; lia|by left|by left|right; split; [done|by eapply IH]].
Qed.

Lemma str_ltb_total a b : a <> b -> str_ltb a b = false -> str_ltb b a = true.
Proof.
  revert b; induction a as [|x a IH]; intros [|y b] Hne H; cbn in *; try done.
  apply orb_false_iff in H as [Hlt Heq]. bool_inv.
  apply orb_true_iff. rewrite andb_true_iff, Z.ltb_lt, Z.eqb_eq.
  destruct (Z.eq_dec x y) as [->|]; [|left; lia].
  right. split; [done|]. rewrite Z.eqb_refl in Heq. apply IH; [congruence|done].
Qed.

Lemma str_ltb_asym a b : str_ltb a b = true -> str_ltb b a = false.
Proof.
  intros H. destruct (str_ltb b a) eqn:E; [|done].
  pose proof (str_ltb_trans a b a H E) as Hc. by rewrite str_ltb_irrefl in Hc.
Qed.

Lemma str_le_trans a b c : str_le a b -> str_le b c -> str_le a c.
Proof.
  unfold str_le. intros Hab Hbc. destruct (str_ltb c a) eqn:E; [|done].
  destruct (decide (a = b)) as [->|Hne]; [congruence|].
  pose proof (str_ltb_total b a (not_eq_sym Hne) Hab) as Hlt.
  by rewrite (str_ltb_trans c a b E Hlt) in Hbc.
Qed.

(** *** Decimal numerals *)

Lemma digits_value_app s t :
  digits_value (s ++ t) = digits_value s * 10 ^ zlen t + digits_value t.
Proof.
  unfold digits_value. rewrite foldl_app. generalize (foldl (fun acc u => acc * 10 + (u - 48)) 0 s).
  induction t as [|x t IH] using rev_ind; intros a.
  - change (zlen (@nil Z)) with 0. rewrite Z.pow_0_r. cbn [foldl]. lia.
  - rewrite !foldl_app, zlen_app. cbn [foldl]. rewrite IH.
    change (zlen [x]) with 1. rewrite Z.pow_add_r, Z.pow_1_r by (lia || apply zlen_nonneg). lia.
Qed.

Lemma dec_fuel_spec fuel z : 0 <= z < 10 ^ Z.of_nat fuel -> (0 < fuel)%nat ->
  digits_value (dec_fuel fuel z) = z /\ forallb is_digit (dec_fuel fuel z) = true
  /\ isDecimal (dec_fuel fuel z) = true.
Proof.
  revert z; induction fuel as [|fuel IH]; intros z Hz Hf; [lia|]. cbn [dec_fuel].
  destruct (Z.ltb_spec z 10) as [Hs|Hs].
  { unfold digits_value, is_digit. cbn. split; [lia|]. split; [|].
    - rewrite andb_true_r. apply andb_true_iff. lia.
    - assert (z = 0 \/ z = 1 \/ z = 2 \/ z = 3 \/ z = 4 \/ z = 5 \/ z = 6 \/ z = 7 \/ z = 8 \/ z = 9)
        as Hc by lia. by repeat destruct Hc as [->|Hc]; subst. }
  assert (Hd : 0 <= z / 10 < 10 ^ Z.of_nat fuel).
  { split; [apply Z.div_pos; lia|]. apply Z.div_lt_upper_bound; [lia|].
    rewrite Nat2Z.inj_succ, Z.pow_succ_r in Hz by lia. lia. }
  destruct fuel as [|fuel]; [cbn in Hd; pose proof (Z.div_pos z 10); cbn in Hz; lia|].
  destruct (IH (z / 10) Hd ltac:(lia)) as (Hv & Hg & Hc).
  pose proof (Z.div_mod z 10 ltac:(lia)). pose proof (Z.mod_pos_bound z 10 ltac:(lia)).
  assert (Hlast : is_digit (48 + z mod 10) = true) by (unfold is_digit; apply andb_true_iff; lia).
  split; [|split].
  - rewrite digits_value_app, Hv. change (zlen [48 + z mod 10]) with 1.
    unfold digits_value. cbn [foldl]. lia.
  - rewrite forallb_app, Hg. cbn. by rewrite Hlast.
  - remember (dec_fuel (S fuel) (z / 10)) as s eqn:Es.
    assert (Hnz : digits_value s <> 0) by (rewrite Hv; pose proof (Z.div_le_lower_bound z 10 1); lia).
    destruct s as [|x s]; [done|].
    cbn in Hg. apply andb_true_iff in Hg as [Hx Hg]. cbn in Hc |- *.
    destruct (Z.eqb_spec x 48) as [->|Hx48].
    { destruct s; [by cbn in Hnz|done]. }
    rewrite forallb_app. cbn. rewrite Hlast.
    apply andb_true_iff in Hc as [-> ->]. done.
Qed.

Lemma dec_fuel_enough z : 0 <= z -> z < 10 ^ Z.of_nat (S (Z.to_nat (Z.log2 z))).
Proof.
  intros Hz. rewrite Nat2Z.inj_succ, Z2Nat.id by apply Z.log2_nonneg.
  destruct (Z.eq_dec z 0) as [->|]; [done|].
  pose proof (Z.log2_spec z ltac:(lia)) as [_ H].
  eapply Z.lt_le_trans; [exact H|]. apply Z.pow_le_mono_l. lia.
Qed.

Lemma dec_spec z : 0 <= z ->
  digits_value (dec z) = z /\ forallb is_digit (dec z) = true /\ isDecimal (dec z) = true.
Proof. intros Hz. apply dec_fuel_spec; [split; [done|by apply dec_fuel_enough]|lia]. Qed.

Lemma dec_fuel_irrel f1 f2 z : 0 <= z -> (0 < f1)%nat -> (0 < f2)%nat ->
  z < 10 ^ Z.of_nat f1 -> z < 10 ^ Z.of_nat f2 -> dec_fuel f1 z = dec_fuel f2 z.
Proof.
  revert f2 z; induction f1 as [|f1 IH]; intros [|f2] z Hz H1 H2 Hf1 Hf2; try lia.
  cbn [dec_fuel]. destruct (Z.ltb_spec z 10) as [|Hs]; [done|].
  rewrite Nat2Z.inj_succ, Z.pow_succ_r in Hf1, Hf2 by lia.
  destruct f1 as [|f1]; [cbn in Hf1; lia|]. destruct f2 as [|f2]; [cbn in Hf2; lia|].
  rewrite (IH (S f2)); try lia; [done|apply Z.div_pos; lia| |]; apply Z.div_lt_upper_bound; lia.
Qed.

Lemma dec_small z : z < 10 -> dec z = [48 + z].
Proof. intros H. unfold dec. cbn [dec_fuel]. by rewrite (proj2 (Z.ltb_lt _ _) H). Qed.

Lemma dec_big z : 10 <= z -> dec z = dec (z / 10) ++ [48 + z mod 10].
Proof.
  intros H. unfold dec at 1. cbn [dec_fuel]. rewrite (proj2 (Z.ltb_ge _ _) H). f_equal.
  assert (Hp : 0 <= z / 10) by (apply Z.div_pos; lia).
  assert (Hl : 3 <= Z.log2 z) by (apply (Z.log2_le_mono 8); lia).
  unfold dec. apply dec_fuel_irrel; try lia; [|by apply dec_fuel_enough].
  apply Z.div_lt_upper_bound; [lia|]. pose proof (dec_fuel_enough z ltac:(lia)) as He.
  rewrite Nat2Z.inj_succ, Z.pow_succ_r in He by lia. lia.
Qed.

Lemma digits_value_bounds s : forallb is_digit s = true -> 0 <= digits_value s.
Proof.
  induction s as [|x s IH] using rev_ind; [done|].
  rewrite forallb_app, digits_value_app. cbn. intros [Hs Hx]%andb_true_iff.
  rewrite andb_true_r in Hx. unfold is_digit in Hx. bool_inv.
  specialize (IH Hs). change (zlen [x]) with 1. lia.
Qed.

Lemma isDecimal_digits s : isDecimal s = true -> forallb is_digit s = true.
Proof.
  destruct s as [|x s]; cbn; [done|]. destruct (Z.eqb_spec x 48) as [->|].
  - by destruct s.
  - intros [Hx ->]%andb_true_iff. rewrite andb_true_r. unfold is_digit.
    bool_inv. apply andb_true_iff. lia.
Qed.

(** A canonical numeral is the numeral of its value. *)
Lemma dec_digits_value s : isDecimal s = true -> dec (digits_value s) = s.
Proof.
  induction s as [|x s IH] using rev_ind; [done|]. intros H.
  pose proof (isDecimal_digits _ H) as Hd. rewrite forallb_app in Hd. cbn in Hd.
  apply andb_true_iff in Hd as [Hs Hx]. rewrite andb_true_r in Hx.
  unfold is_digit in Hx. bool_inv.
  destruct s as [|y s].
  { change (digits_value ([] ++ [x])) with (x - 48). rewrite dec_small by lia.
    cbn. f_equal. lia. }
  assert (Hy : isDecimal (y :: s) = true /\ 1 <= digits_value (y :: s)).
  { cbn in H. destruct (Z.eqb_spec y 48) as [->|]; [by destruct s|].
    rewrite forallb_app in H. bool_inv. split.
    - cbn. destruct (Z.eqb_spec y 48); [lia|]. cbn in Hs. apply andb_true_iff in Hs as [_ ->].
      rewrite andb_true_r. apply andb_true_iff. lia.
    - change (y :: s) with ([y] ++ s). rewrite digits_value_app. cbn in Hs.
      apply andb_true_iff in Hs as [_ Hs]. pose proof (digits_value_bounds s Hs).
      unfold digits_value at 1. cbn [foldl].
      pose proof (Z.pow_pos_nonneg 10 (zlen s) ltac:(lia) (zlen_nonneg s)). nia. }
  destruct Hy as [Hc Hv]. rewrite digits_value_app. change (zlen [x]) with 1.
  unfold digits_value at 2. cbn [foldl].
  replace (digits_value (y :: s) * 10 ^ 1 + (0 * 10 + (x - 48)))
    with ((x - 48) + digits_value (y :: s) * 10) by lia.
  rewrite dec_big by lia. rewrite Z.div_add, Z.mod_add, Z.div_small, Z.mod_small by lia.
  rewrite Z.add_0_l, IH by done. do 2 f_equal. lia.
Qed.

Lemma dec_inj a b : 0 <= a -> 0 <= b -> dec a = dec b -> a = b.
Proof. intros Ha Hb H. by rewrite <-(proj1 (dec_spec a Ha)), H, (proj1 (dec_spec b Hb)). Qed.

(** *** Units of ASCII literals *)
Lemma digits_no_unit c s : is_digit c = false -> forallb is_digit s = true -> c ∉ s.
Proof.
  intros Hc Hs Hin. apply forallb_true_Forall in Hs.
  rewrite Forall_forall in Hs. by rewrite (Hs _ Hin) in Hc.
Qed.

(** A separator that occurs in neither head determines both halves. *)
Lemma app_sep_inj (c : Z) (a b x y : jsstr) :
  c ∉ a -> c ∉ b -> a ++ c :: x = b ++ c :: y -> a = b /\ x = y.
Proof.
  revert b; induction a as [|u a IH]; intros [|v b]; cbn; rewrite ?not_elem_of_cons.
  - by intros _ _ [= ->].
  - intros _ [Hv _] [= -> _]. done.
  - intros [Hu _] _ [= -> _]. done.
  - intros [_ Ha] [_ Hb] [= -> H]. by destruct (IH b Ha Hb H) as [-> ->].
Qed.

Lemma forallb_not_elem (f : Z -> bool) c s : f c = false -> forallb f s = true -> c ∉ s.
Proof.
  intros Hc Hs Hin. apply forallb_true_Forall in Hs.
  rewrite Forall_forall in Hs. by rewrite (Hs _ Hin) in Hc.
Qed.

Lemma forallb_split_on (f : Z -> bool) c s : forallb f s = true ->
  Forall (fun p => forallb f p = true) (split_on c s).
Proof.
  induction s as [|x s IH]; cbn [forallb split_on]; [by repeat constructor|].
  intros [Hx Hs]%andb_true_iff. specialize (IH Hs). pose proof (split_on_ne c s).
  case_match; [by constructor|]. destruct (split_on c s) as [|p ps]; [done|].
  apply Forall_cons in IH as [Hp Hps]. constructor; [|done]. cbn. by rewrite Hx.
Qed.

(** *** Searching *)

Lemma indexOf_from_app i s (c : Z) t : c ∉ s -> indexOf_from i (s ++ c :: t) [c] = i + zlen s.
Proof.
  revert i; induction s as [|x s IH]; intros i.
  - intros _. change (zlen (@nil Z)) with 0. destruct t; cbn [app indexOf_from startsWith];
      rewrite Z.eqb_refl; cbn [andb]; lia.
  - rewrite not_elem_of_cons. intros [Hx Hs]. cbn [app indexOf_from startsWith].
    rewrite (proj2 (Z.eqb_neq c x)) by done. cbn [andb]. rewrite IH, zlen_cons by done. lia.
Qed.

Lemma indexOf_from_none i s (c : Z) : indexOf_from i s [c] = -1 -> 0 <= i -> c ∉ s.
Proof.
  intros H Hi Hin. apply list_elem_of_split_l in Hin as (a & b & -> & Ha).
  rewrite indexOf_from_app in H by done. pose proof (zlen_nonneg a). lia.
Qed.

Lemma indexOf_from_spec i s (c : Z) : let k := indexOf_from i s [c] in
  k = -1 \/ exists a t, s = a ++ c :: t /\ c ∉ a /\ k = i + zlen a.
Proof.
  revert i; induction s as [|x s IH]; intros i; [by left|].
  cbn [indexOf_from startsWith]. destruct (Z.eqb_spec c x) as [->|Hx]; cbn [andb].
  - right. exists [], s. split; [done|]. split; [apply not_elem_of_nil|].
    change (zlen (@nil Z)) with 0. destruct s; cbn [startsWith]; lia.
  - destruct (IH (i + 1)) as [H|(a & t & -> & Ha & H)]; [by left|right].
    exists (x :: a), t. split; [done|]. split; [by apply not_elem_of_cons|].
    rewrite zlen_cons. cbn zeta in H. lia.
Qed.

Lemma lastIndexOf_from_none i s c best : c ∉ s -> lastIndexOf_from i s c best = best.
Proof.
  revert i best; induction s as [|x s IH]; intros i best; cbn; [done|].
  rewrite not_elem_of_cons. intros [Hx Hs]. by rewrite (proj2 (Z.eqb_neq x c)), IH.
Qed.

Lemma lastIndexOf_from_app i a c t best : c ∉ t ->
  lastIndexOf_from i (a ++ c :: t) c best = i + zlen a.
Proof.
  intros Ht. revert i best; induction a as [|x a IH]; intros i best; cbn [app lastIndexOf_from].
  - rewrite Z.eqb_refl, lastIndexOf_from_none by done. change (zlen (@nil Z)) with 0. lia.
  - rewrite IH, zlen_cons. lia.
Qed.

Lemma lastIndexOf_from_spec i s c best : let k := lastIndexOf_from i s c best in
  (c ∉ s /\ k = best) \/ exists a t, s = a ++ c :: t /\ c ∉ t /\ k = i + zlen a.
Proof.
  destruct (decide (c ∈ s)) as [Hin|Hin].
  - right. assert (exists a t, s = a ++ c :: t /\ c ∉ t) as (a & t & -> & Ht).
    { induction s as [|x s IH] using rev_ind; [by apply not_elem_of_nil in Hin|].
      destruct (decide (x = c)) as [->|Hx].
      - exists s, []. split; [done|apply not_elem_of_nil].
      - apply elem_of_app in Hin as [Hin|Hin]; [|by apply list_elem_of_singleton in Hin].
        destruct (IH Hin) as (a & t & -> & Ht). exists a, (t ++ [x]).
        split; [by rewrite <-app_assoc|]. rewrite elem_of_app, list_elem_of_singleton. naive_solver. }
    exists a, t. split; [done|]. split; [done|]. by apply lastIndexOf_from_app.
  - left. split; [done|]. by apply lastIndexOf_from_none.
Qed.

(** The cut of a string at a separator. *)
Lemma slice_cut {A} (a : list A) c t :
  slice (a ++ c :: t) 0 (zlen a) = a /\ slice_from (a ++ c :: t) (zlen a + 1) = t.
Proof.
  unfold slice, slice_from, zlen. rewrite Z.sub_0_r, Nat2Z.id, drop_0, take_app_length.
  split; [done|]. replace (Z.to_nat (Z.of_nat (length a) + 1)) with (S (length a)) by lia.
  change (c :: t) with ([c] ++ t). rewrite app_assoc.
  replace (S (length a)) with (length (a ++ [c])) by (rewrite length_app; cbn; lia).
  apply drop_app_length.
Qed.

(** *** UTF-8 round trip *)

Definition units16 (s : jsstr) : bool := forallb unit16 s.

(** Strings without lone surrogates. *)
Fixpoint valid_unicode (s : jsstr) : bool :=
  match s with
  | [] => true
  | u :: s' =>
      if is_high u then match s' with v :: s'' => is_low v && valid_unicode s'' | [] => false end
      else negb (is_low u) && valid_unicode s'
  end.

Definition scalar (c : Z) : bool := (0 <=? c) && (c <? 1114112) && negb (is_high c || is_low c).

Lemma utf8_next_scalar c r : scalar c = true ->
  utf8_next (map b2z (utf8_scalar c) ++ r) = Some (c, r).
Proof.
  unfold scalar, is_high, is_low. intros H. apply andb_true_iff in H as [H Hs].
  apply andb_true_iff in H as [H0%Z.leb_le H1%Z.ltb_lt]. unfold utf8_scalar.
  destruct (Z.ltb_spec c 128) as [E1|E1]; [|destruct (Z.ltb_spec c 2048) as [E2|E2];
    [|destruct (Z.ltb_spec c 65536) as [E3|E3]]];
    cbn [map app]; rewrite !b2z_z2b_small by (Z.to_euclidean_division_equations; lia).
  - unfold utf8_next. by rewrite (proj2 (Z.ltb_lt _ _)) by lia.
  - pose proof (Z.div_mod c 64 ltac:(lia)). pose proof (Z.mod_pos_bound c 64 ltac:(lia)).
    assert (2 <= c / 64 < 32) by (Z.to_euclidean_division_equations; lia).
    unfold utf8_next, is_cont.
    rewrite (proj2 (Z.ltb_ge (192 + c / 64) 128)), (proj2 (Z.leb_le 194 _)), (proj2 (Z.ltb_lt (192 + c / 64) 224)) by lia.
    cbn [andb]. rewrite (proj2 (Z.leb_le 128 _)), (proj2 (Z.ltb_lt _ 192)) by lia. cbn [andb].
    do 2 f_equal. lia.
  - set (a := c / 4096). set (b := c / 64 mod 64). set (e := c mod 64).
    assert (Ha : 0 <= a < 16 /\ 0 <= b < 64 /\ 0 <= e < 64 /\ c = a * 4096 + b * 64 + e)
      by (subst a b e; Z.to_euclidean_division_equations; lia).
    destruct Ha as (Ha & Hb & He & Hc). clearbody a b e. unfold utf8_next, is_cont.
    rewrite (proj2 (Z.ltb_ge (224 + a) 128)), (proj2 (Z.leb_le 194 _)), (proj2 (Z.ltb_ge (224 + a) 224)),
      (proj2 (Z.leb_le 224 _)), (proj2 (Z.ltb_lt (224 + a) 240)) by lia.
    cbn [andb]. replace ((224 + a - 224) * 4096 + (128 + b - 128) * 64 + (128 + e - 128)) with c by lia.
    rewrite !(proj2 (Z.leb_le 128 _)), !(proj2 (Z.ltb_lt _ 192)), (proj2 (Z.leb_le 2048 _)) by lia.
    unfold is_high, is_low. rewrite Hs. done.
  - set (a := c / 262144). set (b := c / 4096 mod 64). set (d := c / 64 mod 64). set (e := c mod 64).
    assert (Ha : 0 <= a < 5 /\ 0 <= b < 64 /\ 0 <= d < 64 /\ 0 <= e < 64
                 /\ c = a * 262144 + b * 4096 + d * 64 + e)
      by (subst a b d e; Z.to_euclidean_division_equations; lia).
    destruct Ha as (Ha & Hb & Hd & He & Hc). clearbody a b d e. unfold utf8_next, is_cont.
    rewrite (proj2 (Z.ltb_ge (240 + a) 128)), (proj2 (Z.leb_le 194 _)), (proj2 (Z.ltb_ge (240 + a) 224)),
      (proj2 (Z.leb_le 224 _)), (proj2 (Z.ltb_ge (240 + a) 240)), (proj2 (Z.leb_le 240 _)),
      (proj2 (Z.ltb_lt (240 + a) 245)) by lia.
    cbn [andb].
    replace ((240 + a - 240) * 262144 + (128 + b - 128) * 4096 + (128 + d - 128) * 64 + (128 + e - 128))
      with c by lia.
    rewrite !(proj2 (Z.leb_le 128 _)), !(proj2 (Z.ltb_lt _ 192)), (proj2 (Z.leb_le 65536 _)),
      (proj2 (Z.ltb_lt c _)) by lia. done.
Qed.

Lemma utf8_scalar_ne c : utf8_scalar c <> [].
Proof. unfold utf8_scalar. repeat case_match; done. Qed.

(** The first scalar value of a non-empty well-formed string. *)
Lemma valid_unicode_cons u s : units16 (u :: s) = true -> valid_unicode (u :: s) = true ->
  exists c s', scalar c = true /\ u :: s = units_of_scalar c ++ s' /\ (length s' <= length s)%nat
    /\ utf8_encode (u :: s) = utf8_scalar c ++ utf8_encode s'
    /\ units16 s' = true /\ valid_unicode s' = true.
Proof.
  cbn [units16 forallb valid_unicode]. intros [Hu Hs]%andb_true_iff Hv.
  unfold unit16 in Hu. apply andb_true_iff in Hu as [Hu0%Z.leb_le Hu1%Z.ltb_lt].
  destruct (is_high u) eqn:Hh.
  - destruct s as [|v s]; [done|]. apply andb_true_iff in Hv as [Hl Hv].
    cbn [forallb] in Hs. apply andb_true_iff in Hs as [_ Hs].
    unfold is_high in Hh. unfold is_low in Hl. pose proof Hh as Hh'. pose proof Hl as Hl'.
    apply andb_true_iff in Hh' as [H1%Z.leb_le H2%Z.leb_le].
    apply andb_true_iff in Hl' as [H3%Z.leb_le H4%Z.leb_le].
    set (c := 65536 + (u - 55296) * 1024 + (v - 56320)).
    exists c, s. assert (Hc : 65536 <= c < 1114112) by (subst c; lia). split_and!; try done.
    + unfold scalar, is_high, is_low. rewrite !andb_true_iff, negb_true_iff, orb_false_iff, !andb_false_iff.
      rewrite Z.leb_le, Z.ltb_lt, !Z.leb_gt. lia.
    + unfold units_of_scalar. rewrite (proj2 (Z.ltb_ge _ _)) by lia. cbn [app].
      replace (c - 65536) with ((u - 55296) * 1024 + (v - 56320)) by (subst c; lia).
      replace (((u - 55296) * 1024 + (v - 56320)) / 1024) with (u - 55296)
        by (Z.to_euclidean_division_equations; lia).
      replace (((u - 55296) * 1024 + (v - 56320)) mod 1024) with (v - 56320)
        by (Z.to_euclidean_division_equations; lia).
      by replace (55296 + (u - 55296)) with u by lia;
        replace (56320 + (v - 56320)) with v by lia.
    + cbn. lia.
    + cbn [utf8_encode]. unfold is_high, is_low. by rewrite Hh, Hl.
  - apply andb_true_iff in Hv as [Hl%negb_true_iff Hv]. exists u, s. split_and!; try done.
    + unfold scalar. rewrite Hh, Hl. rewrite (proj2 (Z.leb_le _ _)), (proj2 (Z.ltb_lt _ _)) by lia. done.
    + unfold units_of_scalar. by rewrite (proj2 (Z.ltb_lt _ _)) by lia.
    + cbn [utf8_encode]. by rewrite Hh, Hl.
Qed.

Lemma utf8_decode_fuel_encode fuel s : units16 s = true -> valid_unicode s = true ->
  (length (utf8_encode s) <= fuel)%nat ->
  utf8_decode_fuel fuel (map b2z (utf8_encode s)) = Some s.
Proof.
  revert fuel; induction s as [s IH] using list_len_ind; intros fuel Hu Hv Hf.
  destruct s as [|u s]; [by destruct fuel|].
  destruct (valid_unicode_cons u s Hu Hv) as (c & s' & Hc & Es & Hl & Ee & Hu' & Hv').
  rewrite Ee in Hf |- *. rewrite Es. rewrite map_app. rewrite length_app in Hf.
  pose proof (utf8_scalar_ne c) as Hne.
  assert (0 < length (utf8_scalar c))%nat by (destruct (utf8_scalar c); [done|cbn; lia]).
  destruct fuel as [|fuel]; [lia|]. cbn [utf8_decode_fuel].
  destruct (map b2z (utf8_scalar c) ++ map b2z (utf8_encode s')) as [|x r] eqn:E.
  { destruct (utf8_scalar c); [done|discriminate E]. }
  rewrite <-E, utf8_next_scalar by done. cbn [mbind option_bind].
  rewrite (IH s'); [done|cbn; lia|done|done|lia].
Qed.

(** Decoding undoes encoding on well-formed strings. *)
Lemma utf8_decode_encode s : units16 s = true -> valid_unicode s = true ->
  utf8_decode_bom (utf8_encode s) = Some s.
Proof. intros Hu Hv. by apply utf8_decode_fuel_encode. Qed.

Lemma utf8_encode_inj s t : units16 s = true -> units16 t = true ->
  valid_unicode s = true -> valid_unicode t = true -> utf8_encode s = utf8_encode t -> s = t.
Proof.
  intros Hs Ht Vs Vt E. apply utf8_decode_encode in Vs, Vt; try done. rewrite E in Vs. congruence.
Qed.
