(* ===== verification/Base64.v ===== *)
(** Base64url: [toBase64Url] and [fromBase64Url] of [protocol/src/utils.ts] and
    the wrappers of [log-c2sp-tlog/src/base64.ts].

    [btoa] and [atob] are the platform's base64 functions over binary strings;
    a binary string and the byte string it carries are identified. *)

From S2P Require Import Prelude JsString.

(** ** The platform codec (WHATWG forgiving base64) *)

Definition std_char (x : Z) : Z :=
  if x <? 26 then 65 + x else if x <? 52 then 71 + x else if x <? 62 then x - 4
  else if x =? 62 then 43 else 47.

Definition std_value (u : Z) : option Z :=
  if is_upper u then Some (u - 65)
  else if is_lower u then Some (u - 71)
  else if is_digit u then Some (u + 4)
  else if u =? 43 then Some 62
  else if u =? 47 then Some 63
  else None.

(** The six-bit groups of a byte string, and their inverse. *)
Fixpoint sextets (l : bytes) : list Z :=
  match l with
  | a :: b :: c :: l =>
      b2z a / 4 :: b2z a mod 4 * 16 + b2z b / 16 :: b2z b mod 16 * 4 + b2z c / 64
      :: b2z c mod 64 :: sextets l
  | [a; b] => [b2z a / 4; b2z a mod 4 * 16 + b2z b / 16; b2z b mod 16 * 4]
  | [a] => [b2z a / 4; b2z a mod 4 * 16]
  | [] => []
  end.

Fixpoint of_sextets (s : list Z) : bytes :=
  match s with
  | p :: q :: r :: t :: s =>
      z2b (p * 4 + q / 16) :: z2b (q mod 16 * 16 + r / 4) :: z2b (r mod 4 * 64 + t) :: of_sextets s
  | [p; q; r] => [z2b (p * 4 + q / 16); z2b (q mod 16 * 16 + r / 4)]
  | [p; q] => [z2b (p * 4 + q / 16)]
  | _ => []
  end.

Definition padding (n : Z) : jsstr := repeat 61 (Z.to_nat ((3 - n mod 3) mod 3)).

Definition btoa (l : bytes) : jsstr := map std_char (sextets l) ++ padding (zlen l).

(** Removes up to two trailing [=] of a string whose length is a multiple of 4. *)
Definition strip_padding (s : jsstr) : jsstr :=
  if zlen s mod 4 =? 0 then
    match rev s with
    | 61 :: 61 :: r => rev r
    | 61 :: r => rev r
    | _ => s
    end
  else s.

Definition is_ascii_space (u : Z) : bool :=
  (u =? 9) || (u =? 10) || (u =? 12) || (u =? 13) || (u =? 32).

Definition atob (s : jsstr) : res bytes :=
  let s := strip_padding (List.filter (fun u => negb (is_ascii_space u)) s) in
  throw_if (zlen s mod 4 =? 1) (EError "InvalidCharacterError");;
  v ← of_option (mapM std_value s) (EError "InvalidCharacterError");
  Ok (of_sextets v).

(** ** The program's functions *)

Definition toBase64Url (l : bytes) : jsstr :=
  remove_unit 61 (replace_unit 47 95 (replace_unit 43 45 (btoa l))).

Definition fromBase64Url (b64 : jsstr) : res bytes :=
  let normalized := replace_unit 95 47 (replace_unit 45 43 b64) in
  let padded := normalized ++ slice [61; 61] 0 ((4 - zlen normalized mod 4) mod 4) in
  atob padded.

Definition b64url (l : bytes) : jsstr := toBase64Url l.
Definition fromB64url (s : jsstr) : res bytes := fromBase64Url s.
Definition fromB64 (s : jsstr) : res bytes :=
  fromBase64Url (replace_unit 47 95 (replace_unit 43 45 s)).

(** The unpadded base64url alphabet: letters, digits, [-] and [_]. *)
Definition is_b64url (u : Z) : bool := is_alnum u || (u =? 45) || (u =? 95).

(** ** Lemmas *)

Definition url_char (x : Z) : Z := if x =? 62 then 45 else if x =? 63 then 95 else std_char x.

Definition sextet (x : Z) : bool := (0 <=? x) && (x <? 64).

Lemma sextet_cases (P : Z -> Prop) :
  Forall P (map Z.of_nat (seq 0 64)) -> forall x, sextet x = true -> P x.
Proof.
  intros H x Hx. unfold sextet in Hx. bool_inv. rewrite Forall_forall in H.
  apply H. apply list_elem_of_In, in_map_iff. exists (Z.to_nat x).
  split; [lia|]. apply in_seq. lia.
Qed.

Lemma std_value_char x : sextet x = true -> std_value (std_char x) = Some x.
Proof. revert x. apply sextet_cases. repeat constructor. Qed.

Lemma url_char_props x : sextet x = true ->
  (let u := if std_char x =? 43 then 45 else std_char x in
   (if u =? 47 then 95 else u) = url_char x)
  /\ negb (url_char x =? 61) = true /\ is_b64url (url_char x) = true
  /\ (let u := if url_char x =? 45 then 43 else url_char x in
      (if u =? 95 then 47 else u) = std_char x)
  /\ negb (is_ascii_space (std_char x)) = true /\ negb (std_char x =? 61) = true.
Proof. revert x. apply sextet_cases. repeat constructor. Qed.

Lemma bytes_ind3 (P : bytes -> Prop) :
  P [] -> (forall a, P [a]) -> (forall a b, P [a; b]) ->
  (forall a b c l, P l -> P (a :: b :: c :: l)) -> forall l, P l.
Proof.
  intros H0 H1 H2 H3 l. apply (list_len_ind P). intros [|a [|b [|c k]]] IH; auto.
  apply H3, IH. cbn. lia.
Qed.

Ltac byte_bounds :=
  repeat match goal with
  | b : byte |- _ => lazymatch goal with
                     | _ : 0 <= b2z b < 256 |- _ => fail
                     | _ => pose proof (b2z_range b)
                     end
  end.
Ltac divmod_lia := Z.to_euclidean_division_equations; lia.

Lemma sextets_range l : forallb sextet (sextets l) = true.
Proof.
  induction l as [|a|a b|a b c l IH] using bytes_ind3; cbn [sextets forallb]; rewrite ?IH;
    unfold sextet; byte_bounds; rewrite ?andb_true_r, ?andb_true_iff, ?Z.leb_le, ?Z.ltb_lt;
    repeat split; divmod_lia.
Qed.

Lemma z2b_eq b z : z = b2z b -> z2b z = b.
Proof. intros ->. apply z2b_b2z. Qed.

Lemma of_sextets_sextets l : of_sextets (sextets l) = l.
Proof.
  induction l as [|a|a b|a b c l IH] using bytes_ind3; cbn [sextets of_sextets]; rewrite ?IH;
    byte_bounds; repeat f_equal; try done; apply z2b_eq; divmod_lia.
Qed.

(** The decoder keeps every bit of six-bit groups whose last group has no spare bits. *)
Lemma list_ind4 {A} (P : list A -> Prop) :
  P [] -> (forall a, P [a]) -> (forall a b, P [a; b]) -> (forall a b c, P [a; b; c]) ->
  (forall a b c d l, P l -> P (a :: b :: c :: d :: l)) -> forall l, P l.
Proof.
  intros H0 H1 H2 H3 H4 l. apply (list_len_ind P). intros [|a [|b [|c [|d k]]]] IH; auto.
  apply H4, IH. cbn. lia.
Qed.

Definition no_spare_bits (s : list Z) : bool :=
  match (length s mod 4)%nat with
  | O => true
  | 1%nat => false
  | 2%nat => List.last s 0 mod 16 =? 0
  | _ => List.last s 0 mod 4 =? 0
  end.

Lemma sextets_of_sextets s : forallb sextet s = true -> no_spare_bits s = true -> sextets (of_sextets s) = s.
Proof.
  assert (R : forall x, sextet x = true <-> 0 <= x < 64) by (intros x; unfold sextet; lia).
  induction s as [|a|a b|a b c|a b c d s IH] using list_ind4; intros Hs Hl; cbn [forallb] in Hs;
    rewrite ?andb_true_iff, ?R in Hs; try done.
  - unfold no_spare_bits in Hl. cbn in Hl. cbn [of_sextets sextets]. rewrite !b2z_z2b_small by divmod_lia.
    repeat f_equal; divmod_lia.
  - unfold no_spare_bits in Hl. cbn in Hl. cbn [of_sextets sextets]. rewrite !b2z_z2b_small by divmod_lia.
    repeat f_equal; divmod_lia.
  - cbn [of_sextets sextets]. rewrite !b2z_z2b_small by divmod_lia. rewrite IH; [|apply Hs|].
    + repeat f_equal; divmod_lia.
    + unfold no_spare_bits in *. change (length (a :: b :: c :: d :: s)) with (4 + length s)%nat in Hl.
      rewrite (Nat.Div0.add_mod 4), Nat.Div0.mod_same, Nat.add_0_l, Nat.Div0.mod_mod in Hl.
      destruct s; [done|exact Hl].
Qed.

Lemma sextets_no_spare l : no_spare_bits (sextets l) = true.
Proof.
  induction l as [|a|a b|a b c l IH] using bytes_ind3; try done.
  - unfold no_spare_bits. cbn. divmod_lia.
  - unfold no_spare_bits. cbn. divmod_lia.
  - cbn [sextets]. unfold no_spare_bits in *. set (s := sextets l) in *.
    change (length (?a :: ?b :: ?c :: ?d :: s)) with (4 + length s)%nat.
    rewrite (Nat.Div0.add_mod 4), Nat.Div0.mod_same, Nat.add_0_l, Nat.Div0.mod_mod.
    destruct s; [done|exact IH].
Qed.

Lemma length_sextets l : zlen (sextets l) = 4 * (zlen l / 3) + (if zlen l mod 3 =? 0 then 0 else 1 + zlen l mod 3).
Proof.
  induction l as [|a|a b|a b c l IH] using bytes_ind3; try reflexivity.
  cbn [sextets]. rewrite !zlen_cons, IH.
  replace (1 + (1 + (1 + zlen l))) with (zlen l + 1 * 3) by lia.
  rewrite Z.div_add, Z.mod_add by lia. lia.
Qed.

Lemma map_ext_sextets {B} (f g : Z -> B) l :
  (forall x, sextet x = true -> f x = g x) -> map f (sextets l) = map g (sextets l).
Proof.
  intros H. pose proof (sextets_range l) as Hr. apply forallb_true_Forall in Hr.
  induction Hr as [|x s Hx Hs IH]; cbn; [done|]. by rewrite H, IH.
Qed.

Lemma filter_map_sextets (f : Z -> bool) (g : Z -> Z) l :
  (forall x, sextet x = true -> f (g x) = true) ->
  List.filter f (map g (sextets l)) = map g (sextets l).
Proof.
  intros H. pose proof (sextets_range l) as Hr. apply forallb_true_Forall in Hr.
  induction Hr as [|x s Hx Hs IH]; cbn; [done|]. by rewrite H, IH.
Qed.

(** The text of [toBase64Url] is the base64url alphabet applied to the sextets. *)
Lemma toBase64Url_sextets l : toBase64Url l = map url_char (sextets l).
Proof.
  unfold toBase64Url, btoa, remove_unit, replace_unit. rewrite !map_app, !map_map, List.filter_app.
  rewrite (map_ext_sextets _ url_char) by (intros x Hx; apply (url_char_props x Hx)).
  rewrite filter_map_sextets by (intros x Hx; apply (url_char_props x Hx)).
  rewrite <-(app_nil_r (map url_char _)) at 2. f_equal.
  unfold padding. generalize (Z.to_nat ((3 - zlen l mod 3) mod 3)). intros n.
  by induction n.
Qed.

(** Every text over the alphabet spells six-bit groups. *)
Definition url_value (u : Z) : Z :=
  if u =? 45 then 62 else if u =? 95 then 63 else default 0 (std_value u).

Lemma url_char_value u : is_b64url u = true -> sextet (url_value u) = true /\ url_char (url_value u) = u.
Proof.
  intros H. assert (Hu : 0 <= u < 123) by (unfold is_b64url, is_alnum, is_alpha, is_upper, is_lower, is_digit in H; lia).
  assert (E : forallb (fun v => negb (is_b64url v) || (sextet (url_value v) && (url_char (url_value v) =? v))) (seqZ 0 123) = true)
    by reflexivity.
  rewrite forallb_forall in E. specialize (E u). rewrite <-list_elem_of_In, elem_of_seqZ, H in E.
  by apply andb_true_iff in E as [? ?%Z.eqb_eq]; [|lia].
Qed.

Lemma url_text_sextets p : forallb is_b64url p = true ->
  exists s, forallb sextet s = true /\ map url_char s = p.
Proof.
  intros H. exists (map url_value p). apply forallb_true_Forall in H. induction H as [|u p Hu _ [IH1 IH2]]; [done|].
  destruct (url_char_value u Hu) as [H1 H2]. cbn. by rewrite H1, IH1, H2, IH2.
Qed.

Lemma toBase64Url_alphabet l : forallb is_b64url (toBase64Url l) = true.
Proof.
  rewrite toBase64Url_sextets. pose proof (sextets_range l) as Hr.
  apply forallb_true_Forall in Hr. apply forallb_true_Forall, Forall_map.
  eapply Forall_impl; [exact Hr|]. intros x Hx. cbn in Hx |- *. apply (url_char_props x Hx).
Qed.

Lemma mapM_std_value l : mapM std_value (map std_char (sextets l)) = Some (sextets l).
Proof.
  pose proof (sextets_range l) as Hr. apply forallb_true_Forall in Hr.
  induction Hr as [|x s Hx Hs IH]; cbn; [done|]. by rewrite std_value_char, IH.
Qed.

Lemma last_not_pad (s : list Z) : forallb sextet s = true ->
  match rev (map std_char s) with 61 :: _ => False | _ => True end.
Proof.
  destruct s as [|x s _] using rev_ind; [done|]. rewrite forallb_app, map_app, rev_app_distr.
  cbn. intros [_ Hx]%andb_true_iff. rewrite andb_true_r in Hx.
  pose proof (url_char_props x Hx) as (_ & _ & _ & _ & _ & Hp).
  bool_inv. destruct (std_char x) as [|p|p]; try done.
  repeat (destruct p as [p|p|]; try done).
Qed.

Lemma strip_padding_sextets l (n : nat) :
  Z.of_nat n = (4 - zlen (sextets l) mod 4) mod 4 -> (n <= 2)%nat ->
  strip_padding (map std_char (sextets l) ++ repeat 61 n) = map std_char (sextets l).
Proof.
  intros Hn H2. unfold strip_padding. rewrite zlen_app.
  assert (Hm : zlen (map std_char (sextets l)) = zlen (sextets l)) by (unfold zlen; by rewrite length_map).
  assert (Hrep : zlen (repeat 61 n) = Z.of_nat n) by (unfold zlen; by rewrite repeat_length).
  rewrite Hm, Hrep, (proj2 (Z.eqb_eq _ _)) by divmod_lia.
  pose proof (last_not_pad (sextets l) (sextets_range l)) as Hl.
  rewrite rev_app_distr.
  destruct n as [|[|[|n]]]; [| | |lia]; cbn [repeat rev app].
  - rewrite app_nil_r. revert Hl. destruct (rev (map std_char (sextets l))) as [|u r]; [done|].
    intros Hl. destruct u as [|p|p]; try done. repeat (destruct p as [p|p|]; try done).
  - rewrite <-(rev_involutive (map std_char (sextets l))) at 2.
    revert Hl. destruct (rev (map std_char (sextets l))) as [|u r]; [done|].
    intros Hl. destruct u as [|p|p]; try done. repeat (destruct p as [p|p|]; try done).
  - by rewrite rev_involutive.
Qed.

Lemma atob_sextets l (n : nat) :
  Z.of_nat n = (4 - zlen (sextets l) mod 4) mod 4 -> (n <= 2)%nat ->
  atob (map std_char (sextets l) ++ repeat 61 n) = Ok l.
Proof.
  intros Hn H2. unfold atob. rewrite List.filter_app.
  rewrite filter_map_sextets by (intros x Hx; apply (url_char_props x Hx)).
  assert (List.filter (fun u => negb (is_ascii_space u)) (repeat 61 n) = repeat 61 n) as ->
    by (clear; induction n; cbn; congruence).
  rewrite strip_padding_sextets, mapM_std_value by done.
  assert (Hm : zlen (map std_char (sextets l)) = zlen (sextets l)) by (unfold zlen; by rewrite length_map).
  rewrite Hm, (proj2 (Z.eqb_neq _ _)); [cbn; by rewrite of_sextets_sextets|].
  rewrite length_sextets. case_match; divmod_lia.
Qed.

Lemma slice_pad n : 0 <= n <= 2 -> slice [61; 61] 0 n = repeat 61 (Z.to_nat n).
Proof.
  intros Hn. assert (n = 0 \/ n = 1 \/ n = 2) as Hc by lia. by destruct Hc as [->|[->| ->]].
Qed.

Lemma fromBase64Url_toBase64Url l : fromBase64Url (toBase64Url l) = Ok l.
Proof.
  unfold fromBase64Url. rewrite toBase64Url_sextets. unfold replace_unit. rewrite !map_map.
  rewrite (map_ext_sextets _ std_char) by (intros x Hx; apply (url_char_props x Hx)).
  assert (Hm : zlen (map std_char (sextets l)) = zlen (sextets l)) by (unfold zlen; by rewrite length_map).
  rewrite Hm. set (n := (4 - zlen (sextets l) mod 4) mod 4).
  assert (Hn : 0 <= n <= 2).
  { subst n. rewrite length_sextets. case_match; bool_inv; divmod_lia. }
  rewrite slice_pad by done. apply atob_sextets; [|lia]. subst n. rewrite Z2Nat.id; [done|]. divmod_lia.
Qed.

(** Standard base64 is unaffected by the rewriting to the URL alphabet and back. *)
Lemma fromB64_plain s : forallb (fun u => negb ((u =? 45) || (u =? 95))) s = true ->
  fromB64 s = atob (s ++ slice [61; 61] 0 ((4 - zlen s mod 4) mod 4)).
Proof.
  intros H. unfold fromB64, fromBase64Url, replace_unit. rewrite !map_map.
  rewrite (map_ext_in _ (fun u => u)), map_id; [done|]. intros u Hu. rewrite forallb_forall in H.
  specialize (H u Hu). apply negb_true_iff in H. bool_inv.
  destruct (Z.eqb_spec u 43) as [->|]; [done|]. destruct (Z.eqb_spec u 47) as [->|]; [done|].
  rewrite (proj2 (Z.eqb_neq u 45)) by done. by rewrite (proj2 (Z.eqb_neq u 95)).
Qed.

Lemma std_char_props x : sextet x = true ->
  negb ((std_char x =? 45) || (std_char x =? 95)) = true
  /\ (is_alnum (std_char x) || (std_char x =? 43) || (std_char x =? 47)) = true.
Proof. revert x. apply sextet_cases. repeat constructor. Qed.

Lemma forallb_sextets (f : Z -> bool) l : (forall x, sextet x = true -> f (std_char x) = true) ->
  forallb f (map std_char (sextets l)) = true.
Proof.
  intros Hf. rewrite forallb_forall. intros u (x & <- & Hx)%in_map_iff. apply Hf.
  pose proof (sextets_range l) as Hr. rewrite forallb_forall in Hr. auto.
Qed.

Lemma padding_cases l : exists n, (n <= 2)%nat /\ padding (zlen l) = repeat 61 n
  /\ Z.of_nat n = (4 - zlen (sextets l) mod 4) mod 4.
Proof.
  exists (Z.to_nat ((3 - zlen l mod 3) mod 3)). split; [divmod_lia|]. split; [done|].
  rewrite Z2Nat.id by divmod_lia. rewrite length_sextets. case_match; bool_inv; divmod_lia.
Qed.

Lemma fromB64_btoa l : fromB64 (btoa l) = Ok l.
Proof.
  unfold btoa. destruct (padding_cases l) as (n & H2 & -> & Hn).
  rewrite fromB64_plain.
  - assert (Hz : zlen (map std_char (sextets l) ++ repeat 61 n) mod 4 = 0).
    { rewrite zlen_app. unfold zlen at 1 2. rewrite length_map, repeat_length, Hn.
      fold (zlen (sextets l)). divmod_lia. }
    rewrite Hz. change (slice [61; 61] 0 ((4 - 0) mod 4)) with (@nil Z). rewrite app_nil_r.
    by apply atob_sextets.
  - rewrite forallb_app, forallb_sextets by (intros x Hx; by apply std_char_props). clear.
    by induction n.
Qed.
