(* ===== verification/Tiles.v ===== *)
(** Tile URLs and entry bundles: [log-c2sp-tlog/src/tiles.ts]. *)

From S2P Require Import Prelude JsString.

(** ** URLs *)

Definition checkpointPath (prefix : jsstr) : jsstr := prefix ++ js "/checkpoint".

(** [s.padStart(3, '0')] *)
Definition padStart3 (s : jsstr) : jsstr := repeat 48 (3 - length s) ++ s.

(** The regular expression replacement that inserts [/] before every group of
    three trailing digits, except at the start of the numeral. *)
Fixpoint insert_slashes (start : bool) (s : jsstr) : jsstr :=
  match s with
  | [] => []
  | x :: r =>
      (if negb start && (length s mod 3 =? 0)%nat then [47] else []) ++ x :: insert_slashes false r
  end.

(** [groups.map((g, i) => ...)]: every group but the last is prefixed with [x]. *)
Fixpoint prefix_groups (gs : list jsstr) : list jsstr :=
  match gs with
  | [] => []
  | [g] => [padStart3 g]
  | g :: gs => (120 :: padStart3 g) :: prefix_groups gs
  end.

Definition tileN (n : Z) : res jsstr :=
  throw_if (negb (isSafeInteger n) || (n <? 0)) (C2spTlogParseError "invalid C2SP tile number");;
  let groups := split_on 47 (insert_slashes true (padStart3 (dec n))) in
  Ok (join [47] (prefix_groups groups)).

Definition width_suffix (width : option Z) : jsstr :=
  match width with None => [] | Some w => js ".p/" ++ dec w end.

Definition tilePath (prefix : jsstr) (level n : Z) (width : option Z) : res jsstr :=
  t ← tileN n;
  Ok (prefix ++ js "/tile/" ++ dec level ++ js "/" ++ t ++ width_suffix width).

Definition entryBundlePath (prefix : jsstr) (n : Z) (width : option Z) : res jsstr :=
  t ← tileN n;
  Ok (prefix ++ js "/tile/entries/" ++ t ++ width_suffix width).

(** ** Entry bundles: entries behind 16-bit big-endian lengths *)

(** The [while (off < bytes.length)] loop on the bytes from [off] on. *)
Fixpoint parseEntryBundle_from (fuel : nat) (rest : bytes) : res (list bytes) :=
  match fuel, rest with
  | _, [] => Ok []
  | O, _ => Ok []
  | S fuel, [_] => Throw (C2spTlogParseError "truncated entry bundle length")
  | S fuel, hi :: lo :: rest =>
      let len := Z.lor (Z.shiftl (b2z hi) 8) (b2z lo) in
      throw_if (zlen rest <? len) (C2spTlogParseError "truncated entry bundle entry");;
      out ← parseEntryBundle_from fuel (slice_from rest len);
      Ok (slice rest 0 len :: out)
  end.

Definition parseEntryBundle (bs : bytes) : res (list bytes) :=
  parseEntryBundle_from (length bs) bs.

Definition encodeEntry (e : bytes) : res bytes :=
  throw_if (65535 <? zlen e) (C2spTlogParseError "entry too large for bundle");;
  Ok (z2b (Z.shiftr (zlen e) 8) :: z2b (Z.land (zlen e) 255) :: e).

Definition encodeEntryBundle (entries : list bytes) : res bytes :=
  for_each (fun out e => enc ← encodeEntry e; Ok (out ++ enc)) entries [].

(** ** Lemmas *)

Lemma len16 hi lo : Z.lor (Z.shiftl (b2z hi) 8) (b2z lo) = b2z hi * 256 + b2z lo.
Proof.
  assert (Hl : Z.land (Z.shiftl (b2z hi) 8) (b2z lo) = 0).
  { apply Z.bits_inj'; intros i Hi. rewrite Z.land_spec, Z.bits_0.
    destruct (Z.lt_ge_cases i 8); [by rewrite Z.shiftl_spec_low|].
    rewrite <-(Z.mod_small (b2z lo) (2 ^ 8)) by apply b2z_range.
    rewrite Z.mod_pow2_bits_high by lia. apply andb_false_r. }
  rewrite <-Z.lxor_lor, <-Z.add_nocarry_lxor by done.
  by rewrite Z.shiftl_mul_pow2 by lia.
Qed.

Lemma encodeEntry_Ok e out : encodeEntry e = Ok out ->
  exists hi lo, out = hi :: lo :: e /\ b2z hi * 256 + b2z lo = zlen e.
Proof.
  unfold encodeEntry. intros H. res_inv. bool_inv. eexists _, _. split; [done|].
  rewrite !b2z_z2b, Z.shiftr_div_pow2 by lia. change 255 with (Z.ones 8).
  rewrite Z.land_ones by lia. change (2 ^ 8) with 256. pose proof (zlen_nonneg e).
  rewrite Z.mod_mod, (Z.mod_small (zlen e / 256)) by (lia || (split; [apply Z.div_pos; lia|
    apply Z.div_lt_upper_bound; lia])).
  pose proof (Z.div_mod (zlen e) 256). lia.
Qed.

Lemma encodeEntry_bytes e hi lo : zlen e = b2z hi * 256 + b2z lo ->
  encodeEntry e = Ok (hi :: lo :: e).
Proof.
  intros He. pose proof (b2z_range hi) as Hhi. pose proof (b2z_range lo) as Hlo.
  unfold encodeEntry. rewrite (proj2 (Z.ltb_ge _ _)) by lia. cbn [throw_if mbind res_bind].
  rewrite Z.shiftr_div_pow2 by lia. change 255 with (Z.ones 8).
  rewrite Z.land_ones by lia. change (2 ^ 8) with 256. rewrite He.
  rewrite Z.add_comm, Z.div_add, Z.mod_add, Z.div_small, Z.mod_small by lia.
  by rewrite Z.add_0_l, !z2b_b2z.
Qed.

(** The encoding accumulates the entries' encodings in order. *)
Lemma encode_loop es acc out :
  for_each (fun out e => enc ← encodeEntry e; Ok (out ++ enc)) es acc = Ok out <->
  exists encs, map_res encodeEntry es = Ok encs /\ out = acc ++ concat encs.
Proof.
  revert acc; induction es as [|e es IH]; intros acc; cbn [for_each map_res].
  - rewrite <-(app_nil_r acc) at 1. split; [intros [= <-]; by exists []|].
    intros (encs & [= <-] & ->). done.
  - destruct (encodeEntry e) as [enc|]; cbn; [|naive_solver].
    rewrite IH. destruct (map_res encodeEntry es) as [encs|]; cbn; [|naive_solver].
    split; intros (encs' & [= <-] & ->).
    + eexists. split; [done|]. cbn. by rewrite app_assoc.
    + eexists. split; [done|]. cbn. by rewrite app_assoc.
Qed.

Lemma encodeEntryBundle_Ok es out :
  encodeEntryBundle es = Ok out <-> exists encs, map_res encodeEntry es = Ok encs /\ out = concat encs.
Proof. apply encode_loop. Qed.

Lemma parse_concat fuel es encs : map_res encodeEntry es = Ok encs ->
  (length (concat encs) <= fuel)%nat -> parseEntryBundle_from fuel (concat encs) = Ok es.
Proof.
  revert fuel encs; induction es as [|e es IH]; intros fuel encs H Hf; cbn in H; res_inv.
  { by destruct fuel. }
  apply encodeEntry_Ok in Hv as (hi & lo & -> & Hlen).
  cbn [concat] in *. rewrite length_app in Hf. cbn [length] in Hf.
  destruct fuel as [|fuel]; [lia|]. cbn [app parseEntryBundle_from].
  rewrite len16, Hlen, (proj2 (Z.ltb_ge _ _)) by (rewrite zlen_app; pose proof (zlen_nonneg (concat v0)); lia).
  cbn [throw_if mbind res_bind]. unfold slice_from, slice.
  rewrite Z.sub_0_r, (drop_app_zlen e _ (zlen e)) by done. rewrite (IH fuel v0) by (done || lia).
  cbn [mbind res_bind]. by rewrite drop_0, take_app_zlen.
Qed.

Lemma slice_take_drop (rest : bytes) n : 0 <= n <= zlen rest ->
  slice rest 0 n ++ slice_from rest n = rest /\ zlen (slice rest 0 n) = n.
Proof.
  intros Hn. unfold slice, slice_from. rewrite Z.sub_0_r, drop_0, take_drop.
  split; [done|]. unfold zlen in *. rewrite length_take. lia.
Qed.

Lemma encode_parse fuel bs es : (length bs <= fuel)%nat ->
  parseEntryBundle_from fuel bs = Ok es ->
  exists encs, map_res encodeEntry es = Ok encs /\ concat encs = bs.
Proof.
  revert bs es; induction fuel as [|fuel IH]; intros bs es Hf H.
  { destruct bs; [|cbn in Hf; lia]. injection H as <-. by exists []. }
  destruct bs as [|hi [|lo rest]]; cbn [parseEntryBundle_from] in H; [|done|].
  { injection H as <-. by exists []. }
  rewrite len16 in H. res_inv. bool_inv.
  pose proof (b2z_range hi) as Hhi. pose proof (b2z_range lo) as Hlo.
  destruct (slice_take_drop rest (b2z hi * 256 + b2z lo)) as [Hcat Hlen]; [lia|].
  edestruct IH as (encs & Henc & Hc); [|exact Hv0|].
  { unfold slice_from. rewrite length_drop. cbn in Hf. lia. }
  cbn [map_res]. rewrite (encodeEntry_bytes _ hi lo) by done. cbn. rewrite Henc. cbn.
  eexists. split; [done|]. cbn. by rewrite Hc, Hcat.
Qed.

Lemma encodeEntryBundle_parse bs es : encodeEntryBundle es = Ok bs -> parseEntryBundle bs = Ok es.
Proof. rewrite encodeEntryBundle_Ok. intros (encs & Henc & ->). by apply parse_concat. Qed.

(** *** Tile numbers *)

Lemma padStart3_value s : forallb is_digit s = true ->
  digits_value (padStart3 s) = digits_value s /\ forallb is_digit (padStart3 s) = true.
Proof.
  intros Hs. unfold padStart3. rewrite digits_value_app, forallb_app, Hs, andb_true_r.
  generalize (3 - length s)%nat. intros n.
  assert (digits_value (repeat 48 n) = 0 /\ forallb is_digit (repeat 48 n) = true) as [-> ->].
  { induction n as [|n [IH1 IH2]]; [done|]. split; [|done].
    change (repeat 48 (S n)) with ([48] ++ repeat 48 n). by rewrite digits_value_app, IH1. }
  split; [lia|done].
Qed.

(** The groups between the slashes: a head of 1 to 3 digits, then threes. *)
Lemma split_insert_slashes s : forallb is_digit s = true ->
  exists p ps, split_on 47 (insert_slashes false s) = p :: ps /\ p ++ concat ps = s
  /\ length p = (length s mod 3)%nat /\ Forall (fun q => length q = 3%nat) ps.
Proof.
  induction s as [|x s IH]; intros Hs; [by exists [], []|].
  cbn [forallb] in Hs. apply andb_true_iff in Hs as [Hx Hs].
  destruct (IH Hs) as (p & ps & Hsp & Hc & Hp & Hps).
  assert (Hx47 : x =? 47 = false) by (unfold is_digit in Hx; bool_inv; lia).
  cbn [insert_slashes negb andb length].
  pose proof (Nat.mod_upper_bound (length s) 3 ltac:(lia)).
  pose proof (Nat.div_mod_eq (length s) 3) as Hd.
  destruct (Nat.eqb_spec (S (length s) mod 3) 0) as [H0|H0]; cbn [app split_on]; rewrite Hx47, Hsp.
  - rewrite Z.eqb_refl. exists [], ((x :: p) :: ps). cbn [concat app length].
    rewrite Hc, H0. repeat split; try done. constructor; [|done]. cbn [length].
    pose proof (Nat.div_mod_eq (S (length s)) 3). lia.
  - exists (x :: p), ps. cbn [app length]. rewrite Hc. repeat split; try done.
    pose proof (Nat.div_mod_eq (S (length s)) 3).
    pose proof (Nat.mod_upper_bound (S (length s)) 3 ltac:(lia)). lia.
Qed.

Definition digits_of (s : jsstr) : jsstr := List.filter is_digit s.

Lemma digits_of_id s : forallb is_digit s = true -> digits_of s = s.
Proof.
  induction s as [|x s IH]; cbn; [done|]. intros [Hx Hs]%andb_true_iff. rewrite Hx.
  f_equal. by apply IH.
Qed.

Lemma digits_of_app s t : digits_of (s ++ t) = digits_of s ++ digits_of t.
Proof. apply List.filter_app. Qed.

Lemma padStart3_full q : length q = 3%nat -> padStart3 q = q.
Proof. intros H. unfold padStart3. by rewrite H. Qed.

Lemma prefix_groups_digits g gs :
  Forall (fun q => forallb is_digit q = true) (g :: gs) ->
  Forall (fun q => length q = 3%nat) gs ->
  digits_of (join [47] (prefix_groups (g :: gs))) = padStart3 g ++ concat gs.
Proof.
  revert g; induction gs as [|h gs IH]; intros g Hd Hl.
  - cbn [prefix_groups join concat]. rewrite app_nil_r. apply digits_of_id.
    apply Forall_cons in Hd as [Hg _]. by apply padStart3_value.
  - apply Forall_cons in Hd as [Hg Hd]. apply Forall_cons in Hl as [Hh Hl].
    change (prefix_groups (g :: h :: gs)) with ((120 :: padStart3 g) :: prefix_groups (h :: gs)).
    pose proof (IH h Hd Hl) as IH'. destruct (prefix_groups (h :: gs)) as [|p ps] eqn:E; [by destruct gs|].
    rewrite join_cons, digits_of_app. cbn [digits_of List.filter app] in *.
    change (List.filter is_digit (padStart3 g)) with (digits_of (padStart3 g)).
    rewrite (digits_of_id (padStart3 g)) by (by apply padStart3_value). f_equal.
    cbn. change (digits_of (join [47] (p :: ps)) = h ++ concat gs).
    by rewrite IH', padStart3_full.
Qed.

(** A tile number is read back from the digits of its path. *)
Lemma tileN_value n t : tileN n = Ok t -> digits_value (digits_of t) = n.
Proof.
  unfold tileN. intros H. res_inv. bool_inv.
  destruct (dec_spec n) as (Hv & Hd & _); [lia|].
  destruct (padStart3_value (dec n) Hd) as [Hpv Hpd].
  remember (padStart3 (dec n)) as s eqn:Es. destruct s as [|x s].
  { apply (f_equal length) in Es. unfold padStart3 in Es. rewrite length_app, repeat_length in Es.
    cbn in Es. lia. }
  cbn [insert_slashes negb andb app split_on].
  pose proof Hpd as [Hx Hs]%andb_true_iff.
  assert (Hx47 : x =? 47 = false) by (unfold is_digit in Hx; bool_inv; lia). rewrite Hx47.
  destruct (split_insert_slashes s Hs) as (p & ps & -> & Hc & _ & Hps).
  assert (Hall : forallb is_digit ((x :: p) ++ concat ps) = true)
    by (cbn [app]; by rewrite Hc).
  rewrite forallb_app in Hall. apply andb_true_iff in Hall as [Hxp Hcp].
  rewrite prefix_groups_digits; [| |done].
  - rewrite digits_value_app, (proj1 (padStart3_value (x :: p) Hxp)), <-digits_value_app.
    cbn [app]. rewrite Hc. lia.
  - constructor; [done|]. clear -Hcp. induction ps as [|q ps IH]; [constructor|].
    cbn in Hcp. rewrite forallb_app in Hcp. apply andb_true_iff in Hcp as [? ?]. auto.
Qed.

Definition tile_unit (u : Z) : bool := is_digit u || (u =? 120) || (u =? 47).

Lemma digits_tile_units s : forallb is_digit s = true -> forallb tile_unit s = true.
Proof.
  rewrite !forallb_true_Forall. intros H. eapply Forall_impl; [exact H|].
  unfold tile_unit. by intros x ->.
Qed.

Lemma insert_slashes_units b s : forallb tile_unit s = true ->
  forallb tile_unit (insert_slashes b s) = true.
Proof.
  revert b; induction s as [|x s IH]; intros b; cbn [forallb insert_slashes]; [done|].
  intros [Hx Hs]%andb_true_iff. rewrite forallb_app. cbn [forallb].
  rewrite Hx, IH by done. by case_match.
Qed.

Lemma prefix_groups_units gs : Forall (fun g => forallb tile_unit g = true) gs ->
  forallb tile_unit (join [47] (prefix_groups gs)) = true.
Proof.
  assert (Hpad : forall g, forallb tile_unit g = true -> forallb tile_unit (padStart3 g) = true).
  { intros g Hg. unfold padStart3. rewrite forallb_app, Hg, andb_true_r.
    by induction (3 - length g)%nat. }
  induction 1 as [|g gs Hg Hgs IH]; [done|]. destruct gs as [|h gs]; [by apply Hpad|].
  change (prefix_groups (g :: h :: gs)) with ((120 :: padStart3 g) :: prefix_groups (h :: gs)).
  destruct (prefix_groups (h :: gs)) as [|p ps] eqn:E; [by destruct gs|].
  rewrite join_cons, !forallb_app, IH. cbn [forallb]. by rewrite Hpad.
Qed.

Lemma tileN_units n t : tileN n = Ok t -> forallb tile_unit t = true.
Proof.
  unfold tileN. intros H. res_inv. bool_inv.
  apply prefix_groups_units, forallb_split_on, insert_slashes_units, digits_tile_units.
  apply padStart3_value, dec_spec. lia.
Qed.

(** ** Properties *)

(** Entry bundles round trip: parsing the encoding of any list of entries of
    at most 65535 bytes gives the entries back, and every byte string that
    parses is the encoding of what it parses to. *)
Theorem entryBundle_roundtrip (bs : bytes) (entries : list bytes) :
  (encodeEntryBundle entries = Ok bs -> parseEntryBundle bs = Ok entries) /\
  (parseEntryBundle bs = Ok entries -> encodeEntryBundle entries = Ok bs).
Proof.
  split; [apply encodeEntryBundle_parse|]. rewrite encodeEntryBundle_Ok.
  - intros H. apply encode_parse in H as (encs & ? & ?); [|done]. by exists encs.
Qed.

(** Encoding fails exactly when an entry is longer than 65535 bytes, with the
    package's parse error. *)
Theorem encodeEntryBundle_error entries :
  (exists bs, encodeEntryBundle entries = Ok bs) <-> Forall (fun e => zlen e <= 65535) entries.
Proof.
  setoid_rewrite encodeEntryBundle_Ok. split.
  - intros (bs & encs & H & _). apply map_res_Forall2 in H.
    induction H as [|e enc es encs He Hes IH]; constructor; [|done].
    unfold encodeEntry in He. res_inv. bool_inv. lia.
  - intros H. assert (exists encs, map_res encodeEntry entries = Ok encs) as [encs He].
    { induction H as [|e es He Hes [encs IH]]; [by exists []|].
      assert (exists enc, encodeEntry e = Ok enc) as [enc Henc].
      { unfold encodeEntry. rewrite (proj2 (Z.ltb_ge _ _)) by done. by eexists. }
      cbn [map_res]. rewrite Henc, IH. by eexists. }
    by exists (concat encs), encs.
Qed.

(** Distinct tiles have distinct URLs: level, number and width are
    determined by the path that [tilePath] builds under a prefix. *)
Theorem tilePath_injective prefix l1 l2 n1 n2 w1 w2 u :
  0 <= l1 -> 0 <= l2 -> (forall w, w1 = Some w \/ w2 = Some w -> 0 <= w) ->
  tilePath prefix l1 n1 w1 = Ok u -> tilePath prefix l2 n2 w2 = Ok u ->
  l1 = l2 /\ n1 = n2 /\ w1 = w2.
Proof.
  intros Hl1 Hl2 Hw H1 H2. unfold tilePath in *. res_inv. rename H1 into H2.
  assert (Hslash : forall z, 0 <= z -> 47 ∉ dec z)
    by (intros z Hz; by apply (digits_no_unit 47), dec_spec).
  assert (Hdot : forall n t, tileN n = Ok t -> 46 ∉ t)
    by (intros n t Ht; by apply (forallb_not_elem tile_unit), (tileN_units n)).
  do 2 apply app_inv_head in H2. change (js "/") with [47] in H2. cbn [app] in H2.
  apply app_sep_inj in H2 as [Hl Ht]; [|by apply Hslash..].
  apply dec_inj in Hl; [|done..]. split; [done|].
  pose proof (Hdot _ _ Hv) as Hd1. pose proof (Hdot _ _ Hv0) as Hd2.
  destruct w1 as [w1|], w2 as [w2|]; cbn [width_suffix] in Ht;
    change (js ".p/") with (46 :: js "p/") in *; cbn [app] in Ht; rewrite ?app_nil_r in Ht.
  - apply app_sep_inj in Ht as [-> Ht]; [|done..]. apply app_inv_head in Ht.
    apply dec_inj in Ht; [|apply Hw; auto..].
    rewrite <-(tileN_value _ _ Hv), <-(tileN_value _ _ Hv0). by subst.
  - exfalso. subst. set_solver.
  - exfalso. subst. set_solver.
  - subst. by rewrite <-(tileN_value _ _ Hv), <-(tileN_value _ _ Hv0).
Qed.

Lemma entryBundle_roundtrip_witness :
  parseEntryBundle [x00; x02; x61; x62; x00; x00] = Ok [[x61; x62]; []].
Proof. apply (entryBundle_roundtrip _ [[x61; x62]; []]). vm_compute. reflexivity. Defined.

Example tilePath_example :
  tilePath (js "https://log.example") 1 1234067 (Some 8)
  = Ok (js "https://log.example/tile/1/x001/x234/067.p/8").
Proof. vm_compute. reflexivity. Qed.

Lemma tilePath_injective_witness : 1 = 1 /\ 1234067 = 1234067 /\ Some 8 = Some 8.
Proof.
  apply (tilePath_injective (js "https://log.example") 1 1 1234067 1234067 (Some 8) (Some 8)
           (js "https://log.example/tile/1/x001/x234/067.p/8")); try lia.
  - intros w [[= <-]|[= <-]]; lia.
  - vm_compute. reflexivity.
  - vm_compute. reflexivity.
Defined.
