(* ===== verification/Url.v ===== *)
(** The platform's [URL] class, as an interface.

    WHATWG URL parsing is not part of the program; components that use it take
    it through [URLApi]: construction (which may throw), the component getters,
    the setters used by the code, and serialization.  [encodeURIComponent] is defined.
    [SimpleUrl] implements the
    interface for plain [scheme://host[:port]/path?query#fragment] URLs and is
    used by the witnesses only. *)

From S2P Require Import Prelude JsString.

Class URLApi := {
  URL : Type;
  new_URL : jsstr -> option URL;
  url_protocol : URL -> jsstr;
  url_username : URL -> jsstr;
  url_password : URL -> jsstr;
  url_host : URL -> jsstr;
  url_hostname : URL -> jsstr;
  url_port : URL -> jsstr;
  url_pathname : URL -> jsstr;
  url_search : URL -> jsstr;
  url_hash : URL -> jsstr;
  set_protocol : URL -> jsstr -> URL;
  set_hostname : URL -> jsstr -> URL;
  set_port : URL -> jsstr -> URL;
  set_pathname : URL -> jsstr -> URL;
  url_toString : URL -> jsstr
}.

(** ASCII case folding ([toLowerCase] on the ASCII parts of a URL). *)
Definition lower_unit (u : Z) : Z := if is_upper u then u + 32 else u.
Definition toLowerAscii (s : jsstr) : jsstr := map lower_unit s.
Definition upper_unit (u : Z) : Z := if is_lower u then u - 32 else u.
Definition toUpperAscii (s : jsstr) : jsstr := map upper_unit s.

(** ** Escaping in URLs *)

(** [encodeURIComponent]; the octets that are not escaped. *)
Definition is_uri_octet (b : byte) : bool :=
  let u := b2z b in
  is_alnum u || existsb (fun v => v =? u) [45; 95; 46; 33; 126; 42; 39; 40; 41].
Definition uri_octet (b : byte) : jsstr :=
  if is_uri_octet b then [b2z b] else [37] ++ map upper_unit (to_hex [b]).
Definition encodeURIComponent (s : jsstr) : res jsstr :=
  throw_if (negb (valid_unicode s)) (EError "URIError");;
  Ok (flat_map uri_octet (utf8_encode s)).

Module Simple.

Record url := mkUrl {
  protocol : jsstr; user : jsstr; pass : jsstr; hostname : jsstr; port : jsstr;
  pathname : jsstr; search : jsstr; hash : jsstr }.

Fixpoint span (f : Z -> bool) (s : jsstr) : jsstr * jsstr :=
  match s with
  | x :: r => if f x then let '(a, b) := span f r in (x :: a, b) else ([], s)
  | [] => ([], [])
  end.

Definition parse (raw : jsstr) : option url :=
  let '(scheme, rest) := span (fun u => is_alnum u) raw in
  if startsWith rest (js "://") then
    let rest := slice_from rest 3 in
    let '(auth, rest) := span (fun u => negb ((u =? 47) || (u =? 63) || (u =? 35))) rest in
    let '(path, rest) := span (fun u => negb ((u =? 63) || (u =? 35))) rest in
    let '(query, frag) := span (fun u => negb (u =? 35)) rest in
    let at_ := lastIndexOf auth 64 in
    let '(ui, hp) := if at_ =? -1 then ([], auth) else (slice auth 0 at_, slice_from auth (at_ + 1)) in
    let '(u, p) := span (fun u => negb (u =? 58)) ui in
    let '(h, pt) := span (fun u => negb (u =? 58)) hp in
    let proto := toLowerAscii scheme ++ [58] in
    let pt := slice_from pt 1 in
    let pt := if (bool_decide (proto = js "https:") && bool_decide (pt = js "443"))
                 || (bool_decide (proto = js "http:") && bool_decide (pt = js "80"))
              then [] else pt in
    if (length h =? 0)%nat then None else
    Some (mkUrl proto u (slice_from p 1) (toLowerAscii h) pt
            (if (length path =? 0)%nat then [47] else path) query frag)
  else None.

Definition host (u : url) : jsstr :=
  hostname u ++ (if (length (port u) =? 0)%nat then [] else 58 :: port u).

Definition toString (u : url) : jsstr :=
  protocol u ++ js "//"
  ++ (if (length (user u) =? 0)%nat && (length (pass u) =? 0)%nat then []
      else user u ++ (if (length (pass u) =? 0)%nat then [] else 58 :: pass u) ++ [64])
  ++ host u ++ pathname u ++ search u ++ hash u.

End Simple.

Definition SimpleUrl : URLApi := {|
  URL := Simple.url; new_URL := Simple.parse;
  url_protocol := Simple.protocol; url_username := Simple.user; url_password := Simple.pass;
  url_host := Simple.host; url_hostname := Simple.hostname; url_port := Simple.port;
  url_pathname := Simple.pathname; url_search := Simple.search; url_hash := Simple.hash;
  set_protocol := fun u v => Simple.mkUrl v (Simple.user u) (Simple.pass u) (Simple.hostname u)
    (Simple.port u) (Simple.pathname u) (Simple.search u) (Simple.hash u);
  set_hostname := fun u v => Simple.mkUrl (Simple.protocol u) (Simple.user u) (Simple.pass u) v
    (Simple.port u) (Simple.pathname u) (Simple.search u) (Simple.hash u);
  set_port := fun u v => Simple.mkUrl (Simple.protocol u) (Simple.user u) (Simple.pass u)
    (Simple.hostname u) v (Simple.pathname u) (Simple.search u) (Simple.hash u);
  set_pathname := fun u v => Simple.mkUrl (Simple.protocol u) (Simple.user u) (Simple.pass u)
    (Simple.hostname u) (Simple.port u) v (Simple.search u) (Simple.hash u);
  url_toString := Simple.toString |}.

Lemma span_all f s t : forallb f s = true -> match t with x :: _ => f x = false | [] => True end ->
  Simple.span f (s ++ t) = (s, t).
Proof.
  induction s as [|x s IH]; intros Hs Ht; cbn.
  - destruct t as [|x t]; cbn; [done|by rewrite Ht].
  - cbn in Hs. apply andb_true_iff in Hs as [-> Hs]. by rewrite IH.
Qed.
