(* ===== verification/Lr.v ===== *)
(** Log references: [log-c2sp-tlog/src/lr.ts]. *)

From S2P Require Import Prelude JsString Base64 Url.

Section Lr.
Context `{Url : URLApi}.

Record ParsedC2spTlogLr := mkLr {
  lr_scope : jsstr;
  lr_logPrefix : jsstr;
  lr_streamId : jsstr;
  lr_origin : jsstr;
  lr_lr : jsstr;
  lr_entryIndex : option Z
}.

Definition METHOD : jsstr := js "c2sp-tlog:".
Definition STREAM_ID_BYTES : nat := 16.

(** The random bytes are the platform's. *)
Definition generateC2spTlogStreamId (getRandomValues : nat -> bytes) : jsstr :=
  b64url (getRandomValues STREAM_ID_BYTES).

Definition is_unreserved (u : Z) : bool :=
  is_alnum u || (u =? 46) || (u =? 95) || (u =? 126) || (u =? 45).

(** One or more unreserved characters or percent escapes. *)
Fixpoint streamId_chars (s : jsstr) : bool :=
  match s with
  | [] => true
  | u :: s =>
      if is_unreserved u then streamId_chars s
      else if u =? 37 then
        match s with
        | a :: b :: s => is_hex a && is_hex b && streamId_chars s
        | _ => false
        end
      else false
  end.
Definition valid_streamId (s : jsstr) : bool := negb (length s =? 0)%nat && streamId_chars s.

Definition validateScope (scope : jsstr) : res unit :=
  throw_if (negb (bool_decide (scope = js "public")) && negb (bool_decide (scope = js "testnet"))
            && negb (startsWith scope (js "private-")
                     && negb (length scope =? 8)%nat
                     && forallb (fun u => is_alnum u || (u =? 45)) (slice_from scope 8)))
    (C2spTlogParseError "invalid c2sp-tlog scope").

(** [raw] without a leading scheme and authority. *)
Fixpoint scheme_rest (s : jsstr) : jsstr :=
  match s with
  | u :: r => if is_alnum u || (u =? 43) || (u =? 46) || (u =? 45) then scheme_rest r else s
  | [] => []
  end.
Fixpoint authority_rest (s : jsstr) : jsstr :=
  match s with
  | u :: r => if (u =? 47) || (u =? 63) || (u =? 35) then s else authority_rest r
  | [] => []
  end.
Definition strip_authority (raw : jsstr) : jsstr :=
  match raw with
  | u :: r =>
      if is_alpha u && startsWith (scheme_rest r) (js "://")
      then authority_rest (slice_from (scheme_rest r) 3) else raw
  | [] => []
  end.

(** A path segment equal to [.] or [..]. *)
Definition has_dot_segment (path : jsstr) : bool :=
  existsb (fun seg => bool_decide (seg = [46]) || bool_decide (seg = [46; 46])) (split_on 47 path).

Definition has_encoded_slash (path : jsstr) : bool :=
  let p := toLowerAscii path in includes p (js "%2f") || includes p (js "%5c").

(** Percent escapes of unreserved characters are decoded, others put in upper case. *)
Fixpoint normalizePercentPath (path : jsstr) : jsstr :=
  match path with
  | [] => []
  | u :: r =>
      match r with
      | a :: b :: r' =>
          if (u =? 37) && is_hex a && is_hex b then
            let byte := hex_value a * 16 + hex_value b in
            (if is_unreserved byte then [byte] else [37; upper_unit a; upper_unit b])
            ++ normalizePercentPath r'
          else u :: normalizePercentPath r
      | _ => u :: normalizePercentPath r
      end
  end.

Definition canonicalLogPrefix (raw : jsstr) : res jsstr :=
  throw_if (existsb (fun u => (u =? 59) || is_space u) raw)
    (C2spTlogParseError "log prefix must percent-encode DNS TXT tag delimiters");;
  let stripped := strip_authority raw in
  let rawPath := if (length stripped =? 0)%nat then [47] else stripped in
  throw_if (has_dot_segment rawPath) (C2spTlogParseError "log prefix must not contain dot segments");;
  url ← of_option (new_URL raw) (C2spTlogParseError "invalid log prefix URL");
  throw_if (negb (length (url_username url) =? 0)%nat || negb (length (url_password url) =? 0)%nat)
    (C2spTlogParseError "log prefix must not contain userinfo");;
  throw_if (negb (length (url_search url) =? 0)%nat || negb (length (url_hash url) =? 0)%nat)
    (C2spTlogParseError "log prefix must not contain query or fragment");;
  throw_if (negb (bool_decide (url_pathname url = [47])) && endsWith (url_pathname url) [47])
    (C2spTlogParseError "log prefix must not have trailing slash");;
  throw_if (has_encoded_slash (url_pathname url))
    (C2spTlogParseError "log prefix must not percent-encode slash or backslash");;
  let scheme := toLowerAscii (url_protocol url) in
  throw_if (negb (bool_decide (scheme = js "https:")) && negb (bool_decide (scheme = js "http:")))
    (C2spTlogParseError "unsupported log prefix scheme");;
  let url := set_protocol url scheme in
  let url := set_hostname url (toLowerAscii (url_hostname url)) in
  let url :=
    if (bool_decide (scheme = js "https:") && bool_decide (url_port url = js "443"))
       || (bool_decide (scheme = js "http:") && bool_decide (url_port url = js "80"))
    then set_port url [] else url in
  let url := set_pathname url (normalizePercentPath (url_pathname url)) in
  let out := url_toString url in
  Ok (if endsWith out [47] then take (length out - 1) out else out).

(** [new URL(logPrefix)] throws a [TypeError] on an invalid URL. *)
Definition checkpointOrigin (logPrefix : jsstr) : res jsstr :=
  u ← of_option (new_URL logPrefix) (EError "Invalid URL");
  let s := url_host u ++ url_pathname u in
  Ok (if endsWith s [47] then take (length s - 1) s else s).

Definition parseIndex (s : jsstr) : res Z :=
  throw_if (negb (isDecimal s)) (C2spTlogParseError "invalid entry index");;
  let n := digits_value s in
  throw_if (negb (isSafeInteger n)) (C2spTlogParseError "entry index outside safe integer range");;
  Ok n.

Definition validateSignedNoteName (name : jsstr) : res unit :=
  throw_if ((length name =? 0)%nat || negb (forallb (fun u => (33 <=? u) && (u <=? 126)) name)
            || existsb (fun u => is_space u || (u =? 43)) name)
    (C2spTlogParseError "invalid signed-note key name").

Definition boundLr (scope logPrefix streamId : jsstr) : jsstr :=
  METHOD ++ scope ++ [58] ++ logPrefix ++ [35] ++ streamId.

Definition parseC2spTlogLr (lr : jsstr) : res ParsedC2spTlogLr :=
  throw_if (negb (startsWith lr METHOD)) (C2spTlogParseError "lr must start with c2sp-tlog:");;
  let rest := slice_from lr (zlen METHOD) in
  let colon := indexOf rest [58] in
  throw_if (colon <=? 0) (C2spTlogParseError "missing c2sp-tlog scope");;
  let scope := slice rest 0 colon in
  validateScope scope;;
  let tail := slice_from rest (colon + 1) in
  let hash := lastIndexOf tail 35 in
  throw_if ((hash <=? 0) || (hash =? zlen tail - 1))
    (C2spTlogParseError "missing log prefix or stream id");;
  let rawLogPrefix := slice tail 0 hash in
  logPrefix ← canonicalLogPrefix rawLogPrefix;
  throw_if (negb (bool_decide (rawLogPrefix = logPrefix)))
    (C2spTlogParseError "log prefix must already be canonical");;
  let ref := slice_from tail (hash + 1) in
  let at_ := lastIndexOf ref 64 in
  let streamId := if at_ =? -1 then ref else slice ref 0 at_ in
  throw_if (negb (valid_streamId streamId)) (C2spTlogParseError "invalid stream id");;
  entryIndex ← (if at_ =? -1 then Ok None else Some <$> parseIndex (slice_from ref (at_ + 1)));
  origin ← checkpointOrigin logPrefix;
  validateSignedNoteName origin;;
  throw_if (bool_decide (scope = js "public") && negb (startsWith logPrefix (js "https://")))
    (C2spTlogParseError "public c2sp-tlog requires an https log prefix");;
  Ok (mkLr scope logPrefix streamId origin (boundLr scope logPrefix streamId) entryIndex).

End Lr.

Section LrProps.
Context `{Url : URLApi}.

(** ** Lemmas *)

Lemma streamId_chars_sep s c : streamId_chars s = true ->
  is_unreserved c = false -> c <> 37 -> is_hex c = false -> c ∉ s.
Proof.
  intros Hs Hc1 Hc2 Hc3. revert Hs. induction s as [s IH] using list_len_ind.
  destruct s as [|u s]; cbn [streamId_chars]; [intros _; apply not_elem_of_nil|].
  destruct (is_unreserved u) eqn:Hu.
  - intros Hs. apply not_elem_of_cons. split; [congruence|]. apply IH; [cbn; lia|done].
  - destruct (Z.eqb_spec u 37) as [->|]; [|done]. destruct s as [|a [|b s]]; [done..|].
    intros H. bool_inv. rewrite !not_elem_of_cons.
    repeat split; [done|congruence..|]. apply IH; [cbn; lia|done].
Qed.

Lemma valid_streamId_sep s : valid_streamId s = true ->
  s <> [] /\ 35 ∉ s /\ 64 ∉ s.
Proof.
  unfold valid_streamId. intros H. bool_inv.
  split; [by destruct s|]. split; by eapply streamId_chars_sep.
Qed.

Lemma validateScope_Ok s u : validateScope s = Ok u -> s <> [] /\ 58 ∉ s.
Proof.
  unfold validateScope. intros H%throw_if_Ok. apply andb_false_iff in H as [H|H].
  - apply andb_false_iff in H as [H|H]; bool_inv; subst; (split; [done|]);
      apply (bool_decide_eq_true_1 (58 ∉ _)); by vm_compute.
  - bool_inv. match goal with H : startsWith _ _ = true |- _ => apply startsWith_spec in H as [t ->] end.
    split; [done|].
    match goal with H : forallb _ _ = true |- _ =>
      change (slice_from (js "private-" ++ t) 8) with t in H;
      apply (forallb_not_elem _ 58) in H; [|done] end.
    rewrite elem_of_app. intros [Hin|Hin]; [|done].
    revert Hin. apply (bool_decide_eq_true_1 (58 ∉ _)). by vm_compute.
Qed.

(** The part of the parser after the reference has been cut into its parts. *)
Definition parse_parts (scope rawLogPrefix ref : jsstr) : res ParsedC2spTlogLr :=
  logPrefix ← canonicalLogPrefix rawLogPrefix;
  throw_if (negb (bool_decide (rawLogPrefix = logPrefix)))
    (C2spTlogParseError "log prefix must already be canonical");;
  let at_ := lastIndexOf ref 64 in
  let streamId := if at_ =? -1 then ref else slice ref 0 at_ in
  throw_if (negb (valid_streamId streamId)) (C2spTlogParseError "invalid stream id");;
  entryIndex ← (if at_ =? -1 then Ok None else Some <$> parseIndex (slice_from ref (at_ + 1)));
  origin ← checkpointOrigin logPrefix;
  validateSignedNoteName origin;;
  throw_if (bool_decide (scope = js "public") && negb (startsWith logPrefix (js "https://")))
    (C2spTlogParseError "public c2sp-tlog requires an https log prefix");;
  Ok (mkLr scope logPrefix streamId origin (boundLr scope logPrefix streamId) entryIndex).

Lemma parse_of_parts scope raw ref :
  58 ∉ scope -> scope <> [] -> 35 ∉ ref -> ref <> [] -> raw <> [] ->
  validateScope scope = Ok tt ->
  parseC2spTlogLr (boundLr scope raw ref) = parse_parts scope raw ref.
Proof.
  intros Hs Hs0 Hr Hr0 Hw0 Hv.
  change (boundLr scope raw ref) with (METHOD ++ scope ++ 58 :: raw ++ 35 :: ref).
  unfold parseC2spTlogLr, parse_parts. rewrite startsWith_app. cbn [negb throw_if mbind res_bind].
  change (slice_from (METHOD ++ ?x) (zlen METHOD)) with x.
  unfold indexOf. rewrite indexOf_from_app, Z.add_0_l by done.
  destruct (slice_cut scope 58 (raw ++ 35 :: ref)) as [-> ->].
  pose proof (zlen_pos scope Hs0). pose proof (zlen_pos raw Hw0). pose proof (zlen_pos ref Hr0).
  rewrite (proj2 (Z.leb_gt (zlen scope) 0)) by done.
  rewrite Hv. cbn [throw_if mbind res_bind].
  assert (lastIndexOf (raw ++ 35 :: ref) 35 = zlen raw) as ->
    by (unfold lastIndexOf; rewrite lastIndexOf_from_app by done; lia).
  destruct (slice_cut raw 35 ref) as [-> ->].
  rewrite (proj2 (Z.leb_gt (zlen raw) 0)) by done.
  rewrite (proj2 (Z.eqb_neq (zlen raw) (zlen (raw ++ 35 :: ref) - 1))); [reflexivity|].
  rewrite zlen_app, zlen_cons. lia.
Qed.

Lemma parse_parts_inv lr p : parseC2spTlogLr lr = Ok p ->
  exists scope raw ref, lr = boundLr scope raw ref /\ 58 ∉ scope /\ 35 ∉ ref /\ raw <> []
    /\ validateScope scope = Ok tt /\ parse_parts scope raw ref = Ok p.
Proof.
  unfold parseC2spTlogLr. intros H.
  apply bind_Ok in H as (? & Hm & H). apply throw_if_Ok in Hm. bool_inv.
  apply startsWith_spec in Hm as [rest ->].
  change (slice_from (METHOD ++ ?x) (zlen METHOD)) with x in H.
  apply bind_Ok in H as (? & Hc & H). apply throw_if_Ok in Hc. bool_inv.
  destruct (indexOf_from_spec 0 rest 58) as [E|(scope & tail & -> & Hs & E)];
    [unfold indexOf in Hc; cbn zeta in E; lia|]. cbn zeta in E.
  unfold indexOf in H. rewrite E, Z.add_0_l in H.
  destruct (slice_cut scope 58 tail) as [E1 E2]. rewrite E1, E2 in H. clear E E1 E2 Hc.
  apply bind_Ok in H as ([] & Hv & H).
  apply bind_Ok in H as (? & Hh & H). apply throw_if_Ok, orb_false_iff in Hh as [Hh _].
  apply Z.leb_gt in Hh.
  destruct (lastIndexOf_from_spec 0 tail 35 (-1)) as [[? E]|(raw & ref & -> & Hr & E)];
    fold (lastIndexOf tail 35) in E || fold (lastIndexOf (raw ++ 35 :: ref) 35) in E;
    cbn zeta in E; rewrite E in Hh; [lia|]. rewrite E, Z.add_0_l in H.
  destruct (slice_cut raw 35 ref) as [E1 E2]. rewrite E1, E2 in H.
  exists scope, raw, ref. split_and!; try done.
  intros ->. change (zlen (@nil Z)) with 0 in Hh. lia.
Qed.

Lemma parseIndex_Ok s n : parseIndex s = Ok n -> s = dec n /\ 0 <= n <= MAX_SAFE_INTEGER.
Proof.
  unfold parseIndex. intros H. res_inv. bool_inv.
  match goal with H : isSafeInteger _ = true |- _ => apply isSafeInteger_spec in H end.
  rewrite dec_digits_value by done. split; [done|].
  split; [by apply digits_value_bounds, isDecimal_digits|lia].
Qed.

Lemma parse_parts_Ok scope raw ref p : parse_parts scope raw ref = Ok p ->
  exists index, ref = lr_streamId p ++ index
  /\ index = match lr_entryIndex p with Some n => 64 :: dec n | None => [] end
  /\ lr_scope p = scope /\ lr_logPrefix p = raw /\ lr_lr p = boundLr scope raw (lr_streamId p)
  /\ valid_streamId (lr_streamId p) = true
  /\ parse_parts scope raw (lr_streamId p)
     = Ok (mkLr scope raw (lr_streamId p) (lr_origin p) (lr_lr p) None).
Proof.
  unfold parse_parts at 1. intros H. apply bind_Ok in H as (logPrefix & Hc & H).
  apply bind_Ok in H as (? & He & H). apply throw_if_Ok in He. bool_inv. subst logPrefix.
  assert (Hs : exists streamId index, ref = streamId ++ index /\
    (if lastIndexOf ref 64 =? -1 then ref else slice ref 0 (lastIndexOf ref 64)) = streamId /\
    ((lastIndexOf ref 64 = -1 /\ index = []) \/ (lastIndexOf ref 64 <> -1 /\
      index = 64 :: slice_from ref (lastIndexOf ref 64 + 1)))).
  { destruct (lastIndexOf_from_spec 0 ref 64 (-1)) as [[? E]|(a & t & E' & Ht & E)];
      fold (lastIndexOf ref 64) in E; cbn zeta in E; rewrite E.
    - exists ref, []. rewrite app_nil_r. naive_solver.
    - pose proof (zlen_nonneg a). rewrite (proj2 (Z.eqb_neq _ _)) by lia.
      destruct (slice_cut a 64 t) as [E1 E2]. rewrite Z.add_0_l, E', E1, E2.
      exists a, (64 :: t). split; [done|]. split; [done|]. right. split; [lia|done]. }
  destruct Hs as (streamId & index & -> & Es & Hidx). rewrite Es in H.
  apply bind_Ok in H as (? & Hv & H). apply throw_if_Ok in Hv. bool_inv.
  apply bind_Ok in H as (ei & Hei & H). apply bind_Ok in H as (origin & Ho & H).
  apply bind_Ok in H as ([] & Hn & H). apply bind_Ok in H as ([] & Hp & H).
  apply Ok_inj in H as <-. cbn [lr_streamId lr_entryIndex lr_scope lr_logPrefix lr_lr lr_origin].
  exists index. split; [done|]. split.
  { destruct Hidx as [[E ->]|[E ->]]; [rewrite E in Hei; by injection Hei as <-|].
    rewrite (proj2 (Z.eqb_neq _ _) E) in Hei. destruct (parseIndex _) as [n|] eqn:Hn'; [|done].
    injection Hei as <-. apply parseIndex_Ok in Hn' as [-> _]. done. }
  split_and!; try done. unfold parse_parts. rewrite Hc. cbn [mbind res_bind].
  rewrite (bool_decide_true (raw = raw)) by done. cbn [negb throw_if mbind res_bind].
  unfold lastIndexOf. rewrite lastIndexOf_from_none by (by eapply valid_streamId_sep).
  cbn [Z.eqb Pos.eqb]. rewrite Hv. cbn [negb throw_if mbind res_bind]. rewrite Ho. cbn [mbind res_bind].
  rewrite Hn, Hp. done.
Qed.

Lemma parseIndex_dec n : 0 <= n <= MAX_SAFE_INTEGER -> parseIndex (dec n) = Ok n.
Proof.
  intros Hn. destruct (dec_spec n ltac:(lia)) as (Hv & _ & Hd). unfold parseIndex. rewrite Hd. cbn [negb throw_if mbind res_bind].
  rewrite Hv, (proj2 (isSafeInteger_spec n)) by lia. done.
Qed.

(** The bound reference of a reference. *)
Lemma bound_reference_parses lr p : parseC2spTlogLr lr = Ok p -> parseC2spTlogLr (lr_lr p)
  = Ok (mkLr (lr_scope p) (lr_logPrefix p) (lr_streamId p) (lr_origin p) (lr_lr p) None).
Proof.
  intros (scope & raw & ref & -> & Hs & Hr & Hw & Hv & Hp)%parse_parts_inv.
  destruct (parse_parts_Ok _ _ _ _ Hp) as (index & -> & _ & <- & <- & Hb & Hid & Hp').
  rewrite Hb. destruct (valid_streamId_sep _ Hid) as (? & ? & ?).
  rewrite parse_of_parts; try done; [by rewrite <-Hb|by eapply validateScope_Ok].
Qed.

(** A bound reference followed by the index of an entry. *)
Lemma parse_entry_reference lr p n : parseC2spTlogLr lr = Ok p -> 0 <= n <= MAX_SAFE_INTEGER ->
  parseC2spTlogLr (lr_lr p ++ 64 :: dec n)
  = Ok (mkLr (lr_scope p) (lr_logPrefix p) (lr_streamId p) (lr_origin p) (lr_lr p) (Some n)).
Proof.
  intros (scope & raw & ref & -> & Hs & Hr & Hw & Hv & Hp)%parse_parts_inv Hn.
  destruct (parse_parts_Ok _ _ _ _ Hp) as (index & _ & _ & <- & <- & Hb & Hid & Hp').
  destruct (valid_streamId_sep _ Hid) as (Hne & H35 & H64).
  destruct (dec_spec n ltac:(lia)) as (_ & Hdig & _).
  assert (Hd35 : 35 ∉ dec n) by (by apply digits_no_unit). assert (Hd64 : 64 ∉ dec n) by (by apply digits_no_unit).
  rewrite Hb. replace (boundLr (lr_scope p) (lr_logPrefix p) (lr_streamId p) ++ 64 :: dec n)
    with (boundLr (lr_scope p) (lr_logPrefix p) (lr_streamId p ++ 64 :: dec n)) by (unfold boundLr; by rewrite <-!app_assoc).
  rewrite parse_of_parts; [|done|by eapply validateScope_Ok| |by destruct (lr_streamId p)|done|done].
  2:{ rewrite elem_of_app, elem_of_cons. intros [?|[?|?]]; done. }
  unfold parse_parts in Hp' |- *. destruct (canonicalLogPrefix _) as [prefix|]; [|done]. cbn [mbind res_bind] in *.
  destruct (throw_if (negb (bool_decide (lr_logPrefix p = prefix))) _) as [[]|]; [|done]. cbn [mbind res_bind] in *.
  unfold lastIndexOf in *. rewrite lastIndexOf_from_none in Hp' by done.
  rewrite lastIndexOf_from_app, Z.add_0_l by done. cbn [Z.eqb Pos.eqb] in Hp'.
  pose proof (zlen_nonneg (lr_streamId p)). rewrite (proj2 (Z.eqb_neq _ (-1))) by lia.
  destruct (slice_cut (lr_streamId p) 64 (dec n)) as [-> ->]. rewrite Hid in *. cbn [negb throw_if mbind res_bind] in *.
  rewrite parseIndex_dec by done. cbn [fmap res_fmap mbind res_bind].
  destruct (checkpointOrigin prefix) as [origin|]; [|done]. cbn [mbind res_bind] in *.
  destruct (validateSignedNoteName origin) as [[]|]; [|done]. cbn [mbind res_bind] in *.
  destruct (throw_if _ _) as [[]|]; [|done]. cbn [mbind res_bind] in *. injection Hp' as <- <- _. done.
Qed.

(** ** Properties *)

(** Log references are canonical: an accepted reference is exactly the bound
    reference of its result, followed by [@index] when it names an entry; and the
    bound reference itself parses to the same result without the index. *)
Theorem parseC2spTlogLr_canonical lr p :
  parseC2spTlogLr lr = Ok p ->
  lr = lr_lr p ++ match lr_entryIndex p with Some n => 64 :: dec n | None => [] end
  /\ parseC2spTlogLr (lr_lr p)
     = Ok (mkLr (lr_scope p) (lr_logPrefix p) (lr_streamId p) (lr_origin p) (lr_lr p) None).
Proof.
  intros H. split; [|by eapply bound_reference_parses].
  apply parse_parts_inv in H as (scope & raw & ref & -> & Hs & Hr & Hw & Hv & Hp).
  destruct (parse_parts_Ok _ _ _ _ Hp) as (index & -> & -> & <- & <- & Hb & _ & _).
  rewrite Hb. unfold boundLr. by rewrite <-!app_assoc.
Qed.

End LrProps.

Lemma parseC2spTlogLr_canonical_witness :
  let lr := js "c2sp-tlog:public:https://log.example/a#stream-1@42" in
  let p := mkLr (js "public") (js "https://log.example/a") (js "stream-1") (js "log.example/a")
             (js "c2sp-tlog:public:https://log.example/a#stream-1") (Some 42) in
  parseC2spTlogLr (Url := SimpleUrl) lr = Ok p
  /\ parseC2spTlogLr (Url := SimpleUrl) (lr_lr p)
     = Ok (mkLr (lr_scope p) (lr_logPrefix p) (lr_streamId p) (lr_origin p) (lr_lr p) None).
Proof.
  cbv zeta. split; [vm_compute; reflexivity|].
  apply (parseC2spTlogLr_canonical (Url := SimpleUrl)
    (js "c2sp-tlog:public:https://log.example/a#stream-1@42")). vm_compute. reflexivity.
Defined.
