(* ===== verification/Checkpoint.v ===== *)
(** Checkpoints and signed notes: [log-c2sp-tlog/src/checkpoint.ts] and
    [log-c2sp-tlog/src/signed-note.ts]. *)

From S2P Require Import Prelude JsString Base64 Url.

(** ** Parsing *)

(** [text.replace(/\r\n/g, '\n')] *)
Fixpoint replace_crlf (s : jsstr) : jsstr :=
  match s with
  | u :: r =>
      match r with
      | v :: r' => if (u =? 13) && (v =? 10) then 10 :: replace_crlf r' else u :: replace_crlf r
      | [] => [u]
      end
  | [] => []
  end.

(** [s.indexOf(p, from)] *)
Definition indexOf_at (s p : jsstr) (from : Z) : Z :=
  let k := indexOf (slice_from s from) p in
  if k =? -1 then -1 else from + k.

Record NoteSignature := mkNoteSignature {
  sig_name : jsstr;
  sig_keyHash : option bytes;
  sig_signature : bytes;
  sig_raw : jsstr
}.

Record Checkpoint := mkCheckpoint {
  origin : jsstr;
  treeSize : Z;
  rootHash : bytes;
  signatures : list NoteSignature;
  signedText : jsstr
}.

Definition is_b64 (u : Z) : bool := is_alnum u || (u =? 43) || (u =? 47) || (u =? 61).

(** The longest prefix of a class of code units and what follows it. *)
Fixpoint span (f : Z -> bool) (s : jsstr) : jsstr * jsstr :=
  match s with
  | x :: r => if f x then let '(a, b) := span f r in (x :: a, b) else ([], s)
  | [] => ([], [])
  end.

(** [/^<dash> ([^\s]+)\s+([A-Za-z0-9+/=]+)$/.exec(line)] *)
Definition exec_note_line (dash line : jsstr) : option (jsstr * jsstr) :=
  if startsWith line (dash ++ [32]) then
    let '(name, rest) := span (fun u => negb (is_space u)) (slice_from line (zlen dash + 1)) in
    let '(spaces, b64) := span is_space rest in
    if negb (length name =? 0)%nat && negb (length spaces =? 0)%nat
       && negb (length b64 =? 0)%nat && forallb is_b64 b64
    then Some (name, b64) else None
  else None.

Definition em_dash : jsstr := [8212].

Definition parseNoteSignature (line : jsstr) : res NoteSignature :=
  m ← of_option
        (match exec_note_line em_dash line with
         | Some m => Some m
         | None => exec_note_line (js "--") line
         end) (C2spTlogParseError "invalid signed-note signature line");
  bytes ← fromB64 (snd m);
  Ok (if 4 <? zlen bytes
      then mkNoteSignature (fst m) (Some (slice bytes 0 4)) (slice_from bytes 4) line
      else mkNoteSignature (fst m) None bytes line).

Definition parseCheckpoint (text : jsstr) : res Checkpoint :=
  let normalized := replace_crlf text in
  let sigStart := indexOf normalized [10; 10] in
  let signedText := if sigStart =? -1 then trimEnd normalized ++ [10]
                    else slice normalized 0 (sigStart + 1) in
  let body := split_on 10 (trimEnd signedText) in
  match body with
  | origin :: sizeText :: rootText :: _ =>
      throw_if (length origin =? 0)%nat (C2spTlogParseError "checkpoint missing origin");;
      throw_if (negb (isDecimal sizeText)) (C2spTlogParseError "checkpoint has invalid tree size");;
      let treeSize := digits_value sizeText in
      throw_if (negb (isSafeInteger treeSize))
        (C2spTlogParseError "checkpoint tree size outside safe integer range");;
      rootHash ← fromB64 rootText;
      throw_if (negb (length rootHash =? 32)%nat)
        (C2spTlogParseError "checkpoint root hash must be SHA-256 sized");;
      let sigText := if sigStart =? -1 then [] else trim (slice_from normalized (sigStart + 2)) in
      signatures ← (if (length sigText =? 0)%nat then Ok []
                    else map_res parseNoteSignature
                           (List.filter (fun l => negb (length l =? 0)%nat) (split_on 10 sigText)));
      Ok (mkCheckpoint origin treeSize rootHash signatures signedText)
  | _ => Throw (C2spTlogParseError "checkpoint must contain origin, size, and root hash")
  end.

(** ** Verifier keys

    Every key has [kind: 'ed25519'], so the field is left out. *)

Record SignedNoteKey := mkSignedNoteKey {
  key_name : jsstr;
  keyBytes : bytes;
  keyId : option bytes;
  signatureType : option bytes
}.

#[export] Instance SignedNoteKey_eq_dec : EqDecision SignedNoteKey.
Proof. solve_decision. Defined.

Fixpoint hex_pairs (s : jsstr) : option bytes :=
  match s with
  | [] => Some []
  | a :: b :: s =>
      if is_hex a && is_hex b then
        l ← hex_pairs s; Some (z2b (hex_value a * 16 + hex_value b) :: l)
      else None
  | _ => None
  end.

Definition fromHex (s : jsstr) : res bytes :=
  throw_if (length s =? 0)%nat (C2spTlogParseError "invalid signed-note key ID");;
  of_option (hex_pairs s) (C2spTlogParseError "invalid signed-note key ID").

Definition decodeKey (s : jsstr) : res (bytes * option bytes) :=
  b ← fromB64 s;
  if zlen b =? 32 then Ok (b, None)
  else if zlen b =? 33 then Ok (slice_from b 1, Some (slice b 0 1))
  else Throw (C2spTlogParseError "Ed25519 verifier key must contain a signature type and 32-byte key").

Definition parseSignedNoteVerifierKey (text : jsstr) : res SignedNoteKey :=
  let trimmed := trim text in
  let firstPlus := indexOf trimmed [43] in
  let secondPlus := if firstPlus =? -1 then -1 else indexOf_at trimmed [43] (firstPlus + 1) in
  if (0 <? firstPlus) && (firstPlus + 1 <? secondPlus) then
    let name := slice trimmed 0 firstPlus in
    keyId ← fromHex (slice trimmed (firstPlus + 1) secondPlus);
    throw_if (negb (length keyId =? 4)%nat) (C2spTlogParseError "signed-note key ID must be four bytes");;
    k ← decodeKey (slice_from trimmed (secondPlus + 1));
    Ok (mkSignedNoteKey name (fst k) (Some keyId) (snd k))
  else
    match split_runs is_space trimmed with
    | [name; b64] => k ← decodeKey b64; Ok (mkSignedNoteKey name (fst k) None (snd k))
    | [name; kind; b64] =>
        if bool_decide (toLowerAscii kind = js "ed25519")
        then k ← decodeKey b64; Ok (mkSignedNoteKey name (fst k) None (snd k))
        else Throw (C2spTlogParseError "unsupported signed-note verifier key")
    | _ => Throw (C2spTlogParseError "unsupported signed-note verifier key")
    end.

(** ** Signatures

    Ed25519 is the platform's ([createPublicKey] and [verify] of [node:crypto]):
    whether a signature verifies under raw key bytes; a key the platform refuses
    verifies nothing. *)

Class Ed25519 := { ed25519_verify : bytes -> bytes -> bytes -> bool }.

(** [readBigUInt64BE] *)
Definition uint_be (l : bytes) : Z := foldl (fun acc b => acc * 256 + b2z b) 0 l.

Definition cosignature_message (timestamp : Z) (message : jsstr) : jsstr :=
  js "cosignature/v1" ++ [10] ++ js "time " ++ dec timestamp ++ [10] ++ message.

Definition keyIdMatches (sig : NoteSignature) (key : SignedNoteKey) : bool :=
  match keyId key with
  | None => true
  | Some id => match sig_keyHash sig with None => false | Some h => bool_decide (h = id) end
  end.

Section Signatures.
Context `{Ed : Ed25519}.

Definition verifyNoteSignature (message : jsstr) (sig : NoteSignature) (key : SignedNoteKey) : bool :=
  if negb (length (keyBytes key) =? 32)%nat then false
  else
    let type := match signatureType key with
                | Some (b :: _) => b2z b
                | _ => 1
                end in
    if match signatureType key with Some t => negb (length t =? 1)%nat | None => false end then false
    else if type =? 1 then
      if negb (length (sig_signature sig) =? 64)%nat then false
      else ed25519_verify (keyBytes key) (utf8_encode message) (sig_signature sig)
    else if type =? 4 then
      if negb (length (sig_signature sig) =? 72)%nat then false
      else
        let timestamp := uint_be (slice (sig_signature sig) 0 8) in
        if 2 ^ 63 - 1 <? timestamp then false
        else ed25519_verify (keyBytes key) (utf8_encode (cosignature_message timestamp message))
               (slice_from (sig_signature sig) 8)
    else false.

Definition signed_by (checkpoint : Checkpoint) (key : SignedNoteKey) (sig : NoteSignature) : bool :=
  bool_decide (sig_name sig = key_name key) && keyIdMatches sig key
  && verifyNoteSignature (signedText checkpoint) sig key.

Definition verifyCheckpointSignature (checkpoint : Checkpoint) (key : SignedNoteKey) : bool :=
  existsb (signed_by checkpoint key) (signatures checkpoint).

Definition is_type (key : SignedNoteKey) (t : Z) : bool :=
  match signatureType key with Some [b] => b2z b =? t | _ => false end.

Fixpoint first_cosignature (checkpoint : Checkpoint) (key : SignedNoteKey)
    (sigs : list NoteSignature) : option Z :=
  match sigs with
  | [] => None
  | sig :: sigs =>
      if negb (signed_by checkpoint key sig) || negb (length (sig_signature sig) =? 72)%nat
      then first_cosignature checkpoint key sigs
      else
        let timestamp := uint_be (slice (sig_signature sig) 0 8) in
        if timestamp <=? MAX_SAFE_INTEGER then Some timestamp
        else first_cosignature checkpoint key sigs
  end.

Definition verifiedCosignatureTimestamp (checkpoint : Checkpoint) (key : SignedNoteKey) : option Z :=
  if negb (is_type key 4) then None
  else first_cosignature checkpoint key (signatures checkpoint).

End Signatures.

(** ** Lemmas *)

Lemma parseCheckpoint_body text c : parseCheckpoint text = Ok c ->
  exists o s r rest, split_on 10 (trimEnd (signedText c)) = o :: s :: r :: rest
    /\ origin c = o /\ o <> [] /\ s = dec (treeSize c) /\ 0 <= treeSize c <= MAX_SAFE_INTEGER
    /\ fromB64 r = Ok (rootHash c) /\ length (rootHash c) = 32%nat.
Proof.
  unfold parseCheckpoint. cbv zeta. intros H.
  destruct (split_on 10 (trimEnd (if _ : bool then _ else _))) as [|o [|s [|r rest]]] eqn:Eb;
    [discriminate H..|].
  apply bind_Ok in H as (? & Ho%throw_if_Ok & H).
  apply bind_Ok in H as (? & Hs%throw_if_Ok & H).
  apply bind_Ok in H as (? & Hn%throw_if_Ok & H).
  apply bind_Ok in H as (root & Hr & H).
  apply bind_Ok in H as (? & Hl%throw_if_Ok & H).
  apply bind_Ok in H as (sigs & _ & H). injection H as <-.
  apply negb_false_iff in Hs, Hn, Hl. apply isSafeInteger_spec in Hn. apply Nat.eqb_eq in Hl.
  exists o, s, r, rest. cbn [signedText origin treeSize rootHash].
  split; [exact Eb|]. split; [done|]. split; [by destruct o|].
  rewrite dec_digits_value by done. split; [done|]. split; [|done].
  split; [by apply digits_value_bounds, isDecimal_digits|lia].
Qed.

Lemma cosignature_message_inj t t' m m' : 0 <= t -> 0 <= t' ->
  cosignature_message t m = cosignature_message t' m' -> t = t' /\ m = m'.
Proof.
  intros Ht Ht' H. unfold cosignature_message in H.
  apply app_inv_head, app_inv_head, app_inv_head in H. cbn [app] in H.
  apply app_sep_inj in H as [Hd Hm].
  - split; [by apply dec_inj|done].
  - apply digits_no_unit; [done|]. by apply dec_spec.
  - apply digits_no_unit; [done|]. by apply dec_spec.
Qed.

Lemma uint_be_nonneg l : 0 <= uint_be l.
Proof.
  unfold uint_be. assert (forall acc, 0 <= acc -> 0 <= foldl (fun acc b => acc * 256 + b2z b) acc l) as H.
  { induction l as [|b l IH]; intros acc Ha; cbn; [done|]. apply IH. pose proof (b2z_range b). lia. }
  by apply H.
Qed.

Section SignaturesProps.
Context `{Ed : Ed25519}.

Lemma first_cosignature_Some c key sigs t : first_cosignature c key sigs = Some t ->
  exists sig, sig ∈ sigs /\ signed_by c key sig = true /\ length (sig_signature sig) = 72%nat
    /\ t = uint_be (slice (sig_signature sig) 0 8) /\ 0 <= t <= MAX_SAFE_INTEGER.
Proof.
  induction sigs as [|sig sigs IH]; cbn [first_cosignature]; [done|].
  destruct (negb _ || negb _) eqn:E.
  { intros H. destruct (IH H) as (x & ? & ?). exists x. split; [by right|done]. }
  apply orb_false_iff in E as [E1%negb_false_iff E2%negb_false_iff]. apply Nat.eqb_eq in E2.
  destruct (Z.leb_spec (uint_be (slice (sig_signature sig) 0 8)) MAX_SAFE_INTEGER) as [Hle|Hgt].
  - intros [= <-]. exists sig. pose proof (uint_be_nonneg (slice (sig_signature sig) 0 8)).
    split; [by left|]. done.
  - intros H. destruct (IH H) as (x & ? & ?). exists x. split; [by right|done].
Qed.

(** ** Properties *)

(** The text that a checkpoint's signatures cover determines the tree head: two
    accepted checkpoints with the same signed text have the same origin, tree
    size and root hash. *)
Theorem parseCheckpoint_signed_text_binds text1 text2 c1 c2 :
  parseCheckpoint text1 = Ok c1 -> parseCheckpoint text2 = Ok c2 ->
  signedText c1 = signedText c2 ->
  origin c1 = origin c2 /\ treeSize c1 = treeSize c2 /\ rootHash c1 = rootHash c2.
Proof.
  intros (o1 & s1 & r1 & rest1 & E1 & Ho1 & _ & Hs1 & ? & Hr1 & _)%parseCheckpoint_body
         (o2 & s2 & r2 & rest2 & E2 & Ho2 & _ & Hs2 & ? & Hr2 & _)%parseCheckpoint_body Ht.
  rewrite Ht, E2 in E1. injection E1 as -> -> -> ->.
  split; [congruence|]. split; [apply dec_inj; (lia || congruence)|congruence].
Qed.

(** An accepted cosignature time is the time the witness signed: some signature
    of the checkpoint under the witness's name and key id verifies, with the
    witness's Ed25519 key, over the [cosignature/v1] message that states exactly
    this time and the checkpoint's signed text. *)
Theorem verifiedCosignatureTimestamp_signed checkpoint key t :
  verifiedCosignatureTimestamp checkpoint key = Some t ->
  0 <= t <= MAX_SAFE_INTEGER /\
  exists sig, sig ∈ signatures checkpoint /\ sig_name sig = key_name key
    /\ keyIdMatches sig key = true
    /\ ed25519_verify (keyBytes key) (utf8_encode (cosignature_message t (signedText checkpoint)))
         (slice_from (sig_signature sig) 8) = true.
Proof.
  unfold verifiedCosignatureTimestamp. destruct (is_type key 4) eqn:Ht; cbn [negb]; [|done].
  intros (sig & Hin & Hs & Hl & -> & Hb)%first_cosignature_Some. split; [done|].
  unfold signed_by in Hs. apply andb_true_iff in Hs as [[Hn%bool_decide_eq_true Hk]%andb_true_iff Hv].
  exists sig. split; [done|]. split; [done|]. split; [done|].
  unfold verifyNoteSignature in Hv. unfold is_type in Ht.
  destruct (signatureType key) as [[|b [|]]|]; try done. apply Z.eqb_eq in Ht. rewrite Ht, Hl in Hv.
  destruct (length (keyBytes key) =? 32)%nat; cbn [negb] in Hv; [|done].
  change (4 =? 1) with false in Hv. change (4 =? 4) with true in Hv. cbn [negb length Nat.eqb] in Hv.
  destruct (2 ^ 63 - 1 <? _); [done|exact Hv].
Qed.

End SignaturesProps.

(** *** Witnesses *)

Definition example_root : jsstr := js "AAAAAAAAAAAAAAAAAAAAAAAAAAAAAAAAAAAAAAAAAAA=".
Definition example_note : jsstr :=
  js "log.example/a" ++ [10] ++ js "7" ++ [10] ++ example_root ++ [10; 10].

Definition example_checkpoint : Checkpoint :=
  mkCheckpoint (js "log.example/a") 7 (repeat x00 32) []
    (js "log.example/a" ++ [10] ++ js "7" ++ [10] ++ example_root ++ [10]).

Lemma parseCheckpoint_signed_text_binds_witness :
  let c := example_checkpoint in
  parseCheckpoint example_note = Ok c
  /\ (origin c = origin c /\ treeSize c = treeSize c /\ rootHash c = rootHash c).
Proof.
  cbv zeta. split; [vm_compute; reflexivity|].
  apply (parseCheckpoint_signed_text_binds example_note (example_note ++ [10]));
    [vm_compute; reflexivity..|reflexivity].
Defined.

(** A toy scheme: the signature of a message is its byte sum, repeated. *)
Definition ToyEd25519 : Ed25519 := {|
  ed25519_verify := fun key m s =>
    bool_decide (s = repeat (z2b (foldl (fun a b => a + b2z b) 0 (key ++ m))) 64) |}.

Definition toy_sign (key : bytes) (m : bytes) : bytes :=
  repeat (z2b (foldl (fun a b => a + b2z b) 0 (key ++ m))) 64.

Definition toy_witness_key : SignedNoteKey :=
  mkSignedNoteKey (js "witness.example/w") (repeat x07 32) None (Some [x04]).
Definition toy_cosigned : Checkpoint :=
  mkCheckpoint (js "log.example/a") 7 (repeat x00 32)
    [mkNoteSignature (js "witness.example/w") None
       (repeat x00 6 ++ [x01; x02] ++
        toy_sign (repeat x07 32) (utf8_encode (cosignature_message 258 (js "text")))) []]
    (js "text").

Lemma verifiedCosignatureTimestamp_signed_witness :
  verifiedCosignatureTimestamp (Ed := ToyEd25519) toy_cosigned toy_witness_key = Some 258
  /\ 0 <= 258 <= MAX_SAFE_INTEGER.
Proof.
  split; [vm_compute; reflexivity|].
  apply (verifiedCosignatureTimestamp_signed (Ed := ToyEd25519) toy_cosigned toy_witness_key 258).
  vm_compute. reflexivity.
Defined.
