(* ===== verification/Policy.v ===== *)
(** Local checkpoint policy: [log-c2sp-tlog/src/policy.ts]. *)

From S2P Require Import Prelude JsString Base64 Sha256 Merkle Url Checkpoint.

(** ** Data

    Keys are given parsed or as text. *)

Definition key_or_text : Type := SignedNoteKey + jsstr.

Inductive QuorumRule (K : Type) :=
  | QNone
  | QWitness (key : K)
  | QThreshold (threshold : Z) (members : list (QuorumRule K)).
Arguments QNone {K}.
Arguments QWitness {K} key.
Arguments QThreshold {K} threshold members.

Definition C2spTlogQuorumRule : Type := QuorumRule key_or_text.
Definition NormalizedQuorumRule : Type := QuorumRule SignedNoteKey.

Record C2spTlogOriginPolicy := mkOriginPolicy {
  op_logKeys : list key_or_text;
  op_witnessKeys : option (list key_or_text);
  op_quorum : option Z;
  op_quorumRule : option C2spTlogQuorumRule;
  op_unchained : option bool
}.

Record C2spTlogPolicy := mkPolicy {
  policy_scope : option jsstr;
  policy_origins : gmap jsstr C2spTlogOriginPolicy
}.

Record NormalizedOriginPolicy := mkNormalizedOriginPolicy {
  np_logKeys : list SignedNoteKey;
  np_witnessKeys : list SignedNoteKey;
  np_quorum : Z;
  np_quorumRule : NormalizedQuorumRule;
  np_unchained : bool
}.

(** A [Date]: its time value in milliseconds, or an invalid date. *)
Notation jsdate := (option Z) (only parsing).
Definition newDate (ms : Z) : jsdate :=
  if (- 8640000000000000 <=? ms) && (ms <=? 8640000000000000) then Some ms else None.

Record CheckpointPolicyResult := mkCheckpointPolicyResult {
  acceptedWitnessTimestamps : list Z;
  checkpointWitnessTime : option jsdate
}.

(** The names that every object literal inherits. *)
Definition proto_names : list jsstr :=
  map js ["__defineGetter__"; "__defineSetter__"; "__lookupGetter__"; "__lookupSetter__";
          "__proto__"; "constructor"; "hasOwnProperty"; "isPrototypeOf";
          "propertyIsEnumerable"; "toLocaleString"; "toString"; "valueOf"]%string.

(** [origins[name]]: an own policy, [undefined], or (for an inherited name) a
    value without policy members, whose use throws a [TypeError]. *)
Definition get_origin (origins : gmap jsstr C2spTlogOriginPolicy) (name : jsstr)
    : res (option C2spTlogOriginPolicy) :=
  match origins !! name with
  | Some p => Ok (Some p)
  | None => if bool_decide (name ∈ proto_names) then Throw (EError "TypeError") else Ok None
  end.

(** ** Keys *)

(** [`${key.kind}\0${hex}`]; the kind is always [ed25519]. *)
Definition keyIdentity (key : SignedNoteKey) : jsstr :=
  js "ed25519" ++ [0] ++ to_hex (keyBytes key).

Definition assertDistinctUnderlyingKeys (keys : list SignedNoteKey) : res unit :=
  throw_if (negb (distinct (map keyIdentity keys)))
    (C2spTlogVerificationError "keys must be distinct by underlying public key").

Definition asKey (k : key_or_text) : res SignedNoteKey :=
  match k with inl k => Ok k | inr text => parseSignedNoteVerifierKey text end.

(** [key.signatureType !== undefined && (length !== 1 || [0] !== 0x01)] *)
Definition wrong_log_type (key : SignedNoteKey) : bool :=
  match signatureType key with Some _ => negb (is_type key 1) | None => false end.
(** [key.signatureType?.length !== 1 || key.signatureType[0] !== 0x04] *)
Definition wrong_witness_type (key : SignedNoteKey) : bool := negb (is_type key 4).

(** ** Quorum rules *)

Fixpoint normalizeQuorumRule (rule : C2spTlogQuorumRule) : res NormalizedQuorumRule :=
  match rule with
  | QNone => Ok QNone
  | QWitness key => key ← asKey key; Ok (QWitness key)
  | QThreshold threshold members =>
      throw_if (negb (isSafeInteger threshold) || (threshold <? 1) || (zlen members <? threshold))
        (C2spTlogVerificationError "checkpoint quorum rule has an invalid threshold");;
      members ← map_res normalizeQuorumRule members;
      Ok (QThreshold threshold members)
  end.

Definition flatQuorumRule (witnessKeys : list SignedNoteKey) (quorum : Z) : C2spTlogQuorumRule :=
  if quorum =? 0 then QNone
  else QThreshold quorum (map (fun key => QWitness (inl key)) witnessKeys).

Fixpoint collectWitnessKeys (rule : NormalizedQuorumRule) : list SignedNoteKey :=
  match rule with
  | QNone => []
  | QWitness key => [key]
  | QThreshold _ members => flat_map collectWitnessKeys members
  end.

Definition topLevelThreshold (rule : NormalizedQuorumRule) : Z :=
  match rule with
  | QNone => 0
  | QWitness _ => 1
  | QThreshold threshold _ => threshold
  end.

Definition is_witness {K} (rule : QuorumRule K) : bool :=
  match rule with QWitness _ => true | _ => false end.

Definition legacyQuorum (rule : C2spTlogQuorumRule) : option Z :=
  match rule with
  | QNone => Some 0
  | QWitness _ => Some 1
  | QThreshold threshold members => if forallb is_witness members then Some threshold else None
  end.

(** [Math.min(...l)]; [None] is [Infinity], the minimum of no numbers. *)
Definition min_ext (a b : option Z) : option Z :=
  match a, b with
  | None, b => b
  | a, None => a
  | Some a, Some b => Some (Z.min a b)
  end.
Definition math_min (l : list Z) : option Z := foldr (fun t m => min_ext (Some t) m) None l.

Definition ext_ltb (a b : option Z) : bool :=
  match a, b with
  | None, _ => false
  | Some _, None => true
  | Some a, Some b => a <? b
  end.

(** The comparator [Math.min(...b) - Math.min(...a)] puts [a] strictly first. *)
Definition later (a b : list Z) : bool := ext_ltb (math_min b) (math_min a).

Section Quorum.
Context `{Ed : Ed25519}.

Fixpoint evaluateQuorum (rule : NormalizedQuorumRule) (checkpoint : Checkpoint)
    (nowMs maxClockSkewMs : Z) : option (list Z) :=
  match rule with
  | QNone => Some []
  | QWitness key =>
      match verifiedCosignatureTimestamp checkpoint key with
      | Some timestamp =>
          if timestamp * 1000 <=? nowMs + maxClockSkewMs then Some [timestamp] else None
      | None => None
      end
  | QThreshold threshold members =>
      let satisfied :=
        sort_by later
          (omap id (map (fun member => evaluateQuorum member checkpoint nowMs maxClockSkewMs) members)) in
      if zlen satisfied <? threshold then None
      else Some (concat (slice satisfied 0 threshold))
  end.
End Quorum.

(** ** Policy enforcement *)

Definition normalizedOriginPolicy (policy : C2spTlogPolicy) (origin : jsstr)
    : res NormalizedOriginPolicy :=
  found ← get_origin (policy_origins policy) origin;
  p ← of_option found (C2spTlogVerificationError "no local C2SP policy for origin");
  logKeys ← map_res asKey (op_logKeys p);
  witnessKeys ← map_res asKey (default [] (op_witnessKeys p));
  let quorum := default 0 (op_quorum p) in
  throw_if (negb (isSafeInteger quorum) || (quorum <? 0))
    (C2spTlogVerificationError "checkpoint witness quorum must be a non-negative integer");;
  throw_if (zlen witnessKeys <? quorum)
    (C2spTlogVerificationError "checkpoint witness quorum exceeds configured witnesses");;
  throw_if (length logKeys =? 0)%nat
    (C2spTlogVerificationError "checkpoint policy requires at least one log key");;
  throw_if (existsb (fun key => negb (bool_decide (key_name key = origin))) logKeys)
    (C2spTlogVerificationError "checkpoint log key name must match its origin");;
  throw_if (existsb wrong_log_type logKeys)
    (C2spTlogVerificationError "checkpoint log keys must use the supported log signature type 0x01");;
  throw_if (existsb wrong_witness_type witnessKeys)
    (C2spTlogVerificationError "checkpoint witness keys must use the supported cosignature type 0x04");;
  assertDistinctUnderlyingKeys logKeys;;
  assertDistinctUnderlyingKeys witnessKeys;;
  let logIdentities := map keyIdentity logKeys in
  throw_if (existsb (fun key => bool_decide (keyIdentity key ∈ logIdentities)) witnessKeys)
    (C2spTlogVerificationError "checkpoint log and witness keys must use distinct underlying public keys");;
  quorumRule ← normalizeQuorumRule (default (flatQuorumRule witnessKeys quorum) (op_quorumRule p));
  let ruleWitnessKeys := collectWitnessKeys quorumRule in
  throw_if (existsb wrong_witness_type ruleWitnessKeys)
    (C2spTlogVerificationError "checkpoint quorum witness keys must use the supported cosignature type 0x04");;
  assertDistinctUnderlyingKeys ruleWitnessKeys;;
  throw_if (existsb (fun key => bool_decide (keyIdentity key ∈ logIdentities)) ruleWitnessKeys)
    (C2spTlogVerificationError "checkpoint log and witness keys must use distinct underlying public keys");;
  Ok (mkNormalizedOriginPolicy logKeys ruleWitnessKeys (topLevelThreshold quorumRule) quorumRule
        (default false (op_unchained p))).

Section Enforce.
Context `{H256 : Hash256} `{Ed : Ed25519}.

Definition enforceCheckpointPolicy (checkpoint : Checkpoint) (org : jsstr)
    (policy : C2spTlogPolicy) (scope : jsstr) (nowMs maxClockSkewMs : Z) : res CheckpointPolicyResult :=
  throw_if (negb (isSafeInteger maxClockSkewMs) || (maxClockSkewMs <? 0))
    (C2spTlogVerificationError "maximum clock skew must be a non-negative integer");;
  throw_if (match policy_scope policy with Some s => negb (bool_decide (s = scope)) | None => false end)
    (C2spTlogVerificationError "C2SP policy scope does not match");;
  throw_if (negb (bool_decide (origin checkpoint = org)))
    (C2spTlogVerificationError "checkpoint origin mismatch");;
  throw_if ((treeSize checkpoint =? 0) && negb (bool_decide (rootHash checkpoint = sha256 [])))
    (C2spTlogVerificationError "empty C2SP checkpoint must have the empty-tree root");;
  p ← normalizedOriginPolicy policy org;
  let acceptedLogKeys :=
    if bool_decide (scope = js "public")
    then List.filter (fun key => match signatureType key with Some (b :: _) => b2z b =? 1 | _ => false end)
           (np_logKeys p)
    else np_logKeys p in
  throw_if (negb (existsb (verifyCheckpointSignature checkpoint) acceptedLogKeys))
    (C2spTlogVerificationError "checkpoint missing accepted log signature");;
  throw_if (bool_decide (scope = js "public") && match np_quorumRule p with QNone => true | _ => false end)
    (C2spTlogVerificationError "public C2SP policy requires a non-zero witness quorum");;
  timestamps ← of_option (evaluateQuorum (np_quorumRule p) checkpoint nowMs maxClockSkewMs)
    (C2spTlogVerificationError "checkpoint witness quorum not satisfied by valid timestamped cosignatures");
  Ok (mkCheckpointPolicyResult timestamps
        ((fun witnessSeconds => newDate (witnessSeconds * 1000)) <$> math_min timestamps)).
End Enforce.

(** ** Policy files *)

Definition assertPolicyCharacters (text : jsstr) : res unit :=
  throw_if (existsb (fun code => negb ((code =? 9) || (code =? 10) || (32 <=? code))) text)
    (C2spTlogVerificationError "invalid C2SP policy character").

Definition is_blank (u : Z) : bool := (u =? 9) || (u =? 32).

(** [rawLine.replace(/^[\t ]+|[\t ]+$/g, '')] *)
Definition strip_blanks (s : jsstr) : jsstr :=
  rev (dropWhile is_blank (rev (dropWhile is_blank s))).

Definition parseDecimalThreshold (value : jsstr) : res Z :=
  throw_if (negb (isDecimal value)) (EError "invalid group threshold");;
  let threshold := digits_value value in
  throw_if (negb (isSafeInteger threshold)) (EError "invalid group threshold");;
  Ok threshold.

(** A [Map] in insertion order; the keys added are always new. *)
Definition assoc_get {V} (m : list (jsstr * V)) (name : jsstr) : option V :=
  snd <$> List.find (fun kv => bool_decide (fst kv = name)) m.
Definition assoc_has {V} (m : list (jsstr * V)) (name : jsstr) : bool :=
  existsb (fun kv => bool_decide (fst kv = name)) m.

Record policy_file := mkPolicyFile {
  pf_logs : list SignedNoteKey;
  pf_witnesses : list (jsstr * SignedNoteKey);
  pf_rules : list (jsstr * C2spTlogQuorumRule);
  pf_quorumRule : option C2spTlogQuorumRule;
  pf_quorumLines : Z
}.

Definition assertNewPolicyName (name : jsstr) (pf : policy_file) : res unit :=
  throw_if (bool_decide (name = js "none")) (EError "none is a reserved policy name");;
  throw_if (assoc_has (pf_witnesses pf) name || assoc_has (pf_rules pf) name)
    (EError "duplicate policy name").

Definition add_log (pf : policy_file) (key : SignedNoteKey) : policy_file :=
  mkPolicyFile (pf_logs pf ++ [key]) (pf_witnesses pf) (pf_rules pf) (pf_quorumRule pf) (pf_quorumLines pf).
Definition add_witness (pf : policy_file) (name : jsstr) (key : SignedNoteKey) : policy_file :=
  mkPolicyFile (pf_logs pf) (pf_witnesses pf ++ [(name, key)])
    (pf_rules pf ++ [(name, QWitness (inl key))]) (pf_quorumRule pf) (pf_quorumLines pf).
Definition add_group (pf : policy_file) (name : jsstr) (rule : C2spTlogQuorumRule) : policy_file :=
  mkPolicyFile (pf_logs pf) (pf_witnesses pf) (pf_rules pf ++ [(name, rule)]) (pf_quorumRule pf) (pf_quorumLines pf).
Definition set_quorum (pf : policy_file) (rule : C2spTlogQuorumRule) : policy_file :=
  mkPolicyFile (pf_logs pf) (pf_witnesses pf) (pf_rules pf) (Some rule) (pf_quorumLines pf + 1).

(** A [group] line: name, threshold and members. *)
Definition group_rule (pf : policy_file) (thresholdText : jsstr) (memberNames : list jsstr)
    : res C2spTlogQuorumRule :=
  throw_if (negb (distinct memberNames)) (EError "group members must be distinct");;
  members ← map_res (fun member => of_option (assoc_get (pf_rules pf) member)
                       (EError "group references unknown preceding witness or group")) memberNames;
  threshold ← (if bool_decide (thresholdText = js "any") then Ok 1
               else if bool_decide (thresholdText = js "all") then Ok (zlen members)
               else parseDecimalThreshold thresholdText);
  throw_if ((threshold <? 1) || (zlen members <? threshold)) (EError "invalid group threshold");;
  Ok (QThreshold threshold members).

(** The body of the [try] block for one line. *)
Definition policy_directive (pf : policy_file) (directive : jsstr) (parts : list jsstr) : res policy_file :=
  if bool_decide (directive = js "log") && ((length parts =? 1)%nat || (length parts =? 2)%nat) then
    key ← parseSignedNoteVerifierKey (nth 0 parts []);
    Ok (add_log pf key)
  else if bool_decide (directive = js "witness") && ((length parts =? 2)%nat || (length parts =? 3)%nat) then
    let name := nth 0 parts [] in
    assertNewPolicyName name pf;;
    key ← parseSignedNoteVerifierKey (nth 1 parts []);
    Ok (add_witness pf name key)
  else if bool_decide (directive = js "group") && (3 <=? length parts)%nat then
    let name := nth 0 parts [] in
    assertNewPolicyName name pf;;
    rule ← group_rule pf (nth 1 parts []) (drop 2 parts);
    Ok (add_group pf name rule)
  else if bool_decide (directive = js "quorum") && (length parts =? 1)%nat then
    throw_if (1 <? pf_quorumLines pf + 1) (EError "policy must contain exactly one quorum directive");;
    if bool_decide (nth 0 parts [] = js "none") then Ok (set_quorum pf QNone)
    else
      rule ← of_option (assoc_get (pf_rules pf) (nth 0 parts []))
        (EError "quorum references unknown preceding witness or group");
      Ok (set_quorum pf rule)
  else Throw (EError "unsupported directive or wrong number of fields").

Definition policy_line (pf : policy_file) (rawLine : jsstr) : res policy_file :=
  let line := strip_blanks rawLine in
  if (length line =? 0)%nat || startsWith line [35] then Ok pf
  else
    let parts := split_runs is_blank line in
    catch (policy_directive pf (nth 0 parts []) (drop 1 parts))
      (fun _ => Throw (C2spTlogVerificationError "invalid C2SP policy line")).

(** Adds a log key to the policy of its name. *)
Definition add_origin (witnessKeys : list SignedNoteKey) (quorum : option Z)
    (quorumRule : C2spTlogQuorumRule) (origins : gmap jsstr C2spTlogOriginPolicy)
    (log : SignedNoteKey) : res (gmap jsstr C2spTlogOriginPolicy) :=
  current ← get_origin origins (key_name log);
  Ok (<[ key_name log :=
         match current with
         | Some current =>
             mkOriginPolicy (op_logKeys current ++ [inl log]) (op_witnessKeys current)
               (op_quorum current) (op_quorumRule current) (op_unchained current)
         | None => mkOriginPolicy [inl log] (Some (map inl witnessKeys)) quorum (Some quorumRule) None
         end ]> origins).

Definition parseC2spPolicyFile (text : jsstr) : res C2spTlogPolicy :=
  assertPolicyCharacters text;;
  pf ← for_each policy_line (split_on 10 text) (mkPolicyFile [] [] [] None 0);
  quorumRule ← of_option (if pf_quorumLines pf =? 1 then pf_quorumRule pf else None)
    (C2spTlogVerificationError "C2SP policy requires exactly one quorum directive");
  let logs := pf_logs pf in
  let witnessKeys := map snd (pf_witnesses pf) in
  throw_if (existsb wrong_log_type logs)
    (C2spTlogVerificationError "C2SP policy log keys must use the supported log signature type 0x01");;
  throw_if (existsb wrong_witness_type witnessKeys)
    (C2spTlogVerificationError "C2SP policy witness keys must use the supported cosignature type 0x04");;
  assertDistinctUnderlyingKeys logs;;
  assertDistinctUnderlyingKeys witnessKeys;;
  let logIdentities := map keyIdentity logs in
  throw_if (existsb (fun key => bool_decide (keyIdentity key ∈ logIdentities)) witnessKeys)
    (C2spTlogVerificationError "C2SP policy log and witness keys must use distinct underlying public keys");;
  origins ← for_each (add_origin witnessKeys (legacyQuorum quorumRule) quorumRule) logs ∅;
  Ok (mkPolicy None origins).

(** ** Specification of the quorum rules *)

Section RuleInd.
Context {K : Type} (P : QuorumRule K -> Prop).
Context (Hnone : P QNone) (Hwit : forall key, P (QWitness key)).
Context (Hthr : forall t members, Forall P members -> P (QThreshold t members)).

Fixpoint QuorumRule_rule (rule : QuorumRule K) : P rule :=
  match rule with
  | QNone => Hnone
  | QWitness key => Hwit key
  | QThreshold t members =>
      Hthr t members
        ((fix all (l : list (QuorumRule K)) : Forall P l :=
            match l with
            | [] => Forall_nil_2 P
            | m :: l => Forall_cons_2 P m l (QuorumRule_rule m) (all l)
            end) members)
  end.
End RuleInd.

(** Thresholds are between one and the number of members. *)
Fixpoint wf_rule {K} (rule : QuorumRule K) : bool :=
  match rule with
  | QThreshold threshold members =>
      (1 <=? threshold) && (threshold <=? zlen members) && forallb wf_rule members
  | _ => true
  end.

Definition ext_le (a b : option Z) : Prop := ext_ltb b a = false.
#[export] Instance ext_le_dec a b : Decision (ext_le a b) := decide (ext_ltb b a = false).

Section Selects.
Context `{Ed : Ed25519} (checkpoint : Checkpoint) (latest : Z).

(** A choice of cosignature times that satisfies a rule: a threshold is met by
    as many of its members, each satisfied. *)
Inductive selects : NormalizedQuorumRule -> list Z -> Prop :=
  | sel_none : selects QNone []
  | sel_witness key t :
      verifiedCosignatureTimestamp checkpoint key = Some t -> t * 1000 <= latest ->
      selects (QWitness key) [t]
  | sel_threshold threshold members picks ts :
      picks_of members picks -> zlen picks = threshold -> ts ≡ₚ concat picks ->
      selects (QThreshold threshold members) ts
with picks_of : list NormalizedQuorumRule -> list (list Z) -> Prop :=
  | picks_nil : picks_of [] []
  | picks_skip m ms ps : picks_of ms ps -> picks_of (m :: ms) ps
  | picks_take m ms ts ps : selects m ts -> picks_of ms ps -> picks_of (m :: ms) (ts :: ps).

Scheme selects_mut := Induction for selects Sort Prop
  with picks_of_mut := Induction for picks_of Sort Prop.
End Selects.

(** ** Lemmas: minima *)

Lemma ext_le_refl a : ext_le a a.
Proof. destruct a as [a|]; cbn; [apply Z.ltb_irrefl|done]. Qed.

Lemma ext_le_trans a b c : ext_le a b -> ext_le b c -> ext_le a c.
Proof.
  unfold ext_le. destruct a as [a|], b as [b|], c as [c|]; cbn; try done.
  rewrite !Z.ltb_ge. lia.
Qed.

Lemma ext_le_min a b c : ext_le a (min_ext b c) <-> ext_le a b /\ ext_le a c.
Proof.
  unfold ext_le. destruct a as [a|], b as [b|], c as [c|]; cbn; rewrite ?Z.ltb_ge; intuition (lia || done).
Qed.

Lemma ext_le_math_min a l : ext_le a (math_min l) <-> Forall (fun t => ext_le a (Some t)) l.
Proof.
  induction l as [|t l IH]; [by split; [constructor|destruct a]|].
  change (math_min (t :: l)) with (min_ext (Some t) (math_min l)).
  by rewrite ext_le_min, Forall_cons, IH.
Qed.

Lemma ext_le_concat a ls :
  ext_le a (math_min (concat ls)) <-> Forall (fun l => ext_le a (math_min l)) ls.
Proof.
  induction ls as [|l ls IH]; [by split; [constructor|destruct a]|].
  cbn [concat]. rewrite Forall_cons, <-IH, !ext_le_math_min, Forall_app. done.
Qed.

Lemma math_min_perm l l' : l ≡ₚ l' -> math_min l = math_min l'.
Proof.
  induction 1 as [|t l l' _ IH|t u l|l l' l'' _ IH1 _ IH2]; [done| | |congruence].
  - change (min_ext (Some t) (math_min l) = min_ext (Some t) (math_min l')). congruence.
  - change (min_ext (Some u) (min_ext (Some t) (math_min l))
            = min_ext (Some t) (min_ext (Some u) (math_min l))).
    destruct (math_min l); cbn; f_equal; lia.
Qed.

(** ** Lemmas: the first [n] of the members sorted by their earliest time *)

Lemma later_sorted l : StronglySorted (fun a b => ext_le (math_min b) (math_min a)) (sort_by later l).
Proof.
  change (StronglySorted (not_before later) (sort_by later l)).
  apply sort_by_sorted; unfold not_before, later.
  - intros x y. destruct (math_min x), (math_min y); cbn; rewrite ?Z.ltb_lt, ?Z.ltb_ge; (lia || done).
  - intros x y z Hxy Hyz. by eapply (ext_le_trans (math_min z) (math_min y) (math_min x)).
Qed.

(** In a sorted list the elements above a bound come first. *)
Lemma sorted_take_above (m : option Z) s qs :
  StronglySorted (fun a b => ext_le (math_min b) (math_min a)) s ->
  qs ⊆+ s -> Forall (fun q => ext_le m (math_min q)) qs ->
  Forall (fun q => ext_le m (math_min q)) (take (length qs) s).
Proof.
  intros Hs. revert qs; induction Hs as [|a s Hs IH Ha]; intros qs Hq Hm.
  { destruct (length qs); constructor. }
  destruct qs as [|q qs]; [constructor|]. cbn [length take].
  destruct (decide (ext_le m (math_min a))) as [Hle|Hgt].
  - constructor; [done|]. apply submseteq_cons_r in Hq as [Hq|(k & Hp & Hk)].
    + replace (length qs) with (length (tail (q :: qs))) by done.
      apply IH; [|by apply Forall_cons in Hm as [_ ?]].
      eapply submseteq_trans; [|exact Hq]. cbn. by apply submseteq_cons.
    + assert (length qs = length k) as -> by (apply Permutation_length in Hp; by injection Hp).
      apply IH; [done|]. rewrite Hp in Hm. by apply Forall_cons in Hm as [_ ?].
  - exfalso. apply Hgt. apply Forall_cons in Hm as [Hm _].
    assert (Hin : q ∈ a :: s) by (eapply elem_of_submseteq; [by left|done]).
    apply elem_of_cons in Hin as [->|Hin]; [done|].
    rewrite Forall_forall in Ha. eapply ext_le_trans; [exact Hm|by apply Ha].
Qed.

(** ** Lemmas: evaluation *)

Section EvaluateProps.
Context `{Ed : Ed25519} (checkpoint : Checkpoint) (nowMs skew : Z).

Notation eval rule := (evaluateQuorum rule checkpoint nowMs skew).
Notation sel := (selects checkpoint (nowMs + skew)).
Notation picks := (picks_of checkpoint (nowMs + skew)).

Lemma picks_of_sublist ms qs :
  Forall (fun m => forall ts, eval m = Some ts -> sel m ts) ms ->
  qs `sublist_of` omap id (map (fun m => eval m) ms) -> picks ms qs.
Proof.
  intros Hm. revert qs; induction Hm as [|m ms Hm Hms IH]; intros qs; cbn.
  - intros ->%sublist_nil_r. constructor.
  - destruct (eval m) as [ts|] eqn:E; cbn; [|constructor; by apply IH].
    intros Hq. apply sublist_cons_r in Hq as [Hq|(k & -> & Hk)].
    + constructor. by apply IH.
    + constructor; [by apply Hm|by apply IH].
Qed.

Lemma evaluateQuorum_selects rule ts : wf_rule rule = true -> eval rule = Some ts -> sel rule ts.
Proof.
  revert ts; induction rule as [|key|th ms IH] using QuorumRule_rule; intros ts; cbn [evaluateQuorum wf_rule].
  - intros _ [= <-]. constructor.
  - intros _. destruct (verifiedCosignatureTimestamp _ _) as [t|] eqn:E; [|done].
    destruct (Z.leb_spec (t * 1000) (nowMs + skew)); [|done]. intros [= <-]. by constructor.
  - intros [[H1%Z.leb_le H2%Z.leb_le]%andb_true_iff Hw]%andb_true_iff.
    destruct (Z.ltb_spec (zlen (sort_by later (omap id (map (fun m => eval m) ms)))) th) as [|Hlen]; [done|].
    intros [= <-]. set (s := sort_by later _) in *.
    assert (Hsub : slice s 0 th ⊆+ omap id (map (fun m => eval m) ms)).
    { etrans; [unfold slice; cbn [drop Z.to_nat]; apply submseteq_take|].
      subst s. by rewrite sort_by_perm. }
    apply submseteq_sublist_r in Hsub as (qs & Hp & Hq).
    eapply (sel_threshold _ _ th ms qs).
    + apply picks_of_sublist; [|done]. apply forallb_true_Forall in Hw.
      rewrite Forall_forall in IH, Hw |- *. eauto.
    + unfold zlen. rewrite <-Hp. unfold slice, zlen in *.
      rewrite length_take, length_drop. lia.
    + by rewrite Hp.
Qed.

(** Every selection is matched by the evaluation with times that are no earlier. *)
Lemma selects_evaluateQuorum rule ts : sel rule ts -> wf_rule rule = true ->
  exists ts', eval rule = Some ts' /\ ext_le (math_min ts) (math_min ts').
Proof.
  intros H. revert rule ts H.
  apply (selects_mut _ _
    (fun rule ts _ => wf_rule rule = true ->
      exists ts', eval rule = Some ts' /\ ext_le (math_min ts) (math_min ts'))
    (fun ms ps _ => forallb wf_rule ms = true ->
      exists qs, qs `sublist_of` omap id (map (fun m => eval m) ms)
        /\ Forall2 (fun p q => ext_le (math_min p) (math_min q)) ps qs)).
  - intros _. by exists [].
  - intros key t E Ht _. cbn [evaluateQuorum]. rewrite E, (proj2 (Z.leb_le _ _) Ht).
    exists [t]. split; [done|apply ext_le_refl].
  - intros th ms ps ts _ IH Hl Hp Hw. cbn [wf_rule] in Hw.
    apply andb_true_iff in Hw as [[H1%Z.leb_le H2%Z.leb_le]%andb_true_iff Hw].
    destruct (IH Hw) as (qs & Hq & Hle). cbn [evaluateQuorum].
    set (sat := omap id _) in *. pose proof (Forall2_length _ _ _ Hle) as Hlq.
    assert (Hqs : qs ⊆+ sort_by later sat) by (rewrite sort_by_perm; by apply sublist_submseteq).
    pose proof (submseteq_length _ _ Hqs) as Hls.
    rewrite (proj2 (Z.ltb_ge _ _)) by (unfold zlen in *; lia). eexists. split; [reflexivity|].
    rewrite (math_min_perm _ _ Hp). unfold slice. cbn [drop Z.to_nat]. rewrite Z.sub_0_r.
    replace (Z.to_nat th) with (length qs) by (unfold zlen in *; lia).
    apply ext_le_concat. apply sorted_take_above; [apply later_sorted|done|].
    assert (Hall : Forall (fun p => ext_le (math_min (concat ps)) (math_min p)) ps)
      by (apply ext_le_concat, ext_le_refl).
    clear -Hall Hle. generalize dependent (math_min (concat ps)). intros m.
    induction Hle as [|p q ps qs Hpq _ IH]; intros H; [constructor|].
    apply Forall_cons in H as [Hp H]. constructor; [by eapply ext_le_trans|by apply IH].
  - intros _. exists []. split; [apply sublist_nil_l|constructor].
  - intros m ms ps _ IH [_ Hw]%andb_true_iff. destruct (IH Hw) as (qs & Hq & Hle).
    exists qs. split; [|done]. cbn. destruct (eval m); cbn; [by apply sublist_cons|done].
  - intros m ms ts ps _ IH1 _ IH2 [Hw1 Hw2]%andb_true_iff.
    destruct (IH1 Hw1) as (ts' & E & Hle). destruct (IH2 Hw2) as (qs & Hq & Hles).
    exists (ts' :: qs). cbn. rewrite E. cbn. split; [by apply sublist_skip|by constructor].
Qed.

(** The chosen times come from different members' keys. *)
Lemma selects_keys rule ts : sel rule ts ->
  exists keys, keys ⊆+ collectWitnessKeys rule
    /\ Forall2 (fun key t => verifiedCosignatureTimestamp checkpoint key = Some t
                             /\ t * 1000 <= nowMs + skew) keys ts.
Proof.
  intros H. revert rule ts H.
  apply (selects_mut _ _
    (fun rule ts _ => exists keys, keys ⊆+ collectWitnessKeys rule
      /\ Forall2 (fun key t => verifiedCosignatureTimestamp checkpoint key = Some t
                               /\ t * 1000 <= nowMs + skew) keys ts)
    (fun ms ps _ => exists keys, keys ⊆+ flat_map collectWitnessKeys ms
      /\ Forall2 (fun key t => verifiedCosignatureTimestamp checkpoint key = Some t
                               /\ t * 1000 <= nowMs + skew) keys (concat ps))).
  - exists []. split; [done|constructor].
  - intros key t E Ht. exists [key]. split; [done|by repeat constructor].
  - intros th ms ps ts _ (keys & Hk & Hf) _ Hp.
    symmetry in Hp. destruct (Forall2_perm_r _ _ _ _ Hf Hp) as (keys' & Hp' & Hf').
    exists keys'. split; [|done]. cbn [collectWitnessKeys]. by rewrite <-Hp'.
  - exists []. split; [done|constructor].
  - intros m ms ps _ (keys & Hk & Hf). exists keys. cbn. split; [|done].
    rewrite Hk. apply submseteq_inserts_l. done.
  - intros m ms ts ps _ (k1 & Hk1 & Hf1) _ (k2 & Hk2 & Hf2).
    exists (k1 ++ k2). cbn. split; [by apply submseteq_app|by apply Forall2_app].
Qed.

End EvaluateProps.

(** ** Lemmas: normalization *)

Lemma normalizeQuorumRule_wf rule rule' : normalizeQuorumRule rule = Ok rule' -> wf_rule rule' = true.
Proof.
  revert rule'; induction rule as [|key|th ms IH] using QuorumRule_rule; intros rule'; cbn.
  - by intros [= <-].
  - intros (k & _ & [= <-])%bind_Ok. done.
  - intros (? & Hg%throw_if_Ok & H)%bind_Ok. apply bind_Ok in H as (ms' & Hm & [= <-]).
    apply orb_false_iff in Hg as [[_ H1%Z.ltb_ge]%orb_false_iff H2%Z.ltb_ge]. cbn.
    rewrite (proj2 (Z.leb_le _ _) H1). unfold zlen in *. rewrite (map_res_length _ _ _ Hm).
    apply andb_true_iff; split; [by apply Z.leb_le|]. apply forallb_true_Forall.
    apply map_res_Forall2 in Hm. clear -IH Hm.
    induction Hm as [|m m' ms ms' Hm _ IHm]; [constructor|].
    apply Forall_cons in IH as [H1 H2]. constructor; [by apply H1|by apply IHm].
Qed.

Lemma NoDup_map_inv {A B C} (f : A -> B) (g : B -> C) (l : list A) :
  NoDup (map (fun a => g (f a)) l) -> NoDup (map f l).
Proof.
  induction l as [|a l IH]; cbn; [constructor|]. rewrite !NoDup_cons.
  intros [Ha Hl]. split; [|by apply IH]. intros Hin. apply Ha.
  apply list_elem_of_In, in_map_iff in Hin as (b & Hb & Hin). rewrite <-Hb.
  apply list_elem_of_In, in_map_iff. by exists b.
Qed.

(** What an accepted origin policy guarantees. *)
Lemma normalizedOriginPolicy_Ok policy org np : normalizedOriginPolicy policy org = Ok np ->
  np_logKeys np <> [] /\ Forall (fun k => key_name k = org) (np_logKeys np)
  /\ Forall (fun k => wrong_log_type k = false) (np_logKeys np)
  /\ Forall (fun k => is_type k 4 = true) (np_witnessKeys np)
  /\ np_witnessKeys np = collectWitnessKeys (np_quorumRule np)
  /\ wf_rule (np_quorumRule np) = true
  /\ NoDup (map keyBytes (np_logKeys np)) /\ NoDup (map keyBytes (np_witnessKeys np))
  /\ (forall k w, k ∈ np_logKeys np -> w ∈ np_witnessKeys np -> keyBytes k <> keyBytes w).
Proof.
  unfold normalizedOriginPolicy, assertDistinctUnderlyingKeys. intros H.
  apply bind_Ok in H as (found & _ & H). apply bind_Ok in H as (p & _ & H).
  apply bind_Ok in H as (lk & _ & H). apply bind_Ok in H as (wk & _ & H). cbv zeta in H.
  do 2 apply bind_Ok in H as (? & _ & H).
  apply bind_Ok in H as (? & Hne%throw_if_Ok & H).
  apply bind_Ok in H as (? & Hnm%throw_if_Ok & H).
  apply bind_Ok in H as (? & Hlt%throw_if_Ok & H).
  apply bind_Ok in H as (? & _ & H).
  apply bind_Ok in H as (? & Hld%throw_if_Ok & H).
  do 2 apply bind_Ok in H as (? & _ & H).
  apply bind_Ok in H as (rule & Hr & H).
  apply bind_Ok in H as (? & Hwt%throw_if_Ok & H).
  apply bind_Ok in H as (? & Hwd%throw_if_Ok & H).
  apply bind_Ok in H as (? & Hdj%throw_if_Ok & H). injection H as <-.
  cbn [np_logKeys np_witnessKeys np_quorumRule].
  apply negb_false_iff, bool_decide_eq_true in Hld, Hwd.
  apply existsb_false_Forall in Hnm, Hlt, Hwt, Hdj.
  split_and!; try done.
  - by destruct lk.
  - eapply Forall_impl; [exact Hnm|]. cbn. intros k Hk. by bool_inv.
  - eapply Forall_impl; [exact Hwt|]. unfold wrong_witness_type. intros k Hk. by bool_inv.
  - by eapply normalizeQuorumRule_wf.
  - by apply (NoDup_map_inv keyBytes (fun b => js "ed25519" ++ [0] ++ to_hex b)).
  - by apply (NoDup_map_inv keyBytes (fun b => js "ed25519" ++ [0] ++ to_hex b)).
  - intros k w Hk Hw He. rewrite Forall_forall in Hdj. specialize (Hdj w Hw). cbn in Hdj.
    apply bool_decide_eq_false in Hdj. apply Hdj. unfold keyIdentity. rewrite <-He.
    apply list_elem_of_In, in_map_iff. exists k. split; [done|by apply list_elem_of_In].
Qed.

(** ** Properties *)

(** C23: the quorum evaluator implements the quorum rule and is optimal: it fails only
    when no choice of valid cosignatures satisfies the rule; otherwise it returns
    such a choice, and no other choice has a later earliest time (so the derived
    checkpoint time is the best one the cosignatures support). *)
Theorem evaluateQuorum_optimal `{Ed : Ed25519} rule checkpoint nowMs maxClockSkewMs :
  wf_rule rule = true ->
  match evaluateQuorum rule checkpoint nowMs maxClockSkewMs with
  | Some ts =>
      selects checkpoint (nowMs + maxClockSkewMs) rule ts
      /\ forall ts', selects checkpoint (nowMs + maxClockSkewMs) rule ts' ->
                     ext_le (math_min ts') (math_min ts)
  | None => forall ts', ~ selects checkpoint (nowMs + maxClockSkewMs) rule ts'
  end.
Proof.
  intros Hw. destruct (evaluateQuorum rule checkpoint nowMs maxClockSkewMs) as [ts|] eqn:E.
  - split; [by apply evaluateQuorum_selects|]. intros ts' Hs.
    destruct (selects_evaluateQuorum _ _ _ _ _ Hs Hw) as (ts0 & E' & Hle). congruence.
  - intros ts' Hs. destruct (selects_evaluateQuorum _ _ _ _ _ Hs Hw) as (ts0 & E' & Hle). congruence.
Qed.

(** C22: what an accepted checkpoint guarantees: it is for the expected origin and
    scope; a log key of the origin's policy signed it; the quorum rule is
    satisfied by cosignatures under pairwise distinct public keys, none of them
    the key of the log, all no later than the clock allows; in public scope the rule
    is not empty; and the witness time is the earliest accepted time. *)
Theorem enforceCheckpointPolicy_sound `{H256 : Hash256} `{Ed : Ed25519}
    checkpoint org policy scope nowMs maxClockSkewMs r :
  enforceCheckpointPolicy checkpoint org policy scope nowMs maxClockSkewMs = Ok r ->
  exists np, normalizedOriginPolicy policy org = Ok np
  /\ origin checkpoint = org
  /\ (forall s, policy_scope policy = Some s -> s = scope)
  /\ (treeSize checkpoint = 0 -> rootHash checkpoint = digest [])
  /\ (exists k, k ∈ np_logKeys np /\ key_name k = org /\ verifyCheckpointSignature checkpoint k = true)
  /\ (scope = js "public" -> np_quorumRule np <> QNone)
  /\ selects checkpoint (nowMs + maxClockSkewMs) (np_quorumRule np) (acceptedWitnessTimestamps r)
  /\ (exists keys, keys ⊆+ np_witnessKeys np /\ NoDup (map keyBytes keys)
        /\ (forall k w, k ∈ np_logKeys np -> w ∈ keys -> keyBytes k <> keyBytes w)
        /\ Forall2 (fun key t => verifiedCosignatureTimestamp checkpoint key = Some t
                                 /\ t * 1000 <= nowMs + maxClockSkewMs)
             keys (acceptedWitnessTimestamps r))
  /\ checkpointWitnessTime r
     = (fun s => newDate (s * 1000)) <$> math_min (acceptedWitnessTimestamps r).
Proof.
  unfold enforceCheckpointPolicy. intros H.
  apply bind_Ok in H as (? & _ & H).
  apply bind_Ok in H as (? & Hsc%throw_if_Ok & H).
  apply bind_Ok in H as (? & Ho%throw_if_Ok & H).
  apply bind_Ok in H as (? & He%throw_if_Ok & H).
  apply bind_Ok in H as (np & Hnp & H). cbv zeta in H.
  apply bind_Ok in H as (? & Hsig%throw_if_Ok & H).
  apply bind_Ok in H as (? & Hpub%throw_if_Ok & H).
  apply bind_Ok in H as (ts & Hts%of_option_Ok & H). injection H as <-.
  destruct (normalizedOriginPolicy_Ok _ _ _ Hnp) as (_ & Hnames & _ & _ & Hwk & Hwf & _ & Hnd & Hdis).
  exists np. cbn [acceptedWitnessTimestamps checkpointWitnessTime].
  assert (Hsel : selects checkpoint (nowMs + maxClockSkewMs) (np_quorumRule np) ts)
    by (by apply evaluateQuorum_selects).
  split; [done|]. split; [by bool_inv|]. split_and!; try done.
  - intros s Hs. rewrite Hs in Hsc. by bool_inv.
  - intros Hz. rewrite Hz in He. cbn in He. by bool_inv.
  - apply negb_false_iff, existsb_exists in Hsig as (k & Hk & Hv). exists k.
    assert (Hin : k ∈ np_logKeys np).
    { apply list_elem_of_In. case_bool_decide; [|done]. by apply filter_In in Hk as [? _]. }
    rewrite Forall_forall in Hnames. auto.
  - intros Hs Hn. rewrite Hn, (bool_decide_true _ Hs) in Hpub. done.
  - destruct (selects_keys _ _ _ _ _ Hsel) as (keys & Hk & Hf). rewrite <-Hwk in Hk.
    exists keys. split_and!; [done| | |done].
    + apply (fmap_submseteq keyBytes), submseteq_sublist_r in Hk as (k2 & Hp & Hsub).
      change (NoDup (keyBytes <$> keys)). rewrite Hp. by eapply sublist_NoDup.
    + intros k w Hk1 Hw. apply Hdis; [done|]. by eapply elem_of_submseteq.
Qed.

(** ** Witnesses *)

Definition toy_rule : NormalizedQuorumRule :=
  QThreshold 1 [QThreshold 1 [QWitness toy_witness_key]; QNone].

Lemma evaluateQuorum_optimal_witness :
  evaluateQuorum (Ed := ToyEd25519) toy_rule toy_cosigned 300000 0 = Some []
  /\ selects (Ed := ToyEd25519) toy_cosigned (300000 + 0) toy_rule [].
Proof.
  assert (E : evaluateQuorum (Ed := ToyEd25519) toy_rule toy_cosigned 300000 0 = Some [])
    by (vm_compute; reflexivity).
  split; [exact E|].
  pose proof (evaluateQuorum_optimal (Ed := ToyEd25519) toy_rule toy_cosigned 300000 0
                ltac:(reflexivity)) as H.
  rewrite E in H. apply H.
Defined.

(** A small log with one witness, under [testnet] policy. *)
Definition toy_log_key : SignedNoteKey :=
  mkSignedNoteKey (js "log.example/a") (repeat x03 32) None (Some [x01]).
Definition toy_policy : C2spTlogPolicy :=
  mkPolicy None {[ js "log.example/a" :=
    mkOriginPolicy [inl toy_log_key] (Some [inl toy_witness_key]) (Some 1) None None ]}.
Definition toy_checkpoint : Checkpoint :=
  mkCheckpoint (js "log.example/a") 7 (repeat x00 32)
    (mkNoteSignature (js "log.example/a") None
       (toy_sign (repeat x03 32) (utf8_encode (js "text"))) []
     :: signatures toy_cosigned) (js "text").

Lemma enforceCheckpointPolicy_sound_witness :
  let r := mkCheckpointPolicyResult [258] (Some (Some 258000)) in
  enforceCheckpointPolicy (H256 := Sha256_instance) (Ed := ToyEd25519)
    toy_checkpoint (js "log.example/a") toy_policy (js "public") 300000 0 = Ok r
  /\ exists np, normalizedOriginPolicy toy_policy (js "log.example/a") = Ok np
     /\ selects (Ed := ToyEd25519) toy_checkpoint 300000 (np_quorumRule np) (acceptedWitnessTimestamps r).
Proof.
  cbv zeta. split; [vm_compute; reflexivity|].
  destruct (enforceCheckpointPolicy_sound (H256 := Sha256_instance) (Ed := ToyEd25519)
    toy_checkpoint (js "log.example/a") toy_policy (js "public") 300000 0
    (mkCheckpointPolicyResult [258] (Some (Some 258000))))
    as (np & Hnp & _ & _ & _ & _ & _ & Hs & _); [vm_compute; reflexivity|].
  exists np. split; [exact Hnp|exact Hs].
Defined.

(** A policy file with a group, and one whose log is named like an inherited
    member of an object literal. *)
Definition vkey (name : string) (b : byte) : jsstr :=
  js name ++ js "+01020304+" ++ btoa (b :: repeat x05 32).
Definition policy_text (log : string) : jsstr :=
  js "# comment" ++ [10] ++ js "log " ++ vkey log x01 ++ [10]
  ++ js "witness w1 " ++ js "w.example+01020304+" ++ btoa (x04 :: repeat x06 32) ++ [10]
  ++ js "group g any w1 w1x" ++ [10].

Example parse_group_error :
  parseC2spPolicyFile (policy_text "log.example/a")
  = Throw (C2spTlogVerificationError "invalid C2SP policy line").
Proof. vm_compute. reflexivity. Qed.

Definition small_policy (log : string) : jsstr :=
  js "log " ++ vkey log x01 ++ [10]
  ++ js "witness w1 " ++ js "w.example+01020304+" ++ btoa (x04 :: repeat x06 32) ++ [10]
  ++ js "group g any w1" ++ [10] ++ js "quorum g" ++ [10].

Example parse_small_policy :
  match parseC2spPolicyFile (small_policy "log.example/a") with
  | Ok p => is_ok (normalizedOriginPolicy p (js "log.example/a"))
  | Throw _ => false
  end = true.
Proof. vm_compute. reflexivity. Qed.

(** A log whose name is inherited by object literals makes the parser throw a
    [TypeError] instead of its documented error. *)
Lemma parse_inherited_log_name :
  parseC2spPolicyFile (small_policy "constructor") = Throw (EError "TypeError").
Proof. vm_compute. reflexivity. Qed.
