(* ===== verification/Budget.v ===== *)
(** Cancellation and deadlines: [protocol/src/verification-budget.ts].

    An [AbortSignal] is seen by an operation through the moment it fires. *)

From S2P Require Import Prelude.

(** When the signal of an operation aborts: not at all, before the operation
    starts, while it is pending, or after it has settled and before its result
    is taken. *)
Inductive abort := Live | AbortedBefore | AbortedDuring | AbortedAfter.
#[export] Instance abort_eq_dec : EqDecision abort.
Proof. solve_decision. Defined.

Definition cancellationError : exn :=
  newVerificationError "verification deadline exceeded or canceled" RecordInvalid None true.

(** The mark of a cancellation is a private symbol on the error. *)
Definition isCancellation (reason : exn) : bool := bool_decide (reason = cancellationError).

(** An operation that is not started has no effect; one that is pending when the
    signal fires may have had its effect, but its result is lost. *)
Definition waitForVerification {A} (a : abort) (operation : res A) : res A :=
  match a with
  | Live => operation
  | AbortedBefore | AbortedDuring => Throw cancellationError
  | AbortedAfter => match operation with Ok _ => Throw cancellationError | Throw e => Throw e end
  end.

(** [timeoutMs] defaults to 30 seconds; [started] and [finished] are the clock
    readings before and after the operation. *)
Definition withVerificationBudget {A} (timeoutMs : option Z) (started finished : Z)
    (a : abort) (operation : res A) : res A :=
  let timeout := default 30000 timeoutMs in
  throw_if ((timeout <=? 0) || (2147483647 <? timeout))
    (EArgument "verification timeout must be finite and positive");;
  let deadline := started + timeout in
  result ← waitForVerification a operation;
  throw_if (deadline <=? finished)
    (newVerificationError "verification deadline exceeded" RecordInvalid None true);;
  Ok result.

Lemma waitForVerification_Ok {A} a (op : res A) x :
  waitForVerification a op = Ok x <-> a = Live /\ op = Ok x.
Proof. destruct a, op; cbn; naive_solver. Qed.

Lemma withVerificationBudget_Ok {A} timeoutMs started finished a (op : res A) x :
  withVerificationBudget timeoutMs started finished a op = Ok x <->
  0 < default 30000 timeoutMs <= 2147483647 /\ finished < started + default 30000 timeoutMs
  /\ a = Live /\ op = Ok x.
Proof.
  unfold withVerificationBudget. split.
  - intros ([] & Ht%throw_if_Ok & H)%bind_Ok. apply bind_Ok in H as (y & Hw & H).
    apply waitForVerification_Ok in Hw as [-> ->]. apply bind_Ok in H as ([] & Hd%throw_if_Ok & [= <-]).
    apply orb_false_iff in Ht as [?%Z.leb_gt ?%Z.ltb_ge]. apply Z.leb_gt in Hd. done.
  - intros (? & ? & -> & ->). rewrite (proj2 (Z.leb_gt _ _)), (proj2 (Z.ltb_ge _ _)) by lia.
    cbn. by rewrite (proj2 (Z.leb_gt _ _)) by lia.
Qed.
