(* ===== verification/CheckpointTrust.v ===== *)
(** Trusted checkpoints: the store, the verification of an advance and the
    compare-and-swap loop of [log-c2sp-tlog/src/checkpoint-trust.ts].

    Clients of one store run as state machines; a schedule is an explicit
    sequence of their steps, so that the theorems cover every interleaving. *)

From S2P Require Import Prelude JsString Sha256 HashTree Merkle Consistency Checkpoint Policy Budget.

(** ** Data *)

Record TrustedC2spCheckpoint := mkTrusted {
  tc_origin : jsstr;
  tc_treeSize : Z;
  tc_rootHash : bytes;
  tc_witnessTime : option Z      (* the time value of the [Date] *)
}.

#[export] Instance TrustedC2spCheckpoint_eq_dec : EqDecision TrustedC2spCheckpoint.
Proof. solve_decision. Defined.

Record IndexedEntry := mkIndexedEntry { ie_index : Z; ie_bytes : bytes }.

(** The error classes; the sizes and roots that a consistency error carries are
    left out. *)
Definition MissingC2spConsistencyEvidenceError (message : string) : exn :=
  log_error MissingC2spConsistencyEvidenceErrorClass false (Some INVALID_EVIDENCE) None message.
Definition C2spCheckpointConsistencyError (message : string) (category : LifecycleErrorCategory) : exn :=
  log_error C2spCheckpointConsistencyErrorClass false (Some category) None message.
Definition C2spCheckpointStoreError (message : string) : exn :=
  log_error C2spCheckpointStoreErrorClass false (Some CHECKPOINT_STORE_ERROR) None message.

Definition is_store_error (e : exn) : bool :=
  match e with
  | EVerification v => bool_decide (ve_class v = C2spCheckpointStoreErrorClass)
  | _ => false
  end.

(** What [signal.throwIfAborted()] throws. *)
Definition AbortError : exn := EError "AbortError".

Definition validateOrigin (origin : jsstr) : res unit :=
  throw_if (length (trim origin) =? 0)%nat (EArgument "trusted checkpoint origin must be nonempty").

(** A copy with its own [rootHash] and [witnessTime]. *)
Definition cloneCheckpoint (value : option TrustedC2spCheckpoint) : option TrustedC2spCheckpoint :=
  match value with
  | Some v => Some (mkTrusted (tc_origin v) (tc_treeSize v) (tc_rootHash v) (tc_witnessTime v))
  | None => None
  end.

(** [left.getTime() === right.getTime()]: an invalid date equals nothing. *)
Definition same_time (l r : option Z) : bool :=
  match l, r with Some l, Some r => l =? r | _, _ => false end.

Definition sameCheckpoint (left right : option TrustedC2spCheckpoint) : bool :=
  match left, right with
  | Some l, Some r =>
      bool_decide (tc_origin l = tc_origin r) && (tc_treeSize l =? tc_treeSize r)
      && same_time (tc_witnessTime l) (tc_witnessTime r)
      && equalBytes (tc_rootHash l) (tc_rootHash r)
  | None, None => true
  | _, _ => false
  end.

(** The [Map] of the in-memory store. *)
Notation store := (gmap jsstr TrustedC2spCheckpoint).

Section Trust.
Context `{H256 : Hash256}.

Definition validateCheckpoint (value : TrustedC2spCheckpoint) (origin : jsstr) : res unit :=
  validateOrigin origin;;
  throw_if (negb (bool_decide (tc_origin value = origin))) (EArgument "trusted checkpoint origin mismatch");;
  throw_if (negb (isSafeInteger (tc_treeSize value)) || (tc_treeSize value <? 0))
    (EArgument "trusted checkpoint tree size must be a non-negative safe integer");;
  throw_if (negb (length (tc_rootHash value) =? 32)%nat)
    (EArgument "trusted checkpoint root must be 32 bytes");;
  throw_if ((tc_treeSize value =? 0) && negb (equalBytes (tc_rootHash value) (merkleRootFromEntries [])))
    (EArgument "empty trusted checkpoint must have the empty-tree root");;
  throw_if (match tc_witnessTime value with Some t => negb (isSafeInteger t) | None => true end)
    (EArgument "trusted checkpoint witnessed time must be a valid Date").

(** ** [InMemoryTrustedC2spCheckpointStore] *)

Definition load (aborted : bool) (checkpoints : store) (origin : jsstr)
    : res (option TrustedC2spCheckpoint) :=
  throw_if aborted AbortError;;
  validateOrigin origin;;
  Ok (cloneCheckpoint (checkpoints !! origin)).

(** The result and the store after the call, which runs without interruption. *)
Definition compareAndSwap (aborted : bool) (checkpoints : store) (origin : jsstr)
    (expected : option TrustedC2spCheckpoint) (candidate : TrustedC2spCheckpoint) : res bool * store :=
  match throw_if aborted AbortError;;
        validateOrigin origin;;
        match expected with Some e => validateCheckpoint e origin | None => Ok tt end;;
        validateCheckpoint candidate origin with
  | Throw e => (Throw e, checkpoints)
  | Ok _ =>
      let current := checkpoints !! origin in
      if negb (sameCheckpoint current expected) then (Ok false, checkpoints)
      else match cloneCheckpoint (Some candidate) with
           | Some replacement => (Ok true, <[origin := replacement]> checkpoints)
           | None => (Ok true, checkpoints)
           end
  end.

(** ** Verification of an advance *)

Definition verifyCompleteEntriesPrefix (entries : list IndexedEntry)
    (checkpoint : TrustedC2spCheckpoint) : res unit :=
  let prefix := slice entries 0 (tc_treeSize checkpoint) in
  throw_if (negb (zlen prefix =? tc_treeSize checkpoint)
            || existsb (fun p => negb (ie_index (snd p) =? Z.of_nat (fst p))) (imap pair prefix))
    (C2spTlogVerificationError "complete scan does not contain the checkpoint prefix");;
  throw_if (negb (equalBytes (merkleRootFromEntries (map ie_bytes prefix)) (tc_rootHash checkpoint)))
    (C2spTlogVerificationError "complete scan prefix does not match the checkpoint").

(** The evidence a caller supplies: entries of a complete scan, a source of
    consistency proofs, hash tiles. *)
Record AdvanceOptions := mkAdvanceOptions {
  consistencyProofSource : option (Z -> Z -> res (list bytes));
  completeEntries : option (list IndexedEntry);
  tilePrefixRoot : option (TrustedC2spCheckpoint -> Z -> res bytes)
}.

Definition by_index (a b : IndexedEntry) : bool := ie_index a <? ie_index b.

Definition verifyCheckpointAdvance (previous : option TrustedC2spCheckpoint)
    (candidate : TrustedC2spCheckpoint) (options : AdvanceOptions) : res unit :=
  let completeEntries := sort_by by_index <$> completeEntries options in
  match completeEntries with
  | Some entries => verifyCompleteEntriesPrefix entries candidate
  | None => Ok tt
  end;;
  match previous with
  | None => Ok tt
  | Some previous =>
      if tc_treeSize candidate <? tc_treeSize previous then
        Throw (C2spCheckpointConsistencyError "C2SP checkpoint rollback detected" LOG_ROLLBACK)
      else if tc_treeSize candidate =? tc_treeSize previous then
        throw_if (negb (equalBytes (tc_rootHash candidate) (tc_rootHash previous)))
          (C2spCheckpointConsistencyError "equal-size C2SP checkpoint has a different root" LOG_FORK)
      else if tc_treeSize previous =? 0 then Ok tt
      else
        match completeEntries with
        | Some entries =>
            catch (verifyCompleteEntriesPrefix entries previous)
              (fun _ => Throw (C2spCheckpointConsistencyError
                "complete scan contradicts the previously trusted checkpoint" LOG_INCONSISTENT))
        | None =>
            match consistencyProofSource options with
            | Some fetchConsistencyProof =>
                proof ← catch (fetchConsistencyProof (tc_treeSize previous) (tc_treeSize candidate))
                          (fun cause => Throw (c2spLogError "C2SP consistency proof is unavailable" cause true));
                throw_if (negb (verifyC2spConsistencyProof (tc_treeSize previous) (tc_treeSize candidate)
                                  (tc_rootHash previous) (tc_rootHash candidate) proof))
                  (C2spCheckpointConsistencyError "invalid C2SP checkpoint consistency proof" LOG_INCONSISTENT)
            | None =>
                match tilePrefixRoot options with
                | Some tilePrefixRoot =>
                    root ← tilePrefixRoot candidate (tc_treeSize previous);
                    throw_if (negb (equalBytes root (tc_rootHash previous)))
                      (C2spCheckpointConsistencyError
                         "candidate-authenticated hash tiles contradict the previously trusted checkpoint"
                         LOG_INCONSISTENT)
                | None =>
                    Throw (MissingC2spConsistencyEvidenceError
                      "newer C2SP checkpoint requires consistency proof or verified complete-scan prefix")
                end
            end
        end
  end.

(** ** The compare-and-swap loop

    [storeOperation] on an operation that started with a live signal. *)
Definition storeOperation {A} (a : abort) (operation : res A) : res A :=
  waitForVerification a
    (catch operation (fun cause =>
       if bool_decide (a = AbortedDuring) && bool_decide (cause = AbortError)
       then Throw (c2spLogError "checkpoint operation canceled" cause true)
       else Throw (if is_store_error cause then cause
                   else C2spCheckpointStoreError "trusted checkpoint storage failed"))).

(** Where a call of [advanceC2spCheckpoint] is: about to load, to verify, to swap,
    to yield after a lost race, or finished. *)
Inductive phase :=
  | Loading
  | Verifying (previous : option TrustedC2spCheckpoint)
  | Swapping (previous : option TrustedC2spCheckpoint)
  | Yielding
  | Done (result : res TrustedC2spCheckpoint).

(** [cl_options n] holds the answers of the evidence sources on the n-th round. *)
Record client := mkClient {
  cl_origin : jsstr;
  cl_candidate : TrustedC2spCheckpoint;
  cl_options : nat -> AdvanceOptions;
  cl_round : nat;
  cl_phase : phase
}.

Definition set_phase (c : client) (p : phase) : client :=
  mkClient (cl_origin c) (cl_candidate c) (cl_options c) (cl_round c) p.
Definition next_round (c : client) : client :=
  mkClient (cl_origin c) (cl_candidate c) (cl_options c) (S (cl_round c)) Loading.

(** The checks before the loop, and the client they start. *)
Definition advanceC2spCheckpoint (reference_origin : jsstr) (checkpoint : Checkpoint)
    (witnessTime : option Z) (options : nat -> AdvanceOptions) : res client :=
  throw_if ((treeSize checkpoint =? 0)
            && negb (equalBytes (rootHash checkpoint) (merkleRootFromEntries [])))
    (C2spTlogVerificationError "empty C2SP checkpoint must have the empty-tree root");;
  let input := mkTrusted (origin checkpoint) (treeSize checkpoint) (rootHash checkpoint) witnessTime in
  validateCheckpoint input reference_origin;;
  Ok (mkClient reference_origin input options 0 Loading).

(** One turn of the loop body, up to the next [await]. *)
Definition client_step (a : abort) (s : store) (c : client) : store * client :=
  match cl_phase c with
  | Loading =>
      match storeOperation a
              (loaded ← load false s (cl_origin c);
               match loaded with Some l => validateCheckpoint l (cl_origin c) | None => Ok tt end;;
               Ok (cloneCheckpoint loaded)) with
      | Ok previous => (s, set_phase c (Verifying previous))
      | Throw e => (s, set_phase c (Done (Throw e)))
      end
  | Verifying previous =>
      match waitForVerification a
              (verifyCheckpointAdvance previous (cl_candidate c) (cl_options c (cl_round c))) with
      | Ok _ => (s, set_phase c (Swapping previous))
      | Throw e => (s, set_phase c (Done (Throw e)))
      end
  | Swapping previous =>
      match a with
      | AbortedBefore => (s, set_phase c (Done (Throw cancellationError)))
      | _ =>
          let '(swapped, s) := compareAndSwap false s (cl_origin c) (cloneCheckpoint previous) (cl_candidate c) in
          match storeOperation a swapped with
          | Ok true => (s, set_phase c (Done (Ok (cl_candidate c))))
          | Ok false => (s, set_phase c Yielding)
          | Throw e => (s, set_phase c (Done (Throw e)))
          end
      end
  | Yielding =>
      match waitForVerification a (Ok tt) with
      | Ok _ => (s, next_round c)
      | Throw e => (s, set_phase c (Done (Throw e)))
      end
  | Done _ => (s, c)
  end.

(** Clients of one store, and a schedule of their steps. *)
Record system := mkSystem { sys_store : store; sys_clients : list client }.

Definition system_step (sys : system) (event : nat * abort) : system :=
  match sys_clients sys !! fst event with
  | Some c =>
      let '(s, c') := client_step (snd event) (sys_store sys) c in
      mkSystem s (<[fst event := c']> (sys_clients sys))
  | None => sys
  end.
Definition run (sys : system) (schedule : list (nat * abort)) : system :=
  foldl system_step sys schedule.

End Trust.

(** ** Lemmas: data *)

Lemma cloneCheckpoint_id v : cloneCheckpoint v = v.
Proof. by destruct v as [[]|]. Qed.

Lemma sameCheckpoint_eq l r : sameCheckpoint l r = true -> l = r.
Proof.
  destruct l as [[o1 n1 h1 t1]|], r as [[o2 n2 h2 t2]|]; cbn; try done.
  unfold equalBytes. intros H. bool_inv. destruct t1, t2; cbn in *; try done. bool_inv. congruence.
Qed.

Lemma sameCheckpoint_refl v : tc_witnessTime v <> None -> sameCheckpoint (Some v) (Some v) = true.
Proof.
  destruct v as [o n h [t|]]; cbn; [|done]. intros _. unfold equalBytes.
  by rewrite !bool_decide_true, !Z.eqb_refl by done.
Qed.

Section TrustProps.
Context `{H256 : Hash256}.

Lemma validateCheckpoint_Ok v o u : validateCheckpoint v o = Ok u ->
  tc_origin v = o /\ 0 <= tc_treeSize v <= MAX_SAFE_INTEGER /\ length (tc_rootHash v) = 32%nat
  /\ (tc_treeSize v = 0 -> tc_rootHash v = merkleRootFromEntries []) /\ tc_witnessTime v <> None.
Proof.
  unfold validateCheckpoint. intros H.
  apply bind_Ok in H as (? & _ & H).
  apply bind_Ok in H as (? & Ho%throw_if_Ok & H).
  apply bind_Ok in H as (? & Hn%throw_if_Ok & H).
  apply bind_Ok in H as (? & Hl%throw_if_Ok & H).
  apply bind_Ok in H as (? & He%throw_if_Ok & Hd%throw_if_Ok).
  unfold equalBytes in He. apply negb_false_iff, bool_decide_eq_true in Ho.
  apply orb_false_iff in Hn as [Hs%negb_false_iff%isSafeInteger_spec H0%Z.ltb_ge].
  apply negb_false_iff, Nat.eqb_eq in Hl.
  split; [done|]. split; [lia|]. split; [done|]. split.
  - intros Hz. rewrite Hz in He. cbn in He. by bool_inv.
  - by destruct (tc_witnessTime v).
Qed.

(** A successful swap replaces exactly the expected checkpoint. *)
Lemma compareAndSwap_cases aborted s o expected candidate :
  let '(r, s') := compareAndSwap aborted s o expected candidate in
  (r = Ok true /\ sameCheckpoint (s !! o) expected = true /\ s' = <[o := candidate]> s)
  \/ (r <> Ok true /\ s' = s /\ (r = Ok false -> sameCheckpoint (s !! o) expected = false)).
Proof.
  unfold compareAndSwap. destruct (throw_if aborted AbortError;; _) as [u|e]; [|by right].
  destruct (sameCheckpoint (s !! o) expected) eqn:E; cbn; [left|by right].
  split; [done|]. split; [done|]. by destruct candidate.
Qed.

(** ** Lemmas: one verified advance *)

(** Checkpoint [c] may follow checkpoint [p]. *)
Definition safe_advance (p c : TrustedC2spCheckpoint) : Prop :=
  exists options, verifyCheckpointAdvance (Some p) c options = Ok tt.

Lemma verifyCheckpointAdvance_sizes p c options :
  verifyCheckpointAdvance (Some p) c options = Ok tt ->
  tc_treeSize p <= tc_treeSize c /\ (tc_treeSize p = tc_treeSize c -> tc_rootHash p = tc_rootHash c).
Proof.
  unfold verifyCheckpointAdvance. intros (? & _ & H)%bind_Ok.
  destruct (Z.ltb_spec (tc_treeSize c) (tc_treeSize p)); [done|].
  destruct (Z.eqb_spec (tc_treeSize c) (tc_treeSize p)) as [E|]; [|lia].
  apply throw_if_Ok in H. unfold equalBytes in H. bool_inv. split; [lia|done].
Qed.

Definition advances (p c : TrustedC2spCheckpoint) : Prop :=
  tc_treeSize p <= tc_treeSize c /\ (tc_treeSize p = tc_treeSize c -> tc_rootHash p = tc_rootHash c).

Lemma safe_advance_advances p c : rtc safe_advance p c -> advances p c.
Proof.
  induction 1 as [p|p q c [options H] _ [IH1 IH2]]; [split; [lia|done]|].
  apply verifyCheckpointAdvance_sizes in H as [H1 H2]. split; [lia|].
  intros E. rewrite H2 by lia. apply IH2. lia.
Qed.

(** ** Lemmas: the system *)

(** A client about to swap has verified the advance it is about to make. *)
Definition verified (c : client) : Prop :=
  match cl_phase c with
  | Swapping (Some p) => safe_advance p (cl_candidate c)
  | _ => True
  end.

Lemma client_step_spec a s c : verified c ->
  let '(s', c') := client_step a s c in
  verified c' /\ cl_origin c' = cl_origin c /\
  (s' = s \/ (s' = <[cl_origin c := cl_candidate c]> s
     /\ forall p, s !! cl_origin c = Some p -> safe_advance p (cl_candidate c))).
Proof.
  unfold client_step, verified. destruct (cl_phase c) as [|previous|previous| |r] eqn:Ep; intros Hv.
  - destruct (storeOperation a _); cbn; auto.
  - destruct (waitForVerification a _) as [[]|] eqn:E; cbn; [|auto].
    apply waitForVerification_Ok in E as [-> E]. split; [|auto].
    destruct previous; [|done]. by eexists.
  - assert (Hcas : forall a', verified c -> let '(s', c') :=
      (let '(swapped, s') := compareAndSwap false s (cl_origin c) (cloneCheckpoint previous) (cl_candidate c) in
       match storeOperation a' swapped with
       | Ok true => (s', set_phase c (Done (Ok (cl_candidate c))))
       | Ok false => (s', set_phase c Yielding)
       | Throw e => (s', set_phase c (Done (Throw e)))
       end) in match cl_phase c' with Swapping (Some p) => safe_advance p (cl_candidate c') | _ => True end
         /\ cl_origin c' = cl_origin c /\
      (s' = s \/ (s' = <[cl_origin c := cl_candidate c]> s
        /\ forall p, s !! cl_origin c = Some p -> safe_advance p (cl_candidate c)))).
    { intros a' _. pose proof (compareAndSwap_cases false s (cl_origin c) (cloneCheckpoint previous) (cl_candidate c)) as H.
      destruct (compareAndSwap _ _ _ _ _) as [r s']. rewrite cloneCheckpoint_id in H.
      assert (Hs : s' = s \/ (s' = <[cl_origin c := cl_candidate c]> s
        /\ forall p, s !! cl_origin c = Some p -> safe_advance p (cl_candidate c))).
      { destruct H as [(_ & Hsame & ->)|(_ & -> & _)]; [right|by left]. split; [done|].
        intros p Hp. apply sameCheckpoint_eq in Hsame. rewrite Hp in Hsame. by subst previous. }
      destruct (storeOperation a' r) as [[]|]; cbn; auto. }
    unfold verified in Hcas. rewrite Ep in Hcas. destruct a; [by apply Hcas| |by apply Hcas..].
    cbn. auto.
  - destruct (waitForVerification a _); cbn; auto.
  - rewrite Ep. auto.
Qed.

Lemma run_invariant sys schedule o c :
  Forall verified (sys_clients sys) -> sys_store sys !! o = Some c ->
  Forall verified (sys_clients (run sys schedule)) /\
  exists c', sys_store (run sys schedule) !! o = Some c' /\ rtc safe_advance c c'.
Proof.
  revert sys c; induction schedule as [|[i a] schedule IH]; intros sys c Hv Hc; cbn.
  { split; [done|]. exists c. split; [done|apply rtc_refl]. }
  assert (H : Forall verified (sys_clients (system_step sys (i, a))) /\
    exists c', sys_store (system_step sys (i, a)) !! o = Some c' /\ rtc safe_advance c c').
  { unfold system_step. cbn [fst snd]. destruct (sys_clients sys !! i) as [cl|] eqn:Ei.
    - pose proof (client_step_spec a (sys_store sys) cl) as Hst.
      destruct (client_step a (sys_store sys) cl) as [s' cl']. cbn.
      destruct Hst as (Hv' & Ho & Hs).
      { rewrite Forall_lookup in Hv. by eapply Hv. }
      split; [by apply Forall_insert|]. destruct Hs as [->|[-> Hadv]].
      + exists c. split; [done|apply rtc_refl].
      + destruct (decide (cl_origin cl = o)) as [<-|Hne].
        * rewrite lookup_insert_eq. eexists. split; [done|]. apply rtc_once. by apply Hadv.
        * rewrite lookup_insert_ne by done. exists c. split; [done|apply rtc_refl].
    - split; [done|]. exists c. split; [done|apply rtc_refl]. }
  destruct H as (Hv1 & c1 & Hc1 & Hr1). destruct (IH _ _ Hv1 Hc1) as (Hv2 & c2 & Hc2 & Hr2).
  split; [done|]. exists c2. split; [done|by etrans].
Qed.

End TrustProps.

(** ** Lemmas: progress *)

Section Progress.
Context `{H256 : Hash256}.

Definition pending (c : client) : bool :=
  match cl_phase c with Done _ => false | _ => true end.

Definition fresh (s : store) (c : client) (previous : option TrustedC2spCheckpoint) : bool :=
  sameCheckpoint (s !! cl_origin c) previous.

(** The turns a client still needs if no other client swaps. *)
Definition rank (s : store) (c : client) : nat :=
  match cl_phase c with
  | Loading => 3
  | Verifying p => if fresh s c p then 2 else 6
  | Swapping p => if fresh s c p then 1 else 5
  | Yielding => 4
  | Done _ => 0
  end.

Lemma rank_insert s c o v : (rank (<[o := v]> s) c <= rank s c + 4)%nat.
Proof. unfold rank. destruct (cl_phase c); try lia; destruct (fresh _ _ _), (fresh _ _ _); lia. Qed.

(** A client's own turn brings it closer to its end; a turn that changes the store
    ends the client. *)
Local Ltac fin := split_and!; first [done | lia | intros; lia | by auto | by eauto 6].

Lemma client_step_progress a s c :
  let '(s', c') := client_step a s c in
  (pending c = true -> pending c' = true -> (rank s' c' < rank s c)%nat)
  /\ (pending c = false -> c' = c /\ s' = s)
  /\ (s' = s \/ (pending c' = false /\ exists o v, s' = <[o := v]> s)).
Proof.
  unfold client_step, rank, pending, fresh.
  destruct (cl_phase c) as [|previous|previous| |r] eqn:Ep.
  - destruct (storeOperation a _) as [p|] eqn:E; cbn; [|by fin].
    apply waitForVerification_Ok in E as [-> E]. apply catch_Ok in E as [E|(e & _ & E)].
    2: { match type of E with (if ?b then _ else _) = _ => destruct b; discriminate E end. }
    apply bind_Ok in E as (l & Hl & E). apply bind_Ok in E as (u & Hu & [= <-]).
    unfold load in Hl. res_inv. rewrite !cloneCheckpoint_id in *.
    assert (sameCheckpoint (s !! cl_origin c) (s !! cl_origin c) = true) as ->.
    { destruct (s !! cl_origin c) as [v|] eqn:Ev; [|done].
      apply sameCheckpoint_refl. by eapply validateCheckpoint_Ok. }
    by fin.
  - destruct (waitForVerification a _) as [[]|]; cbn; [|by fin].
    destruct (sameCheckpoint _ _); by fin.
  - destruct a; [| by cbn; fin | |];
      pose proof (compareAndSwap_cases false s (cl_origin c) (cloneCheckpoint previous) (cl_candidate c)) as H;
      destruct (compareAndSwap _ _ _ _ _) as [r s']; rewrite cloneCheckpoint_id in H;
      (destruct H as [(-> & _ & ->)|(Hr & -> & Hf)]; [by cbn; fin|]);
      destruct r as [[]|e]; cbn; try (by fin).
    all: rewrite Hf by done; by fin.
  - destruct (waitForVerification a _); cbn; [|by fin]. by fin.
  - rewrite Ep. by fin.
Qed.

Definition potential (sys : system) (c : client) : nat :=
  4 * count pending (sys_clients sys) + rank (sys_store sys) c.

(** What one event does to client [i]. *)
Lemma system_step_potential sys i c j a : sys_clients sys !! i = Some c ->
  exists c', sys_clients (system_step sys (j, a)) !! i = Some c'
  /\ (pending c = false -> c' = c)
  /\ (pending c' = true ->
      (potential (system_step sys (j, a)) c' + (if decide (j = i) then 1 else 0) <= potential sys c)%nat).
Proof.
  intros Hi. unfold system_step, potential. cbn [fst snd].
  destruct (sys_clients sys !! j) as [cj|] eqn:Hj.
  - pose proof (client_step_progress a (sys_store sys) cj) as Hp.
    destruct (client_step a (sys_store sys) cj) as [s' cj'].
    destruct Hp as (Hrank & Hdone & Hs). cbn [sys_clients sys_store].
    pose proof (count_insert pending _ _ _ cj' Hj) as Hcount.
    assert (Hle : (Nat.b2n (pending cj') <= Nat.b2n (pending cj))%nat).
    { destruct (pending cj) eqn:E; [destruct (pending cj'); cbn; lia|].
      destruct (Hdone eq_refl) as [-> _]. by rewrite E. }
    destruct (decide (j = i)) as [->|Hne].
    + assert (cj = c) as -> by congruence. exists cj'.
      split; [rewrite list_lookup_insert_eq; [done|by eapply lookup_lt_Some]|].
      split; [intros Hd; by apply Hdone|]. intros Hpend.
      destruct (pending c) eqn:E; [specialize (Hrank eq_refl Hpend); cbn in *; lia|].
      rewrite Hpend in Hle. cbn in Hle. lia.
    + exists c. rewrite list_lookup_insert_ne by done. split; [done|]. split; [done|]. intros _.
      destruct Hs as [->|(Hpd & o & v & ->)]; [lia|].
      pose proof (rank_insert (sys_store sys) c o v). rewrite Hpd in Hcount, Hle.
      destruct (pending cj) eqn:E; cbn in Hcount; [lia|].
      destruct (Hdone eq_refl) as [_ Hss]. rewrite Hss. lia.
  - exists c. split; [done|]. split; [done|]. intros _.
    destruct (decide (j = i)) as [->|]; [congruence|lia].
Qed.

Lemma run_potential schedule sys i c : sys_clients sys !! i = Some c ->
  exists c', sys_clients (run sys schedule) !! i = Some c'
  /\ (pending c = false -> c' = c)
  /\ (pending c' = true ->
      (potential (run sys schedule) c' + count (fun e => (fst e =? i)%nat) schedule <= potential sys c)%nat).
Proof.
  revert sys c; induction schedule as [|[j a] schedule IH]; intros sys c Hi; cbn [run foldl].
  { exists c. split; [done|]. split; [done|]. intros _. cbn. lia. }
  destruct (system_step_potential sys i c j a Hi) as (c1 & H1 & Hd1 & Hp1).
  destruct (IH _ _ H1) as (c2 & H2 & Hd2 & Hp2). exists c2. split; [done|].
  split; [intros Hd; rewrite Hd2; [by apply Hd1|by rewrite (Hd1 Hd)]|].
  intros Hpend. specialize (Hp2 Hpend).
  destruct (pending c1) eqn:E; [specialize (Hp1 eq_refl)|by rewrite (Hd2 eq_refl), E in Hpend].
  unfold count in *. cbn [List.filter fst]. unfold run in Hp2.
  destruct (decide (j = i)) as [->|Hne].
  - rewrite Nat.eqb_refl. cbn [length]. lia.
  - rewrite (proj2 (Nat.eqb_neq _ _)) by done. lia.
Qed.

End Progress.

(** ** Lemmas: what the evidence of an advance proves *)

Section Evidence.
Context `{H256 : Hash256}.

(** Two logs of one size with one root: equal, or two colliding messages. *)
Definition log_collision (old new : list bytes) : option (bytes * bytes) :=
  if (length old =? 0)%nat then None else tree_diff (tree_of old) (tree_of new).

Lemma log_collision_spec old new : length old = length new ->
  merkleRootFromEntries old = merkleRootFromEntries new ->
  match log_collision old new with Some c => is_collision c | None => old = new end.
Proof.
  intros Hl Hr. unfold log_collision. destruct old as [|o old]; [by destruct new|].
  destruct new as [|n new]; [done|]. cbn [length Nat.eqb].
  apply tree_diff_MTH; [done..|]. by rewrite <-!merkleRootFromEntries_MTH.
Qed.

(** The scanned entries that a checkpoint of size [n] covers. *)
Definition scanned (entries : list IndexedEntry) (n : Z) : list bytes :=
  map ie_bytes (slice (sort_by by_index entries) 0 n).

Lemma verifyCompleteEntriesPrefix_Ok entries c u :
  verifyCompleteEntriesPrefix (sort_by by_index entries) c = Ok u ->
  zlen (scanned entries (tc_treeSize c)) = tc_treeSize c
  /\ merkleRootFromEntries (scanned entries (tc_treeSize c)) = tc_rootHash c.
Proof.
  unfold verifyCompleteEntriesPrefix, scanned, equalBytes. cbv zeta.
  intros (? & Hl%throw_if_Ok & Hr%throw_if_Ok)%bind_Ok.
  apply orb_false_iff in Hl as [Hl%negb_false_iff%Z.eqb_eq _].
  apply negb_false_iff, bool_decide_eq_true in Hr.
  split; [|done]. unfold zlen in *. by rewrite length_map.
Qed.

(** The collision that an accepted advance between unrelated logs exhibits. *)
Definition advance_collision (old new : list bytes) (options : AdvanceOptions) : option (bytes * bytes) :=
  if (length old =? length new)%nat then log_collision old new
  else if (length old =? 0)%nat then None
  else
    match completeEntries options with
    | Some entries =>
        match log_collision old (scanned entries (zlen old)) with
        | Some c => Some c
        | None => log_collision new (scanned entries (zlen new))
        end
    | None =>
        match consistencyProofSource options with
        | Some fetch =>
            match fetch (zlen old) (zlen new) with
            | Ok proof => consistency_collision old new proof
            | Throw _ => None
            end
        | None => None
        end
    end.

(** A trusted checkpoint of a log. *)
Definition checkpoint_of (c : TrustedC2spCheckpoint) (entries : list bytes) : Prop :=
  tc_treeSize c = zlen entries /\ tc_rootHash c = merkleRootFromEntries entries.

Lemma scanned_prefix entries n m : 0 <= n <= m ->
  scanned entries n `prefix_of` scanned entries m.
Proof.
  intros H. unfold scanned, slice. change (Z.to_nat 0) with 0%nat. rewrite !drop_0, !Z.sub_0_r.
  replace (take (Z.to_nat n) (sort_by by_index entries))
    with (take (Z.to_nat n) (take (Z.to_nat m) (sort_by by_index entries)))
    by (rewrite take_take; f_equal; lia).
  exists (map ie_bytes (drop (Z.to_nat n) (take (Z.to_nat m) (sort_by by_index entries)))).
  rewrite <-map_app. f_equal. symmetry. apply take_drop.
Qed.

(** A complete scan that matches both checkpoints makes one log a prefix of the other. *)
Lemma scan_extends old new p c entries :
  checkpoint_of p old -> checkpoint_of c new -> zlen old <= zlen new ->
  verifyCompleteEntriesPrefix (sort_by by_index entries) p = Ok tt ->
  verifyCompleteEntriesPrefix (sort_by by_index entries) c = Ok tt ->
  match match log_collision old (scanned entries (zlen old)) with
        | Some c => Some c
        | None => log_collision new (scanned entries (zlen new))
        end with
  | Some x => is_collision x
  | None => old `prefix_of` new
  end.
Proof.
  intros [Hp1 Hp2] [Hc1 Hc2] Hle [Hl1 Hr1]%verifyCompleteEntriesPrefix_Ok [Hl2 Hr2]%verifyCompleteEntriesPrefix_Ok.
  rewrite Hp1 in Hl1, Hr1. rewrite Hc1 in Hl2, Hr2.
  pose proof (log_collision_spec old (scanned entries (zlen old))) as H1.
  pose proof (log_collision_spec new (scanned entries (zlen new))) as H2.
  unfold zlen in Hl1, Hl2. specialize (H1 ltac:(unfold zlen; lia) ltac:(congruence)).
  specialize (H2 ltac:(unfold zlen; lia) ltac:(congruence)).
  destruct (log_collision old _); [done|]. destruct (log_collision new _); [done|].
  pose proof (scanned_prefix entries (zlen old) (zlen new) (conj (zlen_nonneg old) Hle)) as Hpre.
  by rewrite <-H1, <-H2 in Hpre.
Qed.

End Evidence.

(** ** Properties *)

Section Properties.
Context `{H256 : Hash256}.

(** C18: no schedule of concurrent clients, cancellations included, rolls a trusted
    checkpoint back or forks it: whatever is stored for an origin is followed only by
    checkpoints reached through verified advances, so the tree size never
    decreases and an equal size keeps the root hash. *)
Theorem trusted_checkpoint_never_rolls_back sys schedule o c :
  Forall (fun cl => cl_phase cl = Loading) (sys_clients sys) ->
  sys_store sys !! o = Some c ->
  exists c', sys_store (run sys schedule) !! o = Some c'
  /\ rtc safe_advance c c'
  /\ tc_treeSize c <= tc_treeSize c'
  /\ (tc_treeSize c = tc_treeSize c' -> tc_rootHash c = tc_rootHash c').
Proof.
  intros Hl Hc. destruct (run_invariant sys schedule o c) as (_ & c' & Hc' & Hr); [|done|].
  - eapply Forall_impl; [exact Hl|]. unfold verified. intros cl Hcl. by rewrite Hcl.
  - exists c'. split; [done|]. split; [done|]. by apply safe_advance_advances.
Qed.

(** C24: progress: in any schedule, with any cancellations and evidence, a call among
    [n] clients of one store has returned or thrown after at most [4 * n + 2] of its
    own turns: compare-and-swap conflicts cannot starve it. *)
Theorem advance_bounded_retries sys schedule i :
  (i < length (sys_clients sys))%nat ->
  (4 * length (sys_clients sys) + 2 <= count (fun e => (fst e =? i)%nat) schedule)%nat ->
  exists c r, sys_clients (run sys schedule) !! i = Some c /\ cl_phase c = Done r.
Proof.
  intros Hi Hn. apply lookup_lt_is_Some in Hi as [c Hc].
  destruct (run_potential schedule sys i c Hc) as (c' & Hc' & _ & Hp).
  exists c'. destruct (pending c') eqn:E.
  - specialize (Hp eq_refl). exfalso. unfold potential in Hp.
    pose proof (count_le pending (sys_clients sys)).
    assert (rank (sys_store sys) c <= 6)%nat
      by (unfold rank; destruct (cl_phase c); try lia; destruct (fresh _ _ _); lia).
    assert (1 <= rank (sys_store (run sys schedule)) c')%nat
      by (unfold rank, pending in *; destruct (cl_phase c'); try done; try lia; destruct (fresh _ _ _); lia).
    assert (1 <= count pending (sys_clients (run sys schedule)))%nat.
    { unfold count. apply list_elem_of_lookup_2, list_elem_of_In in Hc'.
      pose proof (proj2 (filter_In pending c' _) (conj Hc' E)) as Hin.
      destruct (List.filter _ _); [done|cbn; lia]. }
    lia.
  - unfold pending in E. destruct (cl_phase c') as [| | | |r]; try done. by exists r.
Qed.

(** What an accepted advance proves about logs: when the trusted and the
    candidate checkpoint are those of two logs and the evidence is a complete scan or
    a consistency proof (or none is needed), the old log is a prefix of the new one,
    or [advance_collision] computes two messages with one SHA-256 digest. *)
Theorem verifyCheckpointAdvance_extends old new p c options :
  checkpoint_of p old -> checkpoint_of c new -> tilePrefixRoot options = None ->
  verifyCheckpointAdvance (Some p) c options = Ok tt ->
  match advance_collision old new options with
  | Some (x, y) => x <> y /\ digest x = digest y
  | None => old `prefix_of` new
  end.
Proof.
  intros Hp Hc Ht H. pose proof (verifyCheckpointAdvance_sizes _ _ _ H) as [Hle Heq].
  pose proof Hp as [Hp1 Hp2]. pose proof Hc as [Hc1 Hc2].
  unfold verifyCheckpointAdvance in H. apply bind_Ok in H as ([] & Hscan & H).
  rewrite Hp1, Hc1 in Hle, Heq, H. rewrite Hp2, Hc2 in Heq, H. unfold advance_collision.
  assert (Hx : forall o : option (bytes * bytes), match o with Some c => is_collision c | None => old `prefix_of` new end ->
    match o with Some (x, y) => x <> y /\ digest x = digest y | None => old `prefix_of` new end)
    by (by intros [[x y]|]).
  apply Hx. destruct (Nat.eqb_spec (length old) (length new)) as [El|Hne].
  { pose proof (log_collision_spec old new El) as Hlog.
    specialize (Hlog (Heq ltac:(unfold zlen; lia))). destruct (log_collision old new); [done|]. by subst. }
  destruct (Nat.eqb_spec (length old) 0) as [E0|Hn0]; [destruct old; [apply prefix_nil|done]|].
  rewrite (proj2 (Z.ltb_ge _ _)), !(proj2 (Z.eqb_neq _ _)) in H by (unfold zlen in *; lia).
  destruct (completeEntries options) as [entries|].
  - apply catch_Ok in H as [H|(e & _ & H)]; [|done]. cbn [fmap option_fmap option_map] in Hscan.
    by eapply scan_extends.
  - cbn [fmap option_fmap option_map] in H. destruct (consistencyProofSource options) as [fetch|].
    + apply bind_Ok in H as (proof & Hf & Hv%throw_if_Ok%negb_false_iff).
      apply catch_Ok in Hf as [->|(e & _ & Hf)]; [|done].
      by apply consistency_sound.
    + by rewrite Ht in H.
Qed.

End Properties.

(** ** Witnesses: two clients that race to advance one log *)

Section Witnesses.
Local Instance sha : Hash256 := Sha256_instance.

Definition log_origin : jsstr := js "log.example/a".
Definition trusted_at (n : nat) : TrustedC2spCheckpoint :=
  mkTrusted log_origin (Z.of_nat n) (merkleRootFromEntries (take n seven_entries)) (Some 1000).
Definition scan : list IndexedEntry := imap (fun i e => mkIndexedEntry (Z.of_nat i) e) seven_entries.
Definition racer (n : nat) (entries : list IndexedEntry) : client :=
  mkClient log_origin (trusted_at n) (fun _ => mkAdvanceOptions None (Some entries) None) 0 Loading.
Definition race : system :=
  mkSystem {[ log_origin := trusted_at 1 ]} [racer 3 (take 3 scan); racer 7 scan].
(** The second client loses the first race and then retries. *)
Definition race_schedule : list (nat * abort) :=
  [(0, Live); (1, Live); (0, Live); (1, Live); (0, Live); (1, Live); (1, Live); (1, Live);
   (1, Live); (1, Live); (1, Live); (1, Live); (1, Live)]%nat.

Lemma trusted_checkpoint_never_rolls_back_witness :
  sys_store (run race race_schedule) !! log_origin = Some (trusted_at 7)
  /\ exists c', sys_store (run race race_schedule) !! log_origin = Some c'
     /\ 1 <= tc_treeSize c'.
Proof.
  split; [vm_compute; reflexivity|].
  destruct (trusted_checkpoint_never_rolls_back race race_schedule log_origin (trusted_at 1))
    as (c' & Hc & _ & Hle & _); [by repeat constructor|vm_compute; reflexivity|].
  exists c'. split; [exact Hc|exact Hle].
Defined.

Lemma advance_bounded_retries_witness :
  count (fun e => (fst e =? 1)%nat) race_schedule = 10%nat
  /\ exists c r, sys_clients (run race race_schedule) !! 1%nat = Some c /\ cl_phase c = Done r.
Proof.
  split; [reflexivity|]. apply (advance_bounded_retries race race_schedule 1); cbn; lia.
Defined.

Lemma verifyCheckpointAdvance_extends_witness :
  match advance_collision (take 3 seven_entries) seven_entries
          (mkAdvanceOptions None (Some scan) None) with
  | Some (x, y) => x <> y /\ digest x = digest y
  | None => take 3 seven_entries `prefix_of` seven_entries
  end.
Proof.
  apply (verifyCheckpointAdvance_extends (take 3 seven_entries) seven_entries (trusted_at 3) (trusted_at 7)
           (mkAdvanceOptions None (Some scan) None));
    [split; reflexivity|split; reflexivity|reflexivity|vm_compute; reflexivity].
Defined.

End Witnesses.
