(* ===== verification/TlogProof.v ===== *)
(** Inclusion proof documents: [log-c2sp-tlog/src/proof.ts]. *)

From S2P Require Import Prelude JsString Base64 Sha256 Merkle Url Checkpoint Policy.

Record TlogProofV1 := mkTlogProofV1 {
  index : Z;
  hashes : list bytes;
  checkpoint : Checkpoint;
  extra : option (list jsstr)
}.

Definition is_b64_digit (u : Z) : bool := is_alnum u || (u =? 43) || (u =? 47).

(** [/^[A-Za-z0-9+/]*={0,2}$/.test(s)] *)
Definition is_padded_b64 (s : jsstr) : bool :=
  forallb is_b64_digit
    match rev s with
    | 61 :: 61 :: r => rev r
    | 61 :: r => rev r
    | _ => s
    end.

Definition parseSafeInt (s : jsstr) : res Z :=
  throw_if (negb (isDecimal s)) (C2spTlogParseError "invalid proof index");;
  let n := digits_value s in
  throw_if (negb (isSafeInteger n)) (C2spTlogParseError "proof index outside safe integer range");;
  Ok n.

Definition magic : jsstr := js "c2sp.org/tlog-proof@v1".

(** The optional [extra] line at the cursor, and the lines after it. *)
Definition parse_extra (lines : list jsstr) : res (list jsstr * list jsstr) :=
  match lines with
  | line :: rest =>
      if startsWith line (js "extra ") then
        let encoded := slice_from line 6 in
        throw_if (negb (is_padded_b64 encoded)) (C2spTlogParseError "invalid proof extra data");;
        Ok ([encoded], rest)
      else Ok ([], lines)
  | [] => Ok ([], lines)
  end.

Definition parse_index (lines : list jsstr) : res (Z * list jsstr) :=
  match lines with
  | line :: rest =>
      throw_if (negb (startsWith line (js "index "))) (C2spTlogParseError "tlog proof missing index");;
      index ← parseSafeInt (slice_from line 6);
      Ok (index, rest)
  | [] => Throw (C2spTlogParseError "tlog proof missing index")
  end.

Definition parse_hash (line : jsstr) : res bytes :=
  throw_if (negb (is_padded_b64 line)) (C2spTlogParseError "invalid inclusion proof hash");;
  hash ← fromB64 line;
  throw_if (negb (zlen hash =? 32)) (C2spTlogParseError "inclusion proof hash must be SHA-256 sized");;
  Ok hash.

Definition parseTlogProofV1 (text : jsstr) : res TlogProofV1 :=
  throw_if (includes text [13]) (C2spTlogParseError "tlog proof must use LF line endings");;
  let split := indexOf text [10; 10] in
  throw_if (split =? -1) (C2spTlogParseError "tlog-proof@v1 missing checkpoint separator");;
  let header := split_on 10 (slice text 0 split) in
  throw_if (negb (bool_decide (head header = Some magic)))
    (C2spTlogParseError "missing c2sp.org/tlog-proof@v1 magic");;
  '(extra, lines) ← parse_extra (tail header);
  '(index, lines) ← parse_index lines;
  hashes ← map_res parse_hash lines;
  checkpoint ← parseCheckpoint (slice_from text (split + 2));
  Ok (mkTlogProofV1 index hashes checkpoint (Some extra)).

Section Verify.
Context `{H256 : Hash256} `{Ed : Ed25519}.

(** A parsed proof, or its text. *)
Definition verifyC2spTlogProof (entryBytes : bytes) (proof : TlogProofV1 + jsstr)
    (policy : C2spTlogPolicy) (org : option jsstr) (scope : option jsstr)
    (nowMs maxClockSkewMs : Z) : res TlogProofV1 :=
  p ← match proof with inr text => parseTlogProofV1 text | inl p => Ok p end;
  enforceCheckpointPolicy (checkpoint p) (default (origin (checkpoint p)) org) policy
    (default (js "testnet") scope) nowMs maxClockSkewMs;;
  included ← verifyInclusion entryBytes (index p) (treeSize (checkpoint p))
               (rootHash (checkpoint p)) (hashes p);
  throw_if (negb included) (C2spTlogVerificationError "invalid C2SP inclusion proof");;
  Ok p.

End Verify.

(** ** Specification: the documents that C2SP tlog-proof defines *)

(** The document of a proof, in front of the text of its checkpoint. *)
Definition proof_lines (index : Z) (hashes : list bytes) (extra : option jsstr) : list jsstr :=
  magic :: match extra with Some e => [js "extra " ++ e] | None => [] end
  ++ (js "index " ++ dec index) :: map btoa hashes.
Definition proof_document (index : Z) (hashes : list bytes) (extra : option jsstr)
    (checkpoint_text : jsstr) : jsstr :=
  join [10] (proof_lines index hashes extra) ++ [10; 10] ++ checkpoint_text.

(** ** Lemmas *)

Definition no_breaks (s : jsstr) : bool := forallb (fun u => negb ((u =? 10) || (u =? 13))) s.

Lemma no_breaks_app s t : no_breaks (s ++ t) = no_breaks s && no_breaks t.
Proof. apply forallb_app. Qed.

Lemma no_breaks_elem s : no_breaks s = true -> 10 ∉ s /\ 13 ∉ s.
Proof. unfold no_breaks. intros H. split; by (refine (forallb_not_elem _ _ s _ H)). Qed.

Lemma no_breaks_impl (f : Z -> bool) s :
  (forall u, f u = true -> (u =? 10) || (u =? 13) = false) -> forallb f s = true -> no_breaks s = true.
Proof.
  intros Hf. unfold no_breaks. rewrite !forallb_forall. intros H u Hu. by rewrite (Hf u (H u Hu)).
Qed.

Lemma no_breaks_b64 s : forallb (fun u => is_b64_digit u || (u =? 61)) s = true -> no_breaks s = true.
Proof.
  apply no_breaks_impl. intros u. unfold is_b64_digit, is_alnum, is_alpha, is_upper, is_lower, is_digit.
  intros H. apply orb_false_iff. split; apply Z.eqb_neq; intros ->; discriminate H.
Qed.

Lemma no_breaks_dec n : 0 <= n -> no_breaks (dec n) = true.
Proof.
  intros Hn. destruct (dec_spec n Hn) as (_ & Hd & _). revert Hd. apply no_breaks_impl.
  intros u. unfold is_digit. intros H. apply orb_false_iff. split; apply Z.eqb_neq; lia.
Qed.

(** The padding of a base64 text is recognized, and nothing else of it removed. *)
Lemma is_padded_b64_padded s n : forallb is_b64_digit s = true -> (n <= 2)%nat ->
  is_padded_b64 (s ++ repeat 61 n) = true.
Proof.
  intros Hs Hn. unfold is_padded_b64. rewrite rev_app_distr.
  destruct n as [|[|[|n]]]; [| | |lia]; cbn [repeat rev app].
  - rewrite app_nil_r. destruct (rev s) as [|u r] eqn:E; [done|].
    assert (Hu : is_b64_digit u = true).
    { rewrite forallb_forall in Hs. apply Hs, in_rev. rewrite E. by left. }
    destruct u as [|p|p]; try done. repeat (destruct p as [p|p|]; try done).
  - destruct (rev s) as [|u r] eqn:E; [done|].
    assert (Hu : is_b64_digit u = true).
    { rewrite forallb_forall in Hs. apply Hs, in_rev. rewrite E. by left. }
    assert (Es : rev (u :: r) = s) by (by rewrite <-E, rev_involutive).
    destruct u as [|p|p]; try done; repeat (destruct p as [p|p|]; try done; try by rewrite Es).
  - by rewrite rev_involutive.
Qed.

Lemma btoa_shape l : exists n, (n <= 2)%nat /\ btoa l = map std_char (sextets l) ++ repeat 61 n
  /\ forallb is_b64_digit (map std_char (sextets l)) = true.
Proof.
  destruct (padding_cases l) as (n & Hn & E & _). exists n. split; [done|]. unfold btoa. rewrite E.
  split; [done|]. apply forallb_sextets. intros x Hx. by apply std_char_props.
Qed.

Lemma parse_hash_btoa h : length h = 32%nat -> parse_hash (btoa h) = Ok h.
Proof.
  intros Hl. unfold parse_hash. destruct (btoa_shape h) as (n & Hn & E & Hs).
  rewrite E at 1. rewrite is_padded_b64_padded, fromB64_btoa by done. cbn. unfold zlen. by rewrite Hl.
Qed.

Lemma no_breaks_btoa h : no_breaks (btoa h) = true.
Proof.
  apply no_breaks_b64. destruct (btoa_shape h) as (n & _ & -> & Hs). rewrite forallb_app.
  apply andb_true_iff. split; [|clear; by induction n].
  rewrite forallb_forall in *. intros u Hu. by rewrite (Hs u Hu).
Qed.

Lemma btoa_ne h : length h = 32%nat -> btoa h <> [].
Proof. destruct h as [|a [|b [|c h]]]; done. Qed.

Lemma no_breaks_padded e : is_padded_b64 e = true -> no_breaks e = true.
Proof.
  intros H. unfold is_padded_b64 in H. apply no_breaks_b64.
  assert (Hr : forallb (fun u => is_b64_digit u || (u =? 61)) (rev e) = true).
  { assert (Hd : forall r, forallb is_b64_digit (rev r) = true ->
        forallb (fun u => is_b64_digit u || (u =? 61)) r = true).
    { intros r Hr. rewrite forallb_forall in *. intros u Hu. rewrite (Hr u); [done|]. by apply in_rev in Hu. }
    destruct (rev e) as [|u r] eqn:E; [done|].
    assert (E0 : e = rev (u :: r)) by (by rewrite <-E, rev_involutive).
    destruct (Z.eq_dec u 61) as [->|Hu].
    - destruct r as [|v r]; [done|]. destruct (Z.eq_dec v 61) as [->|Hv].
      + cbn. by apply Hd.
      + apply (Hd (v :: r)). destruct v as [|q|q]; try exact H.
        repeat (destruct q as [q|q|]; try exact H; try done).
    - apply Hd. rewrite <-E0. destruct u as [|q|q]; try exact H.
      repeat (destruct q as [q|q|]; try exact H; try done). }
  rewrite forallb_forall in *. intros u Hu. apply Hr. by apply in_rev in Hu.
Qed.

(** Searching the separator over lines. *)
Lemma indexOf_break i p r : 10 ∉ p ->
  indexOf_from i (p ++ 10 :: r) [10; 10]
  = if startsWith r [10] then i + zlen p else indexOf_from (i + zlen p + 1) r [10; 10].
Proof.
  revert i; induction p as [|u p IH]; intros i Hp.
  - cbn [app indexOf_from startsWith Z.eqb andb]. rewrite Z.add_0_r. by destruct (startsWith r [10]).
  - apply not_elem_of_cons in Hp as [Hu Hp]. cbn [app indexOf_from startsWith].
    rewrite (proj2 (Z.eqb_neq 10 u)) by done. cbn [andb]. rewrite IH, zlen_cons by done.
    by replace (i + 1 + zlen p) with (i + (1 + zlen p)) by lia.
Qed.

Lemma indexOf_lines i ls t : ls <> [] -> Forall (fun p => p <> [] /\ 10 ∉ p) ls ->
  indexOf_from i (join [10] ls ++ 10 :: 10 :: t) [10; 10] = i + zlen (join [10] ls).
Proof.
  intros Hne Hl. destruct ls as [|p ls]; [done|]. clear Hne.
  revert i p Hl; induction ls as [|q ls IH]; intros i p Hl; apply Forall_cons in Hl as [[Hp Hn] Hl].
  - cbn [join]. rewrite indexOf_break by done.
    by rewrite (startsWith_app [10] t : startsWith (10 :: t) [10] = true).
  - rewrite join_cons, <-!app_assoc. cbn [app]. rewrite indexOf_break by done.
    pose proof Hl as Hl'. apply Forall_cons in Hl' as [[Hq Hqn] _].
    assert (Hs : startsWith (join [10] (q :: ls) ++ 10 :: 10 :: t) [10] = false).
    { destruct q as [|u q]; [done|]. apply not_elem_of_cons in Hqn as [Hu _].
      destruct ls; cbn [join app startsWith]; by rewrite (proj2 (Z.eqb_neq 10 u)). }
    rewrite Hs, IH by done. rewrite zlen_app, zlen_cons. lia.
Qed.

(** The header of a document: its lines are recovered, and the checkpoint follows. *)
Lemma document_split ls t : ls <> [] -> Forall (fun p => p <> [] /\ no_breaks p = true) ls ->
  let text := join [10] ls ++ [10; 10] ++ t in
  indexOf text [10; 10] = zlen (join [10] ls)
  /\ slice text 0 (zlen (join [10] ls)) = join [10] ls
  /\ slice_from text (zlen (join [10] ls) + 2) = t
  /\ split_on 10 (join [10] ls) = ls.
Proof.
  intros Hne Hl text.
  assert (Hl' : Forall (fun p => p <> [] /\ 10 ∉ p) ls).
  { eapply Forall_impl; [exact Hl|]. intros p [? Hp]. split; [done|]. by apply no_breaks_elem. }
  unfold text. split; [unfold indexOf; by apply indexOf_lines|].
  split; [unfold slice; rewrite Z.sub_0_r; change (drop (Z.to_nat 0) ?x) with x; by apply take_app_zlen|].
  split; [|apply split_join; [done|]; eapply Forall_impl; [exact Hl'|]; by intros p [_ ?]].
  rewrite app_assoc. unfold slice_from. apply drop_app_zlen. by rewrite zlen_app.
Qed.

Lemma no_cr_join ls : Forall (fun p => no_breaks p = true) ls -> 13 ∉ join [10] ls.
Proof.
  induction 1 as [|p ls Hp Hl IH]; [by intros ?%elem_of_nil|]. apply no_breaks_elem in Hp as [_ Hp].
  destruct ls as [|q ls]; [done|]. rewrite join_cons, !not_elem_of_app. split; [done|]. split; [|done].
  rewrite not_elem_of_cons. split; [done|by intros ?%elem_of_nil].
Qed.

Lemma includes_unit s (c : Z) : c ∉ s -> includes s [c] = false.
Proof.
  intros Hc. unfold includes, indexOf. destruct (indexOf_from_spec 0 s c) as [->|H]; [done|].
  destruct H as (a & t & -> & _). destruct Hc. apply elem_of_app. right. by left.
Qed.

Lemma parseSafeInt_dec n : 0 <= n <= MAX_SAFE_INTEGER -> parseSafeInt (dec n) = Ok n.
Proof.
  intros Hn. destruct (dec_spec n ltac:(lia)) as (Hv & _ & Hd). unfold parseSafeInt.
  rewrite Hd, Hv. cbn [negb throw_if mbind res_bind].
  by rewrite (proj2 (isSafeInteger_spec n)) by lia.
Qed.

Lemma parse_hash_Ok line h : parse_hash line = Ok h -> length h = 32%nat.
Proof. unfold parse_hash. intros H. res_inv. bool_inv. unfold zlen in *. lia. Qed.

Lemma parseTlogProofV1_hashes text p : parseTlogProofV1 text = Ok p ->
  Forall (fun h => length h = 32%nat) (hashes p).
Proof.
  unfold parseTlogProofV1. intros H. cbv zeta in H.
  do 3 apply bind_Ok in H as (? & _ & H). apply bind_Ok in H as ([ex lines] & _ & H).
  apply bind_Ok in H as ([i lines'] & _ & H). apply bind_Ok in H as (hs & Hh & H).
  apply bind_Ok in H as (c & _ & H). apply Ok_inj in H as <-. cbn [hashes].
  apply map_res_Forall2 in Hh. induction Hh as [|line h ls hs Hl _ IH]; [done|].
  constructor; [by eapply parse_hash_Ok|done].
Qed.

Lemma proof_lines_ok index hashes extra : 0 <= index -> Forall (fun h => length h = 32%nat) hashes ->
  (forall e, extra = Some e -> is_padded_b64 e = true) ->
  Forall (fun p => p <> [] /\ no_breaks p = true) (proof_lines index hashes extra).
Proof.
  intros Hi Hh He. unfold proof_lines. constructor; [done|]. apply Forall_app. split.
  - destruct extra as [e|]; [|done]. constructor; [|done]. split; [done|].
    rewrite no_breaks_app. apply andb_true_iff. split; [done|]. by apply no_breaks_padded, He.
  - constructor.
    + split; [done|]. rewrite no_breaks_app. apply andb_true_iff. split; [done|]. by apply no_breaks_dec.
    + apply Forall_fmap. eapply Forall_impl; [exact Hh|]. intros h Hl. cbn.
      split; [by apply btoa_ne|apply no_breaks_btoa].
Qed.

Lemma parse_extra_index index hashes extra : 0 <= index <= MAX_SAFE_INTEGER ->
  (forall e, extra = Some e -> is_padded_b64 e = true) ->
  ('(extra, lines) ← parse_extra (tail (proof_lines index hashes extra));
   '(index, lines) ← parse_index lines;
   Ok (extra, index, lines))
  = Ok (option_list extra, index, map btoa hashes).
Proof.
  intros Hi He.
  assert (Hidx : parse_index ((js "index " ++ dec index) :: map btoa hashes) = Ok (index, map btoa hashes)).
  { unfold parse_index. rewrite startsWith_app. cbn [negb throw_if mbind res_bind].
    change (slice_from (js "index " ++ dec index) 6) with (dec index). by rewrite parseSafeInt_dec. }
  unfold proof_lines, parse_extra. destruct extra as [e|]; cbn [tail app].
  - rewrite startsWith_app. change (slice_from (js "extra " ++ e) 6) with e. rewrite (He e) by done.
    cbn [negb throw_if mbind res_bind]. rewrite Hidx. done.
  - change (startsWith (js "index " ++ dec index) (js "extra ")) with false.
    cbn [mbind res_bind]. rewrite Hidx. done.
Qed.

(** ** Properties *)

(** Documents are read back: the document of an index, 32-byte hashes and an
    optional extra line, in front of the text of a checkpoint, parses to exactly
    these. *)
Theorem parseTlogProofV1_document index hashes extra text c :
  0 <= index <= MAX_SAFE_INTEGER -> Forall (fun h => length h = 32%nat) hashes ->
  (forall e, extra = Some e -> is_padded_b64 e = true) ->
  13 ∉ text -> parseCheckpoint text = Ok c ->
  parseTlogProofV1 (proof_document index hashes extra text)
  = Ok (mkTlogProofV1 index hashes c (Some (option_list extra))).
Proof.
  intros Hi Hh He Hcr Hc.
  pose proof (proof_lines_ok index hashes extra ltac:(lia) Hh He) as Hl.
  destruct (document_split (proof_lines index hashes extra) text ltac:(done) Hl) as (Hs & Hh1 & Hh2 & Hsp).
  unfold parseTlogProofV1, proof_document. rewrite includes_unit.
  2:{ rewrite !not_elem_of_app. split; [|split; [|done]].
      - apply no_cr_join. eapply Forall_impl; [exact Hl|]. by intros p [_ ?].
      - intros Hin. repeat apply elem_of_cons in Hin as [?|Hin]; [done..|by apply elem_of_nil in Hin]. }
  cbn [throw_if mbind res_bind]. rewrite Hs, Hh1, Hh2, Hsp. cbv zeta.
  rewrite (proj2 (Z.eqb_neq _ (-1))) by (pose proof (zlen_nonneg (join [10] (proof_lines index hashes extra))); lia).
  cbn [throw_if mbind res_bind]. change (head (proof_lines index hashes extra)) with (Some magic).
  rewrite bool_decide_eq_true_2 by done. cbn [negb throw_if mbind res_bind].
  pose proof (parse_extra_index index hashes extra Hi He) as Hx.
  destruct (parse_extra _) as [[x1 x2]|]; [|done]. cbn [mbind res_bind] in *.
  destruct (parse_index x2) as [[y1 y2]|]; [|done]. cbn [mbind res_bind] in *.
  injection Hx as -> -> ->.
  assert (map_res parse_hash (map btoa hashes) = Ok hashes) as ->.
  { apply map_res_Forall2, Forall2_fmap_l, Forall_Forall2_diag.
    eapply Forall_impl; [exact Hh|]. intros h. apply parse_hash_btoa. }
  cbn [mbind res_bind]. by rewrite Hc.
Qed.

Section VerifyProps.
Context `{H256 : Hash256} `{Ed : Ed25519}.

(** What an accepted proof document shows: it parsed, its checkpoint passed the
    local policy for the caller's origin and scope, and if the checkpoint is the
    head of a log, the entry is in that log or [inclusion_collision] computes two
    messages with one SHA-256 digest. *)
Theorem verifyC2spTlogProof_sound entries entry text policy org scope nowMs skew p :
  verifyC2spTlogProof entry (inr text) policy org scope nowMs skew = Ok p ->
  treeSize (checkpoint p) = zlen entries ->
  rootHash (checkpoint p) = merkleRootFromEntries entries ->
  parseTlogProofV1 text = Ok p
  /\ is_ok (enforceCheckpointPolicy (checkpoint p) (default (origin (checkpoint p)) org) policy
              (default (js "testnet") scope) nowMs skew) = true
  /\ match inclusion_collision entries entry (index p) (hashes p) with
     | Some (x, y) => x <> y /\ digest x = digest y
     | None => entry ∈ entries
     end.
Proof.
  unfold verifyC2spTlogProof. intros H Hn Hr. apply bind_Ok in H as (p' & Hp & H).
  apply bind_Ok in H as (r & Hpol & H). apply bind_Ok in H as (b & Hv & H).
  apply bind_Ok in H as (? & Hb%throw_if_Ok & [= ->]). apply negb_false_iff in Hb as ->.
  split; [done|]. split; [by rewrite Hpol|].
  rewrite Hn, Hr in Hv. pose proof (inclusion_leaf _ _ _ _ (parseTlogProofV1_hashes _ _ Hp) Hv) as Hl.
  destruct (inclusion_collision _ _ _ _) as [[m1 m2]|]; [done|]. destruct Hl as [Hne Hl].
  rewrite <-(leaves_tree_of entries) by done. by eapply leaf_at_leaves.
Qed.

(** The error of an index outside the tree: once the policy accepts the
    checkpoint, a parsed proof whose index is not below the tree size throws the plain
    [Error] of [inclusionRoot], not the documented [C2spTlogVerificationError]. *)
Theorem verifyC2spTlogProof_index_error entry p policy org scope nowMs skew r :
  enforceCheckpointPolicy (checkpoint p) (default (origin (checkpoint p)) org) policy
    (default (js "testnet") scope) nowMs skew = Ok r ->
  treeSize (checkpoint p) <= index p ->
  verifyC2spTlogProof entry (inl p) policy org scope nowMs skew
  = Throw (EError "invalid inclusion index or tree size").
Proof.
  unfold verifyC2spTlogProof, verifyInclusion, inclusionRoot. intros Hr Hi. cbn [mbind res_bind].
  rewrite Hr. cbn [mbind res_bind]. rewrite (proj2 (Z.leb_le _ _) Hi), !orb_true_r. done.
Qed.

End VerifyProps.

(** ** Witnesses *)

Definition toy_log : list bytes := [[x05]; [x06]; [x07]].
Definition toy_head : jsstr :=
  js "log.example/a" ++ [10] ++ js "3" ++ [10]
  ++ btoa (merkleRootFromEntries (H256 := Sha256_instance) toy_log) ++ [10].
Definition toy_note : jsstr :=
  toy_head ++ [10] ++ em_dash ++ js " log.example/a "
  ++ btoa (repeat x00 4 ++ toy_sign (repeat x03 32) (utf8_encode toy_head)) ++ [10].
Definition toy_path : list bytes := PATH (H256 := Sha256_instance) 2 toy_log.
Definition toy_document : jsstr := proof_document 2 toy_path (Some (js "AA==")) toy_note.

Definition toy_verify :=
  verifyC2spTlogProof (H256 := Sha256_instance) (Ed := ToyEd25519) [x07].
Definition toy_proof_policy : C2spTlogPolicy :=
  mkPolicy None {[ js "log.example/a" := mkOriginPolicy [inl toy_log_key] None (Some 0) None None ]}.
Definition toy_proof : TlogProofV1 :=
  match toy_verify (inr toy_document) toy_proof_policy None None 0 0 with
  | Ok p => p
  | Throw _ => mkTlogProofV1 0 [] toy_checkpoint None
  end.

Lemma parseTlogProofV1_document_witness :
  parseTlogProofV1 (proof_document 5 [repeat x01 32] (Some (js "AA==")) example_note)
  = Ok (mkTlogProofV1 5 [repeat x01 32] example_checkpoint (Some [js "AA=="])).
Proof.
  apply (parseTlogProofV1_document 5 [repeat x01 32] (Some (js "AA==")) example_note example_checkpoint).
  - split; vm_compute; discriminate.
  - repeat constructor.
  - intros e [= <-]. reflexivity.
  - refine (bool_decide_unpack _ _). vm_compute. exact I.
  - vm_compute. reflexivity.
Defined.

Example toy_verify_accepts :
  is_ok (toy_verify (inr toy_document) toy_proof_policy None None 0 0) = true.
Proof. vm_compute. reflexivity. Qed.

Lemma verifyC2spTlogProof_sound_witness :
  toy_verify (inr toy_document) toy_proof_policy None None 0 0 = Ok toy_proof
  /\ match inclusion_collision (H256 := Sha256_instance) toy_log [x07] (index toy_proof) (hashes toy_proof) with
     | Some (x, y) => x <> y /\ digest (Hash256 := Sha256_instance) x = digest (Hash256 := Sha256_instance) y
     | None => [x07] ∈ toy_log
     end.
Proof.
  split; [vm_compute; reflexivity|].
  apply (verifyC2spTlogProof_sound (H256 := Sha256_instance) (Ed := ToyEd25519) toy_log [x07]
           toy_document toy_proof_policy None None 0 0 toy_proof); vm_compute; reflexivity.
Defined.

Lemma verifyC2spTlogProof_index_error_witness :
  toy_verify (inl (mkTlogProofV1 3 [] (checkpoint toy_proof) None)) toy_proof_policy None None 0 0
  = Throw (EError "invalid inclusion index or tree size").
Proof.
  apply (verifyC2spTlogProof_index_error (H256 := Sha256_instance) (Ed := ToyEd25519) [x07]
           (mkTlogProofV1 3 [] (checkpoint toy_proof) None) toy_proof_policy None None 0 0
           (mkCheckpointPolicyResult [] None)); vm_compute; [reflexivity|discriminate].
Defined.

(** A hash line of one base64 digit passes the grammar and fails in the decoder. *)
Example parse_hash_decoder_error : parse_hash (js "A") = Throw (EError "InvalidCharacterError").
Proof. vm_compute. reflexivity. Qed.
