(* ===== verification/HashTiles.v ===== *)
(** Prefix roots from hash tiles: [authenticatedTilePrefixRoot] of
    [log-c2sp-tlog/src/hash-tiles.ts].

    The root of an earlier, trusted tree size is computed from the tiles that a
    server presents, and every tile used is authenticated against the root of the
    candidate checkpoint.  The tile cache (a [Map] in insertion order) and the set
    of authenticated tiles are the explicit state of a run.  The server is a
    function from URLs to responses: no URL is read twice in a run. *)

From S2P Require Import Prelude JsString Sha256 HashTree Merkle Tiles.

Record Tile := mkTile { tile_level : Z; tile_index : Z; tile_hashes : list bytes }.

(** The [Map] from [level/index] to tiles, oldest first, and the [Set] of tiles,
    which are identified by their keys (a key is set once). *)
Record tile_state := mkTileState { tiles : list Tile; authenticated : list (Z * Z) }.

Definition tile_key (t : Tile) : Z * Z := (tile_level t, tile_index t).

Definition find_tile (l : list Tile) (level index : Z) : option Tile :=
  List.find (fun t => (tile_level t =? level) && (tile_index t =? index)) l.

(** What recursion without end throws; the fuel of the model is exhausted with it. *)
Definition stack_overflow : exn := ERange "Maximum call stack size exceeded".
Definition type_error : exn := EError "TypeError".

(** [cause instanceof C2spTlogError && cause.status === 404] *)
Definition is_not_found (cause : exn) : bool :=
  match cause with
  | EVerification e =>
      negb (bool_decide (ve_class e = PlainVerificationError)) && bool_decide (ve_status e = Some 404)
  | _ => false
  end.

(** [while (split * 2 < length) split *= 2] *)
Fixpoint grow_split (fuel split n : nat) : nat :=
  match fuel with
  | O => split
  | S fuel => if (split * 2 <? n)%nat then grow_split fuel (split * 2) n else split
  end.

Section Tiles.
Context `{H256 : Hash256}.

(** The [fold] of the source on non-empty lists. *)
Fixpoint fold_fuel (fuel : nat) (hashes : list bytes) (suffix : option bytes) : bytes :=
  match fuel with
  | O => []
  | S fuel =>
      match hashes with
      | [h] => match suffix with Some s => nodeHash h s | None => h end
      | _ =>
          let split := grow_split (length hashes) 1 (length hashes) in
          match suffix with
          | Some s =>
              if (split * 2 =? length hashes)%nat then nodeHash (fold_fuel fuel hashes None) s
              else nodeHash (fold_fuel fuel (take split hashes) None) (fold_fuel fuel (drop split hashes) suffix)
          | None => nodeHash (fold_fuel fuel (take split hashes) None) (fold_fuel fuel (drop split hashes) None)
          end
      end
  end.
Definition fold_hashes (hashes : list bytes) (suffix : option bytes) : bytes :=
  fold_fuel (S (length hashes)) hashes suffix.

(** On the empty list the recursion does not end. *)
Definition fold (hashes : list bytes) (suffix : option bytes) : res bytes :=
  throw_if (length hashes =? 0)%nat stack_overflow;;
  Ok (fold_hashes hashes suffix).

Section Run.
Context (prefix : jsstr) (treeSize : Z) (read : jsstr -> Z -> res bytes).

Definition tile_width (level index : Z) : Z := Z.min 256 (treeSize / 256 ^ level - index * 256).

(** The tile's bytes and the width of the response. *)
Definition fetch_tile (level index width : Z) : res (bytes * Z) :=
  catch (path ← tilePath prefix level index (if width =? 256 then None else Some width);
         bytes ← read path (width * 32);
         Ok (bytes, width))
    (fun cause =>
       if (width =? 256) || negb (is_not_found cause) then Throw cause
       else path ← tilePath prefix level index None;
            bytes ← read path 8192;
            Ok (bytes, 256)).

Definition tile_slices (width : Z) (bytes : bytes) : list Prelude.bytes :=
  map (fun i => slice bytes (i * 32) ((i + 1) * 32)) (seqZ 0 width).

Definition get (st : tile_state) (level index : Z) : res (Tile * tile_state) :=
  match find_tile (tiles st) level index with
  | Some cached => Ok (cached, st)
  | None =>
      let width := tile_width level index in
      '(bytes, responseWidth) ← fetch_tile level index width;
      throw_if (negb (zlen bytes =? responseWidth * 32))
        (C2spTlogVerificationError "C2SP hash tile width mismatch");;
      let tile := mkTile level index (tile_slices width bytes) in
      Ok (tile, mkTileState (tiles st ++ [tile]) (authenticated st))
  end.

(** The loop of [root], one base-256 digit of [count] per turn. *)
Fixpoint root_loop (fuel : nat) (st : tile_state) (level count : Z) (suffix : option bytes)
    : res (option bytes * tile_state) :=
  match fuel with
  | O => Throw stack_overflow
  | S fuel =>
      if 0 <? count then
        let width := count mod 256 in
        if width =? 0 then root_loop fuel st (level + 1) (count / 256) suffix
        else
          '(tile, st) ← get st level (count / 256);
          s ← fold (slice (tile_hashes tile) 0 width) suffix;
          root_loop fuel st (level + 1) (count / 256) (Some s)
      else Ok (suffix, st)
  end.

(** A safe integer has at most seven base-256 digits. *)
Definition level_fuel : nat := 8.
Definition root (st : tile_state) (size : Z) : res (option bytes * tile_state) :=
  root_loop level_fuel st 0 size None.

Definition is_authenticated (st : tile_state) (t : Tile) : bool :=
  bool_decide (tile_key t ∈ authenticated st).

Fixpoint authenticate (fuel : nat) (st : tile_state) (tile : Tile) : res tile_state :=
  match fuel with
  | O => Throw stack_overflow
  | S fuel =>
      if is_authenticated st tile then Ok st
      else
        '(parent, st) ← get st (tile_level tile + 1) (tile_index tile / 256);
        st ← authenticate fuel st parent;
        throw_if (negb (length (tile_hashes tile) =? 256)%nat)
          (C2spTlogVerificationError "C2SP hash tile does not authenticate against the candidate root");;
        folded ← fold (tile_hashes tile) None;
        expected ← of_option (tile_hashes parent !! Z.to_nat (tile_index tile mod 256)) type_error;
        throw_if (negb (bool_decide (folded = expected)))
          (C2spTlogVerificationError "C2SP hash tile does not authenticate against the candidate root");;
        Ok (mkTileState (tiles st) (tile_key tile :: authenticated st))
  end.

(** [for (const tile of tiles.values())]: tiles added meanwhile are visited too. *)
Fixpoint authenticate_all (fuel position : nat) (st : tile_state) : res tile_state :=
  match fuel with
  | O => Throw stack_overflow
  | S fuel =>
      match tiles st !! position with
      | None => Ok st
      | Some tile =>
          st ← authenticate level_fuel st tile;
          authenticate_all fuel (S position) st
      end
  end.

(** At most two tiles per level are ever read. *)
Definition visit_fuel : nat := 17.

Definition tile_run (rootHash : bytes) (trustedSize : Z) : res (option bytes * tile_state) :=
  '(candidateRoot, st) ← root (mkTileState [] []) treeSize;
  candidateRoot ← of_option candidateRoot type_error;
  throw_if (negb (bool_decide (candidateRoot = rootHash)))
    (C2spTlogVerificationError "C2SP hash tiles do not reproduce the candidate root");;
  let st := mkTileState (tiles st) (map tile_key (tiles st)) in
  '(trustedRoot, st) ← root st trustedSize;
  st ← authenticate_all visit_fuel 0 st;
  Ok (trustedRoot, st).

End Run.

(** [undefined] is [None], which only a trusted size of zero gives. *)
Definition authenticatedTilePrefixRoot (prefix : jsstr) (treeSize : Z) (rootHash : bytes)
    (trustedSize : Z) (read : jsstr -> Z -> res bytes) : res (option bytes) :=
  fst <$> tile_run prefix treeSize read rootHash trustedSize.

End Tiles.

(** ** Lemmas: [fold] *)

Lemma split_point_unique p e n : p = (2 ^ e)%nat -> (p < n <= 2 * p)%nat -> split_point n = p.
Proof.
  intros -> Hn. unfold split_point. f_equal. apply Nat.log2_unique; [lia|].
  rewrite Nat.pow_succ_r'. lia.
Qed.

Lemma split_point_pow2 n : exists e, split_point n = (2 ^ e)%nat.
Proof. by eexists. Qed.

Lemma grow_split_point fuel e n : (2 ^ e < n)%nat -> (n <= 2 ^ e + fuel)%nat ->
  grow_split fuel (2 ^ e) n = split_point n.
Proof.
  revert e; induction fuel as [|fuel IH]; intros e H1 H2; [lia|]. cbn [grow_split].
  destruct (Nat.ltb_spec (2 ^ e * 2) n) as [H|H].
  - replace (2 ^ e * 2)%nat with (2 ^ S e)%nat in * by (rewrite Nat.pow_succ_r'; lia).
    assert (1 <= 2 ^ e)%nat by (pose proof (Nat.pow_nonzero 2 e); lia).
    rewrite Nat.pow_succ_r' in *. replace (2 * 2 ^ e)%nat with (2 ^ S e)%nat in * by (rewrite Nat.pow_succ_r'; lia).
    apply IH; [lia|]. rewrite Nat.pow_succ_r'. lia.
  - symmetry. apply (split_point_unique _ e); [done|]. lia.
Qed.

Lemma grow_split_eq n : (2 <= n)%nat -> grow_split n 1 n = split_point n.
Proof. intros Hn. apply (grow_split_point n 0); cbn; lia. Qed.

Section FoldProps.
Context `{H256 : Hash256}.

Lemma fold_fuel_S fuel hs s : (2 <= length hs)%nat ->
  fold_fuel (S fuel) hs s =
  let k := split_point (length hs) in
  match s with
  | Some x =>
      if (2 * k =? length hs)%nat then nodeHash (fold_fuel fuel hs None) x
      else nodeHash (fold_fuel fuel (take k hs) None) (fold_fuel fuel (drop k hs) s)
  | None => nodeHash (fold_fuel fuel (take k hs) None) (fold_fuel fuel (drop k hs) None)
  end.
Proof.
  intros Hl. cbv zeta. rewrite <-grow_split_eq by done. rewrite (Nat.mul_comm 2).
  destruct hs as [|a [|b hs]]; [cbn in Hl; lia|cbn in Hl; lia|done].
Qed.

Definition need (hs : list bytes) (s : option bytes) : nat :=
  match s with Some _ => S (length hs) | None => length hs end.

Lemma fold_fuel_eq f1 f2 hs s : hs <> [] -> (need hs s <= f1)%nat -> (need hs s <= f2)%nat ->
  fold_fuel f1 hs s = fold_fuel f2 hs s.
Proof.
  revert f2 hs s; induction f1 as [|f1 IH]; intros [|f2] hs s Hne H1 H2;
    [done|by destruct s, hs; cbn in *; try lia; try done..|].
  destruct (Nat.le_gt_cases 2 (length hs)) as [Hl|Hl].
  2:{ destruct hs as [|a [|b hs]]; [done|done|cbn in Hl; lia]. }
  rewrite !fold_fuel_S by done. cbv zeta. pose proof (split_point_bounds (length hs) Hl) as Hk.
  assert (Hsub : forall s', (need (take (split_point (length hs)) hs) None <= f1 /\ need (take (split_point (length hs)) hs) None <= f2)%nat
    /\ ((need hs s' <= S f1)%nat -> (need (drop (split_point (length hs)) hs) s' <= f1)%nat)
    /\ ((need hs s' <= S f2)%nat -> (need (drop (split_point (length hs)) hs) s' <= f2)%nat)).
  { intros s'. unfold need in *. rewrite !length_take, !length_drop. destruct s, s'; lia. }
  assert (Ht : take (split_point (length hs)) hs <> []).
  { intros E%(f_equal length). rewrite length_take in E. cbn in E. lia. }
  assert (Hd : drop (split_point (length hs)) hs <> []).
  { intros E%(f_equal length). rewrite length_drop in E. cbn in E. lia. }
  destruct (Hsub s) as ((? & ?) & Hd1 & Hd2).
  destruct s as [x|]; [destruct (_ =? _)%nat|]; f_equal; apply IH; auto; unfold need in *; lia.
Qed.

Lemma fold_hashes_fuel f hs s : hs <> [] -> (need hs s <= f)%nat -> fold_fuel f hs s = fold_hashes hs s.
Proof. intros Hne Hf. apply fold_fuel_eq; [done|done|]. unfold need. destruct s; lia. Qed.

Lemma fold_hashes_1 h s : fold_hashes [h] s = match s with Some s => nodeHash h s | None => h end.
Proof. done. Qed.

(** The equation of the source. *)
Lemma fold_hashes_split hs s : (2 <= length hs)%nat ->
  fold_hashes hs s =
  let k := split_point (length hs) in
  match s with
  | Some x =>
      if (2 * k =? length hs)%nat then nodeHash (fold_hashes hs None) x
      else nodeHash (fold_hashes (take k hs) None) (fold_hashes (drop k hs) s)
  | None => nodeHash (fold_hashes (take k hs) None) (fold_hashes (drop k hs) None)
  end.
Proof.
  intros Hl. unfold fold_hashes at 1. rewrite fold_fuel_S by done. cbv zeta.
  pose proof (split_point_bounds (length hs) Hl) as Hk.
  assert (Ht : take (split_point (length hs)) hs <> []).
  { intros E%(f_equal length). rewrite length_take in E. cbn in E. lia. }
  assert (Hd : drop (split_point (length hs)) hs <> []).
  { intros E%(f_equal length). rewrite length_drop in E. cbn in E. lia. }
  assert (hs <> []) by (intros ->; cbn in Hl; lia).
  rewrite !fold_hashes_fuel; unfold need; rewrite ?length_take, ?length_drop; try done; try (destruct s); try lia.
Qed.

(** Without a suffix it is the RFC 6962 tree head. *)
Lemma fold_hashes_mth hs : hs <> [] -> fold_hashes hs None = mth nodeHash [] hs.
Proof.
  induction hs as [hs IH] using list_len_ind; intros Hne.
  destruct (Nat.le_gt_cases 2 (length hs)) as [Hl|Hl].
  2:{ destruct hs as [|a [|b hs]]; [done|done|cbn in Hl; lia]. }
  rewrite fold_hashes_split, (mth_split nodeHash []) by done. cbv zeta.
  pose proof (split_point_bounds (length hs) Hl) as Hk.
  f_equal; apply IH; rewrite ?length_take, ?length_drop; try lia;
    intros E%(f_equal length); rewrite ?length_take, ?length_drop in E; cbn in E; lia.
Qed.

End FoldProps.

(** ** Levels of tiles

    [256] as a number the tactics do not compute with. *)
Definition tile_size : nat := 256.
Lemma tile_size_pow : tile_size = (2 ^ 8)%nat.
Proof. done. Qed.
Lemma tile_size_Z : Z.of_nat tile_size = 256.
Proof. done. Qed.
Lemma tile_size_2 : (2 <= tile_size)%nat.
Proof. unfold tile_size. lia. Qed.
#[local] Opaque tile_size.

Section Levels.
Context `{H256 : Hash256}.

(** The [i]-th chunk of 256 elements of a level; the hashes of its full chunks, which
    are the next level; what follows the full chunks. *)
Definition chunk (i : nat) (v : list bytes) : list bytes := take tile_size (drop (tile_size * i) v).
Definition up (v : list bytes) : list bytes :=
  map (fun i => fold_hashes (chunk i v) None) (seq 0 (length v / tile_size)).
Definition rest (v : list bytes) : list bytes := drop (tile_size * (length v / tile_size)) v.
Definition next_suffix (v : list bytes) (s : option bytes) : option bytes :=
  match rest v with [] => s | r => Some (fold_hashes r s) end.

(** The levels of a log: the leaf hashes, and repeatedly the hashes of full chunks. *)
Definition level_hashes (entries : list bytes) (level : nat) : list bytes :=
  Nat.iter level up (map leafHash entries).

Lemma length_up v : length (up v) = (length v / tile_size)%nat.
Proof. unfold up. by rewrite length_map, length_seq. Qed.

Lemma up_lookup v i : (i < length v / tile_size)%nat -> up v !! i = Some (fold_hashes (chunk i v) None).
Proof.
  intros Hi. unfold up. rewrite (list_lookup_fmap (fun i => fold_hashes (chunk i v) None)).
  by rewrite lookup_seq_lt.
Qed.

Lemma up_lookup_Some v i h : up v !! i = Some h ->
  (i < length v / tile_size)%nat /\ h = fold_hashes (chunk i v) None.
Proof.
  intros H. assert (Hi : (i < length v / tile_size)%nat) by (rewrite <-length_up; by eapply lookup_lt_Some).
  split; [done|]. rewrite up_lookup in H by done. congruence.
Qed.

Lemma div_tile n q r : (n = tile_size * q + r)%nat -> (r < tile_size)%nat -> (n / tile_size = q)%nat.
Proof. intros -> Hr. symmetry. eapply Nat.div_unique; [exact Hr|done]. Qed.

Lemma length_tiles {A} (v : list A) : exists q r, (length v = tile_size * q + r /\ r < tile_size /\ length v / tile_size = q)%nat.
Proof.
  exists (length v / tile_size)%nat, (length v mod tile_size)%nat. pose proof tile_size_2.
  split; [apply Nat.div_mod_eq|]. split; [apply Nat.mod_upper_bound; lia|done].
Qed.

Lemma chunk_full v i : (i < length v / tile_size)%nat -> length (chunk i v) = tile_size.
Proof.
  intros Hi. destruct (length_tiles v) as (q & r & Hn & Hr & Hq).
  unfold chunk. rewrite length_take, length_drop. nia.
Qed.

Lemma chunk_take v i j : (i < j)%nat -> chunk i (take (tile_size * j) v) = chunk i v.
Proof.
  intros Hi. unfold chunk. rewrite !take_drop_commute, take_take, Nat.min_l; [done|].
  pose proof tile_size_2. nia.
Qed.

Lemma up_take v j : (tile_size * j <= length v)%nat -> up (take (tile_size * j) v) = take j (up v).
Proof.
  intros Hj. pose proof tile_size_2. destruct (length_tiles v) as (q & r & Hn & Hr & Hq).
  assert (Hjq : (j <= q)%nat) by nia.
  assert (Hd : (length (take (tile_size * j) v) / tile_size = j)%nat).
  { rewrite length_take, Nat.min_l by done. apply (div_tile _ _ 0); lia. }
  apply list_eq. intros i. destruct (Nat.lt_ge_cases i j) as [Hi|Hi].
  - rewrite lookup_take_lt by done. rewrite (up_lookup (take _ _)) by (rewrite Hd; done).
    rewrite (up_lookup v) by (rewrite Hq; lia). by rewrite chunk_take.
  - rewrite lookup_take_ge by done. apply lookup_ge_None_2. by rewrite length_up, Hd.
Qed.

Lemma drop_tiles (v : list bytes) j : (tile_size * j <= length v)%nat ->
  (length (drop (tile_size * j) v) / tile_size = length v / tile_size - j)%nat.
Proof.
  intros Hj. pose proof tile_size_2. destruct (length_tiles v) as (q & r & Hn & Hr & ->).
  rewrite length_drop. apply (div_tile _ _ r); [|done].
  assert (j <= q)%nat by nia. rewrite Nat.mul_sub_distr_l. nia.
Qed.

Lemma up_drop v j : (tile_size * j <= length v)%nat -> up (drop (tile_size * j) v) = drop j (up v).
Proof.
  intros Hj. pose proof tile_size_2. destruct (length_tiles v) as (q & r & Hn & Hr & Hq).
  pose proof (drop_tiles v j Hj) as Hd. rewrite Hq in Hd.
  apply list_eq. intros i. rewrite lookup_drop. destruct (Nat.lt_ge_cases i (q - j)) as [Hi|Hi].
  - rewrite (up_lookup (drop _ _)) by (rewrite Hd; done). rewrite (up_lookup v) by (rewrite Hq; lia).
    do 2 f_equal. unfold chunk. rewrite drop_drop.
    by replace (tile_size * j + tile_size * i)%nat with (tile_size * (j + i))%nat by lia.
  - rewrite !lookup_ge_None_2; [done|rewrite length_up, ?Hd, ?Hq; lia..].
Qed.

Lemma rest_drop v j : (tile_size * j <= length v)%nat -> rest (drop (tile_size * j) v) = rest v.
Proof.
  intros Hj. pose proof tile_size_2. destruct (length_tiles v) as (q & r & Hn & Hr & Hq).
  pose proof (drop_tiles v j Hj) as Hd. rewrite Hq in Hd.
  unfold rest. rewrite Hd, Hq, drop_drop. f_equal.
  assert (j <= q)%nat by nia. rewrite Nat.mul_sub_distr_l. nia.
Qed.

Lemma rest_take v j : (tile_size * j <= length v)%nat -> rest (take (tile_size * j) v) = [].
Proof.
  intros Hj. pose proof tile_size_2. unfold rest. rewrite length_take, Nat.min_l by done.
  rewrite (div_tile _ j 0) by lia. apply drop_ge. rewrite length_take. lia.
Qed.

Lemma next_suffix_take v j s : (tile_size * j <= length v)%nat ->
  next_suffix (take (tile_size * j) v) s = s.
Proof. intros Hj. unfold next_suffix. by rewrite rest_take. Qed.

Lemma next_suffix_drop v j s : (tile_size * j <= length v)%nat ->
  next_suffix (drop (tile_size * j) v) s = next_suffix v s.
Proof. intros Hj. unfold next_suffix. by rewrite rest_drop. Qed.

(** Splitting a list of [q] full chunks and a remainder [r]: the split point falls on
    a chunk boundary. *)
Lemma split_point_tiles q : (2 <= q)%nat -> forall r, (r < tile_size)%nat ->
  split_point (tile_size * q + r) =
  if (r =? 0)%nat then (tile_size * split_point q)%nat
  else if (2 * split_point q =? q)%nat then (tile_size * q)%nat else (tile_size * split_point q)%nat.
Proof.
  intros Hq r Hr. pose proof tile_size_2. destruct (split_point_pow2 q) as [e He].
  pose proof (split_point_bounds q Hq) as Hk.
  assert (Hp : (tile_size * split_point q = 2 ^ (8 + e))%nat) by (rewrite Nat.pow_add_r, <-tile_size_pow; lia).
  assert (Hp2 : (tile_size * (2 * split_point q) = 2 ^ (9 + e))%nat).
  { rewrite He, tile_size_pow. change (2 ^ (9 + e))%nat with (2 ^ (1 + (8 + e)))%nat.
    rewrite !Nat.pow_add_r. change (2 ^ 1)%nat with 2%nat. lia. }
  destruct (Nat.eqb_spec r 0) as [->|Hr0].
  { apply (split_point_unique _ _ _ Hp). nia. }
  destruct (Nat.eqb_spec (2 * split_point q) q) as [E|E].
  - rewrite E in Hp2. apply (split_point_unique _ _ _ Hp2). nia.
  - apply (split_point_unique _ _ _ Hp). assert (q + 1 <= 2 * split_point q)%nat by lia. nia.
Qed.

Lemma fold_one_chunk v s r : length v = (tile_size + r)%nat -> (r < tile_size)%nat ->
  fold_hashes v s = fold_hashes (up v) (next_suffix v s).
Proof.
  intros Hn Hr. pose proof tile_size_2.
  assert (Hd : (length v / tile_size = 1)%nat) by (apply (div_tile _ _ r); lia).
  assert (Hup : up v = [fold_hashes (take tile_size v) None]).
  { unfold up. rewrite Hd. cbn. unfold chunk. by rewrite Nat.mul_0_r, drop_0. }
  assert (Hrest : rest v = drop tile_size v) by (unfold rest; by rewrite Hd, Nat.mul_1_r).
  rewrite Hup, fold_hashes_1. unfold next_suffix. rewrite Hrest.
  destruct (decide (r = 0%nat)) as [->|Hr0].
  - rewrite (drop_ge v), (take_ge v) by lia. destruct s as [x|]; [|done].
    rewrite fold_hashes_split by lia. cbv zeta. rewrite Hn, Nat.add_0_r.
    assert (split_point tile_size = 2 ^ 7)%nat as ->.
    { apply (split_point_unique _ 7); [done|]. rewrite tile_size_pow. cbn. lia. }
    by rewrite (proj2 (Nat.eqb_eq (2 * 2 ^ 7) tile_size)) by (by rewrite tile_size_pow).
  - assert (Hne : drop tile_size v <> []).
    { intros E%(f_equal length). rewrite length_drop in E. cbn in E. lia. }
    rewrite fold_hashes_split by lia. cbv zeta.
    rewrite (split_point_unique tile_size 8 (length v)) by (apply tile_size_pow || lia).
    rewrite (proj2 (Nat.eqb_neq _ _)) by lia. destruct (drop tile_size v); [done|]. by destruct s.
Qed.

Lemma fold_up_None q v : (1 <= q)%nat -> length v = (tile_size * q)%nat ->
  fold_hashes v None = fold_hashes (up v) None.
Proof.
  revert q; induction v as [v IH] using list_len_ind; intros q Hq Hn. pose proof tile_size_2.
  destruct (decide (q = 1%nat)) as [->|Hq1].
  { rewrite (fold_one_chunk v None 0) by lia. f_equal. rewrite <-(firstn_all v), Hn.
    by rewrite next_suffix_take by lia. }
  pose proof (split_point_bounds q ltac:(lia)) as Hk.
  assert (Hu : length (up v) = q) by (rewrite length_up; apply (div_tile _ _ 0); lia).
  rewrite fold_hashes_split, (fold_hashes_split (up v)) by (rewrite ?Hu; nia). cbv zeta.
  rewrite Hu, Hn. pose proof (split_point_tiles q ltac:(lia) 0 ltac:(lia)) as Hs.
  rewrite Nat.add_0_r in Hs. cbn [Nat.eqb] in Hs. rewrite Hs.
  rewrite <-up_take, <-up_drop by nia.
  assert (tile_size * split_point q + tile_size * (q - split_point q) = tile_size * q)%nat
    by (rewrite <-Nat.mul_add_distr_l; f_equal; lia).
  assert (0 < tile_size * split_point q /\ 0 < tile_size * (q - split_point q))%nat by nia.
  f_equal; [apply (IH _) with (split_point q)|apply (IH _) with (q - split_point q)%nat];
    rewrite ?length_take, ?length_drop; lia.
Qed.

(** The hashes of the full chunks and a suffix for the rest have the same fold. *)
Lemma fold_up v s : (tile_size <= length v)%nat -> fold_hashes v s = fold_hashes (up v) (next_suffix v s).
Proof.
  revert s; induction v as [v IH] using list_len_ind; intros s Hl. pose proof tile_size_2.
  destruct (length_tiles v) as (q & r & Hn & Hr & Hq).
  assert (Hq1 : (1 <= q)%nat) by (destruct q; lia).
  destruct (decide (q = 1%nat)) as [->|Hq2]; [apply (fold_one_chunk _ _ r); lia|].
  pose proof (split_point_bounds q ltac:(lia)) as Hk.
  assert (Hu : length (up v) = q) by (by rewrite length_up).
  rewrite fold_hashes_split, (fold_hashes_split (up v)) by (rewrite ?Hu; nia). cbv zeta.
  rewrite Hu, Hn, (split_point_tiles q ltac:(lia) r Hr).
  set (k := split_point q) in *.
  assert (Hkq : (tile_size * k + tile_size * (q - k) = tile_size * q)%nat)
    by (rewrite <-Nat.mul_add_distr_l; f_equal; lia).
  assert (tile_size <= tile_size * k /\ tile_size <= tile_size * (q - k))%nat by nia.
  assert (Hsplit : forall s', nodeHash (fold_hashes (take (tile_size * k) v) None)
      (fold_hashes (drop (tile_size * k) v) s')
    = nodeHash (fold_hashes (take k (up v)) None) (fold_hashes (drop k (up v)) (next_suffix v s'))).
  { intros s'. rewrite (IH (take (tile_size * k) v)), (IH (drop (tile_size * k) v))
      by (rewrite ?length_take, ?length_drop; lia).
    by rewrite up_take, up_drop, next_suffix_take, next_suffix_drop by lia. }
  destruct (Nat.eqb_spec r 0) as [->|Hr0].
  - assert (Hns : forall s', next_suffix v s' = s').
    { intros s'. rewrite <-(firstn_all v), Hn, Nat.add_0_r. apply next_suffix_take. lia. }
    rewrite Hns. destruct s as [x|]; [|by rewrite Hsplit, Hns].
    rewrite Nat.add_0_r. destruct (Nat.eqb_spec (2 * k) q) as [E|E].
    + rewrite (proj2 (Nat.eqb_eq _ _)) by nia. f_equal. apply (fold_up_None q); lia.
    + rewrite (proj2 (Nat.eqb_neq _ _)) by nia. by rewrite Hsplit, Hns.
  - assert (Hns : forall s', next_suffix v s' = Some (fold_hashes (drop (tile_size * q) v) s')).
    { intros s'. unfold next_suffix, rest. rewrite Hq. destruct (drop (tile_size * q) v) eqn:E; [|done].
      apply (f_equal length) in E. rewrite length_drop in E. cbn in E. lia. }
    rewrite Hns. destruct (Nat.eqb_spec (2 * k) q) as [E|E].
    + assert (Hf : fold_hashes (take (tile_size * q) v) None = fold_hashes (up v) None).
      { rewrite (fold_up_None q), up_take by (rewrite ?length_take; lia). by rewrite <-Hu, firstn_all. }
      rewrite Hf. destruct s as [x|]; [|done]. by rewrite (proj2 (Nat.eqb_neq _ _)) by nia.
    + rewrite !Hsplit, !Hns. destruct s as [x|]; [|done]. by rewrite (proj2 (Nat.eqb_neq _ _)) by nia.
Qed.

(** The levels walked up from [v], with the suffix of the smaller chunks to the right. *)
Fixpoint spec_root (fuel : nat) (v : list bytes) (s : option bytes) : option bytes :=
  match fuel with
  | O => s
  | S fuel => match v with [] => s | _ => spec_root fuel (up v) (next_suffix v s) end
  end.

Lemma spec_root_nil fuel s : spec_root fuel [] s = s.
Proof. by destruct fuel. Qed.

Lemma zlen_up v : zlen (up v) = zlen v / 256.
Proof. unfold zlen. by rewrite length_up, Nat2Z.inj_div, tile_size_Z. Qed.

Lemma zlen_up_lt v fuel : zlen v < 256 ^ Z.of_nat (S fuel) -> zlen (up v) < 256 ^ Z.of_nat fuel.
Proof.
  intros H. rewrite zlen_up. apply Z.div_lt_upper_bound; [lia|].
  rewrite Nat2Z.inj_succ, Z.pow_succ_r in H by lia. lia.
Qed.

Lemma spec_root_fold fuel v s : v <> [] -> zlen v < 256 ^ Z.of_nat fuel ->
  spec_root fuel v s = Some (fold_hashes v s).
Proof.
  revert v s; induction fuel as [|fuel IH]; intros v s Hne Hv.
  { pose proof (zlen_pos v Hne). change (256 ^ Z.of_nat 0) with 1 in Hv. lia. }
  cbn [spec_root]. destruct v as [|h v]; [done|]. set (w := h :: v) in *. pose proof tile_size_2.
  destruct (Nat.lt_ge_cases (length w) tile_size) as [Hl|Hl].
  - assert (Hd : (length w / tile_size = 0)%nat) by (apply (div_tile _ _ (length w)); lia).
    assert (up w = []) as -> by (unfold up; by rewrite Hd).
    rewrite spec_root_nil. unfold next_suffix, rest. by rewrite Hd, Nat.mul_0_r.
  - rewrite IH, <-fold_up; [done|done| |by apply zlen_up_lt].
    intros E%(f_equal length). rewrite length_up in E. cbn [length] in E.
    destruct (length_tiles w) as (q & r & Hn & Hr & Hq). destruct q; lia.
Qed.

(** ** Collisions

    All messages hashed by a run and by the log are known, so a collision among them
    can be searched for. *)

Definition node_message (a b : bytes) : bytes := x01 :: a ++ b.

Lemma nodeHash_message a b : nodeHash a b = digest (node_message a b).
Proof. unfold nodeHash, sha256. cbn. by rewrite app_nil_r. Qed.

Definition collision_in (messages : list bytes) : option (bytes * bytes) :=
  List.find (fun p => negb (bool_decide (fst p = snd p)) && bool_decide (digest (fst p) = digest (snd p)))
    (list_prod messages messages).

Definition injective_on (messages : list bytes) : Prop :=
  forall x y, x ∈ messages -> y ∈ messages -> digest x = digest y -> x = y.

Lemma collision_in_spec messages :
  match collision_in messages with
  | Some (x, y) => x <> y /\ digest x = digest y
  | None => injective_on messages
  end.
Proof.
  unfold collision_in. destruct (List.find _ _) as [[x y]|] eqn:E.
  - apply find_some in E as [_ E]. cbn in E. by bool_inv.
  - intros x y Hx Hy Hd. apply list_elem_of_In in Hx, Hy.
    pose proof (find_none _ _ E (x, y) (in_prod _ _ _ _ Hx Hy)) as Hf. cbn in Hf.
    apply andb_false_iff in Hf as [Hf|Hf]; bool_inv; [done|]. by rewrite Hd in Hf.
Qed.

Lemma injective_on_subset m m' : injective_on m -> m' ⊆ m -> injective_on m'.
Proof. intros H Hs x y Hx Hy. apply H; by apply Hs. Qed.

(** The messages that [fold_fuel] hashes. *)
Fixpoint fold_messages (fuel : nat) (hashes : list bytes) (suffix : option bytes) : list bytes :=
  match fuel with
  | O => []
  | S fuel =>
      match hashes with
      | [h] => match suffix with Some s => [node_message h s] | None => [] end
      | _ =>
          let k := split_point (length hashes) in
          let split :=
            node_message (fold_fuel fuel (take k hashes) None) (fold_fuel fuel (drop k hashes) suffix)
            :: fold_messages fuel (take k hashes) None ++ fold_messages fuel (drop k hashes) suffix in
          match suffix with
          | Some s =>
              if (2 * k =? length hashes)%nat
              then node_message (fold_fuel fuel hashes None) s :: fold_messages fuel hashes None
              else split
          | None => split
          end
      end
  end.

Definition hash32 (h : bytes) : Prop := length h = 32%nat.
Definition suffix_ok (s : option bytes) : Prop := match s with Some h => hash32 h | None => True end.

Lemma nodeHash_32 a b : hash32 (nodeHash a b).
Proof. apply sha256_length. Qed.

Lemma fold_fuel_32 fuel hs s : hs <> [] -> (need hs s <= fuel)%nat -> Forall hash32 hs ->
  hash32 (fold_fuel fuel hs s).
Proof.
  intros Hne Hf Hh. destruct fuel as [|fuel]; [destruct s, hs; cbn in Hf; try lia; done|].
  destruct (Nat.le_gt_cases 2 (length hs)) as [Hl|Hl].
  - rewrite fold_fuel_S by done. cbv zeta. destruct s; [case_match|]; apply nodeHash_32.
  - destruct hs as [|a [|b hs]]; [done| |cbn in Hl; lia]. cbn.
    destruct s; [apply nodeHash_32|]. by inversion Hh.
Qed.

Lemma node_message_inj a b a' b' : hash32 a -> hash32 a' ->
  node_message a b = node_message a' b' -> a = a' /\ b = b'.
Proof. intros Ha Ha' [= H]. apply app_inj_1 in H; [done|]. unfold hash32 in *. lia. Qed.

Definition same_shape (s s' : option bytes) : Prop :=
  match s, s' with Some _, Some _ | None, None => True | _, _ => False end.

Lemma nodeHash_inj M a b a' b' : injective_on M -> node_message a b ∈ M -> node_message a' b' ∈ M ->
  hash32 a -> hash32 a' -> nodeHash a b = nodeHash a' b' -> a = a' /\ b = b'.
Proof.
  intros HM Hm Hm' Ha Ha' E. rewrite !nodeHash_message in E. apply HM in E; [|done..].
  by apply node_message_inj in E.
Qed.

Lemma fold_messages_S fuel hs s : (2 <= length hs)%nat ->
  fold_messages (S fuel) hs s =
  let k := split_point (length hs) in
  let split := node_message (fold_fuel fuel (take k hs) None) (fold_fuel fuel (drop k hs) s)
               :: fold_messages fuel (take k hs) None ++ fold_messages fuel (drop k hs) s in
  match s with
  | Some x => if (2 * k =? length hs)%nat
              then node_message (fold_fuel fuel hs None) x :: fold_messages fuel hs None else split
  | None => split
  end.
Proof. intros Hl. by destruct hs as [|a [|b hs]]; cbn in Hl; [lia|lia|]. Qed.

Lemma split_parts hs s fuel k : (2 <= length hs)%nat -> k = split_point (length hs) ->
  (need hs s <= S fuel)%nat ->
  take k hs <> [] /\ drop k hs <> [] /\ (need (take k hs) None <= fuel)%nat
  /\ (need (drop k hs) s <= fuel)%nat.
Proof.
  intros Hl -> Hf. pose proof (split_point_bounds (length hs) Hl) as Hk. unfold need in *.
  rewrite length_take, length_drop.
  split; [intros E%(f_equal length); rewrite length_take in E; cbn in E; lia|].
  split; [intros E%(f_equal length); rewrite length_drop in E; cbn in E; lia|]. destruct s; lia.
Qed.

(** Equal folds of lists of one length come from equal lists. *)
Lemma fold_fuel_inj M fuel hs hs' s s' :
  injective_on M -> hs <> [] -> length hs = length hs' -> (need hs s <= fuel)%nat ->
  Forall hash32 hs -> Forall hash32 hs' -> same_shape s s' ->
  fold_messages fuel hs s ⊆ M -> fold_messages fuel hs' s' ⊆ M ->
  fold_fuel fuel hs s = fold_fuel fuel hs' s' -> hs = hs' /\ s = s'.
Proof.
  intros HM. revert hs hs' s s'; induction fuel as [|fuel IH];
    intros hs hs' s s' Hne Hlen Hf Hh Hh' Hs Hm Hm' E; [destruct s, hs; cbn in Hf; try lia; done|].
  destruct (Nat.le_gt_cases 2 (length hs)) as [Hl|Hl].
  2:{ destruct hs as [|a [|b hs]], hs' as [|a' [|b' hs']]; try done; try (cbn in Hl; lia).
      inversion Hh; inversion Hh'; subst. destruct s as [x|], s' as [x'|]; try done.
      - cbn in E, Hm, Hm'. apply (nodeHash_inj M) in E as [-> ->]; try done; set_solver.
      - cbn in E. by subst. }
  rewrite !fold_fuel_S in E by lia. rewrite !fold_messages_S in Hm, Hm' by lia. cbv zeta in *.
  rewrite <-Hlen in *. set (k := split_point (length hs)) in *.
  assert (Hsplit : forall z z', same_shape z z' -> (need hs z <= S fuel)%nat ->
    node_message (fold_fuel fuel (take k hs) None) (fold_fuel fuel (drop k hs) z)
      :: fold_messages fuel (take k hs) None ++ fold_messages fuel (drop k hs) z ⊆ M ->
    node_message (fold_fuel fuel (take k hs') None) (fold_fuel fuel (drop k hs') z')
      :: fold_messages fuel (take k hs') None ++ fold_messages fuel (drop k hs') z' ⊆ M ->
    nodeHash (fold_fuel fuel (take k hs) None) (fold_fuel fuel (drop k hs) z)
    = nodeHash (fold_fuel fuel (take k hs') None) (fold_fuel fuel (drop k hs') z') -> hs = hs' /\ z = z').
  { intros z z' Hz Hfz Hmz Hmz' Ez.
    destruct (split_parts hs z fuel k Hl eq_refl Hfz) as (? & ? & ? & ?).
    destruct (split_parts hs' z' fuel k ltac:(lia) ltac:(unfold k; by rewrite Hlen)
                ltac:(unfold need in *; destruct z, z'; done || lia)) as (? & ? & ? & ?).
    apply (nodeHash_inj M) in Ez as [E1 E2]; [|done|set_solver|set_solver|
      apply fold_fuel_32; by auto using Forall_take..].
    apply IH in E1 as [E1 _]; [|by rewrite ?length_take, ?Hlen; auto using Forall_take..|set_solver|set_solver].
    apply IH in E2 as [E2 ->]; [|by rewrite ?length_drop, ?Hlen; auto using Forall_drop..|set_solver|set_solver].
    split; [|done]. by rewrite <-(take_drop k hs), <-(take_drop k hs'), E1, E2. }
  destruct s as [x|], s' as [x'|]; [|done|done|by apply Hsplit].
  destruct (2 * k =? length hs)%nat; [|by apply Hsplit].
  assert (Hn : (need hs None <= fuel)%nat) by (unfold need in *; lia).
  assert (hs' <> []) by (intros ->; cbn in Hlen; lia).
  assert (need hs' None <= fuel)%nat by (unfold need in *; lia).
  apply (nodeHash_inj M) in E as [E1 ->]; [|done|set_solver|set_solver|by apply fold_fuel_32..].
  apply IH in E1 as [-> _]; try done; set_solver.
Qed.

Lemma fold_hashes_inj M hs hs' s s' :
  injective_on M -> hs <> [] -> length hs = length hs' ->
  Forall hash32 hs -> Forall hash32 hs' -> same_shape s s' ->
  fold_messages (S (length hs)) hs s ⊆ M -> fold_messages (S (length hs')) hs' s' ⊆ M ->
  fold_hashes hs s = fold_hashes hs' s' -> hs = hs' /\ s = s'.
Proof.
  unfold fold_hashes. intros HM Hne Hl. rewrite <-Hl. apply (fold_fuel_inj M); try done.
  unfold need. destruct s; lia.
Qed.

Lemma fold_hashes_32 hs s : hs <> [] -> Forall hash32 hs -> hash32 (fold_hashes hs s).
Proof. intros Hne Hh. apply fold_fuel_32; [done| |done]. unfold need. destruct s; lia. Qed.

(** *** The levels of a log *)

Lemma level_hashes_S entries l : level_hashes entries (S l) = up (level_hashes entries l).
Proof. done. Qed.

Lemma zlen_level entries l : zlen (level_hashes entries l) = zlen entries / 256 ^ Z.of_nat l.
Proof.
  induction l as [|l IH].
  - change (256 ^ Z.of_nat 0) with 1. rewrite Z.div_1_r. unfold level_hashes, zlen. cbn [Nat.iter nat_rect].
    by rewrite length_map.
  - rewrite level_hashes_S, zlen_up, IH, Z.div_div by lia. f_equal.
    rewrite Nat2Z.inj_succ, Z.pow_succ_r by lia. lia.
Qed.

Lemma up_32 v : Forall hash32 v -> Forall hash32 (up v).
Proof.
  intros Hv. unfold up. apply Forall_fmap, Forall_forall. intros i Hi%elem_of_seq. cbv beta.
  apply fold_hashes_32; [|by apply Forall_take, Forall_drop].
  pose proof tile_size_2. intros E%(f_equal length). rewrite chunk_full in E by lia. cbn in E. lia.
Qed.

Lemma level_hashes_32 entries l : Forall hash32 (level_hashes entries l).
Proof.
  induction l as [|l IH]; [|rewrite level_hashes_S; by apply up_32].
  unfold level_hashes. cbn [Nat.iter nat_rect]. apply Forall_fmap, Forall_forall. intros e _. apply sha256_length.
Qed.

Lemma rest_32 v : Forall hash32 v -> Forall hash32 (rest v).
Proof. apply Forall_drop. Qed.

Lemma rest_chunk v : rest v = chunk (length v / tile_size) v.
Proof.
  unfold rest, chunk. symmetry. apply take_ge. rewrite length_drop.
  destruct (length_tiles v) as (q & r & Hn & Hr & ->). lia.
Qed.

Lemma zlen_rest v : zlen (rest v) = zlen v mod 256.
Proof.
  unfold zlen, rest. rewrite length_drop. pose proof tile_size_Z.
  pose proof (Nat.div_mod_eq (length v) tile_size). pose proof tile_size_2.
  change 256 with (Z.of_nat tile_size) at 1. rewrite <-Nat2Z.inj_mod. f_equal. lia.
Qed.

Lemma spec_root_MTH entries m : (0 < m <= length entries)%nat -> zlen entries < 256 ^ 8 ->
  spec_root 8 (take m (map leafHash entries)) None = Some (MTH (take m entries)).
Proof.
  intros Hm Hs. assert (Hne : take m (map leafHash entries) <> []).
  { intros E%(f_equal length). rewrite length_take, length_map in E. cbn in E. lia. }
  rewrite spec_root_fold, fold_hashes_mth; [| done | done |].
  - rewrite firstn_map in *. unfold MTH. by destruct (take m entries).
  - unfold zlen in *. rewrite length_take, length_map. change (Z.of_nat 8) with 8. lia.
Qed.

End Levels.

(** ** Lemmas: runs *)

Section RunProps.
Context `{H256 : Hash256}.
Context (prefix : jsstr) (treeSize : Z) (read : jsstr -> Z -> res bytes).

Notation get := (get prefix treeSize read).
Notation root_loop := (root_loop prefix treeSize read).
Notation authenticate := (authenticate prefix treeSize read).
Notation authenticate_all := (authenticate_all prefix treeSize read).
Notation tile_width := (tile_width treeSize).

Definition tile_ok (t : Tile) : Prop :=
  length (tile_hashes t) = Z.to_nat (tile_width (tile_level t) (tile_index t))
  /\ Forall hash32 (tile_hashes t) /\ 0 <= tile_level t /\ 0 <= tile_index t.

Definition wf (st : tile_state) : Prop :=
  NoDup (map tile_key (tiles st)) /\ Forall tile_ok (tiles st).

Definition extends (st st' : tile_state) : Prop :=
  (exists ext, tiles st' = tiles st ++ ext) /\ authenticated st ⊆ authenticated st'.

#[local] Instance extends_preorder : PreOrder extends.
Proof.
  split.
  - intros st. split; [exists []; by rewrite app_nil_r|done].
  - intros s1 s2 s3 [[e1 E1] A1] [[e2 E2] A2]. split; [|set_solver].
    exists (e1 ++ e2). by rewrite E2, E1, app_assoc.
Qed.

Lemma find_tile_Some l level index t : find_tile l level index = Some t ->
  t ∈ l /\ tile_level t = level /\ tile_index t = index.
Proof.
  intros H. apply find_some in H as [Hin H]. apply list_elem_of_In in Hin. bool_inv. done.
Qed.

Lemma find_tile_app l l' level index t : find_tile l level index = Some t ->
  find_tile (l ++ l') level index = Some t.
Proof.
  unfold find_tile. induction l as [|x l IH]; [done|]. cbn. by destruct (_ && _).
Qed.

Lemma find_tile_None l level index : find_tile l level index = None -> (level, index) ∉ map tile_key l.
Proof.
  intros H Hin. apply list_elem_of_In, in_map_iff in Hin as (t & Hk & Ht).
  pose proof (find_none _ _ H t Ht) as Hf. injection Hk as <- <-. cbn in Hf. by rewrite !Z.eqb_refl in Hf.
Qed.

Lemma find_tile_elem l t : NoDup (map tile_key l) -> t ∈ l ->
  find_tile l (tile_level t) (tile_index t) = Some t.
Proof.
  unfold find_tile. induction l as [|x l IH]; [by intros _ ?%elem_of_nil|].
  cbn. intros [Hx Hl]%NoDup_cons [->|Ht]%elem_of_cons; [by rewrite !Z.eqb_refl|].
  destruct ((tile_level x =? tile_level t) && _) eqn:E; [|by apply IH].
  bool_inv. destruct Hx. apply list_elem_of_In, in_map_iff. exists t.
  split; [unfold tile_key; congruence|by apply list_elem_of_In].
Qed.

Lemma find_tile_extends st st' level index t : extends st st' ->
  find_tile (tiles st) level index = Some t -> find_tile (tiles st') level index = Some t.
Proof. intros [[ext ->] _]. apply find_tile_app. Qed.

Lemma fetch_tile_Ok level index width bytes rw :
  fetch_tile prefix read level index width = Ok (bytes, rw) -> rw = width \/ rw = 256.
Proof.
  unfold fetch_tile. intros [H|(e & _ & H)]%catch_Ok; [|destruct (_ || _); [done|]];
    apply bind_Ok in H as (? & _ & H); apply bind_Ok in H as (? & _ & [= _ <-]); auto.
Qed.

Lemma tile_slices_ok width rw bs : zlen bs = rw * 32 -> width <= rw ->
  length (tile_slices width bs) = Z.to_nat width /\ Forall hash32 (tile_slices width bs).
Proof.
  intros Hb Hw. unfold tile_slices. split; [by rewrite length_map, length_seqZ|].
  apply Forall_fmap, Forall_forall. intros i Hi%elem_of_seqZ.
  change (hash32 (slice bs (i * 32) ((i + 1) * 32))). unfold hash32, slice, zlen in *.
  rewrite length_take, length_drop. lia.
Qed.

(** What [get] returns: the tile under the key, which is in the cache afterwards. *)
Lemma get_Ok st level index t st' : 0 <= level -> 0 <= index -> wf st ->
  get st level index = Ok (t, st') ->
  extends st st' /\ wf st' /\ authenticated st' = authenticated st
  /\ find_tile (tiles st') level index = Some t /\ (tiles st' = tiles st \/ tiles st' = tiles st ++ [t]).
Proof.
  intros Hl Hi [Hnd Hok] H. unfold HashTiles.get in H.
  destruct (find_tile (tiles st) level index) as [c|] eqn:E.
  { injection H as <- <-. split; [reflexivity|]. split; [by split|]. auto. }
  apply bind_Ok in H as ([bs rw] & Hf & H). apply bind_Ok in H as (? & Hz%throw_if_Ok & H).
  injection H as <- <-. bool_inv. cbn [tiles authenticated].
  apply fetch_tile_Ok in Hf.
  assert (Hw : tile_width level index <= rw) by (unfold HashTiles.tile_width in *; lia).
  destruct (tile_slices_ok _ _ _ Hz Hw) as [Hlen H32].
  split; [split; [by eexists|done]|]. split; [split|]; cbn [tiles].
  - rewrite map_app. apply NoDup_app. split; [done|]. split; [|apply NoDup_singleton].
    intros k Hk ->%list_elem_of_singleton. by apply find_tile_None in E.
  - apply Forall_app. split; [done|]. constructor; [|done]. done.
  - split; [done|]. split; [|by right]. unfold find_tile in *. 
    clear -E. induction (tiles st) as [|x l IH]; cbn in *.
    + by rewrite !Z.eqb_refl.
    + destruct (_ && _); [done|]. by apply IH.
Qed.

(** The hashes under a key, and the loop of [root] on a complete cache. *)
Definition hashes_at (T : list Tile) (level index : Z) : list bytes :=
  match find_tile T level index with Some t => tile_hashes t | None => [] end.

Fixpoint tile_root (fuel : nat) (T : list Tile) (level count : Z) (suffix : option bytes) : option bytes :=
  match fuel with
  | O => suffix
  | S fuel =>
      if 0 <? count then
        if count mod 256 =? 0 then tile_root fuel T (level + 1) (count / 256) suffix
        else tile_root fuel T (level + 1) (count / 256)
               (Some (fold_hashes (slice (hashes_at T level (count / 256)) 0 (count mod 256)) suffix))
      else suffix
  end.

(** The keys that the loop visits. *)
Definition frontier (size : Z) (key : Z * Z) : Prop :=
  0 <= fst key /\ snd key = size / 256 ^ (fst key + 1) /\ size / 256 ^ fst key mod 256 <> 0.

Lemma frontier_above size level k : 0 <= level -> 0 <= size -> size / 256 ^ level <= 0 -> frontier size k ->
  level <= fst k -> False.
Proof.
  intros Hl Hs Hz (_ & _ & Hk) Hlk. apply Hk. pose proof (Z.div_pos size (256 ^ level) Hs ltac:(lia)).
  replace (fst k) with (level + (fst k - level)) by lia. rewrite Z.pow_add_r, <-Z.div_div by lia.
  replace (size / 256 ^ level) with 0 by lia. by rewrite Z.div_0_l by lia.
Qed.

Lemma root_loop_Ok fuel st level count suffix r st' size :
  0 <= level -> 0 <= size -> count = size / 256 ^ level -> wf st ->
  root_loop fuel st level count suffix = Ok (r, st') ->
  extends st st' /\ wf st' /\ authenticated st' = authenticated st
  /\ (forall t, t ∈ tiles st' -> t ∈ tiles st \/ frontier size (tile_key t))
  /\ (forall k, frontier size k -> level <= fst k < level + Z.of_nat fuel ->
        is_Some (find_tile (tiles st') (fst k) (snd k)))
  /\ forall st'', extends st' st'' -> r = tile_root fuel (tiles st'') level count suffix.
Proof.
  revert st level count suffix; induction fuel as [|fuel IH]; intros st level count suffix Hl Hs Hc Hw H; [done|].
  cbn [HashTiles.root_loop] in H. cbn [tile_root].
  destruct (Z.ltb_spec 0 count) as [Hp|Hp].
  2:{ injection H as <- <-. split; [reflexivity|]. do 3 (split; [by auto|]). split; [|done].
      intros k Hk Hlk. destruct (frontier_above size level k); [lia..|done|lia]. }
  assert (Hc' : count / 256 = size / 256 ^ (level + 1)).
  { rewrite Hc, Z.div_div by lia. f_equal. rewrite Z.pow_add_r by lia. lia. }
  assert (Hi : 0 <= count / 256) by (apply Z.div_pos; lia).
  destruct (Z.eqb_spec (count mod 256) 0) as [E|E].
  { apply (IH st (level + 1)) in H as (? & ? & ? & ? & Hk & ?); [|lia..|done].
    do 4 (split; [done|]). split; [|done]. intros k Hf Hlk. apply Hk; [done|].
    destruct (Z.eq_dec (fst k) level) as [El|]; [|lia].
    destruct Hf as (_ & _ & Hf). by rewrite El, <-Hc in Hf. }
  apply bind_Ok in H as ([t st1] & Hg & H). apply bind_Ok in H as (s & Hf & H).
  apply get_Ok in Hg as (He & Hw1 & Ha & Hft & Ht); [|done..].
  apply (IH st1 (level + 1)) in H as (He2 & Hw2 & Ha2 & Hk & Hfound & Hr); [|lia..|done].
  split; [by etrans|]. split; [done|]. split; [congruence|]. split; [|split].
  - intros x [Hx|Hx]%Hk; [|by right]. destruct Ht as [Ht|Ht]; rewrite Ht in Hx; [by left|].
    apply elem_of_app in Hx as [Hx|Hx%list_elem_of_singleton]; [by left|right]. subst x.
    apply find_tile_Some in Hft as (_ & Hk1 & Hk2). unfold frontier, tile_key. cbn.
    rewrite Hk1, Hk2, <-Hc. split; [done|]. by rewrite Hc'.
  - intros k Hfk Hlk. destruct (Z.eq_dec (fst k) level) as [El|]; [|apply Hfound; [done|lia]].
    destruct Hfk as (_ & Hsk & _). exists t. rewrite Hsk, El, <-Hc'. by apply (find_tile_extends st1).
  - intros st'' Hex. rewrite (Hr st'' Hex). unfold hashes_at.
    rewrite (find_tile_extends st1 st'' _ _ t) by (done || by etrans).
    unfold fold in Hf. by apply bind_Ok in Hf as (? & _ & [= <-]).
Qed.


(** *** Messages *)

Fixpoint root_messages (fuel : nat) (T : list Tile) (level count : Z) (suffix : option bytes) : list bytes :=
  match fuel with
  | O => []
  | S fuel =>
      if 0 <? count then
        if count mod 256 =? 0 then root_messages fuel T (level + 1) (count / 256) suffix
        else
          let hs := slice (hashes_at T level (count / 256)) 0 (count mod 256) in
          fold_messages (S (length hs)) hs suffix
          ++ root_messages fuel T (level + 1) (count / 256) (Some (fold_hashes hs suffix))
      else []
  end.

Fixpoint spec_messages (fuel : nat) (v : list bytes) (s : option bytes) : list bytes :=
  match fuel with
  | O => []
  | S fuel =>
      match v with
      | [] => []
      | _ => match rest v with [] => [] | r => fold_messages (S (length r)) r s end
             ++ spec_messages fuel (up v) (next_suffix v s)
      end
  end.

(** A tile is right when it holds the log's own hashes. *)
Definition right (entries : list bytes) (t : Tile) : Prop :=
  tile_hashes t = chunk (Z.to_nat (tile_index t)) (level_hashes entries (Z.to_nat (tile_level t))).

Lemma frontier_tile T l t count : find_tile T l (count / 256) = Some t -> Forall tile_ok T ->
  count = treeSize / 256 ^ l -> 0 < count ->
  zlen (tile_hashes t) = count mod 256 /\ slice (hashes_at T l (count / 256)) 0 (count mod 256) = tile_hashes t
  /\ Forall hash32 (tile_hashes t).
Proof.
  intros Hft HT Hc Hp. apply find_tile_Some in Hft as Ht. destruct Ht as (Hin & Hl & Hi).
  rewrite Forall_forall in HT. destruct (HT t Hin) as (Hlen & H32 & _).
  assert (Hz : zlen (tile_hashes t) = count mod 256).
  { unfold zlen. rewrite Hlen. unfold HashTiles.tile_width. rewrite Hl, Hi, <-Hc.
    pose proof (Z.mod_pos_bound count 256 eq_refl). pose proof (Z.div_mod count 256 ltac:(lia)). lia. }
  split; [done|]. split; [|done]. unfold hashes_at. rewrite Hft. unfold slice. rewrite Z.sub_0_r.
  change (drop (Z.to_nat 0) (tile_hashes t)) with (tile_hashes t). apply take_ge. unfold zlen in Hz. lia.
Qed.

Lemma spec_root_S fuel v s :
  spec_root (S fuel) v s = if 0 <? zlen v then spec_root fuel (up v) (next_suffix v s) else s.
Proof.
  destruct v as [|h v]; [done|]. rewrite (proj2 (Z.ltb_lt 0 (zlen (h :: v)))); [done|by apply zlen_pos].
Qed.

Lemma spec_messages_S fuel v s :
  spec_messages (S fuel) v s =
  if 0 <? zlen v then
    match rest v with [] => [] | r => fold_messages (S (length r)) r s end
    ++ spec_messages fuel (up v) (next_suffix v s)
  else [].
Proof.
  destruct v as [|h v]; [done|]. rewrite (proj2 (Z.ltb_lt 0 (zlen (h :: v)))); [done|by apply zlen_pos].
Qed.

Lemma rest_right entries l t : tile_key t = (Z.of_nat l, zlen (level_hashes entries l) / 256) ->
  tile_hashes t = rest (level_hashes entries l) -> right entries t.
Proof.
  intros [= Hl Hi] Ht. unfold right. rewrite Hl, Hi, Nat2Z.id, Ht, rest_chunk. f_equal.
  unfold zlen. rewrite <-tile_size_Z, <-Nat2Z.inj_div. by rewrite Nat2Z.id.
Qed.

(** Tiles that reproduce the root of the log are right, unless hashes collide. *)
Lemma candidate_right M entries T fuel l s s' :
  injective_on M -> treeSize = zlen entries -> Forall tile_ok T -> same_shape s s' ->
  let v := level_hashes entries l in
  root_messages fuel T (Z.of_nat l) (zlen v) s ⊆ M -> spec_messages fuel v s' ⊆ M ->
  (forall k, frontier treeSize k -> Z.of_nat l <= fst k < Z.of_nat l + Z.of_nat fuel ->
     is_Some (find_tile T (fst k) (snd k))) ->
  tile_root fuel T (Z.of_nat l) (zlen v) s = spec_root fuel v s' ->
  s = s' /\ forall k t, frontier treeSize k -> Z.of_nat l <= fst k < Z.of_nat l + Z.of_nat fuel ->
    find_tile T (fst k) (snd k) = Some t -> right entries t.
Proof.
  intros HM HN HT. revert l s s'; induction fuel as [|fuel IH]; intros l s s' Hsh v Hm Hm' Hex E.
  { split; [done|]. lia. }
  rewrite spec_root_S in E. rewrite spec_messages_S in Hm'. cbn [root_messages tile_root] in *.
  assert (Hzv : zlen v = treeSize / 256 ^ Z.of_nat l) by (rewrite HN; apply zlen_level).
  destruct (Z.ltb_spec 0 (zlen v)) as [Hp|Hp].
  2:{ split; [done|]. intros k t Hk Hlk _.
      destruct (frontier_above treeSize (Z.of_nat l) k); [lia|rewrite HN; apply zlen_nonneg|lia|done|lia]. }
  pose proof (zlen_rest v) as Hr. specialize (IH (S l)).
  change (level_hashes entries (S l)) with (up v) in IH. rewrite zlen_up in IH.
  replace (Z.of_nat l + 1) with (Z.of_nat (S l)) in * by lia.
  assert (Hex' : forall k, frontier treeSize k -> Z.of_nat (S l) <= fst k < Z.of_nat (S l) + Z.of_nat fuel ->
    is_Some (find_tile T (fst k) (snd k))) by (intros; apply Hex; [done|lia]).
  unfold next_suffix in *. destruct (Z.eqb_spec (zlen v mod 256) 0) as [Hw|Hw].
  - assert (Hnil : rest v = []) by (apply zlen_nil_inv; lia).
    rewrite Hnil in *. destruct (IH s s') as [-> Hright]; try done. split; [done|].
    intros k t Hk Hlk. apply Hright; [done|]. destruct (Z.eq_dec (fst k) (Z.of_nat l)) as [El|]; [|lia].
    destruct Hk as (_ & _ & Hk). by rewrite El, <-Hzv in Hk.
  - assert (Hkl : treeSize / 256 ^ (Z.of_nat l + 1) = zlen v / 256).
    { rewrite Hzv, Z.div_div by lia. f_equal. rewrite Z.pow_add_r by lia. lia. }
    destruct (Hex (Z.of_nat l, zlen v / 256)) as [t Ht].
    { unfold frontier. cbn [fst snd]. rewrite Hkl, <-Hzv. split; [lia|done]. }
    { cbn [fst]. lia. }
    cbn [fst snd] in Ht. destruct (frontier_tile T _ t _ Ht HT Hzv Hp) as (Hlen & Hsl & H32). rewrite Hsl in *.
    destruct (rest v) as [|r0 r] eqn:Er; [by rewrite <-Hr in Hw|]. rewrite <-Er in *.
    destruct (IH (Some (fold_hashes (tile_hashes t) s)) (Some (fold_hashes (rest v) s')))
      as [Hf Hright]; try done; [set_solver..|]. injection Hf as Hf.
    apply (fold_hashes_inj M) in Hf as [Hf ->]; try done; [| | | |set_solver|set_solver].
    + split; [done|]. intros k t0 Hk Hlk Ht0.
      destruct (Z.eq_dec (fst k) (Z.of_nat l)) as [El|]; [|apply (Hright k t0 Hk); [lia|done]].
      destruct Hk as (_ & Hsk & _). rewrite Hsk, El, Hkl, Ht in Ht0. injection Ht0 as <-.
      apply find_tile_Some in Ht as (_ & Hk1 & Hk2). apply (rest_right entries l); [|done].
      unfold tile_key. by rewrite Hk1, Hk2.
    + intros E0. rewrite E0 in Hlen. by rewrite <-Hlen in Hw.
    + unfold zlen in *. lia.
    + apply rest_32, level_hashes_32.
Qed.

(** *** Authentication *)

Lemma authenticate_step fuel st tile st' :
  authenticate (S fuel) st tile = Ok st' -> is_authenticated st tile = false ->
  exists parent st1 st2 h,
  get st (tile_level tile + 1) (tile_index tile / 256) = Ok (parent, st1)
  /\ authenticate fuel st1 parent = Ok st2
  /\ length (tile_hashes tile) = tile_size
  /\ tile_hashes parent !! Z.to_nat (tile_index tile mod 256) = Some h
  /\ fold_hashes (tile_hashes tile) None = h
  /\ st' = mkTileState (tiles st2) (tile_key tile :: authenticated st2).
Proof.
  intros H Ha. cbn [HashTiles.authenticate] in H. rewrite Ha in H.
  apply bind_Ok in H as ([parent st1] & Hg & H). apply bind_Ok in H as (st2 & Hauth & H).
  apply bind_Ok in H as (? & Hl%throw_if_Ok & H). apply bind_Ok in H as (f & Hf & H).
  apply bind_Ok in H as (h & Hh%of_option_Ok & H). apply bind_Ok in H as (? & He%throw_if_Ok & [= <-]).
  apply negb_false_iff, Nat.eqb_eq in Hl. apply negb_false_iff, bool_decide_eq_true in He.
  unfold fold in Hf. apply bind_Ok in Hf as (? & _ & [= <-]). by exists parent, st1, st2, h.
Qed.

Lemma authenticate_extends fuel st tile st' :
  authenticate fuel st tile = Ok st' -> wf st -> tile_ok tile -> extends st st' /\ wf st'.
Proof.
  revert st tile st'; induction fuel as [|fuel IH]; intros st tile st' H Hw (_ & _ & Hl & Hi); [done|].
  destruct (is_authenticated st tile) eqn:Ea.
  { cbn [HashTiles.authenticate] in H. rewrite Ea in H. injection H as <-. by split. }
  apply authenticate_step in H as (parent & st1 & st2 & h & Hg & H & _ & _ & _ & ->); [|done].
  apply get_Ok in Hg as (He1 & Hw1 & _ & Hft & _); [|lia|apply Z.div_pos; lia|done].
  apply find_tile_Some in Hft as (Hin & _). destruct Hw1 as [Hnd Hok].
  destruct (IH _ _ _ H) as [He2 Hw2]; [done|by rewrite Forall_forall in Hok; apply Hok|].
  split; [|done]. etrans; [exact He1|]. etrans; [exact He2|].
  split; [exists []; by rewrite app_nil_r|set_solver].
Qed.

Lemma authenticate_all_extends fuel pos st st' :
  authenticate_all fuel pos st = Ok st' -> wf st -> extends st st' /\ wf st'.
Proof.
  revert pos st; induction fuel as [|fuel IH]; intros pos st H Hw; [done|].
  cbn [HashTiles.authenticate_all] in H. destruct (tiles st !! pos) as [tile|] eqn:E.
  2:{ injection H as <-. by split. }
  apply bind_Ok in H as (st1 & H1 & H). apply authenticate_extends in H1 as [He1 Hw1]; [|done|].
  - apply IH in H as [He2 Hw2]; [|done]. split; [by etrans|done].
  - destruct Hw as [_ Hok]. rewrite Forall_lookup in Hok. by eapply Hok.
Qed.

(** The messages of the log's own levels. *)
Definition chunk_messages (v : list bytes) : list bytes :=
  concat (map (fun i => fold_messages (S (length (chunk i v))) (chunk i v) None) (seq 0 (length v / tile_size))).
Definition level_messages (entries : list bytes) : list bytes :=
  concat (map (fun l => chunk_messages (level_hashes entries l)) (seq 0 8)).

Lemma concat_map_subset {A} (f : A -> list bytes) l a : a ∈ l -> f a ⊆ concat (map f l).
Proof.
  intros Ha x Hx. apply list_elem_of_In, in_concat. exists (f a).
  split; [|by apply list_elem_of_In]. apply in_map_iff. exists a. split; [done|by apply list_elem_of_In].
Qed.

Lemma level_messages_subset entries l i : (l < 8)%nat -> (i < length (level_hashes entries l) / tile_size)%nat ->
  let c := chunk i (level_hashes entries l) in
  fold_messages (S (length c)) c None ⊆ level_messages entries.
Proof.
  intros Hl Hi c. etrans; [|apply (concat_map_subset _ _ l), elem_of_seq; lia].
  apply (concat_map_subset (fun i => fold_messages (S (length (chunk i (level_hashes entries l))))
           (chunk i (level_hashes entries l)) None)), elem_of_seq. lia.
Qed.

Lemma child_right M entries tile parent h :
  injective_on M -> zlen entries < 256 ^ 8 -> level_messages entries ⊆ M ->
  fold_messages (S (length (tile_hashes tile))) (tile_hashes tile) None ⊆ M ->
  tile_ok tile -> right entries parent ->
  tile_key parent = (tile_level tile + 1, tile_index tile / 256) ->
  length (tile_hashes tile) = tile_size ->
  tile_hashes parent !! Z.to_nat (tile_index tile mod 256) = Some h ->
  fold_hashes (tile_hashes tile) None = h -> right entries tile.
Proof.
  intros HM Hsz Hlog Hm (_ & H32 & Hl & Hi) Hp [= Hpl Hpi] Hlen Hlook Hf. unfold right in *.
  rewrite Hp, Hpl, Hpi in Hlook. set (l := Z.to_nat (tile_level tile)) in *.
  replace (Z.to_nat (tile_level tile + 1)) with (S l) in Hlook by lia.
  pose proof (Z.mod_pos_bound (tile_index tile) 256 eq_refl) as Hmod. pose proof tile_size_Z as Hts.
  unfold chunk in Hlook. rewrite lookup_take_lt, lookup_drop in Hlook by lia.
  replace (tile_size * Z.to_nat (tile_index tile / 256) + Z.to_nat (tile_index tile mod 256))%nat
    with (Z.to_nat (tile_index tile)) in Hlook
    by (pose proof (Z.div_mod (tile_index tile) 256 ltac:(lia)); pose proof (Z.div_pos (tile_index tile) 256); lia).
  pose proof (lookup_lt_Some _ _ _ Hlook) as Hlt.
  rewrite level_hashes_S in Hlook. apply up_lookup_Some in Hlook as [Hi' Hh].
  assert (Hl8 : (l < 8)%nat).
  { destruct (Nat.lt_ge_cases l 8) as [|Hge]; [done|].
    assert (Hz : 0 < zlen (level_hashes entries (S l))) by (unfold zlen; lia).
    rewrite zlen_level, Z.div_small in Hz; [lia|]. split; [apply zlen_nonneg|].
    eapply Z.lt_le_trans; [exact Hsz|]. apply Z.pow_le_mono_r; lia. }
  pose proof tile_size_2. rewrite <-Hf in Hh. clear Hlt.
  apply (fold_hashes_inj M) in Hh as [Hh _]; try done.
  - intros E. rewrite E in Hlen. cbn in Hlen. lia.
  - by rewrite chunk_full.
  - apply Forall_take, Forall_drop, level_hashes_32.
  - etrans; [|exact Hlog]. by apply level_messages_subset.
Qed.


(** Every authenticated key belongs to a right tile of the cache. *)
Definition all_right (entries : list bytes) (st : tile_state) : Prop :=
  forall k, k ∈ authenticated st -> exists t, t ∈ tiles st /\ tile_key t = k /\ right entries t.

Lemma all_right_elem entries st t : wf st -> all_right entries st -> t ∈ tiles st ->
  tile_key t ∈ authenticated st -> right entries t.
Proof.
  intros [Hnd _] Har Ht Hk. destruct (Har _ Hk) as (t' & Ht' & [= Hl Hi] & Hr).
  pose proof (find_tile_elem _ _ Hnd Ht) as E1. pose proof (find_tile_elem _ _ Hnd Ht') as E2.
  rewrite Hl, Hi in E2. congruence.
Qed.

Lemma all_right_extends entries st st' : all_right entries st -> extends st st' ->
  authenticated st' = authenticated st -> all_right entries st'.
Proof.
  intros Har [[ext Ht] _] Ha k Hk. rewrite Ha in Hk. destruct (Har _ Hk) as (t & Hin & ? & ?).
  exists t. split; [|done]. rewrite Ht. apply elem_of_app. by left.
Qed.

(** What a run may hash is known in advance: [T] is the final cache. *)
Definition known_messages (M : list bytes) (entries : list bytes) (T : list Tile) : Prop :=
  level_messages entries ⊆ M
  /\ forall t, t ∈ T -> fold_messages (S (length (tile_hashes t))) (tile_hashes t) None ⊆ M.

Lemma authenticate_right M entries T fuel st tile st' :
  injective_on M -> zlen entries < 256 ^ 8 -> known_messages M entries T ->
  authenticate fuel st tile = Ok st' -> wf st -> tile ∈ tiles st -> tiles st' ⊆ T ->
  all_right entries st -> all_right entries st' /\ tile_key tile ∈ authenticated st'.
Proof.
  intros HM Hsz Hmsg. revert st tile st'; induction fuel as [|fuel IH]; intros st tile st' H Hw Hin HT Har; [done|].
  destruct (is_authenticated st tile) eqn:Ea.
  { cbn [HashTiles.authenticate] in H. rewrite Ea in H. injection H as <-.
    unfold is_authenticated in Ea. by apply bool_decide_eq_true in Ea. }
  pose proof Hw as [_ Hok]. rewrite Forall_forall in Hok. pose proof (Hok _ Hin) as Htok.
  pose proof Htok as (_ & _ & Hl & Hi).
  apply authenticate_step in H as (parent & st1 & st2 & h & Hg & H & Hlen & Hlook & Hf & ->); [|done].
  cbn [tiles authenticated] in *.
  apply get_Ok in Hg as (He1 & Hw1 & Ha1 & Hft & _); [|lia|apply Z.div_pos; lia|done].
  apply find_tile_Some in Hft as (Hp & Hpl & Hpi).
  pose proof (all_right_extends _ _ _ Har He1 Ha1) as Har1.
  pose proof Hw1 as [_ Hok1]. rewrite Forall_forall in Hok1.
  destruct (authenticate_extends _ _ _ _ H Hw1 (Hok1 _ Hp)) as [He2 Hw2].
  destruct (IH _ _ _ H Hw1 Hp HT Har1) as [Har2 Hk2].
  assert (Hin2 : tile ∈ tiles st2).
  { destruct He1 as [[e1 E1] _], He2 as [[e2 E2] _]. rewrite E2, E1, !elem_of_app. auto. }
  assert (Hpr : right entries parent).
  { apply (all_right_elem entries st2); try done. destruct He2 as [[e2 ->] _]. apply elem_of_app. by left. }
  assert (Hr : right entries tile).
  { destruct Hmsg as [Hm1 Hm2]. apply (child_right M entries tile parent h); try done.
    - apply Hm2, HT, Hin2.
    - unfold tile_key. by rewrite Hpl, Hpi. }
  split; [|by left]. intros k [->|Hk]%elem_of_cons; [by exists tile|by apply Har2].
Qed.

Lemma authenticate_all_right M entries fuel pos st st' :
  injective_on M -> zlen entries < 256 ^ 8 -> known_messages M entries (tiles st') ->
  authenticate_all fuel pos st = Ok st' -> wf st -> all_right entries st ->
  all_right entries st'
  /\ forall i t, (pos <= i)%nat -> tiles st' !! i = Some t -> tile_key t ∈ authenticated st'.
Proof.
  intros HM Hsz Hmsg. revert pos st; induction fuel as [|fuel IH]; intros pos st H Hw Har; [done|].
  cbn [HashTiles.authenticate_all] in H. destruct (tiles st !! pos) as [tile|] eqn:E.
  2:{ injection H as <-. split; [done|]. intros i t Hi Ht. apply lookup_lt_Some in Ht.
      apply lookup_ge_None in E. lia. }
  apply bind_Ok in H as (st1 & H1 & H).
  assert (Htok : tile_ok tile) by (destruct Hw as [_ Hok]; rewrite Forall_lookup in Hok; by eapply Hok).
  destruct (authenticate_extends _ _ _ _ H1 Hw Htok) as [He1 Hw1].
  destruct (authenticate_all_extends _ _ _ _ H Hw1) as [He2 Hw2].
  assert (HT : tiles st1 ⊆ tiles st') by (destruct He2 as [[e2 ->] _]; set_solver).
  destruct (authenticate_right M entries (tiles st') _ _ _ _ HM Hsz Hmsg H1 Hw
              (list_elem_of_lookup_2 _ _ _ E) HT Har) as [Har1 Hk1].
  destruct (IH _ _ H Hw1 Har1) as [Har2 Hall]. split; [done|].
  intros i t Hi Ht. destruct (Nat.eq_dec i pos) as [->|]; [|apply (Hall i); [lia|done]].
  assert (tiles st' !! pos = Some tile).
  { destruct He1 as [[e1 E1] _], He2 as [[e2 E2] _]. rewrite E2, E1, <-app_assoc.
    by apply lookup_app_l_Some. }
  destruct He2 as [_ Ha2]. apply Ha2. congruence.
Qed.

(** *** The trusted root *)

Lemma up_take_any v c : (c <= length v)%nat -> up (take c v) = take (c / tile_size) (up v).
Proof.
  intros Hc. destruct (length_tiles (take c v)) as (q & r & Hn & Hr & Hq).
  rewrite length_take, Nat.min_l in Hn, Hq by done. rewrite Hq.
  rewrite <-(up_take v q) by lia. pose proof (up_take (take c v) q) as Hu.
  rewrite take_take, (Nat.min_l (tile_size * q) c) in Hu by lia.
  rewrite Hu by (rewrite length_take; lia).
  symmetry. apply take_ge. by rewrite length_up, length_take, Nat.min_l, Hq.
Qed.

Lemma slice_chunk v c : 0 <= c <= zlen v ->
  slice (chunk (Z.to_nat (c / 256)) v) 0 (c mod 256) = rest (take (Z.to_nat c) v).
Proof.
  intros Hc. pose proof tile_size_Z as Hts. pose proof tile_size_2. pose proof (Z.mod_pos_bound c 256 eq_refl).
  pose proof (Z.div_pos c 256). pose proof (Z.div_mod c 256 ltac:(lia)).
  assert (Hn : Z.to_nat c = (tile_size * Z.to_nat (c / 256) + Z.to_nat (c mod 256))%nat) by lia.
  assert (Hd : (length (take (Z.to_nat c) v) / tile_size = Z.to_nat (c / 256))%nat).
  { rewrite length_take. unfold zlen in Hc. apply (div_tile _ _ (Z.to_nat (c mod 256))); lia. }
  unfold rest. rewrite Hd, Hn, <-take_drop_commute. unfold slice, chunk.
  rewrite Z.sub_0_r. change (drop (Z.to_nat 0) ?x) with x. rewrite take_take, Nat.min_l by lia. done.
Qed.

Lemma trusted_root entries T fuel l m s : 0 <= m <= zlen entries ->
  (forall k, frontier m k -> Z.of_nat l <= fst k < Z.of_nat l + Z.of_nat fuel ->
     exists t, find_tile T (fst k) (snd k) = Some t /\ right entries t) ->
  tile_root fuel T (Z.of_nat l) (m / 256 ^ Z.of_nat l) s
  = spec_root fuel (take (Z.to_nat (m / 256 ^ Z.of_nat l)) (level_hashes entries l)) s.
Proof.
  intros Hm. revert l s; induction fuel as [|fuel IH]; intros l s Hex; [done|].
  rewrite spec_root_S. cbn [tile_root]. set (c := m / 256 ^ Z.of_nat l). set (v := level_hashes entries l).
  assert (Hc : 0 <= c <= zlen v).
  { unfold c, v. rewrite zlen_level. split; [apply Z.div_pos; lia|apply Z.div_le_mono; lia]. }
  assert (Hz : zlen (take (Z.to_nat c) v) = c) by (unfold zlen in *; rewrite length_take; lia).
  rewrite Hz. destruct (Z.ltb_spec 0 c) as [Hp|]; [|done].
  assert (Hc' : c / 256 = m / 256 ^ Z.of_nat (S l)).
  { unfold c. rewrite Z.div_div by lia. f_equal. rewrite Nat2Z.inj_succ, Z.pow_succ_r by lia. lia. }
  pose proof tile_size_Z as Hts. pose proof tile_size_2.
  assert (Hup : up (take (Z.to_nat c) v) = take (Z.to_nat (c / 256)) (level_hashes entries (S l))).
  { rewrite up_take_any by (unfold zlen in *; lia). rewrite level_hashes_S. f_equal.
    rewrite <-Hts, Z2Nat.inj_div, Nat2Z.id by lia. done. }
  rewrite Hup, Hc'. replace (Z.of_nat l + 1) with (Z.of_nat (S l)) by lia.
  pose proof (zlen_rest (take (Z.to_nat c) v)) as Hr. rewrite Hz in Hr. unfold next_suffix.
  destruct (Z.eqb_spec (c mod 256) 0) as [Hw|Hw].
  { rewrite Hw in Hr. apply zlen_nil_inv in Hr as ->. apply IH. intros k Hk Hlk. apply Hex; [done|lia]. }
  destruct (Hex (Z.of_nat l, c / 256)) as (t & Ht & Hright); [|cbn [fst]; lia|].
  { unfold frontier. cbn [fst snd]. fold c. split; [lia|]. split; [|done]. rewrite Hc'. f_equal. f_equal. lia. }
  cbn [fst snd] in Ht. rewrite <-Hc'. unfold hashes_at. rewrite Ht.
  assert (Hs : slice (tile_hashes t) 0 (c mod 256) = rest (take (Z.to_nat c) v)).
  { apply find_tile_Some in Ht as (_ & Hk1 & Hk2). unfold right in Hright. rewrite Hright, Hk1, Hk2, Nat2Z.id.
    apply slice_chunk. lia. }
  rewrite Hs, Hc'. destruct (rest (take (Z.to_nat c) v)) as [|r0 r]; [by rewrite <-Hr in Hw|].
  apply IH. intros k Hk Hlk. apply Hex; [done|lia].
Qed.

(** *** The whole run *)

Definition run_messages (entries : list bytes) (T : list Tile) : list bytes :=
  root_messages 8 T 0 (zlen entries) None ++ spec_messages 8 (map leafHash entries) None
  ++ level_messages entries
  ++ concat (map (fun t => fold_messages (S (length (tile_hashes t))) (tile_hashes t) None) T).

Lemma app_parts (a b c d : list bytes) :
  a ⊆ a ++ b ++ c ++ d /\ b ⊆ a ++ b ++ c ++ d /\ c ⊆ a ++ b ++ c ++ d /\ d ⊆ a ++ b ++ c ++ d.
Proof. set_solver. Qed.

Lemma run_messages_known entries T : known_messages (run_messages entries T) entries T.
Proof.
  split; [apply app_parts|]. intros t Ht. etrans; [|apply app_parts].
  by apply (concat_map_subset (fun t => fold_messages (S (length (tile_hashes t))) (tile_hashes t) None)).
Qed.

Lemma MTH_root entries : 0 < zlen entries -> zlen entries < 256 ^ 8 ->
  spec_root 8 (level_hashes entries 0) None = Some (merkleRootFromEntries entries).
Proof.
  intros Hp Hsz. pose proof (spec_root_MTH entries (length entries)) as H. unfold zlen in *.
  rewrite (take_ge (map leafHash entries)), firstn_all in H by (rewrite length_map; lia).
  rewrite merkleRootFromEntries_MTH. apply H; lia.
Qed.

Lemma frontier_below size k : 0 <= size < 256 ^ 8 -> frontier size k -> 0 <= fst k < 8.
Proof.
  intros Hs Hk. split; [apply Hk|]. destruct (Z.lt_ge_cases (fst k) 8) as [|Hge]; [done|].
  destruct (frontier_above size 8 k); [lia|lia|by rewrite Z.div_small|done|done].
Qed.

(** The tiles of the candidate's frontier are right in every later cache. *)
Lemma candidate_tiles entries st0 st1 st' :
  treeSize = zlen entries -> 0 < zlen entries < 256 ^ 8 -> st0 = mkTileState [] [] ->
  root_loop 8 st0 0 treeSize None = Ok (Some (merkleRootFromEntries entries), st1) ->
  (exists ext, tiles st' = tiles st1 ++ ext) -> wf st' -> injective_on (run_messages entries (tiles st')) ->
  wf st1 /\ forall t, t ∈ tiles st1 -> right entries t.
Proof.
  intros HN Hsz -> Hc [ext Hext] Hw' HM. destruct Hw' as [Hnd Hok].
  apply (root_loop_Ok _ _ _ _ _ _ _ treeSize) in Hc as (_ & Hw1 & _ & Hkeys & Hfound & Hr);
    [|lia|lia|by rewrite Z.div_1_r|by split; constructor]. split; [done|].
  specialize (Hr (mkTileState (tiles st') (authenticated st1)) ltac:(split; [by exists ext|done])).
  cbn [tiles] in Hr. rewrite <-(MTH_root entries) in Hr by lia.
  assert (Hz : zlen (level_hashes entries 0) = treeSize) by (rewrite zlen_level, HN; by rewrite Z.div_1_r).
  destruct (candidate_right _ entries (tiles st') 8 0 None None HM HN Hok I) as [_ Hright].
  - change (Z.of_nat 0) with 0. rewrite Hz, HN. apply app_parts.
  - apply app_parts.
  - intros k Hk Hlk. destruct (Hfound k Hk) as [t Ht]; [lia|]. exists t. rewrite Hext.
    by apply find_tile_app.
  - change (Z.of_nat 0) with 0. by rewrite Hz.
  - intros t Ht. destruct (Hkeys t Ht) as [Hin|Hf]; [by apply elem_of_nil in Hin|].
    apply (Hright (tile_key t) t Hf).
    + pose proof (frontier_below treeSize _ ltac:(lia) Hf). lia.
    + apply find_tile_elem; [done|]. rewrite Hext. apply elem_of_app. by left.
Qed.

Lemma tile_run_right entries trusted r st' :
  treeSize = zlen entries -> 0 < trusted <= treeSize -> zlen entries < 256 ^ 8 ->
  tile_run prefix treeSize read (merkleRootFromEntries entries) trusted = Ok (r, st') ->
  injective_on (run_messages entries (tiles st')) ->
  r = Some (merkleRootFromEntries (take (Z.to_nat trusted) entries)).
Proof.
  intros HN Htr Hsz H HM. unfold tile_run in H.
  apply bind_Ok in H as ([cr st1] & Hc & H). apply bind_Ok in H as (h & Hcr%of_option_Ok & H).
  apply bind_Ok in H as (? & Heq%throw_if_Ok & H). apply bind_Ok in H as ([tr st2] & Ht & H).
  apply bind_Ok in H as (st3 & Ha & [= -> ->]).
  apply negb_false_iff, bool_decide_eq_true in Heq. subst h cr. unfold root, level_fuel in *.
  assert (Hw0 : wf (mkTileState [] [])) by (split; constructor).
  assert (Hw1 : wf st1).
  { by apply (root_loop_Ok _ _ _ _ _ _ _ treeSize) in Hc as (_ & ? & _); [|lia|lia|rewrite Z.div_1_r|]. }
  set (st1' := mkTileState _ _) in Ht.
  apply (root_loop_Ok _ _ _ _ _ _ _ trusted) in Ht as (He2 & Hw2 & Ha2 & _ & Hfound & Hr);
    [|lia|lia|by rewrite Z.div_1_r|done].
  destruct (authenticate_all_extends _ _ _ _ Ha Hw2) as [He3 Hw3].
  assert (Hext : exists ext, tiles st' = tiles st1 ++ ext).
  { destruct He2 as [[e2 E2] _], He3 as [[e3 E3] _]. exists (e2 ++ e3). rewrite E3, E2. by rewrite app_assoc. }
  destruct (candidate_tiles entries _ st1 st' HN ltac:(lia) eq_refl Hc Hext Hw3 HM) as [_ Hcand].
  assert (Har : all_right entries st2).
  { apply (all_right_extends entries st1'); [|done|done]. intros k Hk. cbn in Hk.
    apply list_elem_of_In, in_map_iff in Hk as (t & <- & Ht%list_elem_of_In). exists t. auto. }
  destruct (authenticate_all_right _ entries _ _ _ _ HM Hsz (run_messages_known _ _) Ha Hw2 Har) as [Har3 Hall].
  rewrite (Hr _ He3), <-(Z.div_1_r trusted). change 1 with (256 ^ Z.of_nat 0). change 0 with (Z.of_nat 0) at 1.
  rewrite (trusted_root entries); [|lia|].
  - change (256 ^ Z.of_nat 0) with 1. rewrite Z.div_1_r, merkleRootFromEntries_MTH.
    apply spec_root_MTH; [|done]. unfold zlen in *. lia.
  - intros k Hk Hlk. destruct (Hfound k Hk) as [t Ht]; [lia|].
    apply (find_tile_extends st2 st') in Ht as Ht'; [|done]. exists t. split; [done|].
    apply find_tile_Some in Ht' as (Hin & _). apply (all_right_elem entries st'); try done.
    apply list_elem_of_lookup in Hin as [i Hi]. apply (Hall i); [lia|done].
Qed.

(** *** Termination *)

Section Termination.
Context (trusted top : Z).
Context (read_total : forall url maximum, read url maximum <> Throw stack_overflow).
Context (trusted_range : 0 < trusted <= treeSize) (tree_range : treeSize < 256 ^ 7).
Context (top_range : 0 <= top < 7) (top_level : 0 < treeSize / 256 ^ top < 256).

(** The keys of the run: at each level, the tile of one of the two frontiers. *)
Definition allowed (key : Z * Z) : Prop :=
  0 <= fst key <= top /\ (snd key = treeSize / 256 ^ (fst key + 1) \/ snd key = trusted / 256 ^ (fst key + 1)).

Definition inv (st : tile_state) : Prop := wf st /\ forall t, t ∈ tiles st -> allowed (tile_key t).

Lemma bind_not_throw {A B} (m : res A) (f : A -> res B) e :
  m <> Throw e -> (forall a, m = Ok a -> f a <> Throw e) -> m ≫= f <> Throw e.
Proof. intros Hm Hf H. apply bind_Throw in H as [H|(a & Ha & H)]; [done|by apply (Hf a)]. Qed.

Lemma throw_if_not b e e' : e <> e' -> throw_if b e <> Throw e'.
Proof. intros He H. by apply throw_if_Throw in H as [_ ?]. Qed.

Lemma tilePath_total level index width : tilePath prefix level index width <> Throw stack_overflow.
Proof.
  unfold tilePath, tileN. apply bind_not_throw; [|done].
  apply bind_not_throw; [by apply throw_if_not|done].
Qed.

Lemma get_total st level index : get st level index <> Throw stack_overflow.
Proof.
  unfold HashTiles.get. destruct (find_tile _ _ _); [done|]. apply bind_not_throw.
  - unfold fetch_tile. destruct (path ← tilePath prefix level index _; _) as [|e] eqn:E; [done|]. cbn [catch].
    destruct (_ || _).
    + intros [= ->]. revert E. apply bind_not_throw; [apply tilePath_total|]. intros a _.
      by apply bind_not_throw.
    + apply bind_not_throw; [apply tilePath_total|]. intros a _. by apply bind_not_throw.
  - intros [bs rw] _. apply bind_not_throw; [by apply throw_if_not|done].
Qed.

Lemma get_inv st level index t st' : inv st -> allowed (level, index) ->
  get st level index = Ok (t, st') -> inv st' /\ t ∈ tiles st' /\ tile_key t = (level, index)
    /\ authenticated st' = authenticated st.
Proof.
  intros [Hw Hall] [Hl Hi] H. cbn [fst snd] in *.
  assert (0 <= index) by (destruct Hi as [->| ->]; apply Z.div_pos; lia).
  apply get_Ok in H as (_ & Hw' & Ha & Hft & Ht); [|lia..|done].
  apply find_tile_Some in Hft as (Hin & <- & <-). split; [|done]. split; [done|].
  intros x Hx. destruct Ht as [Ht|Ht]; rewrite Ht in Hx; [by apply Hall|].
  apply elem_of_app in Hx as [Hx| ->%list_elem_of_singleton]; [by apply Hall|done].
Qed.

Lemma top_index size : 0 <= size <= treeSize -> size / 256 ^ (top + 1) = 0.
Proof.
  intros Hs. rewrite Z.pow_add_r, <-Z.div_div by lia. apply Z.div_small.
  split; [apply Z.div_pos; lia|]. change (256 ^ 1) with 256.
  pose proof (Z.div_le_mono size treeSize (256 ^ top) ltac:(lia) ltac:(lia)). lia.
Qed.

Lemma frontier_allowed size k : size = treeSize \/ size = trusted -> frontier size k -> allowed k.
Proof.
  intros Hs Hf. assert (Hr : 0 <= size <= treeSize) by lia. split.
  - split; [apply Hf|]. destruct (Z.le_gt_cases (fst k) top) as [|Hgt]; [done|].
    destruct (frontier_above size (top + 1) k); [lia|lia|by rewrite top_index|done|lia].
  - destruct Hf as (_ & -> & _). destruct Hs as [->| ->]; auto.
Qed.

Lemma fold_total hs s : hs <> [] -> fold hs s <> Throw stack_overflow.
Proof. intros Hne. unfold fold. by destruct hs. Qed.

Lemma root_loop_total fuel st level suffix size :
  0 <= level -> 0 <= size <= treeSize -> wf st ->
  size / 256 ^ level < 256 ^ Z.of_nat fuel ->
  root_loop (S fuel) st level (size / 256 ^ level) suffix <> Throw stack_overflow.
Proof.
  revert st level suffix; induction fuel as [|fuel IH]; intros st level suffix Hl Hs Hw Hf.
  all: cbn [HashTiles.root_loop]; destruct (Z.ltb_spec 0 (size / 256 ^ level)) as [Hp|]; [|done].
  { change (256 ^ Z.of_nat 0) with 1 in Hf. lia. }
  assert (Hc : size / 256 ^ level / 256 = size / 256 ^ (level + 1)).
  { rewrite Z.div_div by lia. f_equal. rewrite Z.pow_add_r by lia. lia. }
  assert (Hf' : size / 256 ^ (level + 1) < 256 ^ Z.of_nat fuel).
  { rewrite <-Hc. apply Z.div_lt_upper_bound; [lia|]. rewrite Nat2Z.inj_succ, Z.pow_succ_r in Hf by lia. lia. }
  assert (Hi : 0 <= size / 256 ^ (level + 1)) by (apply Z.div_pos; lia).
  destruct (Z.eqb_spec (size / 256 ^ level mod 256) 0) as [E|E]; rewrite Hc.
  { apply IH; [lia|done..]. }
  apply bind_not_throw; [apply get_total|]. intros [t st1] Hg.
  apply get_Ok in Hg as (_ & Hw1 & _ & Hft & _); [|done..].
  apply bind_not_throw; [|intros s _; apply IH; [lia|done..]]. apply fold_total.
  apply find_tile_Some in Hft as (Hin & Htl & Hti). destruct Hw1 as [_ Hok]. rewrite Forall_forall in Hok.
  destruct (Hok _ Hin) as (Hlen & _). unfold HashTiles.tile_width in Hlen. rewrite Htl, Hti in Hlen.
  pose proof (Z.div_le_mono size treeSize (256 ^ level) ltac:(lia) ltac:(lia)).
  pose proof (Z.mod_pos_bound (size / 256 ^ level) 256 eq_refl).
  pose proof (Z.div_mod (size / 256 ^ level) 256 ltac:(lia)) as Hd. rewrite Hc in Hd.
  unfold slice. rewrite Z.sub_0_r. change (drop (Z.to_nat 0) (tile_hashes t)) with (tile_hashes t).
  intros E0%(f_equal length). rewrite length_take in E0. cbn [length] in E0. lia.
Qed.

Lemma root_loop_inv fuel st size suffix r st' : size = treeSize \/ size = trusted -> inv st ->
  root_loop fuel st 0 size suffix = Ok (r, st') -> inv st'.
Proof.
  intros Hs [Hw Hall] H. apply (root_loop_Ok _ _ _ _ _ _ _ size) in H as (_ & Hw' & _ & Hk & _);
    [|lia|lia|by rewrite Z.div_1_r|done].
  split; [done|]. intros t [Ht|Ht]%Hk; [by apply Hall|by apply (frontier_allowed size)].
Qed.

Lemma authenticate_total fuel st tile :
  inv st -> tile ∈ tiles st -> (top, 0) ∈ authenticated st -> top - tile_level tile < Z.of_nat fuel ->
  authenticate fuel st tile <> Throw stack_overflow
  /\ forall st', authenticate fuel st tile = Ok st' -> inv st' /\ (top, 0) ∈ authenticated st'.
Proof.
  revert st tile; induction fuel as [|fuel IH]; intros st tile Hinv Hin Htop Hf.
  { destruct Hinv as [_ Hall]. destruct (Hall _ Hin) as [Hr _]. cbn in Hr. lia. }
  destruct (is_authenticated st tile) eqn:Ea.
  { cbn [HashTiles.authenticate]. rewrite Ea. split; [done|]. by intros st' [= <-]. }
  pose proof Hinv as [Hw Hall]. destruct (Hall _ Hin) as [Hr Hi]. cbn [tile_key fst snd] in *.
  assert (Hlt : tile_level tile < top).
  { destruct (Z.eq_dec (tile_level tile) top) as [E|]; [|lia]. exfalso. unfold is_authenticated in Ea.
    apply bool_decide_eq_false in Ea. apply Ea. unfold tile_key.
    rewrite E in *. assert (tile_index tile = 0) as -> by (destruct Hi as [->| ->]; apply top_index; lia). done. }
  assert (Hpa : allowed (tile_level tile + 1, tile_index tile / 256)).
  { split; cbn [fst snd]; [lia|]. destruct Hi as [->| ->]; [left|right];
      rewrite (Z.pow_add_r _ (_ + 1)), <-Z.div_div by lia; done. }
  assert (Hstep : forall parent st1, get st (tile_level tile + 1) (tile_index tile / 256) = Ok (parent, st1) ->
    authenticate fuel st1 parent <> Throw stack_overflow
    /\ forall st2, authenticate fuel st1 parent = Ok st2 -> inv st2 /\ (top, 0) ∈ authenticated st2).
  { intros parent st1 Hg. apply get_inv in Hg as (Hinv1 & Hp & Hk & Ha); [|done..].
    injection Hk as Hk1 Hk2. apply IH; [done|done|by rewrite Ha|lia]. }
  split.
  - cbn [HashTiles.authenticate]. rewrite Ea. apply bind_not_throw; [apply get_total|].
    intros [parent st1] Hg. apply bind_not_throw; [by apply Hstep|]. intros st2 _.
    apply bind_not_throw; [by apply throw_if_not|]. intros ? Hlen%throw_if_Ok. apply bind_not_throw.
    { apply fold_total. intros E. rewrite E in Hlen. done. }
    intros f _. apply bind_not_throw; [by destruct (_ !! _)|]. intros h _.
    apply bind_not_throw; [by apply throw_if_not|done].
  - intros st' H. apply authenticate_step in H as (parent & st1 & st2 & h & Hg & H & _ & _ & _ & ->); [|done].
    destruct (Hstep _ _ Hg) as [_ Hs2]. destruct (Hs2 _ H) as [[Hw2 Hall2] Htop2].
    split; [by split|by right].
Qed.

Definition all_keys : list (Z * Z) :=
  concat (map (fun l => [(l, treeSize / 256 ^ (l + 1)); (l, trusted / 256 ^ (l + 1))]) (seqZ 0 7)).

Lemma inv_length st : inv st -> (length (tiles st) <= 14)%nat.
Proof.
  intros [[Hnd _] Hall]. rewrite <-(length_map tile_key).
  change 14%nat with (length all_keys). apply NoDup_incl_length; [by apply NoDup_ListNoDup|].
  intros k (t & <- & Ht%list_elem_of_In)%in_map_iff. destruct (Hall _ Ht) as [Hl Hi].
  destruct (tile_key t) as [l i]. cbn [fst snd] in *.
  apply in_concat. exists [(l, treeSize / 256 ^ (l + 1)); (l, trusted / 256 ^ (l + 1))]. split.
  - apply in_map_iff. exists l. split; [done|]. apply list_elem_of_In, elem_of_seqZ. lia.
  - destruct Hi as [->| ->]; cbn; auto.
Qed.

Lemma authenticate_all_total fuel pos st :
  inv st -> (top, 0) ∈ authenticated st -> (pos <= length (tiles st))%nat -> (17 <= fuel + pos)%nat ->
  authenticate_all fuel pos st <> Throw stack_overflow.
Proof.
  revert pos st; induction fuel as [|fuel IH]; intros pos st Hinv Htop Hpos Hf.
  { pose proof (inv_length st Hinv). lia. }
  cbn [HashTiles.authenticate_all]. destruct (tiles st !! pos) as [tile|] eqn:E; [|done].
  pose proof (list_elem_of_lookup_2 _ _ _ E) as Hin.
  destruct (authenticate_total level_fuel st tile Hinv Hin Htop) as [Ht Hst].
  { destruct Hinv as [_ Hall]. destruct (Hall _ Hin) as [Hr _]. cbn in Hr. unfold level_fuel. lia. }
  apply bind_not_throw; [done|]. intros st1 H1. destruct (Hst _ H1) as [Hinv1 Htop1].
  apply IH; [done|done| |lia].
  assert (Htok : tile_ok tile).
  { destruct Hinv as [[_ Hok] _]. rewrite Forall_forall in Hok. by apply Hok. }
  destruct (authenticate_extends _ _ _ _ H1 (proj1 Hinv) Htok) as [[[ext ->] _] _].
  apply lookup_lt_Some in E. rewrite length_app. lia.
Qed.

Lemma tile_run_total rootHash : tile_run prefix treeSize read rootHash trusted <> Throw stack_overflow.
Proof.
  assert (Hinv0 : inv (mkTileState [] [])) by (split; [split; constructor|by intros t ?%elem_of_nil]).
  assert (Htot : forall st size, inv st -> 0 <= size <= treeSize -> root prefix treeSize read st size <> Throw stack_overflow).
  { intros st size [Hw _] Hs. unfold root, level_fuel. rewrite <-(Z.div_1_r size). change 1 with (256 ^ 0).
    apply root_loop_total; [lia|lia|done|]. change (256 ^ 0) with 1. rewrite Z.div_1_r.
    change (Z.of_nat 7) with 7. lia. }
  unfold tile_run. apply bind_not_throw; [apply Htot; [done|lia]|]. intros [cr st1] Hc.
  apply bind_not_throw; [by destruct cr|]. intros h _.
  apply bind_not_throw; [by apply throw_if_not|]. intros _ _.
  assert (Hinv1 : inv st1) by (eapply root_loop_inv; [by left|exact Hinv0|exact Hc]).
  set (st1' := mkTileState _ _). assert (Hinv1' : inv st1') by exact Hinv1.
  apply bind_not_throw; [apply Htot; [done|lia]|]. intros [tr st2] Ht.
  assert (Hinv2 : inv st2) by (eapply root_loop_inv; [by right|exact Hinv1'|exact Ht]).
  apply bind_not_throw; [|done]. apply authenticate_all_total; [done| |lia|unfold visit_fuel; lia].
  apply (root_loop_Ok _ _ _ _ _ _ _ trusted) in Ht as (_ & _ & -> & _);
    [|lia|lia|by rewrite Z.div_1_r|apply Hinv1'].
  apply (root_loop_Ok _ _ _ _ _ _ _ treeSize) in Hc as (_ & _ & _ & _ & Hfound & _);
    [|lia|lia|by rewrite Z.div_1_r|apply Hinv0].
  destruct (Hfound (top, 0)) as [t Hft]; [|cbn [fst]; unfold level_fuel; lia|].
  { unfold frontier. cbn [fst snd]. rewrite top_index by lia. split; [lia|]. split; [done|].
    rewrite Z.mod_small by lia. lia. }
  apply find_tile_Some in Hft as (Hin & Hl & Hi). cbn [st1' authenticated].
  apply list_elem_of_In, in_map_iff. exists t. split; [unfold tile_key; by rewrite Hl, Hi|by apply list_elem_of_In].
Qed.

End Termination.
End RunProps.

(** Every positive tree size has a top level. *)
Lemma top_exists n : 0 < n < 256 ^ 7 -> exists top, 0 <= top < 7 /\ 0 < n / 256 ^ top < 256.
Proof.
  intros Hn. assert (H : forall k : nat, 0 < n < 256 ^ Z.of_nat (S k) ->
    exists top, 0 <= top <= Z.of_nat k /\ 0 < n / 256 ^ top < 256).
  { induction k as [|k IH]; intros Hk.
    - exists 0. rewrite Z.div_1_r. change (256 ^ Z.of_nat 1) with 256 in Hk. lia.
    - destruct (Z.lt_ge_cases n (256 ^ Z.of_nat (S k))) as [Hlt|Hge].
      + destruct IH as (top & ? & ?); [lia|]. exists top. lia.
      + exists (Z.of_nat (S k)). split; [lia|]. rewrite (Nat2Z.inj_succ (S k)), Z.pow_succ_r in Hk by lia.
        split; [apply Z.div_str_pos; lia|apply Z.div_lt_upper_bound; lia]. }
  destruct (H 6%nat) as (top & ? & ?); [by change (Z.of_nat 7) with 7|]. exists top. lia.
Qed.

(** ** Properties *)

Section Properties.
Context `{H256 : Hash256}.

(** The collision that a successful run shows, if it shows one. *)
Definition tiles_collision (prefix : jsstr) (entries : list bytes) (trustedSize : Z)
    (read : jsstr -> Z -> res bytes) : option (bytes * bytes) :=
  match tile_run prefix (zlen entries) read (merkleRootFromEntries entries) trustedSize with
  | Ok (_, st) => collision_in (run_messages entries (tiles st))
  | Throw _ => None
  end.

(** C28: soundness against any server: when the candidate checkpoint is the head of
    a log and the function returns, the hash is the RFC 6962 head of the first
    [trustedSize] entries of that log, or [tiles_collision] computes two messages
    with one SHA-256 digest. *)
Theorem authenticatedTilePrefixRoot_sound prefix entries trustedSize read r :
  0 < trustedSize <= zlen entries -> zlen entries <= MAX_SAFE_INTEGER ->
  authenticatedTilePrefixRoot prefix (zlen entries) (merkleRootFromEntries entries) trustedSize read = Ok r ->
  match tiles_collision prefix entries trustedSize read with
  | Some (x, y) => x <> y /\ digest x = digest y
  | None => r = Some (merkleRootFromEntries (take (Z.to_nat trustedSize) entries))
  end.
Proof.
  intros Ht Hs H. unfold authenticatedTilePrefixRoot, tiles_collision in *.
  destruct (tile_run _ _ _ _ _) as [[r' st]|] eqn:E; [|done]. injection H as <-.
  pose proof (collision_in_spec (run_messages entries (tiles st))) as Hc.
  destruct (collision_in _) as [[m1 m2]|]; [done|]. cbn [fst].
  apply (tile_run_right prefix (zlen entries) read entries trustedSize r' st); try done.
  unfold MAX_SAFE_INTEGER in Hs. lia.
Qed.

(** C29: termination against any server: with safe sizes, neither the recursion over
    parent tiles nor the iteration over the growing tile map runs away, whatever
    the server answers (provided it answers). *)
Theorem authenticatedTilePrefixRoot_terminates prefix treeSize rootHash trustedSize read :
  (forall url maximum, read url maximum <> Throw stack_overflow) ->
  0 < trustedSize <= treeSize -> treeSize <= MAX_SAFE_INTEGER ->
  authenticatedTilePrefixRoot prefix treeSize rootHash trustedSize read <> Throw stack_overflow.
Proof.
  intros Hread Ht Hs. assert (Hs' : treeSize < 256 ^ 7) by (unfold MAX_SAFE_INTEGER in Hs; lia).
  destruct (top_exists treeSize) as (top & Htop & Hlev); [lia|].
  pose proof (tile_run_total prefix treeSize read trustedSize top Hread Ht Hs' Htop Hlev rootHash) as H.
  unfold authenticatedTilePrefixRoot. destruct (tile_run _ _ _ _ _) as [[r st]|e]; [done|]. cbn. congruence.
Qed.

End Properties.

(** ** Witnesses *)

Definition tile_log : list bytes := [[x05]; [x06]; [x07]].
(** A server that holds the only tile of this log. *)
Definition tile_server (url : jsstr) (maximum : Z) : res bytes :=
  Ok (concat (map (leafHash (H256 := Sha256_instance)) tile_log)).

Lemma authenticatedTilePrefixRoot_sound_witness :
  authenticatedTilePrefixRoot (H256 := Sha256_instance) (js "https://log.example") 3
    (merkleRootFromEntries (H256 := Sha256_instance) tile_log) 2 tile_server
  = Ok (Some (merkleRootFromEntries (H256 := Sha256_instance) [[x05]; [x06]])).
Proof.
  assert (E : exists r, authenticatedTilePrefixRoot (H256 := Sha256_instance) (js "https://log.example")
    (zlen tile_log) (merkleRootFromEntries (H256 := Sha256_instance) tile_log) 2 tile_server = Ok r)
    by (eexists; vm_compute; reflexivity).
  destruct E as [r E].
  pose proof (authenticatedTilePrefixRoot_sound (H256 := Sha256_instance) (js "https://log.example")
    tile_log 2 tile_server r ltac:(split; [done|by vm_compute]) ltac:(by vm_compute) E) as H.
  assert (Hc : tiles_collision (H256 := Sha256_instance) (js "https://log.example") tile_log 2 tile_server = None)
    by (vm_compute; reflexivity).
  rewrite Hc in H. change [[x05]; [x06]] with (take (Z.to_nat 2) tile_log). rewrite <-H. exact E.
Defined.

Lemma authenticatedTilePrefixRoot_terminates_witness :
  authenticatedTilePrefixRoot (H256 := Sha256_instance) (js "https://log.example") 70000
    (repeat x00 32) 300 tile_server <> Throw stack_overflow.
Proof.
  apply (authenticatedTilePrefixRoot_terminates (H256 := Sha256_instance)).
  - done.
  - lia.
  - by vm_compute.
Defined.
