(* ===== verification/StreamSource.v ===== *)
(** Reading a log: the bounded resource fetcher and the complete scan of
    [log-c2sp-tlog/src/stream-source.ts].

    The network is a parameter: [fetchImpl] answers a request with a response whose
    body is a list of chunks that may end in an error.  The signal of a read is seen
    through the moment it fires (see [Budget]). *)

From S2P Require Import Prelude JsString Sha256 Merkle Tiles Url Checkpoint Budget CheckpointTrust HashTiles.

(** ** The bounded fetcher *)

Record C2spResourceFetchGuarantees := mkGuarantees {
  httpsOnly : bool;
  rejectsRedirects : bool;
  validatesAllResolvedAddresses : bool;
  connectsToValidatedAddress : bool;
  boundsResponseDuringRead : bool
}.

(** The signal of a read is not part of the options here. *)
Record C2spResourceFetchOptions := mkFetchOptions { fo_revalidate : option bool; fo_timeoutMs : Z }.

Record C2spBoundedResourceFetcher := mkFetcher {
  fetchBounded : jsstr -> Z -> C2spResourceFetchOptions -> res bytes;
  securityGuarantees : res C2spResourceFetchGuarantees
}.

Definition REQUIRED_FETCH_GUARANTEES : C2spResourceFetchGuarantees := mkGuarantees true true true true true.
Definition requiredC2spResourceFetchGuarantees : C2spResourceFetchGuarantees := REQUIRED_FETCH_GUARANTEES.

Definition guarantee_values (g : C2spResourceFetchGuarantees) : list bool :=
  [httpsOnly g; rejectsRedirects g; validatesAllResolvedAddresses g; connectsToValidatedAddress g;
   boundsResponseDuringRead g].

Definition validateC2spResourceFetcher (fetcher : C2spBoundedResourceFetcher) : res unit :=
  guarantees ← catch (securityGuarantees fetcher)
    (fun _ => Throw (C2spTlogVerificationError "failed to inspect C2SP resourceFetcher capabilities"));
  throw_if (existsb negb (guarantee_values guarantees))
    (C2spTlogVerificationError "C2SP resourceFetcher lacks required security guarantee").

Definition positiveInteger (value : Z) : res Z :=
  throw_if (negb (isSafeInteger value) || (value <? 1))
    (C2spTlogVerificationError "must be a positive safe integer");;
  Ok value.

Definition responseTooLarge : exn :=
  C2spTlogVerificationError "C2SP response exceeds configured byte maximum".

(** A body delivers its chunks and then ends, or fails; [reader.cancel()] may fail. *)
Record response_body := mkBody {
  chunks : list bytes;
  read_error : option exn;
  cancel_result : res unit
}.
Record Response := mkResponse {
  redirected : bool;
  status : Z;
  content_length : option jsstr;
  body : option response_body
}.

Definition is_VerificationError (e : exn) : bool :=
  match e with EVerification _ => true | _ => false end.

(** The [while (true)] loop of the reader, with the size so far. *)
Fixpoint read_chunks (maximum size : Z) (b : response_body) (rest : list bytes) : res (list bytes) :=
  match rest with
  | [] => match read_error b with Some e => Throw e | None => Ok [] end
  | value :: rest =>
      let size := size + zlen value in
      if maximum <? size then cancel_result b;; Throw responseTooLarge
      else more ← read_chunks maximum size b rest; Ok (value :: more)
  end.

Section Fetch.
Context `{Url : URLApi}.

(** [fetchImpl] gets the parsed URL and whether the request bypasses caches. *)
Definition fetchBoundedResponse (fetchImpl : URL -> bool -> res Response) (rawUrl : jsstr) (maximum : Z)
    (options : C2spResourceFetchOptions) : res bytes :=
  positiveInteger maximum;;
  positiveInteger (fo_timeoutMs options);;
  url ← of_option (new_URL rawUrl) (C2spTlogVerificationError "invalid C2SP resource URL");
  throw_if (negb (bool_decide (url_protocol url = js "https:")) || (zlen (url_hostname url) =? 0)
            || negb (zlen (url_username url) =? 0) || negb (zlen (url_password url) =? 0)
            || negb (zlen (url_hash url) =? 0))
    (C2spTlogVerificationError "C2SP resource URL must be absolute HTTPS without userinfo or fragment");;
  response ← catch (fetchImpl url (default false (fo_revalidate options)))
    (fun cause => Throw (C2spTlogError "C2SP resource fetch failed"
       (match cause with EVerification e => ve_transient e | _ => true end) None));
  throw_if (redirected response || ((300 <=? status response) && (status response <? 400)))
    (C2spTlogVerificationError "C2SP resource redirects are not allowed");;
  throw_if (negb (status response =? 200))
    (C2spTlogError "C2SP resource fetch failed"
       ((status response =? 408) || (status response =? 429)
        || ((500 <=? status response) && (status response <=? 599))) (Some (status response)));;
  throw_if (match content_length response with
            | Some c => negb (length c =? 0)%nat && forallb is_digit c && (maximum <? digits_value c)
            | None => false
            end) responseTooLarge;;
  match body response with
  | None => Ok []
  | Some b =>
      parts ← catch (read_chunks maximum 0 b (chunks b))
        (fun cause => Throw (if is_VerificationError cause then cause
                             else C2spTlogError "failed to read C2SP resource" true None));
      Ok (concat parts)
  end.

Definition createFetchBackedC2spResourceFetcher (fetchImpl : URL -> bool -> res Response)
    (guarantees : C2spResourceFetchGuarantees) : C2spBoundedResourceFetcher :=
  mkFetcher (fetchBoundedResponse fetchImpl) (Ok guarantees).

End Fetch.

(** ** The scan *)

Definition C2SP_ENTRIES_PER_BUNDLE : Z := 256.
Definition DEFAULT_C2SP_MAX_TREE_SIZE : Z := 1000000.
Definition DEFAULT_C2SP_MAX_CHECKPOINT_BYTES : Z := 1048576.
Definition DEFAULT_C2SP_MAX_ENTRY_BUNDLE_BYTES : Z := 16777472.
Definition DEFAULT_C2SP_MAX_TOTAL_ENTRY_BYTES : Z := 268435456.
Definition DEFAULT_C2SP_REQUEST_TIMEOUT_MS : Z := 10000.

Record StreamEvidence := mkStreamEvidence {
  se_checkpoint : Checkpoint;
  se_entries : list IndexedEntry;
  se_complete : bool
}.

Record ScanStreamSourceOptions := mkScanOptions {
  so_revalidate : option bool;
  authenticateCheckpoint : Checkpoint -> res unit;
  so_maxTreeSize : option Z;
  so_maxCheckpointBytes : option Z;
  so_maxEntryBundleBytes : option Z;
  so_maxTotalEntryBytes : option Z;
  so_requestTimeoutMs : option Z
}.

Record ScanStreamSource := mkScanStreamSource {
  ss_options : ScanStreamSourceOptions;
  resourceFetcher : C2spBoundedResourceFetcher;
  maxTreeSize : Z;
  maxCheckpointBytes : Z;
  maxEntryBundleBytes : Z;
  maxTotalEntryBytes : Z;
  requestTimeoutMs : Z
}.

Definition newScanStreamSource (options : ScanStreamSourceOptions)
    (resourceFetcher : C2spBoundedResourceFetcher) : res ScanStreamSource :=
  validateC2spResourceFetcher resourceFetcher;;
  maxTreeSize ← positiveInteger (default DEFAULT_C2SP_MAX_TREE_SIZE (so_maxTreeSize options));
  maxCheckpointBytes ← positiveInteger (default DEFAULT_C2SP_MAX_CHECKPOINT_BYTES (so_maxCheckpointBytes options));
  maxEntryBundleBytes ← positiveInteger (default DEFAULT_C2SP_MAX_ENTRY_BUNDLE_BYTES (so_maxEntryBundleBytes options));
  maxTotalEntryBytes ← positiveInteger (default DEFAULT_C2SP_MAX_TOTAL_ENTRY_BYTES (so_maxTotalEntryBytes options));
  requestTimeoutMs ← positiveInteger (default DEFAULT_C2SP_REQUEST_TIMEOUT_MS (so_requestTimeoutMs options));
  Ok (mkScanStreamSource options resourceFetcher maxTreeSize maxCheckpointBytes maxEntryBundleBytes
        maxTotalEntryBytes requestTimeoutMs).

(** One call: when its signal fires at each read and over the whole call, and the clock. *)
Record call_env := mkCallEnv {
  read_abort : jsstr -> abort;
  call_abort : abort;
  started : Z;
  finished : Z
}.

Section Scan.
Context `{H256 : Hash256}.
Context (source : ScanStreamSource).

(** The private method [bytes]. *)
Definition read_bytes (a : abort) (url : jsstr) (maximum : Z) (revalidate : option bool) : res bytes :=
  bytes ← catch (waitForVerification a (fetchBounded (resourceFetcher source) url maximum
                   (mkFetchOptions revalidate (requestTimeoutMs source))))
    (fun cause => Throw (if is_VerificationError cause then cause
                         else C2spTlogError "C2SP resource fetch failed" true None));
  throw_if (maximum <? zlen bytes) responseTooLarge;;
  Ok bytes.

Definition read_checkpoint (env : call_env) (prefix : jsstr) (revalidate : option bool) : res Checkpoint :=
  checkpointBytes ← read_bytes (read_abort env (checkpointPath prefix)) (checkpointPath prefix)
                      (maxCheckpointBytes source) revalidate;
  checkpoint ← parseCheckpoint (text_decode checkpointBytes);
  authenticateCheckpoint (ss_options source) checkpoint;;
  Ok checkpoint.

(** The entries that bundle [bundleIndex] must hold, and its path. *)
Definition bundle_want (treeSize bundleIndex : Z) : Z :=
  Z.min C2SP_ENTRIES_PER_BUNDLE (treeSize - bundleIndex * C2SP_ENTRIES_PER_BUNDLE).
Definition bundle_path (prefix : jsstr) (treeSize bundleIndex : Z) : res jsstr :=
  let want := bundle_want treeSize bundleIndex in
  entryBundlePath prefix bundleIndex (if want =? C2SP_ENTRIES_PER_BUNDLE then None else Some want).

(** One turn of the scan: the entries and the total bytes so far. *)
Definition scan_bundle (env : call_env) (prefix : jsstr) (revalidate : option bool) (treeSize : Z)
    (state : list IndexedEntry * Z) (bundleIndex : Z) : res (list IndexedEntry * Z) :=
  let '(entries, totalEntryBytes) := state in
  let want := bundle_want treeSize bundleIndex in
  path ← bundle_path prefix treeSize bundleIndex;
  bundleBytes ← read_bytes (read_abort env path) path (maxEntryBundleBytes source) revalidate;
  let totalEntryBytes := totalEntryBytes + zlen bundleBytes in
  throw_if (maxTotalEntryBytes source <? totalEntryBytes)
    (C2spTlogVerificationError "entry bundles exceed configured total byte maximum");;
  bundle ← parseEntryBundle bundleBytes;
  throw_if (negb (zlen bundle =? want)) (C2spTlogVerificationError "entry bundle width mismatch");;
  Ok (entries ++ imap (fun i bytes => mkIndexedEntry (bundleIndex * C2SP_ENTRIES_PER_BUNDLE + Z.of_nat i) bytes) bundle,
      totalEntryBytes).

(** The bundle indices [0, 1, ...] with [bundleIndex * 256 < treeSize]. *)
Definition bundle_indices (treeSize : Z) : list Z :=
  seqZ 0 ((treeSize + C2SP_ENTRIES_PER_BUNDLE - 1) / C2SP_ENTRIES_PER_BUNDLE).

Definition loadWithinBudget (env : call_env) (prefix : jsstr) (revalidate : option bool) : res StreamEvidence :=
  checkpoint ← read_checkpoint env prefix revalidate;
  throw_if (maxTreeSize source <? treeSize checkpoint)
    (C2spTlogVerificationError "checkpoint tree size exceeds configured maximum");;
  '(entries, _) ← for_each (scan_bundle env prefix revalidate (treeSize checkpoint))
                    (bundle_indices (treeSize checkpoint)) ([], 0);
  Ok (mkStreamEvidence checkpoint entries true).

Definition choose_revalidate (revalidate : option bool) : option bool :=
  match revalidate with Some b => Some b | None => so_revalidate (ss_options source) end.

Definition load (env : call_env) (prefix : jsstr) (revalidate : option bool) : res StreamEvidence :=
  withVerificationBudget None (started env) (finished env) (call_abort env)
    (loadWithinBudget env prefix (choose_revalidate revalidate)).

Definition discoverEntry (env : call_env) (prefix : jsstr) (index : Z) (revalidate : option bool)
    : res IndexedEntry :=
  let revalidate := choose_revalidate revalidate in
  withVerificationBudget None (started env) (finished env) (call_abort env) (
    checkpoint ← read_checkpoint env prefix revalidate;
    throw_if (negb (isSafeInteger index) || (index <? 0) || (treeSize checkpoint <=? index))
      (C2spTlogVerificationError "C2SP entry index is outside checkpoint size");;
    let bundleIndex := index / C2SP_ENTRIES_PER_BUNDLE in
    let want := bundle_want (treeSize checkpoint) bundleIndex in
    path ← bundle_path prefix (treeSize checkpoint) bundleIndex;
    bundleBytes ← read_bytes (read_abort env path) path (maxEntryBundleBytes source) revalidate;
    bundle ← parseEntryBundle bundleBytes;
    throw_if (negb (zlen bundle =? want)) (C2spTlogVerificationError "entry bundle width mismatch");;
    Ok (mkIndexedEntry index (nth (Z.to_nat (index mod C2SP_ENTRIES_PER_BUNDLE)) bundle []))).

(** The prefix root of a candidate checkpoint from hash tiles read within a call. *)
Definition consistencyRoot (env : call_env) (prefix : jsstr) (candidateSize : Z) (candidateRoot : bytes)
    (trustedSize : Z) (revalidate : option bool) : res (option bytes) :=
  throw_if (maxTreeSize source <? candidateSize)
    (C2spTlogVerificationError "checkpoint tree size exceeds configured maximum");;
  authenticatedTilePrefixRoot prefix candidateSize candidateRoot trustedSize
    (fun url maximum => read_bytes (read_abort env url) url maximum revalidate).

End Scan.

(** ** Lemmas *)

Lemma positiveInteger_Ok v w : positiveInteger v = Ok w -> w = v /\ 1 <= v <= MAX_SAFE_INTEGER.
Proof.
  unfold positiveInteger. intros H. res_inv. bool_inv. apply isSafeInteger_spec in H. lia.
Qed.

(** A body that is read completely is not longer than the maximum, whatever the chunks. *)
Lemma read_chunks_Ok maximum size b l parts : size <= maximum ->
  read_chunks maximum size b l = Ok parts -> parts = l /\ size + zlen (concat l) <= maximum.
Proof.
  revert size parts; induction l as [|v l IH]; intros size parts Hs H; cbn [read_chunks concat] in *.
  - destruct (read_error b); [done|]. injection H as <-. change (zlen (@nil byte)) with 0. split; [done|lia].
  - destruct (Z.ltb_spec maximum (size + zlen v)); [by destruct (cancel_result b)|].
    apply bind_Ok in H as (more & Hm & [= <-]). apply IH in Hm as [-> Hl]; [|lia].
    rewrite zlen_app. split; [done|lia].
Qed.

Section ScanProps.
Context `{H256 : Hash256}.
Context (source : ScanStreamSource).

Notation fetch url maximum revalidate :=
  (fetchBounded (resourceFetcher source) url maximum (mkFetchOptions revalidate (requestTimeoutMs source))).

Lemma read_bytes_Ok a url maximum rv bs :
  read_bytes source a url maximum rv = Ok bs <->
  a = Live /\ fetch url maximum rv = Ok bs /\ zlen bs <= maximum.
Proof.
  unfold read_bytes. split.
  - intros (bs' & Hc & H)%bind_Ok. apply bind_Ok in H as (? & Hl%throw_if_Ok & [= <-]).
    apply catch_Ok in Hc as [Hw|(e & _ & H)]; [|done].
    apply waitForVerification_Ok in Hw as [-> Hf]. apply Z.ltb_ge in Hl. done.
  - intros (-> & Hf & Hl). cbn [waitForVerification]. rewrite Hf. cbn [catch mbind res_bind].
    by rewrite (proj2 (Z.ltb_ge _ _)) by lia.
Qed.

(** What the server gave for an entry: the right bundle, of the right width. *)
Definition served (prefix : jsstr) (revalidate : option bool) (treeSize : Z) (e : IndexedEntry) : Prop :=
  exists path bundleBytes bundle, let bundleIndex := ie_index e / C2SP_ENTRIES_PER_BUNDLE in
  bundle_path prefix treeSize bundleIndex = Ok path
  /\ fetch path (maxEntryBundleBytes source) revalidate = Ok bundleBytes
  /\ parseEntryBundle bundleBytes = Ok bundle
  /\ zlen bundle = bundle_want treeSize bundleIndex
  /\ bundle !! Z.to_nat (ie_index e mod C2SP_ENTRIES_PER_BUNDLE) = Some (ie_bytes e).

Lemma scan_bundle_Ok (env : call_env) prefix rv n entries total i st' :
  scan_bundle source env prefix rv n (entries, total) i = Ok st' ->
  exists path bundleBytes bundle,
  bundle_path prefix n i = Ok path
  /\ fetch path (maxEntryBundleBytes source) rv = Ok bundleBytes
  /\ zlen bundleBytes <= maxEntryBundleBytes source
  /\ total + zlen bundleBytes <= maxTotalEntryBytes source
  /\ parseEntryBundle bundleBytes = Ok bundle /\ zlen bundle = bundle_want n i
  /\ st' = (entries ++ imap (fun j bytes => mkIndexedEntry (i * 256 + Z.of_nat j) bytes) bundle,
            total + zlen bundleBytes).
Proof.
  unfold scan_bundle. intros (path & Hp & H)%bind_Ok. apply bind_Ok in H as (bb & Hr & H).
  apply read_bytes_Ok in Hr as (_ & Hf & Hl). apply bind_Ok in H as (? & Ht%throw_if_Ok & H).
  apply bind_Ok in H as (bundle & Hb & H). apply bind_Ok in H as (? & Hw%throw_if_Ok & [= <-]).
  bool_inv. exists path, bb, bundle. repeat split; done.
Qed.

Lemma bundle_entries_index i (bundle : list bytes) :
  map ie_index (imap (fun j bytes => mkIndexedEntry (i * 256 + Z.of_nat j) bytes) bundle)
  = seqZ (i * 256) (zlen bundle).
Proof.
  apply list_eq. intros j. change (map ie_index ?l) with (ie_index <$> l).
  rewrite list_lookup_fmap, list_lookup_imap.
  destruct (bundle !! j) as [b|] eqn:E; cbn [fmap option_fmap option_map ie_index].
  - apply lookup_lt_Some in E. symmetry. apply lookup_seqZ. unfold zlen. lia.
  - apply lookup_ge_None in E. symmetry. apply lookup_seqZ_ge. unfold zlen. lia.
Qed.

Lemma bundle_entries_served prefix rv n i path bundleBytes bundle : 0 <= i ->
  bundle_path prefix n i = Ok path -> fetch path (maxEntryBundleBytes source) rv = Ok bundleBytes ->
  parseEntryBundle bundleBytes = Ok bundle -> zlen bundle = bundle_want n i ->
  Forall (served prefix rv n) (imap (fun j bytes => mkIndexedEntry (i * 256 + Z.of_nat j) bytes) bundle).
Proof.
  intros Hi Hp Hf Hb Hw. apply Forall_lookup. intros j e He. rewrite list_lookup_imap in He.
  destruct (bundle !! j) as [b|] eqn:E; [|done]. injection He as <-. exists path, bundleBytes, bundle.
  pose proof (lookup_lt_Some _ _ _ E) as Hj. unfold bundle_want, C2SP_ENTRIES_PER_BUNDLE, zlen in *.
  cbn [ie_index ie_bytes].
  rewrite Z.div_add_l, Z.div_small, Z.add_0_r by lia. rewrite Z.add_comm, Z.mod_add, Z.mod_small by lia.
  by rewrite Nat2Z.id.
Qed.

(** The scan from bundle [k] on, when the entries before it are there. *)
Lemma scan_loop (env : call_env) prefix rv n k m entries total st' : 0 <= k -> 0 <= n ->
  map ie_index entries = seqZ 0 (Z.min n (256 * k)) -> Forall (served prefix rv n) entries ->
  (0 < m -> 256 * (k + m - 1) < n) ->
  for_each (scan_bundle source env prefix rv n) (seqZ k m) (entries, total) = Ok st' ->
  map ie_index (fst st') = seqZ 0 (Z.min n (256 * (k + Z.max 0 m))) /\ Forall (served prefix rv n) (fst st').
Proof.
  revert k m entries total. enough (H : forall (j : nat) k m entries total, Z.to_nat m = j -> 0 <= k -> 0 <= n ->
    map ie_index entries = seqZ 0 (Z.min n (256 * k)) -> Forall (served prefix rv n) entries ->
    (0 < m -> 256 * (k + m - 1) < n) ->
    for_each (scan_bundle source env prefix rv n) (seqZ k m) (entries, total) = Ok st' ->
    map ie_index (fst st') = seqZ 0 (Z.min n (256 * (k + Z.max 0 m))) /\ Forall (served prefix rv n) (fst st'))
    by (intros; eapply H; eauto).
  induction j as [|j IH]; intros k m entries total Hj Hk Hn Hidx Hs Hb H.
  - rewrite seqZ_nil in H by lia. injection H as <-. cbn [fst]. by replace (k + Z.max 0 m) with k by lia.
  - rewrite seqZ_cons in H by lia. cbn [for_each] in H. apply bind_Ok in H as ([es t] & H1 & H).
    apply scan_bundle_Ok in H1 as (path & bb & bundle & Hp & Hf & _ & _ & Hpb & Hw & [= -> ->]).
    apply IH in H; [|lia..| | |lia].
    + replace (Z.succ k + Z.max 0 (Z.pred m)) with (k + Z.max 0 m) in H by lia. done.
    + rewrite map_app, Hidx, bundle_entries_index, Hw. unfold bundle_want, C2SP_ENTRIES_PER_BUNDLE.
      specialize (Hb ltac:(lia)). rewrite (Z.min_r n) by lia.
      replace (k * 256) with (0 + 256 * k) by lia. rewrite <-seqZ_app by lia. f_equal. lia.
    + apply Forall_app. split; [done|]. by eapply bundle_entries_served.
Qed.


Lemma read_checkpoint_Ok env prefix rv c : read_checkpoint source env prefix rv = Ok c <->
  read_abort env (checkpointPath prefix) = Live
  /\ exists bs, fetch (checkpointPath prefix) (maxCheckpointBytes source) rv = Ok bs
  /\ zlen bs <= maxCheckpointBytes source /\ parseCheckpoint (text_decode bs) = Ok c
  /\ authenticateCheckpoint (ss_options source) c = Ok tt.
Proof.
  unfold read_checkpoint. split.
  - intros (bs & (Ha & Hf & Hl)%read_bytes_Ok & H)%bind_Ok. apply bind_Ok in H as (c' & Hp & H).
    apply bind_Ok in H as ([] & Hau & [= <-]). split; [done|]. by exists bs.
  - intros (Ha & bs & Hf & Hl & Hp & Hau).
    rewrite (proj2 (read_bytes_Ok _ _ _ _ bs)) by done. cbn [mbind res_bind].
    rewrite Hp. cbn [mbind res_bind]. by rewrite Hau.
Qed.

Lemma parseCheckpoint_size text c : parseCheckpoint text = Ok c -> 0 <= treeSize c <= MAX_SAFE_INTEGER.
Proof.
  by intros (o & s & r & rest & _ & _ & _ & _ & Hn & _)%parseCheckpoint_body.
Qed.

(** The bundles of the loop cover the tree. *)
Lemma bundle_count n : 0 <= n ->
  let m := (n + C2SP_ENTRIES_PER_BUNDLE - 1) / C2SP_ENTRIES_PER_BUNDLE in
  0 <= m /\ (0 < m -> 256 * (0 + m - 1) < n) /\ Z.min n (256 * (0 + Z.max 0 m)) = n.
Proof. unfold C2SP_ENTRIES_PER_BUNDLE. intros Hn. Z.to_euclidean_division_equations. lia. Qed.

Lemma loadWithinBudget_Ok env prefix rv ev : loadWithinBudget source env prefix rv = Ok ev ->
  let n := treeSize (se_checkpoint ev) in
  read_checkpoint source env prefix rv = Ok (se_checkpoint ev) /\ se_complete ev = true
  /\ n <= maxTreeSize source /\ map ie_index (se_entries ev) = seqZ 0 n
  /\ Forall (served prefix rv n) (se_entries ev).
Proof.
  unfold loadWithinBudget. intros (c & Hc & H)%bind_Ok. apply bind_Ok in H as (? & Hm%throw_if_Ok & H).
  apply bind_Ok in H as ([es total] & Hl & [= <-]). cbn [se_checkpoint se_entries se_complete].
  apply Z.ltb_ge in Hm. apply read_checkpoint_Ok in Hc as Hc'. destruct Hc' as (_ & bs & _ & _ & Hp & _).
  pose proof (parseCheckpoint_size _ _ Hp) as Hn. destruct (bundle_count (treeSize c)) as (H0 & Hlt & Hmin); [lia|].
  apply scan_loop in Hl as [Hidx Hs]; [|lia|lia|by rewrite Z.min_r by lia|done|done].
  rewrite Hmin in Hidx. done.
Qed.

(** *** An honest server *)

Lemma scan_bundle_honest env prefix rv n entries total i path bb bundle :
  bundle_path prefix n i = Ok path -> read_abort env path = Live ->
  fetch path (maxEntryBundleBytes source) rv = Ok bb -> zlen bb <= maxEntryBundleBytes source ->
  total + zlen bb <= maxTotalEntryBytes source ->
  encodeEntryBundle bundle = Ok bb -> zlen bundle = bundle_want n i ->
  scan_bundle source env prefix rv n (entries, total) i
  = Ok (entries ++ imap (fun j bytes => mkIndexedEntry (i * 256 + Z.of_nat j) bytes) bundle, total + zlen bb).
Proof.
  intros Hp Ha Hf Hl Ht He Hw. unfold scan_bundle. rewrite Hp. cbn [mbind res_bind].
  rewrite (proj2 (read_bytes_Ok _ _ _ _ bb)) by done. cbn [mbind res_bind].
  rewrite (proj2 (Z.ltb_ge _ _)) by lia. cbn [throw_if mbind res_bind].
  rewrite (encodeEntryBundle_parse _ _ He). cbn [mbind res_bind].
  by rewrite Hw, Z.eqb_refl.
Qed.

(** What a server of the log must answer for bundle [i]. *)
Definition bundle_of (log : list bytes) (i : Z) : list bytes := slice log (i * 256) ((i + 1) * 256).
Definition serves (prefix : jsstr) (rv : option bool) (env : call_env) (log : list bytes) (i : Z) (bb : bytes) : Prop :=
  exists path, bundle_path prefix (zlen log) i = Ok path /\ read_abort env path = Live
  /\ encodeEntryBundle (bundle_of log i) = Ok bb
  /\ fetch path (maxEntryBundleBytes source) rv = Ok bb /\ zlen bb <= maxEntryBundleBytes source.

Lemma bundle_of_width (log : list bytes) i : 0 <= i -> 256 * i < zlen log ->
  zlen (bundle_of log i) = bundle_want (zlen log) i.
Proof.
  intros Hi Hl. unfold bundle_of, bundle_want, C2SP_ENTRIES_PER_BUNDLE, slice, zlen in *.
  rewrite length_take, length_drop. lia.
Qed.

Lemma bundle_of_append (log : list bytes) i : 0 <= i ->
  imap (fun j bytes => mkIndexedEntry (Z.of_nat j) bytes) (take (Z.to_nat (256 * i)) log)
  ++ imap (fun j bytes => mkIndexedEntry (i * 256 + Z.of_nat j) bytes) (bundle_of log i)
  = imap (fun j bytes => mkIndexedEntry (Z.of_nat j) bytes) (take (Z.to_nat (256 * (i + 1))) log).
Proof.
  intros Hi. assert (Ht : take (Z.to_nat (256 * (i + 1))) log
    = take (Z.to_nat (256 * i)) log ++ bundle_of log i).
  { unfold bundle_of, slice. rewrite take_drop_commute.
    replace (Z.to_nat (i * 256) + Z.to_nat ((i + 1) * 256 - i * 256))%nat with (Z.to_nat (256 * (i + 1))) by lia.
    replace (Z.to_nat (i * 256)) with (Z.to_nat (256 * i)) by lia.
    rewrite <-(take_drop (Z.to_nat (256 * i)) (take (Z.to_nat (256 * (i + 1))) log)) at 1.
    by rewrite take_take, Nat.min_l by lia. }
  rewrite Ht, imap_app. f_equal. apply imap_ext. intros j b Hj. cbn. f_equal.
  assert (Hne : bundle_of log i <> []) by (intros E; by rewrite E in Hj).
  assert (Z.to_nat (i * 256) < length log)%nat.
  { destruct (Nat.lt_ge_cases (Z.to_nat (i * 256)) (length log)) as [|Hge]; [done|].
    destruct Hne. unfold bundle_of, slice. rewrite drop_ge by done. by rewrite take_nil. }
  rewrite length_take, Nat.min_l by lia. lia.
Qed.

Lemma scan_honest env prefix rv log k bbs total : 0 <= k -> 256 * (k + zlen bbs - 1) < zlen log \/ bbs = [] ->
  Forall2 (serves prefix rv env log) (seqZ k (zlen bbs)) bbs ->
  total + zlen (concat bbs) <= maxTotalEntryBytes source ->
  for_each (scan_bundle source env prefix rv (zlen log)) (seqZ k (zlen bbs))
    (imap (fun j bytes => mkIndexedEntry (Z.of_nat j) bytes) (take (Z.to_nat (256 * k)) log), total)
  = Ok (imap (fun j bytes => mkIndexedEntry (Z.of_nat j) bytes) (take (Z.to_nat (256 * (k + zlen bbs))) log),
        total + zlen (concat bbs)).
Proof.
  revert k total; induction bbs as [|bb bbs IH]; intros k total Hk Hb HF Ht.
  - change (zlen (@nil bytes)) with 0. rewrite seqZ_nil by lia. cbn [for_each concat].
    change (zlen (@nil byte)) with 0. by rewrite !Z.add_0_r.
  - pose proof (zlen_nonneg bbs). rewrite zlen_cons in *. rewrite seqZ_cons in * by lia.
    replace (Z.pred (1 + zlen bbs)) with (zlen bbs) in * by lia.
    apply Forall2_cons in HF as [(path & Hp & Ha & He & Hf & Hl) HF].
    cbn [for_each concat] in *. rewrite zlen_app in *. pose proof (zlen_nonneg (concat bbs)).
    destruct Hb as [Hb|]; [|done].
    rewrite (scan_bundle_honest _ _ _ _ _ _ _ path bb (bundle_of log k)) by
      (done || lia || (apply bundle_of_width; lia)).
    cbn [mbind res_bind]. rewrite bundle_of_append by done. change (k + 1) with (Z.succ k).
    rewrite IH; [|lia| |done|lia].
    + f_equal. f_equal; [|lia]. do 3 f_equal. lia.
    + destruct bbs; [by right|left]. rewrite zlen_cons in *. lia.
Qed.

End ScanProps.

(** ** Properties *)

(** C31: bounded reads: a response is accepted only for an absolute HTTPS URL without
    userinfo or fragment, with status 200, without a redirect, and whole; its bytes
    are the chunks of its body, at most [maximum] of them, however the body is cut
    into chunks and whatever its [content-length] says. *)
Theorem fetchBoundedResponse_bounded `{Url : URLApi} fetchImpl rawUrl maximum options bs :
  fetchBoundedResponse fetchImpl rawUrl maximum options = Ok bs ->
  exists url response, new_URL rawUrl = Some url
  /\ url_protocol url = js "https:" /\ url_hostname url <> []
  /\ url_username url = [] /\ url_password url = [] /\ url_hash url = []
  /\ fetchImpl url (default false (fo_revalidate options)) = Ok response
  /\ redirected response = false /\ status response = 200
  /\ bs = match body response with Some b => concat (chunks b) | None => [] end
  /\ zlen bs <= maximum.
Proof.
  unfold fetchBoundedResponse. intros (m & Hmax & H)%bind_Ok.
  apply positiveInteger_Ok in Hmax as [-> Hmax]. apply bind_Ok in H as (? & _ & H).
  apply bind_Ok in H as (url & Hu%of_option_Ok & H). apply bind_Ok in H as (? & Hc%throw_if_Ok & H).
  apply bind_Ok in H as (response & Hr & H). apply bind_Ok in H as (? & Hred%throw_if_Ok & H).
  apply bind_Ok in H as (? & Hst%throw_if_Ok & H). apply bind_Ok in H as (? & _ & H).
  apply catch_Ok in Hr as [Hr|(e & _ & ?)]; [|done].
  repeat apply orb_false_iff in Hc as [Hc ?]. apply orb_false_iff in Hred as [Hred _]. bool_inv.
  exists url, response. split_and!; try done; try by apply zlen_nil_inv.
  - intros E. match goal with H : zlen (url_hostname url) <> 0 |- _ => by rewrite E in H end.
  - destruct (body response) as [b|]; [|congruence].
    apply bind_Ok in H as (parts & Hp & [= <-]). apply catch_Ok in Hp as [Hp|(e & _ & ?)]; [|done].
    by apply read_chunks_Ok in Hp as [-> _]; [|lia].
  - destruct (body response) as [b|]; [|injection H as <-; change (zlen (@nil byte)) with 0; lia].
    apply bind_Ok in H as (parts & Hp & [= <-]). apply catch_Ok in Hp as [Hp|(e & _ & ?)]; [|done].
    apply read_chunks_Ok in Hp as [-> Hz]; lia.
Qed.

Section Properties.
Context `{H256 : Hash256}.

(** A loaded scan is complete: its checkpoint was authenticated and is within
    the size limit, and its entries have exactly the indices [0 .. treeSize - 1], in
    order. *)
Theorem load_complete source env prefix revalidate ev :
  load source env prefix revalidate = Ok ev ->
  authenticateCheckpoint (ss_options source) (se_checkpoint ev) = Ok tt
  /\ treeSize (se_checkpoint ev) <= maxTreeSize source
  /\ se_complete ev = true
  /\ map ie_index (se_entries ev) = seqZ 0 (treeSize (se_checkpoint ev)).
Proof.
  unfold load. intros (_ & _ & _ & H)%withVerificationBudget_Ok.
  apply loadWithinBudget_Ok in H as (Hc & Hcomp & Hmax & Hidx & _).
  apply read_checkpoint_Ok in Hc as (_ & bs & _ & _ & _ & Ha). done.
Qed.

(** Discovery agrees with the scan: an entry that [discoverEntry] reads from its
    one bundle is the entry that a complete scan of the same resources has at that
    index. *)
Theorem discoverEntry_agrees source env env' prefix revalidate index ev e :
  load source env prefix revalidate = Ok ev ->
  discoverEntry source env' prefix index revalidate = Ok e ->
  se_entries ev !! Z.to_nat index = Some e.
Proof.
  unfold load, discoverEntry. intros (_ & _ & _ & H)%withVerificationBudget_Ok (_ & _ & _ & D)%withVerificationBudget_Ok.
  apply loadWithinBudget_Ok in H as (Hc & _ & _ & Hidx & Hs).
  apply bind_Ok in D as (c & Hc' & D). apply bind_Ok in D as (? & Hi%throw_if_Ok & D).
  apply bind_Ok in D as (path & Hp & D). apply bind_Ok in D as (bb & (_ & Hf & _)%read_bytes_Ok & D).
  apply bind_Ok in D as (bundle & Hb & D). apply bind_Ok in D as (? & Hw%throw_if_Ok & [= <-]).
  apply read_checkpoint_Ok in Hc as (_ & b1 & F1 & _ & P1 & _).
  apply read_checkpoint_Ok in Hc' as (_ & b2 & F2 & _ & P2 & _).
  assert (c = se_checkpoint ev) as -> by congruence. bool_inv.
  assert (Hz : zlen (se_entries ev) = treeSize (se_checkpoint ev)).
  { unfold zlen. rewrite <-(length_map ie_index), Hidx, length_seqZ. lia. }
  destruct (lookup_lt_is_Some_2 (se_entries ev) (Z.to_nat index)) as [e He]; [unfold zlen in Hz; lia|].
  assert (Hei : ie_index e = index).
  { assert (Hl : map ie_index (se_entries ev) !! Z.to_nat index = Some (ie_index e))
      by (change (map ie_index ?l) with (ie_index <$> l); by rewrite list_lookup_fmap, He).
    rewrite Hidx, lookup_seqZ in Hl. lia. }
  rewrite Forall_lookup in Hs. destruct (Hs _ _ He) as (p & fb & bl & Hp' & Hf' & Hb' & _ & Hl).
  rewrite Hei in *. rewrite Hp in Hp'. injection Hp' as <-. rewrite Hf in Hf'. injection Hf' as <-.
  rewrite Hb in Hb'. injection Hb' as <-. rewrite He. f_equal. destruct e as [i b]. cbn in *. subst i.
  f_equal. symmetry. by apply nth_lookup_Some.
Qed.

(** C30: an honest server is understood: if the server answers with the checkpoint of
    a log and the encoded bundles of 256 entries, within the configured limits and
    without cancellation, the scan returns the log. *)
Theorem load_honest source env prefix revalidate log c bs bbs :
  let rv := choose_revalidate source revalidate in
  call_abort env = Live -> read_abort env (checkpointPath prefix) = Live ->
  finished env < started env + 30000 ->
  fetchBounded (resourceFetcher source) (checkpointPath prefix) (maxCheckpointBytes source)
    (mkFetchOptions rv (requestTimeoutMs source)) = Ok bs ->
  zlen bs <= maxCheckpointBytes source -> parseCheckpoint (text_decode bs) = Ok c ->
  authenticateCheckpoint (ss_options source) c = Ok tt ->
  treeSize c = zlen log -> zlen log <= maxTreeSize source ->
  Forall2 (serves source prefix rv env log) (bundle_indices (zlen log)) bbs ->
  zlen (concat bbs) <= maxTotalEntryBytes source ->
  load source env prefix revalidate
  = Ok (mkStreamEvidence c (imap (fun j b => mkIndexedEntry (Z.of_nat j) b) log) true).
Proof.
  intros rv Ha Hra Ht Hf Hl Hp Hau Hn Hmax HF Htot. unfold load. apply withVerificationBudget_Ok.
  split; [cbn; lia|]. split; [done|]. split; [done|]. unfold loadWithinBudget. fold rv.
  rewrite (proj2 (read_checkpoint_Ok _ _ _ _ c)) by (split; [done|by exists bs]).
  cbn [mbind res_bind]. rewrite Hn, (proj2 (Z.ltb_ge _ _)) by lia. cbn [throw_if mbind res_bind].
  pose proof (zlen_nonneg log) as H0. destruct (bundle_count (zlen log) H0) as (Hm & Hlt & Hmin).
  unfold bundle_indices in *. set (m := (zlen log + C2SP_ENTRIES_PER_BUNDLE - 1) / C2SP_ENTRIES_PER_BUNDLE) in *.
  assert (Hz : m = zlen bbs).
  { apply Forall2_length in HF. rewrite length_seqZ in HF. unfold zlen. lia. }
  rewrite Hz in *.
  pose proof (scan_honest source env prefix rv log 0 bbs 0 ltac:(lia)) as Hscan.
  change (take (Z.to_nat (256 * 0)) log) with (@nil bytes) in Hscan. cbn [imap] in Hscan.
  rewrite Hscan; [|destruct bbs; [by right|left; apply Hlt; rewrite zlen_cons; pose proof (zlen_nonneg bbs); lia]|done|lia].
  cbn [mbind res_bind]. do 3 f_equal. apply take_ge. unfold zlen in *. lia.
Qed.

End Properties.

(** ** Witnesses *)

Definition scan_prefix : jsstr := js "https://log.example/a".
Definition scan_log : list bytes := [[x61]; [x62; x63]; []].
Definition scan_bundle_bytes : bytes := [x00; x01; x61; x00; x02; x62; x63; x00; x00].
Definition scan_note : jsstr :=
  js "log.example/a" ++ [10] ++ js "3" ++ [10] ++ example_root ++ [10; 10].
Definition scan_checkpoint : Checkpoint :=
  mkCheckpoint (js "log.example/a") 3 (repeat x00 32) []
    (js "log.example/a" ++ [10] ++ js "3" ++ [10] ++ example_root ++ [10]).

(** A server of this log. *)
Definition scan_server (url : jsstr) (maximum : Z) (options : C2spResourceFetchOptions) : res bytes :=
  if bool_decide (url = checkpointPath scan_prefix) then Ok (utf8_encode scan_note)
  else if bool_decide (url = js "https://log.example/a/tile/entries/000.p/3") then Ok scan_bundle_bytes
  else Throw (C2spTlogError "C2SP resource fetch failed" false (Some 404)).
Definition scan_source : ScanStreamSource :=
  mkScanStreamSource (mkScanOptions None (fun _ => Ok tt) None None None None None)
    (mkFetcher scan_server (Ok REQUIRED_FETCH_GUARANTEES)) 1000 1000 1000 1000 1000.
Definition live_env : call_env := mkCallEnv (fun _ => Live) Live 0 5.
Definition scan_evidence : StreamEvidence :=
  mkStreamEvidence scan_checkpoint (imap (fun j b => mkIndexedEntry (Z.of_nat j) b) scan_log) true.

Lemma load_honest_witness :
  load scan_source live_env scan_prefix None = Ok scan_evidence.
Proof.
  apply (load_honest scan_source live_env scan_prefix None scan_log scan_checkpoint
           (utf8_encode scan_note) [scan_bundle_bytes]);
    [vm_compute; reflexivity|vm_compute; reflexivity|vm_compute; reflexivity|vm_compute; reflexivity
    |vm_compute; discriminate|vm_compute; reflexivity|vm_compute; reflexivity|vm_compute; reflexivity
    |vm_compute; discriminate| |vm_compute; discriminate].
  change (bundle_indices (zlen scan_log)) with [0]. constructor; [|constructor].
  exists (js "https://log.example/a/tile/entries/000.p/3").
  split_and!; vm_compute; (reflexivity || discriminate).
Defined.

Lemma load_complete_witness :
  load scan_source live_env scan_prefix None = Ok scan_evidence
  /\ map ie_index (se_entries scan_evidence) = seqZ 0 3.
Proof.
  assert (E : load scan_source live_env scan_prefix None = Ok scan_evidence)
    by (vm_compute; reflexivity).
  split; [exact E|]. apply (load_complete _ _ _ _ _ E).
Defined.

Lemma discoverEntry_agrees_witness :
  se_entries scan_evidence !! 1%nat = Some (mkIndexedEntry 1 [x62; x63]).
Proof.
  apply (discoverEntry_agrees scan_source live_env live_env scan_prefix None 1);
    vm_compute; reflexivity.
Defined.

Definition bounded_response : Response :=
  mkResponse false 200 (Some (js "3")) (Some (mkBody [[x61]; [x62; x63]] None (Ok tt))).

Lemma fetchBoundedResponse_bounded_witness :
  fetchBoundedResponse (Url := SimpleUrl) (fun _ _ => Ok bounded_response) (js "https://log.example/a/checkpoint")
    3 (mkFetchOptions None 1000) = Ok [x61; x62; x63]
  /\ zlen [x61; x62; x63] <= 3.
Proof.
  assert (E : fetchBoundedResponse (Url := SimpleUrl) (fun _ _ => Ok bounded_response)
    (js "https://log.example/a/checkpoint") 3 (mkFetchOptions None 1000) = Ok [x61; x62; x63])
    by (vm_compute; reflexivity).
  split; [exact E|].
  pose proof (fetchBoundedResponse_bounded (Url := SimpleUrl) _ _ _ _ _ E) as (url & response & H).
  exact (proj2 (proj2 (proj2 (proj2 (proj2 (proj2 (proj2 (proj2 (proj2 (proj2 H)))))))))).
Defined.

(** A response larger than its limit is refused although its [content-length] lies. *)
Example fetchBoundedResponse_too_large :
  fetchBoundedResponse (Url := SimpleUrl)
    (fun _ _ => Ok (mkResponse false 200 (Some (js "1")) (Some (mkBody [[x61]; [x62; x63]] None (Ok tt)))))
    (js "https://log.example/a/checkpoint") 2 (mkFetchOptions None 1000) = Throw responseTooLarge.
Proof. vm_compute. reflexivity. Qed.
