(* ===== verification/Json.v ===== *)
(** JSON: the values of the language, [JSON.parse], [JSON.stringify] on scalars,
    the strict parser of [protocol/src/strict-json.ts] and the canonical form of
    [log-c2sp-tlog/src/canonical.ts].

    The property order of objects is not modelled: the code sorts or counts
    [Object.keys], and never depends on the order.  Running out of stack in the
    platform's parser is not modelled either. *)

From S2P Require Import Prelude JsString Base64.

(** ** Numbers

    A double is a safe integer, negative zero, another finite value
    [(-1)^neg * m * 2^e], an infinity or [NaN]. *)

Inductive number :=
  | NInt (z : Z)
  | NNegZero
  | NDouble (neg : bool) (m e : Z)
  | NInfinity (neg : bool)
  | NNaN.

#[export] Instance number_eq_dec : EqDecision number.
Proof. solve_decision. Defined.

(** The quotient [p / q] rounded to the nearest integer, ties to even. *)
Definition round_even (p q : Z) : Z :=
  let d := p / q in
  let r := p mod q in
  if 2 * r <? q then d
  else if q <? 2 * r then d + 1
  else if Z.even d then d else d + 1.

(** The double nearest to the positive rational [p / q], as [(m, e)]. *)
Definition nearest (p q : Z) : option (Z * Z) :=
  let e0 := Z.max (Z.log2 p - Z.log2 q - 53) (-1074) in
  let scaled e := round_even (p * 2 ^ Z.max (- e) 0) (q * 2 ^ Z.max e 0) in
  let e := if scaled e0 <? 2 ^ 53 then e0
           else if scaled (e0 + 1) <? 2 ^ 53 then e0 + 1 else e0 + 2 in
  let m := scaled e in
  if 971 <? e then None else Some (m, e).

(** The number of the value [(-1)^neg * p / q] for [0 <= p], [0 < q]. *)
Definition number_of_rational (neg : bool) (p q : Z) : number :=
  if p =? 0 then if neg then NNegZero else NInt 0
  else match nearest p q with
       | None => NInfinity neg
       | Some (m, e) =>
           let sgn := if neg then -1 else 1 in
           if (0 <=? e) && (e <=? 53) && isSafeInteger (m * 2 ^ e) then NInt (sgn * (m * 2 ^ e))
           else if (e <? 0) && (m mod 2 ^ (- e) =? 0) then
             let z := m / 2 ^ (- e) in
             if z =? 0 then if neg then NNegZero else NInt 0 else NInt (sgn * z)
           else NDouble neg m e
       end.

Definition pow10 (n : Z) : Z := 10 ^ Z.max n 0.

(** [String(x)] for a positive double [m * 2^e]: the shortest digits that read
    back as the same number. *)
Fixpoint shortest_digits (fuel : nat) (k : Z) (m e : Z) : Z * Z :=
  let p := m * 2 ^ Z.max e 0 in
  let q := 2 ^ Z.max (- e) 0 in
  let n := let n0 := (Z.log2 p - Z.log2 q) * 30103 / 100000 in
           if p * pow10 (- (n0 + 1)) <? q * pow10 (n0 + 1)
           then (if p * pow10 (- n0) <? q * pow10 n0 then n0 else n0 + 1)
           else if p * pow10 (- (n0 + 2)) <? q * pow10 (n0 + 2) then n0 + 2 else n0 + 3 in
  let s := round_even (p * pow10 (k - n)) (q * pow10 (n - k)) in
  (* ten to the k has one digit more *)
  let '(s, n) := if s =? pow10 k then (s / 10, n + 1) else (s, n) in
  match fuel with
  | O => (s, n)
  | S fuel =>
      let back := number_of_rational false (s * pow10 (n - k)) (pow10 (k - n)) in
      if bool_decide (back = number_of_rational false p q) then (s, n)
      else shortest_digits fuel (k + 1) m e
  end.

Fixpoint strip_zeros (fuel : nat) (s : Z) : Z :=
  match fuel with
  | O => s
  | S fuel => if (s mod 10 =? 0) && negb (s =? 0) then strip_zeros fuel (s / 10) else s
  end.

Definition exponent_part (x : Z) : jsstr :=
  [101; if x <? 0 then 45 else 43] ++ dec (Z.abs x).

Definition double_toString (m e : Z) : jsstr :=
  let '(s, n) := shortest_digits 17 1 m e in
  let digits := dec (strip_zeros 20 s) in
  let k := zlen digits in
  if (k <=? n) && (n <=? 21) then digits ++ repeat 48 (Z.to_nat (n - k))
  else if (0 <? n) && (n <=? 21) then slice digits 0 n ++ [46] ++ slice_from digits n
  else if (-6 <? n) && (n <=? 0) then [48; 46] ++ repeat 48 (Z.to_nat (- n)) ++ digits
  else match digits with
       | d :: [] => [d] ++ exponent_part (n - 1)
       | d :: ds => [d; 46] ++ ds ++ exponent_part (n - 1)
       | [] => []
       end.

Definition number_toString (x : number) : jsstr :=
  match x with
  | NInt z => if z <? 0 then 45 :: dec (- z) else dec z
  | NNegZero => [48]
  | NDouble neg m e => (if neg then [45] else []) ++ double_toString m e
  | NInfinity neg => (if neg then [45] else []) ++ js "Infinity"
  | NNaN => js "NaN"
  end.

(** ** Values

    [JUndefined] is the value of an absent optional property. *)

Inductive json :=
  | JNull
  | JUndefined
  | JBool (b : bool)
  | JNumber (n : number)
  | JString (s : jsstr)
  | JArray (l : list json)
  | JObject (members : list (jsstr * json)).

(** [obj[key]] on own members. *)
Fixpoint get_member (members : list (jsstr * json)) (key : jsstr) : json :=
  match members with
  | [] => JUndefined
  | (k, v) :: members => if bool_decide (k = key) then v else get_member members key
  end.
Definition has_member (members : list (jsstr * json)) (key : jsstr) : bool :=
  existsb (fun kv => bool_decide (fst kv = key)) members.

(** [obj[key] = value] *)
Fixpoint set_member (members : list (jsstr * json)) (key : jsstr) (value : json) : list (jsstr * json) :=
  match members with
  | [] => [(key, value)]
  | (k, v) :: members =>
      if bool_decide (k = key) then (k, value) :: members else (k, v) :: set_member members key value
  end.

(** ** [JSON.parse] *)

Definition is_json_space (u : Z) : bool := (u =? 32) || (u =? 9) || (u =? 10) || (u =? 13).
Definition skip_space (s : jsstr) : jsstr := dropWhile is_json_space s.

(** The rest of a string literal after its opening quote. *)
Fixpoint parse_string_rest (s : jsstr) : option (jsstr * jsstr) :=
  match s with
  | [] => None
  | u :: s =>
      if u =? 34 then Some ([], s)
      else if u =? 92 then
        match s with
        | [] => None
        | c :: s =>
            if c =? 117 then
              match s with
              | a :: b :: c :: d :: s =>
                  if is_hex a && is_hex b && is_hex c && is_hex d then
                    '(t, r) ← parse_string_rest s;
                    Some (hex_value a * 4096 + hex_value b * 256 + hex_value c * 16 + hex_value d :: t, r)
                  else None
              | _ => None
              end
            else
              let escaped :=
                if (c =? 34) || (c =? 92) || (c =? 47) then Some c
                else if c =? 98 then Some 8 else if c =? 102 then Some 12
                else if c =? 110 then Some 10 else if c =? 114 then Some 13
                else if c =? 116 then Some 9 else None in
              match escaped with
              | Some e => '(t, r) ← parse_string_rest s; Some (e :: t, r)
              | None => None
              end
        end
      else if u <? 32 then None
      else '(t, r) ← parse_string_rest s; Some (u :: t, r)
  end.

Fixpoint span_digits (s : jsstr) : jsstr * jsstr :=
  match s with
  | x :: r => if is_digit x then let '(a, b) := span_digits r in (x :: a, b) else ([], s)
  | [] => ([], [])
  end.

(** The optional exponent. *)
Definition parse_exponent (s : jsstr) : option (Z * jsstr) :=
  match s with
  | e :: s' =>
      if (e =? 101) || (e =? 69) then
        let '(neg, s') := match s' with
                          | c :: r => if c =? 45 then (true, r) else if c =? 43 then (false, r) else (false, s')
                          | [] => (false, s')
                          end in
        let '(ds, r) := span_digits s' in
        if (length ds =? 0)%nat then None
        else Some (if neg then - digits_value ds else digits_value ds, r)
      else Some (0, s)
  | [] => Some (0, s)
  end.

(** Number literals; exponents beyond every double are cut off. *)
Definition parse_number (s : jsstr) : option (number * jsstr) :=
  let '(neg, s) := match s with c :: r => if c =? 45 then (true, r) else (false, s) | [] => (false, s) end in
  let '(int, s) := span_digits s in
  if (length int =? 0)%nat || ((1 <? zlen int) && startsWith int [48]) then None
  else
    '(frac, s) ← match s with
                 | c :: r =>
                     if c =? 46 then
                       let '(ds, r) := span_digits r in
                       if (length ds =? 0)%nat then None else Some (ds, r)
                     else Some ([], s)
                 | [] => Some ([], s)
                 end;
    '(ex, s) ← parse_exponent s;
    let p := digits_value (int ++ frac) in
    let ex := Z.max (-20000 - zlen int) (Z.min ex (20000 + zlen frac)) - zlen frac in
    Some (number_of_rational neg (p * pow10 ex) (pow10 (- ex)), s).

Definition literal (text : string) (v : json) (s : jsstr) : option (json * jsstr) :=
  if startsWith s (js text) then Some (v, slice_from s (zlen (js text))) else None.

Fixpoint parse_value (fuel : nat) (s : jsstr) : option (json * jsstr) :=
  match fuel with
  | O => None
  | S fuel =>
      let s := skip_space s in
      match s with
      | [] => None
      | u :: r =>
          if u =? 123 then
            match skip_space r with
            | c :: r' => if c =? 125 then Some (JObject [], r') else parse_members fuel [] (skip_space r)
            | [] => None
            end
          else if u =? 91 then
            match skip_space r with
            | c :: r' => if c =? 93 then Some (JArray [], r') else parse_elements fuel [] r
            | [] => None
            end
          else if u =? 34 then '(t, r) ← parse_string_rest r; Some (JString t, r)
          else if u =? 110 then literal "null" JNull s
          else if u =? 116 then literal "true" (JBool true) s
          else if u =? 102 then literal "false" (JBool false) s
          else '(n, r) ← parse_number s; Some (JNumber n, r)
      end
  end
(** Members, from the opening quote of a name on. *)
with parse_members (fuel : nat) (acc : list (jsstr * json)) (s : jsstr) : option (json * jsstr) :=
  match fuel with
  | O => None
  | S fuel =>
      match s with
      | q :: s =>
          if q =? 34 then
            '(key, s) ← parse_string_rest s;
            match skip_space s with
            | colon :: s =>
                if colon =? 58 then
                  '(v, s) ← parse_value fuel s;
                  let acc := set_member acc key v in
                  match skip_space s with
                  | c :: s =>
                      if c =? 44 then parse_members fuel acc (skip_space s)
                      else if c =? 125 then Some (JObject acc, s) else None
                  | [] => None
                  end
                else None
            | [] => None
            end
          else None
      | [] => None
      end
  end
with parse_elements (fuel : nat) (acc : list json) (s : jsstr) : option (json * jsstr) :=
  match fuel with
  | O => None
  | S fuel =>
      '(v, s) ← parse_value fuel s;
      match skip_space s with
      | c :: s =>
          if c =? 44 then parse_elements fuel (acc ++ [v]) s
          else if c =? 93 then Some (JArray (acc ++ [v]), s) else None
      | [] => None
      end
  end.

(** Every call consumes text, except that a value inside an array or an object is
    entered once more before it does. *)
Definition JSON_parse (text : jsstr) : res json :=
  match parse_value (2 * length text + 2) text with
  | Some (v, rest) => if (length (skip_space rest) =? 0)%nat then Ok v else Throw (EError "SyntaxError")
  | None => Throw (EError "SyntaxError")
  end.

(** ** [JSON.stringify] on scalars *)

Definition hex4 (u : Z) : jsstr :=
  [hex_digit (u / 4096 mod 16); hex_digit (u / 256 mod 16); hex_digit (u / 16 mod 16); hex_digit (u mod 16)].

Definition quote_unit (u : Z) : jsstr :=
  if u =? 34 then [92; 34] else if u =? 92 then [92; 92]
  else if u =? 8 then [92; 98] else if u =? 12 then [92; 102] else if u =? 10 then [92; 110]
  else if u =? 13 then [92; 114] else if u =? 9 then [92; 116]
  else if u <? 32 then [92; 117] ++ hex4 u
  else [u].

(** Lone surrogates are escaped. *)
Fixpoint quote_units (s : jsstr) : jsstr :=
  match s with
  | [] => []
  | u :: s' =>
      if is_high u then
        match s' with
        | v :: s'' => if is_low v then u :: v :: quote_units s'' else [92; 117] ++ hex4 u ++ quote_units s'
        | [] => [92; 117] ++ hex4 u
        end
      else if is_low u then [92; 117] ++ hex4 u ++ quote_units s'
      else quote_unit u ++ quote_units s'
  end.
Definition stringify_string (s : jsstr) : jsstr := [34] ++ quote_units s ++ [34].

Definition stringify_number (x : number) : jsstr :=
  match x with
  | NInfinity _ | NNaN => js "null"
  | _ => number_toString x
  end.

(** ** [parseJsonNoDuplicateMembers] of [strict-json.ts] *)

(** A string literal from after its opening quote: its text with the closing quote,
    and what follows; [None] when it does not end. *)
Fixpoint string_extent (s : jsstr) : option (jsstr * jsstr) :=
  match s with
  | [] => None
  | u :: s =>
      if u =? 34 then Some ([34], s)
      else if u =? 92 then
        match s with
        | [] => None
        | c :: s => '(t, r) ← string_extent s; Some (u :: c :: t, r)
        end
      else '(t, r) ← string_extent s; Some (u :: t, r)
  end.

(** The loop over the text; the stack holds the names seen in each open object, and
    [None] for an array. *)
Fixpoint scan_members (fuel : nat) (s : jsstr) (stack : list (option (list jsstr))) : res unit :=
  match fuel with
  | O => Ok tt
  | S fuel =>
      match s with
      | [] => Ok tt
      | u :: r =>
          if u =? 34 then
            match string_extent r with
            | None => Ok tt
            | Some (lit, r') =>
                match dropWhile is_space r' with
                | c :: _ =>
                    if c =? 58 then
                      key ← JSON_parse (34 :: lit);
                      match key, stack with
                      | JString key, Some keys :: stack =>
                          throw_if (bool_decide (key ∈ keys)) (EError "duplicate JSON member");;
                          scan_members fuel r' (Some (key :: keys) :: stack)
                      | _, _ => scan_members fuel r' stack
                      end
                    else scan_members fuel r' stack
                | [] => scan_members fuel r' stack
                end
            end
          else if u =? 123 then scan_members fuel r (Some [] :: stack)
          else if u =? 91 then scan_members fuel r (None :: stack)
          else if (u =? 125) || (u =? 93) then scan_members fuel r (tail stack)
          else scan_members fuel r stack
      end
  end.

(** Every turn of the loop consumes a code unit. *)
Definition parseStrictJson (bs : bytes) : res json :=
  text ← of_option (utf8_decode bs) (EError "TypeError");
  scan_members (length text) text [];;
  JSON_parse text.

(** ** Canonical JSON: [canonical.ts] *)

Definition MAX_JSON_DEPTH : Z := 64.

Definition too_deep : exn := C2spTlogResourceLimitError "JSON nesting limit exceeded (64)".

Fixpoint bytes_string_end (s : list Z) : list Z :=
  match s with
  | [] => []
  | u :: s =>
      if u =? 34 then s
      else if u =? 92 then match s with [] => [] | _ :: s => bytes_string_end s end
      else bytes_string_end s
  end.

(** The byte scan of [assertJsonDepth]. *)
Fixpoint json_depth_scan (fuel : nat) (s : list Z) (depth : Z) : res unit :=
  match fuel with
  | O => Ok tt
  | S fuel =>
      match s with
      | [] => Ok tt
      | u :: r =>
          if (u =? 125) || (u =? 93) then json_depth_scan fuel r (depth - 1)
          else if is_json_space u || (u =? 44) || (u =? 58) then json_depth_scan fuel r depth
          else
            let after := if u =? 34 then bytes_string_end r else r in
            let is_name := (u =? 34) && match skip_space after with c :: _ => c =? 58 | [] => false end in
            if is_name then json_depth_scan fuel after depth
            else
              throw_if (MAX_JSON_DEPTH <? depth) too_deep;;
              json_depth_scan fuel after (if (u =? 123) || (u =? 91) then depth + 1 else depth)
      end
  end.
Definition assertJsonDepth (bs : bytes) : res unit :=
  json_depth_scan (length bs) (map b2z bs) 0.

(** No value lies deeper than [max] below a value at [depth]. *)
Fixpoint depth_within (max depth : Z) (v : json) : bool :=
  (depth <=? max) &&
  match v with
  | JArray l => forallb (depth_within max (depth + 1)) l
  | JObject members => forallb (fun kv => depth_within max (depth + 1) (snd kv)) members
  | _ => true
  end.

Definition assertValidUnicode (s : jsstr) : res unit :=
  throw_if (negb (valid_unicode s)) (C2spTlogParseError "JSON contains an unpaired surrogate").

Definition is_undefined (v : json) : bool := match v with JUndefined => true | _ => false end.

Definition key_before (a b : jsstr * res jsstr) : bool := str_ltb (fst a) (fst b).

Fixpoint serializeJson (value : json) : res jsstr :=
  match value with
  | JNull => Ok (js "null")
  | JBool b => Ok (if b then js "true" else js "false")
  | JNumber n =>
      throw_if (match n with NInfinity _ | NNaN | NNegZero => true | _ => false end)
        (C2spTlogParseError "non-canonical JSON number");;
      Ok (stringify_number n)
  | JString s => assertValidUnicode s;; Ok (stringify_string s)
  | JArray l =>
      parts ← map_res serializeJson l;
      Ok ([91] ++ join [44] parts ++ [93])
  | JObject members =>
      parts ← map_res (fun kv =>
                 assertValidUnicode (fst kv);;
                 text ← snd kv;
                 Ok (stringify_string (fst kv) ++ [58] ++ text))
               (sort_by key_before
                  (map (fun kv => (fst kv,
                          if is_undefined (snd kv)
                          then Throw (C2spTlogParseError "undefined is not JSON")
                          else serializeJson (snd kv))) members));
      Ok ([123] ++ join [44] parts ++ [125])
  | JUndefined => Throw (C2spTlogParseError "unsupported JSON value")
  end.

Definition canonicalJson (value : json) : res jsstr :=
  throw_if (negb (depth_within MAX_JSON_DEPTH 0 value)) too_deep;;
  serializeJson value.

Definition canonicalBytes (value : json) : res bytes := utf8_encode <$> canonicalJson value.

(** The package's wrapper of the strict parser. *)
Definition parseJsonNoDuplicateMembers (bs : bytes) : res json :=
  assertJsonDepth bs;;
  catch (parseStrictJson bs) (fun cause =>
    match cause with
    | EVerification e =>
        if bool_decide (ve_class e = C2spTlogParseErrorClass)
           || bool_decide (ve_class e = C2spTlogResourceLimitErrorClass)
        then Throw cause else Throw (C2spTlogParseError "malformed UTF-8 JSON")
    | _ => Throw (C2spTlogParseError "malformed UTF-8 JSON")
    end).

Definition assertCanonicalJsonBytes (bs : bytes) (value : json) : res unit :=
  got ← of_option (utf8_decode_bom bs) (EError "TypeError");
  want ← canonicalJson value;
  throw_if (negb (bool_decide (got = want))) (C2spTlogParseError "entry bytes are not canonical JCS").

(** ** Members *)

Lemma get_member_set m k v : get_member (set_member m k v) k = v.
Proof.
  induction m as [|[k' v'] m IH]; cbn; [by rewrite bool_decide_true|].
  destruct (bool_decide_reflect (k' = k)) as [->|]; cbn; [by rewrite bool_decide_true|by rewrite bool_decide_false].
Qed.
Lemma get_member_set_ne m k v k' : k <> k' -> get_member (set_member m k v) k' = get_member m k'.
Proof.
  intros Hk. induction m as [|[k0 v0] m IH]; cbn; [by rewrite bool_decide_false|].
  destruct (bool_decide_reflect (k0 = k)) as [->|]; cbn; [by rewrite !(bool_decide_false (k = k'))|].
  by destruct (bool_decide_reflect (k0 = k')).
Qed.
