(* ===== verification/JsonText.v ===== *)
(** The canonical text of a JSON value reads back as the value: [canonicalJson] of
    [log-c2sp-tlog/src/canonical.ts] against [JSON.parse]. *)

From S2P Require Import Prelude JsString Base64 Json.

(** ** Sorting *)

Lemma sort_by_map {A B} (f : A -> B) before before' l :
  (forall x y, before' (f x) (f y) = before x y) -> sort_by before' (map f l) = map f (sort_by before l).
Proof.
  intros H. induction l as [|x l IH]; [done|]. cbn. rewrite IH. clear IH. generalize (sort_by before l) as k.
  induction k as [|y k IH]; [done|]. cbn. rewrite H. destruct (before y x); [|done]. cbn. by rewrite IH.
Qed.

Lemma sort_by_id {A} (before : A -> A -> bool) l : StronglySorted (not_before before) l -> sort_by before l = l.
Proof.
  induction 1 as [|x l Hl IH Hx]; [done|]. cbn. rewrite IH. destruct Hx as [|y k Hy Hk]; [done|].
  cbn. by rewrite Hy.
Qed.

Section SortFilter.
Context {A} (before : A -> A -> bool) (P : A -> bool).
Hypothesis Hasym : forall x y, before x y = true -> before y x = false.
Hypothesis Htrans : forall x y z, not_before before x y -> not_before before y z -> not_before before x z.

Lemma sort_insert_front x l : Forall (not_before before x) l -> sort_insert before x l = x :: l.
Proof. destruct 1 as [|y l Hy Hl]; [done|]. cbn. by rewrite Hy. Qed.

Lemma sort_insert_filter x l : StronglySorted (not_before before) l ->
  List.filter P (sort_insert before x l)
  = if P x then sort_insert before x (List.filter P l) else List.filter P l.
Proof.
  induction 1 as [|y l Hl IH Hy]; cbn; [by destruct (P x)|].
  destruct (before y x) eqn:E; cbn.
  - rewrite IH. destruct (P y), (P x); try done. cbn. by rewrite E.
  - destruct (P x); [|done]. rewrite sort_insert_front; [done|].
    assert (Hall : Forall (not_before before x) (y :: l)).
    { constructor; [exact E|]. eapply Forall_impl; [exact Hy|]. intros z. by apply Htrans. }
    change (if P y then _ else _) with (List.filter P (y :: l)).
    rewrite Forall_forall in Hall |- *. intros z Hz. apply Hall.
    apply list_elem_of_In, filter_In in Hz as [Hz _]. by apply list_elem_of_In.
Qed.

Lemma sort_by_filter l : List.filter P (sort_by before l) = sort_by before (List.filter P l).
Proof.
  induction l as [|x l IH]; [done|]. cbn. rewrite sort_insert_filter, IH by (by apply sort_by_sorted).
  by destruct (P x).
Qed.
End SortFilter.

(** ** Values *)

Section JsonInd.
Variable P : json -> Prop.
Hypotheses (HN : P JNull) (HU : P JUndefined) (HB : forall b, P (JBool b)) (HM : forall n, P (JNumber n))
  (HS : forall s, P (JString s)) (HA : forall l, Forall P l -> P (JArray l))
  (HO : forall m, Forall (fun kv => P (snd kv)) m -> P (JObject m)).

Fixpoint json_ind' (v : json) : P v :=
  match v with
  | JNull => HN | JUndefined => HU | JBool b => HB b | JNumber n => HM n | JString s => HS s
  | JArray l => HA l ((fix go l : Forall P l :=
      match l with [] => Forall_nil_2 P | v :: l => Forall_cons_2 P v l (json_ind' v) (go l) end) l)
  | JObject m => HO m ((fix go m : Forall (fun kv => P (snd kv)) m :=
      match m with
      | [] => Forall_nil_2 _
      | kv :: m => Forall_cons_2 (fun kv => P (snd kv)) kv m (json_ind' (snd kv)) (go m)
      end) m)
  end.
End JsonInd.

(** A number whose text reads back; every finite number but negative zero does in the
    language, and the integers do by [reads_back_int]. *)
Definition reads_back (n : number) : bool := bool_decide (parse_number (stringify_number n) = Some (n, [])).

(** Values of JSON texts: strings of code units, members with distinct names. *)
Fixpoint readable (v : json) : bool :=
  match v with
  | JNull | JBool _ => true
  | JUndefined => false
  | JNumber n => reads_back n
  | JString s => units16 s
  | JArray l => forallb readable l
  | JObject m => forallb (fun kv => units16 (fst kv) && readable (snd kv)) m && bool_decide (NoDup (map fst m))
  end.

(** The same value with the members of every object in the order of their names. *)
Definition member_before (a b : jsstr * json) : bool := str_ltb (fst a) (fst b).
Fixpoint sort_json (v : json) : json :=
  match v with
  | JArray l => JArray (map sort_json l)
  | JObject m => JObject (sort_by member_before (map (fun kv => (fst kv, sort_json (snd kv))) m))
  | v => v
  end.

Lemma member_before_asym x y : member_before x y = true -> member_before y x = false.
Proof. apply str_ltb_asym. Qed.
Lemma member_before_trans x y z :
  not_before member_before x y -> not_before member_before y z -> not_before member_before x z.
Proof. unfold not_before, member_before. intros H1 H2. by apply (str_le_trans _ (fst y)). Qed.

(** *** Serialization of a sorted value *)

Definition serialized_member (kv : jsstr * json) : jsstr * res jsstr :=
  (fst kv, if is_undefined (snd kv) then Throw (C2spTlogParseError "undefined is not JSON") else serializeJson (snd kv)).
Definition member_text (kv : jsstr * res jsstr) : res jsstr :=
  assertValidUnicode (fst kv);; text ← snd kv; Ok (stringify_string (fst kv) ++ [58] ++ text).

Lemma serialize_object m : serializeJson (JObject m)
  = (parts ← map_res member_text (map serialized_member (sort_by member_before m)); Ok ([123] ++ join [44] parts ++ [125])).
Proof. rewrite <-(sort_by_map serialized_member member_before key_before) by done. done. Qed.

Lemma is_undefined_sort v : is_undefined (sort_json v) = is_undefined v.
Proof. by destruct v. Qed.

Lemma map_ext_Forall' {A B} (f g : A -> B) l : Forall (fun x => f x = g x) l -> map f l = map g l.
Proof. induction 1 as [|x l Hx _ IH]; cbn; congruence. Qed.

Lemma serializeJson_sort v : serializeJson (sort_json v) = serializeJson v.
Proof.
  induction v as [| | | | |l IH|m IH] using json_ind'; try done.
  - cbn. assert (E : map_res serializeJson (map sort_json l) = map_res serializeJson l); [|by rewrite E].
    induction IH as [|v l Hv _ IHl]; [done|]. cbn. by rewrite Hv, IHl.
  - cbn [sort_json]. rewrite !serialize_object. rewrite (sort_by_id _ (sort_by _ _)).
    2:{ apply sort_by_sorted; [apply member_before_asym|apply member_before_trans]. }
    rewrite (sort_by_map _ member_before) by done. rewrite map_map.
    erewrite map_ext_Forall'; [done|]. rewrite sort_by_perm. eapply Forall_impl; [exact IH|].
    intros [k v] Hv. unfold serialized_member. cbn [fst snd] in *. by rewrite is_undefined_sort, Hv.
Qed.

Lemma forallb_perm {A} (f : A -> bool) l k : l ≡ₚ k -> forallb f l = forallb f k.
Proof. intros H. apply eq_true_iff_eq. rewrite !forallb_true_Forall. by rewrite H. Qed.

Lemma depth_within_sort v max depth : depth_within max depth (sort_json v) = depth_within max depth v.
Proof.
  revert depth. induction v as [| | | | |l IH|m IH] using json_ind'; intros depth; try done; cbn; f_equal.
  - induction IH as [|v l Hv _ IHl]; [done|]. cbn. by rewrite Hv, IHl.
  - rewrite (forallb_perm _ _ _ (sort_by_perm member_before _)).
    induction IH as [|v l Hv _ IHl]; [done|]. cbn. by rewrite Hv, IHl.
Qed.

Lemma canonicalJson_sort v : canonicalJson (sort_json v) = canonicalJson v.
Proof. unfold canonicalJson. by rewrite depth_within_sort, serializeJson_sort. Qed.

(** A member is removed before or after sorting. *)
Lemma sort_json_filter (P : jsstr -> bool) m :
  exists m', sort_json (JObject m) = JObject m'
    /\ JObject (List.filter (fun kv => P (fst kv)) m') = sort_json (JObject (List.filter (fun kv => P (fst kv)) m)).
Proof.
  eexists. split; [reflexivity|]. cbn. f_equal.
  rewrite sort_by_filter; [|apply member_before_asym|apply member_before_trans]. f_equal.
  induction m as [|[k v] m IH]; [done|]. cbn. destruct (P k); cbn; by rewrite IH.
Qed.

Lemma get_member_sort m name : NoDup (map fst m) ->
  forall m', sort_json (JObject m) = JObject m' -> get_member m' name = sort_json (get_member m name).
Proof.
  intros Hnd m' [= <-]. set (f := fun kv : jsstr * json => (fst kv, sort_json (snd kv))).
  assert (Hin : forall m name, NoDup (map fst m) -> forall v, (name, v) ∈ m -> get_member m name = v).
  { clear. intros m name. induction m as [|[k w] m IH]; cbn; intros Hnd v H; [by apply elem_of_nil in H|].
    apply NoDup_cons in Hnd as [Hk Hnd]. apply elem_of_cons in H as [[= <- <-]|H]; [by rewrite bool_decide_true|].
    rewrite bool_decide_false; [by apply IH|]. intros ->. apply Hk. apply list_elem_of_fmap. by exists (name, v). }
  assert (Hout : forall m name, name ∉ map fst m -> get_member m name = JUndefined).
  { clear. intros m name. induction m as [|[k w] m IH]; cbn; intros H; [done|].
    apply not_elem_of_cons in H as [Hk H]. rewrite bool_decide_false by done. by apply IH. }
  assert (Hf : map fst (sort_by member_before (map f m)) ≡ₚ map fst m).
  { rewrite sort_by_perm, map_map. by cbn. }
  destruct (decide (name ∈ map fst m)) as [H|H].
  - apply list_elem_of_fmap in H as ([k v] & -> & H). cbn.
    rewrite (Hin m k Hnd v H). apply Hin; [by rewrite Hf|].
    rewrite sort_by_perm. apply list_elem_of_fmap. by exists (k, v).
  - rewrite (Hout m name H). apply Hout. by rewrite Hf.
Qed.

(** ** Reading of literals *)

Lemma parse_string_head u s : u <> 34 -> u <> 92 -> 32 <= u ->
  parse_string_rest (u :: s) = ('(t, r) ← parse_string_rest s; Some (u :: t, r)).
Proof.
  intros H1 H2 H3. cbn [parse_string_rest].
  by rewrite (proj2 (Z.eqb_neq u 34)), (proj2 (Z.eqb_neq u 92)), (proj2 (Z.ltb_ge u 32)) by lia.
Qed.

Lemma hex_digit_value n : 0 <= n < 16 -> is_hex (hex_digit n) = true /\ hex_value (hex_digit n) = n.
Proof.
  intros H. assert (E : forallb (fun d => is_hex (hex_digit d) && (hex_value (hex_digit d) =? d)) (seqZ 0 16) = true)
    by reflexivity.
  rewrite forallb_forall in E. specialize (E n). rewrite <-list_elem_of_In, elem_of_seqZ in E.
  by apply andb_true_iff in E as [E1 E2%Z.eqb_eq]; [|lia].
Qed.

Lemma parse_escape u s : 0 <= u < 65536 ->
  parse_string_rest ([92; 117] ++ hex4 u ++ s) = ('(t, r) ← parse_string_rest s; Some (u :: t, r)).
Proof.
  intros Hu. destruct (hex_digit_value (u / 4096 mod 16)) as [Ha Va]; [by apply Z.mod_pos_bound|].
  destruct (hex_digit_value (u / 256 mod 16)) as [Hb Vb]; [by apply Z.mod_pos_bound|].
  destruct (hex_digit_value (u / 16 mod 16)) as [Hc Vc]; [by apply Z.mod_pos_bound|].
  destruct (hex_digit_value (u mod 16)) as [Hd Vd]; [by apply Z.mod_pos_bound|].
  cbn [app hex4 parse_string_rest Z.eqb Pos.eqb]. rewrite Ha, Hb, Hc, Hd, Va, Vb, Vc, Vd. cbn [andb].
  destruct (parse_string_rest s) as [[t r]|]; [|done]. cbn. do 3 f_equal.
  Z.to_euclidean_division_equations; lia.
Qed.

Lemma parse_unit u s : 0 <= u ->
  parse_string_rest (quote_unit u ++ s) = ('(t, r) ← parse_string_rest s; Some (u :: t, r)).
Proof.
  intros Hu. unfold quote_unit.
  repeat match goal with |- context [if u =? ?c then _ else _] => destruct (Z.eqb_spec u c) as [->|?]; [done|] end.
  destruct (Z.ltb_spec u 32) as [Hs|Hs]; [|by apply parse_string_head].
  rewrite <-app_assoc. apply parse_escape. lia.
Qed.

Lemma parse_quoted s r : units16 s = true ->
  parse_string_rest (quote_units s ++ 34 :: r) = Some (s, r).
Proof.
  induction s as [s IH] using list_len_ind. destruct s as [|u s]; [done|].
  cbn [units16 forallb quote_units]. intros [Hu Hs]%andb_true_iff.
  unfold unit16 in Hu. apply andb_true_iff in Hu as [Hu0%Z.leb_le Hu1%Z.ltb_lt].
  destruct (is_high u) eqn:Hh; [|destruct (is_low u)].
  - destruct s as [|v s].
    { rewrite <-app_assoc, parse_escape by lia. done. }
    destruct (is_low v) eqn:Hl.
    + cbn [forallb] in Hs. apply andb_true_iff in Hs as [_ Hs].
      unfold is_high in Hh. unfold is_low in Hl. bool_inv. cbn [app].
      rewrite !parse_string_head by lia. rewrite IH by (done || (cbn; lia)). done.
    + rewrite <-!app_assoc, parse_escape, IH by (done || lia || (cbn; lia)). done.
  - rewrite <-!app_assoc, parse_escape, IH by (done || lia || (cbn; lia)). done.
  - rewrite <-app_assoc, parse_unit, IH by (done || (cbn; lia)). done.
Qed.

(** What may follow a value: the end, or a separator. *)
Definition stops (r : jsstr) : Prop := match r with [] => True | u :: _ => u = 44 \/ u = 93 \/ u = 125 end.

Lemma span_digits_app s r a b : stops r -> span_digits s = (a, b) -> span_digits (s ++ r) = (a, b ++ r).
Proof.
  intros Hr. revert a b; induction s as [|u s IH]; intros a b; cbn [span_digits app].
  - intros [= <- <-]. destruct r as [|u r]; [done|]. cbn. destruct (is_digit u) eqn:E; [|done].
    unfold is_digit in E. cbn in Hr. bool_inv. lia.
  - destruct (is_digit u); [|by intros [= <- <-]].
    destruct (span_digits s) as [a' b']. intros [= <- <-]. by rewrite (IH a' b').
Qed.

Lemma parse_exponent_app s x b r : stops r -> parse_exponent s = Some (x, b) -> parse_exponent (s ++ r) = Some (x, b ++ r).
Proof.
  intros Hr. destruct s as [|u s]; cbn [parse_exponent app].
  - intros [= <- <-]. destruct r as [|u r]; [done|]. cbn in Hr. cbn [parse_exponent app].
    rewrite (proj2 (Z.eqb_neq u 101)), (proj2 (Z.eqb_neq u 69)) by lia. done.
  - destruct (_ || _); [|by intros [= <- <-]].
    destruct s as [|c s]; [done|]. cbn [app].
    set (p := if c =? 45 then (true, s) else if c =? 43 then (false, s) else (false, c :: s)).
    assert (Ep : (if c =? 45 then (true, s ++ r) else if c =? 43 then (false, s ++ r) else (false, c :: s ++ r))
                 = (fst p, snd p ++ r)) by (subst p; by repeat case_match).
    rewrite Ep. destruct p as [neg s']. cbn [fst snd]. destruct (span_digits s') as [ds b'] eqn:Es.
    rewrite (span_digits_app _ r _ _ Hr Es). destruct (length ds =? 0)%nat; [done|]. by intros [= <- <-].
Qed.

Definition parse_fraction (s : jsstr) : option (jsstr * jsstr) :=
  match s with
  | c :: r =>
      if c =? 46 then
        let '(ds, r) := span_digits r in
        if (length ds =? 0)%nat then None else Some (ds, r)
      else Some ([], s)
  | [] => Some ([], s)
  end.
Definition number_parts (neg : bool) (int frac : jsstr) (ex : Z) : number :=
  let p := digits_value (int ++ frac) in
  let ex := Z.max (-20000 - zlen int) (Z.min ex (20000 + zlen frac)) - zlen frac in
  number_of_rational neg (p * pow10 ex) (pow10 (- ex)).
Definition parse_unsigned (neg : bool) (s : jsstr) : option (number * jsstr) :=
  let '(int, s) := span_digits s in
  if (length int =? 0)%nat || ((1 <? zlen int) && startsWith int [48]) then None
  else '(frac, s) ← parse_fraction s; '(ex, s) ← parse_exponent s; Some (number_parts neg int frac ex, s).
Lemma parse_number_unsigned s : parse_number s
  = match s with c :: r => if c =? 45 then parse_unsigned true r else parse_unsigned false s | [] => None end.
Proof. destruct s as [|c s]; [done|]. unfold parse_number. by destruct (c =? 45). Qed.

Lemma parse_fraction_app s ds b r : stops r -> parse_fraction s = Some (ds, b) -> parse_fraction (s ++ r) = Some (ds, b ++ r).
Proof.
  intros Hr. destruct s as [|u s]; cbn [parse_fraction app].
  - intros [= <- <-]. destruct r as [|u r]; [done|]. cbn in *. by rewrite (proj2 (Z.eqb_neq u 46)) by lia.
  - destruct (u =? 46); [|by intros [= <- <-]]. destruct (span_digits s) as [ds' b'] eqn:E.
    rewrite (span_digits_app _ r _ _ Hr E). destruct (length ds' =? 0)%nat; [done|]. by intros [= <- <-].
Qed.

Lemma parse_number_app s n r : stops r -> parse_number s = Some (n, []) -> parse_number (s ++ r) = Some (n, r).
Proof.
  intros Hr. rewrite !parse_number_unsigned.
  assert (Hun : forall neg s, parse_unsigned neg s = Some (n, []) -> parse_unsigned neg (s ++ r) = Some (n, r)).
  { clear s. intros neg s. unfold parse_unsigned. destruct (span_digits s) as [int b] eqn:E.
    rewrite (span_digits_app _ r _ _ Hr E). destruct (_ || _); [done|]. cbn [mbind option_bind].
    destruct (parse_fraction b) as [[frac b1]|] eqn:E1; [|done]. rewrite (parse_fraction_app _ _ _ _ Hr E1).
    cbn [mbind option_bind]. destruct (parse_exponent b1) as [[ex b2]|] eqn:E2; [|done].
    rewrite (parse_exponent_app _ _ _ _ Hr E2). cbn. by intros [= -> ->]. }
  destruct s as [|c s]; [done|]. cbn [app]. destruct (c =? 45); [apply Hun|apply (Hun false (c :: s))].
Qed.

(** The text of a number begins with its sign or a digit. *)
Lemma parse_number_head s x : parse_number s = Some x -> exists u s', s = u :: s' /\ (u = 45 \/ is_digit u = true).
Proof.
  rewrite parse_number_unsigned. destruct s as [|c s]; [done|]. intros H. exists c, s. split; [done|].
  destruct (Z.eqb_spec c 45); [by left|right]. unfold parse_unsigned in H. cbn [span_digits] in H.
  by destruct (is_digit c).
Qed.

(** *** Integers *)

Lemma round_even_1 p : round_even p 1 = p.
Proof. unfold round_even. rewrite Z.mod_1_r, Z.div_1_r. done. Qed.

Lemma nearest_int z : 0 < z <= MAX_SAFE_INTEGER ->
  nearest z 1 = Some (z * 2 ^ (52 - Z.log2 z), Z.log2 z - 52).
Proof.
  intros Hz. assert (Hl : Z.log2 z <= 52).
  { assert (Z.log2 z < 53); [|lia]. apply Z.log2_lt_pow2; [lia|]. unfold MAX_SAFE_INTEGER in Hz. lia. }
  pose proof (Z.log2_nonneg z) as Hl0. pose proof (Z.log2_spec z ltac:(lia)) as [Hs1 Hs2].
  unfold nearest. change (Z.log2 1) with 0. rewrite Z.sub_0_r, (Z.max_l (Z.log2 z - 53)) by lia. cbv zeta.
  rewrite (Z.max_l (- (Z.log2 z - 53))), (Z.max_r (Z.log2 z - 53)) by lia.
  rewrite (Z.max_l (- (Z.log2 z - 53 + 1))), (Z.max_r (Z.log2 z - 53 + 1)) by lia.
  rewrite !Z.pow_0_r, !Z.mul_1_r, !round_even_1.
  assert (H1 : 2 ^ 53 <= z * 2 ^ (- (Z.log2 z - 53))).
  { replace (2 ^ 53) with (2 ^ Z.log2 z * 2 ^ (- (Z.log2 z - 53))) by (rewrite <-Z.pow_add_r by lia; f_equal; lia).
    apply Z.mul_le_mono_nonneg_r; lia. }
  assert (H2 : z * 2 ^ (- (Z.log2 z - 53 + 1)) < 2 ^ 53).
  { replace (2 ^ 53) with (2 ^ Z.succ (Z.log2 z) * 2 ^ (- (Z.log2 z - 53 + 1)))
      by (rewrite <-Z.pow_add_r by lia; f_equal; lia).
    apply Z.mul_lt_mono_pos_r; lia. }
  rewrite (proj2 (Z.ltb_ge _ _) H1), (proj2 (Z.ltb_lt _ _) H2), (proj2 (Z.ltb_ge 971 _)) by lia.
  rewrite (Z.max_l (- (Z.log2 z - 53 + 1))), (Z.max_r (Z.log2 z - 53 + 1)) by lia.
  rewrite Z.pow_0_r, round_even_1. do 2 f_equal; [do 2 f_equal; lia|lia].
Qed.

Lemma number_of_int neg z : 0 <= z <= MAX_SAFE_INTEGER -> (neg = true -> z <> 0) ->
  number_of_rational neg z 1 = NInt (if neg then - z else z).
Proof.
  intros Hz Hneg. unfold number_of_rational. destruct (Z.eqb_spec z 0) as [->|Hz0].
  { by destruct neg; [destruct Hneg|]. }
  rewrite nearest_int by lia. pose proof (Z.log2_nonneg z) as Hl0.
  assert (Hl : Z.log2 z <= 52).
  { assert (Z.log2 z < 53); [|lia]. apply Z.log2_lt_pow2; [lia|]. unfold MAX_SAFE_INTEGER in Hz. lia. }
  destruct (Z.eq_dec (Z.log2 z) 52) as [E|E].
  - rewrite E. change (52 - 52) with 0. cbn [Z.leb Z.compare andb]. rewrite Z.pow_0_r, !Z.mul_1_r.
    rewrite (proj2 (isSafeInteger_spec z)) by lia. destruct neg; f_equal; lia.
  - rewrite (proj2 (Z.leb_gt 0 _)), (proj2 (Z.ltb_lt _ 0)) by lia. cbn [andb].
    replace (- (Z.log2 z - 52)) with (52 - Z.log2 z) by lia.
    rewrite Z.mod_mul, Z.div_mul, (proj2 (Z.eqb_neq z 0)) by lia. cbn. destruct neg; f_equal; lia.
Qed.

Lemma span_digits_all s : forallb is_digit s = true -> span_digits s = (s, []).
Proof. induction s as [|u s IH]; [done|]. cbn. intros [-> H]%andb_true_iff. by rewrite IH. Qed.

Lemma parse_unsigned_dec neg z : 0 <= z <= MAX_SAFE_INTEGER -> (neg = true -> z <> 0) ->
  parse_unsigned neg (dec z) = Some (NInt (if neg then - z else z), []).
Proof.
  intros Hz Hneg. destruct (dec_spec z ltac:(lia)) as (Hv & Hg & Hd). unfold parse_unsigned.
  rewrite span_digits_all by done.
  assert (Hlead : (length (dec z) =? 0)%nat || ((1 <? zlen (dec z)) && startsWith (dec z) [48]) = false).
  { destruct (dec z) as [|x s]; [done|]. cbn [isDecimal] in Hd. cbn [length Nat.eqb orb startsWith]. destruct (Z.eqb_spec x 48) as [->|Hx].
    - by destruct s.
    - rewrite (proj2 (Z.eqb_neq 48 x)) by lia. by destruct (1 <? _). }
  rewrite Hlead. cbn [parse_fraction parse_exponent mbind option_bind]. unfold number_parts.
  rewrite app_nil_r, Hv. change (zlen (@nil Z)) with 0. pose proof (zlen_nonneg (dec z)).
  rewrite (Z.min_l 0), Z.max_r by lia. cbn [Z.sub Z.opp Z.add]. change (pow10 0) with 1.
  rewrite Z.mul_1_r, number_of_int by done. done.
Qed.

Lemma reads_back_int z : isSafeInteger z = true -> reads_back (NInt z) = true.
Proof.
  intros H%isSafeInteger_spec. unfold reads_back. apply bool_decide_eq_true. cbn [stringify_number number_toString].
  rewrite parse_number_unsigned. destruct (Z.ltb_spec z 0) as [Hz|Hz].
  - cbn [Z.eqb Pos.eqb]. rewrite parse_unsigned_dec by lia. do 3 f_equal. lia.
  - destruct (dec_spec z Hz) as (_ & Hg & Hd). destruct (dec z) as [|x s] eqn:E; [done|].
    destruct (Z.eqb_spec x 45) as [->|Hx]; [done|]. rewrite <-E. apply (parse_unsigned_dec false); lia.
Qed.

(** ** Reading of values *)

Lemma literal_app text v r : literal text v (js text ++ r) = Some (v, r).
Proof. unfold literal. rewrite startsWith_app. do 2 f_equal. unfold slice_from, zlen. by rewrite Nat2Z.id, drop_app_length. Qed.

Lemma skip_space_other u s : is_json_space u = false -> skip_space (u :: s) = u :: s.
Proof. intros H. unfold skip_space. cbn. by rewrite H. Qed.

(** The first unit of the text of a value. *)
Definition starts (t : jsstr) : Prop := exists u t', t = u :: t' /\ is_json_space u = false /\ u <> 93.

(** The text [t] is read as the value [v]. *)
Definition reads_as (v : json) (t : jsstr) : Prop :=
  starts t /\ forall fuel r, stops r -> (2 * length t <= fuel)%nat -> parse_value fuel (t ++ r) = Some (v, r).
Definition reads (v : json) (t : jsstr) : Prop := reads_as (sort_json v) t.

Lemma skip_space_stop u r : (u = 44 \/ u = 93 \/ u = 125) -> skip_space (u :: r) = u :: r.
Proof. intros H. apply skip_space_other. by destruct H as [->|[->| ->]]. Qed.

Lemma reads_number n t : parse_number t = Some (n, []) -> reads_as (JNumber n) t.
Proof.
  intros H. destruct (parse_number_head _ _ H) as (u & t' & -> & Hu).
  assert (Hd : u = 45 \/ 48 <= u <= 57).
  { destruct Hu as [->|Hu]; [by left|right]. unfold is_digit in Hu. bool_inv. lia. }
  assert (Hs : is_json_space u = false).
  { unfold is_json_space. rewrite !orb_false_iff, !Z.eqb_neq. lia. }
  split; [exists u, t'; split; [done|split; [done|lia]]|].
  intros fuel r Hr Hf. destruct fuel as [|fuel]; [cbn in Hf; lia|]. cbn [app parse_value].
  rewrite (skip_space_other u _ Hs).
  rewrite !(proj2 (Z.eqb_neq u _)) by lia.
  change (u :: t' ++ r) with ((u :: t') ++ r). by rewrite (parse_number_app _ _ _ Hr H).
Qed.

Lemma reads_string s : units16 s = true -> reads_as (JString s) (stringify_string s).
Proof.
  intros Hu. split; [by exists 34, (quote_units s ++ [34])|].
  intros fuel r Hr Hf. destruct fuel as [|fuel]; [cbn in Hf; lia|]. unfold stringify_string. cbn [app parse_value].
  rewrite (skip_space_other 34) by done. cbn [Z.eqb Pos.eqb].
  rewrite <-app_assoc. cbn [app]. by rewrite parse_quoted.
Qed.

(** The elements of an array, from one of them on. *)
Lemma parse_elements_join fuel acc vs ts r : Forall2 reads_as vs ts -> ts <> [] ->
  (2 * length (join [44%Z] ts) + 1 <= fuel)%nat ->
  parse_elements fuel acc (join [44] ts ++ 93 :: r) = Some (JArray (acc ++ vs), r).
Proof.
  intros H. revert fuel acc. induction H as [|v t vs ts [_ Ht] Hts IH]; intros fuel acc Hne Hf; [done|].
  destruct fuel as [|fuel]; [lia|]. cbn [parse_elements].
  destruct Hts as [|v' t' vs ts Ht' Hts].
  - cbn [join] in *. rewrite Ht by ((cbn; lia) || lia). cbn [mbind option_bind].
    rewrite skip_space_stop by lia. done.
  - rewrite join_cons in Hf |- *. rewrite !length_app in Hf. cbn [length] in Hf.
    rewrite <-app_assoc. cbn [app]. rewrite Ht by ((cbn; lia) || lia). cbn [mbind option_bind].
    rewrite skip_space_stop by lia. cbn [Z.eqb Pos.eqb]. rewrite IH by (done || lia).
    by rewrite <-app_assoc.
Qed.

Lemma join_starts t ts : starts t -> starts (join [44] (t :: ts)).
Proof. intros (u & t' & -> & Hu). destruct ts; [by exists u, t'|]. rewrite join_cons. exists u. eexists. by split. Qed.

Lemma reads_array vs ts : Forall2 reads_as vs ts -> reads_as (JArray vs) ([91] ++ join [44] ts ++ [93]).
Proof.
  intros H. split; [by exists 91, (join [44] ts ++ [93])|].
  intros fuel r Hr Hf. rewrite !length_app in Hf. cbn [length] in Hf. destruct fuel as [|fuel]; [lia|].
  cbn [app parse_value]. rewrite (skip_space_other 91) by done. cbn [Z.eqb Pos.eqb].
  rewrite <-app_assoc. cbn [app]. destruct H as [|v t vs ts Ht Hts].
  - cbn [join app]. by rewrite skip_space_stop by lia.
  - destruct (join_starts t ts (proj1 Ht)) as (u & t' & Eu & Hs & Hu). rewrite Eu. cbn [app].
    rewrite (skip_space_other u) by done. rewrite (proj2 (Z.eqb_neq u 93)) by done.
    change (u :: t' ++ 93 :: r) with ((u :: t') ++ 93 :: r). rewrite <-Eu.
    rewrite (parse_elements_join fuel [] (v :: vs) (t :: ts) r) by ((by constructor) || done || lia). done.
Qed.

(** A member and its text. *)
Definition member_of (P : json -> jsstr -> Prop) (kv : jsstr * json) (t : jsstr) : Prop :=
  units16 (fst kv) = true /\ exists vt, P (snd kv) vt /\ t = stringify_string (fst kv) ++ [58] ++ vt.

(** Induction on a value that is serialized. *)
Lemma serialized_ind (P : json -> jsstr -> Prop) :
  P JNull (js "null") -> (forall b, P (JBool b) (js (if b then "true" else "false"))) ->
  (forall n t, parse_number t = Some (n, []) -> P (JNumber n) t) ->
  (forall s, units16 s = true -> P (JString s) (stringify_string s)) ->
  (forall l ts, Forall2 P l ts -> P (JArray l) ([91] ++ join [44] ts ++ [93])) ->
  (forall m ts, NoDup (map fst m) -> Forall2 (member_of P) (sort_by member_before m) ts ->
     P (JObject m) ([123] ++ join [44] ts ++ [125])) ->
  forall v t, readable v = true -> serializeJson v = Ok t -> P v t.
Proof.
  intros HN HB HM HS HA HO v. induction v as [| |b|n|s|l IH|m IH] using json_ind'; intros t Hr H; try done.
  - by injection H as <-.
  - injection H as <-. specialize (HB b). by destruct b.
  - cbn in H. apply bind_Ok in H as (u & _ & [= <-]). apply HM. by apply bool_decide_eq_true in Hr.
  - cbn in H. apply bind_Ok in H as (u & Hv%throw_if_Ok%negb_false_iff & [= <-]). by apply HS.
  - cbn [serializeJson] in H. apply bind_Ok in H as (ts & Hts%map_res_Forall2 & [= <-]). apply HA.
    cbn in Hr. apply forallb_true_Forall in Hr.
    induction Hts as [|v t l ts Ht Hts IHts]; [constructor|].
    apply Forall_cons in IH as [IHv IHl]. apply Forall_cons in Hr as [Hrv Hrl].
    constructor; [by apply IHv|by apply IHts].
  - rewrite serialize_object in H. apply bind_Ok in H as (ts & Hts%map_res_Forall2 & [= <-]).
    cbn in Hr. apply andb_true_iff in Hr as [Hr Hnd%bool_decide_eq_true]. apply forallb_true_Forall in Hr.
    apply HO; [done|].
    rewrite <-(sort_by_perm member_before m) in IH, Hr. set (kvs := sort_by member_before m) in *. clearbody kvs.
    apply Forall2_fmap_l in Hts. clear Hnd.
    induction Hts as [|[k v] t l ts Ht Hts IHts]; [constructor|].
    apply Forall_cons in IH as [IHv IHl]. apply Forall_cons in Hr as [Hrv Hrl]. constructor; [|by apply IHts].
    apply bind_Ok in Ht as (u & Hv%throw_if_Ok%negb_false_iff & Ht). cbn [fst snd] in *.
    apply bind_Ok in Ht as (vt & Hvt & [= <-]). apply andb_true_iff in Hrv as [Hu Hrv].
    split; [done|]. exists vt. split; [|done]. apply IHv; [done|].
    cbn [serialized_member fst snd] in Hvt. by destruct (is_undefined v).
Qed.
Definition sorted_member (kv : jsstr * json) : jsstr * json := (fst kv, sort_json (snd kv)).

Lemma set_member_new acc k v : k ∉ map fst acc -> set_member acc k v = acc ++ [(k, v)].
Proof.
  induction acc as [|[k' v'] acc IH]; [done|]. cbn. intros [Hk H]%not_elem_of_cons.
  rewrite bool_decide_false by done. by rewrite IH.
Qed.

Lemma parse_member fuel acc kv t s : member_of reads_as kv t -> stops s -> fst kv ∉ map fst acc ->
  (2 * length t + 1 <= S fuel)%nat ->
  parse_members (S fuel) acc (t ++ s)
  = match skip_space s with
    | c :: s' =>
        if c =? 44 then parse_members fuel (acc ++ [kv]) (skip_space s')
        else if c =? 125 then Some (JObject (acc ++ [kv]), s') else None
    | [] => None
    end.
Proof.
  destruct kv as [k v]. intros (Hu & vt & [(u & t' & Et & Hs & _) Hr] & ->) Hst Hk Hf.
  unfold stringify_string in *. cbn [fst snd] in *. rewrite !length_app in Hf. cbn [length] in Hf.
  rewrite <-!app_assoc. cbn [app parse_members]. rewrite (proj2 (Z.eqb_eq 34 34)) by done.
  rewrite parse_quoted by done. cbn [mbind option_bind]. rewrite (skip_space_other 58) by done.
  cbn [Z.eqb Pos.eqb]. rewrite Hr by (done || lia). cbn [mbind option_bind]. by rewrite set_member_new.
Qed.

Lemma parse_members_join fuel acc kvs ts r : Forall2 (member_of reads_as) kvs ts -> ts <> [] ->
  NoDup (map fst acc ++ map fst kvs) -> (2 * length (join [44%Z] ts) + 1 <= fuel)%nat ->
  parse_members fuel acc (join [44] ts ++ 125 :: r) = Some (JObject (acc ++ kvs), r).
Proof.
  intros H. revert fuel acc. induction H as [|kv t kvs ts Ht Hts IH]; intros fuel acc Hne Hnd Hf; [done|].
  destruct fuel as [|fuel]; [lia|].
  assert (Hk : fst kv ∉ map fst acc).
  { cbn in Hnd. apply NoDup_app in Hnd as (_ & Hd & _). intros Hin. apply (Hd _ Hin). by left. }
  destruct Hts as [|kv' t' kvs ts Ht' Hts].
  - cbn [join] in *. rewrite (parse_member _ _ kv) by (done || lia || (cbn; lia)).
    rewrite skip_space_stop by lia. done.
  - rewrite join_cons in Hf |- *. rewrite !length_app in Hf. cbn [length] in Hf.
    rewrite <-app_assoc. cbn [app]. rewrite (parse_member _ _ kv) by (done || lia || (cbn; lia)).
    rewrite skip_space_stop by lia. cbn [Z.eqb Pos.eqb].
    assert (Hq : exists x, join [44] (t' :: ts) ++ 125 :: r = 34 :: x).
    { destruct Ht' as (_ & vt & _ & ->). unfold stringify_string.
      destruct ts; [cbn [join]|rewrite join_cons]; eexists; cbn [app]; reflexivity. }
    destruct Hq as [x Hq]. rewrite Hq, (skip_space_other 34), <-Hq by done.
    rewrite IH; [by rewrite <-app_assoc|done| |lia].
    rewrite map_app, <-app_assoc. done.
Qed.

(** The text of an object whose members come in any order. *)
Lemma parse_object kvs ts fuel r : NoDup (map fst kvs) -> Forall2 (member_of reads_as) kvs ts ->
  (2 * length ([123%Z] ++ join [44%Z] ts ++ [125%Z]) <= fuel)%nat ->
  parse_value fuel (([123] ++ join [44] ts ++ [125]) ++ r) = Some (JObject kvs, r).
Proof.
  intros Hnd H Hf. rewrite !length_app in Hf. cbn [length] in Hf. destruct fuel as [|fuel]; [lia|].
  cbn [app parse_value]. rewrite (skip_space_other 123) by done. cbn [Z.eqb Pos.eqb].
  rewrite <-app_assoc. cbn [app]. destruct H as [|kv t kvs ts Ht Hts].
  - cbn [join app]. by rewrite skip_space_stop by lia.
  - assert (Hq : exists x, join [44] (t :: ts) ++ 125 :: r = 34 :: x).
    { destruct Ht as (_ & vt & _ & ->). unfold stringify_string.
      destruct ts; [cbn [join]|rewrite join_cons]; eexists; cbn [app]; reflexivity. }
    destruct Hq as [x Hq]. rewrite Hq, (skip_space_other 34) by done. cbn [Z.eqb Pos.eqb]. rewrite <-Hq.
    apply (parse_members_join fuel [] (kv :: kvs)); [by constructor|done|done|lia].
Qed.

Lemma reads_object m ts : NoDup (map fst m) -> Forall2 (member_of reads) (sort_by member_before m) ts ->
  reads (JObject m) ([123] ++ join [44] ts ++ [125]).
Proof.
  intros Hnd H. split; [by exists 123, (join [44] ts ++ [125])|].
  intros fuel r Hr Hf. cbn [sort_json]. rewrite (sort_by_map sorted_member member_before) by done.
  rewrite <-(sort_by_perm member_before m) in Hnd. apply parse_object; [by rewrite map_map| |done].
  apply Forall2_fmap_l. eapply Forall2_impl; [exact H|]. done.
Qed.

Lemma serialized_reads v t : readable v = true -> serializeJson v = Ok t -> reads v t.
Proof.
  revert v t. apply serialized_ind.
  - split; [by exists 110, (js "ull")|]. intros fuel r _ Hf.
    destruct fuel as [|fuel]; [cbn in Hf; lia|]. cbn [parse_value]. exact (literal_app "null" JNull r).
  - intros b. destruct b; (split; [by eexists _, _|]); intros fuel r _ Hf;
      (destruct fuel as [|fuel]; [cbn in Hf; lia|]); cbn [parse_value];
      [exact (literal_app "true" (JBool true) r)|exact (literal_app "false" (JBool false) r)].
  - apply reads_number.
  - apply reads_string.
  - intros l ts H. apply reads_array, Forall2_fmap_l, H.
  - apply reads_object.
Qed.

Lemma parse_reads v t : reads_as v t -> JSON_parse t = Ok v.
Proof.
  intros [_ Hp]. unfold JSON_parse. specialize (Hp (2 * length t + 2)%nat [] I ltac:(lia)).
  rewrite app_nil_r in Hp. by rewrite Hp.
Qed.

(** ** The text as bytes *)

Definition well_formed (t : jsstr) : bool := units16 t && valid_unicode t.
Definition ascii (t : jsstr) : bool := forallb (fun u => (0 <=? u) && (u <? 128)) t.

Lemma valid_unicode_app a b : valid_unicode a = true -> valid_unicode (a ++ b) = valid_unicode b.
Proof.
  induction a as [a IH] using list_len_ind. destruct a as [|u a]; [done|]. cbn [valid_unicode app].
  destruct (is_high u).
  - destruct a as [|v a]; [done|]. intros [Hl Hv]%andb_true_iff. cbn [app]. rewrite Hl. cbn [andb].
    apply IH; [cbn; lia|done].
  - intros [Hl Hv]%andb_true_iff. rewrite Hl. apply IH; [cbn; lia|done].
Qed.
Lemma well_formed_app a b : well_formed a = true -> well_formed (a ++ b) = well_formed b.
Proof.
  unfold well_formed, units16. intros [Hu Hv]%andb_true_iff. by rewrite forallb_app, Hu, valid_unicode_app.
Qed.

Lemma utf8_encode_app a b : valid_unicode a = true -> utf8_encode (a ++ b) = utf8_encode a ++ utf8_encode b.
Proof.
  induction a as [a IH] using list_len_ind. destruct a as [|u a]; [done|]. cbn [valid_unicode app utf8_encode].
  destruct (is_high u).
  - destruct a as [|v a]; [done|]. intros [Hl Hv]%andb_true_iff. cbn [app]. rewrite Hl.
    rewrite IH, app_assoc; [done|cbn; lia|done].
  - intros [Hl%negb_true_iff Hv]%andb_true_iff. rewrite Hl, IH, app_assoc; [done|cbn; lia|done].
Qed.

Lemma ascii_unit u : 0 <= u < 128 -> is_high u = false /\ is_low u = false /\ unit16 u = true.
Proof. unfold is_high, is_low, unit16. rewrite !andb_false_iff, andb_true_iff, !Z.leb_gt, Z.leb_le, Z.ltb_lt. lia. Qed.

Lemma ascii_well_formed t : ascii t = true -> well_formed t = true.
Proof.
  induction t as [|u t IH]; [done|]. cbn [ascii forallb]. intros [Hu Ht]%andb_true_iff.
  apply andb_true_iff in Hu as [H1%Z.leb_le H2%Z.ltb_lt]. specialize (IH Ht).
  unfold well_formed in *. apply andb_true_iff in IH as [IH1 IH2]. cbn [units16 forallb valid_unicode].
  destruct (ascii_unit u) as (-> & -> & ->); [lia|]. unfold units16 in IH1. by rewrite IH1, IH2.
Qed.

Lemma ascii_bytes t : ascii t = true -> map b2z (utf8_encode t) = t.
Proof.
  induction t as [|u t IH]; [done|]. cbn [ascii forallb]. intros [Hu Ht]%andb_true_iff.
  apply andb_true_iff in Hu as [H1%Z.leb_le H2%Z.ltb_lt]. cbn [utf8_encode].
  destruct (ascii_unit u) as (-> & -> & _); [lia|]. unfold utf8_scalar. rewrite (proj2 (Z.ltb_lt u 128)) by lia. cbn [app map].
  rewrite b2z_z2b_small by lia. by rewrite IH.
Qed.

(** What stands between the quotes of a string: plain units, escapes, and characters
    beyond ASCII. *)
Inductive quoted_text : jsstr -> Prop :=
  | quoted_nil : quoted_text []
  | quoted_plain u t : 32 <= u < 128 -> u <> 34 -> u <> 92 -> quoted_text t -> quoted_text (u :: t)
  | quoted_escape c q t : ascii (c :: q) = true -> 34 ∉ q -> 92 ∉ q -> quoted_text t -> quoted_text (92 :: c :: q ++ t)
  | quoted_wide w c t : Forall (fun u => 128 <= u) w -> well_formed w = true -> utf8_encode w = utf8_scalar c ->
      128 <= c < 1114112 -> quoted_text t -> quoted_text (w ++ t).

Lemma quoted_hex u t : quoted_text t -> quoted_text ([92; 117] ++ hex4 u ++ t).
Proof.
  intros Ht. assert (Hh : forall d, d ∈ hex4 u -> 48 <= d < 128 /\ d <> 92).
  { assert (Hd : forall k, 0 <= k < 16 -> 48 <= hex_digit k < 128 /\ hex_digit k <> 92).
    { intros k Hk. unfold hex_digit. destruct (Z.ltb_spec k 10); lia. }
    apply Forall_forall. unfold hex4. repeat constructor; apply Hd, Z.mod_pos_bound; lia. }
  apply (quoted_escape 117 (hex4 u)); [| | |done].
  - apply (andb_true_intro (b1 := true)). split; [done|]. apply forallb_true_Forall, Forall_forall. intros d Hd.
    destruct (Hh d Hd). apply andb_true_iff. rewrite Z.leb_le, Z.ltb_lt. lia.
  - intros Hin. destruct (Hh _ Hin). lia.
  - intros Hin. destruct (Hh _ Hin). lia.
Qed.

Lemma quoted_unit u t : 0 <= u < 128 -> quoted_text t -> quoted_text (quote_unit u ++ t).
Proof.
  intros Hu Ht. unfold quote_unit.
  repeat match goal with |- context [if u =? ?c then _ else _] =>
    destruct (Z.eqb_spec u c) as [->|?]; [by apply (quoted_escape _ []); try apply not_elem_of_nil|] end.
  destruct (Z.ltb_spec u 32) as [Hs|Hs]; [|apply quoted_plain; [lia..|done]].
  rewrite <-app_assoc. by apply quoted_hex.
Qed.

Lemma quote_units_text s : units16 s = true -> quoted_text (quote_units s).
Proof.
  induction s as [s IH] using list_len_ind. destruct s as [|u s]; [constructor|].
  cbn [units16 forallb quote_units]. intros [Hu Hs]%andb_true_iff.
  unfold unit16 in Hu. apply andb_true_iff in Hu as [Hu0%Z.leb_le Hu1%Z.ltb_lt].
  destruct (is_high u) eqn:Hh; [|destruct (is_low u) eqn:Hl].
  - destruct s as [|v s].
    { rewrite <-(app_nil_r (hex4 u)). apply quoted_hex. constructor. }
    destruct (is_low v) eqn:Hl; [|apply quoted_hex, IH; [cbn; lia|done]].
    cbn [forallb] in Hs. apply andb_true_iff in Hs as [Hv16 Hs].
    assert (Hb : 55296 <= u <= 56319 /\ 56320 <= v <= 57343) by (unfold is_high in Hh; unfold is_low in Hl; bool_inv; lia).
    apply (quoted_wide [u; v] (65536 + (u - 55296) * 1024 + (v - 56320))); [repeat constructor; lia| | |lia|].
    + unfold well_formed. cbn. rewrite Hh, Hl, Hv16. unfold unit16.
      by rewrite (proj2 (Z.leb_le 0 u)), (proj2 (Z.ltb_lt u 65536)) by lia.
    + cbn [utf8_encode]. by rewrite Hh, Hl, app_nil_r.
    + apply IH; [cbn; lia|done].
  - apply quoted_hex, IH; [cbn; lia|done].
  - assert (Ht : quoted_text (quote_units s)) by (apply IH; [cbn; lia|done]).
    destruct (Z.ltb_spec u 128); [by apply quoted_unit|].
    assert (E : quote_unit u = [u]).
    { unfold quote_unit. rewrite !(proj2 (Z.eqb_neq u _)), (proj2 (Z.ltb_ge u 32)) by lia. done. }
    rewrite E. apply (quoted_wide [u] u); [by repeat constructor| | |lia|done].
    + unfold well_formed. cbn. rewrite Hh, Hl. unfold unit16.
      by rewrite (proj2 (Z.leb_le 0 u)), (proj2 (Z.ltb_lt u 65536)) by lia.
    + cbn [utf8_encode]. by rewrite Hh, Hl, app_nil_r.
Qed.

Lemma quoted_well_formed q : quoted_text q -> well_formed q = true.
Proof.
  induction 1 as [|u t Hu H34 H92 Ht IH|c q t Hq H34 H92 Ht IH|w c t Hw Hwf He Hc Ht IH]; [done|..].
  - change (u :: t) with ([u] ++ t). rewrite well_formed_app; [done|]. apply ascii_well_formed. cbn.
    rewrite (proj2 (Z.leb_le 0 u)), (proj2 (Z.ltb_lt u 128)) by lia. done.
  - change (92 :: c :: q ++ t) with ((92 :: c :: q) ++ t). rewrite well_formed_app; [done|]. by apply ascii_well_formed.
  - by rewrite well_formed_app.
Qed.

Lemma string_extent_skip a s : 34 ∉ a -> 92 ∉ a ->
  string_extent (a ++ s) = ('(t, r) ← string_extent s; Some (a ++ t, r)).
Proof.
  intros H34 H92. induction a as [|u a IH]; cbn [app string_extent].
  - by destruct (string_extent s) as [[t r]|].
  - apply not_elem_of_cons in H34 as [H34 Ha34], H92 as [H92 Ha92].
    rewrite !(proj2 (Z.eqb_neq u _)) by done. rewrite IH by done. by destruct (string_extent s) as [[t r]|].
Qed.

Lemma high_not u w : Forall (fun u => 128 <= u) w -> u < 128 -> u ∉ w.
Proof. intros Hw Hu Hin. rewrite Forall_forall in Hw. specialize (Hw _ Hin). lia. Qed.

Lemma string_extent_quoted q r : quoted_text q -> string_extent (q ++ 34 :: r) = Some (q ++ [34], r).
Proof.
  induction 1 as [|u t Hu H34 H92 Ht IH|c q t Hq H34 H92 Ht IH|w c t Hw Hwf He Hc Ht IH]; [done|..].
  - cbn [app string_extent]. rewrite !(proj2 (Z.eqb_neq u _)) by done. by rewrite IH.
  - cbn [app string_extent]. rewrite (proj2 (Z.eqb_neq 92 34)), (proj2 (Z.eqb_eq 92 92)) by done.
    rewrite <-app_assoc, string_extent_skip, IH by done. cbn. by rewrite <-app_assoc.
  - rewrite <-app_assoc, string_extent_skip, IH by (by apply (high_not _ w)). cbn. by rewrite <-app_assoc.
Qed.

Lemma bytes_end_skip a s : 34 ∉ a -> 92 ∉ a -> bytes_string_end (a ++ s) = bytes_string_end s.
Proof.
  intros H34 H92. induction a as [|u a IH]; [done|]. cbn [app bytes_string_end].
  apply not_elem_of_cons in H34 as [H34 Ha34], H92 as [H92 Ha92]. rewrite !(proj2 (Z.eqb_neq u _)) by done. by apply IH.
Qed.

Lemma utf8_scalar_high c : 128 <= c < 1114112 -> Forall (fun b => 128 <= b) (map b2z (utf8_scalar c)).
Proof.
  intros Hc. unfold utf8_scalar. rewrite (proj2 (Z.ltb_ge c 128)) by lia.
  repeat case_match; bool_inv; cbn [map]; repeat constructor; rewrite b2z_z2b_small;
    Z.to_euclidean_division_equations; lia.
Qed.

Lemma bytes_end_quoted q r : quoted_text q -> bytes_string_end (map b2z (utf8_encode q) ++ 34 :: r) = r.
Proof.
  induction 1 as [|u t Hu H34 H92 Ht IH|c q t Hq H34 H92 Ht IH|w c t Hw Hwf He Hc Ht IH]; [done|..].
  - assert (Ha : ascii [u] = true) by (cbn; rewrite (proj2 (Z.leb_le 0 u)), (proj2 (Z.ltb_lt u 128)) by lia; done).
    change (u :: t) with ([u] ++ t). rewrite utf8_encode_app by (by apply ascii_well_formed in Ha as [_ ?]%andb_true_iff).
    rewrite map_app, <-app_assoc, (ascii_bytes [u]) by done. cbn [app bytes_string_end].
    by rewrite !(proj2 (Z.eqb_neq u _)) by done.
  - assert (Ha : ascii (92 :: c :: q) = true) by done.
    change (92 :: c :: q ++ t) with ((92 :: c :: q) ++ t).
    rewrite utf8_encode_app by (by apply ascii_well_formed in Ha as [_ ?]%andb_true_iff).
    rewrite map_app, <-app_assoc, ascii_bytes by done. cbn [app bytes_string_end].
    rewrite (proj2 (Z.eqb_neq 92 34)), (proj2 (Z.eqb_eq 92 92)) by done. by rewrite bytes_end_skip.
  - apply andb_true_iff in Hwf as [_ Hwf].
    rewrite utf8_encode_app, He, map_app, <-app_assoc, bytes_end_skip by
      (done || (eapply high_not; [by apply utf8_scalar_high|lia])). done.
Qed.

(** ** Numbers as text *)

Definition number_char (u : Z) : bool := is_digit u || existsb (fun c => u =? c) [43; 45; 46; 69; 101].

Lemma span_digits_inv s a b : span_digits s = (a, b) -> s = a ++ b /\ forallb is_digit a = true.
Proof.
  revert a b; induction s as [|u s IH]; intros a b; cbn; [by intros [= <- <-]|].
  destruct (is_digit u) eqn:E; [|by intros [= <- <-]].
  destruct (span_digits s) as [a' b']. intros [= <- <-]. destruct (IH a' b' eq_refl) as [-> Ha].
  cbn. by rewrite E.
Qed.

Lemma digits_chars a : forallb is_digit a = true -> Forall (fun u => number_char u = true) a.
Proof.
  intros H%forallb_true_Forall. eapply Forall_impl; [exact H|]. intros u Hu. cbn in Hu. unfold number_char. by rewrite Hu.
Qed.

Lemma parse_exponent_chars s x : parse_exponent s = Some (x, []) -> Forall (fun u => number_char u = true) s.
Proof.
  destruct s as [|u s]; [constructor|]. cbn [parse_exponent]. destruct (_ || _) eqn:E; [|done].
  apply orb_true_iff in E. rewrite !Z.eqb_eq in E.
  intros H. constructor; [by destruct E as [->| ->]|].
  set (p := match s with c :: r => if c =? 45 then (true, r) else if c =? 43 then (false, r) else (false, s)
            | [] => (false, s) end) in *.
  assert (Hp : Forall (fun u => number_char u = true) (snd p) -> Forall (fun u => number_char u = true) s).
  { subst p. destruct s as [|c s]; [done|].
    destruct (Z.eqb_spec c 45) as [->|]; [by constructor|]. by destruct (Z.eqb_spec c 43) as [->|]; [by constructor|]. }
  apply Hp. destruct p as [neg s']. cbn [snd]. destruct (span_digits s') as [ds b] eqn:Es.
  apply span_digits_inv in Es as [-> Hd]. destruct (_ =? _)%nat; [done|]. injection H as _ ->.
  rewrite app_nil_r. by apply digits_chars.
Qed.

Lemma parse_fraction_chars s ds b : parse_fraction s = Some (ds, b) ->
  exists a, s = a ++ b /\ Forall (fun u => number_char u = true) a.
Proof.
  destruct s as [|u s]; cbn [parse_fraction]; [intros [= <- <-]; by exists []|].
  destruct (Z.eqb_spec u 46) as [->|]; [|intros [= <- <-]; by exists []].
  destruct (span_digits s) as [a b'] eqn:E. apply span_digits_inv in E as [-> Ha].
  destruct (_ =? _)%nat; [done|]. intros [= <- <-]. exists (46 :: a). split; [done|]. constructor; [done|].
  by apply digits_chars.
Qed.

Lemma parse_number_chars s n : parse_number s = Some (n, []) -> Forall (fun u => number_char u = true) s.
Proof.
  rewrite parse_number_unsigned.
  assert (Hun : forall neg s, parse_unsigned neg s = Some (n, []) -> Forall (fun u => number_char u = true) s).
  { clear s. intros neg s. unfold parse_unsigned. destruct (span_digits s) as [int b] eqn:E.
    apply span_digits_inv in E as [-> Hi]. destruct (_ || _); [done|]. cbn [mbind option_bind].
    destruct (parse_fraction b) as [[frac b1]|] eqn:E1; [|done].
    apply parse_fraction_chars in E1 as (a & -> & Ha). cbn [mbind option_bind].
    destruct (parse_exponent b1) as [[ex b2]|] eqn:E2; [|done]. intros [= _ ->].
    apply parse_exponent_chars in E2. rewrite !Forall_app. split; [by apply digits_chars|by split]. }
  destruct s as [|c s]; [done|]. destruct (Z.eqb_spec c 45) as [->|]; [|apply Hun].
  intros H. constructor; [done|]. by eapply Hun.
Qed.

(** Units without a role in the structure of a text. *)
Definition plain (u : Z) : Prop := 0 <= u < 128 /\ u <> 34 /\ u <> 123 /\ u <> 91 /\ u <> 125 /\ u <> 93.

Lemma number_char_plain u : number_char u = true -> plain u.
Proof.
  unfold number_char, is_digit, plain. cbn [existsb]. rewrite !orb_true_iff, andb_true_iff, !Z.eqb_eq, !Z.leb_le.
  intros [?|[?|[?|[?|[?|[?|?]]]]]]; [lia..|done].
Qed.

(** Words are the text of numbers and literals. *)
Lemma number_plain n t : parse_number t = Some (n, []) -> Forall plain t.
Proof. intros H%parse_number_chars. eapply Forall_impl; [exact H|]. apply number_char_plain. Qed.
Lemma literal_plain (b : bool) : Forall plain (js (if b then "true" else "false")).
Proof. destruct b; cbn; unfold plain; repeat constructor; lia. Qed.
Lemma null_plain : Forall plain (js "null").
Proof. cbn; unfold plain; repeat constructor; lia. Qed.

Lemma plain_ascii t : Forall plain t -> ascii t = true.
Proof.
  intros H. apply forallb_true_Forall. eapply Forall_impl; [exact H|]. intros u (Hu & _).
  apply andb_true_iff. rewrite Z.leb_le, Z.ltb_lt. lia.
Qed.

(** ** The text is well formed *)

Lemma stringify_well_formed s : units16 s = true -> well_formed (stringify_string s) = true.
Proof.
  intros Hu. unfold stringify_string. rewrite well_formed_app by done.
  rewrite well_formed_app; [done|]. by apply quoted_well_formed, quote_units_text.
Qed.

Lemma join_well_formed ts : Forall (fun t => well_formed t = true) ts -> well_formed (join [44] ts) = true.
Proof.
  induction 1 as [|t ts Ht Hts IH]; [done|]. destruct ts as [|t' ts]; [done|].
  rewrite join_cons, well_formed_app by done. by rewrite well_formed_app.
Qed.

Lemma serialized_well_formed v t : readable v = true -> serializeJson v = Ok t -> well_formed t = true.
Proof.
  revert v t. apply serialized_ind.
  - done.
  - by intros [].
  - intros n t H%number_plain. by apply ascii_well_formed, plain_ascii.
  - apply stringify_well_formed.
  - intros l ts H. rewrite well_formed_app, well_formed_app; try done. apply join_well_formed.
    by induction H; constructor.
  - intros m ts _ H. rewrite well_formed_app, well_formed_app; try done. apply join_well_formed.
    induction H as [|kv t kvs ts (Hu & vt & Ht & ->) _ IH]; constructor; [|done].
    by rewrite well_formed_app, well_formed_app by (done || by apply stringify_well_formed).
Qed.

(** ** No name is found twice *)

Lemma string_extent_length s t r : string_extent s = Some (t, r) -> (length r < length s)%nat.
Proof.
  revert t r; induction s as [s IH] using list_len_ind. intros t r. destruct s as [|u s]; [done|].
  cbn [string_extent]. destruct (u =? 34); [intros [= _ <-]; cbn; lia|]. destruct (u =? 92).
  - destruct s as [|c s]; [done|]. destruct (string_extent s) as [[t' r']|] eqn:E; [|done].
    intros [= _ <-]. apply IH in E; cbn; lia.
  - destruct (string_extent s) as [[t' r']|] eqn:E; [|done]. intros [= _ <-]. apply IH in E; cbn; lia.
Qed.

Lemma scan_fuel f1 f2 s stack : (length s <= f1)%nat -> (length s <= f2)%nat ->
  scan_members f1 s stack = scan_members f2 s stack.
Proof.
  revert f2 s stack; induction f1 as [|f1 IH]; intros f2 s stack H1 H2.
  { destruct s; [|cbn in H1; lia]. by destruct f2. }
  destruct s as [|u s]; [by destruct f2|]. destruct f2 as [|f2]; [cbn in H2; lia|]. cbn in H1, H2.
  cbn [scan_members]. destruct (u =? 34).
  - destruct (string_extent s) as [[lit r]|] eqn:E; [|done]. apply string_extent_length in E.
    assert (Hr : forall stack, scan_members f1 r stack = scan_members f2 r stack) by (intros; apply IH; lia).
    destruct (dropWhile is_space r) as [|c r']; [apply Hr|]. destruct (c =? 58); [|apply Hr].
    destruct (JSON_parse (34 :: lit)) as [key|]; [|done]. cbn [mbind res_bind].
    destruct key, stack as [|[keys|] stack]; try apply Hr. destruct (bool_decide _); [done|]. apply Hr.
  - repeat case_match; apply IH; lia.
Qed.

Definition scan (s : jsstr) (stack : list (option (list jsstr))) : res unit := scan_members (length s) s stack.

Lemma scan_open_object s stack : scan (123 :: s) stack = scan s (Some [] :: stack).
Proof. done. Qed.
Lemma scan_open_array s stack : scan (91 :: s) stack = scan s (None :: stack).
Proof. done. Qed.
Lemma scan_close u s stack : u = 125 \/ u = 93 -> scan (u :: s) stack = scan s (tail stack).
Proof. by intros [->| ->]. Qed.
Lemma scan_plain t s stack : Forall plain t -> scan (t ++ s) stack = scan s stack.
Proof.
  induction 1 as [|u t (_ & H1 & H2 & H3 & H4 & H5) _ IH]; [done|]. rewrite <-IH. unfold scan.
  cbn [app length scan_members]. by rewrite !(proj2 (Z.eqb_neq u _)) by done.
Qed.

(** What follows a value does not make its text a name. *)
Lemma stops_no_colon r : stops r -> match dropWhile is_space r with c :: _ => c <> 58 | [] => True end.
Proof. destruct r as [|u r]; [done|]. by intros [->|[->| ->]]. Qed.

Lemma scan_string q s stack : quoted_text q -> stops s -> scan (34 :: q ++ 34 :: s) stack = scan s stack.
Proof.
  intros Hq Hs%stops_no_colon. unfold scan. cbn [length scan_members].
  rewrite (proj2 (Z.eqb_eq 34 34)), string_extent_quoted by done.
  destruct (dropWhile is_space s) as [|c r]; [|rewrite (proj2 (Z.eqb_neq c 58)) by done];
    apply scan_fuel; rewrite ?length_app; cbn; lia.
Qed.

Lemma scan_name k s keys stack : units16 k = true -> k ∉ keys ->
  scan (stringify_string k ++ 58 :: s) (Some keys :: stack) = scan s (Some (k :: keys) :: stack).
Proof.
  intros Hu Hk. pose proof (quote_units_text k Hu) as Hq. unfold stringify_string.
  rewrite <-!app_assoc. cbn [app]. unfold scan at 1. cbn [length scan_members].
  rewrite (proj2 (Z.eqb_eq 34 34)), string_extent_quoted by done. cbn [dropWhile].
  change (is_space 58) with false. cbn [Z.eqb Pos.eqb].
  change (34 :: quote_units k ++ [34]) with (stringify_string k).
  rewrite (parse_reads (JString k)) by (by apply reads_string). cbn [sort_json mbind res_bind].
  rewrite bool_decide_false by done. cbn [throw_if mbind res_bind].
  rewrite (scan_fuel _ (length (58 :: s))) by (rewrite ?length_app; cbn; lia). done.
Qed.

Definition scans (v : json) (t : jsstr) : Prop := forall r stack, stops r -> scan (t ++ r) stack = scan r stack.

Lemma scan_comma s stack : scan (44 :: s) stack = scan s stack.
Proof. done. Qed.

Lemma scan_elements l ts r stack : Forall2 scans l ts -> scan (join [44] ts ++ 93 :: r) stack = scan (93 :: r) stack.
Proof.
  induction 1 as [|v t l ts Ht Hts IH]; [done|]. destruct Hts as [|v' t' l ts Ht' Hts].
  - cbn [join]. rewrite Ht by (cbn; lia). done.
  - rewrite join_cons, <-app_assoc, Ht by (cbn; lia). cbn [app]. by rewrite scan_comma.
Qed.

Lemma scan_object_members kvs ts r keys stack : Forall2 (member_of scans) kvs ts -> NoDup (map fst kvs) ->
  (forall k, k ∈ map fst kvs -> k ∉ keys) ->
  exists keys', scan (join [44] ts ++ 125 :: r) (Some keys :: stack) = scan (125 :: r) (Some keys' :: stack).
Proof.
  intros H. revert keys. induction H as [|[k v] t kvs ts (Hu & vt & Ht & ->) Hts IH]; intros keys Hnd Hk; [by exists keys|].
  cbn [fst snd map] in *. apply NoDup_cons in Hnd as [Hin Hnd].
  assert (Hk0 : k ∉ keys) by (apply Hk; by left).
  destruct Hts as [|kv' t' kvs ts Ht' Hts].
  - exists (k :: keys). cbn [join]. rewrite <-app_assoc. cbn [app]. rewrite scan_name, Ht by (done || (cbn; lia)). done.
  - rewrite join_cons, <-!app_assoc. cbn [app]. rewrite scan_name, Ht, scan_comma by (done || (cbn; lia)).
    apply IH; [done|]. intros k' Hk' [->|Hin']%elem_of_cons; [done|]. apply (Hk k'); [by right|done].
Qed.

Lemma scan_object kvs ts r stack : NoDup (map fst kvs) -> Forall2 (member_of scans) kvs ts ->
  scan (([123] ++ join [44] ts ++ [125]) ++ r) stack = scan r stack.
Proof.
  intros Hnd H. rewrite <-!app_assoc. cbn [app]. rewrite scan_open_object.
  destruct (scan_object_members kvs ts r [] stack) as [keys ->]; [done|done| |by rewrite scan_close by lia].
  intros k _. apply not_elem_of_nil.
Qed.

Lemma serialized_scans v t : readable v = true -> serializeJson v = Ok t -> scans v t.
Proof.
  revert v t. apply serialized_ind.
  - intros r stack _. apply scan_plain, null_plain.
  - intros b r stack _. apply scan_plain, literal_plain.
  - intros n t H r stack _. apply scan_plain. by eapply number_plain.
  - intros s Hu r stack Hr. unfold stringify_string. rewrite <-!app_assoc. cbn [app].
    apply scan_string; [by apply quote_units_text|done].
  - intros l ts H r stack _. rewrite <-!app_assoc. cbn [app]. rewrite scan_open_array, (scan_elements l) by done.
    by rewrite scan_close by lia.
  - intros m ts Hnd H r stack _. apply (scan_object (sort_by member_before m)); [by rewrite sort_by_perm|done].
Qed.

(** ** The depth of the text is that of the value *)

Lemma bytes_string_end_length s : (length (bytes_string_end s) <= length s)%nat.
Proof.
  induction s as [s IH] using list_len_ind. destruct s as [|u s]; [done|]. cbn [bytes_string_end].
  destruct (u =? 34); [cbn; lia|]. destruct (u =? 92).
  - destruct s as [|c s]; [cbn; lia|]. specialize (IH s ltac:(cbn; lia)). cbn. lia.
  - specialize (IH s ltac:(cbn; lia)). cbn. lia.
Qed.

Lemma depth_fuel f1 f2 s d : (length s <= f1)%nat -> (length s <= f2)%nat ->
  json_depth_scan f1 s d = json_depth_scan f2 s d.
Proof.
  revert f2 s d; induction f1 as [|f1 IH]; intros f2 s d H1 H2.
  { destruct s; [|cbn in H1; lia]. by destruct f2. }
  destruct s as [|u s]; [by destruct f2|]. destruct f2 as [|f2]; [cbn in H2; lia|]. cbn in H1, H2.
  cbn [json_depth_scan]. pose proof (bytes_string_end_length s).
  destruct (_ || _); [apply IH; lia|]. destruct (_ || _ || _); [apply IH; lia|].
  set (after := if u =? 34 then bytes_string_end s else s).
  assert (Hl : (length after <= length s)%nat) by (subst after; destruct (u =? 34); lia). clearbody after.
  destruct (_ && _); [apply IH; lia|]. destruct (throw_if _ _); [|done]. cbn [mbind res_bind]. apply IH; lia.
Qed.

Definition depth_scan (s : list Z) (d : Z) : res unit := json_depth_scan (length s) s d.
Notation enc t := (map b2z (utf8_encode t)).

Lemma enc_app a b : well_formed a = true -> enc (a ++ b) = enc a ++ enc b.
Proof. intros [_ H]%andb_true_iff. by rewrite utf8_encode_app, map_app. Qed.

Lemma depth_plain t s d : Forall plain t -> d <= MAX_JSON_DEPTH -> depth_scan (t ++ s) d = depth_scan s d.
Proof.
  intros Ht Hd. induction Ht as [|u t (_ & H1 & H2 & H3 & H4 & H5) _ IH]; [done|]. rewrite <-IH.
  unfold depth_scan. cbn [app length json_depth_scan].
  rewrite (proj2 (Z.eqb_neq u 34)), (proj2 (Z.eqb_neq u 123)), (proj2 (Z.eqb_neq u 91)), (proj2 (Z.eqb_neq u 125)),
    (proj2 (Z.eqb_neq u 93)) by done. cbn [orb andb].
  destruct (_ || _ || _); [done|]. by rewrite (proj2 (Z.ltb_ge _ d)).
Qed.

Lemma depth_open u s d : u = 123 \/ u = 91 -> d <= MAX_JSON_DEPTH -> depth_scan (u :: s) d = depth_scan s (d + 1).
Proof.
  intros Hu Hd. unfold depth_scan. cbn [length json_depth_scan].
  by destruct Hu as [->| ->]; cbn -[MAX_JSON_DEPTH]; rewrite (proj2 (Z.ltb_ge _ d)).
Qed.
Lemma depth_close u s d : u = 125 \/ u = 93 -> depth_scan (u :: s) d = depth_scan s (d - 1).
Proof. by intros [->| ->]. Qed.
Lemma depth_comma s d : depth_scan (44 :: s) d = depth_scan s d.
Proof. done. Qed.
Lemma depth_colon s d : depth_scan (58 :: s) d = depth_scan s d.
Proof. done. Qed.

Lemma enc_stringify s : units16 s = true ->
  enc (stringify_string s) = 34 :: enc (quote_units s) ++ [34].
Proof.
  intros Hu. pose proof (quoted_well_formed _ (quote_units_text s Hu)) as Hq.
  unfold stringify_string. by rewrite (enc_app [34]), enc_app.
Qed.

Lemma depth_string s r d : units16 s = true -> stops r -> d <= MAX_JSON_DEPTH ->
  depth_scan (enc (stringify_string s) ++ r) d = depth_scan r d.
Proof.
  intros Hu Hr Hd. rewrite enc_stringify by done. cbn [app]. rewrite <-app_assoc. cbn [app].
  unfold depth_scan. cbn [length json_depth_scan]. cbn [Z.eqb Pos.eqb orb is_json_space].
  change (is_json_space 34) with false. cbn [orb andb].
  rewrite bytes_end_quoted by (by apply quote_units_text).
  assert (Hc : match skip_space r with c :: _ => c =? 58 | [] => false end = false).
  { destruct r as [|u r]; [done|]. rewrite skip_space_stop by done. by destruct Hr as [->|[->| ->]]. }
  rewrite Hc, (proj2 (Z.ltb_ge _ d)) by done. cbn [throw_if mbind res_bind].
  apply depth_fuel; rewrite ?length_app; cbn; lia.
Qed.

Lemma depth_name s r d : units16 s = true ->
  depth_scan (enc (stringify_string s) ++ 58 :: r) d = depth_scan r d.
Proof.
  intros Hu. rewrite enc_stringify by done. cbn [app]. rewrite <-app_assoc. cbn [app].
  rewrite <-(depth_colon r). unfold depth_scan at 1. cbn [length json_depth_scan]. cbn [Z.eqb Pos.eqb orb].
  change (is_json_space 34) with false. cbn [orb andb].
  rewrite bytes_end_quoted by (by apply quote_units_text). rewrite (skip_space_other 58) by done.
  cbn [Z.eqb Pos.eqb]. apply depth_fuel; rewrite ?length_app; cbn; lia.
Qed.

Definition depth_scans (v : json) (t : jsstr) : Prop := well_formed t = true /\ forall r d, stops r ->
  depth_within MAX_JSON_DEPTH d v = true -> depth_scan (enc t ++ r) d = depth_scan r d.

Lemma depth_elements l ts r d : Forall2 depth_scans l ts ->
  forallb (depth_within MAX_JSON_DEPTH d) l = true -> depth_scan (enc (join [44] ts) ++ 93 :: r) d = depth_scan (93 :: r) d.
Proof.
  induction 1 as [|v t l ts [Hw Ht] Hts IH]; [done|]. cbn [forallb]. intros [Hv Hl]%andb_true_iff.
  destruct Hts as [|v' t' l ts Ht' Hts].
  - cbn [join]. by rewrite Ht by (done || (cbn; lia)).
  - rewrite join_cons, enc_app, (enc_app [44]), <-!app_assoc by done. change (enc [44]) with [44]. cbn [app].
    rewrite Ht by (done || (cbn; lia)). rewrite depth_comma. by apply IH.
Qed.

Lemma depth_members kvs ts r d : Forall2 (member_of depth_scans) kvs ts ->
  forallb (fun kv => depth_within MAX_JSON_DEPTH d (snd kv)) kvs = true ->
  depth_scan (enc (join [44] ts) ++ 125 :: r) d = depth_scan (125 :: r) d.
Proof.
  induction 1 as [|[k v] t kvs ts (Hu & vt & [Hw Ht] & ->) Hts IH]; [done|]. cbn [forallb fst snd] in *.
  intros [Hd Hl]%andb_true_iff. pose proof (stringify_well_formed k Hu) as Hk.
  assert (Hkv : forall s, stops s -> depth_scan (enc (stringify_string k ++ [58] ++ vt) ++ s) d = depth_scan s d).
  { intros s Hs. rewrite enc_app, (enc_app [58]), <-!app_assoc by done. change (enc [58]) with [58]. cbn [app].
    by rewrite depth_name, Ht. }
  destruct Hts as [|kv' t' kvs ts Ht' Hts].
  - cbn [join]. by rewrite Hkv by (cbn; lia).
  - rewrite join_cons, enc_app, (enc_app [44]), <-!app_assoc
      by (done || (rewrite !well_formed_app by done; done)). change (enc [44]) with [44]. cbn [app].
    rewrite Hkv by (cbn; lia). rewrite depth_comma. by apply IH.
Qed.

Lemma depth_here max d v : depth_within max d v = true -> d <= max.
Proof. intros H. assert (d <=? max = true) by (destruct v; cbn in H; by apply andb_true_iff in H as [? _]). by apply Z.leb_le. Qed.

Lemma member_of_depth m ts : Forall2 (member_of depth_scans) m ts -> Forall (fun t => well_formed t = true) ts.
Proof.
  induction 1 as [|kv t kvs ts (Hu & vt & [Ht _] & ->) _ IH]; constructor; [|done].
  by rewrite well_formed_app, well_formed_app by (done || by apply stringify_well_formed).
Qed.

Lemma serialized_depth v t : readable v = true -> serializeJson v = Ok t -> depth_scans v t.
Proof.
  assert (Hword : forall v w, Forall plain w -> depth_scans v w).
  { clear v t. intros v w Hw. split; [by apply ascii_well_formed, plain_ascii|]. intros r d _ Hd%depth_here.
    rewrite ascii_bytes by (by apply plain_ascii). by apply depth_plain. }
  revert v t. apply serialized_ind.
  - apply Hword, null_plain.
  - intros b. apply Hword, literal_plain.
  - intros n t H. apply Hword. by eapply number_plain.
  - intros s Hu. split; [by apply stringify_well_formed|]. intros r d Hr Hd%depth_here. by apply depth_string.
  - intros l ts H.
    assert (Hj : well_formed (join [44] ts) = true).
    { apply join_well_formed. clear -H. induction H as [|v t l ts [? _] _ IH]; by constructor. }
    split; [by rewrite well_formed_app, well_formed_app|]. intros r d _ Hd.
    rewrite (enc_app [91]), enc_app, <-!app_assoc by done. change (enc [91]) with [91]. change (enc [93]) with [93].
    cbn [app]. rewrite depth_open by (lia || by eapply depth_here).
    cbn [depth_within] in Hd. apply andb_true_iff in Hd as [_ Hd].
    rewrite (depth_elements l), depth_close by (done || lia). f_equal. lia.
  - intros m ts Hnd H.
    assert (Hj : well_formed (join [44] ts) = true) by (apply join_well_formed; by eapply member_of_depth).
    split; [by rewrite well_formed_app, well_formed_app|]. intros r d _ Hd.
    rewrite (enc_app [123]), enc_app, <-!app_assoc by done. change (enc [123]) with [123]. change (enc [125]) with [125].
    cbn [app]. rewrite depth_open by (lia || by eapply depth_here).
    cbn [depth_within] in Hd. apply andb_true_iff in Hd as [_ Hd].
    rewrite <-(forallb_perm _ _ _ (sort_by_perm member_before m)) in Hd.
    rewrite (depth_members (sort_by member_before m)), depth_close by (done || lia). f_equal. lia.
Qed.

(** ** The round trip *)

Lemma serialized_starts v t : readable v = true -> serializeJson v = Ok t -> exists u s, t = u :: s /\ u < 128.
Proof.
  revert v t. apply serialized_ind; try by (intros; by eexists _, _).
  - intros []; by eexists _, _.
  - intros n t H. destruct (parse_number_head _ _ H) as (u & s & -> & _). exists u, s. split; [done|].
    apply number_plain, Forall_cons in H as [[? _] _]. lia.
Qed.

Lemma decode_well_formed t : well_formed t = true -> (exists u s, t = u :: s /\ u < 128) ->
  utf8_decode (utf8_encode t) = Some t /\ utf8_decode_bom (utf8_encode t) = Some t.
Proof.
  intros [Hu Hv]%andb_true_iff Hs. pose proof (utf8_decode_encode t Hu Hv) as E. split; [|done].
  unfold utf8_decode. rewrite E. destruct Hs as (u & s & -> & Hlt).
  destruct (decide (u = 65279)) as [->|Hne]; [lia|]. by repeat case_match; simplify_eq.
Qed.

Lemma utf8_decode_text v t : readable v = true -> serializeJson v = Ok t ->
  utf8_decode (utf8_encode t) = Some t /\ utf8_decode_bom (utf8_encode t) = Some t.
Proof.
  intros Hr H. apply decode_well_formed; [by eapply serialized_well_formed|by eapply serialized_starts].
Qed.

(** The text of a value that is read is that of the value. *)
Lemma canonical_text_parses v t bs obj : readable v = true -> canonicalJson v = Ok t -> bs = utf8_encode t ->
  parseJsonNoDuplicateMembers bs = Ok obj -> obj = sort_json v.
Proof.
  intros Hr (u & _ & H)%bind_Ok -> Hp. unfold parseJsonNoDuplicateMembers in Hp.
  apply bind_Ok in Hp as (u' & _ & Hp). apply catch_Ok in Hp as [Hp|(e & _ & Hp)].
  - unfold parseStrictJson in Hp. destruct (utf8_decode_text v t Hr H) as [E _]. rewrite E in Hp. cbn in Hp.
    apply bind_Ok in Hp as (u'' & _ & Hp). rewrite (parse_reads (sort_json v)) in Hp by (by apply serialized_reads). by simplify_eq.
  - by repeat case_match.
Qed.

(** C39: the canonical bytes of a value are accepted by the strict parser, which gives back
    the value with the members of its objects in the order of their names, and these
    bytes are the canonical ones of what was read. *)
Theorem canonicalBytes_roundtrip v bs :
  readable v = true -> canonicalBytes v = Ok bs ->
  parseJsonNoDuplicateMembers bs = Ok (sort_json v) /\ assertCanonicalJsonBytes bs (sort_json v) = Ok tt.
Proof.
  intros Hr Hc. unfold canonicalBytes in Hc. destruct (canonicalJson v) as [t|] eqn:E; [|done].
  injection Hc as <-. pose proof E as (u & Hd%throw_if_Ok%negb_false_iff & H)%bind_Ok.
  destruct (utf8_decode_text v t Hr H) as [E1 E2]. split.
  - unfold parseJsonNoDuplicateMembers, assertJsonDepth, parseStrictJson.
    destruct (serialized_depth v t Hr H) as [_ Hdepth]. specialize (Hdepth [] 0 I Hd). rewrite app_nil_r in Hdepth.
    unfold depth_scan in Hdepth. rewrite length_map in Hdepth. rewrite Hdepth. cbn [json_depth_scan length mbind res_bind].
    rewrite E1. cbn [of_option mbind res_bind].
    pose proof (serialized_scans v t Hr H [] [] I) as Hs. rewrite app_nil_r in Hs. unfold scan in Hs. rewrite Hs.
    cbn [scan_members length mbind res_bind]. by rewrite (parse_reads (sort_json v)) by (by apply serialized_reads).
  - unfold assertCanonicalJsonBytes. rewrite E2, canonicalJson_sort, E. cbn. by rewrite bool_decide_true.
Qed.

Lemma canonicalBytes_roundtrip_witness :
  let v := JObject [(js "seq", JNumber (NInt 7)); (js "fqdn", JString (233 :: 10 :: js "x")); (js "a", JArray [JNull; JBool true])] in
  exists bs, canonicalBytes v = Ok bs /\ parseJsonNoDuplicateMembers bs = Ok (sort_json v)
     /\ sort_json v <> v.
Proof.
  eexists. split; [vm_compute; reflexivity|]. split; [|by vm_compute].
  refine (proj1 (canonicalBytes_roundtrip _ _ _ _)); vm_compute; reflexivity.
Defined.
