(* ===== verification/Double.v ===== *)
(** Arithmetic and comparison of the numbers of the language ([Json.number]): the exact
    result of an operation on the values, rounded to the nearest double. *)

From S2P Require Import Prelude JsString Base64 Json JsonText.

(** ** Values *)

(** The value of a finite number, as a quotient with a positive divisor. *)
Definition value_of (n : number) : option (Z * Z) :=
  match n with
  | NInt z => Some (z, 1)
  | NNegZero => Some (0, 1)
  | NDouble neg m e => Some ((if neg then -1 else 1) * (m * 2 ^ Z.max e 0), 2 ^ Z.max (- e) 0)
  | NInfinity _ | NNaN => None
  end.
Definition is_finite (n : number) : bool := match value_of n with Some _ => true | None => false end.

(** A finite number that is not below zero. *)
Definition finite_non_negative (n : number) : bool :=
  match n with
  | NInt z => 0 <=? z
  | NNegZero => true
  | NDouble neg m e => negb neg
  | NInfinity _ | NNaN => false
  end.

(** ** Operations *)

Definition rounded (p q : Z) : number := number_of_rational (p <? 0) (Z.abs p) q.

Definition num_opp (n : number) : number :=
  match n with
  | NInt z => if z =? 0 then NNegZero else NInt (- z)
  | NNegZero => NInt 0
  | NDouble neg m e => NDouble (negb neg) m e
  | NInfinity neg => NInfinity (negb neg)
  | NNaN => NNaN
  end.
Definition num_add (a b : number) : number :=
  match a, b with
  | NNaN, _ | _, NNaN => NNaN
  | NInfinity s, NInfinity s' => if Bool.eqb s s' then a else NNaN
  | NInfinity _, _ => a
  | _, NInfinity _ => b
  | NNegZero, NNegZero => NNegZero
  | _, _ => match value_of a, value_of b with
            | Some (p, q), Some (p', q') => rounded (p * q' + p' * q) (q * q')
            | _, _ => NNaN
            end
  end.
Definition num_sub (a b : number) : number := num_add a (num_opp b).
Definition num_lt (a b : number) : bool :=
  match a, b with
  | NNaN, _ | _, NNaN => false
  | NInfinity s, NInfinity s' => s && negb s'
  | NInfinity s, _ => s
  | _, NInfinity s => negb s
  | _, _ => match value_of a, value_of b with
            | Some (p, q), Some (p', q') => p * q' <? p' * q
            | _, _ => false
            end
  end.
Definition num_le (a b : number) : bool :=
  match a, b with
  | NNaN, _ | _, NNaN => false
  | _, _ => negb (num_lt b a)
  end.

(** ** Integers *)

Lemma rounded_int z : isSafeInteger z = true -> rounded z 1 = NInt z.
Proof.
  intros H%isSafeInteger_spec. unfold rounded.
  destruct (Z.ltb_spec z 0); rewrite number_of_int by lia; f_equal; lia.
Qed.

Lemma num_add_int a b : isSafeInteger (a + b) = true -> num_add (NInt a) (NInt b) = NInt (a + b).
Proof. intros H. cbn. by rewrite !Z.mul_1_r, rounded_int. Qed.

Lemma num_sub_int a b : isSafeInteger (a - b) = true -> num_sub (NInt a) (NInt b) = NInt (a - b).
Proof.
  intros H. unfold num_sub. cbn [num_opp]. destruct (Z.eqb_spec b 0) as [->|Hb].
  - cbn. by rewrite !Z.mul_1_r, Z.add_0_r, Z.sub_0_r in *; rewrite rounded_int.
  - apply num_add_int. by rewrite Z.add_opp_r.
Qed.

Lemma num_lt_int a b : num_lt (NInt a) (NInt b) = (a <? b).
Proof. cbn. by rewrite !Z.mul_1_r. Qed.

(** ** Order *)

Lemma value_of_pos n p q : value_of n = Some (p, q) -> 0 < q.
Proof. destruct n; cbn; intros [= <- <-]; try lia; apply Z.pow_pos_nonneg; lia. Qed.

(** The comparison is that of the values. *)
Lemma num_lt_values a b p q p' q' : value_of a = Some (p, q) -> value_of b = Some (p', q') ->
  num_lt a b = true <-> p * q' < p' * q.
Proof.
  intros Ha Hb. destruct a, b; try done; cbn -[Z.mul Z.pow] in *; simplify_eq; apply Z.ltb_lt.
Qed.

Lemma num_le_values a b p q p' q' : value_of a = Some (p, q) -> value_of b = Some (p', q') ->
  num_le a b = true <-> p * q' <= p' * q.
Proof.
  intros Ha Hb. pose proof (num_lt_values b a _ _ _ _ Hb Ha) as H.
  assert (Hn : num_le a b = negb (num_lt b a)) by (destruct a, b; done).
  rewrite Hn. destruct (num_lt b a); cbn; split; intros; try done; [|apply Z.nlt_ge; intros Hc].
  - apply Z.nlt_ge in H0. exfalso. apply H0. by apply H.
  - by apply H in Hc.
Qed.
