(* ===== verification/Utils.v ===== *)
(** Names and key identifiers: [protocol/src/utils.ts]. *)

From S2P Require Import Prelude JsString Url.

(** ** Unicode

    The Unicode data of the platform: case folding of a string and the general
    categories [\p{C}] and [\p{Z}] of a code point. *)

Class Unicode := {
  toLowerCase : jsstr -> jsstr;
  is_other_or_separator : Z -> bool
}.

(** Enough of it for ASCII, used by witnesses. *)
Definition AsciiUnicode : Unicode := {|
  toLowerCase := toLowerAscii;
  is_other_or_separator := fun c => (c <=? 32) || (c =? 127) || (c =? 160) || is_high c || is_low c
|}.

(** The code points of a string; a lone surrogate stands for itself. *)
Fixpoint code_points (s : jsstr) : list Z :=
  match s with
  | [] => []
  | u :: s' =>
      if is_high u then
        match s' with
        | v :: s'' =>
            if is_low v then 65536 + (u - 55296) * 1024 + (v - 56320) :: code_points s''
            else u :: code_points s'
        | [] => [u]
        end
      else u :: code_points s'
  end.

Definition MAX_FQDN_OCTETS : Z := 253.
Definition MAX_AGENT_FQDN_OCTETS : Z := 246.
Definition MAX_LABEL_OCTETS : Z := 63.

(** [。], [．] and [｡] are separators like the ASCII dot. *)
Definition is_ideographic_dot (u : Z) : bool := (u =? 12290) || (u =? 65294) || (u =? 65377).
Definition map_dots (name : jsstr) : jsstr := map (fun u => if is_ideographic_dot u then 46 else u) name.

Definition strip_trailing_dot (name : jsstr) : jsstr :=
  if endsWith name [46] then take (length name - 1) name else name.

Definition hyphen_at_end (label : jsstr) : bool := startsWith label [45] || endsWith label [45].

Definition is_ldh (u : Z) : bool := is_lower u || is_digit u || (u =? 45).

(** [/^(?:\d+\.){3}\d+$/] *)
Definition is_ipv4_text (s : jsstr) : bool :=
  let parts := split_on 46 s in
  (length parts =? 4)%nat
  && forallb (fun p => negb (length p =? 0)%nat && forallb is_digit p) parts.

Definition octets (s : jsstr) : Z := zlen (utf8_encode s).

Definition check_label (label : jsstr) : res unit :=
  throw_if (length label =? 0)%nat (EValidation "FQDN contains empty label");;
  throw_if (hyphen_at_end label) (EValidation "DNS label may not begin or end with a hyphen");;
  throw_if (negb (forallb is_ldh label)
            || (bool_decide (slice label 2 4 = [45; 45]) && negb (startsWith label (js "xn--"))))
    (EValidation "DNS label is not a valid LDH or A-label");;
  throw_if (MAX_LABEL_OCTETS <? octets label) (EValidation "DNS label exceeds 63 octets").

Section Names.
Context `{Url : URLApi} `{Uni : Unicode}.

Definition invalid_fqdn_unit (c : Z) : bool :=
  bool_decide (c ∈ js "/\:@?#%") || is_other_or_separator c.

(** The host of [https://<name>], which must be a plain host name. *)
Definition url_host_of (name : jsstr) : res jsstr :=
  url ← of_option (new_URL (js "https://" ++ name)) (EValidation "FQDN is not a valid domain name");
  throw_if (negb (bool_decide (url_pathname url = [47]))
            || negb (length (url_search url) =? 0)%nat || negb (length (url_hash url) =? 0)%nat
            || negb (length (url_port url) =? 0)%nat || negb (length (url_username url) =? 0)%nat
            || negb (length (url_password url) =? 0)%nat)
    (EValidation "FQDN is not a valid domain name");;
  Ok (url_hostname url).

Definition normalizeFQDN (name : jsstr) (agentFQDN : bool) : res jsstr :=
  throw_if (length name =? 0)%nat (EValidation "FQDN cannot be empty");;
  let name := map_dots name in
  let withoutTrailingDot := strip_trailing_dot name in
  throw_if (length withoutTrailingDot =? 0)%nat (EValidation "FQDN cannot be empty after normalization");;
  throw_if (existsb invalid_fqdn_unit (code_points withoutTrailingDot))
    (EValidation "FQDN contains invalid characters");;
  throw_if (existsb hyphen_at_end (split_on 46 (map_dots withoutTrailingDot)))
    (EValidation "DNS label may not begin or end with a hyphen");;
  normalized ← url_host_of withoutTrailingDot;
  throw_if ((length normalized =? 0)%nat || startsWith normalized [91] || is_ipv4_text normalized)
    (EValidation "FQDN must be a domain name, not an IP address");;
  for_each (fun _ label => check_label label) (split_on 46 normalized) tt;;
  let fqdnBytes := octets normalized in
  throw_if (MAX_FQDN_OCTETS <? fqdnBytes) (EValidation "FQDN exceeds 253-octet DNS presentation limit");;
  throw_if (agentFQDN && (MAX_AGENT_FQDN_OCTETS <? fqdnBytes))
    (EValidation "Agent FQDN exceeds 246-octet DNSid limit");;
  Ok normalized.

(** [[a-zA-Z0-9]([a-zA-Z0-9-]*[a-zA-Z0-9])?] *)
Definition is_domain_label (label : jsstr) : bool :=
  negb (length label =? 0)%nat && forallb (fun u => is_alnum u || (u =? 45)) label
  && negb (hyphen_at_end label).
Definition isDomainName (value : jsstr) : bool :=
  forallb is_domain_label (split_on 46 (strip_trailing_dot value)).

Definition parseKeyId (keyId : jsstr) : res (jsstr * jsstr) :=
  let hashIdx := indexOf keyId [35] in
  throw_if (hashIdx =? -1) (EArgument "key ID must contain '#' separator");;
  let domainPart := slice keyId 0 hashIdx in
  let kidPart := slice_from keyId (hashIdx + 1) in
  throw_if (length domainPart =? 0)%nat (EArgument "key ID domain part is empty");;
  throw_if (length kidPart =? 0)%nat (EArgument "key ID kid part is empty");;
  throw_if (includes kidPart [35]) (EArgument "key ID kid part must not contain '#'");;
  domain ← catch (normalizeFQDN domainPart false)
             (fun _ => Throw (EArgument "key ID domain part is not a valid FQDN"));
  Ok (domain, kidPart).

Definition hours (n : Z) : Z := n * 60 * 60 * 1000.
Definition parseKaDuration (ka : jsstr) : res Z :=
  if bool_decide (ka = js "24h") then Ok (hours 24)
  else if bool_decide (ka = js "7d") then Ok (hours (7 * 24))
  else if bool_decide (ka = js "30d") then Ok (hours (30 * 24))
  else if bool_decide (ka = js "90d") then Ok (hours (90 * 24))
  else Throw (EArgument "invalid ka value").

(** One [dNSName] entry against a lower-case target without trailing dot. *)
Definition matches_entry (target entry : jsstr) : bool :=
  let name := toLowerCase (strip_trailing_dot entry) in
  bool_decide (name = target)
  || (startsWith name (js "*.")
      && let suffix := slice_from name 2 in
         let dotIdx := indexOf target [46] in
         (0 <? dotIdx) && bool_decide (slice_from target (dotIdx + 1) = suffix)).

Definition matchesDnsName (san : list jsstr) (fqdn : jsstr) : bool :=
  let target := toLowerCase (strip_trailing_dot fqdn) in
  if (length target =? 0)%nat then false else existsb (matches_entry target) san.

End Names.

(** ** Lemmas *)

Lemma for_each_unit {A} (f : A -> res unit) l u :
  for_each (fun _ a => f a) l tt = Ok u <-> Forall (fun a => f a = Ok tt) l.
Proof.
  destruct u. induction l as [|a l IH]; cbn; [by split; [constructor|]|].
  rewrite bind_Ok, Forall_cons, <-IH. split.
  - intros ([] & Ha & Hl). done.
  - intros [Ha Hl]. by exists tt.
Qed.

(** A label of a normalized name. *)
Definition valid_label (label : jsstr) : Prop :=
  label <> [] /\ forallb is_ldh label = true /\ hyphen_at_end label = false /\ octets label <= 63
  /\ (slice label 2 4 = [45; 45] -> startsWith label (js "xn--") = true).

Lemma check_label_Ok label : check_label label = Ok tt <-> valid_label label.
Proof.
  unfold check_label, valid_label. split.
  - intros (? & He%throw_if_Ok & H)%bind_Ok. apply bind_Ok in H as (? & Hh%throw_if_Ok & H).
    apply bind_Ok in H as (? & Hl%throw_if_Ok & Ho%throw_if_Ok).
    apply orb_false_iff in Hl as [Hl%negb_false_iff Hx]. apply Z.ltb_ge in Ho.
    split; [by destruct label|]. split_and!; try done. intros Hs.
    rewrite (bool_decide_true _ Hs) in Hx. by destruct (startsWith label (js "xn--")).
  - intros (Hne & Hl & Hh & Ho & Hx). rewrite Hh, Hl, (proj2 (Z.ltb_ge MAX_LABEL_OCTETS _) Ho).
    rewrite (proj2 (Nat.eqb_neq _ _)) by (by destruct label). cbn [negb throw_if mbind res_bind orb].
    case_bool_decide as Hs; [by rewrite Hx|done].
Qed.

Lemma indexOf_app s (c : Z) t : c ∉ s -> indexOf (s ++ c :: t) [c] = zlen s.
Proof. intros H. unfold indexOf. by rewrite indexOf_from_app. Qed.

Lemma indexOf_none s (c : Z) : c ∉ s -> indexOf s [c] = -1.
Proof.
  intros H. destruct (indexOf_from_spec 0 s c) as [E|(a & t & -> & _ & _)]; [done|].
  exfalso. apply H, elem_of_app. right. by left.
Qed.

Section NamesProps.
Context `{Url : URLApi} `{Uni : Unicode}.

Lemma normalizeFQDN_inv name agent n : normalizeFQDN name agent = Ok n ->
  Forall valid_label (split_on 46 n) /\ octets n <= 253 /\ (agent = true -> octets n <= 246)
  /\ is_ipv4_text n = false /\ exists m, url_host_of m = Ok n.
Proof.
  unfold normalizeFQDN. intros H. cbv zeta in H.
  do 4 apply bind_Ok in H as (? & _ & H).
  apply bind_Ok in H as (m & Hm & H).
  apply bind_Ok in H as (? & Hip%throw_if_Ok & H).
  apply bind_Ok in H as (? & Hl%for_each_unit & H).
  apply bind_Ok in H as (? & Ho%throw_if_Ok & H).
  apply bind_Ok in H as (? & Ha%throw_if_Ok & [= ->]).
  apply orb_false_iff in Hip as [_ Hip]. apply Z.ltb_ge in Ho.
  split; [eapply Forall_impl; [exact Hl|]; intros l; apply check_label_Ok|].
  split; [done|]. split; [intros ->; by apply Z.ltb_ge in Ha|]. split; [done|by eexists].
Qed.

(** ** Properties *)

(** A normalized name is a well-formed DNS name: every label is a non-empty LDH
    label or A-label of at most 63 octets without hyphens at its ends, the name
    fits the DNS limit (and the DNSid limit for agents), and is no IPv4 address. *)
Theorem normalizeFQDN_valid name agentFQDN n :
  normalizeFQDN name agentFQDN = Ok n ->
  Forall valid_label (split_on 46 n) /\ octets n <= MAX_FQDN_OCTETS
  /\ (agentFQDN = true -> octets n <= MAX_AGENT_FQDN_OCTETS) /\ is_ipv4_text n = false.
Proof. intros (? & ? & ? & ? & _)%normalizeFQDN_inv. done. Qed.

(** TLS name matching: a name matches exactly when an entry equals it, or an
    entry is [*.] followed by the name without its first label; a wildcard stands for
    one non-empty label and never for several. *)
Theorem matchesDnsName_spec san fqdn :
  let target := toLowerCase (strip_trailing_dot fqdn) in
  matchesDnsName san fqdn = true <->
  target <> [] /\ exists entry, entry ∈ san /\
    let name := toLowerCase (strip_trailing_dot entry) in
    name = target \/ exists label suffix, label <> [] /\ 46 ∉ label
      /\ target = label ++ 46 :: suffix /\ name = js "*." ++ suffix.
Proof.
  cbv zeta. unfold matchesDnsName. set (target := toLowerCase (strip_trailing_dot fqdn)).
  destruct (Nat.eqb_spec (length target) 0) as [E|E].
  { split; [done|]. intros [Hne _]. by destruct target. }
  assert (Hm : forall entry, matches_entry target entry = true <->
    let name := toLowerCase (strip_trailing_dot entry) in
    name = target \/ exists label suffix, label <> [] /\ 46 ∉ label
      /\ target = label ++ 46 :: suffix /\ name = js "*." ++ suffix).
  { intros entry. unfold matches_entry. cbv zeta. set (name := toLowerCase _).
    rewrite orb_true_iff, bool_decide_eq_true, !andb_true_iff, Z.ltb_lt, bool_decide_eq_true.
    split; (intros [H|H]; [by left|right]).
    - destruct H as (Hn & Hd & Hs). apply startsWith_spec in Hn as [suffix Hn].
      destruct (indexOf_from_spec 0 target 46) as [Ei|(label & t & Et & Hl & Ei)];
        [unfold indexOf in Hd; cbn zeta in Ei; lia|].
      cbn zeta in Ei. unfold indexOf in Hd, Hs. rewrite Ei in Hd, Hs.
      exists label, t. rewrite Et in Hs. rewrite Z.add_0_l in Hs.
      destruct (slice_cut label 46 t) as [_ E2]. rewrite E2 in Hs.
      split; [intros ->; change (zlen (@nil Z)) with 0 in Hd; lia|]. split; [done|]. split; [done|].
      rewrite Hn in Hs. change (slice_from (js "*." ++ suffix) 2) with suffix in Hs. by rewrite Hn, Hs.
    - destruct H as (label & suffix & Hne & Hl & Et & Hn). rewrite Hn.
      split; [apply startsWith_app|]. rewrite Et, indexOf_app by done.
      split; [by apply zlen_pos|]. destruct (slice_cut label 46 suffix) as [_ ->]. done. }
  rewrite existsb_exists. setoid_rewrite <-list_elem_of_In. split.
  - intros (entry & Hin & H). split; [by destruct target|]. exists entry. by rewrite <-Hm.
  - intros (_ & entry & Hin & H). exists entry. by rewrite Hm.
Qed.

(** Key identifiers: what [parseKeyId] accepts is [domain#kid] with the domain
    part normalized and a non-empty [kid] without a hash sign, and every such
    identifier is accepted. *)
Theorem parseKeyId_spec keyId domain kid :
  parseKeyId keyId = Ok (domain, kid) <->
  exists domainPart, keyId = domainPart ++ 35 :: kid /\ domainPart <> [] /\ 35 ∉ domainPart
    /\ kid <> [] /\ 35 ∉ kid /\ normalizeFQDN domainPart false = Ok domain.
Proof.
  unfold parseKeyId. cbv zeta. split.
  - intros (? & Hh%throw_if_Ok & H)%bind_Ok. apply Z.eqb_neq in Hh.
    destruct (indexOf_from_spec 0 keyId 35) as [E|(d & t & -> & Hd & E)]; [done|].
    cbn zeta in E. fold (indexOf (d ++ 35 :: t) [35]) in E. rewrite E, Z.add_0_l in H.
    destruct (slice_cut d 35 t) as [E1 E2]. rewrite E1, E2 in H.
    apply bind_Ok in H as (? & Hd0%throw_if_Ok & H).
    apply bind_Ok in H as (? & Ht0%throw_if_Ok & H).
    apply bind_Ok in H as (? & Hi%throw_if_Ok & H).
    apply bind_Ok in H as (n & Hn & [= -> ->]). apply catch_Ok in Hn as [Hn|(e & _ & ?)]; [|done].
    exists d. split_and!; try done; [by destruct d|by destruct kid|].
    unfold includes in Hi. apply negb_false_iff, Z.eqb_eq in Hi.
    by eapply indexOf_from_none.
  - intros (d & -> & Hd0 & Hd & Hk0 & Hk & Hn). rewrite indexOf_app by done.
    pose proof (zlen_nonneg d). rewrite (proj2 (Z.eqb_neq _ _)) by lia.
    destruct (slice_cut d 35 kid) as [-> ->]. cbn [throw_if mbind res_bind].
    rewrite !(proj2 (Nat.eqb_neq _ _)) by (by destruct d, kid). cbn [throw_if mbind res_bind].
    unfold includes. rewrite indexOf_none by done. cbn. by rewrite Hn.
Qed.

End NamesProps.

Lemma normalizeFQDN_valid_witness :
  normalizeFQDN (Url := SimpleUrl) (Uni := AsciiUnicode) (js "Agent.Example.") true = Ok (js "agent.example")
  /\ Forall valid_label (split_on 46 (js "agent.example")) /\ octets (js "agent.example") <= MAX_FQDN_OCTETS.
Proof.
  assert (H : normalizeFQDN (Url := SimpleUrl) (Uni := AsciiUnicode) (js "Agent.Example.") true
              = Ok (js "agent.example")) by (vm_compute; reflexivity).
  split; [exact H|].
  destruct (normalizeFQDN_valid (Url := SimpleUrl) (Uni := AsciiUnicode) _ _ _ H) as (H1 & H2 & _).
  split; [exact H1|exact H2].
Defined.
