(* ===== verification/TxtRecord.v ===== *)
(** The [_dnsid] TXT record: [protocol/src/txt-record.ts].

    Parsing, the canonical text that the record signature covers, serialization and
    validation.  [unknownTags] is a [Map], kept in insertion order. *)

From S2P Require Import Prelude JsString Base64 Url Utils.

Definition DNSID_VERSION : jsstr := js "DNSid1".
Definition DNSID_DRAFT01_VERSION : jsstr := js "dnsid-draft-01".
Definition SUPPORTED_DNSID_VERSIONS : list jsstr := [DNSID_DRAFT01_VERSION; DNSID_VERSION].
Definition VALID_KA_VALUES : list jsstr := [js "24h"; js "7d"; js "30d"; js "90d"].
Definition REQUIRED_UNSIGNED_TAGS : list jsstr := [js "v"; js "gi"; js "ek"; js "ku"; js "lr"; js "su"].
Definition REQUIRED_TAGS : list jsstr := REQUIRED_UNSIGNED_TAGS ++ [js "sg"].
Definition KNOWN_TAGS : list jsstr := REQUIRED_TAGS ++ [js "fl"; js "ka"; js "cu"].

(** [/^[A-Za-z][A-Za-z0-9_]*$/], [/^[\x21-\x3A\x3C-\x7E]*$/] and [/^[a-z][a-z0-9-]*$/] *)
Definition is_tag_unit (u : Z) : bool := is_alnum u || (u =? 95).
Definition is_tag_name (s : jsstr) : bool :=
  match s with u :: r => is_alpha u && forallb is_tag_unit r | [] => false end.
Definition is_value_unit (u : Z) : bool := ((33 <=? u) && (u <=? 58)) || ((60 <=? u) && (u <=? 126)).
Definition is_tag_value (s : jsstr) : bool := forallb is_value_unit s.
Definition is_lr_method (s : jsstr) : bool :=
  match s with u :: r => is_lower u && forallb is_ldh r | [] => false end.

Record DnsIdTxtRecord := mkTxtRecord {
  v : jsstr; gi : jsstr; ek : jsstr; ku : jsstr; lr : jsstr; su : jsstr; sg : jsstr;
  fl : option jsstr; ka : option jsstr; cu : option jsstr;
  unknownTags : list (jsstr * jsstr);
  agentFQDN : jsstr;
  parsedTags : list jsstr
}.

#[export] Instance DnsIdTxtRecord_eq_dec : EqDecision DnsIdTxtRecord.
Proof. solve_decision. Defined.

Definition new_record : DnsIdTxtRecord := mkTxtRecord [] [] [] [] [] [] [] None None None [] [] [].

Definition isDnsid1 (r : DnsIdTxtRecord) : bool := bool_decide (v r = DNSID_VERSION).
Definition isTwoKey (r : DnsIdTxtRecord) : bool := bool_decide (v r ∈ SUPPORTED_DNSID_VERSIONS).
Definition governanceId (r : DnsIdTxtRecord) : jsstr := gi r.
Definition signatureVerificationKeyURI (r : DnsIdTxtRecord) : jsstr := ek r.
Definition runtimeKeyURI (r : DnsIdTxtRecord) : jsstr := ku r.

(** [if (value) this.fl = value] *)
Definition set_optional (value : jsstr) (old : option jsstr) : option jsstr :=
  match value with [] => old | _ => Some value end.

Definition setKnownTag (r : DnsIdTxtRecord) (tag value : jsstr) : DnsIdTxtRecord :=
  let '(mkTxtRecord v gi ek ku lr su sg fl ka cu un ag pt) := r in
  if bool_decide (tag = js "v") then mkTxtRecord value gi ek ku lr su sg fl ka cu un ag pt
  else if bool_decide (tag = js "gi") then mkTxtRecord v value ek ku lr su sg fl ka cu un ag pt
  else if bool_decide (tag = js "ek") then mkTxtRecord v gi value ku lr su sg fl ka cu un ag pt
  else if bool_decide (tag = js "ku") then mkTxtRecord v gi ek value lr su sg fl ka cu un ag pt
  else if bool_decide (tag = js "lr") then mkTxtRecord v gi ek ku value su sg fl ka cu un ag pt
  else if bool_decide (tag = js "su") then mkTxtRecord v gi ek ku lr value sg fl ka cu un ag pt
  else if bool_decide (tag = js "sg") then mkTxtRecord v gi ek ku lr su value fl ka cu un ag pt
  else if bool_decide (tag = js "fl") then mkTxtRecord v gi ek ku lr su sg (set_optional value fl) ka cu un ag pt
  else if bool_decide (tag = js "ka") then mkTxtRecord v gi ek ku lr su sg fl (set_optional value ka) cu un ag pt
  else if bool_decide (tag = js "cu") then mkTxtRecord v gi ek ku lr su sg fl ka (set_optional value cu) un ag pt
  else r.

(** [this.unknownTags.set(tag, value)] of a new tag, and [seenTags.add(tag)]. *)
Definition add_unknown (r : DnsIdTxtRecord) (tag value : jsstr) : DnsIdTxtRecord :=
  let '(mkTxtRecord v gi ek ku lr su sg fl ka cu un ag pt) := r in
  mkTxtRecord v gi ek ku lr su sg fl ka cu (un ++ [(tag, value)]) ag pt.
Definition add_seen (r : DnsIdTxtRecord) (tag : jsstr) : DnsIdTxtRecord :=
  let '(mkTxtRecord v gi ek ku lr su sg fl ka cu un ag pt) := r in
  mkTxtRecord v gi ek ku lr su sg fl ka cu un ag (pt ++ [tag]).
Definition set_agentFQDN (r : DnsIdTxtRecord) (agentFQDN : jsstr) : DnsIdTxtRecord :=
  let '(mkTxtRecord v gi ek ku lr su sg fl ka cu un _ pt) := r in
  mkTxtRecord v gi ek ku lr su sg fl ka cu un agentFQDN pt.

(** The required fields by tag ([record[req]]). *)
Definition required_field (r : DnsIdTxtRecord) (tag : jsstr) : jsstr :=
  if bool_decide (tag = js "v") then v r
  else if bool_decide (tag = js "gi") then gi r
  else if bool_decide (tag = js "ek") then ek r
  else if bool_decide (tag = js "ku") then ku r
  else if bool_decide (tag = js "lr") then lr r
  else if bool_decide (tag = js "su") then su r
  else if bool_decide (tag = js "sg") then sg r
  else [].

(** One element of the loop over the tag pairs. *)
Definition parse_pair (requireSignature : bool) (r : DnsIdTxtRecord) (pair : jsstr) : res DnsIdTxtRecord :=
  let eqIdx := indexOf pair [61] in
  throw_if (eqIdx =? -1) (EParse "TXT tag element missing '='");;
  let tag := slice pair 0 eqIdx in
  let value := slice_from pair (eqIdx + 1) in
  throw_if (negb (is_tag_name tag)) (EParse "invalid TXT tag name");;
  throw_if (negb (is_tag_value value)) (EParse "invalid TXT tag value for tag");;
  throw_if (bool_decide (tag ∈ parsedTags r)) (EParse "duplicate TXT tag");;
  throw_if (negb requireSignature && bool_decide (tag = js "sg"))
    (EParse "unsigned TXT record must not contain sg");;
  let r := add_seen r tag in
  Ok (if bool_decide (tag ∈ KNOWN_TAGS) then setKnownTag r tag value else add_unknown r tag value).

(** The loop body on element [i] of the [count] pairs. *)
Definition parse_element (requireSignature : bool) (count : nat) (r : DnsIdTxtRecord)
    (element : nat * jsstr) : res DnsIdTxtRecord :=
  let '(i, text) := element in
  match text with
  | [] => if (i =? count - 1)%nat then Ok r else Throw (EParse "empty TXT tag element")
  | _ =>
      let text := if (0 <? i)%nat && startsWith text [32] then slice_from text 1 else text in
      parse_pair requireSignature r text
  end.

Definition parseTagPairs (raw : jsstr) (requireSignature requireVFirst : bool) : res DnsIdTxtRecord :=
  let pairs := split_on 59 raw in
  let versionPair := if requireVFirst then head pairs
                     else List.find (fun pair => startsWith pair (js "v=")) pairs in
  version ← (match versionPair with
             | Some p => if startsWith p (js "v=") then Ok (slice_from p 2)
                         else Throw (EParse "v= tag must be first")
             | None => Throw (EParse "unsigned TXT record missing v tag")
             end);
  throw_if (negb (bool_decide (version ∈ SUPPORTED_DNSID_VERSIONS)))
    (EParse "unsupported DNSid TXT record profile");;
  record ← for_each (parse_element requireSignature (length pairs)) (imap pair pairs) new_record;
  throw_if (existsb (fun req => (length (required_field record req) =? 0)%nat)
              (if requireSignature then REQUIRED_TAGS else REQUIRED_UNSIGNED_TAGS))
    (EParse "missing or empty required TXT tag");;
  Ok record.

Definition parse (raw : jsstr) : res DnsIdTxtRecord := parseTagPairs raw true true.

(** *** Canonical text and serialization *)

Definition has_tag (r : DnsIdTxtRecord) (tag : string) : bool := bool_decide (js tag ∈ parsedTags r).

Definition required_pair (tag : string) (value : jsstr) : list (jsstr * jsstr) :=
  match value with [] => [] | _ => [(js tag, value)] end.
(** [if (this.fl || this.parsedTags.has('fl')) pairs.push(['fl', this.fl ?? ''])] *)
Definition optional_pair (r : DnsIdTxtRecord) (tag : string) (value : option jsstr) : list (jsstr * jsstr) :=
  if negb (length (default [] value) =? 0)%nat || has_tag r tag then [(js tag, default [] value)] else [].

Definition knownCanonicalPairs (r : DnsIdTxtRecord) : list (jsstr * jsstr) :=
  required_pair "v" (v r) ++ required_pair "gi" (gi r) ++ required_pair "ek" (ek r)
  ++ required_pair "ku" (ku r) ++ required_pair "lr" (lr r) ++ required_pair "su" (su r)
  ++ optional_pair r "fl" (fl r) ++ optional_pair r "ka" (ka r) ++ optional_pair r "cu" (cu r).

Definition pair_text (p : jsstr * jsstr) : jsstr := fst p ++ [61] ++ snd p.
Definition pair_before (a b : jsstr * jsstr) : bool := str_ltb (fst a) (fst b).
Definition canonicalJoin (pairs : list (jsstr * jsstr)) : jsstr :=
  join [59] (map pair_text (sort_by pair_before pairs)).

Definition canonical (r : DnsIdTxtRecord) : jsstr := canonicalJoin (knownCanonicalPairs r ++ unknownTags r).
Definition knownTagsCanonical (r : DnsIdTxtRecord) : jsstr := canonicalJoin (knownCanonicalPairs r).

Definition serialize_pairs (r : DnsIdTxtRecord) : list (jsstr * jsstr) :=
  (js "v", v r) :: required_pair "gi" (gi r) ++ required_pair "ek" (ek r)
  ++ required_pair "ku" (ku r) ++ required_pair "lr" (lr r) ++ required_pair "su" (su r)
  ++ required_pair "sg" (sg r)
  ++ optional_pair r "fl" (fl r) ++ optional_pair r "ka" (ka r) ++ optional_pair r "cu" (cu r)
  ++ unknownTags r.
Definition serialize (r : DnsIdTxtRecord) : jsstr := join [59] (map pair_text (serialize_pairs r)).

(** The distinct non-empty trimmed tokens of [fl], in order. *)
Definition policyFlags (r : DnsIdTxtRecord) : list jsstr :=
  match fl r with
  | None | Some [] => []
  | Some fl =>
      foldl (fun flags token =>
        let name := trim token in
        if (length name =? 0)%nat || bool_decide (name ∈ flags) then flags else flags ++ [name])
        [] (split_on 44 fl)
  end.

(** *** Validation *)

Section Validate.
Context `{Url : URLApi} `{Uni : Unicode}.

Definition signatureVerificationKeyAllowedHost (r : DnsIdTxtRecord) : res jsstr := normalizeFQDN (gi r) false.
Definition runtimeKeyAllowedHost (r : DnsIdTxtRecord) : res jsstr := normalizeFQDN (agentFQDN r) false.

(** [a === b || a.endsWith(`.${b}`)] *)
Definition equal_or_beneath (a b : jsstr) : bool := bool_decide (a = b) || endsWith a (46 :: b).

Definition hasStructuralGovernanceRelationship (r : DnsIdTxtRecord) : res bool :=
  agent ← normalizeFQDN (agentFQDN r) true;
  giDomain ← normalizeFQDN (gi r) false;
  Ok (equal_or_beneath agent giDomain).

Definition validateLrFormat (lr : jsstr) : res unit :=
  let colonIdx := indexOf lr [58] in
  throw_if (colonIdx =? -1) (EValidation "malformed lr value (no colon)");;
  throw_if (negb (is_lr_method (slice lr 0 colonIdx))) (EValidation "malformed lr value (invalid method)");;
  throw_if (length (slice_from lr (colonIdx + 1)) =? 0)%nat (EValidation "malformed lr value (empty reference)").

(** [/^https:\/\/[^/\\]/i]; a dot class excludes no line ends here. *)
Definition has_https_host (value : jsstr) : bool :=
  startsWith (toLowerAscii value) (js "https://")
  && match slice_from value 8 with u :: _ => negb ((u =? 47) || (u =? 92)) | [] => false end.

Definition validateHttpsUrl (value : jsstr) : res URL :=
  throw_if (negb (has_https_host value) || includes value [92])
    (EValidation "must be a valid HTTPS URI with a host");;
  url ← of_option (new_URL value) (EValidation "is not a valid URI");
  throw_if (negb (bool_decide (url_protocol url = js "https:")) || (length (url_hostname url) =? 0)%nat)
    (EValidation "must be a valid HTTPS URI with a host");;
  throw_if (negb (length (url_username url) =? 0)%nat || negb (length (url_password url) =? 0)%nat)
    (EValidation "must not include userinfo");;
  Ok url.

Definition validateHttpsUrlHost (value expectedHost : jsstr) : res unit :=
  url ← validateHttpsUrl value;
  throw_if (endsWith (url_hostname url) [46]) (EValidation "host must equal agent FQDN");;
  host ← normalizeFQDN (url_hostname url) false;
  throw_if (negb (bool_decide (host = expectedHost))) (EValidation "host must equal agent FQDN").

Definition validateEkHost (value giDomain : jsstr) : res unit :=
  url ← validateHttpsUrl value;
  throw_if (endsWith (url_hostname url) [46]) (EValidation "ek host must not end with a root dot");;
  host ← normalizeFQDN (url_hostname url) false;
  throw_if (negb (equal_or_beneath host giDomain)) (EValidation "ek host must equal or be beneath gi").

Definition validate (r : DnsIdTxtRecord) : res unit :=
  throw_if (negb (bool_decide (v r ∈ SUPPORTED_DNSID_VERSIONS))) (EValidation "unsupported DNSid profile");;
  throw_if (length (agentFQDN r) =? 0)%nat (EValidation "agentFQDN must be set before calling validate()");;
  agent ← normalizeFQDN (agentFQDN r) true;
  giDomain ← normalizeFQDN (gi r) false;
  throw_if (negb (bool_decide (gi r = giDomain))) (EValidation "gi must be lowercase ASCII A-label domain");;
  validateEkHost (ek r) giDomain;;
  validateHttpsUrlHost (ku r) agent;;
  validateLrFormat (lr r);;
  validateHttpsUrl (su r);;
  match cu r with
  | None | Some [] => Ok tt
  | Some cu => validateHttpsUrl cu;; Ok tt
  end;;
  match ka r with
  | None | Some [] => Ok tt
  | Some ka => throw_if (negb (bool_decide (ka ∈ VALID_KA_VALUES)))
                 (EValidation "ka must be one of: 24h, 7d, 30d, 90d")
  end.

Definition parseUnsignedCanonical (raw : jsstr) (agentFQDN : option jsstr) : res DnsIdTxtRecord :=
  record ← parseTagPairs raw false false;
  throw_if (negb (bool_decide (canonical record = raw)))
    (EParse "unsigned TXT record is not in canonical form");;
  match agentFQDN with
  | None | Some [] => Ok record
  | Some agentFQDN =>
      let record := set_agentFQDN record agentFQDN in
      validate record;;
      Ok record
  end.

End Validate.

(** ** Specification: the tag pairs of a raw record *)

Definition split_pair (text : jsstr) : jsstr * jsstr :=
  let i := indexOf text [61] in (slice text 0 i, slice_from text (i + 1)).
Definition trim_element (element : nat * jsstr) : jsstr :=
  if (0 <? fst element)%nat && startsWith (snd element) [32] then slice_from (snd element) 1 else snd element.
Definition non_empty (element : nat * jsstr) : bool := negb (length (snd element) =? 0)%nat.
Definition pairs_of (elements : list (nat * jsstr)) : list (jsstr * jsstr) :=
  map (fun e => split_pair (trim_element e)) (List.filter non_empty elements).
Definition tag_pairs (raw : jsstr) : list (jsstr * jsstr) := pairs_of (imap pair (split_on 59 raw)).

Definition valid_pair (p : jsstr * jsstr) : bool := is_tag_name (fst p) && is_tag_value (snd p).

(** What one parsed pair does to the record. *)
Definition add_pair (r : DnsIdTxtRecord) (p : jsstr * jsstr) : DnsIdTxtRecord :=
  let r := add_seen r (fst p) in
  if bool_decide (fst p ∈ KNOWN_TAGS) then setKnownTag r (fst p) (snd p) else add_unknown r (fst p) (snd p).
Definition record_of (ps : list (jsstr * jsstr)) : DnsIdTxtRecord := foldl add_pair new_record ps.

(** The value of a tag; tags are unique. *)
Definition tag_value (ps : list (jsstr * jsstr)) (tag : jsstr) : option jsstr :=
  snd <$> List.find (fun p => bool_decide (fst p = tag)) ps.

(** The pairs that the record signature covers. *)
Definition is_signed (p : jsstr * jsstr) : bool := negb (bool_decide (fst p = js "sg")).
Definition signed_pairs (raw : jsstr) : list (jsstr * jsstr) := List.filter is_signed (tag_pairs raw).

(** ** Lemmas: pairs *)

Lemma tag_name_units t : is_tag_name t = true -> forallb is_tag_unit t = true.
Proof.
  destruct t as [|u r]; [done|]. cbn. intros [Hu Hr]%andb_true_iff. apply andb_true_iff. split; [|done].
  unfold is_tag_unit, is_alnum. by rewrite Hu.
Qed.

Lemma tag_name_no c t : is_tag_unit c = false -> is_tag_name t = true -> c ∉ t.
Proof. intros Hc Ht. eapply forallb_not_elem; [exact Hc|by apply tag_name_units]. Qed.

Lemma tag_value_no c s : is_value_unit c = false -> is_tag_value s = true -> c ∉ s.
Proof. intros Hc. by apply forallb_not_elem. Qed.

Lemma split_pair_text p : valid_pair p = true -> split_pair (pair_text p) = p.
Proof.
  destruct p as [t s]. unfold valid_pair, split_pair, pair_text. cbn [fst snd].
  intros [Ht _]%andb_true_iff. pose proof (tag_name_no 61 t eq_refl Ht) as Hn.
  change (t ++ [61] ++ s) with (t ++ 61 :: s). unfold indexOf. rewrite indexOf_from_app by done.
  rewrite Z.add_0_l. destruct (slice_cut t 61 s) as [E1 E2]. by rewrite E1, E2.
Qed.

Lemma pair_text_split text : indexOf text [61] <> -1 -> pair_text (split_pair text) = text.
Proof.
  unfold split_pair, pair_text, indexOf. intros Hi. cbn [fst snd].
  destruct (indexOf_from_spec 0 text 61) as [|(a & t & -> & _ & E)]; [done|]. cbn zeta in E. rewrite E, Z.add_0_l.
  destruct (slice_cut a 61 t) as [-> ->]. done.
Qed.

Lemma parse_pair_Ok rs r text r' : parse_pair rs r text = Ok r' ->
  let p := split_pair text in
  pair_text p = text /\ valid_pair p = true /\ fst p ∉ parsedTags r /\ (rs = false -> fst p <> js "sg")
  /\ r' = add_pair r p.
Proof.
  unfold parse_pair. intros (? & Hi%throw_if_Ok & H)%bind_Ok. apply bind_Ok in H as (? & Hn%throw_if_Ok & H).
  apply bind_Ok in H as (? & Hv%throw_if_Ok & H). apply bind_Ok in H as (? & Hd%throw_if_Ok & H).
  apply bind_Ok in H as (? & Hs%throw_if_Ok & [= <-]). apply Z.eqb_neq in Hi.
  apply negb_false_iff in Hn, Hv. apply bool_decide_eq_false in Hd. cbv zeta.
  split; [by apply pair_text_split|]. unfold valid_pair, split_pair, add_pair. cbn [fst snd].
  rewrite Hn, Hv. split; [done|]. split; [done|]. split; [|done].
  intros ->. cbn [negb andb] in Hs. by apply bool_decide_eq_false in Hs.
Qed.

Lemma parse_pair_text rs r p : valid_pair p = true -> fst p ∉ parsedTags r ->
  (rs = false -> fst p <> js "sg") -> parse_pair rs r (pair_text p) = Ok (add_pair r p).
Proof.
  intros Hp Hn Hs. pose proof (split_pair_text p Hp) as E.
  assert (Hi : indexOf (pair_text p) [61] <> -1).
  { destruct p as [t s]. unfold valid_pair in Hp. apply andb_true_iff in Hp as [Ht _].
    unfold pair_text. change (fst (t, s) ++ [61] ++ snd (t, s)) with (t ++ 61 :: s).
    unfold indexOf. rewrite indexOf_from_app; [pose proof (zlen_nonneg t); lia|by apply tag_name_no]. }
  unfold split_pair in E. unfold parse_pair. remember (pair_text p) as text. cbn zeta.
  destruct p as [t s]. unfold valid_pair in Hp. cbn [fst snd] in *.
  apply andb_true_iff in Hp as [Ht Hv]. injection E as E1 E2. rewrite E1, E2.
  rewrite (proj2 (Z.eqb_neq _ _)) by done. cbn [throw_if mbind res_bind].
  rewrite Ht, Hv. cbn [negb throw_if mbind res_bind]. rewrite (bool_decide_eq_false_2 (t ∈ parsedTags r)) by done.
  cbn [throw_if mbind res_bind]. destruct rs; [done|]. by rewrite (bool_decide_eq_false_2 (t = _)) by auto.
Qed.

Lemma parsedTags_add r p : parsedTags (add_pair r p) = parsedTags r ++ [fst p].
Proof.
  unfold add_pair, setKnownTag, add_unknown, add_seen. destruct r, p as [t s]. cbn [fst snd].
  repeat case_bool_decide; done.
Qed.

(** A run of the loop adds the pairs of its elements. *)
Lemma parse_elements_Ok rs n els r r' : for_each (parse_element rs n) els r = Ok r' ->
  r' = foldl add_pair r (pairs_of els) /\ Forall (fun p => valid_pair p = true) (pairs_of els)
  /\ (NoDup (parsedTags r) -> NoDup (parsedTags r ++ map fst (pairs_of els)))
  /\ (rs = false -> Forall (fun p => fst p <> js "sg") (pairs_of els)).
Proof.
  revert r; induction els as [|[i text] els IH]; intros r H; cbn [for_each] in H.
  { injection H as <-. unfold pairs_of. cbn. rewrite app_nil_r. auto. }
  apply bind_Ok in H as (r1 & H1 & H). unfold parse_element in H1. destruct text as [|u text].
  - change (pairs_of ((i, []) :: els)) with (pairs_of els).
    destruct (i =? n - 1)%nat; [|done]. injection H1 as <-. by apply IH.
  - change (pairs_of ((i, u :: text) :: els)) with (split_pair (trim_element (i, u :: text)) :: pairs_of els).
    cbn [foldl map]. change (trim_element (i, u :: text)) with
      (if (0 <? i)%nat && startsWith (u :: text) [32] then slice_from (u :: text) 1 else u :: text).
    apply parse_pair_Ok in H1 as (_ & Hv & Hn & Hsg & ->).
    apply IH in H as (-> & HF & Hnd & Hs). split; [done|]. split; [by constructor|]. split.
    + intros Hr. rewrite parsedTags_add, <-app_assoc in Hnd. apply Hnd.
      apply NoDup_app. split; [done|]. split; [by intros x Hx ->%list_elem_of_singleton|apply NoDup_singleton].
    + intros Hrs. constructor; auto.
Qed.

(** ** Fields of a parsed record *)

(** The value stored for a tag, empty when there is none. *)
Definition field (r : DnsIdTxtRecord) (tag : jsstr) : jsstr :=
  if bool_decide (tag = js "fl") then default [] (fl r)
  else if bool_decide (tag = js "ka") then default [] (ka r)
  else if bool_decide (tag = js "cu") then default [] (cu r)
  else required_field r tag.

Ltac tag_cases tag :=
  let H := fresh in
  intros H; unfold KNOWN_TAGS, REQUIRED_TAGS, REQUIRED_UNSIGNED_TAGS in H; cbn [app] in H;
  repeat (apply elem_of_cons in H as [->|H]); [..|by apply not_elem_of_nil in H].

(** Evaluates the comparisons of tag literals. *)
Ltac eval_tags :=
  repeat match goal with
  | |- context [bool_decide (js ?a = js ?b)] =>
      let d := constr:(bool_decide (js a = js b)) in
      let e := eval vm_compute in d in change d with e; cbv iota
  end.

Lemma default_set_optional value old : default [] old = [] -> default [] (set_optional value old) = value.
Proof. by destruct value. Qed.

Lemma field_add_pair r p tag : tag ∈ KNOWN_TAGS -> field r (fst p) = [] ->
  field (add_pair r p) tag = if bool_decide (fst p = tag) then snd p else field r tag.
Proof.
  destruct p as [t value]; cbn [fst snd]. intros Hk He. unfold add_pair, add_seen, add_unknown. cbn [fst snd].
  destruct r. case_bool_decide as Ht.
  - revert Ht He. tag_cases t; revert Hk; tag_cases tag;
      unfold field, required_field, setKnownTag; eval_tags; cbn [v gi ek ku lr su sg fl ka cu];
      intros He; first [reflexivity|by rewrite default_set_optional].
  - rewrite bool_decide_eq_false_2 by (by intros ->). done.
Qed.

Lemma field_add_unknown r p tag : fst p ∉ KNOWN_TAGS -> field (add_pair r p) tag = field r tag.
Proof.
  intros Hp. unfold add_pair. rewrite bool_decide_eq_false_2 by done.
  unfold add_seen, add_unknown. by destruct r.
Qed.

Lemma record_of_snoc ps p : record_of (ps ++ [p]) = add_pair (record_of ps) p.
Proof. unfold record_of. by rewrite foldl_app. Qed.

Lemma record_parsedTags ps : parsedTags (record_of ps) = map fst ps.
Proof.
  induction ps as [|p ps IH] using rev_ind; [done|].
  by rewrite record_of_snoc, parsedTags_add, IH, map_app.
Qed.

Definition is_unknown (p : jsstr * jsstr) : bool := negb (bool_decide (fst p ∈ KNOWN_TAGS)).

Lemma unknownTags_set r tag value : unknownTags (setKnownTag r tag value) = unknownTags r.
Proof. unfold setKnownTag. destruct r. repeat case_bool_decide; done. Qed.

Lemma record_unknownTags ps : unknownTags (record_of ps) = List.filter is_unknown ps.
Proof.
  induction ps as [|p ps IH] using rev_ind; [done|].
  rewrite record_of_snoc, List.filter_app, <-IH. cbn [List.filter].
  unfold add_pair, is_unknown, add_seen, add_unknown. destruct p as [t s]. cbn [fst snd].
  destruct (record_of ps). case_bool_decide; cbn [negb]; [|done].
  by rewrite unknownTags_set, app_nil_r.
Qed.

Lemma record_agentFQDN ps : agentFQDN (record_of ps) = [].
Proof.
  induction ps as [|p ps IH] using rev_ind; [done|].
  rewrite record_of_snoc. unfold add_pair, setKnownTag, add_seen, add_unknown in *. destruct (record_of ps).
  repeat case_bool_decide; done.
Qed.

Lemma tag_value_snoc ps p tag : fst p ∉ map fst ps ->
  tag_value (ps ++ [p]) tag = if bool_decide (fst p = tag) then Some (snd p) else tag_value ps tag.
Proof.
  unfold tag_value. intros Hn. induction ps as [|q ps IH]; cbn [app List.find].
  - by case_bool_decide.
  - cbn [map] in Hn. apply not_elem_of_cons in Hn as [Hq Hn]. specialize (IH Hn).
    destruct (bool_decide (fst q = tag)) eqn:E; [|done]. apply bool_decide_eq_true in E.
    rewrite bool_decide_eq_false_2 by congruence. done.
Qed.

Lemma tag_value_elem ps tag value : NoDup (map fst ps) ->
  tag_value ps tag = Some value <-> (tag, value) ∈ ps.
Proof.
  induction ps as [|p ps IH] using rev_ind; [by intros _; split; [|intros ?%not_elem_of_nil]|].
  rewrite map_app. intros (Hnd & Hd & _)%NoDup_app. rewrite elem_of_app, list_elem_of_singleton.
  rewrite tag_value_snoc by (intros Hi; apply (Hd _ Hi), list_elem_of_here).
  case_bool_decide as E; [|rewrite IH by done; split; [auto|intros [?|<-]; [done|by destruct E]]].
  subst tag. split; [intros [= <-]; right; by destruct p|]. intros [Hi|<-]; [|done].
  exfalso. apply (list_elem_of_fmap_2 fst) in Hi. apply (Hd _ Hi), list_elem_of_here.
Qed.

Lemma tag_value_none ps tag : tag_value ps tag = None <-> tag ∉ map fst ps.
Proof.
  unfold tag_value. induction ps as [|p ps IH]; cbn [List.find map]; [by split; [intros _ ?%not_elem_of_nil|]|].
  rewrite not_elem_of_cons. case_bool_decide as E; [split; [done|by intros [[]]]|]. rewrite IH.
  split; [intros ?; split; [congruence|done]|by intros []].
Qed.

Lemma field_unknown ps tag : tag ∉ KNOWN_TAGS -> field (record_of ps) tag = [].
Proof.
  intros Hn. unfold field, required_field.
  repeat (rewrite bool_decide_eq_false_2; [|intros ->; apply Hn; by apply (bool_decide_unpack _)]). done.
Qed.

Lemma record_field ps tag : NoDup (map fst ps) -> tag ∈ KNOWN_TAGS ->
  field (record_of ps) tag = default [] (tag_value ps tag).
Proof.
  intros Hnd. revert tag. induction ps as [|p ps IH] using rev_ind; intros tag Hk.
  { revert Hk. by tag_cases tag. }
  rewrite map_app in Hnd. apply NoDup_app in Hnd as (Hnd & Hd & _). specialize (IH Hnd).
  assert (Hn : fst p ∉ map fst ps) by (intros Hi; apply (Hd _ Hi), list_elem_of_here).
  rewrite record_of_snoc, tag_value_snoc by done.
  destruct (decide (fst p ∈ KNOWN_TAGS)) as [Hp|Hp].
  - rewrite field_add_pair; [rewrite IH by done; by case_bool_decide|done|].
    rewrite IH by done. by rewrite (proj2 (tag_value_none ps _) Hn).
  - rewrite bool_decide_eq_false_2 by (by intros <-). rewrite field_add_unknown by done. by apply IH.
Qed.

(** ** Parsing *)

(** What a parsed record is: valid pairs of distinct tags, the required ones with a value. *)
Record parsed_pairs (requireSignature : bool) (ps : list (jsstr * jsstr)) : Prop := {
  pp_valid : Forall (fun p => valid_pair p = true) ps;
  pp_nodup : NoDup (map fst ps);
  pp_version : v (record_of ps) ∈ SUPPORTED_DNSID_VERSIONS;
  pp_required : Forall (fun tag => required_field (record_of ps) tag <> [])
                  (if requireSignature then REQUIRED_TAGS else REQUIRED_UNSIGNED_TAGS);
  pp_unsigned : requireSignature = false -> js "sg" ∉ map fst ps
}.

Lemma split_pair_v s : split_pair (js "v=" ++ s) = (js "v", s).
Proof.
  change (js "v=" ++ s) with (pair_text (js "v", s)). unfold split_pair, pair_text. cbn [fst snd].
  change (js "v" ++ [61] ++ s) with (js "v" ++ 61 :: s).
  unfold indexOf. rewrite indexOf_from_app by by apply (bool_decide_unpack _).
  rewrite Z.add_0_l. destruct (slice_cut (js "v") 61 s) as [-> ->]. done.
Qed.

(** The piece that gives the version is the pair of [v]. *)
Lemma version_pair raw text : text ∈ split_on 59 raw -> startsWith text (js "v=") = true ->
  (js "v", slice_from text 2) ∈ tag_pairs raw.
Proof.
  intros Hi Hs. apply startsWith_spec in Hs as [t ->].
  change (slice_from (js "v=" ++ t) 2) with t.
  apply list_elem_of_lookup in Hi as [i Hi]. unfold tag_pairs, pairs_of.
  rewrite <-(split_pair_v t). apply list_elem_of_fmap.
  exists (i, js "v=" ++ t). split; [unfold trim_element; cbn; by rewrite andb_false_r|].
  apply list_elem_of_In, filter_In. split; [|done]. apply list_elem_of_In, list_elem_of_lookup.
  exists i. by rewrite list_lookup_imap, Hi.
Qed.

Lemma parseTagPairs_inv raw rs vf r : parseTagPairs raw rs vf = Ok r ->
  r = record_of (tag_pairs raw) /\ parsed_pairs rs (tag_pairs raw).
Proof.
  unfold parseTagPairs. intros (version & Hver & H)%bind_Ok.
  apply bind_Ok in H as (? & Hsup%throw_if_Ok & H).
  apply bind_Ok in H as (record & Hels & H). apply bind_Ok in H as (? & Hreq%throw_if_Ok & [= <-]).
  apply parse_elements_Ok in Hels as (-> & Hv & Hnd & Hsg). fold (tag_pairs raw) in *.
  fold (record_of (tag_pairs raw)) in *. split; [done|].
  specialize (Hnd NoDup_nil_2). cbn [app] in Hnd.
  assert (Hp : exists text, text ∈ split_on 59 raw /\ startsWith text (js "v=") = true /\ version = slice_from text 2).
  { destruct vf.
    - destruct (split_on 59 raw) as [|text rest]; [done|]. cbn [head hd_error] in Hver.
      destruct (startsWith text (js "v=")) eqn:E; [|done]. injection Hver as <-.
      exists text. split; [apply list_elem_of_here|done].
    - destruct (List.find _ _) as [text|] eqn:E; [|done]. apply find_some in E as [Hi E].
      rewrite E in Hver. injection Hver as <-. exists text. by rewrite list_elem_of_In. }
  destruct Hp as (text & Hi & Hs & ->). pose proof (version_pair raw text Hi Hs) as Hvp.
  apply tag_value_elem in Hvp; [|done].
  split; [done|done| | |].
  - change (v ?r) with (field r (js "v")). rewrite record_field, Hvp by (done || by apply (bool_decide_unpack _)).
    apply negb_false_iff, bool_decide_eq_true in Hsup. exact Hsup.
  - apply Forall_forall. intros tag Ht He. rewrite <-not_true_iff_false in Hreq. apply Hreq.
    apply existsb_exists. exists tag. by rewrite <-list_elem_of_In, He.
  - intros ->. specialize (Hsg eq_refl). intros Hsg'. apply list_elem_of_fmap in Hsg' as (p & Ep & Hi').
    rewrite Forall_forall in Hsg. by apply (Hsg p Hi').
Qed.

(** ** Building a record text from pairs *)

Definition pairs_text (ps : list (jsstr * jsstr)) : jsstr := join [59] (map pair_text ps).

Lemma valid_pair_text p : valid_pair p = true ->
  59 ∉ pair_text p /\ exists u s, pair_text p = u :: s /\ u <> 32.
Proof.
  destruct p as [t s]. unfold valid_pair. cbn [fst snd]. intros [Ht Hs]%andb_true_iff. split.
  - unfold pair_text. cbn [fst snd]. rewrite !elem_of_app, list_elem_of_singleton.
    intros [Hi|[?|Hi]]; [by apply (tag_name_no 59 t)|done|by apply (tag_value_no 59 s)].
  - destruct t as [|u t]; [done|]. exists u, (t ++ [61] ++ s). split; [done|]. by intros ->.
Qed.

Lemma pairs_text_split ps : ps <> [] -> Forall (fun p => valid_pair p = true) ps ->
  split_on 59 (pairs_text ps) = map pair_text ps.
Proof.
  intros Hne Hv. apply split_join; [by destruct ps|]. apply Forall_map.
  eapply Forall_impl; [exact Hv|]. intros p Hp. by apply valid_pair_text.
Qed.

Lemma element_text i p : valid_pair p = true ->
  trim_element (i, pair_text p) = pair_text p /\ non_empty (i, pair_text p) = true.
Proof.
  intros Hp. destruct (valid_pair_text p Hp) as (_ & u & s & E & Hu). unfold trim_element, non_empty. cbn [fst snd].
  rewrite E. cbn [startsWith length Nat.eqb negb]. rewrite (proj2 (Z.eqb_neq 32 u)) by done.
  cbn [andb]. by rewrite andb_false_r.
Qed.

(** The elements of a list of pairs, whatever their indexes. *)
Definition elements_of (els : list (nat * jsstr)) (ps : list (jsstr * jsstr)) : Prop :=
  map snd els = map pair_text ps.

Lemma elements_pairs els ps : elements_of els ps -> Forall (fun p => valid_pair p = true) ps ->
  pairs_of els = ps.
Proof.
  unfold elements_of. revert ps; induction els as [|[i t] els IH]; intros [|p ps]; try done.
  cbn [map snd]. intros [= -> E] [Hp Hv]%Forall_cons_1. destruct (element_text i p Hp) as [Et En].
  unfold pairs_of. cbn [List.filter]. rewrite En. cbn [map]. rewrite Et, split_pair_text by done.
  f_equal. by apply IH.
Qed.

Lemma parse_elements_text rs n els ps r : elements_of els ps -> Forall (fun p => valid_pair p = true) ps ->
  NoDup (parsedTags r ++ map fst ps) -> (rs = false -> js "sg" ∉ map fst ps) ->
  for_each (parse_element rs n) els r = Ok (foldl add_pair r ps).
Proof.
  unfold elements_of. revert ps r; induction els as [|[i t] els IH]; intros [|p ps] r; try done.
  cbn [map snd]. intros [= -> E] [Hp Hv]%Forall_cons_1 Hnd Hsg. destruct (element_text i p Hp) as [Et En].
  cbn [for_each].
  assert (Hpp : parse_element rs n r (i, pair_text p) = Ok (add_pair r p)).
  { rewrite <-(parse_pair_text rs r p); [|done| |].
    - unfold parse_element, trim_element, non_empty in *. cbn [fst snd] in *.
      destruct (pair_text p); [done|]. by rewrite Et.
    - apply NoDup_app in Hnd as (_ & Hd & _). intros Hi. apply (Hd _ Hi), list_elem_of_here.
    - intros Hrs Es. apply (Hsg Hrs). rewrite <-Es. apply list_elem_of_here. }
  rewrite Hpp. cbn [mbind res_bind foldl]. apply IH; [done|done| |].
  - rewrite parsedTags_add, <-app_assoc. done.
  - intros Hrs Hi. apply (Hsg Hrs). by apply list_elem_of_further.
Qed.

Lemma tag_pairs_text ps : ps <> [] -> Forall (fun p => valid_pair p = true) ps ->
  tag_pairs (pairs_text ps) = ps.
Proof.
  intros Hne Hv. apply elements_pairs; [|done]. unfold elements_of.
  rewrite (pairs_text_split ps) by done. apply list_eq. intros i.
  rewrite list_lookup_fmap, list_lookup_imap. by destruct (map pair_text ps !! i).
Qed.

Lemma imap_pair_snd {A} (l : list A) : map snd (imap pair l) = l.
Proof.
  apply list_eq. intros i.
  rewrite list_lookup_fmap, list_lookup_imap. by destruct (l !! i).
Qed.

Lemma record_v ps s : NoDup (map fst ps) -> (js "v", s) ∈ ps -> v (record_of ps) = s.
Proof.
  intros Hnd Hi. apply tag_value_elem in Hi; [|done].
  change (v ?r) with (field r (js "v")). by rewrite record_field, Hi by (done || by apply (bool_decide_unpack _)).
Qed.

Lemma version_text ps text : NoDup (map fst ps) -> Forall (fun p => valid_pair p = true) ps ->
  text ∈ map pair_text ps -> startsWith text (js "v=") = true -> slice_from text 2 = v (record_of ps).
Proof.
  intros Hnd Hv Hi Hs. apply list_elem_of_fmap in Hi as (p & -> & Hi). apply startsWith_spec in Hs as [t E].
  rewrite Forall_forall in Hv. pose proof (split_pair_text p (Hv p Hi)) as Ep.
  rewrite E, split_pair_v in Ep. subst p. rewrite E. symmetry. by apply record_v.
Qed.

(** The text of such pairs, with [v] first unless the text is unsigned, parses to their record. *)
Lemma parseTagPairs_text ps rs vf : parsed_pairs rs ps ->
  (vf = true -> exists s rest, ps = (js "v", s) :: rest) ->
  parseTagPairs (pairs_text ps) rs vf = Ok (record_of ps).
Proof.
  intros [Hv Hnd Hver Hreq Hsg] Hfirst.
  assert (Hvp : (js "v", v (record_of ps)) ∈ ps).
  { apply tag_value_elem; [done|]. change (v ?r) with (field r (js "v")) in *.
    rewrite record_field in * by (done || by apply (bool_decide_unpack _)).
    destruct (tag_value ps (js "v")); [done|]. exfalso. revert Hver. by apply (bool_decide_unpack _). }
  assert (Hne : ps <> []) by (intros ->; by apply not_elem_of_nil in Hvp).
  unfold parseTagPairs. rewrite pairs_text_split by done.
  assert (Hvt : pair_text (js "v", v (record_of ps)) ∈ map pair_text ps) by by apply list_elem_of_fmap_2.
  match goal with |- (match ?vp with _ => _ end ≫= _) = _ =>
    assert (Hp : exists text, vp = Some text /\ text ∈ map pair_text ps /\ startsWith text (js "v=") = true) end.
  { destruct vf.
    - destruct (Hfirst eq_refl) as (s & rest & ->). exists (pair_text (js "v", s)).
      split; [done|]. split; [apply list_elem_of_here|by apply (startsWith_app (js "v="))].
    - destruct (List.find _ _) as [text|] eqn:E.
      + apply find_some in E as [Hi E]. exists text. by rewrite list_elem_of_In.
      + exfalso. apply list_elem_of_In in Hvt. pose proof (find_none _ _ E _ Hvt) as Hn. cbv beta in Hn.
        pose proof (startsWith_app (js "v=") (v (record_of ps))) as Hy.
        change (js "v=" ++ v (record_of ps)) with (pair_text (js "v", v (record_of ps))) in Hy.
        by rewrite Hy in Hn. }
  destruct Hp as (text & -> & Hi & Hs). rewrite Hs. cbn [mbind res_bind].
  rewrite (version_text ps text) by done. rewrite bool_decide_eq_true_2 by done.
  cbn [negb throw_if mbind res_bind].
  rewrite (parse_elements_text rs _ _ ps) by (done || apply imap_pair_snd).
  cbn [mbind res_bind]. fold (record_of ps).
  match goal with |- context [existsb ?f ?l] => destruct (existsb f l) eqn:Ee end; [|done].
  apply existsb_exists in Ee as (tag & Hi' & Et). apply list_elem_of_In in Hi'.
  rewrite Forall_forall in Hreq. exfalso. apply (Hreq tag Hi'). by destruct (required_field _ tag).
Qed.

(** ** The pairs of a record's texts *)

Definition OPTIONAL_TAGS : list jsstr := [js "fl"; js "ka"; js "cu"].
Definition CANONICAL_TAGS : list jsstr := REQUIRED_UNSIGNED_TAGS ++ OPTIONAL_TAGS.

Definition known_pair (r : DnsIdTxtRecord) (tag : jsstr) : list (jsstr * jsstr) :=
  if negb (length (field r tag) =? 0)%nat || (bool_decide (tag ∈ OPTIONAL_TAGS) && bool_decide (tag ∈ parsedTags r))
  then [(tag, field r tag)] else [].

Lemma required_pair_known r tag : bool_decide (js tag ∈ OPTIONAL_TAGS) = false ->
  required_pair tag (field r (js tag)) = known_pair r (js tag).
Proof. unfold known_pair. intros ->. by destruct (field r (js tag)). Qed.

Lemma canonical_pairs_known r :
  knownCanonicalPairs r = flat_map (known_pair r) CANONICAL_TAGS.
Proof.
  change CANONICAL_TAGS with [js "v"; js "gi"; js "ek"; js "ku"; js "lr"; js "su"; js "fl"; js "ka"; js "cu"].
  cbn [flat_map]. rewrite <-!required_pair_known by done. by rewrite app_nil_r.
Qed.

Lemma serialize_pairs_known r : v r <> [] ->
  serialize_pairs r = flat_map (known_pair r) KNOWN_TAGS ++ unknownTags r.
Proof.
  intros Hv. change KNOWN_TAGS with
    [js "v"; js "gi"; js "ek"; js "ku"; js "lr"; js "su"; js "sg"; js "fl"; js "ka"; js "cu"].
  cbn [flat_map]. rewrite <-!required_pair_known, <-!app_assoc by done.
  change (field r (js "v")) with (v r). unfold serialize_pairs. destruct (v r) eqn:E; [done|].
  reflexivity.
Qed.

Lemma known_pair_tags r tags : map fst (flat_map (known_pair r) tags) `sublist_of` tags.
Proof.
  induction tags as [|tag tags IH]; [done|]. cbn [flat_map]. rewrite map_app. unfold known_pair at 1.
  case_match; [by apply sublist_skip|by apply sublist_cons].
Qed.

Lemma sublist_filter_list {A} (f : A -> bool) l : List.filter f l `sublist_of` l.
Proof. induction l as [|x l IH]; cbn; [done|]. destruct (f x); by constructor. Qed.

Lemma NoDup_map_filter {A B} (g : A -> B) f l : NoDup (map g l) -> NoDup (map g (List.filter f l)).
Proof.
  intros H. apply (sublist_NoDup _ (map g l)); [done|]. clear H.
  induction l as [|x l IH]; cbn; [done|]. destruct (f x); by constructor.
Qed.

#[export] Instance filter_list_perm {A} (f : A -> bool) : Proper (Permutation ==> Permutation) (List.filter f).
Proof.
  induction 1 as [|a l l' _ IH|a b l|l1 l2 l3 _ IH1 _ IH2]; cbn; [done| | |by etrans].
  - by destruct (f a); rewrite IH.
  - destruct (f a), (f b); done || apply Permutation_swap.
Qed.

Lemma filter_true {A} (l : list A) : List.filter (fun _ => true) l = l.
Proof. induction l as [|x l IH]; cbn; [done|]. by rewrite IH. Qed.

Section RecordPairs.
Context (rs : bool) (ps : list (jsstr * jsstr)) (Hps : parsed_pairs rs ps).

Lemma field_required r tag : tag ∉ OPTIONAL_TAGS -> field r tag = required_field r tag.
Proof using.
  unfold field, OPTIONAL_TAGS. rewrite !not_elem_of_cons. intros (? & ? & ? & _).
  by rewrite !bool_decide_eq_false_2 by done.
Qed.

Lemma optional_of_empty tag : tag ∈ KNOWN_TAGS -> (tag, []) ∈ ps -> tag ∈ OPTIONAL_TAGS.
Proof using Hps.
  intros Hk Hi. destruct Hps as [_ Hnd _ Hreq Hsg]. destruct (decide (tag ∈ OPTIONAL_TAGS)) as [|Ho]; [done|exfalso].
  assert (Ht : tag ∈ (if rs then REQUIRED_TAGS else REQUIRED_UNSIGNED_TAGS)).
  { destruct rs; [apply (elem_of_app REQUIRED_TAGS OPTIONAL_TAGS tag) in Hk as [|]; done|].
    assert (Hs : tag <> js "sg") by (intros ->; apply (Hsg eq_refl); by apply (list_elem_of_fmap_2 fst) in Hi).
    revert Hs Ho. clear -Hk. revert Hk. tag_cases tag; intros Hs Ho; try done; try (by apply (bool_decide_unpack _));
      by destruct Ho; apply (bool_decide_unpack _). }
  rewrite Forall_forall in Hreq. apply (Hreq tag Ht).
  apply tag_value_elem in Hi; [|done]. by rewrite <-field_required, record_field, Hi.
Qed.

Lemma known_pair_elem tag p : tag ∈ KNOWN_TAGS ->
  p ∈ known_pair (record_of ps) tag <-> fst p = tag /\ p ∈ ps.
Proof using Hps.
  intros Hk. destruct Hps as [_ Hnd _ Hreq Hsg]. unfold known_pair.
  rewrite record_field, record_parsedTags by done. destruct p as [t s]. cbn [fst].
  destruct (tag_value ps tag) as [w|] eqn:E; cbn [default].
  - apply tag_value_elem in E as Ei; [|done].
    rewrite (bool_decide_eq_true_2 (tag ∈ map fst ps)) by (by apply (list_elem_of_fmap_2 fst) in Ei).
    assert (Hc : negb (length w =? 0)%nat || (bool_decide (tag ∈ OPTIONAL_TAGS) && true) = true).
    { destruct w as [|u w]; [|done]. rewrite andb_true_r. by apply bool_decide_eq_true, optional_of_empty. }
    unfold id. rewrite Hc, list_elem_of_singleton. split; [by intros [= -> ->]|].
    intros [-> Hi]. apply tag_value_elem in Hi; [|done]. congruence.
  - cbn. apply tag_value_none in E as En. rewrite (bool_decide_eq_false_2 (tag ∈ map fst ps)) by done.
    rewrite andb_false_r. split; [by intros ?%not_elem_of_nil|]. intros [<- Hi].
    exfalso. apply En. by apply (list_elem_of_fmap_2 fst) in Hi.
Qed.

(** The pairs of the chosen known tags, with the unknown ones. *)
Lemma known_pairs_perm tags : NoDup tags -> Forall (fun tag => tag ∈ KNOWN_TAGS) tags ->
  flat_map (known_pair (record_of ps)) tags ++ unknownTags (record_of ps)
    ≡ₚ List.filter (fun p => is_unknown p || bool_decide (fst p ∈ tags)) ps.
Proof using Hps.
  intros Hnt Hk. pose proof (pp_nodup _ _ Hps) as Hnd. rewrite record_unknownTags.
  pose proof (NoDup_fmap_1 fst ps Hnd) as Hnp. rewrite Forall_forall in Hk.
  assert (Hin : forall p, p ∈ flat_map (known_pair (record_of ps)) tags <-> fst p ∈ tags /\ p ∈ ps).
  { intros p. rewrite list_elem_of_In, in_flat_map. split.
    - intros (tag & Ht%list_elem_of_In & Hp%list_elem_of_In).
      apply known_pair_elem in Hp as [<- Hp]; [done|by apply Hk].
    - intros [Ht Hp]. exists (fst p). rewrite <-!list_elem_of_In. split; [done|].
      apply known_pair_elem; [by apply Hk|done]. }
  assert (Hunk : forall p, p ∈ List.filter is_unknown ps <-> fst p ∉ KNOWN_TAGS /\ p ∈ ps).
  { intros p. rewrite list_elem_of_In, filter_In, <-list_elem_of_In. unfold is_unknown.
    rewrite negb_true_iff, bool_decide_eq_false. tauto. }
  apply NoDup_Permutation.
  - apply NoDup_app. split; [|split].
    + apply (NoDup_fmap_1 fst). apply (sublist_NoDup _ tags); [done|apply known_pair_tags].
    + intros p [Ht _]%Hin [Hu _]%Hunk. by apply Hu, Hk.
    + apply (sublist_NoDup _ ps); [done|apply sublist_filter_list].
  - apply (sublist_NoDup _ ps); [done|apply sublist_filter_list].
  - intros p. rewrite elem_of_app, Hin, Hunk.
    rewrite (list_elem_of_In (List.filter _ _) p), filter_In, <-(list_elem_of_In ps p).
    unfold is_unknown. rewrite orb_true_iff, negb_true_iff, bool_decide_eq_false, bool_decide_eq_true. tauto.
Qed.

Lemma canonical_pairs_perm :
  knownCanonicalPairs (record_of ps) ++ unknownTags (record_of ps) ≡ₚ List.filter is_signed ps.
Proof using Hps.
  rewrite canonical_pairs_known, known_pairs_perm;
    [|by apply (bool_decide_unpack _)|by apply (bool_decide_unpack _)].
  rewrite (List.filter_ext _ is_signed); [reflexivity|]. intros [t s]. unfold is_unknown, is_signed. cbn [fst].
  apply eq_true_iff_eq. rewrite orb_true_iff, !negb_true_iff, !bool_decide_eq_false, bool_decide_eq_true. split.
  - intros [Hn|Hi] ->; [apply Hn|revert Hi]; by apply (bool_decide_unpack _).
  - intros Hs. destruct (decide (t ∈ KNOWN_TAGS)) as [Hk|]; [right|by left].
    revert Hs. revert Hk. tag_cases t; intros Hs; first [done|by apply (bool_decide_unpack _)].
Qed.

Lemma serialize_pairs_perm : serialize_pairs (record_of ps) ≡ₚ ps.
Proof using Hps.
  assert (Hv : v (record_of ps) <> []).
  { intros E. pose proof (pp_version _ _ Hps) as Hver. rewrite E in Hver. revert Hver. by apply (bool_decide_unpack _). }
  rewrite serialize_pairs_known, known_pairs_perm by (done || by apply (bool_decide_unpack _)).
  rewrite (List.filter_ext _ (fun _ => true)); [by rewrite filter_true|].
  intros [t s]. unfold is_unknown. cbn [fst]. by case_bool_decide.
Qed.
End RecordPairs.

(** ** The canonical text *)

Lemma sort_pairs_unique l1 l2 : NoDup (map fst l1) -> l1 ≡ₚ l2 ->
  sort_by pair_before l1 = sort_by pair_before l2.
Proof.
  intros Hnd Hp. apply (StronglySorted_unique_strong (not_before pair_before)).
  - intros [t1 s1] [t2 s2] H1 H2. rewrite sort_by_perm in H1, H2. rewrite <-Hp in H2.
    unfold not_before, pair_before. cbn [fst]. intros L1 L2.
    destruct (decide (t1 = t2)) as [<-|Hne]; [|by rewrite (str_ltb_total t2 t1) in L2].
    apply tag_value_elem in H1, H2; [|done..]. congruence.
  - apply sort_by_sorted; [intros ??; apply str_ltb_asym|]. unfold not_before, pair_before.
    intros x y z. apply str_le_trans.
  - apply sort_by_sorted; [intros ??; apply str_ltb_asym|]. unfold not_before, pair_before.
    intros x y z. apply str_le_trans.
  - by rewrite !sort_by_perm.
Qed.

Lemma Forall_filter_list {A} (P : A -> Prop) f (l : list A) : Forall P l -> Forall P (List.filter f l).
Proof. induction 1; cbn; [done|]. case_match; [by constructor|done]. Qed.

Lemma parsed_nonempty rs ps : parsed_pairs rs ps -> List.filter is_signed ps <> [].
Proof.
  intros Hps E. pose proof (canonical_pairs_perm rs ps Hps) as Hp. rewrite E in Hp.
  apply Permutation_nil_r, app_nil in Hp as [Hk _]. pose proof (pp_version _ _ Hps) as Hv.
  unfold knownCanonicalPairs, required_pair in Hk. destruct (v (record_of ps)); [|done].
  revert Hv. by apply (bool_decide_unpack _).
Qed.

Lemma canonical_text rs ps : parsed_pairs rs ps ->
  canonical (record_of ps) = pairs_text (sort_by pair_before (List.filter is_signed ps)).
Proof.
  intros Hps. unfold canonical, canonicalJoin, pairs_text. do 2 f_equal. symmetry.
  apply sort_pairs_unique; [|symmetry; by apply (canonical_pairs_perm rs)].
  apply NoDup_map_filter, Hps.
Qed.

Lemma signed_valid rs ps : parsed_pairs rs ps ->
  sort_by pair_before (List.filter is_signed ps) <> []
  /\ Forall (fun p => valid_pair p = true) (sort_by pair_before (List.filter is_signed ps)).
Proof.
  intros Hps. split.
  - intros E. apply (parsed_nonempty rs ps Hps), Permutation_nil_r. by rewrite <-E, sort_by_perm.
  - rewrite sort_by_perm. apply Forall_filter_list, Hps.
Qed.

(** C32: the canonical text, which the record signature covers, determines the tags: two
    accepted records have the same canonical text exactly when they carry the same tag
    and value pairs, [sg] aside, in any order. *)
Theorem canonical_signed raw1 raw2 r1 r2 : parse raw1 = Ok r1 -> parse raw2 = Ok r2 ->
  canonical r1 = canonical r2 <-> signed_pairs raw1 ≡ₚ signed_pairs raw2.
Proof.
  unfold parse, signed_pairs. intros [-> H1]%parseTagPairs_inv [-> H2]%parseTagPairs_inv.
  rewrite !(canonical_text true) by done. split.
  - intros E. destruct (signed_valid _ _ H1) as [N1 V1], (signed_valid _ _ H2) as [N2 V2].
    apply (f_equal tag_pairs) in E. rewrite !tag_pairs_text in E by done.
    by rewrite <-(sort_by_perm pair_before), E, sort_by_perm.
  - intros Hp. f_equal. apply sort_pairs_unique; [|done].
    apply NoDup_map_filter, H1.
Qed.

Lemma parsed_pairs_perm rs ps ps' : ps ≡ₚ ps' -> parsed_pairs rs ps -> parsed_pairs rs ps'
  /\ forall tag, field (record_of ps') tag = field (record_of ps) tag.
Proof.
  intros Hp [Hv Hnd Hver Hreq Hsg].
  assert (Hnd' : NoDup (map fst ps')) by (by rewrite <-Hp).
  assert (Hf : forall tag, field (record_of ps') tag = field (record_of ps) tag).
  { intros tag. destruct (decide (tag ∈ KNOWN_TAGS)); [|by rewrite !field_unknown].
    rewrite !record_field by done. f_equal. apply option_eq. intros s.
    by rewrite !tag_value_elem, Hp by done. }
  split; [|done]. split; [by rewrite <-Hp|done| | |by rewrite <-Hp].
  - pose proof (Hf (js "v")) as E. change (v (record_of ps') = v (record_of ps)) in E. by rewrite E.
  - rewrite Forall_forall in *. intros tag Ht. specialize (Hreq tag Ht).
    assert (Ho : tag ∉ OPTIONAL_TAGS).
    { clear -Ht. assert (Hk : tag ∈ REQUIRED_TAGS) by (destruct rs; [done|by apply elem_of_app; left]).
      clear Ht. revert tag Hk. apply Forall_forall. by apply (bool_decide_unpack _). }
    by rewrite <-field_required, Hf, field_required.
Qed.

Lemma tag_value_filter f ps tag : NoDup (map fst ps) -> (forall s, f (tag, s) = true) ->
  tag_value (List.filter f ps) tag = tag_value ps tag.
Proof.
  intros Hnd Hf. apply option_eq. intros s. rewrite !tag_value_elem by (done || by apply NoDup_map_filter).
  rewrite !list_elem_of_In, filter_In, Hf. tauto.
Qed.

(** Without its signature a record is an unsigned one, in the order of its canonical text. *)
Lemma unsigned_pairs ps : parsed_pairs true ps ->
  let us := sort_by pair_before (List.filter is_signed ps) in
  parsed_pairs false us
  /\ (forall tag, tag <> js "sg" -> field (record_of us) tag = field (record_of ps) tag)
  /\ List.filter is_signed us = us.
Proof.
  intros Hps. pose proof (signed_valid _ _ Hps) as [_ Hv]. destruct Hps as [_ Hnd Hver Hreq _].
  set (us := sort_by pair_before (List.filter is_signed ps)) in *.
  pose proof (sort_by_perm pair_before (List.filter is_signed ps)) as Hus. fold us in Hus.
  assert (Hnu : NoDup (map fst us)) by (rewrite Hus; by apply NoDup_map_filter).
  assert (Hf : forall tag, tag <> js "sg" -> field (record_of us) tag = field (record_of ps) tag).
  { intros tag Ht. destruct (decide (tag ∈ KNOWN_TAGS)); [|by rewrite !field_unknown].
    rewrite !record_field by done. f_equal.
    rewrite <-(tag_value_filter is_signed ps) by (done || (intros s; unfold is_signed; by rewrite bool_decide_eq_false_2)).
    apply option_eq. intros s. by rewrite !tag_value_elem, Hus by (done || by apply NoDup_map_filter). }
  assert (Hs : Forall (fun p => is_signed p = true) us).
  { rewrite Hus. apply Forall_forall. intros p. rewrite list_elem_of_In, filter_In. by intros []. }
  split; [|split; [done|]].
  - split; [done|done| | |].
    + pose proof (Hf (js "v") ltac:(done)) as E. change (v (record_of us) = v (record_of ps)) in E. by rewrite E.
    + rewrite Forall_forall in *. intros tag Ht.
      assert (Hq : tag ∉ OPTIONAL_TAGS /\ tag <> js "sg").
      { revert tag Ht. apply Forall_forall. by apply (bool_decide_unpack _). }
      rewrite <-field_required, Hf, field_required by apply Hq. apply Hreq, elem_of_app. by left.
    + intros _ Hi. apply list_elem_of_fmap in Hi as (p & Ep & Hi). rewrite Forall_forall in Hs.
      specialize (Hs p Hi). unfold is_signed in Hs. by rewrite <-Ep, bool_decide_eq_true_2 in Hs.
  - clear -Hs. induction Hs as [|p us Hp Hs IH]; [done|]. cbn. by rewrite Hp, IH.
Qed.

(** C33: serializing an accepted record gives a text that is accepted again, with the same
    tag and value pairs, the same fields, the same unknown tags in their order, and the
    same canonical text. *)
Theorem parse_serialize raw r : parse raw = Ok r ->
  exists r', parse (serialize r) = Ok r'
    /\ tag_pairs (serialize r) ≡ₚ tag_pairs raw
    /\ (forall tag, field r' tag = field r tag)
    /\ unknownTags r' ≡ₚ unknownTags r
    /\ canonical r' = canonical r.
Proof.
  unfold parse. intros [-> H]%parseTagPairs_inv.
  pose proof (serialize_pairs_perm _ _ H) as Hp. symmetry in Hp.
  destruct (parsed_pairs_perm _ _ _ Hp H) as [H' Hf].
  exists (record_of (serialize_pairs (record_of (tag_pairs raw)))).
  change (serialize ?r) with (pairs_text (serialize_pairs r)). split; [|split; [|split; [done|split]]].
  - apply parseTagPairs_text; [done|]. intros _. by do 2 eexists.
  - by rewrite tag_pairs_text by (done || apply H').
  - by rewrite !record_unknownTags, <-Hp.
  - rewrite !(canonical_text true) by done. f_equal. apply sort_pairs_unique; [apply NoDup_map_filter, H'|by rewrite <-Hp].
Qed.

(** The canonical text of an accepted record is itself an accepted unsigned record in
    canonical form: it parses back to the record's tags without its signature. *)
Theorem parseUnsignedCanonical_canonical `{URLApi} `{Unicode} raw r : parse raw = Ok r ->
  exists r', parseUnsignedCanonical (canonical r) None = Ok r'
    /\ tag_pairs (canonical r) ≡ₚ signed_pairs raw /\ canonical r' = canonical r
    /\ (forall tag, tag <> js "sg" -> field r' tag = field r tag) /\ sg r' = [].
Proof.
  unfold parse, parseUnsignedCanonical, signed_pairs. intros [-> Hp]%parseTagPairs_inv.
  destruct (unsigned_pairs _ Hp) as (Hu & Hf & Hs). destruct (signed_valid _ _ Hp) as [Hn Hv].
  assert (Hc : canonical (record_of (sort_by pair_before (List.filter is_signed (tag_pairs raw))))
    = canonical (record_of (tag_pairs raw))).
  { rewrite (canonical_text false), (canonical_text true), Hs by done. f_equal.
    apply sort_pairs_unique; [apply Hu|apply sort_by_perm]. }
  rewrite (canonical_text true) by done. rewrite parseTagPairs_text, tag_pairs_text by done.
  cbn [mbind res_bind]. eexists.
  rewrite Hc, (canonical_text true), (bool_decide_eq_true_2 (_ = _)) by done.
  split; [reflexivity|]. split; [apply sort_by_perm|].
  split; [by rewrite Hc, (canonical_text true)|]. split; [done|]. change (sg ?r) with (field r (js "sg")).
  rewrite record_field by (apply Hu || by apply (bool_decide_unpack _)).
  by rewrite (proj2 (tag_value_none _ _) (pp_unsigned _ _ Hu eq_refl)).
Qed.

(** ** Validation *)

(** A parsed https URL with a host and no credentials. *)
Definition clean_https `{URLApi} (u : URL) : Prop :=
  url_protocol u = js "https:" /\ url_hostname u <> [] /\ url_username u = [] /\ url_password u = [].

Lemma validateHttpsUrl_clean `{URLApi} value u : validateHttpsUrl value = Ok u ->
  new_URL value = Some u /\ clean_https u.
Proof.
  unfold validateHttpsUrl, clean_https. intros Hv. res_inv. bool_inv.
  destruct (url_hostname u); [done|]. destruct (url_username u); [|done]. by destruct (url_password u).
Qed.

Lemma equal_or_beneath_spec a b : equal_or_beneath a b = true <-> a = b \/ exists label, a = label ++ 46 :: b.
Proof.
  unfold equal_or_beneath, endsWith. rewrite orb_true_iff, bool_decide_eq_true, startsWith_spec.
  apply or_iff_compat_l. split; intros [t E].
  - exists (rev t). apply (f_equal (@rev Z)) in E. by rewrite rev_app_distr, !rev_involutive in E.
  - exists (rev t). by rewrite E, rev_app_distr.
Qed.

(** A record that validation accepts is bound to its two domains: [gi] is a
    normalized domain name, [ek] is an https URL without credentials whose host equals
    [gi] or lies beneath it, [ku] one whose host is the agent's own name, and [su] is an
    https URL without credentials. *)
Theorem validate_hosts `{URLApi} `{Unicode} r : validate r = Ok tt ->
  v r ∈ SUPPORTED_DNSID_VERSIONS
  /\ normalizeFQDN (gi r) false = Ok (gi r)
  /\ (exists agent u, normalizeFQDN (agentFQDN r) true = Ok agent
        /\ new_URL (ku r) = Some u /\ clean_https u /\ normalizeFQDN (url_hostname u) false = Ok agent)
  /\ (exists host u, new_URL (ek r) = Some u /\ clean_https u
        /\ normalizeFQDN (url_hostname u) false = Ok host
        /\ (host = gi r \/ exists label, host = label ++ 46 :: gi r))
  /\ (exists u, new_URL (su r) = Some u /\ clean_https u).
Proof.
  unfold validate, validateEkHost, validateHttpsUrlHost. intros Hval. res_inv. bool_inv. subst.
  repeat match goal with Hu : validateHttpsUrl _ = Ok _ |- _ => apply validateHttpsUrl_clean in Hu as [??] end.
  match goal with He : equal_or_beneath _ _ = true |- _ => apply equal_or_beneath_spec in He end.
  split; [done|]. split; [congruence|]. split; [by do 2 eexists|]. split; [|by eexists].
  do 2 eexists. do 3 (split; [done|]). congruence.
Qed.

(** ** Names and base64url texts as tag values *)

Lemma base64url_value s : is_tag_value (toBase64Url s) = true.
Proof.
  pose proof (toBase64Url_alphabet s) as H. unfold is_tag_value. rewrite forallb_forall in *.
  intros u Hu. specialize (H u Hu). revert H. unfold is_b64url, is_value_unit, is_alnum, is_alpha, is_upper, is_lower, is_digit.
  lia.
Qed.

Section NameValues.
Context `{Url : URLApi} `{Uni : Unicode}.

Lemma ldh_value s : forallb is_ldh s = true -> is_tag_value s = true.
Proof.
  unfold is_tag_value. rewrite !forallb_forall. intros H u Hu. specialize (H u Hu). revert H.
  unfold is_ldh, is_value_unit, is_lower, is_digit. lia.
Qed.

Lemma join_value labels : Forall (fun l => is_tag_value l = true) labels -> is_tag_value (join [46] labels) = true.
Proof.
  induction 1 as [|l labels Hl _ IH]; [done|]. destruct labels as [|l' labels]; [done|].
  change (join [46] (l :: l' :: labels)) with (l ++ [46] ++ join [46] (l' :: labels)).
  unfold is_tag_value in *. rewrite !forallb_app, Hl, IH. done.
Qed.

(** A normalized name is a tag value. *)
Lemma name_value name agent n : normalizeFQDN name agent = Ok n -> is_tag_value n = true /\ n <> [].
Proof.
  intros (Hl & _)%normalizeFQDN_inv. split.
  - rewrite <-(join_split 46 n). apply join_value. eapply Forall_impl; [apply Hl|]. intros l (_ & H & _). by apply ldh_value.
  - intros ->. cbn in Hl. by apply Forall_cons in Hl as [[? _] _].
Qed.
End NameValues.

(** One token of [fl] added to the set of flags. *)
Definition add_flag (flags : list jsstr) (token : jsstr) : list jsstr :=
  if (length (trim token) =? 0)%nat || bool_decide (trim token ∈ flags) then flags else flags ++ [trim token].

Lemma add_flags_spec tokens flags : NoDup flags -> NoDup (foldl add_flag flags tokens)
  /\ forall flag, flag ∈ foldl add_flag flags tokens
       <-> flag ∈ flags \/ (flag <> [] /\ exists token, token ∈ tokens /\ flag = trim token).
Proof.
  revert flags; induction tokens as [|token tokens IH]; intros flags Hnd; cbn [foldl].
  { split; [done|]. intros flag. split; [by left|]. intros [|(_ & ? & ?%not_elem_of_nil & _)]; done. }
  setoid_rewrite elem_of_cons.
  unfold add_flag at 2 4. destruct (orb _ _) eqn:E.
  - destruct (IH flags Hnd) as [Hn He]. split; [done|]. intros flag. rewrite He. split; [naive_solver|].
    intros [|(Hne & t & [ -> |Ht] & ->)]; [by left| |by right; eauto].
    apply orb_true_iff in E as [E|E%bool_decide_eq_true]; [|by left].
    by apply Nat.eqb_eq, length_zero_iff_nil in E.
  - apply orb_false_iff in E as [El Em%bool_decide_eq_false]. apply Nat.eqb_neq in El.
    destruct (IH (flags ++ [trim token])) as [Hn He].
    { apply NoDup_app. split; [done|]. split; [by intros flag Hf ->%list_elem_of_singleton|apply NoDup_singleton]. }
    split; [done|]. intros flag. rewrite He, elem_of_app, list_elem_of_singleton.
    split; [|naive_solver]. intros [[| ->]|]; [by left| |naive_solver].
    right. split; [by intros E; rewrite E in El|eauto].
Qed.

(** [policyFlags] lists the distinct non-empty tokens of [fl]. *)
Lemma policyFlags_spec r : NoDup (policyFlags r)
  /\ forall flag, flag ∈ policyFlags r
       <-> flag <> [] /\ exists token, token ∈ split_on 44 (default [] (fl r)) /\ flag = trim token.
Proof.
  destruct (add_flags_spec (split_on 44 (default [] (fl r))) [] NoDup_nil_2) as [Hn He].
  assert (E : policyFlags r = foldl add_flag [] (split_on 44 (default [] (fl r))))
    by (unfold policyFlags; destruct (fl r) as [[|u s]|]; done).
  rewrite E. split; [done|]. intros flag. rewrite He. split; [intros [?%not_elem_of_nil|]; done|by right].
Qed.

(** ** Witnesses *)

Definition example_raw : jsstr :=
  js "v=dnsid-draft-01; gi=example.com;ek=https://keys.example.com/ek;ku=https://bot.example.com/ku;lr=c2sp-tlog:log;su=https://example.com/su;fl=a,b;zz=1;sg=c2ln".
Definition example_permuted : jsstr :=
  js "v=dnsid-draft-01;zz=1;fl=a,b;sg=b3RoZXI;su=https://example.com/su;gi=example.com;ku=https://bot.example.com/ku;ek=https://keys.example.com/ek;lr=c2sp-tlog:log;".
Definition example_record : DnsIdTxtRecord := record_of (tag_pairs example_raw).
Definition permuted_record : DnsIdTxtRecord := record_of (tag_pairs example_permuted).
Definition signed_agent (r : DnsIdTxtRecord) : DnsIdTxtRecord := set_agentFQDN r (js "bot.example.com").

Lemma canonical_signed_witness :
  canonical example_record = canonical permuted_record
  <-> signed_pairs example_raw ≡ₚ signed_pairs example_permuted.
Proof. apply (canonical_signed example_raw example_permuted); vm_compute; reflexivity. Defined.

Lemma parse_serialize_witness : exists r', parse (serialize example_record) = Ok r'
  /\ tag_pairs (serialize example_record) ≡ₚ tag_pairs example_raw
  /\ (forall tag, field r' tag = field example_record tag)
  /\ unknownTags r' ≡ₚ unknownTags example_record
  /\ canonical r' = canonical example_record.
Proof. apply (parse_serialize example_raw); vm_compute; reflexivity. Defined.

Lemma parseUnsignedCanonical_canonical_witness :
  exists r', @parseUnsignedCanonical SimpleUrl AsciiUnicode (canonical example_record) None = Ok r'
    /\ tag_pairs (canonical example_record) ≡ₚ signed_pairs example_raw
    /\ canonical r' = canonical example_record
    /\ (forall tag, tag <> js "sg" -> field r' tag = field example_record tag) /\ sg r' = [].
Proof. apply (@parseUnsignedCanonical_canonical SimpleUrl AsciiUnicode example_raw); vm_compute; reflexivity. Defined.

Lemma validate_hosts_witness :
  v (signed_agent example_record) ∈ SUPPORTED_DNSID_VERSIONS
  /\ @normalizeFQDN SimpleUrl AsciiUnicode (gi (signed_agent example_record)) false = Ok (gi (signed_agent example_record)).
Proof.
  destruct (@validate_hosts SimpleUrl AsciiUnicode (signed_agent example_record)) as (Hv & Hgi & _);
    [vm_compute; reflexivity|]. split; [exact Hv|exact Hgi].
Defined.

(** The duplicate tag, the missing signature and the empty element are refused. *)
Example parse_errors :
  parse (js "v=dnsid-draft-01;v=dnsid-draft-01") = Throw (EParse "duplicate TXT tag")
  /\ parse (js "v=dnsid-draft-01;;gi=a") = Throw (EParse "empty TXT tag element")
  /\ parse (js "gi=a;v=dnsid-draft-01") = Throw (EParse "v= tag must be first")
  /\ parse (js "v=dnsid-draft-01;gi=example.com") = Throw (EParse "missing or empty required TXT tag").
Proof. by vm_compute. Qed.
