(* ===== verification/Jwk.v ===== *)
(** JSON Web Keys: [protocol/src/jwks.ts], signature verification of
    [protocol/src/utils.ts] and the key helpers of [protocol/src/verified-domain.ts]. *)

From S2P Require Import Prelude JsString Base64 Sha256 Json.

(** ** Keys

    A [DnsIdJWK] is a JSON object: its own members. *)
Notation jwk := (list (jsstr * json)).

Definition get (key : jwk) (name : string) : json := get_member key (js name).

(** [typeof v === 'string'], truthiness, and [===]; arrays and objects that come from
    different places are never identical. *)
Definition as_str (v : json) : option jsstr := match v with JString s => Some s | _ => None end.
(** A string that may be absent, as a value. *)
Definition json_of (o : option jsstr) : json := match o with Some s => JString s | None => JUndefined end.
Definition truthy (v : json) : bool :=
  match v with
  | JNull | JUndefined => false
  | JBool b => b
  | JNumber (NInt z) => negb (z =? 0)
  | JNumber NNegZero | JNumber NNaN => false
  | JNumber _ => true
  | JString s => negb (length s =? 0)%nat
  | JArray _ | JObject _ => true
  end.
Definition number_value (n : number) : number := match n with NNegZero => NInt 0 | n => n end.
Definition strict_eq (a b : json) : bool :=
  match a, b with
  | JNull, JNull | JUndefined, JUndefined => true
  | JBool a, JBool b => Bool.eqb a b
  | JNumber NNaN, _ => false
  | JNumber a, JNumber b => bool_decide (number_value a = number_value b)
  | JString a, JString b => bool_decide (a = b)
  | _, _ => false
  end.
Definition is_lit (v : json) (s : string) : bool :=
  match v with JString t => bool_decide (t = js s) | _ => false end.
Definition is_undef (v : json) : bool := match v with JUndefined => true | _ => false end.
Definition nonempty_str (v : json) : bool :=
  match v with JString s => negb (length s =? 0)%nat | _ => false end.

(** ** The libraries

    [jose] computes RFC 7638 thumbprints and imports keys; WebCrypto verifies. *)

(** The parameters handed to [crypto.subtle.verify]. *)
Inductive verify_algorithm :=
  | ECDSA (hash : string)
  | Ed25519Alg
  | RSASSA_PKCS1 (hash : string)
  | RSA_PSS (saltLength : Z).

Class JwkApi := {
  CryptoKey : Type;
  calculateJwkThumbprint : jwk -> res jsstr;
  importJWK : jwk -> jsstr -> res CryptoKey;
  subtle_verify : verify_algorithm -> CryptoKey -> bytes -> bytes -> res bool
}.

(** ** Algorithms *)

Definition SIGNING_ALGS : list jsstr :=
  map js ["EdDSA"; "ES256"; "ES384"; "ES512"; "RS256"; "RS384"; "RS512"; "PS256"; "PS384"; "PS512"]%string.
Definition DRAFT01_SIGNING_ALGS : list jsstr := map js ["EdDSA"; "ES256"]%string.

Definition isDraft01SigningAlg (alg : jsstr) : bool := bool_decide (alg ∈ DRAFT01_SIGNING_ALGS).

Definition derivedSignatureAlg (key : jwk) : res jsstr :=
  let kty := get key "kty" in
  let crv := get key "crv" in
  if is_lit kty "OKP" && is_lit crv "Ed25519" then Ok (js "EdDSA")
  else if is_lit kty "EC" && is_lit crv "P-256" then Ok (js "ES256")
  else if is_lit kty "EC" && is_lit crv "P-384" then Ok (js "ES384")
  else if is_lit kty "EC" && is_lit crv "P-521" then Ok (js "ES512")
  else Throw (EValidation "unsupported JWK signature key type").

Definition isAlgConsistentWithKey (alg : jsstr) (key : jwk) : bool :=
  let kty := get key "kty" in
  let crv := get key "crv" in
  let alg_is s := bool_decide (alg = js s) in
  if is_lit kty "OKP" then is_lit crv "Ed25519" && alg_is "EdDSA"
  else if is_lit kty "EC" then
    (is_lit crv "P-256" && alg_is "ES256") || (is_lit crv "P-384" && alg_is "ES384")
    || (is_lit crv "P-521" && alg_is "ES512")
  else if is_lit kty "RSA" then
    bool_decide (alg ∈ map js ["RS256"; "RS384"; "RS512"; "PS256"; "PS384"; "PS512"]%string)
  else false.

Definition jwkSignatureAlg (key : jwk) : res jsstr :=
  throw_if (negb (is_undef (get key "use")) && negb (is_lit (get key "use") "sig"))
    (EValidation "JWK use is not valid for signing");;
  if negb (is_undef (get key "alg")) then
    alg ← of_option (match get key "alg" with
                     | JString a => if bool_decide (a ∈ SIGNING_ALGS) then Some a else None
                     | _ => None
                     end) (EValidation "unsupported JWK alg");
    throw_if (negb (isAlgConsistentWithKey alg key)) (EValidation "JWK alg is inconsistent with kty/crv");;
    Ok alg
  else derivedSignatureAlg key.

Definition isSigningUse (key : jwk) : bool := is_undef (get key "use") || is_lit (get key "use") "sig".

Definition isDraft01RecordSigningCandidate (key : jwk) : bool :=
  if negb (isSigningUse key) || negb (truthy (get key "alg")) then false
  else match jwkSignatureAlg key with
       | Ok alg => isDraft01SigningAlg alg
       | Throw _ => false
       end.

Definition assertPublicKeyMaterial (key : jwk) : res unit :=
  let kty := get key "kty" in
  let has name := nonempty_str (get key name) in
  if is_lit kty "EC" then
    throw_if (negb (has "x"%string) || negb (has "y"%string)) (EValidation "EC JWK missing public coordinates")
  else if is_lit kty "OKP" then
    throw_if (negb (has "x"%string)) (EValidation "OKP JWK missing public key")
  else if is_lit kty "RSA" then
    throw_if (negb (has "n"%string) || negb (has "e"%string)) (EValidation "RSA JWK missing public parameters")
  else Ok tt.

(** ** The key set *)

Record JWKS := mkJWKS { keys : list jwk }.

Definition signingKeys (s : JWKS) : res (list jwk) :=
  let ks := List.filter (fun k => isSigningUse k && is_ok (jwkSignatureAlg k)) (keys s) in
  throw_if (length ks =? 0)%nat (EValidation "JWKS contains no signing keys");;
  Ok ks.

Definition keyById (s : JWKS) (kid : jsstr) : option jwk :=
  List.find (fun k => strict_eq (get k "kid") (JString kid)) (keys s).

Definition draft01RecordSigningKeyById (s : JWKS) (kid : jsstr) : option jwk :=
  List.find (fun k => strict_eq (get k "kid") (JString kid) && isDraft01RecordSigningCandidate k) (keys s).

(** [new Set(kids).size !== kids.length] *)
Fixpoint has_duplicate (l : list json) : bool :=
  match l with
  | [] => false
  | v :: l => existsb (strict_eq v) l || has_duplicate l
  end.

Definition assertUniqueKids (s : JWKS) : res unit :=
  let kids := List.filter truthy (map (fun k => get k "kid") (keys s)) in
  throw_if (has_duplicate kids) (EValidation "JWKS contains duplicate kid values").

Definition validate (s : JWKS) : res unit :=
  for_each (fun _ key =>
    if negb (is_undef (get key "alg")) then jwkSignatureAlg key;; Ok tt else Ok tt) (keys s) tt;;
  signing ← signingKeys s;
  throw_if (negb (existsb (fun k => truthy (get k "kid")) signing))
    (EValidation "no signing key in JWKS has a kid field");;
  assertUniqueKids s.

Definition currentDraft01SigningKey (s : JWKS) : res jwk :=
  match List.filter isSigningUse (keys s) with
  | [key] =>
      throw_if (negb (truthy (get key "kid"))) (EValidation "draft-01 key missing kid");;
      throw_if (negb (truthy (get key "alg"))) (EValidation "draft-01 key missing alg");;
      alg ← jwkSignatureAlg key;
      throw_if (negb (bool_decide (alg ∈ DRAFT01_SIGNING_ALGS))) (EValidation "unsupported draft-01 key alg");;
      Ok key
  | _ => Throw (EValidation "draft-01 JWKS must contain exactly one current signing key")
  end.
Definition currentRecordSigningKey (s : JWKS) : res jwk := currentDraft01SigningKey s.
Definition currentOperationalSigningKey (s : JWKS) : res jwk := currentDraft01SigningKey s.

Definition validateRecordSigning (s : JWKS) : res unit :=
  assertUniqueKids s;; currentRecordSigningKey s;; Ok tt.
Definition validateOperational (s : JWKS) : res unit :=
  assertUniqueKids s;; currentOperationalSigningKey s;; Ok tt.

Definition toJSON (s : JWKS) : json := JObject [(js "keys", JArray (map JObject (keys s)))].

Section JwkLibraries.
Context `{Jwk : JwkApi}.

Definition jwkThumbprint (key : jwk) : res jsstr := calculateJwkThumbprint key.

Definition assertImportablePublicKey (key : jwk) : res unit :=
  assertPublicKeyMaterial key;;
  catch (alg ← jwkSignatureAlg key; importJWK key alg;; Ok tt)
    (fun _ => Throw (EValidation "record-signing JWK is not importable")).

Definition validateRecordSigningKeyset (s : JWKS) : res unit :=
  assertUniqueKids s;;
  key ← currentRecordSigningKey s;
  assertImportablePublicKey key.

Definition safeThumbprint (key : jwk) : res jsstr :=
  catch (jwkThumbprint key)
    (fun _ => Throw (EValidation "malformed key in JWK Set: unable to compute RFC 7638 thumbprint")).

Definition keySetsShareKeyMaterial (a b : JWKS) : res bool :=
  if (length (keys a) =? 0)%nat || (length (keys b) =? 0)%nat then Ok false
  else
    thumbprintsA ← map_res safeThumbprint (keys a);
    thumbprintsB ← map_res safeThumbprint (keys b);
    Ok (existsb (fun t => bool_decide (t ∈ thumbprintsA)) thumbprintsB).

(** ** Verification *)

Definition getVerifyAlgorithm (alg : jsstr) : res verify_algorithm :=
  let alg_is s := bool_decide (alg = js s) in
  if alg_is "ES256"%string then Ok (ECDSA "SHA-256")
  else if alg_is "ES384"%string then Ok (ECDSA "SHA-384")
  else if alg_is "ES512"%string then Ok (ECDSA "SHA-512")
  else if alg_is "EdDSA"%string then Ok Ed25519Alg
  else if alg_is "RS256"%string then Ok (RSASSA_PKCS1 "SHA-256")
  else if alg_is "RS384"%string then Ok (RSASSA_PKCS1 "SHA-384")
  else if alg_is "RS512"%string then Ok (RSASSA_PKCS1 "SHA-512")
  else if alg_is "PS256"%string then Ok (RSA_PSS 32)
  else if alg_is "PS384"%string then Ok (RSA_PSS 48)
  else if alg_is "PS512"%string then Ok (RSA_PSS 64)
  else Throw (EArgument "unsupported algorithm for verification").

Definition ED25519_SMALL_ORDER : list jsstr :=
  map js ["0100000000000000000000000000000000000000000000000000000000000000";
          "0100000000000000000000000000000000000000000000000000000000000080";
          "ecffffffffffffffffffffffffffffffffffffffffffffffffffffffffffff7f";
          "ecffffffffffffffffffffffffffffffffffffffffffffffffffffffffffffff";
          "0000000000000000000000000000000000000000000000000000000000000000";
          "0000000000000000000000000000000000000000000000000000000000000080";
          "26e8958fc2b227b045c3f489f2ef98f0d5dfac05d3c63339b13802886d53fc05";
          "26e8958fc2b227b045c3f489f2ef98f0d5dfac05d3c63339b13802886d53fc85";
          "c7176a703d4dd84fba3c0b760d10670f2a2053fa2c39ccc64ec7fd7792ac037a";
          "c7176a703d4dd84fba3c0b760d10670f2a2053fa2c39ccc64ec7fd7792ac03fa"]%string.

Definition decode_member (v : json) : res bytes :=
  match v with JString s => fromBase64Url s | _ => Ok [] end.

(** [y >= p] for the little-endian [y] of a 32-byte point encoding. *)
Definition yAtLeastP (x : bytes) : bool :=
  (Z.land (b2z (nth 31 x x00)) 127 =? 127)
  && forallb (fun b => bool_decide (b = xff)) (slice x 1 31)
  && (237 <=? b2z (nth 0 x x00)).

Definition publicKeyEncodingValid (key : jwk) : res bool :=
  if is_lit (get key "kty") "EC" then
    x ← decode_member (get key "x");
    if zlen x =? 32 then y ← decode_member (get key "y"); Ok (zlen y =? 32) else Ok false
  else if negb (is_lit (get key "kty") "OKP") then Ok true
  else
    x ← decode_member (get key "x");
    if negb (zlen x =? 32) then Ok false
    else Ok (negb (yAtLeastP x) && negb (bool_decide (to_hex x ∈ ED25519_SMALL_ORDER))).

(** The body of the [try]; any exception makes the result false. *)
Definition verifyWithKey (message signature : bytes) (key : jwk) (expectedAlg : option jsstr) : bool :=
  match
    alg ← jwkSignatureAlg key;
    if match expectedAlg with Some e => negb (bool_decide (alg = e)) | None => false end then Ok false
    else
      valid ← publicKeyEncodingValid key;
      if negb valid then Ok false
      else
        cryptoKey ← importJWK key alg;
        algorithm ← getVerifyAlgorithm alg;
        subtle_verify algorithm cryptoKey signature message
  with
  | Ok b => b
  | Throw _ => false
  end.

End JwkLibraries.

(** ** Key material: [verified-domain.ts] *)

Definition lifecycleError (message : string) (category : LifecycleErrorCategory) : exn :=
  newVerificationError message LogError (Some category) false.

Section Thumbprint.
Context `{H256 : Hash256}.

(** [JSON.stringify] of an object of strings. *)
Definition stringify_material (material : list (string * jsstr)) : jsstr :=
  [123] ++ join [44] (map (fun kv => stringify_string (js (fst kv)) ++ [58] ++ stringify_string (snd kv)) material)
  ++ [125].

(** The RFC 7638 members of a key. *)
Definition material_names (kty : json) : option (list string) :=
  if is_lit kty "EC" then Some ["crv"; "kty"; "x"; "y"]%string
  else if is_lit kty "OKP" then Some ["crv"; "kty"; "x"]%string
  else if is_lit kty "RSA" then Some ["e"; "kty"; "n"]%string
  else None.

Definition key_material (key : jwk) (category : LifecycleErrorCategory) : res (list (string * jsstr)) :=
  names ← of_option (material_names (get key "kty"))
            (lifecycleError "unsupported lifecycle JWK type" category);
  map_res (fun name =>
    value ← of_option (as_str (get key name))
              (lifecycleError "lifecycle JWK is missing public key material" category);
    throw_if (length value =? 0)%nat
      (lifecycleError "lifecycle JWK is missing public key material" category);;
    Ok (name, value)) names.

Definition synchronousJwkThumbprint (key : jwk) (category : LifecycleErrorCategory) : res jsstr :=
  material ← key_material key category;
  Ok (toBase64Url (digest (utf8_encode (stringify_material material)))).

End Thumbprint.

Definition sameJwkMaterial (a b : jwk) : bool :=
  let same name := strict_eq (get a name) (get b name) in
  if negb (same "kty"%string) then false
  else
    let kty := get a "kty" in
    if is_lit kty "EC" then same "crv"%string && same "x"%string && same "y"%string
    else if is_lit kty "OKP" then same "crv"%string && same "x"%string
    else if is_lit kty "RSA" then same "n"%string && same "e"%string
    else if is_lit kty "oct" then
      match get a "k" with JString _ => same "k"%string | _ => false end
    else false.
