(* ===== verification/EventCodec.v ===== *)
(** Lifecycle events and their log envelope: [protocol/src/log-events.ts] and
    [log-c2sp-tlog/src/event-codec.ts]. *)

From S2P Require Import Prelude JsString Base64 Sha256 Merkle Url Utils Json Jwk.

(** ** Events *)

(** A [Date]: its time value in milliseconds, or an invalid date. *)
Notation date := (option Z) (only parsing).

Record IssuanceKeySlot := mkSlot { slot_jwk : jwk; slot_thumbprint : jsstr; slot_kid : option jsstr; slot_alg : jsstr }.

(** The fields of [IssuanceEvent]; every optional one may be absent. *)
Record IssuanceFields := mkIssuance {
  i_governanceId : jsstr;
  i_initialOperationalKid : option jsstr;
  i_initialOperationalAlg : option jsstr;
  i_initialOperationalPublicKey : option jwk;
  i_initialOperationalThumbprint : option jsstr;
  i_initialEntityKid : option jsstr;
  i_initialEntityAlg : option jsstr;
  i_initialEntityPublicKey : option jwk;
  i_initialEntityThumbprint : option jsstr;
  i_entityKey : option IssuanceKeySlot;
  i_operationalKey : option IssuanceKeySlot;
  i_entitySig : option jsstr;
  i_operationalSig : option jsstr;
  i_kid : option jsstr;
  i_publicKey : option jwk;
  i_thumbprint : option jsstr
}.

Record RotationFields := mkRotation {
  r_previousOperationalKid : jsstr;
  r_previousOperationalThumbprint : jsstr;
  r_newOperationalKid : jsstr;
  r_newOperationalAlg : jsstr;
  r_newOperationalThumbprint : jsstr;
  r_newOperationalPublicKey : jwk
}.

Inductive event_payload :=
  | ISSUANCE (fields : IssuanceFields)
  | KEY_ROTATION (fields : RotationFields)
  | REVOCATION (reason : jsstr)
  | RETIREMENT
  | MIGRATION (previousLog newLog finalEntryRef : jsstr)
  | DELEGATION (delegatee scope : jsstr) (expiry : date).

(** [ev_chain] holds the chain members that the codec spreads into an event. *)
Record LogEvent := mkEvent {
  ev_domain : jsstr;
  ev_timestamp : date;
  ev_signingKid : option jsstr;
  ev_sig : option jsstr;
  ev_operationalCountersig : option jsstr;
  ev_newOperationalProof : option jsstr;
  ev_chain : list (jsstr * json);
  ev_payload : event_payload
}.

Definition type_name (p : event_payload) : jsstr :=
  match p with
  | ISSUANCE _ => js "ISSUANCE" | KEY_ROTATION _ => js "KEY_ROTATION"
  | REVOCATION _ => js "REVOCATION" | RETIREMENT => js "RETIREMENT"
  | MIGRATION _ _ _ => js "MIGRATION" | DELEGATION _ _ _ => js "DELEGATION"
  end.

Definition SUPPORTED : list jsstr :=
  map js ["ISSUANCE"; "KEY_ROTATION"; "REVOCATION"; "RETIREMENT"; "MIGRATION"; "DELEGATION"]%string.

Definition REVOCATION_REASONS : list jsstr :=
  map js ["keyCompromise"; "policyViolation"; "superseded"; "cessationOfOperation"]%string.

(** The binding expected of, or stamped into, an envelope. *)
Record C2spEventContext := mkContext {
  cx_scope : option jsstr;
  cx_logOrigin : option jsstr;
  cx_streamId : option jsstr;
  cx_lr : option jsstr;
  cx_seq : option Z;
  cx_prevEventId : option jsstr;
  cx_prevStateHash : option jsstr
}.

Record C2spSignatureValue := mkSigValue { sv_kid : jsstr; sv_sig : jsstr }.

(** The signatures of an envelope by role. *)
Record C2spSignatures := mkSigs {
  s_ae : option C2spSignatureValue;
  s_op : option C2spSignatureValue;
  s_prev_op : option C2spSignatureValue;
  s_new_op : option C2spSignatureValue
}.

Definition err (message : string) : exn := C2spTlogParseError message.

(** A present, non-empty string. *)
Definition filled (o : option jsstr) : bool :=
  match o with Some s => negb (length s =? 0)%nat | None => false end.

Definition MAX_ENTRY_BYTES : Z := 65535.
Definition assertEntrySize (bs : bytes) : res unit :=
  throw_if ((zlen bs =? 0) || (MAX_ENTRY_BYTES <? zlen bs))
    (err "C2SP entry must be between 1 and 65535 bytes").

(** ** Scalars *)

Definition epochSeconds (d : date) : res Z :=
  match d with
  | Some millis =>
      throw_if (negb (isSafeInteger millis) || (millis <? 0) || negb (millis mod 1000 =? 0))
        (err "must have whole-second precision");;
      let seconds := millis / 1000 in
      throw_if (negb (isSafeInteger seconds)) (err "outside safe integer range");;
      Ok seconds
  | None => Throw (err "must have whole-second precision")
  end.

(** The range of time values of a [Date]. *)
Definition MAX_TIME : Z := 8640000000000000.

Definition dateFromSeconds (seconds : Z) : res date :=
  let millis := seconds * 1000 in
  throw_if (negb (isSafeInteger millis) || (MAX_TIME <? millis) || (millis <? - MAX_TIME))
    (err "outside Date range");;
  Ok (Some millis).

Definition asString (value : json) : res jsstr :=
  match value with
  | JString s => throw_if (length s =? 0)%nat (err "missing string");; Ok s
  | _ => Throw (err "missing string")
  end.

(** Negative zero is a safe integer and not negative. *)
Definition asSafeInt (value : json) : res Z :=
  match value with
  | JNumber (NInt z) => throw_if (negb (isSafeInteger z) || (z <? 0)) (err "outside safe integer range");; Ok z
  | JNumber NNegZero => Ok 0
  | _ => Throw (err "outside safe integer range")
  end.

Definition asRevocationReason (value : json) : res jsstr :=
  match value with
  | JString s => throw_if (negb (bool_decide (s ∈ REVOCATION_REASONS))) (err "invalid REVOCATION reason");; Ok s
  | _ => Throw (err "invalid REVOCATION reason")
  end.

(** ** Lifecycle keys *)

Definition assertSupportedLifecycleJwk (key : jwk) : res unit :=
  throw_if (negb (is_undef (get key "use")) && negb (is_lit (get key "use") "sig"))
    (err "must be a signing JWK");;
  throw_if (negb (is_undef (get key "d"))) (err "must contain only public key material");;
  if is_lit (get key "alg") "EdDSA" then
    throw_if (negb (is_lit (get key "kty") "OKP") || negb (is_lit (get key "crv") "Ed25519")
              || negb (nonempty_str (get key "x")))
      (err "EdDSA key must be an Ed25519 public JWK")
  else if is_lit (get key "alg") "ES256" then
    throw_if (negb (is_lit (get key "kty") "EC") || negb (is_lit (get key "crv") "P-256")
              || negb (nonempty_str (get key "x")) || negb (nonempty_str (get key "y")))
      (err "ES256 key must be a P-256 public JWK")
  else Throw (err "uses unsupported lifecycle-key algorithm").

Definition asJwk (value : json) : res jwk :=
  match value with
  | JObject key =>
      asString (get key "kty");;
      asString (get key "kid");;
      asString (get key "alg");;
      assertSupportedLifecycleJwk key;;
      Ok key
  | _ => Throw (err "missing key")
  end.

Definition lifecycleJwksShareKeyMaterial (a b : jwk) : bool :=
  let same name := strict_eq (get a name) (get b name) in
  if negb (same "kty"%string) then false
  else if is_lit (get a "kty") "OKP" then same "crv"%string && same "x"%string
  else if is_lit (get a "kty") "EC" then same "crv"%string && same "x"%string && same "y"%string
  else false.

(** The fields of [C2spIssuanceEvent]. *)
Record C2spIssuance := mkC2spIssuance {
  ci_operationalKid : jsstr; ci_operationalAlg : jsstr; ci_operationalKey : jwk; ci_operationalThumb : jsstr;
  ci_entityKid : jsstr; ci_entityAlg : jsstr; ci_entityKey : jwk; ci_entityThumb : jsstr
}.

(** All metadata present and non-empty. *)
Definition c2sp_issuance (i : IssuanceFields) : option C2spIssuance :=
  match i_initialOperationalKid i, i_initialOperationalAlg i, i_initialOperationalPublicKey i,
        i_initialOperationalThumbprint i, i_initialEntityKid i, i_initialEntityAlg i,
        i_initialEntityPublicKey i, i_initialEntityThumbprint i with
  | Some ok, Some oa, Some okey, Some ot, Some ek, Some ea, Some ekey, Some et =>
      if forallb (fun s => negb (length s =? 0)%nat) [ok; oa; ot; ek; ea; et]
      then Some (mkC2spIssuance ok oa okey ot ek ea ekey et) else None
  | _, _, _, _, _, _, _, _ => None
  end.

Definition requireC2spIssuanceEvent (i : IssuanceFields) : res C2spIssuance :=
  of_option (c2sp_issuance i) (err "ISSUANCE is missing c2sp-tlog key metadata").

(** ** Signatures *)

Definition requiredC2spSignatureNames (type : jsstr) : res (list jsstr) :=
  if bool_decide (type = js "ISSUANCE") then Ok [js "ae"; js "op"]
  else if bool_decide (type = js "KEY_ROTATION") then Ok [js "prev_op"; js "new_op"]
  else if bool_decide (type ∈ SUPPORTED) then Ok [js "ae"]
  else Throw (err "unsupported DNSid lifecycle event type").

(** [/^[A-Za-z0-9_-]+$/] *)
Definition signature_re (s : jsstr) : bool := negb (length s =? 0)%nat && forallb is_b64url s.

Definition parseSignatureValue (value : json) : res C2spSignatureValue :=
  match value with
  | JObject raw =>
      throw_if (existsb (fun kv => negb (bool_decide (fst kv = js "kid")) && negb (bool_decide (fst kv = js "sig"))) raw)
        (err "contains an unknown member");;
      kid ← asString (get raw "kid");
      sig ← asString (get raw "sig");
      throw_if (negb (signature_re sig)) (err "sig must be unpadded base64url");;
      Ok (mkSigValue kid sig)
  | _ => Throw (err "must be an object")
  end.

Definition parse_role (raw : list (jsstr * json)) (role : string) : res (option C2spSignatureValue) :=
  if is_undef (get raw role) then Ok None else Some <$> parseSignatureValue (get raw role).

Definition role_of (s : C2spSignatures) (role : jsstr) : option C2spSignatureValue :=
  if bool_decide (role = js "ae") then s_ae s
  else if bool_decide (role = js "op") then s_op s
  else if bool_decide (role = js "prev_op") then s_prev_op s
  else if bool_decide (role = js "new_op") then s_new_op s
  else None.


Definition parseC2spSignatures (value : json) (type : jsstr) (requireComplete : bool) : res C2spSignatures :=
  if is_undef value && negb requireComplete then Ok (mkSigs None None None None)
  else
    match value with
    | JObject raw =>
        ae ← parse_role raw "ae";
        op ← parse_role raw "op";
        prev_op ← parse_role raw "prev_op";
        new_op ← parse_role raw "new_op";
        let parsed := mkSigs ae op prev_op new_op in
        allowed ← requiredC2spSignatureNames type;
        throw_if (existsb (fun kv => negb (bool_decide (fst kv ∈ allowed))) raw) (err "unexpected signature role");;
        throw_if (requireComplete && existsb (fun key => is_none (role_of parsed key)) allowed)
          (err "missing signature");;
        Ok parsed
    | _ => Throw (err "C2SP event missing sigs object")
    end.

Definition sig_json (v : C2spSignatureValue) : json :=
  JObject [(js "kid", JString (sv_kid v)); (js "sig", JString (sv_sig v))].

(** An optional property, present when the value is a non-empty string. *)
Definition role_member (role : string) (kid : jsstr) (sig : option jsstr) : list (jsstr * json) :=
  match sig with
  | Some s => if (length s =? 0)%nat then [] else [(js role, sig_json (mkSigValue kid s))]
  | None => []
  end.

Definition signaturesFromEvent (event : LogEvent) : res (list (jsstr * json)) :=
  match ev_payload event with
  | ISSUANCE i =>
      issuance ← requireC2spIssuanceEvent i;
      Ok (role_member "ae" (default (ci_entityKid issuance) (ev_signingKid event)) (ev_sig event)
          ++ role_member "op" (ci_operationalKid issuance) (ev_operationalCountersig event))
  | KEY_ROTATION r =>
      Ok (role_member "prev_op" (default (r_previousOperationalKid r) (ev_signingKid event)) (ev_sig event)
          ++ role_member "new_op" (r_newOperationalKid r) (ev_newOperationalProof event))
  | _ => Ok (role_member "ae" (default [] (ev_signingKid event)) (ev_sig event))
  end.

(** ** Envelopes *)

Section Codec.
Context `{H256 : Hash256} `{Url : URLApi} `{Uni : Unicode} `{Jwk : JwkApi}.

(** ['dnsid-c2sp-event-v1\0'] is the domain of event identifiers. *)
Definition c2spEventId (signedBytes : bytes) : jsstr :=
  b64url (digest (utf8_encode (js "dnsid-c2sp-event-v1" ++ [0]) ++ signedBytes)).

(** A signed binding member is a non-empty string equal to what is expected, if anything is. *)
Definition check_binding (e : list (jsstr * json)) (name : string) (expected : option jsstr) : res unit :=
  throw_if (negb (nonempty_str (get e name))) (err "public C2SP event missing signed field");;
  throw_if (match expected with Some v => negb (strict_eq (get e name) (JString v)) | None => false end)
    (err "public C2SP event field mismatch").

Definition validatePublicFields (obj : json) (context : C2spEventContext) : res unit :=
  match obj with
  | JObject e =>
      match get e "fqdn" with
      | JString fqdn =>
          n ← normalizeFQDN fqdn true;
          throw_if (strict_eq (get e "stream_id") (JString n))
            (err "C2SP requires an opaque stream ID distinct from the identity FQDN")
      | _ => Throw (err "C2SP requires an opaque stream ID distinct from the identity FQDN")
      end;;
      check_binding e "method" (Some (js "c2sp-tlog"));;
      check_binding e "log_origin" (cx_logOrigin context);;
      check_binding e "stream_id" (cx_streamId context);;
      check_binding e "lr" (cx_lr context)
  | _ => Throw (err "C2SP event must be an object")
  end.

(** The members of the payload of each type. *)
Definition payload_members (event : LogEvent) : res (list (jsstr * json)) :=
  match ev_payload event with
  | ISSUANCE i =>
      c ← requireC2spIssuanceEvent i;
      assertSupportedLifecycleJwk (ci_entityKey c);;
      assertSupportedLifecycleJwk (ci_operationalKey c);;
      throw_if (negb (strict_eq (JString (ci_entityAlg c)) (get (ci_entityKey c) "alg"))
                || negb (strict_eq (JString (ci_operationalAlg c)) (get (ci_operationalKey c) "alg")))
        (err "ISSUANCE lifecycle-key algorithm metadata mismatch");;
      throw_if (lifecycleJwksShareKeyMaterial (ci_entityKey c) (ci_operationalKey c))
        (err "ISSUANCE entity and operational keys must be distinct");;
      Ok [(js "gi", JString (i_governanceId i)); (js "ek", JObject (ci_entityKey c));
          (js "ku", JObject (ci_operationalKey c))]
  | KEY_ROTATION r =>
      assertSupportedLifecycleJwk (r_newOperationalPublicKey r);;
      throw_if (negb (strict_eq (JString (r_newOperationalAlg r)) (get (r_newOperationalPublicKey r) "alg")))
        (err "KEY_ROTATION lifecycle-key algorithm metadata mismatch");;
      Ok [(js "prev_thumb", JString (r_previousOperationalThumbprint r));
          (js "new_ku", JObject (r_newOperationalPublicKey r));
          (js "new_thumb", JString (r_newOperationalThumbprint r))]
  | REVOCATION reason => Ok [(js "reason", JString reason)]
  | RETIREMENT => Ok []
  | MIGRATION prev new ref =>
      Ok [(js "prev_lr", JString prev); (js "new_lr", JString new); (js "prev_ref", JString ref)]
  | DELEGATION delegatee scope expiry =>
      e ← epochSeconds expiry;
      Ok [(js "delegatee", JString delegatee); (js "scope", JString scope); (js "expiry", JNumber (NInt e))]
  end.

Definition opt_member (name : string) (o : option jsstr) : list (jsstr * json) :=
  match o with
  | Some s => if (length s =? 0)%nat then [] else [(js name, JString s)]
  | None => []
  end.

(** The log binding and the chain members. *)
Definition binding_members (context : C2spEventContext) : list (jsstr * json) :=
  if (match cx_scope context with Some s => bool_decide (s = js "public") | None => false end)
     || filled (cx_logOrigin context) || filled (cx_streamId context) || filled (cx_lr context)
  then (js "method", JString (js "c2sp-tlog")) :: opt_member "log_origin" (cx_logOrigin context)
       ++ opt_member "stream_id" (cx_streamId context) ++ opt_member "lr" (cx_lr context)
  else [].
Definition chain_members (context : C2spEventContext) : list (jsstr * json) :=
  match cx_seq context with Some n => [(js "seq", JNumber (NInt n))] | None => [] end
  ++ match cx_prevEventId context with Some s => [(js "prev_event_id", JString s)] | None => [] end
  ++ opt_member "prev_state_hash" (cx_prevStateHash context).

Definition eventToC2spEnvelope (event : LogEvent) (context : C2spEventContext) (includeSigs : bool)
    : res (list (jsstr * json)) :=
  ts ← epochSeconds (ev_timestamp event);
  payload ← payload_members event;
  let obj :=
    [(js "v", JNumber (NInt 1)); (js "kind", JString (js "dnsid.lifecycle"));
     (js "type", JString (type_name (ev_payload event))); (js "fqdn", JString (ev_domain event));
     (js "ts", JNumber (NInt ts))]
    ++ payload ++ binding_members context ++ chain_members context in
  validatePublicFields (JObject obj) context;;
  if includeSigs then
    sigs ← signaturesFromEvent event;
    Ok (if (length sigs =? 0)%nat then obj else obj ++ [(js "sigs", JObject sigs)])
  else Ok obj.

Definition prepareC2spTlogEvent (event : LogEvent) (context : C2spEventContext) : res (list (jsstr * json)) :=
  obj ← eventToC2spEnvelope event context false;
  validatePublicFields (JObject obj) context;;
  Ok obj.

Definition canonicalizeUnknownC2spEnvelope (obj : list (jsstr * json)) (includeSigs : bool) : res bytes :=
  let copy := if includeSigs then obj
              else List.filter (fun kv => negb (bool_decide (fst kv = js "sigs"))) obj in
  utf8_encode <$> canonicalJson (JObject copy).

Definition canonicalizeC2spEvent (event : LogEvent) (context : C2spEventContext) : res bytes :=
  envelope ← eventToC2spEnvelope event context true;
  parseC2spSignatures (get envelope "sigs") (type_name (ev_payload event)) true;;
  bs ← canonicalBytes (JObject envelope);
  assertEntrySize bs;;
  Ok bs.

Definition signedC2spEventBytes (event : LogEvent) (context : C2spEventContext) : res bytes :=
  envelope ← eventToC2spEnvelope event context false;
  canonicalBytes (JObject envelope).

(** ** Parsing *)

Definition CHAIN_FIELDS : list string :=
  ["seq"; "prev_event_id"; "prev_state_hash"; "prev_index"; "prev_leaf_hash"; "event_id"]%string.

Definition parseChainFields (e : list (jsstr * json)) : list (jsstr * json) :=
  flat_map (fun name => if has_member e (js name) then [(js name, get e name)] else []) CHAIN_FIELDS.

Definition role_or_throw (o : option C2spSignatureValue) : res C2spSignatureValue :=
  of_option o (EError "TypeError").

Definition issuance_event (domain : jsstr) (timestamp : date) (e : list (jsstr * json))
    (sigs : C2spSignatures) (chain : list (jsstr * json)) : res LogEvent :=
  entityKey ← asJwk (get e "ek");
  operationalKey ← asJwk (get e "ku");
  entityThumbprint ← jwkThumbprint entityKey;
  operationalThumbprint ← jwkThumbprint operationalKey;
  throw_if (bool_decide (entityThumbprint = operationalThumbprint))
    (err "ISSUANCE entity and operational keys must be distinct");;
  ae ← role_or_throw (s_ae sigs);
  op ← role_or_throw (s_op sigs);
  throw_if (negb (strict_eq (JString (sv_kid ae)) (get entityKey "kid"))
            || negb (strict_eq (JString (sv_kid op)) (get operationalKey "kid")))
    (err "ISSUANCE signature kid does not match recorded key");;
  gi ← asString (get e "gi");
  entityAlg ← asString (get entityKey "alg");
  operationalAlg ← asString (get operationalKey "alg");
  Ok (mkEvent domain timestamp (Some (sv_kid ae)) (Some (sv_sig ae)) (Some (sv_sig op)) None chain
        (ISSUANCE (mkIssuance gi
           (as_str (get operationalKey "kid")) (Some operationalAlg) (Some operationalKey) (Some operationalThumbprint)
           (as_str (get entityKey "kid")) (Some entityAlg) (Some entityKey) (Some entityThumbprint)
           None None None None None None None))).

Definition rotation_event (domain : jsstr) (timestamp : date) (e : list (jsstr * json))
    (sigs : C2spSignatures) (chain : list (jsstr * json)) : res LogEvent :=
  newKey ← asJwk (get e "new_ku");
  new_op ← role_or_throw (s_new_op sigs);
  throw_if (negb (strict_eq (JString (sv_kid new_op)) (get newKey "kid")))
    (err "KEY_ROTATION new_op kid does not match new_ku");;
  prev_op ← role_or_throw (s_prev_op sigs);
  prev_thumb ← asString (get e "prev_thumb");
  alg ← asString (get newKey "alg");
  new_thumb ← asString (get e "new_thumb");
  Ok (mkEvent domain timestamp (Some (sv_kid prev_op)) (Some (sv_sig prev_op)) None (Some (sv_sig new_op)) chain
        (KEY_ROTATION (mkRotation (sv_kid prev_op) prev_thumb (sv_kid new_op) alg new_thumb newKey))).

(** The other types carry the entity signature only. *)
Definition entity_event (domain : jsstr) (timestamp : date) (sigs : C2spSignatures)
    (chain : list (jsstr * json)) (payload : event_payload) : res LogEvent :=
  ae ← role_or_throw (s_ae sigs);
  Ok (mkEvent domain timestamp (Some (sv_kid ae)) (Some (sv_sig ae)) None None chain payload).

Definition c2spEnvelopeToEvent (obj : json) : res LogEvent :=
  match obj with
  | JObject e =>
      throw_if (negb (strict_eq (get e "v") (JNumber (NInt 1))) || negb (is_lit (get e "kind") "dnsid.lifecycle"))
        (err "unsupported C2SP event envelope");;
      throw_if (negb (is_undef (get e "method")) && negb (is_lit (get e "method") "c2sp-tlog"))
        (err "C2SP event method mismatch");;
      type ← asString (get e "type");
      throw_if (negb (bool_decide (type ∈ SUPPORTED))) (err "unsupported DNSid lifecycle event type");;
      ts ← asSafeInt (get e "ts");
      timestamp ← dateFromSeconds ts;
      domain ← asString (get e "fqdn");
      sigs ← parseC2spSignatures (get e "sigs") type true;
      let chain := parseChainFields e in
      if bool_decide (type = js "ISSUANCE") then issuance_event domain timestamp e sigs chain
      else if bool_decide (type = js "KEY_ROTATION") then rotation_event domain timestamp e sigs chain
      else if bool_decide (type = js "REVOCATION") then
        reason ← asRevocationReason (get e "reason");
        entity_event domain timestamp sigs chain (REVOCATION reason)
      else if bool_decide (type = js "RETIREMENT") then
        entity_event domain timestamp sigs chain RETIREMENT
      else if bool_decide (type = js "MIGRATION") then
        prev ← asString (get e "prev_lr");
        new ← asString (get e "new_lr");
        ref ← asString (get e "prev_ref");
        entity_event domain timestamp sigs chain (MIGRATION prev new ref)
      else
        delegatee ← asString (get e "delegatee");
        scope ← asString (get e "scope");
        expiry ← asSafeInt (get e "expiry");
        expiry ← dateFromSeconds expiry;
        entity_event domain timestamp sigs chain (DELEGATION delegatee scope expiry)
  | _ => Throw (err "C2SP event entry must be an object")
  end.

Definition parseC2spEventEntry (bs : bytes) (context : C2spEventContext) : res LogEvent :=
  assertEntrySize bs;;
  obj ← parseJsonNoDuplicateMembers bs;
  assertCanonicalJsonBytes bs obj;;
  validatePublicFields obj context;;
  c2spEnvelopeToEvent obj.

Record Authorization := mkAuthorization {
  au_type : jsstr; au_domain : jsstr; au_kid : jsstr; au_signature : jsstr
}.

Definition parseC2spAuthorization (bs : bytes) (context : C2spEventContext) : res Authorization :=
  assertEntrySize bs;;
  obj ← parseJsonNoDuplicateMembers bs;
  assertCanonicalJsonBytes bs obj;;
  validatePublicFields obj context;;
  match obj with
  | JObject event =>
      throw_if (negb (strict_eq (get event "v") (JNumber (NInt 1)))
                || negb (is_lit (get event "kind") "dnsid.lifecycle")) (err "unsupported C2SP event envelope");;
      type ← asString (get event "type");
      throw_if (negb (bool_decide (type ∈ SUPPORTED))) (err "unsupported DNSid lifecycle event type");;
      match get event "sigs" with
      | JObject sigs =>
          let role := if bool_decide (type = js "KEY_ROTATION") then "prev_op"%string else "ae"%string in
          signature ← parseSignatureValue (get sigs role);
          domain ← asString (get event "fqdn");
          Ok (mkAuthorization type domain (sv_kid signature) (sv_sig signature))
      | _ => Throw (err "C2SP event missing sigs object")
      end
  | _ => Throw (err "C2SP event entry must be an object")
  end.

(** [{ ...obj }] of a JSON value that is not an object: an array copies its
    elements under their indices, a string its units, anything else nothing. *)
Definition spread (obj : json) : list (jsstr * json) :=
  match obj with
  | JObject members => members
  | JArray l => imap (fun i v => (dec (Z.of_nat i), v)) l
  | JString s => imap (fun i u => (dec (Z.of_nat i), JString [u])) s
  | _ => []
  end.

Definition signedC2spEntryBytes (bs : bytes) : res bytes :=
  assertEntrySize bs;;
  obj ← parseJsonNoDuplicateMembers bs;
  assertCanonicalJsonBytes bs obj;;
  canonicalizeUnknownC2spEnvelope (spread obj) false.

End Codec.
