(* ===== verification/Lifecycle.v ===== *)
(** The materialized lifecycle of a domain and a verified identity:
    [protocol/src/verified-domain.ts]. *)

From S2P Require Import Prelude JsString Sha256 Url Utils Json Jwk EventCodec.

(** ** Verified identities *)

Inductive AgentStatusState := PENDING | PROVISIONING | VERIFYING | ACTIVE | RETIRED | REVOKED.
#[export] Instance AgentStatusState_eq_dec : EqDecision AgentStatusState.
Proof. solve_decision. Defined.

(** The fields of [VerifiedDomain] that its methods read. *)
Record VerifiedDomain := mkVerifiedDomain {
  vd_ka : option jsstr;
  vd_policyFlags : list jsstr;
  vd_tlsNotAfter : date;
  vd_recordSigningTlsNotAfter : date;
  vd_state : AgentStatusState;
  vd_dnsTTL : Z;
  vd_dnsExpiresAt : date;
  vd_keyBoundAt : date
}.

(** Arithmetic and comparison on time values; [NaN] is unordered. *)
Definition date_add (d : date) (ms : Z) : date := (fun t => t + ms) <$> d.
Definition date_ge (now : Z) (d : date) : bool := match d with Some t => t <=? now | None => false end.
Definition date_gt (a b : date) : bool := match a, b with Some a, Some b => b <? a | _, _ => false end.

(** The defaults of the constructor. *)
Definition newVerifiedDomain (ka : option jsstr) (policyFlags : list jsstr) (tls : date)
    (recordSigningTls : option date) (state : AgentStatusState) (verifiedAt : date) (dnsTTL : Z)
    (dnsExpiresAt : option date) (keyBoundAt : date) : VerifiedDomain :=
  mkVerifiedDomain ka policyFlags tls (default tls recordSigningTls) state dnsTTL
    (default (date_add verifiedAt (dnsTTL * 1000)) dnsExpiresAt) keyBoundAt.

Definition cachedState (d : VerifiedDomain) : AgentStatusState := vd_state d.
Definition requiresLogCheck (d : VerifiedDomain) : bool := bool_decide (js "logchk" ∈ vd_policyFlags d).

(** [record.ka] as a truthy value. *)
Definition ka_of (d : VerifiedDomain) : option jsstr :=
  match vd_ka d with Some ka => if (length ka =? 0)%nat then None else Some ka | None => None end.

Definition cert_expired (now : Z) (notAfter : date) : bool :=
  match notAfter with None => true | Some t => t <=? now end.

Definition expired_evidence (code : VerificationCode) : exn :=
  newVerificationError "identity evidence expired during verification" code None
    (bool_decide (code = DNSResolution)).

Definition assertFresh (now : Z) (d : VerifiedDomain) : res unit :=
  if existsb (cert_expired now) [vd_tlsNotAfter d; vd_recordSigningTlsNotAfter d]
  then Throw (expired_evidence TLSError)
  else
    too_old ← match ka_of d with
              | Some ka => dur ← parseKaDuration ka; Ok (date_ge now (date_add (vd_keyBoundAt d) dur))
              | None => Ok false
              end;
    if too_old : bool then Throw (expired_evidence KeyAgeExceeded)
    else if (0 <? vd_dnsTTL d) && date_ge now (vd_dnsExpiresAt d)
    then Throw (expired_evidence DNSResolution)
    else Ok tt.

(** [Math.min] is [NaN] when an argument is. *)
Definition date_min (a b : date) : date := match a, b with Some a, Some b => Some (Z.min a b) | _, _ => None end.

Definition expiry (d : VerifiedDomain) : res date :=
  let candidates := [vd_dnsExpiresAt d; vd_tlsNotAfter d; vd_recordSigningTlsNotAfter d] in
  candidates ← match ka_of d with
               | Some ka => dur ← parseKaDuration ka; Ok (candidates ++ [date_add (vd_keyBoundAt d) dur])
               | None => Ok candidates
               end;
  Ok (foldl date_min (List.hd None candidates) candidates).

(** ** The lifecycle of a domain *)

Record DomainSnapshot := mkSnapshot {
  sn_domain : jsstr;
  sn_historicalState : AgentStatusState;
  sn_activeKey : jwk;
  sn_activeKeyThumbprint : jsstr;
  sn_keyBoundAt : date;
  sn_governanceId : jsstr;
  sn_snapshotAt : date;
  sn_events : list LogEvent
}.

(** The local variables of [snapshotAt]; [None] is the empty state. *)
Record lifecycle := mkLifecycle {
  lc_state : option AgentStatusState;
  lc_activeKey : option jwk;
  lc_activeKeyThumbprint : jsstr;
  lc_keyBoundAt : date;
  lc_governanceId : jsstr;
  lc_events : list LogEvent;
  lc_pastBoundary : bool
}.
Definition initial_lifecycle : lifecycle := mkLifecycle None None [] (Some 0) [] [] false.

Definition with_state (s : lifecycle) (state : AgentStatusState) : lifecycle :=
  mkLifecycle (Some state) (lc_activeKey s) (lc_activeKeyThumbprint s) (lc_keyBoundAt s)
    (lc_governanceId s) (lc_events s) (lc_pastBoundary s).
Definition with_key (s : lifecycle) (key : jwk) (thumb : jsstr) (at_ : date) : lifecycle :=
  mkLifecycle (lc_state s) (Some key) thumb at_ (lc_governanceId s) (lc_events s) (lc_pastBoundary s).
Definition with_governance (s : lifecycle) (gi : jsstr) : lifecycle :=
  mkLifecycle (lc_state s) (lc_activeKey s) (lc_activeKeyThumbprint s) (lc_keyBoundAt s) gi
    (lc_events s) (lc_pastBoundary s).
Definition with_event (s : lifecycle) (e : LogEvent) : lifecycle :=
  mkLifecycle (lc_state s) (lc_activeKey s) (lc_activeKeyThumbprint s) (lc_keyBoundAt s)
    (lc_governanceId s) (lc_events s ++ [e]) (lc_pastBoundary s).
Definition past_boundary (s : lifecycle) : lifecycle :=
  mkLifecycle (lc_state s) (lc_activeKey s) (lc_activeKeyThumbprint s) (lc_keyBoundAt s)
    (lc_governanceId s) (lc_events s) true.

(** [a ?? b] *)
Definition orElse {A} (a b : option A) : option A := match a with Some _ => a | None => b end.

Definition outside_active : exn :=
  newVerificationError "event outside an ACTIVE issuance" LogError None false.
Definition is_active (s : lifecycle) : bool := bool_decide (lc_state s = Some ACTIVE).

Section Snapshot.
Context `{H256 : Hash256}.

(** The keys of an ISSUANCE event: draft-01 slots before the other encodings. *)
Definition issuance_entity (i : IssuanceFields) : option jwk * jsstr :=
  (orElse (slot_jwk <$> i_entityKey i) (i_initialEntityPublicKey i),
   default [] (orElse (slot_thumbprint <$> i_entityKey i) (i_initialEntityThumbprint i))).
Definition issuance_operational (i : IssuanceFields) : option jwk * jsstr :=
  (orElse (slot_jwk <$> i_operationalKey i) (orElse (i_initialOperationalPublicKey i) (i_publicKey i)),
   default [] (orElse (slot_thumbprint <$> i_operationalKey i)
                 (orElse (i_initialOperationalThumbprint i) (i_thumbprint i)))).

Definition invalid_issuance : exn := lifecycleError "ISSUANCE key binding is invalid" INVALID_ISSUANCE.

(** The condition is evaluated from left to right; a thumbprint may throw. *)
Definition apply_issuance (s : lifecycle) (at_ : date) (i : IssuanceFields) : res lifecycle :=
  match lc_state s with
  | Some _ => Throw (lifecycleError "duplicate ISSUANCE in one identity history" DUPLICATE_ISSUANCE)
  | None =>
      match issuance_entity i, issuance_operational i with
      | (Some entityKey, entityThumb), (Some activeKey, activeThumb) =>
          throw_if ((length entityThumb =? 0)%nat || (length activeThumb =? 0)%nat) invalid_issuance;;
          t ← synchronousJwkThumbprint entityKey INVALID_ISSUANCE;
          throw_if (negb (bool_decide (entityThumb = t))) invalid_issuance;;
          t ← synchronousJwkThumbprint activeKey INVALID_ISSUANCE;
          throw_if (negb (bool_decide (activeThumb = t))) invalid_issuance;;
          throw_if (bool_decide (entityThumb = activeThumb) || sameJwkMaterial entityKey activeKey)
            invalid_issuance;;
          Ok (with_governance (with_state (with_key s activeKey activeThumb at_) ACTIVE) (i_governanceId i))
      | _, _ => Throw invalid_issuance
      end
  end.

Definition invalid_rotation : exn := lifecycleError "KEY_ROTATION new key is invalid" KEY_CONTINUITY.

Definition apply_rotation (s : lifecycle) (at_ : date) (r : RotationFields) : res lifecycle :=
  throw_if (negb (is_active s)) (lifecycleError "KEY_ROTATION outside an ACTIVE issuance" KEY_CONTINUITY);;
  throw_if (negb (bool_decide (r_previousOperationalThumbprint r = lc_activeKeyThumbprint s)))
    (lifecycleError "KEY_ROTATION does not continue from the active key" KEY_CONTINUITY);;
  throw_if (length (r_newOperationalThumbprint r) =? 0)%nat invalid_rotation;;
  t ← synchronousJwkThumbprint (r_newOperationalPublicKey r) KEY_CONTINUITY;
  throw_if (negb (bool_decide (r_newOperationalThumbprint r = t))) invalid_rotation;;
  throw_if (bool_decide (r_newOperationalThumbprint r = lc_activeKeyThumbprint s)
            || match lc_activeKey s with
               | Some k => sameJwkMaterial k (r_newOperationalPublicKey r)
               | None => false
               end) invalid_rotation;;
  Ok (with_key s (r_newOperationalPublicKey r) (r_newOperationalThumbprint r) at_).

(** The [switch] of the loop. *)
Definition apply_event (s : lifecycle) (e : LogEvent) : res lifecycle :=
  match ev_payload e with
  | ISSUANCE i => apply_issuance s (ev_timestamp e) i
  | KEY_ROTATION r => apply_rotation s (ev_timestamp e) r
  | REVOCATION reason =>
      throw_if (negb (is_active s)) outside_active;;
      throw_if (negb (bool_decide (reason ∈ REVOCATION_REASONS)))
        (lifecycleError "invalid REVOCATION reason" INVALID_REVOCATION_REASON);;
      Ok (with_state s REVOKED)
  | RETIREMENT => throw_if (negb (is_active s)) outside_active;; Ok (with_state s RETIRED)
  | MIGRATION prev new ref =>
      throw_if (negb (is_active s) || (length prev =? 0)%nat || (length new =? 0)%nat
                || bool_decide (prev = new) || (length ref =? 0)%nat)
        (lifecycleError "invalid MIGRATION" INVALID_MIGRATION);;
      Ok s
  | DELEGATION _ _ _ => throw_if (negb (is_active s)) outside_active;; Ok s
  end.

Definition is_issuance (e : LogEvent) : bool :=
  match ev_payload e with ISSUANCE _ => true | _ => false end.

(** The check of the first event and of events after a terminal state. *)
Definition check_order (s : lifecycle) (e : LogEvent) : res unit :=
  match lc_state s with
  | None => throw_if (negb (is_issuance e))
              (lifecycleError "first lifecycle event must be ISSUANCE" GENESIS_REQUIRED)
  | Some REVOKED | Some RETIRED =>
      Throw (lifecycleError "event after terminal identity state" TERMINAL_STATE)
  | Some _ => Ok tt
  end.

(** One turn of the loop. *)
Definition snapshot_step (domain : jsstr) (at_ : date) (s : lifecycle) (e : LogEvent) : res lifecycle :=
  throw_if (negb (bool_decide (ev_domain e = domain)))
    (lifecycleError "lifecycle event domain mismatch" DOMAIN_MISMATCH);;
  throw_if (is_none (ev_timestamp e)) (lifecycleError "invalid lifecycle timestamp" INVALID_EVIDENCE);;
  if date_gt (ev_timestamp e) at_ then Ok (past_boundary s)
  else
    throw_if (lc_pastBoundary s)
      (lifecycleError "snapshot time is not a verified lifecycle prefix" SNAPSHOT_NON_PREFIX);;
    let s := with_event s e in
    check_order s e;;
    apply_event s e.

(** The message of the error prints the time, which throws on an invalid date. *)
Definition snapshot_empty {A} (at_ : date) : res A :=
  match at_ with
  | None => Throw (ERange "Invalid time value")
  | Some _ => Throw (lifecycleError "no lifecycle events" SNAPSHOT_EMPTY)
  end.

Definition snapshotAt (domain : jsstr) (events : list LogEvent) (at_ : date) : res DomainSnapshot :=
  if (length events =? 0)%nat then snapshot_empty at_
  else
    s ← for_each (snapshot_step domain at_) events initial_lifecycle;
    match lc_state s, lc_activeKey s with
    | Some state, Some activeKey =>
        Ok (mkSnapshot domain state activeKey (lc_activeKeyThumbprint s) (lc_keyBoundAt s)
              (lc_governanceId s) at_ (lc_events s))
    | _, _ => snapshot_empty at_
    end.

End Snapshot.

(** ** Specification: the lifecycle of an identity as a state machine *)

(** An identity does not exist, is alive under a thumbprint and a governing domain, or is
    closed for good. *)
Inductive phase :=
  | Unborn
  | Alive (thumb governance : jsstr)
  | Closed (state : AgentStatusState) (thumb governance : jsstr).

Inductive lifecycle_step : phase -> LogEvent -> phase -> Prop :=
  | step_issuance e i :
      ev_payload e = ISSUANCE i -> snd (issuance_entity i) <> snd (issuance_operational i) ->
      lifecycle_step Unborn e (Alive (snd (issuance_operational i)) (i_governanceId i))
  | step_rotation e r thumb gi :
      ev_payload e = KEY_ROTATION r -> r_previousOperationalThumbprint r = thumb ->
      r_newOperationalThumbprint r <> thumb ->
      lifecycle_step (Alive thumb gi) e (Alive (r_newOperationalThumbprint r) gi)
  | step_revocation e reason thumb gi :
      ev_payload e = REVOCATION reason -> reason ∈ REVOCATION_REASONS ->
      lifecycle_step (Alive thumb gi) e (Closed REVOKED thumb gi)
  | step_retirement e thumb gi :
      ev_payload e = RETIREMENT -> lifecycle_step (Alive thumb gi) e (Closed RETIRED thumb gi)
  | step_migration e previousLog newLog ref thumb gi :
      ev_payload e = MIGRATION previousLog newLog ref -> previousLog <> newLog ->
      lifecycle_step (Alive thumb gi) e (Alive thumb gi)
  | step_delegation e delegatee scope expiry thumb gi :
      ev_payload e = DELEGATION delegatee scope expiry ->
      lifecycle_step (Alive thumb gi) e (Alive thumb gi).

(** Runs, extended at their end. *)
Inductive lifecycle_run : list LogEvent -> phase -> Prop :=
  | run_unborn : lifecycle_run [] Unborn
  | run_extend es e p p' : lifecycle_run es p -> lifecycle_step p e p' -> lifecycle_run (es ++ [e]) p'.

Definition phase_of (s : lifecycle) : phase :=
  match lc_state s with
  | None => Unborn
  | Some ACTIVE => Alive (lc_activeKeyThumbprint s) (lc_governanceId s)
  | Some state => Closed state (lc_activeKeyThumbprint s) (lc_governanceId s)
  end.
Definition snapshot_phase (sn : DomainSnapshot) : phase :=
  match sn_historicalState sn with
  | ACTIVE => Alive (sn_activeKeyThumbprint sn) (sn_governanceId sn)
  | state => Closed state (sn_activeKeyThumbprint sn) (sn_governanceId sn)
  end.

Definition is_terminal_event (e : LogEvent) : bool :=
  match ev_payload e with REVOCATION _ | RETIREMENT => true | _ => false end.

(** ** Lemmas *)

Section SnapshotLemmas.
Context `{H256 : Hash256}.

(** The active key is the one that the thumbprint is of. *)
Definition key_bound (s : lifecycle) : Prop :=
  match lc_activeKey s with
  | Some k => exists category, synchronousJwkThumbprint k category = Ok (lc_activeKeyThumbprint s)
  | None => True
  end.

Lemma apply_issuance_Ok s t e i s' : ev_payload e = ISSUANCE i -> apply_issuance s t i = Ok s' ->
  lifecycle_step (phase_of s) e (phase_of s') /\ key_bound s'
  /\ lc_events s' = lc_events s /\ lc_pastBoundary s' = lc_pastBoundary s /\ is_Some (lc_activeKey s').
Proof.
  unfold apply_issuance, phase_of. destruct (lc_state s); [done|].
  destruct (issuance_entity i) as [[ek|] et] eqn:Ee; [|done].
  destruct (issuance_operational i) as [[ak|] at_] eqn:Ea; [|done]. intros He H. res_inv. bool_inv. subst.
  cbn. split; [|split; [by eexists|split; [done|split; [done|by eexists]]]].
  pose proof (step_issuance e i He) as Hstep. rewrite Ee, Ea in Hstep. by apply Hstep.
Qed.

Lemma is_active_phase s : is_active s = true ->
  phase_of s = Alive (lc_activeKeyThumbprint s) (lc_governanceId s).
Proof. unfold is_active, phase_of. intros ->%bool_decide_eq_true. done. Qed.

Lemma apply_rotation_Ok s t e r s' : ev_payload e = KEY_ROTATION r -> apply_rotation s t r = Ok s' ->
  lifecycle_step (phase_of s) e (phase_of s') /\ key_bound s'
  /\ lc_events s' = lc_events s /\ lc_pastBoundary s' = lc_pastBoundary s /\ is_Some (lc_activeKey s').
Proof.
  unfold apply_rotation. intros He H. res_inv. bool_inv.
  match goal with Ha : is_active s = true |- _ => rewrite (is_active_phase s Ha); unfold is_active in Ha end.
  bool_inv. split; [|unfold key_bound; cbn; split; [exists KEY_CONTINUITY; congruence|by eauto]].
  unfold phase_of. cbn. rewrite Hv. by apply step_rotation.
Qed.

Lemma apply_event_Ok s e s' : key_bound s -> apply_event s e = Ok s' ->
  lifecycle_step (phase_of s) e (phase_of s') /\ key_bound s'
  /\ lc_events s' = lc_events s /\ lc_pastBoundary s' = lc_pastBoundary s.
Proof.
  intros Hk. unfold apply_event. destruct (ev_payload e) eqn:He; intros H.
  - apply (apply_issuance_Ok s _ e) in H; [|done]. by destruct H as (? & ? & ? & ? & _).
  - apply (apply_rotation_Ok s _ e) in H; [|done]. by destruct H as (? & ? & ? & ? & _).
  - res_inv. bool_inv. rewrite (is_active_phase s) by done. split; [by eapply step_revocation|done].
  - res_inv. bool_inv. rewrite (is_active_phase s) by done. split; [by eapply step_retirement|done].
  - res_inv. bool_inv. rewrite (is_active_phase s') by done. split; [by eapply step_migration|done].
  - res_inv. bool_inv. rewrite (is_active_phase s') by done. split; [by eapply step_delegation|done].
Qed.

Definition before_boundary (at_ : date) (e : LogEvent) : Prop := date_gt (ev_timestamp e) at_ = false.

(** What the loop of [snapshotAt] maintains when it has read [read]. *)
Record snapshot_inv (domain : jsstr) (at_ : date) (read : list LogEvent) (s : lifecycle) : Prop := {
  si_domain : Forall (fun e => ev_domain e = domain) read;
  si_split : exists rest, read = lc_events s ++ rest
               /\ Forall (before_boundary at_) (lc_events s)
               /\ Forall (fun e => date_gt (ev_timestamp e) at_ = true) rest
               /\ (rest <> [] -> lc_pastBoundary s = true);
  si_run : lifecycle_run (lc_events s) (phase_of s);
  si_key : key_bound s
}.

Lemma snapshot_step_Ok domain at_ read s e s' : snapshot_inv domain at_ read s ->
  snapshot_step domain at_ s e = Ok s' -> snapshot_inv domain at_ (read ++ [e]) s'.
Proof.
  intros [Hd (rest & -> & Hb & Ha & Hp) Hr Hk]. unfold snapshot_step. intros H. res_inv. bool_inv.
  destruct (date_gt (ev_timestamp e) at_) eqn:Eg.
  - injection H as <-. split; [by apply Forall_app; auto| |done|done].
    exists (rest ++ [e]). cbn. rewrite app_assoc. split; [done|]. split; [done|].
    split; [by apply Forall_app; auto|done].
  - res_inv. apply apply_event_Ok in H as (Hs & Hk' & He & Hpb); [|done]. cbn in He, Hpb.
    assert (rest = []) as -> by (destruct rest; [done|by rewrite Hp in *]). rewrite app_nil_r in *.
    split; [by apply Forall_app; auto| | |done]; rewrite He.
    + exists []. rewrite app_nil_r. split; [done|]. split; [by apply Forall_app; auto|done].
    + by eapply run_extend.
Qed.

Lemma snapshot_loop_Ok domain at_ es read s s' : snapshot_inv domain at_ read s ->
  for_each (snapshot_step domain at_) es s = Ok s' -> snapshot_inv domain at_ (read ++ es) s'.
Proof.
  revert read s; induction es as [|e es IH]; intros read s Hi H; cbn [for_each] in H.
  - injection H as <-. by rewrite app_nil_r.
  - apply bind_Ok in H as (s1 & H1 & H). eapply snapshot_step_Ok in H1; [|exact Hi].
    eapply IH in H; [|exact H1]. by rewrite <-app_assoc in H.
Qed.

Lemma initial_inv domain at_ : snapshot_inv domain at_ [] initial_lifecycle.
Proof. split; [constructor| |constructor|done]. exists []. done. Qed.

Lemma snapshotAt_inv domain events at_ sn : snapshotAt domain events at_ = Ok sn ->
  exists s, snapshot_inv domain at_ events s /\ lc_activeKey s = Some (sn_activeKey sn)
    /\ lc_activeKeyThumbprint s = sn_activeKeyThumbprint sn /\ lc_events s = sn_events sn
    /\ phase_of s = snapshot_phase sn.
Proof.
  unfold snapshotAt. destruct (length events =? 0)%nat; [by destruct at_|]. intros H. res_inv.
  eapply snapshot_loop_Ok in Hv; [|apply initial_inv].
  destruct (lc_state v) as [st|] eqn:Es; [|by destruct at_].
  destruct (lc_activeKey v) as [k|] eqn:Ek; [|by destruct at_]. injection H as <-.
  exists v. split; [done|]. split; [done|]. split; [done|]. split; [done|].
  unfold phase_of, snapshot_phase. cbn. rewrite Es. by destruct st.
Qed.

(** A snapshot is a run of the lifecycle state machine: it covers exactly the events
    at or before the requested time, which form a prefix of the given events, all of the
    domain; its state, active thumbprint and governing domain are those the run of
    these events ends in, and the thumbprint is that of the returned key. *)
Theorem snapshotAt_refines domain events at_ sn : snapshotAt domain events at_ = Ok sn ->
  (exists later, events = sn_events sn ++ later
     /\ Forall (before_boundary at_) (sn_events sn)
     /\ Forall (fun e => date_gt (ev_timestamp e) at_ = true) later)
  /\ Forall (fun e => ev_domain e = domain) events
  /\ lifecycle_run (sn_events sn) (snapshot_phase sn)
  /\ exists category, synchronousJwkThumbprint (sn_activeKey sn) category = Ok (sn_activeKeyThumbprint sn).
Proof.
  intros (s & [Hd (later & E & Hb & Ha & _) Hr Hk] & Ek & Et & Ee & Ep)%snapshotAt_inv.
  unfold key_bound in Hk. rewrite Ek, Et in Hk. rewrite Ee, Ep in Hr. rewrite Ee in E, Hb.
  split; [by exists later|done].
Qed.

End SnapshotLemmas.

(** ** Runs *)

Definition no_issuance : list LogEvent -> Prop := Forall (fun e => is_issuance e = false).
Definition no_terminal : list LogEvent -> Prop := Forall (fun e => is_terminal_event e = false).

(** The shape of the events that lead to a phase. *)
Definition history_shape (es : list LogEvent) (p : phase) : Prop :=
  match p with
  | Unborn => es = []
  | Alive _ _ => exists first rest, es = first :: rest /\ is_issuance first = true
      /\ no_issuance rest /\ no_terminal (first :: rest)
  | Closed _ _ _ => exists first rest e, es = first :: rest ++ [e] /\ is_issuance first = true
      /\ no_issuance (rest ++ [e]) /\ no_terminal (first :: rest) /\ is_terminal_event e = true
  end.

Lemma alive_extend first rest e thumb gi : is_issuance first = true -> no_issuance rest ->
  no_terminal (first :: rest) -> is_issuance e = false -> is_terminal_event e = false ->
  history_shape ((first :: rest) ++ [e]) (Alive thumb gi).
Proof.
  intros Hf Hi Ht Hie Hte. exists first, (rest ++ [e]). split; [done|]. split; [done|].
  split; [by apply Forall_app; auto|]. apply (Forall_app _ (first :: rest)). auto.
Qed.

Lemma closed_extend first rest e state thumb gi : is_issuance first = true -> no_issuance rest ->
  no_terminal (first :: rest) -> is_issuance e = false -> is_terminal_event e = true ->
  history_shape ((first :: rest) ++ [e]) (Closed state thumb gi).
Proof.
  intros Hf Hi Ht Hie Hte. exists first, rest, e. split; [done|]. split; [done|].
  split; [by apply Forall_app; auto|done].
Qed.

Lemma run_shape es p : lifecycle_run es p -> history_shape es p.
Proof.
  induction 1 as [|es e p p' _ IH Hs]; [done|].
  assert (He : forall v, ev_payload e = v -> is_issuance e = match v with ISSUANCE _ => true | _ => false end
    /\ is_terminal_event e = match v with REVOCATION _ | RETIREMENT => true | _ => false end)
    by (intros v <-; done).
  destruct Hs as [? i Hp|? r thumb gi Hp|? reason thumb gi Hp|? thumb gi Hp|? pl nl ref thumb gi Hp|? d sc x thumb gi Hp];
    apply He in Hp as [Hi Ht]; cbn in IH.
  { subst. exists e, []. split; [done|]. split; [done|]. split; [constructor|by constructor]. }
  all: destruct IH as (first & rest & -> & Hf & Hni & Hnt); by (apply alive_extend || apply closed_extend).
Qed.

Lemma last_only {A} (P : A -> Prop) l x before y after :
  Forall P l -> l ++ [x] = before ++ y :: after -> ~ P y -> after = [].
Proof.
  intros Hl E Hy. destruct after as [|z after _] using rev_ind; [done|exfalso].
  rewrite app_comm_cons, app_assoc in E. apply app_inj_tail in E as [-> _].
  by apply Forall_app in Hl as [_ [? _]%Forall_cons].
Qed.

(** The events of a snapshot begin with their only ISSUANCE, contain no event after a
    REVOCATION or RETIREMENT, and the reported state is ACTIVE exactly when there is no
    such event. *)
Theorem snapshotAt_history `{H256 : Hash256} domain events at_ sn : snapshotAt domain events at_ = Ok sn ->
  exists first rest, sn_events sn = first :: rest /\ is_issuance first = true /\ no_issuance rest
    /\ (forall before e after, sn_events sn = before ++ e :: after -> is_terminal_event e = true -> after = [])
    /\ (sn_historicalState sn = ACTIVE <-> no_terminal (sn_events sn)).
Proof.
  intros (s & [_ _ Hr _] & _ & _ & Ee & Ep)%snapshotAt_inv. rewrite Ee, Ep in Hr. apply run_shape in Hr.
  unfold snapshot_phase in Hr.
  assert (Hc : sn_historicalState sn = ACTIVE /\ (exists first rest, sn_events sn = first :: rest
      /\ is_issuance first = true /\ no_issuance rest /\ no_terminal (first :: rest))
    \/ sn_historicalState sn <> ACTIVE /\ exists first rest e, sn_events sn = first :: rest ++ [e]
      /\ is_issuance first = true /\ no_issuance (rest ++ [e]) /\ no_terminal (first :: rest)
      /\ is_terminal_event e = true) by (destruct (sn_historicalState sn); auto).
  destruct Hc as [(Hs & first & rest & -> & Hf & Hi & Ht)|(Hs & first & rest & e & -> & Hf & Hi & Ht & He)].
  - exists first, rest. do 3 (split; [done|]). split; [|done].
    intros before e after E Hte. rewrite E in Ht. apply Forall_app in Ht as [_ [Hne _]%Forall_cons].
    by rewrite Hne in Hte.
  - exists first, (rest ++ [e]). do 3 (split; [done|]). split.
    + intros before e' after E Hte. apply (last_only _ (first :: rest) e before e' after Ht E). by rewrite Hte.
    + split; [done|]. intros Hall. apply (Forall_app _ (first :: rest)) in Hall as [_ [Hne _]%Forall_cons].
      by rewrite Hne in He.
Qed.

(** ** Witnesses *)

Definition okp_key (x : string) : jwk :=
  [(js "kty", JString (js "OKP")); (js "crv", JString (js "Ed25519")); (js "x", JString (js x))].
Definition thumb_of (k : jwk) : jsstr :=
  match @synchronousJwkThumbprint Sha256_instance k INVALID_ISSUANCE with Ok t => t | Throw _ => [] end.
Definition example_domain : jsstr := js "bot.example.com".
Definition example_event (t : Z) (p : event_payload) : LogEvent :=
  mkEvent example_domain (Some t) None None None None [] p.
Definition example_history : list LogEvent :=
  [ example_event 1 (ISSUANCE (mkIssuance (js "example.com") None None (Some (okp_key "b3BLZXk"))
      (Some (thumb_of (okp_key "b3BLZXk"))) None None (Some (okp_key "ZW50aXR5"))
      (Some (thumb_of (okp_key "ZW50aXR5"))) None None None None None None None));
    example_event 2 (KEY_ROTATION (mkRotation [] (thumb_of (okp_key "b3BLZXk")) [] []
      (thumb_of (okp_key "bmV4dA")) (okp_key "bmV4dA")));
    example_event 3 RETIREMENT ].
Definition example_snapshot (state : AgentStatusState) (at_ bound : Z) (key : jwk) (n : nat) : DomainSnapshot :=
  mkSnapshot example_domain state key (thumb_of key) (Some bound) (js "example.com") (Some at_)
    (take n example_history).

Lemma snapshotAt_refines_witness :
  lifecycle_run (take 2 example_history) (Alive (thumb_of (okp_key "bmV4dA")) (js "example.com")).
Proof.
  apply (@snapshotAt_refines Sha256_instance example_domain example_history (Some 2)
           (example_snapshot ACTIVE 2 2 (okp_key "bmV4dA") 2)).
  vm_compute. reflexivity.
Defined.

Lemma snapshotAt_history_witness : exists first rest, example_history = first :: rest
  /\ is_issuance first = true /\ no_issuance rest.
Proof.
  destruct (@snapshotAt_history Sha256_instance example_domain example_history (Some 9)
    (example_snapshot RETIRED 9 2 (okp_key "bmV4dA") 3)) as (first & rest & E & Hf & Hr & _).
  - vm_compute. reflexivity.
  - exists first, rest. split; [exact E|]. split; [exact Hf|exact Hr].
Defined.

(** A snapshot before the first event, and one that is no prefix. *)
Example snapshot_errors :
  @snapshotAt Sha256_instance example_domain example_history (Some 0)
    = Throw (lifecycleError "no lifecycle events" SNAPSHOT_EMPTY)
  /\ @snapshotAt Sha256_instance example_domain (example_history ++ take 1 example_history) (Some 2)
    = Throw (lifecycleError "snapshot time is not a verified lifecycle prefix" SNAPSHOT_NON_PREFIX).
Proof. split; vm_compute; reflexivity. Qed.
