(* ===== verification/StreamVerifier.v ===== *)
(** Verification of a lifecycle stream: [log-c2sp-tlog/src/stream-verifier.ts].

    The functions are those of a run whose abort signal does not fire; a signal
    that fires makes the surrounding budget throw ([Budget]).  The callback that
    verifies a migration is external and may answer differently on every call. *)

From S2P Require Import Prelude JsString Base64 Sha256 Merkle Url Utils Json Jwk EventCodec Lifecycle.
From S2P Require Import Lr CheckpointTrust.

(** ** Data *)

Record VerifiedLifecycleEvent := mkVerifiedEvent {
  ve_index : Z;
  ve_leafHash : bytes;
  ve_bytes : bytes;
  ve_event : LogEvent
}.

Record MigrationVerificationResult := mkMigrationResult {
  mr_entityKey : jwk;
  mr_activeOperationalKey : jwk;
  mr_priorHistory : list LogEvent;
  mr_priorHistoryReferences : option (list jsstr)
}.

(** [so_verifyMigration asked] is the callback's answer to an event after it was asked
    about the events [asked]: any function of what it has seen. *)
Record StreamVerifierOptions := mkStreamOptions {
  so_context : C2spEventContext;
  so_signerKey : option jwk;
  so_checkpointIntegrationTimeMs : option Z;
  so_verifyMigration : option (list LogEvent -> LogEvent -> res MigrationVerificationResult)
}.

Definition verr (message : string) : exn := C2spTlogVerificationError message.
Definition verr_in (message : string) (category : LifecycleErrorCategory) : exn :=
  C2spTlogVerificationErrorIn message category.
Definition invalid_migration {A} : res A := Throw (verr_in "invalid MIGRATION history" INVALID_MIGRATION).

(** [error instanceof C2spTlogResourceLimitError || error instanceof RangeError] *)
Definition is_resource_error (e : exn) : bool :=
  match e with
  | EVerification v => bool_decide (ve_class v = C2spTlogResourceLimitErrorClass)
  | ERange _ => true
  | _ => false
  end.

(** ** Migration history *)

(** [/^[a-z][a-z0-9-]*:.+/]: the dot does not match line terminators. *)
Definition is_line_end (u : Z) : bool := (u =? 10) || (u =? 13) || (u =? 8232) || (u =? 8233).
Fixpoint log_reference_tail (s : jsstr) : bool :=
  match s with
  | u :: r =>
      if u =? 58 then match r with v :: _ => negb (is_line_end v) | [] => false end
      else (is_lower u || is_digit u || (u =? 45)) && log_reference_tail r
  | [] => false
  end.
Definition is_log_reference (s : jsstr) : bool :=
  match s with u :: r => is_lower u && log_reference_tail r | [] => false end.

Definition assertLogReference (reference : jsstr) : res unit :=
  throw_if (negb (is_log_reference reference))
    (verr_in "MIGRATION prior history contains a malformed log reference" INVALID_MIGRATION).

Definition method_of (reference : jsstr) : jsstr := List.hd [] (split_on 58 reference).

Section Verifier.
Context `{H256 : Hash256} `{Url : URLApi} `{Uni : Unicode} `{Jwk : JwkApi}.

Definition assertReferenceBelongsToLog (reference logReference : jsstr) : res unit :=
  assertLogReference reference;;
  assertLogReference logReference;;
  throw_if (negb (bool_decide (method_of reference = method_of logReference)))
    (verr_in "MIGRATION event reference does not belong to its signed log" INVALID_MIGRATION);;
  if startsWith reference (js "c2sp-tlog:") || startsWith logReference (js "c2sp-tlog:") then
    catch (event ← parseC2spTlogLr reference;
           log ← parseC2spTlogLr logReference;
           throw_if (negb (is_none (lr_entryIndex log)) || is_none (lr_entryIndex event)
                     || negb (bool_decide (lr_lr event = lr_lr log))) (EError ""))
      (fun _ => Throw (verr_in "MIGRATION C2SP event reference does not belong to its signed log" INVALID_MIGRATION))
  else Ok tt.

(** The loop from the last reference to the first; [later] are the pairs not yet
    visited, last first. *)
Fixpoint check_references (expectedLog : jsstr) (later : list (LogEvent * jsstr)) : res unit :=
  match later with
  | [] => Ok tt
  | (event, reference) :: earlier =>
      assertReferenceBelongsToLog reference expectedLog;;
      match ev_payload event with
      | MIGRATION previousLog newLog finalEntryRef =>
          throw_if (negb (bool_decide (newLog = expectedLog))
                    || match earlier with
                       | (_, r) :: _ => negb (bool_decide (r = finalEntryRef))
                       | [] => true
                       end)
            (verr_in "nested MIGRATION prior history does not end at signed prev_ref" INVALID_MIGRATION);;
          assertReferenceBelongsToLog finalEntryRef previousLog;;
          check_references previousLog earlier
      | _ => check_references expectedLog earlier
      end
  end.

Definition validatePriorHistoryReferences (previousLog finalEntryRef : jsstr)
    (migration : MigrationVerificationResult) : res unit :=
  match mr_priorHistoryReferences migration with
  | Some references =>
      throw_if (negb (length references =? length (mr_priorHistory migration))%nat
                || (length references =? 0)%nat)
        (verr_in "MIGRATION prior history has missing or mismatched verified references" INVALID_MIGRATION);;
      for_each (fun _ r => assertLogReference r) references tt;;
      throw_if (negb (bool_decide (last references = Some finalEntryRef)))
        (verr_in "MIGRATION prior history does not end at signed prev_ref" INVALID_MIGRATION);;
      check_references previousLog (rev (combine (mr_priorHistory migration) references))
  | None => Throw (verr_in "MIGRATION prior history has missing or mismatched verified references" INVALID_MIGRATION)
  end.

(** [events.reduce((latest, event) => Math.max(latest, event.timestamp.getTime()), 0)] *)
Definition latest_time (events : list LogEvent) : date :=
  foldl (fun latest e => match latest, ev_timestamp e with
                         | Some a, Some b => Some (Z.max a b)
                         | _, _ => None
                         end) (Some 0) events.

Definition same_migration (prev new ref : jsstr) (e : LogEvent) : bool :=
  match ev_payload e with
  | MIGRATION p n r => bool_decide (p = prev) && bool_decide (n = new) && bool_decide (r = ref)
  | _ => false
  end.

Definition stitchVerifiedMigrationHistory (domain : jsstr) (currentEvents : list LogEvent)
    (migration : MigrationVerificationResult) : res (list LogEvent) :=
  match currentEvents with
  | inbound :: _ =>
      match ev_payload inbound with
      | MIGRATION prev new ref =>
          throw_if (length (mr_priorHistory migration) =? 0)%nat
            (verr_in "MIGRATION requires stitched verified prior-log history" INVALID_MIGRATION);;
          throw_if (existsb (same_migration prev new ref) (mr_priorHistory migration))
            (verr_in "MIGRATION event must appear exactly once in stitched history" INVALID_MIGRATION);;
          (if is_none (mr_priorHistoryReferences migration) then Ok tt
           else validatePriorHistoryReferences prev ref migration);;
          priorSnapshot ← snapshotAt domain (mr_priorHistory migration)
                            (latest_time (mr_priorHistory migration));
          throw_if (negb (bool_decide (sn_historicalState priorSnapshot = ACTIVE)))
            (verr_in "MIGRATION prior history does not establish the imported active key" INVALID_MIGRATION);;
          thumb ← jwkThumbprint (mr_activeOperationalKey migration);
          throw_if (negb (bool_decide (sn_activeKeyThumbprint priorSnapshot = thumb)))
            (verr_in "MIGRATION prior history does not establish the imported active key" INVALID_MIGRATION);;
          priorEntityKey ← match List.find is_issuance (mr_priorHistory migration) with
                           | Some e =>
                               match ev_payload e with
                               | ISSUANCE i => Ok (fst (issuance_entity i))
                               | _ => invalid_migration
                               end
                           | None => invalid_migration
                           end;
          match priorEntityKey with
          | Some key =>
              t1 ← jwkThumbprint key;
              t2 ← jwkThumbprint (mr_entityKey migration);
              throw_if (negb (bool_decide (t1 = t2)))
                (verr_in "MIGRATION prior history does not establish the imported entity key" INVALID_MIGRATION)
          | None =>
              Throw (verr_in "MIGRATION prior history does not establish the imported entity key" INVALID_MIGRATION)
          end;;
          let stitched := mr_priorHistory migration ++ currentEvents in
          snapshotAt domain stitched (latest_time stitched);;
          Ok stitched
      | _ => Throw (verr_in "MIGRATION requires stitched verified prior-log history" INVALID_MIGRATION)
      end
  | [] => Throw (verr_in "MIGRATION requires stitched verified prior-log history" INVALID_MIGRATION)
  end.

Definition stitchVerifiedMigrationReferences (currentEvents : list LogEvent)
    (currentReferences : list jsstr) (migration : MigrationVerificationResult) : res (list jsstr) :=
  match currentEvents with
  | inbound :: _ =>
      match ev_payload inbound with
      | MIGRATION prev new ref =>
          throw_if (negb (length currentEvents =? length currentReferences)%nat)
            (verr_in "MIGRATION has mismatched destination history references" INVALID_MIGRATION);;
          validatePriorHistoryReferences prev ref migration;;
          for_each (fun _ r => assertReferenceBelongsToLog r new) currentReferences tt;;
          Ok (default [] (mr_priorHistoryReferences migration) ++ currentReferences)
      | _ => Throw (verr_in "MIGRATION has mismatched destination history references" INVALID_MIGRATION)
      end
  | [] => Throw (verr_in "MIGRATION has mismatched destination history references" INVALID_MIGRATION)
  end.

(** ** Lifecycle states and chain fields *)

Definition stateHash (state : json) : res jsstr :=
  bs ← canonicalBytes state;
  Ok (b64url (sha256 [utf8_encode (js "dnsid-c2sp-state-v1"); bs])).

Definition state_json (domain status entity_thumb operational_thumb : jsstr) : json :=
  JObject [(js "fqdn", JString domain); (js "status", JString status);
           (js "entity_thumb", JString entity_thumb); (js "operational_thumb", JString operational_thumb)].

Definition activeState (domain : jsstr) (entityKey operationalKey : jwk) (status : string) : res json :=
  e ← jwkThumbprint entityKey;
  o ← jwkThumbprint operationalKey;
  Ok (state_json domain (js status) e o).

Definition nextState (previous : json) (event : LogEvent) (entityKey operationalKey : jwk) : res json :=
  match ev_payload event with
  | DELEGATION _ _ _ => Ok previous
  | REVOCATION _ => activeState (ev_domain event) entityKey operationalKey "REVOKED"
  | RETIREMENT => activeState (ev_domain event) entityKey operationalKey "RETIRED"
  | _ => activeState (ev_domain event) entityKey operationalKey "ACTIVE"
  end.

Definition chain_of (e : LogEvent) (name : string) : json := get (ev_chain e) name.

Definition safe_int (v : json) : option Z :=
  match v with
  | JNumber (NInt z) => if isSafeInteger z then Some z else None
  | JNumber NNegZero => Some 0
  | _ => None
  end.

Definition assertChainFields (event : LogEvent) (prev : VerifiedLifecycleEvent) (prevState : json) : res unit :=
  match safe_int (chain_of (ve_event prev) "seq") with
  | Some n => throw_if (negb (strict_eq (chain_of event "seq") (JNumber (NInt (n + 1)))))
                (verr_in "invalid seq" CHAIN_CONTINUITY)
  | None => Throw (verr_in "invalid seq" CHAIN_CONTINUITY)
  end;;
  signed ← signedC2spEntryBytes (ve_bytes prev);
  throw_if (negb (strict_eq (chain_of event "prev_event_id") (JString (c2spEventId signed))))
    (verr_in "invalid prev_event_id" CHAIN_CONTINUITY);;
  h ← stateHash prevState;
  throw_if (negb (strict_eq (chain_of event "prev_state_hash") (JString h)))
    (verr_in "invalid prev_state_hash" CHAIN_CONTINUITY).

Definition assertFirstChainFields (event : LogEvent) : res unit :=
  throw_if (negb (strict_eq (chain_of event "seq") (JNumber (NInt 0))))
    (verr_in "first public lifecycle event must have seq 0" CHAIN_CONTINUITY);;
  throw_if (negb (is_undef (chain_of event "prev_event_id")) || negb (is_undef (chain_of event "prev_state_hash")))
    (verr_in "first public lifecycle event must not contain previous-chain fields" CHAIN_CONTINUITY).

(** ** Keys and signatures *)

Definition verifyEventSignature (item : VerifiedLifecycleEvent) (signature : jsstr) (key : jwk) : res unit :=
  signed ← signedC2spEntryBytes (ve_bytes item);
  sig ← fromBase64Url signature;
  throw_if (negb (verifyWithKey signed sig key None))
    (newVerificationError "invalid event signature" SignatureInvalid None false).

Definition verifyLoggedEventSignature (item : VerifiedLifecycleEvent) (signerKey : jwk) : res unit :=
  sig ← of_option (ev_sig (ve_event item)) (verr "missing signature");
  throw_if (length sig =? 0)%nat (verr "missing signature");;
  verifyEventSignature item sig signerKey.

Definition assertC2spIssuanceEvent (i : IssuanceFields) : res C2spIssuance :=
  of_option (c2sp_issuance i)
    (verr_in "ISSUANCE is missing c2sp-tlog key metadata" INVALID_ISSUANCE).

Definition assertIssuanceKeyMetadata (c : C2spIssuance) : res unit :=
  let bad message := verr_in message INVALID_ISSUANCE in
  assertSupportedLifecycleJwk (ci_operationalKey c);;
  assertSupportedLifecycleJwk (ci_entityKey c);;
  t ← jwkThumbprint (ci_operationalKey c);
  throw_if (negb (bool_decide (ci_operationalThumb c = t)))
    (bad "ISSUANCE operational thumbprint does not match public key"%string);;
  t ← jwkThumbprint (ci_entityKey c);
  throw_if (negb (bool_decide (ci_entityThumb c = t)))
    (bad "ISSUANCE entity thumbprint does not match public key"%string);;
  throw_if (negb (strict_eq (JString (ci_operationalKid c)) (get (ci_operationalKey c) "kid"))
            || negb (strict_eq (JString (ci_operationalAlg c)) (get (ci_operationalKey c) "alg")))
    (bad "ISSUANCE operational key metadata mismatch"%string);;
  throw_if (negb (strict_eq (JString (ci_entityKid c)) (get (ci_entityKey c) "kid"))
            || negb (strict_eq (JString (ci_entityAlg c)) (get (ci_entityKey c) "alg")))
    (bad "ISSUANCE entity key metadata mismatch"%string).

Definition assertRotationKeyMetadata (r : RotationFields) : res unit :=
  assertSupportedLifecycleJwk (r_newOperationalPublicKey r);;
  t ← jwkThumbprint (r_newOperationalPublicKey r);
  throw_if (negb (bool_decide (r_newOperationalThumbprint r = t)))
    (verr_in "KEY_ROTATION new thumbprint does not match public key" KEY_CONTINUITY);;
  throw_if (negb (strict_eq (JString (r_newOperationalKid r)) (get (r_newOperationalPublicKey r) "kid"))
            || negb (strict_eq (JString (r_newOperationalAlg r)) (get (r_newOperationalPublicKey r) "alg")))
    (verr_in "KEY_ROTATION new key metadata mismatch" KEY_CONTINUITY).

Definition assertDistinctLifecycleKeys (entityKey operationalKey : jwk) (issuance : bool) : res unit :=
  e ← jwkThumbprint entityKey;
  o ← jwkThumbprint operationalKey;
  throw_if (bool_decide (e = o))
    (verr_in "entity and operational keys must be distinct" (if issuance then INVALID_ISSUANCE else KEY_CONTINUITY)).

(** ** Verification of a lifecycle

    The state that the calls of the migration callback leave behind: the event
    asked about last (by its place in the stream), its result, whether a call
    failed, and the events asked about so far. *)
Record migration_memo := mkMemo {
  mm_event : option nat;
  mm_result : option MigrationVerificationResult;
  mm_failed : bool;
  mm_asked : list LogEvent
}.
Definition no_memo : migration_memo := mkMemo None None false [].

(** A computation that may throw and updates the memo. *)
Definition SM (A : Type) : Type := migration_memo -> res A * migration_memo.
Definition sm_ret {A} (r : res A) : SM A := fun m => (r, m).
Definition sm_bind {A B} (c : SM A) (f : A -> SM B) : SM B := fun m =>
  match c m with
  | (Ok a, m) => f a m
  | (Throw e, m) => (Throw e, m)
  end.
Local Notation "x <-- c ;; k" := (sm_bind c (fun x => k)) (at level 100, c at next level, right associativity).

(** The callback, as the caller of [verifyLifecycle] supplies it: it is told the
    place of the event in the stream. *)
Definition migration_verifier : Type := nat -> LogEvent -> SM MigrationVerificationResult.

(** The callback of a direct call. *)
Definition plain_verifier (f : list LogEvent -> LogEvent -> res MigrationVerificationResult) : migration_verifier :=
  fun _ event m => (f (mm_asked m) event, mkMemo (mm_event m) (mm_result m) (mm_failed m) (mm_asked m ++ [event])).

(** The wrapper of [verifyStreamWithinBudget], which keeps the last answer. *)
Definition memo_verifier (f : list LogEvent -> LogEvent -> res MigrationVerificationResult) : migration_verifier :=
  fun place event m =>
    match (if bool_decide (mm_event m = Some place) then mm_result m else None) with
    | Some r => (Ok r, m)
    | None =>
        match f (mm_asked m) event with
        | Ok r => (Ok r, mkMemo (Some place) (Some r) (mm_failed m) (mm_asked m ++ [event]))
        | Throw e => (Throw e, mkMemo (Some place) (mm_result m) true (mm_asked m ++ [event]))
        end
    end.

(** The local variables of the loop. *)
Record verification := mkVerification {
  vf_terminal : bool;
  vf_prevState : json;
  vf_entityKey : option jwk;
  vf_activeKey : option jwk
}.
Definition start_verification : verification := mkVerification false JNull None None.

Definition is_terminal (e : LogEvent) : bool :=
  match ev_payload e with REVOCATION _ | RETIREMENT => true | _ => false end.
Definition is_migration (e : LogEvent) : bool :=
  match ev_payload e with MIGRATION _ _ _ => true | _ => false end.

(** The checks that every event passes before its signatures are looked at. *)
Definition check_structure (options : StreamVerifierOptions) (s : verification)
    (prev : option VerifiedLifecycleEvent) (event : LogEvent) : res unit :=
  throw_if (vf_terminal s) (verr_in "event appears after terminal lifecycle event" TERMINAL_STATE);;
  throw_if (is_none prev && negb (is_issuance event) && negb (is_migration event))
    (verr_in "first lifecycle event must be ISSUANCE or verified MIGRATION" GENESIS_REQUIRED);;
  throw_if (negb (is_none prev) && is_issuance event) (verr_in "duplicate ISSUANCE event" DUPLICATE_ISSUANCE);;
  throw_if (negb (is_none prev) && is_migration event)
    (verr_in "MIGRATION must be destination-stream genesis" INVALID_MIGRATION);;
  timestamp ← of_option (ev_timestamp event) (verr "invalid lifecycle timestamp");
  throw_if (match ev_payload event with
            | MIGRATION p n r => (length p =? 0)%nat || (length n =? 0)%nat || bool_decide (p = n) || (length r =? 0)%nat
            | _ => false
            end) (verr_in "invalid MIGRATION" INVALID_MIGRATION);;
  limit ← of_option (so_checkpointIntegrationTimeMs options)
            (verr "accepted checkpoint integration time is required");
  throw_if (limit <? timestamp) (verr "event timestamp is later than checkpoint integration time");;
  throw_if (existsb (fun name => has_member (ev_chain event) (js name)) ["event_id"; "prev_index"; "prev_leaf_hash"]%string)
    (verr_in "prohibited chain field" CHAIN_CONTINUITY);;
  match prev with
  | None => assertFirstChainFields event
  | Some prev => assertChainFields event prev (vf_prevState s)
  end;;
  throw_if (negb (filled (ev_sig event))) (verr "missing signature").

Definition signature_of (event : LogEvent) : jsstr := default [] (ev_sig event).

Definition verify_issuance (options : StreamVerifierOptions) (s : verification)
    (item : VerifiedLifecycleEvent) (i : IssuanceFields) : res verification :=
  c ← assertC2spIssuanceEvent i;
  assertIssuanceKeyMetadata c;;
  assertDistinctLifecycleKeys (ci_entityKey c) (ci_operationalKey c) true;;
  match so_signerKey options with
  | Some k =>
      t ← jwkThumbprint k;
      throw_if (negb (bool_decide (t = ci_entityThumb c)))
        (verr "ISSUANCE entity key does not match trusted entity key")
  | None => Ok tt
  end;;
  verifyEventSignature item (signature_of (ve_event item)) (ci_entityKey c);;
  throw_if (negb (filled (ev_operationalCountersig (ve_event item))))
    (verr "ISSUANCE missing operational countersignature");;
  verifyEventSignature item (default [] (ev_operationalCountersig (ve_event item))) (ci_operationalKey c);;
  Ok (mkVerification (vf_terminal s)
        (state_json (ev_domain (ve_event item)) (js "ACTIVE") (ci_entityThumb c) (ci_operationalThumb c))
        (Some (ci_entityKey c)) (Some (ci_operationalKey c))).

Definition verify_migrated (options : StreamVerifierOptions) (s : verification)
    (item : VerifiedLifecycleEvent) (migrated : MigrationVerificationResult) : res verification :=
  let entityKey := mr_entityKey migrated in
  let activeKey := mr_activeOperationalKey migrated in
  assertSupportedLifecycleJwk entityKey;;
  assertSupportedLifecycleJwk activeKey;;
  assertDistinctLifecycleKeys entityKey activeKey false;;
  match so_signerKey options with
  | Some k =>
      t1 ← jwkThumbprint k;
      t2 ← jwkThumbprint entityKey;
      throw_if (negb (bool_decide (t1 = t2))) (verr "MIGRATION entity key does not match trusted entity key")
  | None => Ok tt
  end;;
  throw_if (negb (strict_eq (match ev_signingKid (ve_event item) with Some k => JString k | None => JUndefined end)
                    (get entityKey "kid")))
    (verr "MIGRATION signature kid does not match entity key");;
  verifyEventSignature item (signature_of (ve_event item)) entityKey;;
  state ← activeState (ev_domain (ve_event item)) entityKey activeKey "ACTIVE";
  Ok (mkVerification (vf_terminal s) state (Some entityKey) (Some activeKey)).

Definition verify_rotation (item : VerifiedLifecycleEvent) (r : RotationFields)
    (entityKey activeKey : jwk) : res jwk :=
  activeThumbprint ← jwkThumbprint activeKey;
  throw_if (negb (bool_decide (r_previousOperationalThumbprint r = activeThumbprint))
            || negb (strict_eq (JString (r_previousOperationalKid r)) (get activeKey "kid")))
    (verr_in "KEY_ROTATION previous operational key does not match active key" KEY_CONTINUITY);;
  assertRotationKeyMetadata r;;
  throw_if (bool_decide (r_newOperationalThumbprint r = activeThumbprint))
    (verr_in "KEY_ROTATION new operational key must differ from active key" KEY_CONTINUITY);;
  assertDistinctLifecycleKeys entityKey (r_newOperationalPublicKey r) false;;
  verifyEventSignature item (signature_of (ve_event item)) activeKey;;
  throw_if (negb (filled (ev_newOperationalProof (ve_event item))))
    (verr "KEY_ROTATION missing new operational proof of possession");;
  verifyEventSignature item (default [] (ev_newOperationalProof (ve_event item))) (r_newOperationalPublicKey r);;
  Ok (r_newOperationalPublicKey r).

(** Events after genesis. *)
Definition verify_later (s : verification) (item : VerifiedLifecycleEvent) : res verification :=
  let event := ve_event item in
  match vf_entityKey s, vf_activeKey s with
  | Some entityKey, Some activeKey =>
      activeKey ← match ev_payload event with
                  | KEY_ROTATION r => verify_rotation item r entityKey activeKey
                  | payload =>
                      throw_if (negb (strict_eq (match ev_signingKid event with Some k => JString k | None => JUndefined end)
                                        (get entityKey "kid")))
                        (verr "signature kid does not match entity key");;
                      verifyEventSignature item (signature_of event) entityKey;;
                      throw_if (match payload with
                                | REVOCATION reason => negb (bool_decide (reason ∈ REVOCATION_REASONS))
                                | _ => false
                                end) (verr_in "invalid REVOCATION reason" INVALID_EVIDENCE);;
                      Ok activeKey
                  end;
      state ← nextState (vf_prevState s) event entityKey activeKey;
      Ok (mkVerification (vf_terminal s) state (Some entityKey) (Some activeKey))
  | _, _ => Throw (verr "lifecycle keys were not established by ISSUANCE")
  end.

(** One turn of the loop; [place] is the place of the genesis event in the stream. *)
Definition verify_step (options : StreamVerifierOptions) (verifier : option migration_verifier) (place : nat)
    (s : verification) (prev : option VerifiedLifecycleEvent) (item : VerifiedLifecycleEvent) : SM verification :=
  let event := ve_event item in
  _ <-- sm_ret (check_structure options s prev event);;
  s' <-- match ev_payload event with
         | ISSUANCE i => sm_ret (verify_issuance options s item i)
         | MIGRATION _ newLog _ =>
             if is_none prev then
               match verifier with
               | Some verifyMigration =>
                   _ <-- sm_ret (throw_if (match cx_lr (so_context options) with
                                           | Some lr => negb (length lr =? 0)%nat && negb (bool_decide (newLog = lr))
                                           | None => false
                                           end)
                                   (verr_in "MIGRATION new_lr does not match the current C2SP stream" INVALID_MIGRATION));;
                   migrated <-- verifyMigration place event;;
                   sm_ret (verify_migrated options s item migrated)
               | None => sm_ret (Throw (verr_in "MIGRATION requires verified prior-log history" INVALID_MIGRATION))
               end
             else sm_ret (verify_later s item)
         | _ => sm_ret (verify_later s item)
         end;;
  sm_ret (Ok (mkVerification (is_terminal event || vf_terminal s') (vf_prevState s') (vf_entityKey s') (vf_activeKey s'))).

Fixpoint verify_loop (options : StreamVerifierOptions) (verifier : option migration_verifier) (place : nat)
    (s : verification) (prev : option VerifiedLifecycleEvent) (items : list VerifiedLifecycleEvent) : SM verification :=
  match items with
  | [] => sm_ret (Ok s)
  | item :: items =>
      s <-- verify_step options verifier place s prev item;;
      verify_loop options verifier place s (Some item) items
  end.

Definition verifyLifecycle (options : StreamVerifierOptions) (verifier : option migration_verifier) (place : nat)
    (events : list VerifiedLifecycleEvent) : SM unit :=
  _ <-- sm_ret (throw_if (10000 <? zlen events) (verr "lifecycle history exceeds 10000 events"));;
  _ <-- sm_ret (throw_if (length events =? 0)%nat (verr_in "lifecycle contains no ISSUANCE event" GENESIS_REQUIRED));;
  _ <-- verify_loop options verifier place start_verification None events;;
  sm_ret (Ok tt).

(** ** Selection of a domain's events *)

Record AppliedEntry := mkApplied { ap_signed : jsstr; ap_entityKey : jwk; ap_operationalKey : jwk }.

(** The local variables of [verifyStreamWithinBudget]. *)
Record stream_state := mkStream {
  st_selected : list VerifiedLifecycleEvent;
  st_applied : gmap jsstr AppliedEntry;
  st_entityKey : option jwk;
  st_activeKey : option jwk;
  st_genesis : nat;
  st_memo : migration_memo
}.
Definition empty_stream : stream_state := mkStream [] ∅ None None 0 no_memo.

(** [JSON.parse(new TextDecoder().decode(bytes))] on bytes known to be UTF-8. *)
Definition parse_utf8_json (bs : bytes) : res json :=
  text ← of_option (utf8_decode bs) (EError "TypeError");
  JSON_parse text.

(** A property of any value; reading one of [null] or [undefined] throws. *)
Definition prop (v : json) (name : string) : res json :=
  match v with
  | JObject members => Ok (get members name)
  | JNull | JUndefined => Throw (EError "TypeError")
  | _ => Ok JUndefined
  end.

Definition as_key (v : json) : res jwk :=
  match v with
  | JObject key => Ok key
  | JNull | JUndefined => Throw (EError "TypeError")
  | _ => Ok []
  end.

(** One role's signature, under the key that holds the role. *)
Definition role_verified (bs : bytes) (envelope : json) (entityKey operationalKey : jwk)
    (role : string) (signature : option C2spSignatureValue) : res bool :=
  match signature with
  | None => Ok true
  | Some signature =>
      key ← (if String.eqb role "ae" then Ok entityKey
             else if String.eqb role "prev_op" then Ok operationalKey
             else v ← prop envelope (if String.eqb role "op" then "ku" else "new_ku"); as_key v);
      assertSupportedLifecycleJwk key;;
      if negb (strict_eq (JString (sv_kid signature)) (get key "kid")) then Ok false
      else
        signed ← signedC2spEntryBytes bs;
        sig ← fromBase64Url (sv_sig signature);
        Ok (verifyWithKey signed sig key None)
  end.

Definition hasAllRoleSignatures (bs : bytes) (entityKey operationalKey : jwk) : res bool :=
  catch
    (envelope ← parse_utf8_json bs;
     sigs ← prop envelope "sigs";
     type ← prop envelope "type";
     signatures ← parseC2spSignatures sigs (default [] (as_str type)) true;
     for_each (fun (ok : bool) rs =>
                 if ok then role_verified bs envelope entityKey operationalKey (fst rs) (snd rs) else Ok false)
       [("ae", s_ae signatures); ("op", s_op signatures);
        ("prev_op", s_prev_op signatures); ("new_op", s_new_op signatures)]%string true)
    (fun error => if is_resource_error error then Throw error else Ok false).

(** What the first [try] of the loop yields: the signed bytes and the envelope of an
    entry of the domain; [None] is [continue]. *)
Definition read_candidate (options : StreamVerifierOptions) (domain : jsstr) (bs : bytes)
    : res (option (bytes * json)) :=
  catch
    (authorization ← parseC2spAuthorization bs (so_context options);
     if negb (bool_decide (au_domain authorization = domain)) then Ok None
     else
       signedBytes ← signedC2spEntryBytes bs;
       envelope ← parse_utf8_json signedBytes;
       Ok (Some (signedBytes, envelope)))
    (fun error => if is_resource_error error then Throw error else Ok None).

Definition wrapped (options : StreamVerifierOptions) : option migration_verifier :=
  memo_verifier <$> so_verifyMigration options.

Definition candidate_of (entry : IndexedEntry) (event : LogEvent) : VerifiedLifecycleEvent :=
  mkVerifiedEvent (ie_index entry) (leafHash (ie_bytes entry)) (ie_bytes entry) event.

(** Genesis: a candidate whose verification fails is skipped, except a migration
    that cannot be verified. *)
Definition try_genesis (options : StreamVerifierOptions) (s : stream_state) (place : nat)
    (entry : IndexedEntry) (event : LogEvent) (entryId signed : jsstr) : res stream_state :=
  let candidate := candidate_of entry event in
  let '(r, memo) := verifyLifecycle options (wrapped options) place [candidate] (st_memo s) in
  let s := mkStream (st_selected s) (st_applied s) (st_entityKey s) (st_activeKey s) (st_genesis s) memo in
  match r with
  | Throw error =>
      if is_resource_error error then Throw error
      else if is_migration event && (is_none (so_verifyMigration options) || mm_failed memo) then
        match error with
        | EVerification v =>
            if (bool_decide (ve_class v = C2spTlogVerificationErrorClass)
                || bool_decide (ve_class v = MissingC2spConsistencyEvidenceErrorClass)
                || bool_decide (ve_class v = C2spCheckpointConsistencyErrorClass)
                || bool_decide (ve_class v = C2spCheckpointStoreErrorClass))
               && bool_decide (ve_errorCategory v = Some INVALID_MIGRATION)
            then Throw error
            else Throw (verr_in "MIGRATION requires verifiable prior-log history" INVALID_MIGRATION)
        | _ => Throw (verr_in "MIGRATION requires verifiable prior-log history" INVALID_MIGRATION)
        end
      else Ok s
  | Ok _ =>
      keys ← match ev_payload event with
             | ISSUANCE i => c ← assertC2spIssuanceEvent i; Ok (Some (ci_entityKey c), Some (ci_operationalKey c))
             | MIGRATION _ _ _ =>
                 match mm_result memo with
                 | Some m => Ok (Some (mr_entityKey m), Some (mr_activeOperationalKey m))
                 | None => Ok (st_entityKey s, st_activeKey s)
                 end
             | _ => Ok (st_entityKey s, st_activeKey s)
             end;
      Ok (mkStream [candidate]
            (<[entryId := mkApplied signed (default [] (fst keys)) (default [] (snd keys))]> (st_applied s))
            (fst keys) (snd keys) place memo)
  end.

(** A later candidate must keep the whole history valid. *)
Definition extend (options : StreamVerifierOptions) (s : stream_state) (entry : IndexedEntry)
    (event : LogEvent) (entryId signed : jsstr) : res stream_state :=
  match st_entityKey s, st_activeKey s with
  | Some entityKey, Some activeKey =>
      let selected := st_selected s ++ [candidate_of entry event] in
      let '(r, memo) := verifyLifecycle options (wrapped options) (st_genesis s) selected (st_memo s) in
      r;;
      let activeKey := match ev_payload event with
                       | KEY_ROTATION r => r_newOperationalPublicKey r
                       | _ => activeKey
                       end in
      Ok (mkStream selected (<[entryId := mkApplied signed entityKey activeKey]> (st_applied s))
            (Some entityKey) (Some activeKey) (st_genesis s) memo)
  | _, _ => Throw (verr_in "lifecycle keys were not established by genesis" INVALID_EVIDENCE)
  end.

(** The key authority that a candidate's signatures are checked against: the state
    after the predecessor it names, or the current one. *)
Definition authority (s : stream_state) (envelope : json) : jwk * jwk :=
  let prior := match envelope with
               | JObject e => match get e "prev_event_id" with JString id => st_applied s !! id | _ => None end
               | _ => None
               end in
  match prior with
  | Some p => (ap_entityKey p, ap_operationalKey p)
  | None => (default [] (st_entityKey s), default [] (st_activeKey s))
  end.

(** One turn of the loop over the entries. *)
Definition stream_step (options : StreamVerifierOptions) (domain : jsstr) (s : stream_state)
    (placed : nat * IndexedEntry) : res stream_state :=
  let '(place, entry) := placed in
  let bs := ie_bytes entry in
  candidate ← read_candidate options domain bs;
  match candidate with
  | None => Ok s
  | Some (signedBytes, envelope) =>
      let entryId := c2spEventId signedBytes in
      let signed := b64url signedBytes in
      match st_applied s !! entryId with
      | Some applied =>
          throw_if (negb (bool_decide (ap_signed applied = signed))) (verr "logical event ID collision");;
          Ok s
      | None =>
          authentic ← (if (length (st_selected s) =? 0)%nat then Ok true
                       else hasAllRoleSignatures bs (fst (authority s envelope)) (snd (authority s envelope)));
          if negb authentic then Ok s
          else
            parsed ← match parseC2spEventEntry bs (so_context options) with
                     | Ok event => Ok (Some event)
                     | Throw error =>
                         if is_resource_error error then Throw error
                         else if negb (length (st_selected s) =? 0)%nat
                         then Throw (verr "authenticated lifecycle candidate is malformed")
                         else Ok None
                     end;
            match parsed with
            | None => Ok s
            | Some event =>
                if negb (bool_decide (ev_domain event = domain)) then Ok s
                else if (length (st_selected s) =? 0)%nat
                then try_genesis options s place entry event entryId signed
                else extend options s entry event entryId signed
            end
      end
  end.

Definition total_bytes (entries : list IndexedEntry) : Z :=
  foldl (fun total entry => total + zlen (ie_bytes entry)) 0 entries.

(** With the memo that the calls of the migration callback leave behind. *)
Definition verifyStreamWithinBudget (entries : list IndexedEntry) (domain : jsstr)
    (options : StreamVerifierOptions) : res (list VerifiedLifecycleEvent * migration_memo) :=
  throw_if ((1000000 <? zlen entries) || (256 * 1024 * 1024 <? total_bytes entries))
    (verr "lifecycle input exceeds resource limits");;
  s ← for_each (stream_step options domain) (imap pair (sort_by by_index entries)) empty_stream;
  let '(r, memo) := verifyLifecycle options (wrapped options) (st_genesis s) (st_selected s) (st_memo s) in
  r;;
  Ok (st_selected s, memo).

Definition verifyStreamLifecycle (entries : list IndexedEntry) (domain : jsstr)
    (options : StreamVerifierOptions) : res (list VerifiedLifecycleEvent) :=
  fst <$> verifyStreamWithinBudget entries domain options.

End Verifier.

(** ** Specification: authorized histories *)

Section Authority.
Context `{H256 : Hash256} `{Url : URLApi} `{Uni : Unicode} `{Jwk : JwkApi}.
Context (options : StreamVerifierOptions).

(** What the migration callback may have answered about an event. *)
Context (Imported : LogEvent -> MigrationVerificationResult -> Prop).

(** The entry of [item], without its signatures, is signed under [key]. *)
Definition signed_by (item : VerifiedLifecycleEvent) (signature : option jsstr) (key : jwk) : Prop :=
  exists signed sig, signedC2spEntryBytes (ve_bytes item) = Ok signed
    /\ fromBase64Url (default [] signature) = Ok sig /\ verifyWithKey signed sig key None = true.

(** The entity key is the one that the caller trusts, when it names one. *)
Definition trusted_entity (entityKey : jwk) : Prop :=
  match so_signerKey options with
  | Some k => exists t, jwkThumbprint k = Ok t /\ jwkThumbprint entityKey = Ok t
  | None => True
  end.

(** The entity key and the operational key that hold authority over an identity. *)
Definition authority_keys : Type := option (jwk * jwk).

Inductive authority_step : authority_keys -> VerifiedLifecycleEvent -> authority_keys -> Prop :=
  | authority_issuance item i c :
      ev_payload (ve_event item) = ISSUANCE i -> c2sp_issuance i = Some c ->
      jwkThumbprint (ci_entityKey c) = Ok (ci_entityThumb c) ->
      jwkThumbprint (ci_operationalKey c) = Ok (ci_operationalThumb c) ->
      ci_entityThumb c <> ci_operationalThumb c -> trusted_entity (ci_entityKey c) ->
      signed_by item (ev_sig (ve_event item)) (ci_entityKey c) ->
      signed_by item (ev_operationalCountersig (ve_event item)) (ci_operationalKey c) ->
      authority_step None item (Some (ci_entityKey c, ci_operationalKey c))
  | authority_migration item p n r migrated :
      ev_payload (ve_event item) = MIGRATION p n r -> Imported (ve_event item) migrated ->
      trusted_entity (mr_entityKey migrated) ->
      signed_by item (ev_sig (ve_event item)) (mr_entityKey migrated) ->
      authority_step None item (Some (mr_entityKey migrated, mr_activeOperationalKey migrated))
  | authority_rotation item r entityKey activeKey :
      ev_payload (ve_event item) = KEY_ROTATION r ->
      jwkThumbprint activeKey = Ok (r_previousOperationalThumbprint r) ->
      jwkThumbprint (r_newOperationalPublicKey r) = Ok (r_newOperationalThumbprint r) ->
      r_newOperationalThumbprint r <> r_previousOperationalThumbprint r ->
      signed_by item (ev_sig (ve_event item)) activeKey ->
      signed_by item (ev_newOperationalProof (ve_event item)) (r_newOperationalPublicKey r) ->
      authority_step (Some (entityKey, activeKey)) item (Some (entityKey, r_newOperationalPublicKey r))
  | authority_other item entityKey activeKey :
      match ev_payload (ve_event item) with
      | REVOCATION _ | RETIREMENT | DELEGATION _ _ _ => True
      | _ => False
      end ->
      signed_by item (ev_sig (ve_event item)) entityKey ->
      authority_step (Some (entityKey, activeKey)) item (Some (entityKey, activeKey)).

(** The n-th event carries the sequence number n and names its predecessor's payload. *)
Definition linked (prev : option VerifiedLifecycleEvent) (n : nat) (event : LogEvent) : Prop :=
  strict_eq (chain_of event "seq") (JNumber (NInt (Z.of_nat n))) = true
  /\ match prev with
     | None => is_undef (chain_of event "prev_event_id") = true
     | Some p => exists signed, signedC2spEntryBytes (ve_bytes p) = Ok signed
         /\ strict_eq (chain_of event "prev_event_id") (JString (c2spEventId signed)) = true
     end.

Definition timely (event : LogEvent) : Prop :=
  exists t limit, ev_timestamp event = Some t /\ so_checkpointIntegrationTimeMs options = Some limit /\ t <= limit.

(** A history that ends with the given authority. *)
Inductive authorized_history : list VerifiedLifecycleEvent -> authority_keys -> Prop :=
  | history_empty : authorized_history [] None
  | history_extend items item keys keys' :
      authorized_history items keys ->
      Forall (fun item => is_terminal (ve_event item) = false) items ->
      linked (last items) (length items) (ve_event item) -> timely (ve_event item) ->
      authority_step keys item keys' ->
      authorized_history (items ++ [item]) keys'.

(** ** Lemmas *)

Lemma sm_bind_Ok {A B} (c : SM A) (f : A -> SM B) m b : fst (sm_bind c f m) = Ok b ->
  exists a m', c m = (Ok a, m') /\ fst (f a m') = Ok b.
Proof. unfold sm_bind. destruct (c m) as [[a|] m'] eqn:E; [|done]. by exists a, m'. Qed.

Lemma sm_bind_ret_Ok {A B} (r : res A) (f : A -> SM B) m b : fst (sm_bind (sm_ret r) f m) = Ok b ->
  exists a, r = Ok a /\ fst (f a m) = Ok b.
Proof. unfold sm_bind, sm_ret. destruct r as [a|]; [|done]. by exists a. Qed.

Lemma verifyEventSignature_Ok item signature key : verifyEventSignature item signature key = Ok tt ->
  signed_by item (Some signature) key.
Proof. unfold verifyEventSignature. intros H. res_inv. bool_inv. by do 2 eexists. Qed.

Lemma signed_by_default item signature key : signed_by item (Some (default [] signature)) key ->
  signed_by item signature key.
Proof. done. Qed.

Definition keys_of (s : verification) : authority_keys :=
  match vf_entityKey s, vf_activeKey s with Some e, Some a => Some (e, a) | _, _ => None end.

Lemma verify_issuance_Ok s item i s' : ev_payload (ve_event item) = ISSUANCE i ->
  verify_issuance options s item i = Ok s' ->
  authority_step None item (keys_of s') /\ vf_terminal s' = vf_terminal s.
Proof.
  unfold verify_issuance, assertC2spIssuanceEvent, assertIssuanceKeyMetadata, assertDistinctLifecycleKeys.
  intros Hp H. res_inv. bool_inv. subst.
  split; [|done]. apply (authority_issuance _ i v); [done..|congruence| |by apply verifyEventSignature_Ok|
    by apply verifyEventSignature_Ok].
  unfold trusted_entity. destruct (so_signerKey options) as [k|]; [|done]. res_inv. bool_inv. subst. eauto.
Qed.

Lemma verify_migrated_Ok s item m p n r s' : ev_payload (ve_event item) = MIGRATION p n r ->
  Imported (ve_event item) m -> verify_migrated options s item m = Ok s' ->
  authority_step None item (keys_of s') /\ vf_terminal s' = vf_terminal s.
Proof.
  unfold verify_migrated. intros Hp Hm H. res_inv. bool_inv. split; [|done].
  apply (authority_migration _ p n r); [done|done| |by apply verifyEventSignature_Ok].
  unfold trusted_entity. destruct (so_signerKey options) as [k|]; [|done]. res_inv. bool_inv. subst. eauto.
Qed.

Lemma verify_rotation_Ok item r entityKey activeKey key : ev_payload (ve_event item) = KEY_ROTATION r ->
  verify_rotation item r entityKey activeKey = Ok key ->
  authority_step (Some (entityKey, activeKey)) item (Some (entityKey, key)).
Proof.
  unfold verify_rotation, assertRotationKeyMetadata. intros Hp H. res_inv. bool_inv. subst.
  apply (authority_rotation item r); [done|congruence|congruence|congruence|by apply verifyEventSignature_Ok..].
Qed.

Lemma verify_later_Ok s item s' : is_issuance (ve_event item) = false -> is_migration (ve_event item) = false ->
  verify_later s item = Ok s' ->
  authority_step (keys_of s) item (keys_of s') /\ vf_terminal s' = vf_terminal s.
Proof.
  unfold verify_later, keys_of, is_issuance, is_migration. intros Hi Hm.
  destruct (vf_entityKey s) as [ek|]; [|done]. destruct (vf_activeKey s) as [ak|]; [|done].
  intros H. apply bind_Ok in H as (ak' & Hak & H). res_inv. split; [|done]. cbn.
  destruct (ev_payload (ve_event item)) eqn:Hp; try done; [by eapply verify_rotation_Ok|..];
    res_inv; (apply authority_other; [by rewrite Hp|by apply verifyEventSignature_Ok]).
Qed.

(** What the loop maintains when it has accepted [items]. *)
Record loop_inv (items : list VerifiedLifecycleEvent) (s : verification) : Prop := {
  li_history : authorized_history items (keys_of s);
  li_terminal : vf_terminal s = existsb (fun item => is_terminal (ve_event item)) items;
  li_genesis : items = [] -> s = start_verification
}.

Lemma last_history items keys prev : authorized_history items keys -> last items = Some prev ->
  strict_eq (chain_of (ve_event prev) "seq") (JNumber (NInt (Z.of_nat (length items) - 1))) = true.
Proof.
  destruct 1 as [|items item keys keys' _ _ [Hl _] _ _]; [done|]. rewrite last_snoc. intros [= <-].
  rewrite length_app. cbn [length].
  replace (Z.of_nat (length items + 1) - 1) with (Z.of_nat (length items)) by lia. done.
Qed.

Lemma safe_int_strict v n z : strict_eq v (JNumber (NInt n)) = true -> safe_int v = Some z -> z = n.
Proof.
  destruct v as [| | |x| | |]; try done. destruct x as [k| | | |]; cbn -[isSafeInteger]; try done.
  - intros [= ->]%bool_decide_eq_true. destruct (isSafeInteger n); [congruence|done].
  - intros [= <-]%bool_decide_eq_true. congruence.
Qed.

Lemma check_structure_Ok items s prev event : loop_inv items s -> last items = prev ->
  check_structure options s prev event = Ok tt ->
  Forall (fun item => is_terminal (ve_event item) = false) items
  /\ linked (last items) (length items) event /\ timely event
  /\ (items = [] -> is_issuance event || is_migration event = true)
  /\ (items <> [] -> is_issuance event = false /\ is_migration event = false).
Proof.
  intros [Hh Ht _] <- H. unfold check_structure in H. res_inv. rewrite Ht in *.
  assert (Hn : items = [] <-> is_none (last items) = true) by (destruct items using rev_ind; [done|by rewrite last_snoc; split; [by destruct items|]]).
  split; [|split; [|split; [|split]]].
  - apply Forall_forall. intros item Hi. destruct (is_terminal (ve_event item)) eqn:E; [|done].
    assert (Hc : existsb (fun item => is_terminal (ve_event item)) items = true)
      by (apply existsb_exists; exists item; by rewrite <-list_elem_of_In).
    by rewrite Hc in *.
  - destruct (last items) as [p|] eqn:El.
    + unfold assertChainFields in *. res_inv. bool_inv. destruct (safe_int (chain_of (ve_event p) "seq")) as [n|] eqn:En; [|done].
      res_inv. bool_inv. pose proof (safe_int_strict _ _ _ (last_history _ _ _ Hh El) En) as ->.
      split; [|by eexists]. by replace (Z.of_nat (length items)) with (Z.of_nat (length items) - 1 + 1) by lia.
    + assert (items = []) as -> by by apply Hn. unfold assertFirstChainFields in *. res_inv. bool_inv. done.
  - bool_inv. by do 2 eexists.
  - intros E%Hn. rewrite E in *. destruct (is_issuance event), (is_migration event); done.
  - intros Hne. assert (E : is_none (last items) = false) by (by apply not_true_iff_false; rewrite <-Hn).
    rewrite E in *. destruct (is_issuance event), (is_migration event); done.
Qed.

(** The answer that the callback gives about the first event of a history, if asked. *)
Definition answers (verifier : option migration_verifier) (place : nat) (m : migration_memo) (event : LogEvent) : Prop :=
  forall f r m', verifier = Some f -> f place event m = (Ok r, m') -> Imported event r.

Lemma verify_step_Ok verifier place items s prev item m s' m' : loop_inv items s -> last items = prev ->
  (items = [] -> answers verifier place m (ve_event item)) ->
  verify_step options verifier place s prev item m = (Ok s', m') -> loop_inv (items ++ [item]) s'.
Proof.
  intros Hinv Hl Ha H. apply (f_equal fst) in H. cbn [fst] in H. unfold verify_step in H.
  apply sm_bind_ret_Ok in H as ([] & Hc & H). apply sm_bind_Ok in H as (s1 & m1 & Hs & H). injection H as <-.
  destruct (check_structure_Ok _ _ _ _ Hinv Hl Hc) as (Hnt & Hlink & Htime & Hfirst & Hlater).
  destruct Hinv as [Hh Ht Hg].
  assert (Hstep : authority_step (keys_of s) item (keys_of s1) /\ vf_terminal s1 = vf_terminal s).
  { destruct items as [|i0 its] eqn:Ei.
    - rewrite Hg in * by done. subst prev. unfold is_issuance, is_migration in Hfirst.
      destruct (ev_payload (ve_event item)) eqn:Hp; try by specialize (Hfirst eq_refl).
      + injection Hs as Hs _. by eapply verify_issuance_Ok.
      + cbn [is_none last] in Hs. destruct verifier as [f|]; [|done].
        apply (f_equal fst) in Hs. apply sm_bind_ret_Ok in Hs as (_ & _ & Hs).
        apply sm_bind_Ok in Hs as (mr & m2 & Hf & Hs).
        eapply verify_migrated_Ok; [exact Hp|by eapply Ha|exact Hs].
    - destruct (Hlater ltac:(done)) as [Hi Hm]. apply verify_later_Ok; [done..|].
      unfold is_issuance, is_migration in Hi, Hm. destruct (ev_payload (ve_event item)); try done; by injection Hs. }
  destruct Hstep as [Hstep Htm]. split.
  - eapply history_extend; [exact Hh|done..|exact Hstep].
  - cbn. rewrite existsb_app, Htm, Ht. cbn. rewrite orb_false_r. apply orb_comm.
  - by destruct items.
Qed.

Lemma verify_loop_Ok verifier place rest items s prev m s' : loop_inv items s -> last items = prev ->
  (items = [] -> forall item, head rest = Some item -> answers verifier place m (ve_event item)) ->
  fst (verify_loop options verifier place s prev rest m) = Ok s' -> loop_inv (items ++ rest) s'.
Proof.
  revert items s prev m; induction rest as [|item rest IH]; intros items s prev m Hinv Hl Ha H; cbn [verify_loop] in H.
  - injection H as <-. by rewrite app_nil_r.
  - apply sm_bind_Ok in H as (s1 & m1 & H1 & H). eapply verify_step_Ok in H1; [|done..|by intros E; apply Ha].
    eapply IH in H; [|exact H1|apply last_snoc|by destruct items]. by rewrite <-app_assoc in H.
Qed.

Lemma verifyLifecycle_Ok verifier place events m :
  (forall item, head events = Some item -> answers verifier place m (ve_event item)) ->
  fst (verifyLifecycle options verifier place events m) = Ok tt ->
  zlen events <= 10000 /\ exists entityKey activeKey, authorized_history events (Some (entityKey, activeKey)).
Proof.
  unfold verifyLifecycle. intros Ha H. apply sm_bind_ret_Ok in H as (? & Hn%throw_if_Ok & H).
  apply sm_bind_ret_Ok in H as (? & He%throw_if_Ok & H). apply sm_bind_Ok in H as (s & m' & H & _).
  apply (f_equal fst) in H. bool_inv. split; [done|].
  assert (Hi : loop_inv [] start_verification) by (split; [constructor|done|done]).
  eapply verify_loop_Ok in H; [|exact Hi|done|done]. destruct H as [Hh _ _]. cbn [app] in Hh.
  destruct (keys_of s) as [[ek ak]|]; [by exists ek, ak|].
  exfalso. inversion Hh as [E|items item keys keys' ? ? ? ? Hs E Ek]; subst; [done|]. inversion Hs.
Qed.

(** ** Selection *)

(** The log entry of a verified event. *)
Definition entry_of (item : VerifiedLifecycleEvent) : IndexedEntry := mkIndexedEntry (ve_index item) (ve_bytes item).

(** A verified event is the parsed content of its entry. *)
Definition faithful (domain : jsstr) (item : VerifiedLifecycleEvent) : Prop :=
  parseC2spEventEntry (ve_bytes item) (so_context options) = Ok (ve_event item)
  /\ ev_domain (ve_event item) = domain /\ ve_leafHash item = leafHash (ve_bytes item).

Lemma try_genesis_Ok s place entry event entryId signed s' :
  try_genesis options s place entry event entryId signed = Ok s' ->
  st_selected s' = st_selected s \/ st_selected s' = [candidate_of entry event].
Proof.
  unfold try_genesis. destruct (verifyLifecycle _ _ _ _ _) as [[u|e] m].
  - intros (keys & _ & [= <-])%bind_Ok. by right.
  - destruct (is_resource_error e); [done|]. destruct (is_migration event && _).
    + destruct e; try done. by case_match.
    + intros [= <-]. by left.
Qed.

Lemma extend_Ok s entry event entryId signed s' : extend options s entry event entryId signed = Ok s' ->
  st_selected s' = st_selected s ++ [candidate_of entry event].
Proof.
  unfold extend. destruct (st_entityKey s); [|done]. destruct (st_activeKey s); [|done].
  destruct (verifyLifecycle _ _ _ _ _) as [r m]. by intros (? & _ & [= <-])%bind_Ok.
Qed.

Lemma stream_step_Ok domain s place entry s' : stream_step options domain s (place, entry) = Ok s' ->
  st_selected s' = st_selected s
  \/ exists event, st_selected s' = st_selected s ++ [candidate_of entry event]
       /\ faithful domain (candidate_of entry event).
Proof.
  unfold stream_step. intros (c & _ & H)%bind_Ok. destruct c as [[signedBytes envelope]|]; [|injection H as <-; by left].
  destruct (st_applied s !! _) as [applied|]; [apply bind_Ok in H as (? & _ & [= <-]); by left|].
  apply bind_Ok in H as (authentic & _ & H). destruct authentic; [|injection H as <-; by left]. cbn [negb] in H.
  apply bind_Ok in H as (parsed & Hp & H). destruct parsed as [event|]; [|injection H as <-; by left].
  case_bool_decide as Hd; cbn [negb] in H; [|injection H as <-; by left].
  assert (Hf : faithful domain (candidate_of entry event)).
  { split; [|done]. destruct (parseC2spEventEntry _ _) as [e|e]; [by injection Hp as ->|].
    destruct (is_resource_error e); [done|]. by destruct (negb _). }
  destruct (st_selected s) as [|i0 items] eqn:Es; cbn [length Nat.eqb] in H.
  - apply try_genesis_Ok in H. rewrite Es in H. destruct H as [->| ->]; [by left|right; eauto].
  - apply extend_Ok in H. rewrite Es in H. right; eauto.
Qed.

Lemma stream_loop_Ok domain entries n s s' :
  for_each (stream_step options domain) (imap (fun i => pair (n + i)%nat) entries) s = Ok s' ->
  exists new, st_selected s' = st_selected s ++ new
    /\ map entry_of new `sublist_of` entries /\ Forall (faithful domain) new.
Proof.
  revert n s; induction entries as [|entry entries IH]; intros n s H.
  { injection H as <-. exists []. by rewrite app_nil_r. }
  rewrite imap_cons in H. cbn [for_each] in H. apply bind_Ok in H as (s1 & H1 & H).
  rewrite (imap_ext _ (fun i => pair (S n + i)%nat)) in H by (intros; cbn; f_equal; lia).
  apply IH in H as (new & E & Hs & Hf). apply stream_step_Ok in H1 as [E1|(event & E1 & He)]; rewrite E1 in E.
  - exists new. split; [done|]. split; [by apply sublist_cons|done].
  - exists (candidate_of entry event :: new). rewrite <-app_assoc in E. split; [done|].
    split; [by destruct entry; apply sublist_skip|by constructor].
Qed.

End Authority.

(** Authority depends on the trusted key and the time limit, and on what is imported. *)
Lemma authorized_history_mono `{H256 : Hash256} `{Url : URLApi} `{Uni : Unicode} `{Jwk : JwkApi} so so'
    (Imported Imported' : LogEvent -> MigrationVerificationResult -> Prop) items keys :
  so_signerKey so = so_signerKey so' ->
  so_checkpointIntegrationTimeMs so = so_checkpointIntegrationTimeMs so' ->
  (forall e r, Imported e r -> Imported' e r) ->
  authorized_history so Imported items keys -> authorized_history so' Imported' items keys.
Proof.
  intros Hk Ht Hi. induction 1 as [|items item keys keys' _ IH Hterm Hl Htime Hs]; [constructor|].
  econstructor; [exact IH|done|done|unfold timely in *; by rewrite <-Ht|].
  assert (Htr : forall k, trusted_entity so k -> trusted_entity so' k) by (unfold trusted_entity; by rewrite Hk).
  inversion Hs; subst; econstructor; eauto.
Qed.

Section Soundness.
Context `{H256 : Hash256} `{Url : URLApi} `{Uni : Unicode} `{Jwk : JwkApi}.
Context (options : StreamVerifierOptions).

(** [verifyLifecycle] accepts only histories of at most 10000 events that run the
    authority machine: genesis establishes the keys, each event is signed under the key
    that holds authority when it occurs, a rotation proves possession of its new key,
    sequence numbers count the events, each event names its predecessor's payload,
    nothing follows a terminal event, and no event is later than the checkpoint; keys
    that a migration imports are those that the callback answered about it. *)
Theorem verifyLifecycle_sound verifier place events m :
  fst (verifyLifecycle options verifier place events m) = Ok tt ->
  zlen events <= 10000 /\ exists entityKey activeKey,
    authorized_history options (fun e r => exists (f : migration_verifier) m', verifier = Some f /\ f place e m = (Ok r, m')) events
      (Some (entityKey, activeKey)).
Proof. apply verifyLifecycle_Ok. intros item _ f r m' Hf E. by exists f, m'. Qed.

(** *** The memo of the callback along a stream *)

(** What the caller's callback may have answered about an event. *)
Definition callback_answer (event : LogEvent) (r : MigrationVerificationResult) : Prop :=
  exists f asked, so_verifyMigration options = Some f /\ f asked event = Ok r.

Section Memo.
Context (domain : jsstr) (entries : list IndexedEntry).

Definition event_at (place : nat) (event : LogEvent) : Prop :=
  exists entry, entries !! place = Some entry /\ parseC2spEventEntry (ie_bytes entry) (so_context options) = Ok event.

(** No call has failed, and the kept answer is about the event at the kept place. *)
Definition memo_ok (m : migration_memo) : Prop :=
  mm_failed m = false
  /\ forall place r event, mm_event m = Some place -> mm_result m = Some r -> event_at place event -> callback_answer event r.

Lemma event_at_unique place e e' : event_at place e -> event_at place e' -> e = e'.
Proof. intros (x & Hx & E) (x' & Hx' & E'). congruence. Qed.

Lemma wrapped_Ok place event m f r m' : memo_ok m -> event_at place event -> wrapped options = Some f ->
  f place event m = (Ok r, m') -> callback_answer event r /\ memo_ok m'.
Proof.
  intros Hmo He Hw H. pose proof Hmo as [Hf Hm]. unfold wrapped in Hw. destruct (so_verifyMigration options) as [g|] eqn:Eg; [|done].
  injection Hw as <-. unfold memo_verifier in H. case_bool_decide as Ep.
  - destruct (mm_result m) as [r0|] eqn:Er; [injection H as -> <-; split; [exact (Hm _ _ _ Ep eq_refl He)|exact Hmo]|].
    destruct (g (mm_asked m) event) as [r1|] eqn:E; [|done]. injection H as -> <-.
    assert (Hr : callback_answer event r) by (by exists g, (mm_asked m)). split; [done|]. split; [done|]. cbn.
    intros place' r' e' [= <-] [= <-] He'. by rewrite (event_at_unique _ _ _ He' He).
  - destruct (g (mm_asked m) event) as [r1|] eqn:E; [|done]. injection H as -> <-.
    assert (Hr : callback_answer event r) by (by exists g, (mm_asked m)). split; [done|]. split; [done|]. cbn.
    intros place' r' e' [= <-] [= <-] He'. by rewrite (event_at_unique _ _ _ He' He).
Qed.

Lemma wrapped_Throw place event m f e m' : memo_ok m -> wrapped options = Some f ->
  f place event m = (Throw e, m') -> mm_failed m' = true.
Proof.
  intros _ Hw H. unfold wrapped in Hw. destruct (so_verifyMigration options) as [g|]; [|done]. injection Hw as <-.
  unfold memo_verifier in H. destruct (if bool_decide _ then _ else _); [done|].
  destruct (g _ event); [done|]. by injection H as _ <-.
Qed.

(** A call of [verifyLifecycle] asks at most about its first event, a migration. *)
Lemma verify_step_memo verifier place s prev item m r m' :
  verify_step options verifier place s prev item m = (r, m') ->
  m' = m \/ (prev = None /\ is_migration (ve_event item) = true
             /\ exists f r', verifier = Some f /\ f place (ve_event item) m = (r', m') /\ (is_ok r = true -> is_ok r' = true)).
Proof.
  unfold verify_step. unfold sm_bind at 1, sm_ret at 1. destruct (check_structure _ _ _ _) as [[]|e];
    [|intros [= _ <-]; by left].
  assert (Hret : forall (x : res verification) (k : verification -> SM verification),
    (forall s m, snd (k s m) = m) -> sm_bind (sm_ret x) k m = (r, m') -> m' = m).
  { unfold sm_bind, sm_ret. intros [a|e'] k Hk H; [|by injection H as _ <-]. rewrite <-(Hk a m). by rewrite H. }
  destruct (ev_payload (ve_event item)) as [i|rot|reason| |p n ref|d sc ex] eqn:Hp;
    try (intros H; left; revert H; by apply Hret).
  destruct prev as [prev|]; cbn [is_none]; [intros H; left; revert H; by apply Hret|].
  destruct verifier as [f|]; [|intros H; left; revert H; by apply Hret].
  unfold sm_bind, sm_ret. destruct (throw_if _ _) as [[]|e]; [|intros [= _ <-]; by left].
  destruct (f place (ve_event item) m) as [[mr|e] m1] eqn:Ef; intros H.
  - destruct (verify_migrated _ _ _ _); injection H as _ <-; right; split; try done;
      (split; [unfold is_migration; by rewrite Hp|by exists f, (Ok mr)]).
  - injection H as <- <-. right. split; [done|]. split; [unfold is_migration; by rewrite Hp|by exists f, (Throw e)].
Qed.

Lemma verify_loop_memo verifier place s prev items m r m' :
  verify_loop options verifier place s prev items m = (r, m') ->
  m' = m \/ (prev = None /\ exists item f r', head items = Some item /\ is_migration (ve_event item) = true
             /\ verifier = Some f /\ f place (ve_event item) m = (r', m') /\ (is_ok r = true -> is_ok r' = true)).
Proof.
  revert s prev m; induction items as [|item items IH]; intros s prev m H; cbn [verify_loop] in H;
    [injection H as _ <-; by left|].
  unfold sm_bind in H. destruct (verify_step options verifier place s prev item m) as [[s1|e] m1] eqn:Es.
  - apply IH in H as [->|[? _]]; [|done]. apply verify_step_memo in Es as [->|(-> & Hi & f & r' & Hf & E & Hr)]; [by left|].
    right. split; [done|]. exists item, f, r'. do 4 (split; [done|]). intros _. by apply Hr.
  - injection H as <- <-. apply verify_step_memo in Es as [->|(-> & Hi & f & r' & Hf & E & Hr)]; [by left|].
    right. split; [done|]. by exists item, f, r'.
Qed.

Lemma verifyLifecycle_memo verifier place items m r m' : verifyLifecycle options verifier place items m = (r, m') ->
  m' = m \/ exists item f r', head items = Some item /\ is_migration (ve_event item) = true
            /\ verifier = Some f /\ f place (ve_event item) m = (r', m') /\ (is_ok r = true -> is_ok r' = true).
Proof.
  unfold verifyLifecycle, sm_bind, sm_ret. destruct (throw_if _ _) as [[]|]; [|intros [= _ <-]; by left].
  destruct (throw_if _ _) as [[]|]; [|intros [= _ <-]; by left].
  destruct (verify_loop _ _ _ _ _ _ _) as [[s1|e] m1] eqn:E; intros [= <- <-];
    (apply verify_loop_memo in E as [->|[_ H]]; [by left|by right]).
Qed.

Lemma verifyLifecycle_answers place items m : memo_ok m ->
  (forall item, head items = Some item -> event_at place (ve_event item)) ->
  (forall item, head items = Some item -> answers callback_answer (wrapped options) place m (ve_event item))
  /\ forall r m', verifyLifecycle options (wrapped options) place items m = (r, m') ->
       memo_ok m' \/ (is_ok r = false /\ mm_failed m' = true /\ exists item, head items = Some item /\ is_migration (ve_event item) = true).
Proof.
  intros Hm Hh. split.
  - intros item Hi f r m' Hf E. exact (proj1 (wrapped_Ok _ _ _ _ _ _ Hm (Hh _ Hi) Hf E)).
  - intros r m' H. apply verifyLifecycle_memo in H as [->|(item & f & [x|e] & Hi & Hmig & Hf & E & Hr)]; [by left|..].
    + left. exact (proj2 (wrapped_Ok _ _ _ _ _ _ Hm (Hh _ Hi) Hf E)).
    + right. split; [destruct (is_ok r); [by specialize (Hr eq_refl)|done]|]. split; [by eapply wrapped_Throw|by exists item].
Qed.

(** An accepted history that begins with a migration was verified with the callback's
    answer about that migration. *)
Lemma verifyLifecycle_asks verifier place item items m m' :
  verifyLifecycle options verifier place (item :: items) m = (Ok tt, m') -> is_migration (ve_event item) = true ->
  exists f r, verifier = Some f /\ f place (ve_event item) m = (Ok r, m').
Proof.
  intros H Hm. unfold verifyLifecycle, sm_bind at 1 2, sm_ret at 1 2 in H.
  destruct (throw_if _ _) as [[]|]; [|done]. cbn [length Nat.eqb throw_if verify_loop] in H.
  unfold sm_bind in H at 1. destruct (sm_bind _ _ m) as [[u|] m2] eqn:El; [|done]. unfold sm_ret in H. injection H as ->.
  unfold sm_bind in El. destruct (verify_step options verifier place start_verification None item m) as [[s1|] m1] eqn:Es; [|done].
  apply verify_loop_memo in El as [->|[? _]]; [|done].
  unfold verify_step in Es. unfold sm_bind at 1, sm_ret at 1 in Es. destruct (check_structure _ _ _ _) as [[]|]; [|done].
  unfold is_migration in Hm. destruct (ev_payload (ve_event item)) as [| | | |p n ref|]; try done. cbn [is_none] in Es.
  destruct verifier as [f|]; [|done]. unfold sm_bind, sm_ret in Es. destruct (throw_if _ _) as [[]|]; [|done].
  destruct (f place (ve_event item) m) as [[mr|e] m3] eqn:Ef; [|done].
  destruct (verify_migrated _ _ _ _); [|done]. injection Es as _ <-. by exists f, mr.
Qed.

Lemma memo_verifier_result f place e m r m' : memo_verifier f place e m = (Ok r, m') -> mm_result m' = Some r.
Proof.
  unfold memo_verifier. case_bool_decide; [destruct (mm_result m) as [r0|] eqn:E; [by intros [= <- <-]|]|];
    (destruct (f (mm_asked m) e); [by intros [= <- <-]|done]).
Qed.

(** The history selected so far begins with the event at the genesis place. *)
Record stream_ok (s : stream_state) : Prop := {
  so_memo : memo_ok (st_memo s);
  so_genesis : forall item, head (st_selected s) = Some item -> event_at (st_genesis s) (ve_event item)
}.

Lemma try_genesis_stream s place entry event entryId signed s' : stream_ok s -> st_selected s = [] ->
  event_at place event ->
  try_genesis options s place entry event entryId signed = Ok s' -> stream_ok s'.
Proof.
  intros [Hm _] Hnil He H. unfold try_genesis in H.
  destruct (verifyLifecycle options (wrapped options) place [candidate_of entry event] (st_memo s)) as [r m] eqn:E.
  destruct (verifyLifecycle_answers place [candidate_of entry event] (st_memo s) Hm) as [_ Hmemo].
  { by intros item [= <-]. }
  specialize (Hmemo _ _ E). destruct r as [[]|e].
  - apply bind_Ok in H as (keys & _ & [= <-]).
    destruct Hmemo as [Hmemo|[Hr _]]; [by split; [|intros item [= <-]]|done].
  - destruct (is_resource_error e); [done|]. destruct (is_migration event && _) eqn:Ec.
    + destruct e; try done. by case_match.
    + injection H as <-. split; [|cbn; by rewrite Hnil]. cbn.
      destruct Hmemo as [|(_ & Hfail & item & [= <-] & Hmig)]; [done|]. cbn in Hmig.
      by rewrite Hmig, Hfail, orb_true_r in Ec.
Qed.

Lemma extend_stream s entry event entryId signed s' : stream_ok s -> st_selected s <> [] ->
  extend options s entry event entryId signed = Ok s' -> stream_ok s'.
Proof.
  intros [Hm Hg] Hne H. unfold extend in H. destruct (st_entityKey s); [|done]. destruct (st_activeKey s); [|done].
  destruct (verifyLifecycle options (wrapped options) (st_genesis s) _ (st_memo s)) as [r m] eqn:E.
  apply bind_Ok in H as ([] & -> & [= <-]).
  assert (Hh : forall item, head (st_selected s ++ [candidate_of entry event]) = Some item ->
    event_at (st_genesis s) (ve_event item)).
  { intros item Hi. apply Hg. by destruct (st_selected s). }
  destruct (verifyLifecycle_answers (st_genesis s) _ (st_memo s) Hm Hh) as [_ Hmemo].
  destruct (Hmemo _ _ E) as [|[? _]]; [|done]. by split.
Qed.

Lemma stream_step_stream s place entry s' : stream_ok s -> entries !! place = Some entry ->
  stream_step options domain s (place, entry) = Ok s' -> stream_ok s'.
Proof.
  intros Hs He H. unfold stream_step in H. apply bind_Ok in H as (c & _ & H).
  destruct c as [[signedBytes envelope]|]; [|by injection H as <-].
  destruct (st_applied s !! _) as [applied|]; [by apply bind_Ok in H as (? & _ & [= <-])|].
  apply bind_Ok in H as (authentic & _ & H). destruct authentic; [|by injection H as <-]. cbn [negb] in H.
  apply bind_Ok in H as (parsed & Hp & H). destruct parsed as [event|]; [|by injection H as <-].
  case_bool_decide; cbn [negb] in H; [|by injection H as <-].
  destruct (st_selected s) as [|i0 items] eqn:Es; cbn [length Nat.eqb] in H.
  - eapply try_genesis_stream; [exact Hs|done| |exact H]. exists entry. split; [done|].
    destruct (parseC2spEventEntry _ _) as [e|e]; [by injection Hp as ->|]. by destruct (is_resource_error e).
  - eapply extend_stream; [exact Hs|by rewrite Es|exact H].
Qed.

Lemma stream_loop_stream rest n s s' : stream_ok s -> (forall i, rest !! i = entries !! (n + i)%nat) ->
  for_each (stream_step options domain) (imap (fun i => pair (n + i)%nat) rest) s = Ok s' -> stream_ok s'.
Proof.
  revert n s; induction rest as [|entry rest IH]; intros n s Hs Hr H; [by injection H as <-|].
  rewrite imap_cons in H. cbn [for_each] in H. apply bind_Ok in H as (s1 & H1 & H).
  rewrite (imap_ext _ (fun i => pair (S n + i)%nat)) in H by (intros; cbn; f_equal; lia).
  eapply (IH (S n)); [|intros i; specialize (Hr (S i)); by rewrite Nat.add_succ_r in Hr|exact H].
  eapply stream_step_stream; [exact Hs| |exact H1]. specialize (Hr 0%nat). cbn in Hr. by rewrite <-Hr.
Qed.
End Memo.

Lemma verifyStreamWithinBudget_Ok entries domain selected memo :
  verifyStreamWithinBudget entries domain options = Ok (selected, memo) ->
  map entry_of selected `sublist_of` sort_by by_index entries
  /\ Forall (faithful options domain) selected
  /\ exists entityKey activeKey, authorized_history options callback_answer selected (Some (entityKey, activeKey)).
Proof.
  unfold verifyStreamWithinBudget. intros H.
  apply bind_Ok in H as (? & _ & H). apply bind_Ok in H as (s & Hl & H).
  destruct (verifyLifecycle options (wrapped options) (st_genesis s) (st_selected s) (st_memo s)) as [r m] eqn:Ev.
  apply bind_Ok in H as ([] & Hr & [= <- <-]).
  assert (Hs : stream_ok (sort_by by_index entries) s).
  { eapply (stream_loop_stream domain _ (sort_by by_index entries) 0); [|done|exact Hl].
    split; [by split|done]. }
  destruct Hs as [Hm Hg]. destruct (verifyLifecycle_answers _ _ _ _ Hm Hg) as [Ha _].
  apply (stream_loop_Ok options domain (sort_by by_index entries) 0) in Hl as (new & E & Hs & Hf).
  cbn [empty_stream st_selected app] in E. rewrite E in *. split; [done|]. split; [done|].
  eapply verifyLifecycle_Ok; [exact Ha|]. by rewrite Ev.
Qed.

(** The memo that is left holds the answer about the migration that begins the history. *)
Lemma verifyStreamWithinBudget_migration entries domain item selected memo :
  verifyStreamWithinBudget entries domain options = Ok (item :: selected, memo) -> is_migration (ve_event item) = true ->
  exists r, mm_result memo = Some r /\ callback_answer (ve_event item) r.
Proof.
  unfold verifyStreamWithinBudget. intros H Hmig.
  apply bind_Ok in H as (? & _ & H). apply bind_Ok in H as (s & Hl & H).
  destruct (verifyLifecycle options (wrapped options) (st_genesis s) (st_selected s) (st_memo s)) as [r m] eqn:Ev.
  apply bind_Ok in H as ([] & -> & [= Es <-]).
  assert (Hs : stream_ok (sort_by by_index entries) s).
  { eapply (stream_loop_stream domain _ (sort_by by_index entries) 0); [|done|exact Hl]. split; [by split|done]. }
  destruct Hs as [Hm Hg]. rewrite Es in Ev.
  destruct (verifyLifecycle_asks _ _ _ _ _ _ Ev Hmig) as (f & r & Hf & Ef). exists r.
  specialize (Hg item ltac:(by rewrite Es)).
  split; [|exact (proj1 (wrapped_Ok _ _ _ _ _ _ _ Hm Hg Hf Ef))].
  unfold wrapped in Hf. destruct (so_verifyMigration options); [|done]. injection Hf as <-. by eapply memo_verifier_result.
Qed.

(** The kept answer was given to one of the questions asked. *)
Definition memo_traced (f : list LogEvent -> LogEvent -> res MigrationVerificationResult) (m : migration_memo) : Prop :=
  forall r, mm_result m = Some r -> exists before event after, mm_asked m = before ++ event :: after /\ f before event = Ok r.

Lemma memo_verifier_traced f place event m r m' : memo_traced f m -> memo_verifier f place event m = (r, m') ->
  memo_traced f m'.
Proof.
  intros Hm. unfold memo_verifier. set (kept := if bool_decide _ then mm_result m else None).
  destruct kept; [by intros [= _ <-]|].
  destruct (f (mm_asked m) event) as [x|e] eqn:E; intros [= _ <-] y; cbn.
  - intros [= <-]. by exists (mm_asked m), event, [].
  - intros (before & ev & after & -> & Hf)%Hm. exists before, ev, (after ++ [event]). by rewrite <-app_assoc.
Qed.

Lemma verifyLifecycle_traced f place items m r m' : so_verifyMigration options = Some f -> memo_traced f m ->
  verifyLifecycle options (wrapped options) place items m = (r, m') -> memo_traced f m'.
Proof.
  intros Hf Hm [->|(item & g & r' & _ & _ & Hg & E & _)]%verifyLifecycle_memo; [done|].
  unfold wrapped in Hg. rewrite Hf in Hg. injection Hg as <-. by eapply memo_verifier_traced.
Qed.

Lemma stream_step_traced f domain s placed s' : so_verifyMigration options = Some f -> memo_traced f (st_memo s) ->
  stream_step options domain s placed = Ok s' -> memo_traced f (st_memo s').
Proof.
  intros Hf Hm H. destruct placed as [place entry]. unfold stream_step in H. apply bind_Ok in H as (c & _ & H).
  destruct c as [[signedBytes envelope]|]; [|by injection H as <-].
  destruct (st_applied s !! _) as [applied|]; [by apply bind_Ok in H as (? & _ & [= <-])|].
  apply bind_Ok in H as (authentic & _ & H). destruct authentic; [|by injection H as <-]. cbn [negb] in H.
  apply bind_Ok in H as (parsed & _ & H). destruct parsed as [event|]; [|by injection H as <-].
  case_bool_decide; cbn [negb] in H; [|by injection H as <-]. destruct (_ =? 0)%nat.
  - unfold try_genesis in H. destruct (verifyLifecycle options (wrapped options) place _ (st_memo s)) as [r m] eqn:E.
    eapply verifyLifecycle_traced in E; [|exact Hf|exact Hm]. destruct r as [u|e].
    + by apply bind_Ok in H as (keys & _ & [= <-]).
    + destruct (is_resource_error e); [done|]. destruct (_ && _); [|by injection H as <-].
      destruct e; try done. by case_match.
  - unfold extend in H. destruct (st_entityKey s); [|done]. destruct (st_activeKey s); [|done].
    destruct (verifyLifecycle options (wrapped options) (st_genesis s) _ (st_memo s)) as [r m] eqn:E.
    eapply verifyLifecycle_traced in E; [|exact Hf|exact Hm]. by apply bind_Ok in H as (? & _ & [= <-]).
Qed.

Lemma verifyStreamWithinBudget_traced f entries domain selected memo : so_verifyMigration options = Some f ->
  verifyStreamWithinBudget entries domain options = Ok (selected, memo) -> memo_traced f memo.
Proof.
  intros Hf. unfold verifyStreamWithinBudget. intros H. apply bind_Ok in H as (? & _ & H).
  apply bind_Ok in H as (s & Hl & H).
  destruct (verifyLifecycle options (wrapped options) (st_genesis s) _ (st_memo s)) as [r m] eqn:E.
  apply bind_Ok in H as (? & _ & [= _ <-]). eapply verifyLifecycle_traced; [exact Hf| |exact E].
  refine (for_each_inv (fun s => memo_traced f (st_memo s)) _ _ _ _ _ _ Hl); [|by intros r0].
  intros s0 a s1 _ Hs0 H1. by eapply stream_step_traced.
Qed.

(** C34: what [verifyStreamLifecycle] returns is a selection of the given entries in log
    order, each event the parsed content of its entry and of the requested domain, and
    together a history that runs the authority machine; keys that a migration imports are
    those that the callback answered about it. *)
Theorem verifyStreamLifecycle_sound entries domain selected :
  verifyStreamLifecycle entries domain options = Ok selected ->
  map entry_of selected `sublist_of` sort_by by_index entries
  /\ Forall (faithful options domain) selected
  /\ exists entityKey activeKey, authorized_history options callback_answer selected (Some (entityKey, activeKey)).
Proof.
  unfold verifyStreamLifecycle. destruct (verifyStreamWithinBudget entries domain options) as [[l m]|] eqn:E; [|done].
  intros [= <-]. by eapply verifyStreamWithinBudget_Ok.
Qed.

End Soundness.

(** ** Witnesses *)

(** A library where the thumbprint of a key is its [x] and a signature is the [x] of
    the signing key. *)
Definition ToyJwk : JwkApi := {|
  CryptoKey := jwk;
  calculateJwkThumbprint := fun key => of_option (as_str (get key "x")) (EError "TypeError");
  importJWK := fun key _ => Ok key;
  subtle_verify := fun _ key signature _ => Ok (strict_eq (get key "x") (JString (b64url signature)))
|}.

Section Example.
#[local] Existing Instances Sha256_instance SimpleUrl AsciiUnicode ToyJwk.

Definition x_of (s : string) : jsstr := js s ++ js "BBBBBBBBBBBBBBBBBBBBBBBBBBBBBBBBBBBBBBBBA".
Definition ed_key (kid x : string) : jwk :=
  [(js "kty", JString (js "OKP")); (js "crv", JString (js "Ed25519")); (js "kid", JString (js kid));
   (js "alg", JString (js "EdDSA")); (js "x", JString (x_of x))].
Definition example_entity : jwk := ed_key "e1" "EE".
Definition example_operational : jwk := ed_key "o1" "OO".

Definition plain_context (seq : Z) (prevEventId prevStateHash : option jsstr) : C2spEventContext :=
  mkContext (Some (js "public")) (Some (js "log.example/a")) (Some (js "s1"))
    (Some (js "c2sp-tlog:public:https://log.example/a#s1")) (Some seq) prevEventId prevStateHash.
Definition ok_or {A} (d : A) (r : res A) : A := match r with Ok a => a | Throw _ => d end.

Definition genesis_bytes : bytes :=
  ok_or [] (canonicalizeC2spEvent
    (mkEvent (js "bot.example.com") (Some 1000) (Some (js "e1")) (Some (x_of "EE")) (Some (x_of "OO")) None []
       (ISSUANCE (mkIssuance (js "example.com") (Some (js "o1")) (Some (js "EdDSA")) (Some example_operational)
          (Some (x_of "OO")) (Some (js "e1")) (Some (js "EdDSA")) (Some example_entity) (Some (x_of "EE"))
          None None None None None None None)))
    (plain_context 0 None None)).
Definition retirement_bytes : bytes :=
  ok_or [] (canonicalizeC2spEvent
    (mkEvent (js "bot.example.com") (Some 2000) (Some (js "e1")) (Some (x_of "EE")) None None [] RETIREMENT)
    (plain_context 1 (Some (c2spEventId (ok_or [] (signedC2spEntryBytes genesis_bytes))))
       (Some (ok_or [] (stateHash (state_json (js "bot.example.com") (js "ACTIVE") (x_of "EE") (x_of "OO"))))))).

(** The history, between an entry of another kind and a repetition, out of order. *)
Definition example_entries : list IndexedEntry :=
  [mkIndexedEntry 7 retirement_bytes; mkIndexedEntry 2 genesis_bytes; mkIndexedEntry 3 [x00];
   mkIndexedEntry 9 retirement_bytes].
Definition example_options : StreamVerifierOptions :=
  mkStreamOptions (mkContext None None None None None None None) (Some example_entity) (Some 5000) None.
Definition example_selected : list VerifiedLifecycleEvent :=
  ok_or [] (verifyStreamLifecycle example_entries (js "bot.example.com") example_options).


(** One evaluation of the example. *)
Lemma example_runs :
  match verifyStreamWithinBudget example_entries (js "bot.example.com") example_options with
  | Ok (selected, _) =>
      bool_decide (map ve_index selected = [2; 7])
      && is_ok (fst (verifyLifecycle example_options None 0 selected no_memo))
  | Throw _ => false
  end = true.
Proof. vm_compute. reflexivity. Qed.

Lemma example_selected_Ok :
  verifyStreamLifecycle example_entries (js "bot.example.com") example_options = Ok example_selected
  /\ fst (verifyLifecycle example_options None 0 example_selected no_memo) = Ok tt.
Proof.
  unfold example_selected, verifyStreamLifecycle. pose proof example_runs as H.
  destruct (verifyStreamWithinBudget _ _ _) as [[l m]|]; [|done]. apply andb_true_iff in H as [_ H].
  split; [done|]. change (fst (verifyLifecycle example_options None 0 l no_memo) = Ok tt).
  destruct (fst (verifyLifecycle example_options None 0 l no_memo)) as [[]|]; done.
Qed.

Lemma verifyLifecycle_sound_witness : exists entityKey activeKey,
  authorized_history example_options
    (fun e r => exists (f : migration_verifier) m', None = Some f /\ f 0%nat e no_memo = (Ok r, m')) example_selected
    (Some (entityKey, activeKey)).
Proof. apply (verifyLifecycle_sound example_options None 0 example_selected no_memo), example_selected_Ok. Defined.

Lemma verifyStreamLifecycle_sound_witness :
  map entry_of example_selected `sublist_of` sort_by by_index example_entries.
Proof.
  apply (verifyStreamLifecycle_sound example_options example_entries (js "bot.example.com") example_selected),
    example_selected_Ok.
Defined.

End Example.
