(* ===== verification/StreamBundle.v ===== *)
(** Self-contained stream bundles: [log-c2sp-tlog/src/stream-bundle.ts].

    A bundle carries a witnessed checkpoint, the events of one identity with inclusion
    proofs, a state summary, an expiry and the producer's signature.  Numbers of
    milliseconds are integers; sums and products are rounded to doubles. *)

From S2P Require Import Prelude JsString Base64 Sha256 HashTree Merkle Url Utils Json Jwk EventCodec.
From S2P Require Import Lifecycle Lr Checkpoint Policy Budget CheckpointTrust StreamVerifier.

Definition BUNDLE_MEMBERS : list jsstr :=
  map js ["checkpoint"; "complete_through_size"; "completeness_mode"; "events"; "expires"; "fqdn";
          "lr"; "policy_hash"; "sig"; "state"; "type"; "v"]%string.
Definition EVENT_MEMBERS : list jsstr := map js ["entry"; "index"; "proof"]%string.
Definition STATE_MEMBERS : list jsstr := map js ["event_count"; "last_event_type"; "logged_state"]%string.
Definition SIGNATURE_MEMBERS : list jsstr := map js ["alg"; "kid"; "value"]%string.
Definition DEFAULT_C2SP_MAX_STREAM_BUNDLE_BYTES : Z := 8 * 1024 * 1024.
Definition DEFAULT_C2SP_MAX_STREAM_BUNDLE_EVENTS : Z := 10000.
Definition DEFAULT_C2SP_MAX_STREAM_BUNDLE_TREE_SIZE : Z := 1000000.

Record C2spStreamBundleEvent := mkBundleEvent {
  be_index : Z; be_entryBytes : bytes; be_proof : list bytes }.
Record C2spStreamBundleState := mkBundleState {
  bs_eventCount : Z; bs_lastEventType : jsstr; bs_loggedState : jsstr }.
Record C2spStreamBundleSignature := mkBundleSignature { bg_kid : jsstr; bg_value : bytes }.

#[export] Instance C2spStreamBundleState_eq_dec : EqDecision C2spStreamBundleState.
Proof. solve_decision. Defined.

Record C2spStreamBundle := mkBundle {
  sb_fqdn : jsstr;
  sb_reference : ParsedC2spTlogLr;
  sb_checkpoint : Checkpoint;
  sb_checkpointBytes : bytes;
  sb_policyHash : bytes;
  sb_completeThroughSize : Z;
  sb_events : list C2spStreamBundleEvent;
  sb_state : C2spStreamBundleState;
  sb_expires : Z;
  sb_signature : C2spStreamBundleSignature;
  sb_signedBytes : bytes;
  sb_bytes : bytes
}.

Definition perr (message : string) : exn := C2spTlogParseError message.

(** *** Validation of members *)

Definition positiveInteger (value : Z) : res Z :=
  throw_if (negb (isSafeInteger value) || (value <=? 0)) (verr "must be a positive integer");;
  Ok value.
Definition nonNegativeInteger (value : Z) : res Z :=
  throw_if (negb (isSafeInteger value) || (value <? 0)) (verr "must be a non-negative integer");;
  Ok value.

(** An object with exactly the given members. *)
Definition exactObject (value : json) (members : list jsstr) : res (list (jsstr * json)) :=
  match value with
  | JObject object =>
      throw_if (negb (bool_decide (sort_by str_ltb (map fst object) = sort_by str_ltb members)))
        (perr "has unsupported or missing members");;
      Ok object
  | _ => Throw (perr "must be an object")
  end.

(** [Buffer.from(value, 'base64url')] on a string of the base64url alphabet: a last
    character that completes no byte is dropped. *)
Definition buffer_base64url (value : jsstr) : bytes :=
  let whole := if zlen value mod 4 =? 1 then slice value 0 (zlen value - 1) else value in
  match fromBase64Url whole with Ok bs => bs | Throw _ => [] end.

Definition strictBase64url (value : json) (expectedLength : option Z) : res bytes :=
  match value with
  | JString s =>
      throw_if (negb (forallb is_b64url s)) (perr "must be unpadded base64url");;
      let bs := buffer_base64url s in
      throw_if (negb (bool_decide (b64url bs = s))) (perr "must use canonical base64url");;
      throw_if (match expectedLength with Some n => negb (zlen bs =? n) | None => false end)
        (perr "has invalid decoded length");;
      Ok bs
  | _ => Throw (perr "must be unpadded base64url")
  end.

Definition safeInteger (value : json) : res Z :=
  match safe_int value with
  | Some n => throw_if (n <? 0) (perr "must be a non-negative safe integer");; Ok n
  | None => Throw (perr "must be a non-negative safe integer")
  end.

(** The nodes of a proof: 32 bytes each. *)
Definition proof_nodes (proofBytes : bytes) : list bytes :=
  map (fun i => slice proofBytes (32 * i) (32 * i + 32)) (seqZ 0 (zlen proofBytes / 32)).

Definition parseEvent (value : json) (treeSize : Z) : res C2spStreamBundleEvent :=
  object ← exactObject value EVENT_MEMBERS;
  index ← safeInteger (get object "index");
  throw_if (treeSize <=? index) (perr "stream bundle event index must be less than complete_through_size");;
  entryBytes ← strictBase64url (get object "entry") None;
  throw_if ((length entryBytes =? 0)%nat || (65535 <? zlen entryBytes))
    (perr "stream bundle entry length is outside 1..65535 bytes");;
  proofBytes ← strictBase64url (get object "proof") None;
  throw_if (negb (zlen proofBytes mod 32 =? 0) || (64 <? zlen proofBytes / 32))
    (perr "stream bundle proof must contain at most 64 SHA-256 nodes");;
  Ok (mkBundleEvent index entryBytes (proof_nodes proofBytes)).

(** Each index is greater than the one before. *)
Fixpoint strictly_increasing (indexes : list Z) : bool :=
  match indexes with
  | a :: (b :: _) as rest => (a <? b) && strictly_increasing rest
  | _ => true
  end.

Definition LOGGED_STATES : list jsstr := map js ["UNKNOWN"; "ACTIVE"; "REVOKED"; "RETIRED"]%string.

Definition parseState (value : json) : res C2spStreamBundleState :=
  stateObject ← exactObject value STATE_MEMBERS;
  loggedState ← of_option (match get stateObject "logged_state" with
                           | JString s => if bool_decide (s ∈ LOGGED_STATES) then Some s else None
                           | _ => None
                           end) (perr "stream bundle state has invalid logged_state");
  lastEventType ← of_option (as_str (get stateObject "last_event_type"))
                    (perr "stream bundle state last_event_type must be a string");
  eventCount ← safeInteger (get stateObject "event_count");
  Ok (mkBundleState eventCount lastEventType loggedState).

Definition parseSignature (value : json) : res C2spStreamBundleSignature :=
  sigObject ← exactObject value SIGNATURE_MEMBERS;
  kid ← of_option (if is_lit (get sigObject "alg") "EdDSA" then
                     match get sigObject "kid" with
                     | JString kid => if (length kid =? 0)%nat then None else Some kid
                     | _ => None
                     end
                   else None) (perr "stream bundle sig must identify an EdDSA key");
  value ← strictBase64url (get sigObject "value") (Some 64);
  Ok (mkBundleSignature kid value).

Definition without_sig (object : list (jsstr * json)) : list (jsstr * json) :=
  List.filter (fun kv => negb (bool_decide (fst kv = js "sig"))) object.

Section Bundle.
Context `{H256 : Hash256} `{Url : URLApi} `{Uni : Unicode} `{Jwk : JwkApi} `{Ed : Ed25519}.

Definition parseC2spStreamBundle (bs : bytes) (maxBundleBytes maxEvents : Z) : res C2spStreamBundle :=
  positiveInteger maxBundleBytes;;
  positiveInteger maxEvents;;
  throw_if ((length bs =? 0)%nat || (maxBundleBytes <? zlen bs)) (perr "stream bundle exceeds configured byte maximum");;
  parsed ← parseJsonNoDuplicateMembers bs;
  assertCanonicalJsonBytes bs parsed;;
  object ← exactObject parsed BUNDLE_MEMBERS;
  throw_if (negb (strict_eq (get object "v") (JNumber (NInt 1)))
            || negb (is_lit (get object "type") "dnsid-c2sp-stream-bundle"))
    (perr "unsupported C2SP stream bundle");;
  fqdn ← of_option (as_str (get object "fqdn")) (perr "stream bundle fqdn must be a normalized lowercase DNSid FQDN");
  normalized ← normalizeFQDN fqdn true;
  throw_if (negb (bool_decide (fqdn = normalized)))
    (perr "stream bundle fqdn must be a normalized lowercase DNSid FQDN");;
  lr ← of_option (as_str (get object "lr")) (perr "stream bundle lr must be a string");
  reference ← parseC2spTlogLr lr;
  throw_if (negb (is_none (lr_entryIndex reference)) || negb (bool_decide (lr_lr reference = lr)))
    (perr "stream bundle lr must be a canonical bound reference");;
  checkpointBytes ← strictBase64url (get object "checkpoint") None;
  checkpoint ← catch (text ← of_option (utf8_decode checkpointBytes) (EError "TypeError"); parseCheckpoint text)
                 (fun _ => Throw (perr "invalid stream bundle checkpoint"));
  policyHash ← strictBase64url (get object "policy_hash") (Some 32);
  completeThroughSize ← safeInteger (get object "complete_through_size");
  throw_if (negb (is_lit (get object "completeness_mode") "trusted-index"))
    (perr "unsupported stream bundle completeness_mode");;
  values ← of_option (match get object "events" with JArray l => Some l | _ => None end)
             (perr "stream bundle events must be an array");
  throw_if (maxEvents <? zlen values) (perr "stream bundle exceeds configured event maximum");;
  events ← map_res (fun value => parseEvent value completeThroughSize) values;
  throw_if (negb (strictly_increasing (map be_index events)))
    (perr "stream bundle event indexes must be unique and strictly increasing");;
  state ← parseState (get object "state");
  expires ← safeInteger (get object "expires");
  signature ← parseSignature (get object "sig");
  signedBytes ← canonicalBytes (JObject (without_sig object));
  Ok (mkBundle fqdn reference checkpoint checkpointBytes policyHash completeThroughSize events state
        expires signature signedBytes bs).

(** *** Verification *)

(** The double nearest to an integer, ties to even. *)
Definition to_double (z : Z) : Z :=
  let k := Z.log2 (Z.abs z) - 52 in
  if k <=? 0 then z else Z.sgn z * (round_even (Z.abs z) (2 ^ k) * 2 ^ k).

Record VerifyC2spStreamBundleOptions := mkVerifyOptions {
  vo_maxBundleBytes : Z;
  vo_maxEvents : Z;
  vo_expectedFqdn : jsstr;
  vo_expectedLogReference : jsstr;
  vo_policyBytes : bytes;
  vo_bundleKeys : list SignedNoteKey;
  vo_entityKey : jwk;
  vo_maxBundleLifetimeMs : Z;
  vo_checkpointFreshnessMs : Z;
  vo_maxTreeSize : option Z;
  vo_maxClockSkewMs : option Z;
  vo_nowMs : Z;
  vo_verifyMigration : option (list LogEvent -> LogEvent -> res MigrationVerificationResult);
  vo_cutoffIndex : option Z
}.

Record VerifiedC2spStreamBundle := mkVerifiedBundle {
  vb_bundle : C2spStreamBundle;
  vb_events : list VerifiedLifecycleEvent;
  vb_lifecycle : list LogEvent;
  vb_historyReferences : option (list jsstr);
  vb_activeOperationalKeyThumbprint : jsstr;
  vb_checkpointWitnessTime : jsdate
}.

(** Keys are Ed25519 keys; the checks of their JavaScript types are left out. *)
Definition wrong_bundle_key (key : SignedNoteKey) : bool :=
  negb (length (keyBytes key) =? 32)%nat
  || match signatureType key with
     | Some t => negb (bool_decide (t = [x01]))
     | None => false
     end.

(** [`${name}+${hex(keyId)}`] *)
Definition key_kid (key : SignedNoteKey) : option jsstr :=
  (fun id => key_name key ++ [43] ++ to_hex id) <$> keyId key.

Definition verifyBundleSignature (bundle : C2spStreamBundle) (keys checkpointKeys : list SignedNoteKey) : res unit :=
  throw_if (existsb wrong_bundle_key keys) (verr "stream bundle signer must be Ed25519");;
  throw_if (existsb (fun key => bool_decide (keyBytes key ∈ map keyBytes checkpointKeys)) keys)
    (verr "stream bundle signer must be independent of checkpoint policy keys");;
  let candidates := List.filter (fun key => bool_decide (key_kid key = Some (bg_kid (sb_signature bundle)))) keys in
  match candidates with
  | [key] =>
      throw_if (negb (length (keyBytes key) =? 32)%nat) (verr "stream bundle signature key is not uniquely trusted");;
      throw_if (negb (ed25519_verify (keyBytes key) (sb_signedBytes bundle) (bg_value (sb_signature bundle))))
        (verr "invalid stream bundle signature")
  | _ => Throw (verr "stream bundle signature key is not uniquely trusted")
  end.

Definition logged_state_of (type : jsstr) : jsstr :=
  if bool_decide (type = js "REVOCATION") then js "REVOKED"
  else if bool_decide (type = js "RETIREMENT") then js "RETIRED" else js "ACTIVE".

Definition lifecycleSummary (events : list VerifiedLifecycleEvent) : C2spStreamBundleState :=
  match last events with
  | None => mkBundleState 0 [] (js "UNKNOWN")
  | Some e =>
      let lastEventType := type_name (ev_payload (ve_event e)) in
      mkBundleState (zlen events) lastEventType (logged_state_of lastEventType)
  end.

Definition thumbprint_step (thumbprint : jsstr) (event : LogEvent) : res jsstr :=
  match ev_payload event with
  | ISSUANCE i =>
      throw_if (length (default [] (i_initialOperationalThumbprint i)) =? 0)%nat
        (verr "verified ISSUANCE does not contain an operational-key thumbprint");;
      Ok (default [] (i_initialOperationalThumbprint i))
  | KEY_ROTATION r =>
      throw_if (length (r_newOperationalThumbprint r) =? 0)%nat
        (verr "verified KEY_ROTATION does not contain an operational-key thumbprint");;
      Ok (r_newOperationalThumbprint r)
  | _ => Ok thumbprint
  end.
Definition activeOperationalThumbprint (events : list LogEvent) : res jsstr :=
  thumbprint ← for_each thumbprint_step events [];
  throw_if (length thumbprint =? 0)%nat (verr "verified stream bundle does not establish an operational key");;
  Ok thumbprint.

(** [new Date] comparisons: an invalid witness time compares as [NaN]. *)
Definition date_ms_gt (a b : option Z) : bool := match a, b with Some a, Some b => b <? a | _, _ => false end.

(** The freshness checks, between the policy and the inclusion proofs. *)
Definition checkFreshness (bundle : C2spStreamBundle) (options : VerifyC2spStreamBundleOptions)
    (witnessTime : jsdate) : res unit :=
  let nowMs := vo_nowMs options in
  checkpointFreshnessMs ← positiveInteger (vo_checkpointFreshnessMs options);
  throw_if (date_ms_gt ((fun w => to_double (nowMs - w)) <$> witnessTime) (Some checkpointFreshnessMs))
    (verr "stream bundle checkpoint is too stale");;
  maxBundleLifetimeMs ← positiveInteger (vo_maxBundleLifetimeMs options);
  throw_if (to_double (sb_expires bundle * 1000) <=? nowMs) (verr "stream bundle is expired");;
  throw_if (date_ms_gt (Some (to_double (sb_expires bundle * 1000)))
              ((fun w => to_double (w + maxBundleLifetimeMs)) <$> witnessTime))
    (verr "stream bundle expiry exceeds configured maximum lifetime").

Definition check_inclusion (bundle : C2spStreamBundle) (event : C2spStreamBundleEvent) : res unit :=
  ok ← verifyInclusion (be_entryBytes event) (be_index event) (sb_completeThroughSize bundle)
         (rootHash (sb_checkpoint bundle)) (be_proof event);
  throw_if (negb ok) (verr "invalid stream bundle inclusion proof").

(** The bundled entries up to the cutoff. *)
Definition bundle_entries (bundle : C2spStreamBundle) (cutoffIndex : option Z) : list IndexedEntry :=
  map (fun e => mkIndexedEntry (be_index e) (be_entryBytes e))
    (List.filter (fun e => match cutoffIndex with Some c => be_index e <=? c | None => true end) (sb_events bundle)).

(** An event time is never later than an invalid checkpoint time; event times are at
    most [MAX_TIME]. *)
Definition integration_time (witnessTime : jsdate) (maxClockSkewMs : Z) : Z :=
  match witnessTime with Some w => to_double (w + maxClockSkewMs) | None => MAX_TIME end.

Definition bundle_stream_options (bundle : C2spStreamBundle) (options : VerifyC2spStreamBundleOptions)
    (witnessTime : jsdate) (maxClockSkewMs : Z) : StreamVerifierOptions :=
  let reference := sb_reference bundle in
  mkStreamOptions
    (mkContext (Some (lr_scope reference)) (Some (lr_origin reference)) (Some (lr_streamId reference))
       (Some (lr_lr reference)) None None None)
    (Some (vo_entityKey options)) (Some (integration_time witnessTime maxClockSkewMs)) (vo_verifyMigration options).

(** The reference of an event in a stream: [`${lr}@${index}`]. *)
Definition event_reference (lr : jsstr) (index : Z) : jsstr := lr ++ [64] ++ dec index.

(** The history before an inbound migration is put in front. *)
Definition stitch (domain lr : jsstr) (verified : list VerifiedLifecycleEvent)
    (migration : option MigrationVerificationResult) : res (list LogEvent * option (list jsstr)) :=
  let lifecycle := map ve_event verified in
  let currentReferences := map (fun e => event_reference lr (ve_index e)) verified in
  if match lifecycle with e :: _ => is_migration e | [] => false end then
    migration ← of_option migration (verr_in "MIGRATION requires stitched verified prior-log history" INVALID_MIGRATION);
    historyReferences ← (if is_none (mr_priorHistoryReferences migration) then Ok None
                         else Some <$> stitchVerifiedMigrationReferences lifecycle currentReferences migration);
    lifecycle ← stitchVerifiedMigrationHistory domain lifecycle migration;
    Ok (lifecycle, historyReferences)
  else Ok (lifecycle, Some currentReferences).

(** With the memo that the calls of the migration callback leave behind. *)
Definition verifyBundleContents (bs : bytes) (options : VerifyC2spStreamBundleOptions)
    : res (VerifiedC2spStreamBundle * migration_memo) :=
  bundle ← parseC2spStreamBundle bs (vo_maxBundleBytes options) (vo_maxEvents options);
  expectedFqdn ← normalizeFQDN (vo_expectedFqdn options) true;
  expectedReference ← parseC2spTlogLr (vo_expectedLogReference options);
  throw_if (negb (is_none (lr_entryIndex expectedReference))
            || negb (bool_decide (lr_lr expectedReference = vo_expectedLogReference options)))
    (verr "expected log reference must be canonical and bound");;
  throw_if (negb (bool_decide (sb_fqdn bundle = expectedFqdn)))
    (verr "stream bundle fqdn does not match expected identity");;
  throw_if (negb (bool_decide (lr_lr (sb_reference bundle) = lr_lr expectedReference)))
    (verr "stream bundle lr does not match expected identity record");;
  throw_if (negb (bool_decide (sb_policyHash bundle = sha256 [vo_policyBytes options])))
    (verr "stream bundle policy_hash mismatch");;
  policyText ← of_option (utf8_decode (vo_policyBytes options)) (EError "TypeError");
  policy ← parseC2spPolicyFile policyText;
  checkpointKeys ← normalizedOriginPolicy policy (lr_origin (sb_reference bundle));
  verifyBundleSignature bundle (vo_bundleKeys options) (np_logKeys checkpointKeys ++ np_witnessKeys checkpointKeys);;
  maxClockSkewMs ← nonNegativeInteger (default 0 (vo_maxClockSkewMs options));
  policyResult ← enforceCheckpointPolicy (sb_checkpoint bundle) (lr_origin (sb_reference bundle)) policy
                   (lr_scope (sb_reference bundle)) (vo_nowMs options) maxClockSkewMs;
  throw_if (negb (treeSize (sb_checkpoint bundle) =? sb_completeThroughSize bundle))
    (verr "stream bundle checkpoint size mismatch");;
  maxTreeSize ← positiveInteger (default DEFAULT_C2SP_MAX_STREAM_BUNDLE_TREE_SIZE (vo_maxTreeSize options));
  throw_if (maxTreeSize <? treeSize (sb_checkpoint bundle))
    (verr "stream bundle checkpoint exceeds configured tree-size maximum");;
  witnessTime ← of_option (checkpointWitnessTime policyResult)
                  (verr "stream bundle freshness requires an accepted timestamped witness quorum");
  checkFreshness bundle options witnessTime;;
  for_each (fun _ event => check_inclusion bundle event) (sb_events bundle) tt;;
  '(verified, memo) ← verifyStreamWithinBudget (bundle_entries bundle (vo_cutoffIndex options)) (sb_fqdn bundle)
                        (bundle_stream_options bundle options witnessTime maxClockSkewMs);
  throw_if (is_none (vo_cutoffIndex options) && negb (bool_decide (sb_state bundle = lifecycleSummary verified)))
    (verr "stream bundle state does not match verified lifecycle history");;
  throw_if (length verified =? 0)%nat (verr "empty stream bundle cannot prove current identity state");;
  '(lifecycle, historyReferences) ← stitch (sb_fqdn bundle) (lr_lr (sb_reference bundle)) verified (mm_result memo);
  thumbprint ← activeOperationalThumbprint lifecycle;
  Ok (mkVerifiedBundle bundle verified lifecycle historyReferences thumbprint witnessTime, memo).

Definition verifyC2spStreamBundleContents (bs : bytes) (options : VerifyC2spStreamBundleOptions)
    : res VerifiedC2spStreamBundle := fst <$> verifyBundleContents bs options.

(** [verifyC2spStreamBundle]: the contents, and then the call that advances the trusted
    checkpoint; the call returns the contents when that client is done. *)
Definition verifyC2spStreamBundle (bs : bytes) (options : VerifyC2spStreamBundleOptions)
    (advance : nat -> AdvanceOptions) : res (VerifiedC2spStreamBundle * client) :=
  verified ← verifyC2spStreamBundleContents bs options;
  let bundle := vb_bundle verified in
  client ← advanceC2spCheckpoint (lr_origin (sb_reference bundle)) (sb_checkpoint bundle)
             (vb_checkpointWitnessTime verified) advance;
  Ok (verified, client).
Definition bundle_result (call : VerifiedC2spStreamBundle * client) : option (res VerifiedC2spStreamBundle) :=
  match cl_phase (snd call) with
  | Done (Ok _) => Some (Ok (fst call))
  | Done (Throw e) => Some (Throw e)
  | _ => None
  end.

End Bundle.

(** ** Lemmas *)

Lemma proof_nodes_length bs : zlen bs mod 32 = 0 -> Forall (fun s => length s = 32%nat) (proof_nodes bs).
Proof.
  intros Hm. unfold proof_nodes. apply Forall_map, Forall_forall. intros i Hi. apply elem_of_seqZ in Hi.
  pose proof (Z.div_mod (zlen bs) 32 ltac:(lia)). pose proof (zlen_nonneg bs).
  unfold slice, zlen in *. rewrite length_take, length_drop. lia.
Qed.

Lemma parseEvent_Ok value treeSize e : parseEvent value treeSize = Ok e ->
  0 <= be_index e < treeSize /\ 1 <= zlen (be_entryBytes e) <= 65535
  /\ Forall (fun s => length s = 32%nat) (be_proof e) /\ (length (be_proof e) <= 64)%nat.
Proof.
  unfold parseEvent, safeInteger. intros H. apply bind_Ok in H as (object & _ & H).
  apply bind_Ok in H as (index & Hi & H). apply bind_Ok in H as (? & Ht%throw_if_Ok & H).
  apply bind_Ok in H as (entry & _ & H). apply bind_Ok in H as (? & He%throw_if_Ok & H).
  apply bind_Ok in H as (nodes & _ & H). apply bind_Ok in H as (? & Hn%throw_if_Ok & [= <-]).
  destruct (safe_int _) as [z|]; [|done]. apply bind_Ok in Hi as (? & Hz%throw_if_Ok & [= <-]). bool_inv. cbn.
  split; [done|]. split; [unfold zlen in *; lia|]. split; [by apply proof_nodes_length|].
  unfold proof_nodes. rewrite length_map, length_seqZ. lia.
Qed.

Section BundleLemmas.
Context `{H256 : Hash256} `{Url : URLApi} `{Uni : Unicode} `{Jwk : JwkApi} `{Ed : Ed25519}.

Lemma parseC2spStreamBundle_Ok bs maxBytes maxEvents b : parseC2spStreamBundle bs maxBytes maxEvents = Ok b ->
  zlen bs <= maxBytes /\ zlen (sb_events b) <= maxEvents
  /\ normalizeFQDN (sb_fqdn b) true = Ok (sb_fqdn b)
  /\ lr_entryIndex (sb_reference b) = None
  /\ strictly_increasing (map be_index (sb_events b)) = true
  /\ Forall (fun e => 0 <= be_index e < sb_completeThroughSize b /\ 1 <= zlen (be_entryBytes e) <= 65535
       /\ Forall (fun s => length s = 32%nat) (be_proof e) /\ (length (be_proof e) <= 64)%nat) (sb_events b).
Proof.
  unfold parseC2spStreamBundle. intros H. res_inv. bool_inv. cbn. subst.
  repeat match goal with He : map_res _ _ = Ok _ |- _ =>
    pose proof (map_res_length _ _ _ He) as Hlen; apply map_res_Forall2 in He as Hall; clear He end.
  split; [done|]. split; [unfold zlen in *; lia|]. split; [congruence|].
  split; [by destruct (lr_entryIndex _)|]. split; [done|].
  clear -Hall. induction Hall as [|value e values events Hv _ IH]; constructor; [by eapply parseEvent_Ok|done].
Qed.

(** The reference of a bundle is the parsed form of its own text. *)
Lemma parseC2spStreamBundle_reference bs maxBytes maxEvents b : parseC2spStreamBundle bs maxBytes maxEvents = Ok b ->
  parseC2spTlogLr (lr_lr (sb_reference b)) = Ok (sb_reference b).
Proof. unfold parseC2spStreamBundle. intros H. res_inv. bool_inv. cbn. congruence. Qed.

Lemma verifyBundleSignature_Ok b keys checkpointKeys : verifyBundleSignature b keys checkpointKeys = Ok tt ->
  exists key, key ∈ keys /\ key_kid key = Some (bg_kid (sb_signature b))
    /\ keyBytes key ∉ map keyBytes checkpointKeys
    /\ ed25519_verify (keyBytes key) (sb_signedBytes b) (bg_value (sb_signature b)) = true.
Proof.
  unfold verifyBundleSignature. intros H. apply bind_Ok in H as (? & _ & H).
  apply bind_Ok in H as (? & Hi%throw_if_Ok & H).
  destruct (List.filter _ keys) as [|key [|]] eqn:Ef; try done. res_inv. bool_inv.
  assert (Hk : In key (List.filter (fun key => bool_decide (key_kid key = Some (bg_kid (sb_signature b)))) keys))
    by (rewrite Ef; by left).
  apply filter_In in Hk as [Hk Hid%bool_decide_eq_true]. exists key.
  split; [by apply list_elem_of_In|]. split; [done|]. split; [|done]. intros Hin.
  assert (Hc : existsb (fun key => bool_decide (keyBytes key ∈ map keyBytes checkpointKeys)) keys = true)
    by (apply existsb_exists; exists key; by rewrite bool_decide_eq_true_2).
  by rewrite Hc in Hi.
Qed.

(** The bundle's times at verification. *)
Definition fresh (b : C2spStreamBundle) (options : VerifyC2spStreamBundleOptions) (witnessTime : jsdate) : Prop :=
  vo_nowMs options < to_double (sb_expires b * 1000)
  /\ forall w, witnessTime = Some w ->
       to_double (vo_nowMs options - w) <= vo_checkpointFreshnessMs options
       /\ to_double (sb_expires b * 1000) <= to_double (w + vo_maxBundleLifetimeMs options).

Lemma checkFreshness_Ok b options w : checkFreshness b options w = Ok tt -> fresh b options w.
Proof.
  unfold checkFreshness, positiveInteger, fresh. intros H. res_inv. bool_inv. split; [lia|].
  intros t ->. cbn in *. bool_inv. lia.
Qed.

(** The parts of an accepted verification. *)
Record verified_parts (bs : bytes) (options : VerifyC2spStreamBundleOptions) (r : VerifiedC2spStreamBundle)
    (policy : C2spTlogPolicy) (checkpointKeys : NormalizedOriginPolicy) (policyResult : CheckpointPolicyResult)
    (memo : migration_memo) : Prop := {
  vp_parsed : parseC2spStreamBundle bs (vo_maxBundleBytes options) (vo_maxEvents options) = Ok (vb_bundle r);
  vp_fqdn : normalizeFQDN (vo_expectedFqdn options) true = Ok (sb_fqdn (vb_bundle r));
  vp_lr : lr_lr (sb_reference (vb_bundle r)) = vo_expectedLogReference options;
  vp_policy : exists text, utf8_decode (vo_policyBytes options) = Some text /\ parseC2spPolicyFile text = Ok policy
    /\ sb_policyHash (vb_bundle r) = sha256 [vo_policyBytes options];
  vp_keys : normalizedOriginPolicy policy (lr_origin (sb_reference (vb_bundle r))) = Ok checkpointKeys;
  vp_signature : verifyBundleSignature (vb_bundle r) (vo_bundleKeys options)
    (np_logKeys checkpointKeys ++ np_witnessKeys checkpointKeys) = Ok tt;
  vp_checkpoint : enforceCheckpointPolicy (sb_checkpoint (vb_bundle r)) (lr_origin (sb_reference (vb_bundle r)))
    policy (lr_scope (sb_reference (vb_bundle r))) (vo_nowMs options) (default 0 (vo_maxClockSkewMs options))
    = Ok policyResult;
  vp_witness : checkpointWitnessTime policyResult = Some (vb_checkpointWitnessTime r);
  vp_size : treeSize (sb_checkpoint (vb_bundle r)) = sb_completeThroughSize (vb_bundle r);
  vp_fresh : fresh (vb_bundle r) options (vb_checkpointWitnessTime r);
  vp_inclusion : for_each (fun _ event => check_inclusion (vb_bundle r) event) (sb_events (vb_bundle r)) tt = Ok tt;
  vp_stream : verifyStreamWithinBudget (bundle_entries (vb_bundle r) (vo_cutoffIndex options))
    (sb_fqdn (vb_bundle r))
    (bundle_stream_options (vb_bundle r) options (vb_checkpointWitnessTime r) (default 0 (vo_maxClockSkewMs options)))
    = Ok (vb_events r, memo);
  vp_state : vo_cutoffIndex options = None -> sb_state (vb_bundle r) = lifecycleSummary (vb_events r);
  vp_nonempty : vb_events r <> [];
  vp_lifecycle : stitch (sb_fqdn (vb_bundle r)) (lr_lr (sb_reference (vb_bundle r))) (vb_events r) (mm_result memo)
    = Ok (vb_lifecycle r, vb_historyReferences r);
  vp_thumbprint : activeOperationalThumbprint (vb_lifecycle r) = Ok (vb_activeOperationalKeyThumbprint r)
}.

Lemma verifyBundleContents_Ok bs options r memo : verifyBundleContents bs options = Ok (r, memo) ->
  exists policy checkpointKeys policyResult,
    verified_parts bs options r policy checkpointKeys policyResult memo.
Proof.
  unfold verifyBundleContents. intros H.
  apply bind_Ok in H as (b & Hb & H). apply bind_Ok in H as (fqdn & Hf & H).
  apply bind_Ok in H as (lr & Hlr & H). apply bind_Ok in H as (? & Hlr1%throw_if_Ok & H).
  apply bind_Ok in H as (? & Hf1%throw_if_Ok & H). apply bind_Ok in H as (? & Hlr2%throw_if_Ok & H).
  apply bind_Ok in H as (? & Hh%throw_if_Ok & H). apply bind_Ok in H as (text & Ht%of_option_Ok & H).
  apply bind_Ok in H as (policy & Hp & H). apply bind_Ok in H as (np & Hnp & H).
  apply bind_Ok in H as ([] & Hsig & H). apply bind_Ok in H as (skew & Hskew & H).
  unfold nonNegativeInteger in Hskew. apply bind_Ok in Hskew as (? & _ & [= <-]).
  apply bind_Ok in H as (pr & Hpr & H). apply bind_Ok in H as (? & Hsz%throw_if_Ok & H).
  apply bind_Ok in H as (mts & _ & H). apply bind_Ok in H as (? & _ & H).
  apply bind_Ok in H as (w & Hw%of_option_Ok & H). apply bind_Ok in H as ([] & Hfr%checkFreshness_Ok & H).
  apply bind_Ok in H as ([] & Hinc & H). apply bind_Ok in H as ([verified m] & Hv & H).
  apply bind_Ok in H as (? & Hst%throw_if_Ok & H). apply bind_Ok in H as (? & Hne%throw_if_Ok & H).
  apply bind_Ok in H as ([lifecycle refs] & Hs & H). apply bind_Ok in H as (thumb & Hth & [= <- <-]).
  bool_inv. subst. exists policy, np, pr. split; cbn; try done.
  - congruence.
  - by exists text.
  - intros Hc. rewrite Hc in Hst. cbn in Hst. by bool_inv.
  - by destruct verified.
Qed.

Lemma verifyC2spStreamBundleContents_Ok bs options r : verifyC2spStreamBundleContents bs options = Ok r ->
  exists policy checkpointKeys policyResult memo,
    verified_parts bs options r policy checkpointKeys policyResult memo.
Proof.
  unfold verifyC2spStreamBundleContents. destruct (verifyBundleContents bs options) as [[r' memo]|] eqn:E; [|done].
  intros [= <-]. destruct (verifyBundleContents_Ok _ _ _ _ E) as (policy & np & pr & H). by exists policy, np, pr, memo.
Qed.

End BundleLemmas.

(** ** Properties *)

Section BundleProperties.
Context `{H256 : Hash256} `{Url : URLApi} `{Uni : Unicode} `{Jwk : JwkApi} `{Ed : Ed25519}.

Lemma check_inclusion_all b events : for_each (fun _ event => check_inclusion b event) events tt = Ok tt ->
  Forall (fun e => verifyInclusion (be_entryBytes e) (be_index e) (sb_completeThroughSize b)
                     (rootHash (sb_checkpoint b)) (be_proof e) = Ok true) events.
Proof.
  induction events as [|e events IH]; cbn [for_each]; [constructor|]. intros ([] & He & H)%bind_Ok.
  constructor; [|by apply IH]. unfold check_inclusion in He. res_inv. bool_inv. by subst.
Qed.

(** The collisions that the proofs of a bundle against a log may contain. *)
Definition bundle_collision (log : list bytes) (b : C2spStreamBundle) : Prop :=
  exists e x y, e ∈ sb_events b
    /\ inclusion_collision log (be_entryBytes e) (be_index e) (be_proof e) = Some (x, y)
    /\ x <> y /\ digest x = digest y.

Lemma bundle_members log b events : events ⊆ sb_events b ->
  Forall (fun e => Forall (fun s => length s = 32%nat) (be_proof e)) events ->
  Forall (fun e => verifyInclusion (be_entryBytes e) (be_index e) (zlen log) (merkleRootFromEntries log) (be_proof e)
                   = Ok true) events ->
  bundle_collision log b \/ Forall (fun e => be_entryBytes e ∈ log) events.
Proof.
  induction events as [|e events IH]; intros Hsub Hlen Hok; [by right|].
  apply Forall_cons in Hlen as [Hl Hlen]. apply Forall_cons in Hok as [Hv Hok].
  pose proof (inclusion_member _ _ _ _ Hl Hv) as He.
  destruct (inclusion_collision log (be_entryBytes e) (be_index e) (be_proof e)) as [[x y]|] eqn:Ec.
  - left. exists e, x, y. split; [by apply Hsub, list_elem_of_here|done].
  - destruct IH as [Hc|Hm]; [intros e' He'; apply Hsub; by right|done|done|by left|]. right. by constructor.
Qed.

Lemma entries_members (log : list bytes) b cutoff selected : Forall (fun e => be_entryBytes e ∈ log) (sb_events b) ->
  map entry_of selected `sublist_of` sort_by by_index (bundle_entries b cutoff) ->
  Forall (fun v => ve_bytes v ∈ log) selected.
Proof.
  intros Hm Hsub. apply Forall_forall. intros v Hv.
  assert (Hi : entry_of v ∈ bundle_entries b cutoff).
  { rewrite <-(sort_by_perm by_index). eapply sublist_subseteq; [exact Hsub|]. by apply list_elem_of_fmap_2. }
  unfold bundle_entries in Hi. apply list_elem_of_fmap in Hi as (e & [= _ ->] & Hi).
  apply list_elem_of_In, filter_In in Hi as [Hi _]. rewrite Forall_forall in Hm. by apply Hm, list_elem_of_In.
Qed.

(** C35: the evidence of an accepted bundle: when its checkpoint is the head of a log, every
    event it reports is an entry of that log, or a SHA-256 collision is computed; the
    events are in log order, parsed from their entries, of the bundle's identity, and
    run the authority machine under the trusted entity key. *)
Theorem verifyC2spStreamBundleContents_evidence bs options r log :
  verifyC2spStreamBundleContents bs options = Ok r ->
  let b := vb_bundle r in
  rootHash (sb_checkpoint b) = merkleRootFromEntries log -> treeSize (sb_checkpoint b) = zlen log ->
  let so := bundle_stream_options b options (vb_checkpointWitnessTime r) (default 0 (vo_maxClockSkewMs options)) in
  (bundle_collision log b \/ Forall (fun v => ve_bytes v ∈ log) (vb_events r))
  /\ vb_events r <> []
  /\ map entry_of (vb_events r) `sublist_of` sort_by by_index (bundle_entries b (vo_cutoffIndex options))
  /\ Forall (faithful so (sb_fqdn b)) (vb_events r)
  /\ exists entityKey activeKey, authorized_history so (callback_answer so) (vb_events r) (Some (entityKey, activeKey)).
Proof.
  intros (policy & np & pr & memo & Hp)%verifyC2spStreamBundleContents_Ok b Hroot Hsize so.
  destruct (verifyStreamWithinBudget_Ok _ _ _ _ _ (vp_stream _ _ _ _ _ _ _ Hp)) as (Hsub & Hf & Hh).
  split; [|by split; [apply Hp|]].
  destruct (parseC2spStreamBundle_Ok _ _ _ _ (vp_parsed _ _ _ _ _ _ _ Hp)) as (_ & _ & _ & _ & _ & Hev).
  pose proof (check_inclusion_all _ _ (vp_inclusion _ _ _ _ _ _ _ Hp)) as Hinc.
  rewrite <-(vp_size _ _ _ _ _ _ _ Hp) in Hinc. fold b in Hinc, Hev. rewrite Hroot, Hsize in Hinc.
  destruct (bundle_members log b (sb_events b)) as [Hc|Hm]; [done| |done|by left|right].
  { eapply Forall_impl; [exact Hev|]. intros e (_ & _ & Hl & _); exact Hl. }
  eapply entries_members; [exact Hm|exact Hsub].
Qed.
(** The trust in an accepted bundle: it is the bundle of the expected identity and log
    reference; the trusted policy has the bundle's policy hash and accepts its checkpoint
    for its origin and scope; a trusted producer key that is no checkpoint key signed
    it; it is fresh and not expired; and, without a cutoff, its summary is that of the
    verified events. *)
Theorem verifyC2spStreamBundleContents_trust bs options r :
  verifyC2spStreamBundleContents bs options = Ok r ->
  let b := vb_bundle r in
  normalizeFQDN (vo_expectedFqdn options) true = Ok (sb_fqdn b)
  /\ lr_lr (sb_reference b) = vo_expectedLogReference options
  /\ fresh b options (vb_checkpointWitnessTime r)
  /\ (vo_cutoffIndex options = None -> sb_state b = lifecycleSummary (vb_events r))
  /\ exists text policy np result,
       utf8_decode (vo_policyBytes options) = Some text /\ parseC2spPolicyFile text = Ok policy
       /\ sb_policyHash b = sha256 [vo_policyBytes options]
       /\ normalizedOriginPolicy policy (lr_origin (sb_reference b)) = Ok np
       /\ enforceCheckpointPolicy (sb_checkpoint b) (lr_origin (sb_reference b)) policy
            (lr_scope (sb_reference b)) (vo_nowMs options) (default 0 (vo_maxClockSkewMs options)) = Ok result
       /\ checkpointWitnessTime result = Some (vb_checkpointWitnessTime r)
       /\ exists key, key ∈ vo_bundleKeys options /\ key_kid key = Some (bg_kid (sb_signature b))
            /\ keyBytes key ∉ map keyBytes (np_logKeys np ++ np_witnessKeys np)
            /\ ed25519_verify (keyBytes key) (sb_signedBytes b) (bg_value (sb_signature b)) = true.
Proof.
  intros (policy & np & pr & memo & Hp)%verifyC2spStreamBundleContents_Ok b.
  split; [apply Hp|]. split; [apply Hp|]. split; [apply Hp|]. split; [apply Hp|].
  destruct (vp_policy _ _ _ _ _ _ _ Hp) as (text & Ht & Hpol & Hh). exists text, policy, np, pr.
  do 3 (split; [done|]). split; [apply Hp|]. split; [apply Hp|]. split; [apply Hp|].
  apply verifyBundleSignature_Ok, Hp.
Qed.

(** Only the first event of an authorized history may be a migration. *)
Lemma history_migrations so Imported items keys first rest : authorized_history so Imported items keys ->
  items = first :: rest -> is_issuance (ve_event first) = true ->
  Forall (fun item => is_migration (ve_event item) = false) items.
Proof.
  intros Hh E Hi. apply Forall_forall. intros item Hin. destruct (is_migration (ve_event item)) eqn:Em; [|done].
  exfalso. revert first rest E Hi.
  induction Hh as [|items item' keys keys' Hh IH _ _ _ Hs]; [by apply not_elem_of_nil in Hin|].
  intros first rest E Hi. apply elem_of_app in Hin as [Hin|Hin%list_elem_of_singleton].
  - destruct items as [|i items]; [by apply not_elem_of_nil in Hin|]. injection E as -> _. by eapply IH.
  - subst item'. unfold is_migration, is_issuance in *. inversion Hs as [? i c Hp|? p n ref mig Hp|? rot ek ak Hp|? ek ak Hp]; subst;
      try (rewrite Hp in Em; done).
    + inversion Hh; subst; [|by match goal with Ha : authority_step _ _ _ _ None |- _ => inversion Ha end].
      injection E as <- _. by rewrite Hp in Hi.
    + by destruct (ev_payload (ve_event item)).
Qed.

(** The thumbprint of a history that begins with an ISSUANCE is that of the operational
    key that holds authority at its end. *)
Lemma active_thumbprint_Ok so Imported items entityKey activeKey t :
  authorized_history so Imported items (Some (entityKey, activeKey)) ->
  Forall (fun item => is_migration (ve_event item) = false) items ->
  for_each thumbprint_step (map ve_event items) [] = Ok t -> jwkThumbprint activeKey = Ok t.
Proof.
  intros Hh. remember (Some (entityKey, activeKey)) as keys eqn:Ek. revert entityKey activeKey t Ek.
  induction Hh as [|items item keys keys' Hh IH _ _ _ Hs]; [done|]. intros entityKey activeKey t -> Hm H.
  apply Forall_app in Hm as [Hm [Hi _]%Forall_cons]. rewrite map_app, for_each_app in H.
  apply bind_Ok in H as (t0 & H0 & H). cbn in H. apply bind_Ok in H as (t1 & H1 & [= <-]).
  unfold thumbprint_step in H1. inversion Hs as [? i c Hp Hc _ Ho|? p n ref mig Hp|? rot ek ak Hp _ Hn|? ek ak Hp]; subst.
  - rewrite Hp in H1. apply bind_Ok in H1 as (? & _ & [= <-]). rewrite Ho. f_equal.
    unfold c2sp_issuance in Hc. repeat (case_match; try done). by injection Hc as <-.
  - unfold is_migration in Hi. by rewrite Hp in Hi.
  - rewrite Hp in H1. by apply bind_Ok in H1 as (? & _ & [= <-]).
  - destruct (ev_payload (ve_event item)); try done; injection H1 as <-; by eapply IH.
Qed.

(** The reported operational key: when the verified events begin with an ISSUANCE, the
    lifecycle is that of these events, and the reported thumbprint is that of the
    operational key that holds authority after the last of them. *)
Theorem verifyC2spStreamBundleContents_active_key bs options r first rest :
  verifyC2spStreamBundleContents bs options = Ok r ->
  vb_events r = first :: rest -> is_issuance (ve_event first) = true ->
  let so := bundle_stream_options (vb_bundle r) options (vb_checkpointWitnessTime r)
              (default 0 (vo_maxClockSkewMs options)) in
  vb_lifecycle r = map ve_event (vb_events r)
  /\ exists entityKey activeKey, authorized_history so (callback_answer so) (vb_events r) (Some (entityKey, activeKey))
       /\ jwkThumbprint activeKey = Ok (vb_activeOperationalKeyThumbprint r).
Proof.
  intros (policy & np & pr & memo & Hp)%verifyC2spStreamBundleContents_Ok E Hi so.
  destruct (verifyStreamWithinBudget_Ok _ _ _ _ _ (vp_stream _ _ _ _ _ _ _ Hp)) as (_ & _ & ek & ak & Hh).
  pose proof (history_migrations _ _ _ _ _ _ Hh E Hi) as Hm.
  pose proof (vp_lifecycle _ _ _ _ _ _ _ Hp) as Hl. unfold stitch in Hl.
  replace (match map ve_event (vb_events r) with e :: _ => is_migration e | [] => false end) with false in Hl.
  - injection Hl as Hl _. split; [done|]. exists ek, ak. split; [exact Hh|].
    pose proof (vp_thumbprint _ _ _ _ _ _ _ Hp) as Ht. unfold activeOperationalThumbprint in Ht.
    rewrite <-Hl in Ht. apply bind_Ok in Ht as (t & Ht & H). apply bind_Ok in H as (? & _ & [= <-]).
    by eapply active_thumbprint_Ok.
  - rewrite E. cbn. rewrite E in Hm. by apply Forall_cons in Hm as [-> _].
Qed.

End BundleProperties.

(** ** Witnesses *)

Section Example.
#[local] Existing Instances Sha256_instance SimpleUrl AsciiUnicode ToyJwk ToyEd25519.

Definition bundle_log : list bytes := [genesis_bytes; retirement_bytes].
Definition bundle_policy : bytes := utf8_encode (small_policy "log.example/a").
Definition producer_key : SignedNoteKey :=
  mkSignedNoteKey (js "producer") (repeat x09 32) (Some [x0a; x0b; x0c; x0d]) (Some [x01]).

(** The checkpoint of the log, signed by the log and cosigned by the witness at time 10. *)
Definition bundle_head : jsstr :=
  js "log.example/a" ++ [10] ++ js "2" ++ [10] ++ btoa (merkleRootFromEntries bundle_log) ++ [10].
Definition bundle_note : jsstr :=
  bundle_head ++ [10]
  ++ em_dash ++ js " log.example/a "
  ++ btoa ([x01; x02; x03; x04] ++ toy_sign (repeat x05 32) (utf8_encode bundle_head)) ++ [10]
  ++ em_dash ++ js " w.example "
  ++ btoa ([x01; x02; x03; x04] ++ repeat x00 7 ++ [x0a]
           ++ toy_sign (repeat x06 32) (utf8_encode (cosignature_message 10 bundle_head))) ++ [10].

Definition event_json (i : nat) (entry : bytes) : json :=
  JObject [(js "index", JNumber (NInt (Z.of_nat i))); (js "entry", JString (b64url entry));
           (js "proof", JString (b64url (concat (PATH i bundle_log))))].
Definition unsigned_members (status : string) : list (jsstr * json) :=
  [(js "v", JNumber (NInt 1)); (js "type", JString (js "dnsid-c2sp-stream-bundle"));
   (js "fqdn", JString (js "bot.example.com")); (js "lr", JString (js "c2sp-tlog:public:https://log.example/a#s1"));
   (js "checkpoint", JString (b64url (utf8_encode bundle_note)));
   (js "policy_hash", JString (b64url (sha256 [bundle_policy])));
   (js "complete_through_size", JNumber (NInt 2)); (js "completeness_mode", JString (js "trusted-index"));
   (js "events", JArray [event_json 0 genesis_bytes; event_json 1 retirement_bytes]);
   (js "state", JObject [(js "event_count", JNumber (NInt 2)); (js "last_event_type", JString (js "RETIREMENT"));
                         (js "logged_state", JString (js status))]);
   (js "expires", JNumber (NInt 20))].
Definition bundle_bytes (status : string) : bytes :=
  let unsigned := unsigned_members status in
  ok_or [] (canonicalBytes (JObject (unsigned ++
    [(js "sig", JObject [(js "alg", JString (js "EdDSA")); (js "kid", JString (js "producer+0a0b0c0d"));
       (js "value", JString (b64url (toy_sign (repeat x09 32) (ok_or [] (canonicalBytes (JObject unsigned))))))])]))).
Definition bundle_options : VerifyC2spStreamBundleOptions :=
  mkVerifyOptions 100000 10 (js "Bot.example.com") (js "c2sp-tlog:public:https://log.example/a#s1") bundle_policy
    [producer_key] example_entity 60000 60000 None None 12000 None None.

Local Notation bundle_run := (verifyC2spStreamBundleContents (bundle_bytes "RETIRED") bundle_options).
Definition first_event (r : VerifiedC2spStreamBundle) : VerifiedLifecycleEvent :=
  hd (mkVerifiedEvent 0 [] [] (example_event 0 RETIREMENT)) (vb_events r).

(** One evaluation of the example. *)
Lemma bundle_runs :
  match bundle_run with
  | Ok r => bool_decide (rootHash (sb_checkpoint (vb_bundle r)) = merkleRootFromEntries bundle_log)
            && (treeSize (sb_checkpoint (vb_bundle r)) =? 2) && (length (vb_events r) =? 2)%nat
            && is_issuance (ve_event (first_event r))
  | Throw _ => false
  end = true.
Proof. vm_compute. reflexivity. Qed.

Lemma bundle_accepted : exists r, bundle_run = Ok r
  /\ rootHash (sb_checkpoint (vb_bundle r)) = merkleRootFromEntries bundle_log
  /\ treeSize (sb_checkpoint (vb_bundle r)) = zlen bundle_log
  /\ vb_events r = first_event r :: tl (vb_events r) /\ is_issuance (ve_event (first_event r)) = true.
Proof.
  pose proof bundle_runs as H. destruct bundle_run as [r|]; [|done]. exists r. bool_inv.
  split; [done|]. split; [done|]. split; [done|]. split; [|done]. unfold first_event. by destruct (vb_events r).
Qed.

Lemma verifyC2spStreamBundleContents_evidence_witness : exists r, bundle_run = Ok r
  /\ (bundle_collision bundle_log (vb_bundle r) \/ Forall (fun v => ve_bytes v ∈ bundle_log) (vb_events r)).
Proof.
  destruct bundle_accepted as (r & Hr & Hroot & Hsize & _). exists r. split; [exact Hr|].
  exact (proj1 (verifyC2spStreamBundleContents_evidence (bundle_bytes "RETIRED") bundle_options r bundle_log
                  Hr Hroot Hsize)).
Defined.

Lemma verifyC2spStreamBundleContents_trust_witness : exists r, bundle_run = Ok r
  /\ sb_state (vb_bundle r) = lifecycleSummary (vb_events r).
Proof.
  destruct bundle_accepted as (r & Hr & _). exists r. split; [exact Hr|].
  destruct (verifyC2spStreamBundleContents_trust (bundle_bytes "RETIRED") bundle_options r Hr)
    as (_ & _ & _ & Hs & _). exact (Hs eq_refl).
Defined.

Lemma verifyC2spStreamBundleContents_active_key_witness : exists r, bundle_run = Ok r
  /\ vb_lifecycle r = map ve_event (vb_events r).
Proof.
  destruct bundle_accepted as (r & Hr & _ & _ & He & Hi). exists r. split; [exact Hr|].
  exact (proj1 (verifyC2spStreamBundleContents_active_key (bundle_bytes "RETIRED") bundle_options r
           (first_event r) (tl (vb_events r)) Hr He Hi)).
Defined.

End Example.
