(* ===== verification/IdentityCache.v ===== *)
(** The in-memory identity cache: [protocol/src/identity-cache.ts].

    [view] gives what the methods of a result read.  Timers are the platform's: a pending
    timer may fire at any moment from its due time on, or later; a cleared timer never fires. *)

From stdpp Require Import gmap.
From S2P Require Import Prelude JsString EventCodec Lifecycle.

(** ** The cache *)

Section Cache.
Context {V : Type} (view : V -> VerifiedDomain).

Record CacheEntry := mkCacheEntry { ce_result : V; ce_expiresAt : date; ce_timer : nat }.

(** The store, and the pending timers with the domain that their callback deletes. *)
Record cache := mkCache {
  store : gmap jsstr CacheEntry;
  timers : gmap nat (jsstr * Z);
  next_timer : nat
}.
Definition empty_cache : cache := mkCache ∅ ∅ 0.

(** [this.store.delete(domain)] *)
Definition delete_entry (domain : jsstr) (c : cache) : cache :=
  mkCache (base.delete domain (store c)) (timers c) (next_timer c).
Definition clearTimeout (timer : nat) (c : cache) : cache :=
  mkCache (store c) (base.delete timer (timers c)) (next_timer c).

(** The platform replaces a delay over [2^31 - 1] by one millisecond. *)
Definition timer_delay (ms : Z) : Z := if (ms <? 1) || (2147483647 <? ms) then 1 else ms.

Definition cache_get (now : Z) (domain : jsstr) (c : cache) : option V * cache :=
  match store c !! domain with
  | None => (None, c)
  | Some entry =>
      if date_ge now (ce_expiresAt entry) then (None, delete_entry domain c)
      else (Some (ce_result entry), c)
  end.

Definition cache_evict (domain : jsstr) (c : cache) : cache :=
  match store c !! domain with
  | Some entry => delete_entry domain (clearTimeout (ce_timer entry) c)
  | None => c
  end.

(** Whether a result is stored: a positive time to live of both kinds. *)
Definition storable (now : Z) (result : V) (expiresAt : date) : bool :=
  negb (vd_dnsTTL (view result) <=? 0) && match expiresAt with Some t => negb (t - now <=? 0) | None => false end.

Definition cache_put (now : Z) (domain : jsstr) (result : V) (c : cache) : res unit * cache :=
  match expiry (view result) with
  | Throw e => (Throw e, c)
  | Ok expiresAt =>
      let c := cache_evict domain c in
      if negb (storable now result expiresAt) then (Ok tt, c)
      else
        let ttlMs := default 0 expiresAt - now in
        let timer := next_timer c in
        (Ok tt, mkCache (<[domain := mkCacheEntry result expiresAt timer]> (store c))
                  (<[timer := (domain, now + timer_delay (Z.max 0 ttlMs))]> (timers c)) (S timer))
  end.

(** The callback of a timer that is due. *)
Definition fire (now : Z) (timer : nat) (c : cache) : cache :=
  match timers c !! timer with
  | Some (domain, due) => if due <=? now then delete_entry domain (clearTimeout timer c) else c
  | None => c
  end.

(** ** Runs, and the map that a run stands for *)

Inductive cache_event :=
  | Get (now : Z) (domain : jsstr)
  | Put (now : Z) (domain : jsstr) (result : V)
  | Evict (domain : jsstr)
  | Fire (now : Z) (timer : nat).

Definition cache_step (c : cache) (e : cache_event) : cache :=
  match e with
  | Get now domain => snd (cache_get now domain c)
  | Put now domain result => snd (cache_put now domain result c)
  | Evict domain => cache_evict domain c
  | Fire now timer => fire now timer c
  end.
Definition cache_run (events : list cache_event) : cache := foldl cache_step empty_cache events.

(** The last result put for each domain, unless it was not storable or was evicted. *)
Definition last_put (m : gmap jsstr V) (e : cache_event) : gmap jsstr V :=
  match e with
  | Put now domain result =>
      match expiry (view result) with
      | Ok d => if storable now result d then <[domain := result]> m else base.delete domain m
      | Throw _ => m
      end
  | Evict domain => base.delete domain m
  | Get _ _ | Fire _ _ => m
  end.
Definition last_puts (events : list cache_event) : gmap jsstr V := foldl last_put ∅ events.

(** ** Lemmas *)

(** Each entry is the last result put for its domain, with the expiry of that result. *)
Definition cache_inv (m : gmap jsstr V) (c : cache) : Prop :=
  forall domain entry, store c !! domain = Some entry ->
    m !! domain = Some (ce_result entry) /\ expiry (view (ce_result entry)) = Ok (ce_expiresAt entry)
    /\ 0 < vd_dnsTTL (view (ce_result entry)).

Lemma delete_entry_inv m domain c : cache_inv m c -> cache_inv m (delete_entry domain c).
Proof. intros H d entry Hd. cbn [delete_entry store] in Hd. apply lookup_delete_Some in Hd as [_ Hd]. by apply H. Qed.

Lemma clearTimeout_inv m timer c : cache_inv m c -> cache_inv m (clearTimeout timer c).
Proof. intros H d entry Hd. by apply H. Qed.

Lemma evict_lookup domain c : store (cache_evict domain c) !! domain = None
  /\ forall d, d <> domain -> store (cache_evict domain c) !! d = store c !! d.
Proof.
  unfold cache_evict. destruct (store c !! domain) eqn:E; [|done]. cbn.
  split; [apply lookup_delete_eq|]. intros d Hd. by apply lookup_delete_ne.
Qed.

Lemma evict_inv m domain c : cache_inv m c -> cache_inv (base.delete domain m) (cache_evict domain c).
Proof.
  intros H d entry Hd. destruct (evict_lookup domain c) as [He Hne].
  destruct (decide (d = domain)) as [->|Hn]; [congruence|].
  rewrite Hne in Hd by done. rewrite lookup_delete_ne by done. by apply H.
Qed.

Lemma put_inv m now domain result c : cache_inv m c ->
  cache_inv (last_put m (Put now domain result)) (snd (cache_put now domain result c)).
Proof.
  intros H. unfold cache_put. cbn [last_put]. destruct (expiry (view result)) as [d|e] eqn:Ed; [|done].
  destruct (storable now result d) eqn:Es; cbn [negb snd]; [|by apply evict_inv].
  intros d' entry. cbn. rewrite !lookup_insert. destruct (decide (domain = d')) as [<-|Hn].
  - intros [= <-]. split; [done|]. split; [done|]. unfold storable in Es. bool_inv. cbn. lia.
  - intros Hd. apply evict_inv with (domain := domain) in H. apply H in Hd. by rewrite lookup_delete_ne in Hd.
Qed.

Lemma step_inv m c e : cache_inv m c -> cache_inv (last_put m e) (cache_step c e).
Proof.
  intros H. destruct e as [now domain|now domain result|domain|now timer].
  - cbn. unfold cache_get. destruct (store c !! domain); [|done]. destruct (date_ge _ _); [|done].
    by apply delete_entry_inv.
  - by apply put_inv.
  - by apply evict_inv.
  - cbn. unfold fire. destruct (timers c !! timer) as [[d due]|]; [|done]. destruct (due <=? now); [|done].
    by apply delete_entry_inv, clearTimeout_inv.
Qed.

Lemma run_inv events : cache_inv (last_puts events) (cache_run events).
Proof.
  induction events as [|e events IH] using rev_ind; [by intros d entry Hd|].
  unfold last_puts, cache_run. rewrite !foldl_app. by apply step_inv.
Qed.

(** ** Properties *)

(** Whatever calls and timers ran before, [get] returns nothing, or the result that was
    put last for the domain and not evicted since, which has a positive DNS time to live
    and has not expired; a [get] that returns a result changes nothing. *)
Theorem cache_get_last_fresh events now domain r c' :
  cache_get now domain (cache_run events) = (Some r, c') ->
  last_puts events !! domain = Some r /\ 0 < vd_dnsTTL (view r) /\ c' = cache_run events
  /\ exists d, expiry (view r) = Ok d /\ date_ge now d = false.
Proof.
  unfold cache_get. destruct (store (cache_run events) !! domain) as [entry|] eqn:E; [|done].
  destruct (date_ge now (ce_expiresAt entry)) eqn:Eg; [done|]. intros [= <- <-].
  apply (run_inv events) in E as (Hm & Hx & Ht). split; [done|]. split; [done|]. split; [done|].
  by exists (ce_expiresAt entry).
Qed.

End Cache.

(** ** Witnesses *)

Definition example_result (verifiedAt : Z) : VerifiedDomain :=
  newVerifiedDomain None [] (Some 100000) None ACTIVE (Some verifiedAt) 1 None (Some verifiedAt).

(** The results are [VerifiedDomain]s themselves. *)
#[local] Notation run := (cache_run (fun d : VerifiedDomain => d)).
#[local] Notation puts := (last_puts (fun d : VerifiedDomain => d)).

Lemma cache_get_last_fresh_witness :
  exists d, expiry (example_result 10) = Ok d /\ date_ge 500 d = false.
Proof.
  apply (cache_get_last_fresh (fun d => d) [Put 10 (js "a") (example_result 5); Put 10 (js "a") (example_result 10)]
           500 (js "a") (example_result 10)
           (run [Put 10 (js "a") (example_result 5); Put 10 (js "a") (example_result 10)])).
  vm_compute. reflexivity.
Defined.

(** A timer that is late outlives the entry it was made for: the entry expires, [get] drops
    it without clearing its timer, and the timer then deletes the next result put for the
    domain, although that result is fresh. *)
Definition late_timer : list (@cache_event VerifiedDomain) :=
  [Put 10 (js "a") (example_result 10); Get 1010 (js "a"); Put 1011 (js "a") (example_result 1011); Fire 1012 0].
Lemma late_timer_evicts :
  fst (cache_get 1013 (js "a") (run (take 3 late_timer))) = Some (example_result 1011)
  /\ fst (cache_get 1013 (js "a") (run late_timer)) = None
  /\ puts late_timer !! js "a" = Some (example_result 1011).
Proof. split; [|split]; vm_compute; reflexivity. Qed.
