(* ===== verification/Retry.v ===== *)
(** Retries with exponential backoff: [protocol/src/retry.ts].

    The operation's [n]-th call gives [operation n]; its effects are its own.  Delays are
    modelled for whole numbers of milliseconds and whole multipliers. *)

From S2P Require Import Prelude Json.

Definition DEFAULT_MAX_ATTEMPTS : Z := 3.
Definition DEFAULT_INITIAL_DELAY_MS : Z := 100.
Definition DEFAULT_MAX_DELAY_MS : Z := 2000.
Definition DEFAULT_MULTIPLIER : Z := 2.

(** [ro_random n] is the [n]-th draw of [Math.random], in units of [2^-53]. *)
Record RetryBackoffOptions := mkRetryOptions {
  ro_maxAttempts : option Z;
  ro_initialDelayMs : option Z;
  ro_maxDelayMs : option Z;
  ro_multiplier : option Z;
  ro_jitter : option bool;
  ro_shouldRetry : option (exn -> Z -> bool);
  ro_random : nat -> Z
}.

Definition isTransientVerificationError (error : exn) : bool :=
  match error with EVerification v => ve_transient v | _ => false end.

Definition positiveInteger (value : Z) : res Z :=
  throw_if (value <? 1) (ERange "must be an integer >= 1");; Ok value.
Definition nonNegativeNumber (value : Z) : res Z :=
  throw_if (value <? 0) (ERange "must be >= 0");; Ok value.

(** [Math.floor(random * capped)]: the product is the double nearest to it. *)
Definition jittered (random capped : Z) : Z :=
  if random * capped =? 0 then 0
  else match nearest (random * capped) (2 ^ 53) with
       | Some (m, e) => if 0 <=? e then m * 2 ^ e else m / 2 ^ (- e)
       | None => 0
       end.

(** A delay over [maxDelayMs] is cut to it, so the rounding of larger products does not
    matter when [maxDelayMs] is at most [2^53]. *)
Definition delayForAttempt (attempt initialDelayMs maxDelayMs multiplier : Z) (jitter : bool) (random : Z) : Z :=
  let uncapped := initialDelayMs * multiplier ^ (attempt - 1) in
  let capped := Z.min maxDelayMs uncapped in
  if jitter then jittered random capped else capped.

(** What a run did: its result, its number of calls, and the delays it slept. *)
Record retry_run (T : Type) := mkRun { rr_result : res T; rr_calls : nat; rr_sleeps : list Z }.
Arguments mkRun {T} _ _ _.
Arguments rr_result {T} _.
Arguments rr_calls {T} _.
Arguments rr_sleeps {T} _.

Section Retry.
Context {T : Type} (operation : nat -> res T).

(** The loop from attempt [attempt] on; [None] is a loop that has not ended yet. *)
Fixpoint retry_loop (fuel : nat) (shouldRetry : exn -> Z -> bool) (delay : Z -> Z) (maxAttempts : Z)
    (attempt : nat) (sleeps : list Z) : option (retry_run T) :=
  match fuel with
  | O => None
  | S fuel =>
      match operation attempt with
      | Ok value => Some (mkRun (Ok value) attempt sleeps)
      | Throw error =>
          if (maxAttempts <=? Z.of_nat attempt) || negb (shouldRetry error (Z.of_nat attempt))
          then Some (mkRun (Throw error) attempt sleeps)
          else retry_loop fuel shouldRetry delay maxAttempts (S attempt) (sleeps ++ [delay (Z.of_nat attempt)])
      end
  end.

(** The options are checked first; the loop makes at most [maxAttempts] calls. *)
Definition retryTransientVerification (options : RetryBackoffOptions) : res (option (retry_run T)) :=
  maxAttempts ← positiveInteger (default DEFAULT_MAX_ATTEMPTS (ro_maxAttempts options));
  initialDelayMs ← nonNegativeNumber (default DEFAULT_INITIAL_DELAY_MS (ro_initialDelayMs options));
  maxDelayMs ← nonNegativeNumber (default DEFAULT_MAX_DELAY_MS (ro_maxDelayMs options));
  multiplier ← nonNegativeNumber (default DEFAULT_MULTIPLIER (ro_multiplier options));
  let jitter := default true (ro_jitter options) in
  let shouldRetry := default (fun error _ => isTransientVerificationError error) (ro_shouldRetry options) in
  let delay attempt := delayForAttempt attempt initialDelayMs maxDelayMs multiplier jitter
                         (ro_random options (Z.to_nat attempt)) in
  Ok (retry_loop (Z.to_nat maxAttempts) shouldRetry delay maxAttempts 1 []).

(** ** Lemmas *)

Lemma retry_loop_spec shouldRetry delay maxAttempts fuel attempt sleeps :
  (1 <= attempt)%nat -> Z.of_nat attempt + Z.of_nat fuel = maxAttempts + 1 -> (0 < fuel)%nat ->
  exists r, retry_loop fuel shouldRetry delay maxAttempts attempt sleeps = Some r
    /\ (attempt <= rr_calls r)%nat /\ Z.of_nat (rr_calls r) <= maxAttempts
    /\ rr_result r = operation (rr_calls r)
    /\ (forall n, (attempt <= n < rr_calls r)%nat -> exists e, operation n = Throw e /\ shouldRetry e (Z.of_nat n) = true)
    /\ (forall e, rr_result r = Throw e ->
          Z.of_nat (rr_calls r) = maxAttempts \/ shouldRetry e (Z.of_nat (rr_calls r)) = false)
    /\ rr_sleeps r = sleeps ++ map (fun n => delay (Z.of_nat n)) (seq attempt (rr_calls r - attempt)).
Proof.
  revert attempt sleeps; induction fuel as [|fuel IH]; intros attempt sleeps Ha Hf Hp; [lia|]. cbn [retry_loop].
  destruct (operation attempt) as [x|e] eqn:Eo.
  { eexists. split; [reflexivity|]. cbn. rewrite Nat.sub_diag, app_nil_r.
    split; [lia|]. split; [lia|]. split; [done|]. split; [lia|]. done. }
  destruct ((maxAttempts <=? Z.of_nat attempt) || negb (shouldRetry e (Z.of_nat attempt))) eqn:Es.
  { eexists. split; [reflexivity|]. cbn. rewrite Nat.sub_diag, app_nil_r.
    split; [lia|]. split; [lia|]. split; [done|]. split; [lia|]. split; [|done]. intros e' [= <-].
    apply orb_true_iff in Es as [Es|Es]; [left; lia|right; by apply negb_true_iff]. }
  apply orb_false_iff in Es as [Es Er]. apply Z.leb_gt in Es. apply negb_false_iff in Er.
  destruct (IH (S attempt) (sleeps ++ [delay (Z.of_nat attempt)])) as (r & Hr & H1 & H2 & H3 & H4 & H5 & H6); [lia..|].
  exists r. split; [done|]. split; [lia|]. split; [done|]. split; [done|]. split; [|split; [done|]].
  - intros n Hn. destruct (decide (n = attempt)) as [->|]; [by exists e|apply H4; lia].
  - rewrite H6, <-app_assoc. f_equal. replace (rr_calls r - attempt)%nat with (S (rr_calls r - S attempt)) by lia.
    done.
Qed.

(** A run of the retry loop ends after at most [maxAttempts] calls with the outcome of
    its last call; it went on after exactly the failures that are to be retried, and it
    ends with an error only when the attempts are used up or the error is not to be
    retried. By default only transient verification errors are. *)
Theorem retryTransientVerification_spec options run :
  retryTransientVerification options = Ok run ->
  let maxAttempts := default DEFAULT_MAX_ATTEMPTS (ro_maxAttempts options) in
  let shouldRetry := default (fun error _ => isTransientVerificationError error) (ro_shouldRetry options) in
  exists r, run = Some r
    /\ 1 <= Z.of_nat (rr_calls r) <= maxAttempts
    /\ rr_result r = operation (rr_calls r)
    /\ (forall n, (1 <= n < rr_calls r)%nat -> exists e, operation n = Throw e /\ shouldRetry e (Z.of_nat n) = true)
    /\ (forall e, rr_result r = Throw e ->
          Z.of_nat (rr_calls r) = maxAttempts \/ shouldRetry e (Z.of_nat (rr_calls r)) = false)
    /\ length (rr_sleeps r) = (rr_calls r - 1)%nat.
Proof.
  unfold retryTransientVerification, positiveInteger, nonNegativeNumber. intros H. res_inv. bool_inv.
  match goal with |- context [retry_loop ?f ?s ?d ?m _ _] =>
    destruct (retry_loop_spec s d m f 1 []) as (r & Hr & H1 & H2 & H3 & H4 & H5 & H6); [lia..|] end.
  exists r. split; [done|]. split; [lia|]. split; [done|]. split; [done|]. split; [done|].
  by rewrite H6, app_nil_l, length_map, length_seq.
Qed.

End Retry.

(** ** Witnesses *)

Definition transient_error : exn := C2spTlogError "fetch failed" true None.
Definition flaky (n : nat) : res Z := if (n <? 3)%nat then Throw transient_error else Ok 7.
Definition plain_options : RetryBackoffOptions :=
  mkRetryOptions (Some 5) None None None (Some false) None (fun _ => 0).

Lemma retryTransientVerification_spec_witness : exists r : retry_run Z,
  retryTransientVerification flaky plain_options = Ok (Some r) /\ 1 <= Z.of_nat (rr_calls r) <= 5.
Proof.
  exists (mkRun (Ok 7) 3 [100; 200]). split; [vm_compute; reflexivity|].
  destruct (retryTransientVerification_spec flaky plain_options (Some (mkRun (Ok 7) 3 [100; 200])))
    as (r & [= <-] & H & _); [vm_compute; reflexivity|exact H].
Defined.

(** An error that is not transient is thrown at once. *)
Example retry_not_transient :
  retryTransientVerification (fun _ => Throw (EError "x") : res Z) plain_options
  = Ok (Some (mkRun (Throw (EError "x")) 1 [])).
Proof. vm_compute. reflexivity. Qed.
