(* ===== verification/AgentStatus.v ===== *)
(** The status document of an agent: [protocol/src/agent-status.ts].

    The document is a parsed JSON value; [newDate] is the platform's [Date] constructor. *)

From S2P Require Import Prelude JsString Json Jwk EventCodec Lifecycle.

Inductive RevocationReason := keyCompromise | policyViolation | superseded | cessationOfOperation.
#[export] Instance RevocationReason_eq_dec : EqDecision RevocationReason.
Proof. solve_decision. Defined.

Record AgentStatus := mkAgentStatus {
  as_state : AgentStatusState;
  as_lastTransitionAt : date;
  as_revocationReason : option RevocationReason
}.

Definition state_names : list (jsstr * AgentStatusState) :=
  [(js "PENDING", PENDING); (js "PROVISIONING", PROVISIONING); (js "VERIFYING", VERIFYING);
   (js "ACTIVE", ACTIVE); (js "RETIRED", RETIRED); (js "REVOKED", REVOKED)].
Definition reason_names : list (jsstr * RevocationReason) :=
  [(js "keyCompromise", keyCompromise); (js "policyViolation", policyViolation);
   (js "superseded", superseded); (js "cessationOfOperation", cessationOfOperation)].
Definition named {A} (names : list (jsstr * A)) (s : jsstr) : option A :=
  snd <$> List.find (fun kv => bool_decide (fst kv = s)) names.

(** [new Date('0001-01-01T00:00:00Z').getTime()] *)
Definition ZERO_TIMESTAMP_MS : Z := -62135596800000.

Definition activeStatusDocument (lastTransitionAt : date) : AgentStatus :=
  mkAgentStatus ACTIVE lastTransitionAt None.

(** [String(value)]: an array joins its elements, a missing one as the empty string; an
    object whose [toString] is shadowed by a JSON value cannot be converted. *)
Fixpoint to_js_string (v : json) : res jsstr :=
  match v with
  | JNull => Ok (js "null")
  | JUndefined => Ok (js "undefined")
  | JBool b => Ok (if b then js "true" else js "false")
  | JNumber n => Ok (number_toString n)
  | JString s => Ok s
  | JArray l =>
      let element e := match e with JNull | JUndefined => Ok [] | e => to_js_string e end in
      parts ← (fix go l := match l with
                           | [] => Ok []
                           | e :: l => p ← element e; ps ← go l; Ok (p :: ps)
                           end) l;
      Ok (join [44] parts)
  | JObject members =>
      if has_member members (js "toString") then Throw (EError "TypeError") else Ok (js "[object Object]")
  end.

Definition normalizeStatusState (value : json) : option AgentStatusState :=
  match value with JString s => named state_names s | _ => None end.

Definition normalizeRevocationReason (value : json) : res (option RevocationReason) :=
  match value with
  | JUndefined | JNull | JString [] => Ok None
  | _ => reason ← to_js_string value; Ok (named reason_names reason)
  end.

(** [d[name]] of an object or an array. *)
Definition status_member (data : json) (name : string) : res json :=
  match data with
  | JObject members => Ok (get members name)
  | JArray _ => Ok JUndefined
  | _ => Throw (EValidation "status response is not a JSON object")
  end.

Section Status.
Context (newDate : json -> date).

(** Printing a state that is not known may throw as well. *)
Definition validateAgentStatus (data : json) : res AgentStatus :=
  rawState ← status_member data "state";
  state ← match normalizeStatusState rawState with
          | Some state => Ok state
          | None => to_js_string rawState;; Throw (EValidation "unknown agent status state")
          end;
  rawLastTransitionAt ← status_member data "lastTransitionAt";
  throw_if (negb (truthy rawLastTransitionAt)) (EValidation "lastTransitionAt is required");;
  let lastTransitionAt := newDate rawLastTransitionAt in
  throw_if (match lastTransitionAt with None => true | Some t => t =? ZERO_TIMESTAMP_MS end)
    (EValidation "lastTransitionAt is not a valid date");;
  rawRevocationReason ← status_member data "revocationReason";
  revocationReason ← normalizeRevocationReason rawRevocationReason;
  throw_if (bool_decide (state = REVOKED) && match revocationReason with None => true | Some _ => false end)
    (EValidation "valid revocationReason is required when status is REVOKED");;
  Ok (mkAgentStatus state lastTransitionAt revocationReason).

(** What callers rely on. *)
Lemma validateAgentStatus_Ok data s : validateAgentStatus data = Ok s ->
  (exists t, as_lastTransitionAt s = Some t /\ t <> ZERO_TIMESTAMP_MS)
  /\ (as_state s = REVOKED -> is_Some (as_revocationReason s)).
Proof.
  unfold validateAgentStatus. intros H. apply bind_Ok in H as (raw & _ & H).
  apply bind_Ok in H as (state & _ & H). apply bind_Ok in H as (rawT & _ & H).
  apply bind_Ok in H as (? & _ & H). apply bind_Ok in H as (? & Ht%throw_if_Ok & H).
  apply bind_Ok in H as (? & _ & H). apply bind_Ok in H as (reason & _ & H).
  apply bind_Ok in H as (? & Hr%throw_if_Ok & [= <-]). cbn. split.
  - destruct (newDate rawT) as [t|]; [|done]. exists t. bool_inv. done.
  - intros ->. cbn in Hr. by destruct reason; [eexists|].
Qed.

End Status.

(** A reason wrapped in an array is read as the reason, a misspelled one as none. *)
Example reason_array :
  normalizeRevocationReason (JArray [JString (js "superseded")]) = Ok (Some superseded)
  /\ normalizeRevocationReason (JString (js "other")) = Ok None.
Proof. split; vm_compute; reflexivity. Qed.
