(* ===== verification/LogRegistry.v ===== *)
(** The registry of log methods: [protocol/src/log-registry.ts].

    A factory is any function from a log reference and an invocation to a reader. *)

From stdpp Require Import gmap.
From S2P Require Import Prelude JsString TxtRecord.

Section Registry.
Context {LogReader Invocation : Type}.

Definition LogReaderFactory : Type := jsstr -> Invocation -> res LogReader.

(** A reader of a method without a factory. *)
Inductive reader := Reader (r : LogReader) | NoopLogReader (method : jsstr).

Notation registry := (gmap jsstr LogReaderFactory).

Definition register (method : jsstr) (factory : LogReaderFactory) (factories : registry) : res registry :=
  throw_if (negb (is_lr_method method)) (EArgument "log method must match [a-z][a-z0-9-]*");;
  Ok (<[method := factory]> factories).

Definition snapshot (factories : registry) : res registry :=
  for_each (fun registry mf => register (fst mf) (snd mf) registry) (map_to_list factories) ∅.

Definition newReader (factories : registry) (lr : jsstr) (options : Invocation) : res reader :=
  let colonIdx := indexOf lr [58] in
  throw_if (colonIdx =? -1) (EParse "malformed log reference (no colon)");;
  let method := slice lr 0 colonIdx in
  throw_if ((length method =? 0)%nat || negb (is_lr_method method))
    (EParse "malformed log reference (invalid method)");;
  match factories !! method with
  | None => Ok (NoopLogReader method)
  | Some factory => Reader <$> factory lr options
  end.

(** Every operation of a reader without a factory throws. *)
Definition noop_raise {A} : res A :=
  Throw (newVerificationError "no LogReader registered for method" LogError None false).

(** ** Lemmas *)

(** What [register] builds. *)
Definition valid_registry (factories : registry) : Prop :=
  map_Forall (fun method _ => is_lr_method method = true) factories.

Lemma register_valid method factory factories factories' : valid_registry factories ->
  register method factory factories = Ok factories' -> valid_registry factories'.
Proof.
  unfold register. intros H (? & Hm%throw_if_Ok & [= <-])%bind_Ok. apply negb_false_iff in Hm.
  by apply map_Forall_insert_2.
Qed.

Lemma register_all (l : list (jsstr * LogReaderFactory)) m : Forall (fun mf => is_lr_method (fst mf) = true) l ->
  NoDup (map fst l) -> (forall mf, mf ∈ l -> m !! fst mf = None) ->
  for_each (fun registry mf => register (fst mf) (snd mf) registry) l m = Ok (list_to_map l ∪ m).
Proof.
  revert m; induction l as [|[k f] l IH]; intros m Hv Hnd Hm; cbn [for_each].
  { by rewrite list_to_map_nil, (left_id_L ∅ (∪)). }
  apply Forall_cons in Hv as [Hk Hv]. cbn [map fst] in Hnd. apply NoDup_cons in Hnd as [Hn Hnd].
  cbn [fst snd] in *. assert (Hr : register k f m = Ok (<[k := f]> m)) by (unfold register; by rewrite Hk).
  rewrite Hr. cbn [mbind res_bind]. rewrite IH; [|done|done|].
  - rewrite list_to_map_cons, <-insert_union_l. f_equal. symmetry. apply insert_union_r.
    apply not_elem_of_list_to_map_1. exact Hn.
  - intros [k' f'] Hi. cbn. rewrite lookup_insert_ne; [apply (Hm (k', f')); by right|].
    intros ->. apply Hn. by apply (list_elem_of_fmap_2 fst) in Hi.
Qed.

(** A snapshot holds the same factories; later registrations on either do not affect the
    other, as both are values. *)
Lemma snapshot_same factories : valid_registry factories -> snapshot factories = Ok factories.
Proof.
  intros Hv. unfold snapshot. rewrite register_all.
  - by rewrite list_to_map_to_list, (right_id_L ∅ (∪)).
  - apply Forall_forall. intros [k f] Hi. apply elem_of_map_to_list in Hi. by apply (Hv k f).
  - apply NoDup_fst_map_to_list.
  - intros mf _. apply lookup_empty.
Qed.

(** The reader of a reference comes from the factory of its method. *)
Lemma newReader_method factories lr options r : newReader factories lr options = Ok r ->
  exists method rest, lr = method ++ 58 :: rest /\ is_lr_method method = true
    /\ match factories !! method with
       | Some factory => exists reader, factory lr options = Ok reader /\ r = Reader reader
       | None => r = NoopLogReader method
       end.
Proof.
  unfold newReader. intros (? & Hi%throw_if_Ok & H)%bind_Ok. apply bind_Ok in H as (? & Hm%throw_if_Ok & H).
  apply Z.eqb_neq in Hi. unfold indexOf in *.
  destruct (indexOf_from_spec 0 lr 58) as [|(a & t & -> & _ & E)]; [done|]. cbn zeta in E.
  rewrite E, Z.add_0_l in *. destruct (slice_cut a 58 t) as [Es _]. rewrite Es in *.
  exists a, t. split; [done|]. bool_inv. split; [done|].
  destruct (factories !! a) as [factory|]; [|by injection H as <-].
  destruct (factory _ _) as [reader|]; [|done]. injection H as <-. eauto.
Qed.

End Registry.
