(* ===== verification/TrustProfile.v ===== *)
(** Trust profiles of one log: [log-c2sp-tlog/src/trust-profile.ts].

    A profile names a log, carries its policy document, and the keys of the producers
    whose stream bundles are accepted. *)

From S2P Require Import Prelude JsString Sha256 Merkle Url Json Jwk EventCodec Lr Checkpoint Policy.
From S2P Require Import StreamVerifier StreamBundle.

Definition PROFILE_MEMBERS : list jsstr :=
  map js ["bundle_verifier_keys"; "log_prefix"; "scope"; "tlog_policy"; "version"]%string.

Record C2spTlogTrustProfile := mkProfile {
  tp_scope : jsstr;
  tp_logPrefix : jsstr;
  tp_policyDocument : bytes;
  tp_bundleVerifierKeys : list SignedNoteKey
}.

Definition invalid_bundle_key : exn := perr "invalid C2SP tlog trust profile bundle verifier key".

Section TrustProfile.
Context `{H256 : Hash256} `{Url : URLApi}.

(** The first four bytes of the hash of name, newline, type and key. *)
Definition bundle_key_hash (name : jsstr) (type key : bytes) : bytes :=
  take 4 (sha256 [utf8_encode name; [x0a]; type; key]).

(** Keys are Ed25519 keys; the checks of their JavaScript types are left out. *)
Definition validateBundleKey (key : SignedNoteKey) (requiredName : option jsstr) : res unit :=
  throw_if ((length (key_name key) =? 0)%nat
            || match requiredName with Some n => negb (bool_decide (key_name key = n)) | None => false end
            || negb (length (keyBytes key) =? 32)%nat) invalid_bundle_key;;
  match keyId key, signatureType key with
  | Some id, Some type =>
      throw_if (negb (length id =? 4)%nat || negb (bool_decide (type = [x01]))) invalid_bundle_key;;
      throw_if (negb (bool_decide (bundle_key_hash (key_name key) type (keyBytes key) = id)))
        (perr "invalid C2SP tlog trust profile bundle verifier key hash")
  | _, _ => Throw invalid_bundle_key
  end.

(** The texts [name+hex(keyId)] of validated keys. *)
Definition key_ids (keys : list SignedNoteKey) : list (option jsstr) := map key_kid keys.

Definition validateC2spBundleVerifierKeys (keys checkpointKeys : list SignedNoteKey) (requiredName : option jsstr)
    : res unit :=
  for_each (fun _ key => validateBundleKey key requiredName) keys tt;;
  throw_if (negb (distinct (key_ids keys)) || negb (distinct (map keyBytes keys)))
    (perr "C2SP tlog bundle verifier keys must have distinct public keys and key IDs");;
  throw_if (existsb (fun key => bool_decide (keyBytes key ∈ map keyBytes checkpointKeys)) keys)
    (perr "C2SP tlog bundle signer must be independent of checkpoint policy keys").

Definition profile_reference (scope logPrefix : jsstr) : jsstr :=
  js "c2sp-tlog:" ++ scope ++ [58] ++ logPrefix ++ js "#trust-profile".

Definition validateC2spTlogTrustProfile (profile : C2spTlogTrustProfile) : res unit :=
  throw_if (length (tp_bundleVerifierKeys profile) =? 0)%nat (perr "invalid C2SP tlog trust profile");;
  reference ← parseC2spTlogLr (profile_reference (tp_scope profile) (tp_logPrefix profile));
  text ← of_option (utf8_decode (tp_policyDocument profile)) (EError "TypeError");
  policy ← parseC2spPolicyFile text;
  checkpointKeys ← normalizedOriginPolicy policy (lr_origin reference);
  validateC2spBundleVerifierKeys (tp_bundleVerifierKeys profile)
    (np_logKeys checkpointKeys ++ np_witnessKeys checkpointKeys) (Some (js "dnsid-stream-bundle")).

Definition key_string (v : json) : option jsstr :=
  match v with JString s => if (length s =? 0)%nat then None else Some s | _ => None end.

Definition parse_bundle_key (key : jsstr) : res SignedNoteKey :=
  throw_if (negb (bool_decide (key = trim key))) invalid_bundle_key;;
  parsed ← parseSignedNoteVerifierKey key;
  validateBundleKey parsed (Some (js "dnsid-stream-bundle"));;
  Ok parsed.

Definition profileObject (value : json) : res (list (jsstr * json)) :=
  match value with
  | JObject object =>
      throw_if (negb (bool_decide (sort_by str_ltb (map fst object) = PROFILE_MEMBERS)))
        (perr "C2SP tlog trust profile has unsupported or missing members");;
      Ok object
  | _ => Throw (perr "C2SP tlog trust profile must be an object")
  end.

Definition parseC2spTlogTrustProfile (bs : bytes) : res C2spTlogTrustProfile :=
  value ← parseJsonNoDuplicateMembers bs;
  object ← profileObject value;
  let invalid := perr "invalid C2SP tlog trust profile" in
  throw_if (negb (strict_eq (get object "version") (JNumber (NInt 1)))) invalid;;
  scope ← of_option (as_str (get object "scope")) invalid;
  logPrefix ← of_option (as_str (get object "log_prefix")) invalid;
  tlog_policy ← of_option (as_str (get object "tlog_policy")) invalid;
  values ← of_option (match get object "bundle_verifier_keys" with JArray l => Some l | _ => None end) invalid;
  reference ← parseC2spTlogLr (profile_reference scope logPrefix);
  let policyDocument := utf8_encode tlog_policy in
  throw_if (length values =? 0)%nat (perr "C2SP tlog trust profile requires bundle verifier keys");;
  keyStrings ← map_res (fun v => of_option (key_string v) (perr "C2SP tlog trust profile requires bundle verifier keys"))
                 values;
  throw_if (negb (distinct keyStrings)) (perr "C2SP tlog trust profile bundle verifier keys must be distinct");;
  bundleVerifierKeys ← map_res parse_bundle_key keyStrings;
  let profile := mkProfile (lr_scope reference) (lr_logPrefix reference) policyDocument bundleVerifierKeys in
  validateC2spTlogTrustProfile profile;;
  Ok profile.

(** ** Lemmas *)

Lemma validateBundleKey_Ok key requiredName : validateBundleKey key requiredName = Ok tt ->
  exists id, keyId key = Some id /\ signatureType key = Some [x01] /\ length (keyBytes key) = 32%nat
    /\ id = bundle_key_hash (key_name key) [x01] (keyBytes key).
Proof.
  unfold validateBundleKey. intros H. apply bind_Ok in H as (? & Hl%throw_if_Ok & H).
  destruct (keyId key) as [id|]; [|done]. destruct (signatureType key) as [type|]; [|done].
  res_inv. bool_inv. subst. eexists. split; [done|]. split; [done|]. split; [lia|done].
Qed.

Lemma validated_keys keys checkpointKeys requiredName :
  validateC2spBundleVerifierKeys keys checkpointKeys requiredName = Ok tt ->
  Forall (fun key => validateBundleKey key requiredName = Ok tt) keys
  /\ NoDup (map key_kid keys)
  /\ existsb (fun key => bool_decide (keyBytes key ∈ map keyBytes checkpointKeys)) keys = false.
Proof.
  unfold validateC2spBundleVerifierKeys. intros H. apply bind_Ok in H as ([] & Hk & H).
  apply bind_Ok in H as (? & Hd%throw_if_Ok & Hi%throw_if_Ok). unfold distinct, key_ids in Hd. bool_inv. split; [|split; [done|done]].
  clear -Hk. induction keys as [|key keys IH]; [constructor|]. cbn [for_each] in Hk.
  apply bind_Ok in Hk as ([] & Hv & Hk). by constructor; [|apply IH].
Qed.

Lemma existsb_Forall_false {A} (f : A -> bool) l : Forall (fun x => f x = false) l -> existsb f l = false.
Proof. induction 1 as [|x l Hx _ IH]; [done|]. cbn. by rewrite Hx, IH. Qed.

Lemma filter_unique {A B} `{EqDecision B} (g : A -> B) (b : B) l x : NoDup (map g l) -> x ∈ l -> g x = b ->
  List.filter (fun y => bool_decide (g y = b)) l = [x].
Proof.
  induction l as [|y l IH]; [by intros _ ?%not_elem_of_nil|]. cbn [map List.filter].
  intros [Hn Hnd]%NoDup_cons Hx Hb. apply elem_of_cons in Hx as [->|Hx].
  - rewrite bool_decide_eq_true_2 by done. f_equal. clear IH. induction l as [|z l IH]; [done|]. cbn in *.
    apply not_elem_of_cons in Hn as [Hz Hn]. apply NoDup_cons in Hnd as [_ Hnd].
    rewrite bool_decide_eq_false_2 by congruence. by apply IH.
  - rewrite bool_decide_eq_false_2; [by apply IH|]. intros E. apply Hn. rewrite E, <-Hb. by apply list_elem_of_fmap_2.
Qed.

Context `{Ed : Ed25519}.

(** Keys that the trust profile accepts make the signature check of a bundle depend on
    the signature alone: with such keys a bundle whose key ID is trusted is accepted
    exactly when its signature verifies under the key of that ID, and one whose key ID
    is unknown is refused as untrusted. *)
Lemma verifyBundleSignature_trusted bundle keys checkpointKeys requiredName :
  validateC2spBundleVerifierKeys keys checkpointKeys requiredName = Ok tt ->
  (forall key, key ∈ keys -> key_kid key = Some (bg_kid (sb_signature bundle)) ->
     verifyBundleSignature bundle keys checkpointKeys =
     throw_if (negb (ed25519_verify (keyBytes key) (sb_signedBytes bundle) (bg_value (sb_signature bundle))))
       (verr "invalid stream bundle signature"))
  /\ (Forall (fun key => key_kid key <> Some (bg_kid (sb_signature bundle))) keys ->
     verifyBundleSignature bundle keys checkpointKeys =
     Throw (verr "stream bundle signature key is not uniquely trusted")).
Proof.
  intros (Hk & Hd & Hi)%validated_keys. unfold verifyBundleSignature.
  assert (Hw : existsb wrong_bundle_key keys = false).
  { apply existsb_Forall_false. eapply Forall_impl; [exact Hk|]. intros key Hv.
    destruct (validateBundleKey_Ok _ _ Hv) as (id & _ & Ht & Hl & _). unfold wrong_bundle_key. by rewrite Ht, Hl. }
  rewrite Hw, Hi. cbn [throw_if mbind res_bind]. split.
  - intros key Hin Hid. rewrite (filter_unique key_kid _ keys key) by done.
    rewrite Forall_forall in Hk. destruct (validateBundleKey_Ok _ _ (Hk key Hin)) as (id & _ & _ & Hl & _).
    by rewrite Hl.
  - intros Hn. assert (E : List.filter (fun key => bool_decide (key_kid key = Some (bg_kid (sb_signature bundle)))) keys = []).
    { clear -Hn. induction Hn as [|key keys Hne _ IH]; [done|]. cbn. by rewrite bool_decide_eq_false_2. }
    by rewrite E.
Qed.

End TrustProfile.

(** A profile whose only fault is a member too many, and an accepted producer key. *)
Section Example.
#[local] Existing Instances Sha256_instance SimpleUrl ToyEd25519.

Definition profile_key : SignedNoteKey :=
  mkSignedNoteKey (js "dnsid-stream-bundle") (repeat x09 32)
    (Some (bundle_key_hash (js "dnsid-stream-bundle") [x01] (repeat x09 32))) (Some [x01]).

Example profile_key_accepted :
  validateC2spTlogTrustProfile (mkProfile (js "public") (js "https://log.example/a")
    (utf8_encode (small_policy "log.example/a")) [profile_key]) = Ok tt
  /\ validateC2spBundleVerifierKeys [profile_key; profile_key] [] None
     = Throw (perr "C2SP tlog bundle verifier keys must have distinct public keys and key IDs").
Proof. split; vm_compute; reflexivity. Qed.

Example profile_unknown_member :
  parseC2spTlogTrustProfile (utf8_encode (js "{" ++ [34] ++ js "x" ++ [34] ++ js ":1}"))
  = Throw (perr "C2SP tlog trust profile has unsupported or missing members").
Proof. vm_compute. reflexivity. Qed.
End Example.
