(* ===== verification/FanOut.v ===== *)
(** Concurrent work under a cancellation signal: the pattern of
    [verifyDomainUncached] of [protocol/src/identity-manager.ts].

    An asynchronous function is the tree of its awaits of [waitForVerification].  Two of
    them run side by side under one signal, and a schedule is an explicit list of events,
    so that the theorems cover every interleaving. *)

From S2P Require Import Prelude Budget.

(** ** Asynchronous functions

    [Wait op k] awaits an operation whose own outcome is [op], and goes on with what
    [waitForVerification] makes of it. *)

Inductive task (A : Type) : Type :=
  | Done (r : res A)
  | Wait {B : Type} (op : res B) (k : res B -> task A).
Arguments Done {A} r.
Arguments Wait {A B} op k.

Fixpoint task_bind_ {A B} (f : A -> task B) (t : task A) : task B :=
  match t with
  | Done (Ok a) => f a
  | Done (Throw e) => Done (Throw e)
  | Wait op k => Wait op (fun r => task_bind_ f (k r))
  end.
#[export] Instance task_ret : MRet task := fun A a => Done (Ok a).
#[export] Instance task_bind : MBind task := @task_bind_.

(** [try { t } catch (e) { h e }] *)
Fixpoint task_catch {A} (t : task A) (h : exn -> task A) : task A :=
  match t with
  | Done (Ok a) => Done (Ok a)
  | Done (Throw e) => h e
  | Wait op k => Wait op (fun r => task_catch (k r) h)
  end.

(** Code without an await, and [await waitForVerification(() => op, signal)]. *)
Definition sync {A} (r : res A) : task A := Done r.
Definition wait {A} (op : res A) : task A := Wait op Done.

(** The outcome when the signal never fires. *)
Fixpoint run_alone {A} (t : task A) : res A :=
  match t with Done r => r | Wait op k => run_alone (k op) end.

(** The number of awaits on the way there. *)
Fixpoint waits {A} (t : task A) : nat :=
  match t with Done _ => 0 | Wait op k => S (waits (k op)) end.

(** A cancelled await ends the function with the cancellation. *)
Fixpoint cancellable {A} (t : task A) : Prop :=
  match t with
  | Done _ => True
  | Wait op k => k (Throw cancellationError) = Done (Throw cancellationError) /\ cancellable (k op)
  end.

(** ** Two branches and their shared signal *)

Record fan (A B : Type) := mkFan {
  fan_left : task A; fan_right : task B; fan_aborted : bool; fan_parent_aborted : bool
}.
Arguments mkFan {A B}. Arguments fan_left {A B}. Arguments fan_right {A B}.
Arguments fan_aborted {A B}. Arguments fan_parent_aborted {A B}.

(** The awaits that settle, those that the fired signal rejects, and the caller's signal. *)
Inductive fan_event := LeftSettles | RightSettles | LeftCancelled | RightCancelled | ParentAborts.

(** An await settles with its operation; once the signal has fired only a failure comes
    through. *)
Definition settle {A} (aborted : bool) (t : task A) : task A :=
  match t with
  | Done r => Done r
  | Wait op k => k (waitForVerification (if aborted then AbortedAfter else Live) op)
  end.
Definition cancel {A} (aborted : bool) (t : task A) : task A :=
  match t with
  | Wait op k => if aborted then k (waitForVerification AbortedDuring op) else t
  | Done r => Done r
  end.

Definition has_code (code : VerificationCode) (e : exn) : bool :=
  match e with EVerification v => bool_decide (ve_code v = code) | _ => false end.

(** A branch that fails aborts the signal of both; the left one not with an HTTP error. *)
Definition left_aborts {A} (t : task A) : bool :=
  match t with Done (Throw e) => negb (has_code HTTPError e) | _ => false end.
Definition right_aborts {B} (t : task B) : bool :=
  match t with Done (Throw _) => true | _ => false end.
Definition propagate {A B} (s : fan A B) : fan A B :=
  mkFan (fan_left s) (fan_right s)
    (fan_aborted s || left_aborts (fan_left s) || right_aborts (fan_right s)) (fan_parent_aborted s).

(** The listener on the caller's signal is not called when that signal has fired before. *)
Definition fan_start {A B} (parent : bool) (l : task A) (r : task B) : fan A B :=
  propagate (mkFan l r false parent).

Definition fan_step {A B} (s : fan A B) (ev : fan_event) : fan A B :=
  let '(mkFan l r a p) := s in
  propagate match ev with
            | LeftSettles => mkFan (settle a l) r a p
            | RightSettles => mkFan l (settle a r) a p
            | LeftCancelled => mkFan (cancel a l) r a p
            | RightCancelled => mkFan l (cancel a r) a p
            | ParentAborts => if p then s else mkFan l r true true
            end.
Definition fan_run {A B} (s : fan A B) (evs : list fan_event) : fan A B := foldl fan_step s evs.

(** What follows [Promise.allSettled]. *)
Definition join_settled {A B} (parent : bool) (l : res A) (r : res B) : res (A * B) :=
  if parent then Throw cancellationError
  else
    match l, r with
    | Ok a, Ok b => Ok (a, b)
    | Throw e, Ok _ => Throw e
    | Ok _, Throw e => Throw e
    | Throw e1, Throw e2 =>
        if has_code HTTPError e1 && has_code StatusNotActive e2 then Throw e2
        else if negb (isCancellation e1) then Throw e1
        else if negb (isCancellation e2) then Throw e2
        else Throw e1
    end.
Definition fan_result {A B} (s : fan A B) : option (res (A * B)) :=
  match fan_left s, fan_right s with
  | Done l, Done r => Some (join_settled (fan_parent_aborted s) l r)
  | _, _ => None
  end.

(** ** Lemmas: functions *)

Lemma run_alone_bind {A B} (t : task A) (f : A -> task B) :
  run_alone (t ≫= f) = (a ← run_alone t; run_alone (f a)).
Proof. induction t as [[a|e]|C op k IH]; [done|done|]. cbn. apply IH. Qed.

Lemma run_alone_catch {A} (t : task A) h :
  run_alone (task_catch t h) = match run_alone t with Ok a => Ok a | Throw e => run_alone (h e) end.
Proof. induction t as [[a|e]|C op k IH]; [done|done|]. cbn. apply IH. Qed.

Lemma run_alone_bind_Ok {A B} (t : task A) (f : A -> task B) b :
  run_alone (t ≫= f) = Ok b <-> exists a, run_alone t = Ok a /\ run_alone (f a) = Ok b.
Proof. rewrite run_alone_bind. apply bind_Ok. Qed.

Lemma run_alone_catch_Ok {A} (t : task A) h a : run_alone (task_catch t h) = Ok a <->
  run_alone t = Ok a \/ exists e, run_alone t = Throw e /\ run_alone (h e) = Ok a.
Proof. rewrite run_alone_catch. destruct (run_alone t); naive_solver. Qed.

Lemma cancellable_bind {A B} (t : task A) (f : A -> task B) :
  cancellable t -> (forall a, cancellable (f a)) -> cancellable (t ≫= f).
Proof.
  intros Ht Hf. induction t as [[a|e]|C op k IH]; [apply Hf|done|].
  destruct Ht as [Hk Ht]. cbn. rewrite Hk. split; [done|by apply IH].
Qed.

Lemma cancellable_catch {A} (t : task A) h : cancellable t ->
  h cancellationError = Done (Throw cancellationError) -> (forall e, cancellable (h e)) ->
  cancellable (task_catch t h).
Proof.
  intros Ht Hc Hh. induction t as [[a|e]|C op k IH]; [done|apply Hh|].
  destruct Ht as [Hk Ht]. cbn. rewrite Hk. split; [done|by apply IH].
Qed.

Lemma cancellable_sync {A} (r : res A) : cancellable (sync r).
Proof. done. Qed.
Lemma cancellable_wait {A} (op : res A) : cancellable (wait op).
Proof. done. Qed.
#[export] Hint Resolve cancellable_sync cancellable_wait cancellable_bind cancellable_catch : dnsid.

(** A weaker form: a cancelled await ends the function with some error. *)
Fixpoint stoppable {A} (t : task A) : Prop :=
  match t with
  | Done _ => True
  | Wait op k => (exists e, k (Throw cancellationError) = Done (Throw e)) /\ stoppable (k op)
  end.

Lemma cancellable_stoppable {A} (t : task A) : cancellable t -> stoppable t.
Proof. induction t as [|C op k IH]; [done|]. intros [Hk Ht]. split; [by eexists|by apply IH]. Qed.

Lemma stoppable_bind {A B} (t : task A) (f : A -> task B) :
  stoppable t -> (forall a, stoppable (f a)) -> stoppable (t ≫= f).
Proof.
  intros Ht Hf. induction t as [[a|e]|C op k IH]; [apply Hf|done|].
  destruct Ht as [[e Hk] Ht]. split; [exists e; cbn; by rewrite Hk|by apply IH].
Qed.

(** ** Lemmas: branches

    A branch is on the way to its own outcome, or it was cancelled. *)

Definition on_path {A} (t0 t : task A) : Prop := cancellable t /\ run_alone t = run_alone t0.
Definition branch_inv {A} (t0 : task A) (aborted : bool) (t : task A) : Prop :=
  on_path t0 t \/ (aborted = true /\ t = Done (Throw cancellationError)).

Lemma settle_inv {A} (t0 t : task A) a : branch_inv t0 a t -> branch_inv t0 a (settle a t).
Proof.
  intros [[Hc Hr]|[-> ->]]; [|right; done].
  destruct t as [r|C op k]; [left; done|]. destruct Hc as [Hk Hc].
  destruct a; cbn; [destruct op as [b|e]; cbn|]; [right|left|left]; done.
Qed.

Lemma cancel_inv {A} (t0 t : task A) a : branch_inv t0 a t -> branch_inv t0 a (cancel a t).
Proof.
  intros [[Hc Hr]|[-> ->]]; [|right; done].
  destruct t as [r|C op k]; [left; done|]. destruct a; [|left; done].
  right. split; [done|]. apply Hc.
Qed.

Lemma branch_inv_mono {A} (t0 t : task A) a b : (a = true -> b = true) -> branch_inv t0 a t -> branch_inv t0 b t.
Proof. intros H [?|[? ?]]; [by left|right; auto]. Qed.

(** Someone's own failure is behind a fired signal. *)
Definition fan_inv {A B} (l0 : task A) (r0 : task B) (s : fan A B) : Prop :=
  branch_inv l0 (fan_aborted s) (fan_left s) /\ branch_inv r0 (fan_aborted s) (fan_right s)
  /\ (fan_aborted s = true ->
        (exists e, fan_left s = Done (Throw e) /\ run_alone l0 = Throw e /\ has_code HTTPError e = false)
        \/ (exists e, fan_right s = Done (Throw e) /\ run_alone r0 = Throw e))
  /\ fan_parent_aborted s = false.

(** A step on one branch, before the signal is propagated. *)
Lemma propagate_inv {A B} (l0 : task A) (r0 : task B) l r a :
  branch_inv l0 a l -> branch_inv r0 a r ->
  (a = true -> (exists e, l = Done (Throw e) /\ run_alone l0 = Throw e /\ has_code HTTPError e = false)
               \/ (exists e, r = Done (Throw e) /\ run_alone r0 = Throw e)) ->
  fan_inv l0 r0 (propagate (mkFan l r a false)).
Proof.
  intros Hl Hr Ha. unfold propagate, fan_inv; cbn. split; [|split; [|split; [|done]]].
  - eapply branch_inv_mono; [|exact Hl]. by intros ->.
  - eapply branch_inv_mono; [|exact Hr]. by intros ->.
  - intros H. destruct a; [by apply Ha|]. cbn in H. apply orb_true_iff in H as [H|H].
    + left. destruct l as [[?|e]|]; try done. cbn in H. exists e. split; [done|].
      destruct Hl as [[_ <-]|[? _]]; [|done]. split; [done|]. by apply negb_true_iff in H.
    + right. destruct r as [[?|e]|]; try done. exists e. split; [done|].
      destruct Hr as [[_ <-]|[? _]]; done.
Qed.

Lemma settle_Done {A} a (r : res A) : settle a (Done r) = Done r.
Proof. done. Qed.
Lemma cancel_Done {A} a (r : res A) : cancel a (Done r) = Done r.
Proof. done. Qed.

Lemma fan_step_inv {A B} (l0 : task A) (r0 : task B) s ev : ev <> ParentAborts ->
  fan_inv l0 r0 s -> fan_inv l0 r0 (fan_step s ev).
Proof.
  destruct s as [l r a p]. intros Hev (Hl & Hr & Ha & Hp). cbn in *. subst p.
  destruct ev; [| | | |done]; apply propagate_inv;
    auto using settle_inv, cancel_inv; intros E; destruct (Ha E) as [(e & -> & ?)|(e & -> & ?)];
    rewrite ?settle_Done, ?cancel_Done; eauto.
Qed.

Lemma fan_run_inv {A B} (l0 : task A) (r0 : task B) evs : cancellable l0 -> cancellable r0 ->
  ParentAborts ∉ evs -> fan_inv l0 r0 (fan_run (fan_start false l0 r0) evs).
Proof.
  intros Hl Hr Hev. assert (H0 : fan_inv l0 r0 (fan_start false l0 r0)).
  { apply propagate_inv; [left; done|left; done|done]. }
  revert H0. generalize (fan_start false l0 r0). induction evs as [|ev evs IH]; intros s Hs; [done|].
  apply not_elem_of_cons in Hev as [? ?]. cbn. apply IH; [done|]. apply fan_step_inv; [congruence|done].
Qed.

(** ** The outcome of two branches does not depend on the schedule

    When both fail, one of the two errors is reported. *)
Definition outcome_of {A B} (l : res A) (r : res B) (out : res (A * B)) : Prop :=
  match l, r with
  | Ok a, Ok b => out = Ok (a, b)
  | Throw e, Ok _ | Ok _, Throw e => out = Throw e
  | Throw e1, Throw e2 =>
      if has_code HTTPError e1 && has_code StatusNotActive e2 then out = Throw e2
      else out = Throw e1 \/ out = Throw e2
  end.

Lemma cancellation_codes : has_code HTTPError cancellationError = false
  /\ has_code StatusNotActive cancellationError = false /\ isCancellation cancellationError = true.
Proof. split; [|split]; vm_compute; reflexivity. Qed.

Lemma join_on_path {A B} (l : res A) (r : res B) : outcome_of l r (join_settled false l r).
Proof. destruct l as [a|e1], r as [b|e2]; try done. cbn. repeat case_match; auto. Qed.

Lemma fan_outcome {A B} (l0 : task A) (r0 : task B) evs out :
  cancellable l0 -> cancellable r0 -> ParentAborts ∉ evs ->
  fan_result (fan_run (fan_start false l0 r0) evs) = Some out ->
  outcome_of (run_alone l0) (run_alone r0) out.
Proof.
  intros Hcl Hcr Hev. pose proof (fan_run_inv l0 r0 evs Hcl Hcr Hev) as (Hl & Hr & Ha & Hp).
  unfold fan_result. destruct (fan_run _ _) as [l r a p].
  cbn [fan_left fan_right fan_aborted fan_parent_aborted] in *. subst p.
  destruct l as [l|]; [|done]. destruct r as [r|]; [|done]. intros <-%(inj Some).
  destruct Hl as [[_ Hl]|[-> [= ->]]]; [cbn in Hl; subst l; destruct Hr as [[_ Hr]|[-> [= ->]]]|].
  - cbn in Hr. subst r. apply join_on_path.
  - destruct (Ha eq_refl) as [(e & [= ->] & _ & Hh)|(e & [= <-] & E)]; [|rewrite <-E; apply join_on_path].
    destruct cancellation_codes as (_ & _ & C3). unfold join_settled, outcome_of. rewrite Hh, C3. cbn [andb negb].
    destruct (isCancellation e), (run_alone r0); cbn; auto.
  - destruct cancellation_codes as (C1 & C2 & C3).
    destruct (Ha eq_refl) as [(e & [= <-] & E & Hh)|(e & [= ->] & E)].
    + rewrite <-E. destruct Hr as [[_ <-]|[_ [= ->]]]; [apply join_on_path|].
      rewrite E. unfold outcome_of, join_settled. rewrite C1, C3. cbn [andb negb].
      destruct (run_alone r0); auto.
    + rewrite E. unfold outcome_of, join_settled. rewrite C1, C3. cbn [andb negb].
      destruct (isCancellation e) eqn:He; cbn [negb].
      * unfold isCancellation in He. apply bool_decide_eq_true in He as ->.
        destruct (run_alone l0); [done|]. rewrite C2, andb_false_r. auto.
      * destruct (run_alone l0); [done|]. repeat case_match; auto.
Qed.

(** An aborted caller gets a cancellation, whatever the branches give. *)
Lemma fan_step_parent {A B} (s : fan A B) ev : fan_parent_aborted s = true -> fan_parent_aborted (fan_step s ev) = true.
Proof. destruct s, ev; cbn; by intros ->. Qed.
Lemma fan_run_parent {A B} (s : fan A B) evs : fan_parent_aborted s = true -> fan_parent_aborted (fan_run s evs) = true.
Proof. revert s; induction evs as [|ev evs IH]; intros s H; [done|]. by apply IH, fan_step_parent. Qed.

(** A result is the pair of both branches' own results, whatever the schedule. *)
Lemma fan_Ok {A B} parent (l0 : task A) (r0 : task B) evs x :
  cancellable l0 -> cancellable r0 ->
  fan_result (fan_run (fan_start parent l0 r0) evs) = Some (Ok x) ->
  run_alone l0 = Ok (fst x) /\ run_alone r0 = Ok (snd x).
Proof.
  intros Hl Hr. assert (H : forall s, branch_inv l0 (fan_aborted s) (fan_left s) ->
    branch_inv r0 (fan_aborted s) (fan_right s) ->
    fan_result (fan_run s evs) = Some (Ok x) -> run_alone l0 = Ok (fst x) /\ run_alone r0 = Ok (snd x)).
  { induction evs as [|ev evs IH]; intros [l r a p] Il Ir.
    - unfold fan_result. cbn. destruct l as [l|]; [|done]. destruct r as [r|]; [|done]. cbn in *.
      unfold join_settled. destruct p; [done|]. destruct l as [l|e1], r as [r|e2]; try done.
      2: by repeat case_match.
      intros [= <-]. destruct Il as [[_ <-]|[_ ?]], Ir as [[_ <-]|[_ ?]]; done.
    - cbn [fan_run foldl]. cbn [fan_left fan_right fan_aborted] in Il, Ir. apply IH; (destruct ev; [| | | |destruct p]);
        cbn [fan_step propagate fan_left fan_right fan_aborted];
        (eapply branch_inv_mono; [|by eauto using settle_inv, cancel_inv]); by intros ->. }
  apply H; cbn; left; done.
Qed.

(** ** Termination: settling both branches gives a result within the number of awaits *)

Lemma settle_waits {A} (t : task A) a : cancellable t -> cancellable (settle a t) /\ (waits (settle a t) <= pred (waits t))%nat.
Proof.
  destruct t as [r|C op k]; [done|]. intros [Hk Hc]. cbn. destruct a; [|done]. cbn.
  destruct op; cbn; [|done]. rewrite Hk. cbn. split; [done|lia].
Qed.

Lemma fan_run_settles {A B} (s : fan A B) n m : cancellable (fan_left s) -> cancellable (fan_right s) ->
  (waits (fan_left s) <= n)%nat -> (waits (fan_right s) <= m)%nat ->
  is_Some (fan_result (fan_run s (replicate n LeftSettles ++ replicate m RightSettles))).
Proof.
  unfold fan_run. rewrite foldl_app. revert s. induction n as [|n IH]; intros [l r a p] Hl Hr Wl Wr;
    cbn [fan_left fan_right] in *.
  - destruct l as [l|]; [|cbn in Wl; lia]. clear Wl. cbn [replicate foldl].
    revert r a p Hr Wr. induction m as [|m IHm]; intros r a p Hr Wr; cbn [replicate foldl].
    + destruct r as [r|]; [|cbn in Wr; lia]. by eexists.
    + destruct (settle_waits r a Hr) as [? ?]. apply (IHm (settle a r)); [done|lia].
  - destruct (settle_waits l a Hl) as [? ?]. cbn [replicate foldl]. apply IH;
      cbn [fan_step propagate fan_left fan_right]; [done|done|lia|done].
Qed.
