(* ===== verification/Verification.v ===== *)
(** Verification of an identity from its evidence: [verifyDomainUncached] and the
    functions it calls, of [protocol/src/identity-manager.ts].

    The resolver, the JSON fetcher and the log readers are the caller's; a call of one of
    them is an await.  Clock readings are parameters: each is some moment of the run. *)

From S2P Require Import Prelude JsString Base64 Url Utils TxtRecord Json Jwk EventCodec Lifecycle StreamVerifier.
From S2P Require Import Budget AgentStatus LogRegistry FanOut.

(** ** Data *)

Record TLSCertificate := mkTLSCertificate { notAfter : date; san : list jsstr }.
Record FetchResult := mkFetchResult { fr_data : json; fr_tlsCert : TLSCertificate }.
Record JsonFetchOptions := mkJsonFetchOptions {
  fo_allowedHost : option jsstr; fo_domainBoundary : bool; fo_maxResponseBytes : Z; fo_revalidate : bool
}.
Definition JWKS_MAX_RESPONSE_BYTES : Z := 256 * 1024.
Definition STATUS_MAX_RESPONSE_BYTES : Z := 16 * 1024.

(** A time to live that is no finite number is [None]; others are whole seconds. *)
Record TXTRecord := mkTXTRecord { strings : json; ttl : option Z }.

Inductive DNSSECState := UNSIGNED | VALID | FAILED | UNKNOWN.
#[export] Instance DNSSECState_eq_dec : EqDecision DNSSECState.
Proof. solve_decision. Defined.
Inductive DNSSECMode := auto_mode | validated | required.
Definition dnssec_names : list (jsstr * DNSSECState) :=
  [(js "UNSIGNED", UNSIGNED); (js "VALID", VALID); (js "FAILED", FAILED); (js "UNKNOWN", UNKNOWN)].

Record TrustedEntity := mkTrustedEntity {
  te_governanceId : jsstr; te_entityKeyThumbprints : option (list jsstr)
}.
Record VerificationConfig := mkVerificationConfig {
  statusCheckInterval : option Z; dnssecMode : option DNSSECMode; trustedEntities : option (list TrustedEntity)
}.

(** The reader of a log, bound to one reference ([protocol/src/log.ts]). *)
Record BilateralBinding := mkBinding {
  initialOperationalThumbprint : jsstr; initialEntityThumbprint : jsstr; bindingTimestamp : date
}.
Record LogReader := mkLogReader {
  lr_keyTimestamp : jsstr -> jsstr -> res date;
  lr_verifyBilateralBinding : DnsIdTxtRecord -> jwk -> jwk -> res BilateralBinding;
  lr_verifyOperationalContinuity : jsstr -> jsstr -> jsstr -> res unit;
  lr_rebuildHistory : jsstr -> res (list LogEvent)
}.
Record Invocation := mkInvocation { inv_revalidate : bool }.
Notation log_reader := (@reader LogReader).

Definition ask {A} (r : log_reader) (f : LogReader -> res A) : res A :=
  match r with Reader r => f r | NoopLogReader _ => noop_raise end.

(** The result of a verification. *)
Record VerifiedIdentity := mkVerifiedIdentity {
  vi_domain : jsstr;
  vi_record : DnsIdTxtRecord;
  vi_jwks : JWKS;
  vi_recordSigningJwks : JWKS;
  vi_signingKey : jwk;
  vi_signingKeyThumbprint : jsstr;
  vi_tlsCert : TLSCertificate;
  vi_recordSigningTlsCert : TLSCertificate;
  vi_registryStatus : AgentStatus;
  vi_verifiedAt : Z;
  vi_dnsTTL : Z;
  vi_dnsExpiresAt : date;
  vi_keyBoundAt : date;
  vi_lastStatusCheckAt : Z;
  vi_dnssecState : DNSSECState;
  vi_logReader : log_reader
}.

(** What the methods of the class read ([Lifecycle]). *)
Definition as_VerifiedDomain (d : VerifiedIdentity) : VerifiedDomain :=
  newVerifiedDomain (ka (vi_record d)) (policyFlags (vi_record d)) (notAfter (vi_tlsCert d))
    (Some (notAfter (vi_recordSigningTlsCert d))) (as_state (vi_registryStatus d)) (Some (vi_verifiedAt d))
    (vi_dnsTTL d) (Some (vi_dnsExpiresAt d)) (vi_keyBoundAt d).

(** ** Steps without an await *)

Definition sgError (message : string) : exn := newVerificationError message SignatureInvalid None false.
Definition record_invalid (message : string) : exn := newVerificationError message RecordInvalid None false.

Definition parse_dnssec_state (s : jsstr) : res DNSSECState :=
  of_option (named dnssec_names s) (newVerificationError "invalid DNSSEC state" DNSSECFailed None false).

Definition enforce_dnssec (mode : DNSSECMode) (state : DNSSECState) : res unit :=
  throw_if (bool_decide (state = FAILED)) (newVerificationError "DNSSEC validation failed" DNSSECFailed None false);;
  match mode with
  | auto_mode => Ok tt
  | validated => throw_if (bool_decide (state = UNKNOWN))
                   (newVerificationError "DNSSEC validation state is unknown" DNSSECFailed None false)
  | required => throw_if (negb (bool_decide (state = VALID)))
                  (newVerificationError "DNSSEC required" DNSSECFailed None false)
  end.

(** [new Date(ms)] *)
Definition new_date (ms : Z) : date := if (- MAX_TIME <=? ms) && (ms <=? MAX_TIME) then Some ms else None.

(** The one TXT record: its text, time to live and expiry. *)
Definition txt_strings (v : json) : option (list jsstr) :=
  match v with JArray l => mapM as_str l | _ => None end.
Definition single_record (dnsAcquiredAt : Z) (records : list TXTRecord) : res (jsstr * Z * Z) :=
  match records with
  | [] => Throw (newVerificationError "no _dnsid TXT record found" RecordNotFound None false)
  | [r] =>
      strs ← of_option (txt_strings (strings r)) (record_invalid "TXT response exceeds bounds");
      throw_if ((1024 <? zlen strs) || (65535 <? foldl Z.add 0 (map zlen strs)))
        (record_invalid "TXT response exceeds bounds");;
      t ← of_option (ttl r) (newVerificationError "invalid DNS TTL" DNSResolution None false);
      throw_if (t <? 0) (newVerificationError "invalid DNS TTL" DNSResolution None false);;
      expires ← of_option (new_date (dnsAcquiredAt + t * 1000))
                  (newVerificationError "invalid DNS expiry" DNSResolution None false);
      Ok (concat strs, t, expires)
  | _ => Throw (record_invalid "expected exactly one _dnsid TXT record")
  end.

(** [jwksData.keys] as a key set; reading a property of [null] throws later, in the first
    validation, and a value without properties is a key without members. *)
Definition jwks_of_data (data : json) (missing : exn) : res JWKS :=
  match data with
  | JObject members =>
      match get members "keys" with
      | JArray l => ks ← map_res (fun v => match v with
                                          | JObject key => Ok key
                                          | JNull | JUndefined => Throw (EError "TypeError")
                                          | _ => Ok []
                                          end) l;
                    Ok (mkJWKS ks)
      | _ => Throw missing
      end
  | _ => Throw missing
  end.

(** The [catch] clauses around a key set. *)
Definition key_set_error (invalid failed : string) (e : exn) : exn :=
  match e with
  | EVerification _ => e
  | EValidation _ => record_invalid invalid
  | _ => newVerificationError failed TLSError None true
  end.

(** [catch] clauses that rethrow a [VerificationError]. *)
Definition status_error (message : string) (e : exn) : exn :=
  match e with EVerification _ => e | _ => newVerificationError message StatusUnavailable None true end.

Definition require_active (status : AgentStatus) : res unit :=
  throw_if (negb (bool_decide (as_state status = ACTIVE)))
    (newVerificationError "agent is not ACTIVE" StatusNotActive None false).

(** The static allowlist and key pins. *)
Definition enforceCounterpartyAcceptance (config : VerificationConfig) (d : VerifiedIdentity) : res unit :=
  match trustedEntities config with
  | None => Ok tt
  | Some policy =>
      match List.find (fun e => bool_decide (te_governanceId e = governanceId (vi_record d))) policy with
      | Some entry =>
          match te_entityKeyThumbprints entry with
          | None => Ok tt
          | Some pins => throw_if (negb (bool_decide (vi_signingKeyThumbprint d ∈ pins)))
                           (newVerificationError "counterparty not accepted" CounterpartyNotAccepted None false)
          end
      | None => Throw (newVerificationError "counterparty not accepted" CounterpartyNotAccepted None false)
      end
  end.

Section Verify.
Context `{Url : URLApi} `{Uni : Unicode} `{Jwk : JwkApi} (newDate : json -> date).

Definition verifyMtlsPeer (record : DnsIdTxtRecord) (domain : jsstr) (peerCert : option TLSCertificate) : res unit :=
  if negb (bool_decide (js "mtls" ∈ policyFlags record)) then Ok tt
  else
    match peerCert with
    | None => Throw (newVerificationError "fl=mtls: peer certificate is required" TLSError None false)
    | Some cert =>
        throw_if (negb (matchesDnsName (san cert) domain))
          (newVerificationError "fl=mtls: peer certificate SAN does not match agent FQDN" TLSError None false)
    end.

(** [fromBase64Url] decodes leniently; the comparison makes it strict. *)
Definition verifyDraft01RecordSignature (sg : jsstr) (canonicalBytes : bytes) (ekJwks : JWKS) : res jwk :=
  key ← currentRecordSigningKey ekJwks;
  sigBytes ← catch (fromBase64Url sg) (fun _ => Throw (sgError "sg is not valid unpadded base64url"));
  throw_if (includes sg [61] || negb (bool_decide (toBase64Url sigBytes = sg)))
    (sgError "sg is not valid unpadded base64url");;
  alg ← jwkSignatureAlg key;
  throw_if (negb (verifyWithKey canonicalBytes sigBytes key (Some alg)))
    (sgError "_dnsid record signature invalid");;
  Ok key.

Definition parseAgentStatus (data : json) : res AgentStatus :=
  catch (validateAgentStatus newDate data)
    (fun e => match e with EValidation m => Throw (record_invalid m) | _ => Throw e end).

Definition parse_record (domain raw : jsstr) : res DnsIdTxtRecord :=
  record ← catch (TxtRecord.parse raw) (fun _ => Throw (record_invalid "TXT record parse failed"));
  let record := set_agentFQDN record domain in
  catch (TxtRecord.validate record) (fun _ => Throw (record_invalid "TXT record validation failed"));;
  Ok record.

Definition thumbprintOf (key : jwk) : res jsstr :=
  catch (jwkThumbprint key) (fun _ => Throw (record_invalid "invalid key in JWK Set")).

(** No key of the entity set may share a thumbprint with a key of the operational set. *)
Definition check_distinct (entityKeys operationalKeys : list jwk) : res unit :=
  ekThumbprints ← map_res thumbprintOf entityKeys;
  for_each (fun _ key =>
    t ← thumbprintOf key;
    throw_if (bool_decide (t ∈ ekThumbprints)) (record_invalid "ek and ku keys must be distinct"))
    operationalKeys tt.

(** ** Dependencies of the manager *)

Record Dependencies := mkDependencies {
  dp_dnsResolver : option (jsstr -> res (list TXTRecord * jsstr));
  dp_fetchJson : option (jsstr -> JsonFetchOptions -> res FetchResult);
  dp_logRegistry : option (gmap jsstr (@LogReaderFactory LogReader Invocation));
  dp_config : VerificationConfig
}.
Context (deps : Dependencies).

Definition fetchProtocolJson (url : jsstr) (opts : JsonFetchOptions) : task FetchResult :=
  match dp_fetchJson deps with
  | None => sync (Throw (newVerificationError "no JSON fetcher configured for protocol verification" TLSError None false))
  | Some fetchJson => wait (fetchJson url opts)
  end.

(** ** Discovery: the signed record

    Everything up to the record signature; nothing of the record is followed before. *)

Definition system_code (e : exn) : option string := match e with ESystem code _ => Some code | _ => None end.

Definition dns_failure (e : exn) : res (list TXTRecord * jsstr) :=
  if has_code DNSSECFailed e then Throw e
  else if bool_decide (system_code e = Some "ENOTFOUND"%string) || bool_decide (system_code e = Some "ENODATA"%string)
  then Ok ([], js "UNKNOWN")
  else Throw (newVerificationError "DNS lookup failed" DNSResolution None true).

Definition dns_lookup (domain : jsstr) : task (list TXTRecord * jsstr) :=
  task_catch
    match dp_dnsResolver deps with
    | None => sync (Throw (newVerificationError "no DNSResolver configured for protocol verification" DNSResolution None false))
    | Some fetchTXT => wait (fetchTXT (js "_dnsid." ++ domain))
    end
    (fun e => sync (dns_failure e)).

Record discovery := mkDiscovery {
  di_record : DnsIdTxtRecord;
  di_recordSigningJwks : JWKS;
  di_recordSigningTlsCert : TLSCertificate;
  di_signingKey : jwk;
  di_dnsTTL : Z;
  di_dnsExpiresAt : Z;
  di_dnssecState : DNSSECState
}.

Definition record_signing_keys (record : DnsIdTxtRecord) (revalidate : bool) : task (JWKS * TLSCertificate) :=
  task_catch
    (host ← sync (signatureVerificationKeyAllowedHost record);
     result ← fetchProtocolJson (signatureVerificationKeyURI record)
                (mkJsonFetchOptions (Some host) true JWKS_MAX_RESPONSE_BYTES revalidate);
     ks ← sync (jwks_of_data (fr_data result) (record_invalid "record-signing JWKS response missing keys array"));
     sync (validateRecordSigningKeyset ks;; Ok (ks, fr_tlsCert result)))
    (fun e => sync (Throw (key_set_error "record-signing JWKS validation failed"
                             "record-signing JWKS fetch failed" e))).

Definition discover (domain : jsstr) (revalidate : bool) (dnsAcquiredAt : Z) : task discovery :=
  answer ← dns_lookup domain;
  state ← sync (parse_dnssec_state (snd answer));
  sync (enforce_dnssec (default auto_mode (dnssecMode (dp_config deps))) state);;
  txt ← sync (single_record dnsAcquiredAt (fst answer));
  let '(raw, dnsTTL, dnsExpiresAt) := txt in
  record ← sync (parse_record domain raw);
  signing ← record_signing_keys record revalidate;
  signingKey ← sync (verifyDraft01RecordSignature (sg record) (utf8_encode (canonical record)) (fst signing));
  mret (mkDiscovery record (fst signing) (snd signing) signingKey dnsTTL dnsExpiresAt state).

(** ** The two branches after the signature *)

Record IdentityEvidence := mkIdentityEvidence {
  ie_jwks : JWKS;
  ie_tlsCert : TLSCertificate;
  ie_signingKeyThumbprint : jsstr;
  ie_logReader : log_reader;
  ie_keyBoundAt : date
}.

(** The runtime keys, which may be published with the signing keys. *)
Definition runtime_keys (d : discovery) (revalidate : bool) : task (JWKS * TLSCertificate) :=
  let record := di_record d in
  if bool_decide (runtimeKeyURI record = signatureVerificationKeyURI record)
  then mret (di_recordSigningJwks d, di_recordSigningTlsCert d)
  else
    task_catch
      (host ← sync (runtimeKeyAllowedHost record);
       result ← fetchProtocolJson (runtimeKeyURI record)
                  (mkJsonFetchOptions (Some host) false JWKS_MAX_RESPONSE_BYTES revalidate);
       ks ← sync (jwks_of_data (fr_data result) (record_invalid "runtime JWKS response missing keys array"));
       sync (validateOperational ks;; Ok (ks, fr_tlsCert result)))
      (fun e => sync (Throw (key_set_error "runtime JWKS validation failed" "runtime JWKS fetch failed" e))).

(** [record.lr.split(':')[0]] *)
Definition lr_method (record : DnsIdTxtRecord) : jsstr := default [] (head (split_on 58 (TxtRecord.lr record))).

Definition open_log (record : DnsIdTxtRecord) (revalidate : bool) : res log_reader :=
  match dp_logRegistry deps with
  | Some factories =>
      catch (newReader factories (TxtRecord.lr record) (mkInvocation revalidate))
        (fun _ => Throw (record_invalid "malformed lr in _dnsid record"))
  | None => Ok (NoopLogReader (lr_method record))
  end.

(** A delegated identity needs a reader of its log. *)
Definition require_governance (record : DnsIdTxtRecord) (r : log_reader) : res unit :=
  structural ← hasStructuralGovernanceRelationship record;
  throw_if (negb structural && match r with NoopLogReader _ => true | Reader _ => false end)
    (newVerificationError "delegated governance relationship requires verified ISSUANCE evidence" LogError None false).

(** The maximum key age; an invalid time compares as not exceeded. *)
Definition check_key_age (now : Z) (maxAge : jsstr) (keyBoundAt : date) : res unit :=
  limit ← parseKaDuration maxAge;
  throw_if (match keyBoundAt with Some t => limit <? now - t | None => false end)
    (newVerificationError "signing key exceeds maximum key age" KeyAgeExceeded None false).

Definition key_age (now : Z) (domain operationalThumbprint : jsstr) (record : DnsIdTxtRecord) (r : log_reader) : task date :=
  match TxtRecord.ka record with
  | None | Some [] => mret (Some 0)
  | Some maxAge =>
      keyBoundAt ← wait (ask r (fun r => lr_keyTimestamp r domain operationalThumbprint));
      sync (check_key_age now maxAge keyBoundAt);;
      mret keyBoundAt
  end.

Definition verifyIdentityEvidence (now : Z) (domain : jsstr) (d : discovery) (revalidate : bool) : task IdentityEvidence :=
  let record := di_record d in
  runtime ← runtime_keys d revalidate;
  let '(jwks, tlsCert) := runtime in
  sync (check_distinct (keys (di_recordSigningJwks d)) (keys jwks));;
  logReader ← sync (open_log record revalidate);
  sync (require_governance record logReader);;
  operationalKey ← sync (currentOperationalSigningKey jwks);
  signingKeyThumbprint ← sync (jwkThumbprint (di_signingKey d));
  operationalThumbprint ← sync (jwkThumbprint operationalKey);
  sync (throw_if (bool_decide (signingKeyThumbprint = operationalThumbprint))
          (record_invalid "ek and ku keys must be distinct"));;
  binding ← wait (ask logReader (fun r => lr_verifyBilateralBinding r record (di_signingKey d) operationalKey));
  wait (ask logReader (fun r => lr_verifyOperationalContinuity r domain
                                  (initialOperationalThumbprint binding) operationalThumbprint));;
  keyBoundAt ← key_age now domain operationalThumbprint record logReader;
  mret (mkIdentityEvidence jwks tlsCert signingKeyThumbprint logReader keyBoundAt).

Definition fetch_status (message : string) (su : jsstr) (revalidate : bool) : task AgentStatus :=
  status ← task_catch
             (result ← fetchProtocolJson su (mkJsonFetchOptions None false STATUS_MAX_RESPONSE_BYTES revalidate);
              sync (parseAgentStatus (fr_data result)))
             (fun e => sync (Throw (status_error message e)));
  sync (require_active status);;
  mret status.

Definition fetchActiveStatus (su : jsstr) (revalidate : bool) : task AgentStatus :=
  fetch_status "status fetch failed" su revalidate.

(** ** The whole verification *)

(** The readings of the clock: the start of the lookup, the key-age check, the end, and the
    freshness check. *)
Record clock := mkClock { at_lookup : Z; at_key_age : Z; at_end : Z; at_freshness : Z }.

Definition newIdentity (domain : jsstr) (d : discovery) (e : IdentityEvidence) (status : AgentStatus) (now : Z) : VerifiedIdentity :=
  mkVerifiedIdentity domain (di_record d) (ie_jwks e) (di_recordSigningJwks d) (di_signingKey d)
    (ie_signingKeyThumbprint e) (ie_tlsCert e) (di_recordSigningTlsCert d) status now
    (di_dnsTTL d) (Some (di_dnsExpiresAt d)) (ie_keyBoundAt e) now (di_dnssecState d) (ie_logReader e).

Definition conclude (domain : jsstr) (t : clock) (d : discovery) (x : IdentityEvidence * AgentStatus) : res VerifiedIdentity :=
  let result := newIdentity domain d (fst x) (snd x) (at_end t) in
  assertFresh (at_freshness t) (as_VerifiedDomain result);;
  Ok result.

(** A run: the discovery under the caller's signal, the two branches, the end. *)
Inductive run_state :=
  | Discovering (aborted : bool) (t : task discovery)
  | Branching (d : discovery) (s : fan IdentityEvidence AgentStatus)
  | Ended (r : res VerifiedIdentity).

Inductive run_event := Settles | Cancelled | Fires | Proceeds | OnBranches (ev : fan_event).

Definition run_step (domain : jsstr) (revalidate : bool) (t : clock) (s : run_state) (ev : run_event) : run_state :=
  match s with
  | Discovering a m =>
      match ev with
      | Settles => Discovering a (settle a m)
      | Cancelled => Discovering a (cancel a m)
      | Fires => Discovering true m
      | Proceeds =>
          match m with
          | Done (Ok d) =>
              Branching d (fan_start a (verifyIdentityEvidence (at_key_age t) domain d revalidate)
                             (fetchActiveStatus (TxtRecord.su (di_record d)) revalidate))
          | Done (Throw e) => Ended (Throw e)
          | Wait _ _ => s
          end
      | OnBranches _ => s
      end
  | Branching d f =>
      match ev with
      | OnBranches ev => Branching d (fan_step f ev)
      | Proceeds =>
          match fan_result f with
          | Some x => Ended (x ← x; conclude domain t d x)
          | None => s
          end
      | _ => s
      end
  | Ended _ => s
  end.

Definition verifyDomainUncached (domain : jsstr) (revalidate : bool) (t : clock) (evs : list run_event) : run_state :=
  foldl (run_step domain revalidate t) (Discovering false (discover domain revalidate (at_lookup t))) evs.

(** The same without concurrency: the specification of a run. *)
Definition verify_alone (domain : jsstr) (revalidate : bool) (t : clock) : res VerifiedIdentity :=
  d ← run_alone (discover domain revalidate (at_lookup t));
  e ← run_alone (verifyIdentityEvidence (at_key_age t) domain d revalidate);
  status ← run_alone (fetchActiveStatus (TxtRecord.su (di_record d)) revalidate);
  conclude domain t d (e, status).

(** A new status for a cached identity. *)
Definition with_status (cached : VerifiedIdentity) (status : AgentStatus) (checkedAt : Z) : VerifiedIdentity :=
  mkVerifiedIdentity (vi_domain cached) (vi_record cached) (vi_jwks cached) (vi_recordSigningJwks cached)
    (vi_signingKey cached) (vi_signingKeyThumbprint cached) (vi_tlsCert cached) (vi_recordSigningTlsCert cached)
    status (vi_verifiedAt cached) (vi_dnsTTL cached) (vi_dnsExpiresAt cached) (vi_keyBoundAt cached)
    checkedAt (vi_dnssecState cached) (vi_logReader cached).

Definition refreshStatus (cached : VerifiedIdentity) (checkedAt freshAt : Z) : task VerifiedIdentity :=
  status ← fetch_status "status re-fetch failed" (TxtRecord.su (vi_record cached)) false;
  let refreshed := with_status cached status checkedAt in
  sync (assertFresh freshAt (as_VerifiedDomain refreshed));;
  mret refreshed.

(** [loadDomainLog] *)
Definition loadDomainLog (d : VerifiedIdentity) : res (list LogEvent) :=
  match vi_logReader d with
  | NoopLogReader _ => Throw (newVerificationError "loadDomainLog: no LogReader registered for method" LogError None false)
  | Reader r => lr_rebuildHistory r (vi_domain d)
  end.

(** ** Lemmas: cancellation *)

Lemma fetchProtocolJson_cancellable url opts : cancellable (fetchProtocolJson url opts).
Proof. unfold fetchProtocolJson. by destruct (dp_fetchJson deps). Qed.
Hint Resolve fetchProtocolJson_cancellable : dnsid.

Ltac cancellable_tac :=
  repeat first
    [ apply cancellable_bind; [|intros ?] | apply cancellable_catch; [|reflexivity|intros ?]
    | apply fetchProtocolJson_cancellable | apply cancellable_sync | apply cancellable_wait | done ].

Lemma record_signing_keys_cancellable record revalidate : cancellable (record_signing_keys record revalidate).
Proof. unfold record_signing_keys. cancellable_tac. Qed.

Lemma runtime_keys_cancellable d revalidate : cancellable (runtime_keys d revalidate).
Proof. unfold runtime_keys. case_bool_decide; cancellable_tac. Qed.

Lemma key_age_cancellable now domain thumb record r : cancellable (key_age now domain thumb record r).
Proof. unfold key_age. destruct (TxtRecord.ka record) as [[|u s]|]; cancellable_tac. Qed.

Lemma verifyIdentityEvidence_cancellable now domain d revalidate :
  cancellable (verifyIdentityEvidence now domain d revalidate).
Proof.
  unfold verifyIdentityEvidence. apply cancellable_bind; [apply runtime_keys_cancellable|].
  intros [jwks cert]. cancellable_tac. apply key_age_cancellable.
Qed.

Lemma fetchActiveStatus_cancellable su revalidate : cancellable (fetchActiveStatus su revalidate).
Proof. unfold fetchActiveStatus, fetch_status. cancellable_tac. Qed.

(** A cancelled lookup is reported as a failed one. *)
Lemma dns_lookup_stoppable domain : stoppable (dns_lookup domain).
Proof.
  unfold dns_lookup. destruct (dp_dnsResolver deps) as [fetchTXT|]; [|done]. cbn.
  split; [by eexists|]. by destruct (fetchTXT _).
Qed.

Lemma discover_stoppable domain revalidate t0 : stoppable (discover domain revalidate t0).
Proof.
  unfold discover. apply stoppable_bind; [apply dns_lookup_stoppable|]. intros answer.
  apply cancellable_stoppable. cancellable_tac. destruct a1 as [[raw dnsTTL] expires]. cancellable_tac.
Qed.

(** ** Lemmas: every run refines the sequential verification *)

Definition main_inv (m0 : task discovery) (aborted : bool) (m : task discovery) : Prop :=
  (stoppable m /\ run_alone m = run_alone m0) \/ (aborted = true /\ exists e, m = Done (Throw e)).

Lemma main_settle m0 a m : main_inv m0 a m -> main_inv m0 a (settle a m).
Proof.
  intros [[Hs Hr]|[Ha (e & ->)]]; [|right; split; [done|by exists e]].
  destruct m as [r|C op k]; [by left|]. destruct Hs as [[e Hk] Hs].
  destruct a; cbn; [|by left]. destruct op; cbn; [right; eauto|by left].
Qed.

Lemma main_cancel m0 a m : main_inv m0 a m -> main_inv m0 a (cancel a m).
Proof.
  intros [[Hs Hr]|[Ha (e & ->)]]; [|right; split; [done|by exists e]].
  destruct m as [r|C op k]; [by left|]. destruct a; [|by left]. destruct Hs as [[e Hk] Hs]. right. cbn. eauto.
Qed.

Section Runs.
Context (domain : jsstr) (revalidate : bool) (t : clock).

Notation main := (discover domain revalidate (at_lookup t)).
Notation left_of d := (verifyIdentityEvidence (at_key_age t) domain d revalidate).
Notation right_of d := (fetchActiveStatus (TxtRecord.su (di_record d)) revalidate).

(** Whether a run is still undisturbed by the caller's signal. *)
Definition state_inv (calm : bool) (s : run_state) : Prop :=
  match s with
  | Discovering a m => main_inv main a m /\ (calm = true -> a = false)
  | Branching d f =>
      run_alone main = Ok d
      /\ exists parent evs, f = fan_run (fan_start parent (left_of d) (right_of d)) evs
           /\ (calm = true -> parent = false /\ ParentAborts ∉ evs)
  | Ended (Ok v) => verify_alone domain revalidate t = Ok v
  | Ended (Throw e) =>
      calm = true ->
      run_alone main = Throw e
      \/ exists d, run_alone main = Ok d
          /\ (run_alone (left_of d) = Throw e \/ run_alone (right_of d) = Throw e
              \/ exists x, outcome_of (run_alone (left_of d)) (run_alone (right_of d)) (Ok x)
                          /\ conclude domain t d x = Throw e)
          /\ (forall e1, run_alone (left_of d) = Throw e1 -> has_code HTTPError e1 = true ->
             forall e2, run_alone (right_of d) = Throw e2 -> has_code StatusNotActive e2 = true -> e = e2)
  end.

Definition disturbs (ev : run_event) : bool :=
  match ev with Fires | OnBranches ParentAborts => true | _ => false end.

Lemma ended_inv calm d parent evs out : run_alone main = Ok d ->
  (calm = true -> parent = false /\ ParentAborts ∉ evs) ->
  fan_result (fan_run (fan_start parent (left_of d) (right_of d)) evs) = Some out ->
  state_inv calm (Ended (x ← out; conclude domain t d x)).
Proof.
  intros Hd Hcalm Hout. pose proof (verifyIdentityEvidence_cancellable (at_key_age t) domain d revalidate) as Cl.
  pose proof (fetchActiveStatus_cancellable (TxtRecord.su (di_record d)) revalidate) as Cr.
  destruct (x ← out; conclude domain t d x) as [v|e] eqn:E.
  - apply bind_Ok in E as (x & -> & E). destruct (fan_Ok _ _ _ _ _ Cl Cr Hout) as [El Er].
    cbn. unfold verify_alone. rewrite Hd. cbn. rewrite El. cbn. rewrite Er. cbn. by destruct x.
  - cbn. intros Hc. right. exists d. split; [done|]. destruct (Hcalm Hc) as [-> Hev].
    pose proof (fan_outcome _ _ _ _ Cl Cr Hev Hout) as Ho. split.
    + apply bind_Throw in E as [->|(x & -> & E)]; [|by eauto].
      unfold outcome_of in Ho. destruct (run_alone (left_of d)) as [l|e1], (run_alone (right_of d)) as [r|e2]; try done.
      1,2: injection Ho as ->; auto.
      destruct (_ && _); [injection Ho as ->; auto|]. destruct Ho as [[= ->]|[= ->]]; auto.
    + intros e1 E1 H1 e2 E2 H2. rewrite E1, E2 in Ho. cbn in Ho. rewrite H1, H2 in Ho. cbn in Ho. subst out.
      by injection E as <-.
Qed.

Lemma verification_step_inv calm s ev : state_inv calm s ->
  state_inv (calm && negb (disturbs ev)) (run_step domain revalidate t s ev).
Proof.
  assert (Hmono : forall s, state_inv calm s -> state_inv (calm && negb (disturbs ev)) s).
  { intros [a m|d f|[v|e]]; cbn; [| |done|].
    - intros [? H]. split; [done|]. intros [? _]%andb_true_iff. auto.
    - intros (? & parent & evs & -> & H). split; [done|]. exists parent, evs. split; [done|].
      intros [? _]%andb_true_iff. auto.
    - intros H [? _]%andb_true_iff. auto. }
  intros Hs. destruct s as [a m|d f|r].
  - destruct Hs as [Hm Ha]. destruct ev; cbn; rewrite ?andb_true_r, ?andb_false_r.
    + split; [by apply main_settle|done].
    + split; [by apply main_cancel|done].
    + split; [|done]. destruct Hm as [?|[? ?]]; [by left|by right].
    + destruct m as [[d|e]|C op k]; [| |by split].
      * destruct Hm as [[_ Hd]|[_ (e & ?)]]; [|done]. split; [done|]. exists a, []. split; [done|].
        intros Hc. split; [auto|]. by apply not_elem_of_nil.
      * intros Hc. destruct Hm as [[_ He]|[Ht _]]; [by left|]. by rewrite (Ha Hc) in Ht.
    + split; [done|]. intros [? _]%andb_true_iff. auto.
  - destruct ev as [| | | |ev]; try (by apply Hmono in Hs).
    + cbn [run_step]. destruct (fan_result f) as [out|] eqn:E; [|by apply Hmono in Hs].
      destruct Hs as (Hd & parent & evs & -> & Hc). cbn [disturbs negb]. rewrite andb_true_r. by eapply ended_inv.
    + destruct Hs as (Hd & parent & evs & -> & Hc). split; [done|]. exists parent, (evs ++ [ev]).
      split; [unfold fan_run; by rewrite foldl_app|]. intros [H1 H2]%andb_true_iff.
      destruct (Hc H1) as [-> Hn]. split; [done|]. apply not_elem_of_app. split; [done|].
      intros <-%list_elem_of_singleton. done.
  - by apply Hmono in Hs.
Qed.

Lemma verification_run_inv evs : state_inv (forallb (fun ev => negb (disturbs ev)) evs) (verifyDomainUncached domain revalidate t evs).
Proof.
  assert (H : forall calm s, state_inv calm s -> state_inv (calm && forallb (fun ev => negb (disturbs ev)) evs)
                                                  (foldl (run_step domain revalidate t) s evs)).
  { induction evs as [|ev evs IH]; intros calm s Hs; cbn; [by rewrite andb_true_r|].
    rewrite andb_assoc. by apply IH, verification_step_inv. }
  apply (H true). split; [|done]. left. split; [apply discover_stoppable|done].
Qed.

(** The result of any run is the sequential one. *)
Lemma run_refines evs v : verifyDomainUncached domain revalidate t evs = Ended (Ok v) ->
  verify_alone domain revalidate t = Ok v.
Proof. intros E. pose proof (verification_run_inv evs) as H. by rewrite E in H. Qed.

End Runs.

(** ** What a verified identity has behind it *)

(** The signed record of the domain: the only TXT record, under the DNSSEC policy, valid for
    the domain, and signed by the current key of the set published at the governing domain. *)
Record signed_record (domain : jsstr) (revalidate : bool) (t0 : Z) (d : discovery) : Prop := {
  sr_answer : exists fetchTXT r name parts raw_record,
    dp_dnsResolver deps = Some fetchTXT /\ fetchTXT (js "_dnsid." ++ domain) = Ok ([r], name)
    /\ named dnssec_names name = Some (di_dnssecState d)
    /\ txt_strings (strings r) = Some parts /\ ttl r = Some (di_dnsTTL d)
    /\ TxtRecord.parse (concat parts) = Ok raw_record /\ di_record d = set_agentFQDN raw_record domain;
  sr_expiry : 0 <= di_dnsTTL d /\ di_dnsExpiresAt d = t0 + di_dnsTTL d * 1000;
  sr_dnssec : di_dnssecState d <> FAILED
    /\ (dnssecMode (dp_config deps) = Some validated -> di_dnssecState d <> UNKNOWN)
    /\ (dnssecMode (dp_config deps) = Some required -> di_dnssecState d = VALID);
  sr_valid : TxtRecord.validate (di_record d) = Ok tt;
  sr_keys : exists fetchJson host result, dp_fetchJson deps = Some fetchJson
    /\ signatureVerificationKeyAllowedHost (di_record d) = Ok host
    /\ fetchJson (ek (di_record d)) (mkJsonFetchOptions (Some host) true JWKS_MAX_RESPONSE_BYTES revalidate) = Ok result
    /\ di_recordSigningTlsCert d = fr_tlsCert result
    /\ jwks_of_data (fr_data result) (record_invalid "record-signing JWKS response missing keys array")
       = Ok (di_recordSigningJwks d);
  sr_signature : currentRecordSigningKey (di_recordSigningJwks d) = Ok (di_signingKey d)
    /\ exists sigBytes alg, sg (di_record d) = toBase64Url sigBytes
       /\ jwkSignatureAlg (di_signingKey d) = Ok alg
       /\ verifyWithKey (utf8_encode (canonical (di_record d))) sigBytes (di_signingKey d) (Some alg) = true
}.

(** The operational key: published at the agent's own host, distinct from every entity key,
    and bound to the record by the log. *)
Record bound_keys (domain : jsstr) (revalidate : bool) (now : Z) (d : discovery) (e : IdentityEvidence) : Prop := {
  bk_keys : exists fetchJson host result, dp_fetchJson deps = Some fetchJson
    /\ runtimeKeyAllowedHost (di_record d) = Ok host
    /\ fetchJson (ku (di_record d)) (mkJsonFetchOptions (Some host) false JWKS_MAX_RESPONSE_BYTES revalidate) = Ok result
    /\ ie_tlsCert e = fr_tlsCert result
    /\ jwks_of_data (fr_data result) (record_invalid "runtime JWKS response missing keys array") = Ok (ie_jwks e);
  bk_distinct : forall k k' th, k ∈ keys (di_recordSigningJwks d) -> k' ∈ keys (ie_jwks e) ->
    jwkThumbprint k = Ok th -> jwkThumbprint k' <> Ok th;
  bk_signing : jwkThumbprint (di_signingKey d) = Ok (ie_signingKeyThumbprint e);
  bk_log : exists r operationalKey operationalThumbprint binding,
    ie_logReader e = Reader r
    /\ open_log (di_record d) revalidate = Ok (Reader r)
    /\ currentOperationalSigningKey (ie_jwks e) = Ok operationalKey
    /\ jwkThumbprint operationalKey = Ok operationalThumbprint
    /\ lr_verifyBilateralBinding r (di_record d) (di_signingKey d) operationalKey = Ok binding
    /\ lr_verifyOperationalContinuity r domain (initialOperationalThumbprint binding) operationalThumbprint = Ok tt
    /\ (forall maxAge, TxtRecord.ka (di_record d) = Some maxAge -> maxAge <> [] ->
         lr_keyTimestamp r domain operationalThumbprint = Ok (ie_keyBoundAt e)
         /\ exists limit, parseKaDuration maxAge = Ok limit
             /\ forall bound, ie_keyBoundAt e = Some bound -> now - bound <= limit)
}.

(** A status document fetched from [su] that says ACTIVE. *)
Definition active_status (su : jsstr) (revalidate : bool) (status : AgentStatus) : Prop :=
  as_state status = ACTIVE
  /\ exists fetchJson result, dp_fetchJson deps = Some fetchJson
     /\ fetchJson su (mkJsonFetchOptions None false STATUS_MAX_RESPONSE_BYTES revalidate) = Ok result
     /\ validateAgentStatus newDate (fr_data result) = Ok status.

(** Nothing has expired at [now]. *)
Definition fresh_at (now : Z) (d : VerifiedIdentity) : Prop :=
  (exists t, notAfter (vi_tlsCert d) = Some t /\ now < t)
  /\ (exists t, notAfter (vi_recordSigningTlsCert d) = Some t /\ now < t)
  /\ (0 < vi_dnsTTL d -> forall t, vi_dnsExpiresAt d = Some t -> now < t).

Definition verified (domain : jsstr) (revalidate : bool) (t : clock) (v : VerifiedIdentity) : Prop :=
  exists d e, v = newIdentity domain d e (vi_registryStatus v) (at_end t)
    /\ signed_record domain revalidate (at_lookup t) d
    /\ bound_keys domain revalidate (at_key_age t) d e
    /\ active_status (TxtRecord.su (di_record d)) revalidate (vi_registryStatus v)
    /\ fresh_at (at_freshness t) v.

(** ** Lemmas: soundness *)

Ltac alone_inv :=
  repeat match goal with
  | H : run_alone (_ ≫= _) = Ok _ |- _ =>
      let a := fresh "x" in let Ha := fresh "Hx" in apply run_alone_bind_Ok in H as (a & Ha & H)
  | H : run_alone (mret _) = Ok _ |- _ => injection H as H
  | H : run_alone (sync _) = Ok _ |- _ => change (run_alone (sync ?r)) with r in H
  | H : run_alone (wait _) = Ok _ |- _ => change (run_alone (wait ?r)) with r in H
  | x : unit |- _ => destruct x
  end.

Lemma fetchProtocolJson_Ok url opts result : run_alone (fetchProtocolJson url opts) = Ok result ->
  exists fetchJson, dp_fetchJson deps = Some fetchJson /\ fetchJson url opts = Ok result.
Proof. unfold fetchProtocolJson. destruct (dp_fetchJson deps) as [f|]; [|done]. intros H. by exists f. Qed.

Lemma dns_lookup_Ok domain records name : run_alone (dns_lookup domain) = Ok (records, name) -> records <> [] ->
  exists fetchTXT, dp_dnsResolver deps = Some fetchTXT /\ fetchTXT (js "_dnsid." ++ domain) = Ok (records, name).
Proof.
  unfold dns_lookup. rewrite run_alone_catch_Ok. intros [H|(e & _ & H)] Hne.
  - destruct (dp_dnsResolver deps) as [f|]; [|done]. exists f. done.
  - exfalso. apply Hne. cbn in H. unfold dns_failure in H. repeat case_match; congruence.
Qed.

Lemma single_record_Ok t0 records raw dnsTTL expires : single_record t0 records = Ok (raw, dnsTTL, expires) ->
  exists r parts, records = [r] /\ txt_strings (strings r) = Some parts /\ raw = concat parts
    /\ ttl r = Some dnsTTL /\ 0 <= dnsTTL /\ expires = t0 + dnsTTL * 1000.
Proof.
  destruct records as [|r [|r' rs]]; [done| |done]. cbn. intros H.
  apply bind_Ok in H as (parts & Hp%of_option_Ok & H). apply bind_Ok in H as ([] & _ & H).
  apply bind_Ok in H as (tt' & Ht%of_option_Ok & H). apply bind_Ok in H as ([] & Hn%throw_if_Ok & H).
  apply bind_Ok in H as (ex & He%of_option_Ok & [= <- <- <-]). apply Z.ltb_ge in Hn.
  exists r, parts. unfold new_date in He. destruct (_ && _); [|done]. injection He as <-. done.
Qed.

Lemma parse_record_Ok domain raw record : parse_record domain raw = Ok record ->
  exists raw_record, TxtRecord.parse raw = Ok raw_record /\ record = set_agentFQDN raw_record domain
    /\ TxtRecord.validate record = Ok tt.
Proof.
  unfold parse_record. intros H. apply bind_Ok in H as (r & Hr & H). apply catch_Ok in Hr as [Hr|(? & _ & ?)]; [|done].
  apply bind_Ok in H as ([] & Hv & H). apply catch_Ok in Hv as [Hv|(? & _ & ?)]; [|done].
  injection H as <-. eauto.
Qed.

Lemma enforce_dnssec_Ok mode state : enforce_dnssec (default auto_mode mode) state = Ok tt ->
  state <> FAILED /\ (mode = Some validated -> state <> UNKNOWN) /\ (mode = Some required -> state = VALID).
Proof.
  unfold enforce_dnssec. intros (? & H1%throw_if_Ok & H)%bind_Ok. apply bool_decide_eq_false in H1.
  split; [done|]. destruct mode as [[]|]; cbn in H; (split; [|]); try done; intros _;
    apply throw_if_Ok in H; by bool_inv.
Qed.

Lemma verifyDraft01RecordSignature_Ok sg bs s key : verifyDraft01RecordSignature sg bs s = Ok key ->
  currentRecordSigningKey s = Ok key
  /\ exists sigBytes alg, sg = toBase64Url sigBytes /\ jwkSignatureAlg key = Ok alg
     /\ verifyWithKey bs sigBytes key (Some alg) = true.
Proof.
  unfold verifyDraft01RecordSignature. intros H. apply bind_Ok in H as (k & Hk & H).
  apply bind_Ok in H as (sigBytes & _ & H). apply bind_Ok in H as (? & Hs%throw_if_Ok & H).
  apply bind_Ok in H as (alg & Ha & H). apply bind_Ok in H as (? & Hv%throw_if_Ok & [= <-]).
  split; [done|]. exists sigBytes, alg. apply orb_false_iff in Hs as [_ Hs]. by bool_inv.
Qed.

Lemma record_signing_keys_Ok record revalidate ks cert : run_alone (record_signing_keys record revalidate) = Ok (ks, cert) ->
  exists fetchJson host result, dp_fetchJson deps = Some fetchJson
    /\ signatureVerificationKeyAllowedHost record = Ok host
    /\ fetchJson (ek record) (mkJsonFetchOptions (Some host) true JWKS_MAX_RESPONSE_BYTES revalidate) = Ok result
    /\ cert = fr_tlsCert result
    /\ jwks_of_data (fr_data result) (record_invalid "record-signing JWKS response missing keys array") = Ok ks.
Proof.
  unfold record_signing_keys. rewrite run_alone_catch_Ok. intros [H|(e & _ & H)]; [|by destruct e].
  apply run_alone_bind_Ok in H as (host & Hh & H). apply run_alone_bind_Ok in H as (result & Hr & H).
  apply run_alone_bind_Ok in H as (ks' & Hk & H). apply fetchProtocolJson_Ok in Hr as (f & Hf & Hr).
  apply bind_Ok in H as ([] & _ & [= <- <-]). exists f, host, result. done.
Qed.

Lemma discover_sound domain revalidate t0 d : run_alone (discover domain revalidate t0) = Ok d ->
  signed_record domain revalidate t0 d.
Proof.
  unfold discover. intros H. apply run_alone_bind_Ok in H as ([records name] & Hdns & H).
  apply run_alone_bind_Ok in H as (state & Hstate & H). apply run_alone_bind_Ok in H as ([] & Hdnssec & H).
  apply run_alone_bind_Ok in H as ([[raw dnsTTL] expires] & Htxt & H).
  apply run_alone_bind_Ok in H as (record & Hrec & H). apply run_alone_bind_Ok in H as ([ks cert] & Hks & H).
  apply run_alone_bind_Ok in H as (key & Hkey & [= <-]).
  apply single_record_Ok in Htxt as (r & parts & E & Hparts & -> & Httl & Hnn & ->). cbn [fst snd] in *. subst records.
  destruct (dns_lookup_Ok _ _ _ Hdns ltac:(done)) as (f & Hf & Hans).
  apply parse_record_Ok in Hrec as (raw_record & Hparse & -> & Hvalid).
  apply of_option_Ok in Hstate.
  split; cbn [di_record di_recordSigningJwks di_recordSigningTlsCert di_signingKey di_dnsTTL di_dnsExpiresAt di_dnssecState].
  - by exists f, r, name, parts, raw_record.
  - done.
  - by apply enforce_dnssec_Ok.
  - done.
  - by apply record_signing_keys_Ok.
  - by apply verifyDraft01RecordSignature_Ok.
Qed.

Lemma thumbprintOf_Ok k th : thumbprintOf k = Ok th <-> jwkThumbprint k = Ok th.
Proof. unfold thumbprintOf. rewrite catch_Ok. naive_solver. Qed.

Lemma check_distinct_Ok eks oks : check_distinct eks oks = Ok tt ->
  forall k k' th, k ∈ eks -> k' ∈ oks -> jwkThumbprint k = Ok th -> jwkThumbprint k' <> Ok th.
Proof.
  unfold check_distinct. intros H. apply bind_Ok in H as (ths & Hths & H). apply map_res_Forall2 in Hths.
  induction oks as [|o oks IH]; intros k k' th Hk Hk'; [by apply not_elem_of_nil in Hk'|].
  cbn [for_each] in H. apply bind_Ok in H as ([] & H1 & H). apply elem_of_cons in Hk' as [->|Hk'].
  - intros Hkt Ho. apply bind_Ok in H1 as (t & Ht & Hn%throw_if_Ok). apply thumbprintOf_Ok in Ht.
    rewrite Ho in Ht. injection Ht as ->. apply bool_decide_eq_false in Hn. apply Hn.
    apply list_elem_of_lookup in Hk as [i Hi].
    destruct (Forall2_lookup_l _ _ _ _ _ Hths Hi) as (t' & Ht' & E). apply thumbprintOf_Ok in E.
    rewrite Hkt in E. injection E as ->. by eapply list_elem_of_lookup_2.
  - by eapply IH.
Qed.

Lemma current_key_elem s k : currentDraft01SigningKey s = Ok k -> k ∈ keys s.
Proof.
  unfold currentDraft01SigningKey. destruct (List.filter isSigningUse (keys s)) as [|k' [|? ?]] eqn:E; try done.
  intros H. apply bind_Ok in H as (? & _ & H). apply bind_Ok in H as (? & _ & H).
  apply bind_Ok in H as (? & _ & H). apply bind_Ok in H as (? & _ & [= <-]).
  apply list_elem_of_In. apply (proj1 (List.filter_In isSigningUse k' (keys s))). rewrite E. by left.
Qed.

Lemma runtime_keys_Ok d revalidate ks cert : run_alone (runtime_keys d revalidate) = Ok (ks, cert) ->
  (ks = di_recordSigningJwks d)
  \/ exists fetchJson host result, dp_fetchJson deps = Some fetchJson
    /\ runtimeKeyAllowedHost (di_record d) = Ok host
    /\ fetchJson (ku (di_record d)) (mkJsonFetchOptions (Some host) false JWKS_MAX_RESPONSE_BYTES revalidate) = Ok result
    /\ cert = fr_tlsCert result
    /\ jwks_of_data (fr_data result) (record_invalid "runtime JWKS response missing keys array") = Ok ks.
Proof.
  unfold runtime_keys. case_bool_decide; [intros [= <- <-]; by left|].
  rewrite run_alone_catch_Ok. intros [H1|(e & _ & H1)]; [|by destruct e]. right.
  apply run_alone_bind_Ok in H1 as (host & Hh & H1). apply run_alone_bind_Ok in H1 as (result & Hr & H1).
  apply run_alone_bind_Ok in H1 as (ks' & Hk & H1). apply fetchProtocolJson_Ok in Hr as (f & Hf & Hr).
  apply bind_Ok in H1 as ([] & _ & [= <- <-]). exists f, host, result. done.
Qed.

Lemma check_key_age_Ok now maxAge bound : check_key_age now maxAge bound = Ok tt ->
  exists limit, parseKaDuration maxAge = Ok limit /\ forall b, bound = Some b -> now - b <= limit.
Proof.
  unfold check_key_age. intros (limit & Hl & H%throw_if_Ok)%bind_Ok. exists limit. split; [done|].
  intros b ->. by apply Z.ltb_ge in H.
Qed.

Lemma ask_Ok {A} (r : log_reader) (f : LogReader -> res A) a : run_alone (wait (ask r f)) = Ok a -> exists r', r = Reader r' /\ f r' = Ok a.
Proof. destruct r as [r|m]; cbn; [|done]. by exists r. Qed.

Lemma verifyIdentityEvidence_sound now domain d revalidate e :
  currentRecordSigningKey (di_recordSigningJwks d) = Ok (di_signingKey d) ->
  run_alone (verifyIdentityEvidence now domain d revalidate) = Ok e ->
  bound_keys domain revalidate now d e.
Proof.
  intros Hsk H. unfold verifyIdentityEvidence in H. apply run_alone_bind_Ok in H as ([jwks cert] & Hrt & H).
  apply run_alone_bind_Ok in H as ([] & Hd & H). apply run_alone_bind_Ok in H as (reader & Ho & H).
  apply run_alone_bind_Ok in H as ([] & _ & H). apply run_alone_bind_Ok in H as (ok & Hok & H).
  apply run_alone_bind_Ok in H as (sth & Hsth & H). apply run_alone_bind_Ok in H as (oth & Hoth & H).
  apply run_alone_bind_Ok in H as ([] & _ & H). apply run_alone_bind_Ok in H as (binding & Hb & H).
  apply run_alone_bind_Ok in H as ([] & Hc & H). apply run_alone_bind_Ok in H as (bound & Hage & [= <-]).
  apply ask_Ok in Hb as (r & -> & Hb). apply ask_Ok in Hc as (r' & [= <-] & Hc).
  pose proof (check_distinct_Ok _ _ Hd) as Hdis.
  split; cbn [ie_jwks ie_tlsCert ie_signingKeyThumbprint ie_logReader ie_keyBoundAt].
  - apply runtime_keys_Ok in Hrt as [->|?]; [|done].
    pose proof (current_key_elem _ _ Hsk) as Hin. by destruct (Hdis _ _ _ Hin Hin Hsth).
  - done.
  - done.
  - exists r, ok, oth, binding. do 6 (split; [done|]). intros maxAge Hka Hne.
    unfold key_age in Hage. rewrite Hka in Hage. destruct maxAge as [|u s]; [done|].
    apply run_alone_bind_Ok in Hage as (b & Hb' & H'). apply ask_Ok in Hb' as (? & [= <-] & Hb').
    apply run_alone_bind_Ok in H' as ([] & Hk & [= <-]). split; [done|]. by apply check_key_age_Ok.
Qed.

Lemma fetch_status_sound message su revalidate status : run_alone (fetch_status message su revalidate) = Ok status ->
  active_status su revalidate status.
Proof.
  unfold fetch_status. intros H. apply run_alone_bind_Ok in H as (st & Hst & H).
  apply run_alone_bind_Ok in H as ([] & Ha & [= <-]). apply throw_if_Ok in Ha. bool_inv. split; [done|].
  apply run_alone_catch_Ok in Hst as [Hst|(e & _ & ?)]; [|by destruct e].
  apply run_alone_bind_Ok in Hst as (result & Hr & Hp). apply fetchProtocolJson_Ok in Hr as (f & Hf & Hr).
  exists f, result. do 2 (split; [done|]). change (parseAgentStatus (fr_data result) = Ok st) in Hp.
  unfold parseAgentStatus in Hp. apply catch_Ok in Hp as [?|(e & _ & ?)]; [done|]. by destruct e.
Qed.

Lemma assertFresh_fresh now d : assertFresh now (as_VerifiedDomain d) = Ok tt -> fresh_at now d.
Proof.
  unfold assertFresh. cbn [as_VerifiedDomain newVerifiedDomain existsb vd_tlsNotAfter vd_recordSigningTlsNotAfter
    vd_dnsTTL vd_dnsExpiresAt default from_option].
  destruct (cert_expired now _ || _) eqn:E1; [done|]. intros (too_old & _ & H)%bind_Ok.
  destruct too_old; [done|]. destruct (_ && _) eqn:E2 in H; [done|]. bool_inv.
  assert (Hc : forall na, cert_expired now na = false -> exists t, na = Some t /\ now < t).
  { intros [t|]; [|done]. cbn. intros Ht%Z.leb_gt. by exists t. }
  split; [|split]; [by apply Hc|by apply Hc|]. intros Hpos t Ht. rewrite Ht in E2. cbn in E2.
  rewrite (proj2 (Z.ltb_lt _ _) Hpos) in E2. by apply Z.leb_gt in E2.
Qed.

Lemma verify_alone_sound domain revalidate t v : verify_alone domain revalidate t = Ok v ->
  verified domain revalidate t v.
Proof.
  unfold verify_alone. intros (d & Hd & H)%bind_Ok. apply bind_Ok in H as (e & He & H).
  apply bind_Ok in H as (status & Hs & H). unfold conclude in H. cbn [fst snd] in H.
  apply bind_Ok in H as ([] & Hf & [= <-]). pose proof (discover_sound _ _ _ _ Hd) as Hsr.
  exists d, e. split; [done|]. split; [done|]. split; [|split].
  - eapply verifyIdentityEvidence_sound; [apply (sr_signature _ _ _ _ Hsr)|done].
  - by eapply fetch_status_sound.
  - by apply assertFresh_fresh.
Qed.

(** What a call may return for a domain: the result of a verification, perhaps with a status
    that was fetched later. *)
Definition verified_identity (domain : jsstr) (v : VerifiedIdentity) : Prop :=
  exists v0 revalidate t, verified domain revalidate t v0
    /\ (v = v0 \/ exists status checkedAt, v = with_status v0 status checkedAt
                  /\ active_status (TxtRecord.su (vi_record v0)) false status).

Lemma refreshStatus_sound domain cached checkedAt freshAt v : verified_identity domain cached ->
  run_alone (refreshStatus cached checkedAt freshAt) = Ok v -> verified_identity domain v.
Proof.
  intros (v0 & revalidate & t & Hv & Hc) H. unfold refreshStatus in H.
  apply run_alone_bind_Ok in H as (status & Hs & H). apply run_alone_bind_Ok in H as ([] & _ & [= <-]).
  exists v0, revalidate, t. split; [done|]. right. apply fetch_status_sound in Hs.
  exists status, checkedAt. destruct Hc as [->|(status' & checkedAt' & -> & _)]; done.
Qed.

(** ** Termination: the number of awaits is bounded *)

Lemma waits_bind {A B} (t : task A) (f : A -> task B) n m : (waits t <= n)%nat -> (forall a, (waits (f a) <= m)%nat) ->
  (waits (t ≫= f) <= n + m)%nat.
Proof.
  intros Ht Hf. revert n Ht. unfold mbind, task_bind.
  induction t as [[a|e]|C op k IH]; intros n Ht; cbn [waits task_bind_] in *; [specialize (Hf a); lia|lia|].
  destruct n as [|n]; [lia|]. specialize (IH op n ltac:(lia)). lia.
Qed.
Lemma waits_catch {A} (t : task A) h n : (waits t <= n)%nat -> (forall e, waits (h e) = 0%nat) -> (waits (task_catch t h) <= n)%nat.
Proof.
  intros Ht Hh. revert n Ht. induction t as [[a|e]|C op k IH]; intros n Ht; cbn in *; [done|by rewrite Hh|].
  destruct n as [|n]; [lia|]. specialize (IH op n ltac:(lia)). lia.
Qed.
Lemma waits_fetch url opts : (waits (fetchProtocolJson url opts) <= 1)%nat.
Proof. unfold fetchProtocolJson. destruct (dp_fetchJson deps); cbn; lia. Qed.

Lemma discover_waits domain revalidate t0 : (waits (discover domain revalidate t0) <= 2)%nat.
Proof.
  unfold discover. apply (waits_bind _ _ 1 1).
  { unfold dns_lookup. apply waits_catch; [destruct (dp_dnsResolver deps); cbn; lia|done]. }
  intros answer. apply (waits_bind _ _ 0 1); [cbn; lia|intros state].
  apply (waits_bind _ _ 0 1); [cbn; lia|intros ?]. apply (waits_bind _ _ 0 1); [cbn; lia|intros [[raw ?] ?]].
  apply (waits_bind _ _ 0 1); [cbn; lia|intros record]. apply (waits_bind _ _ 1 0); [|intros ?; by apply (waits_bind _ _ 0 0)].
  unfold record_signing_keys. apply waits_catch; [|done]. apply (waits_bind _ _ 0 1); [cbn; lia|intros ?].
  apply (waits_bind _ _ 1 0); [apply waits_fetch|intros ?; by apply (waits_bind _ _ 0 0)].
Qed.

Lemma verifyIdentityEvidence_waits now domain d revalidate : (waits (verifyIdentityEvidence now domain d revalidate) <= 4)%nat.
Proof.
  unfold verifyIdentityEvidence. apply (waits_bind _ _ 1 3).
  { unfold runtime_keys. case_bool_decide; [cbn; lia|]. apply waits_catch; [|done].
    apply (waits_bind _ _ 0 1); [cbn; lia|intros ?]. apply (waits_bind _ _ 1 0); [apply waits_fetch|intros ?; by apply (waits_bind _ _ 0 0)]. }
  intros [jwks cert]. do 7 (apply (waits_bind _ _ 0 3); [cbn; lia|intros ?]).
  apply (waits_bind _ _ 1 2); [cbn; lia|intros ?]. apply (waits_bind _ _ 1 1); [cbn; lia|intros ?].
  apply (waits_bind _ _ 1 0); [|intros ?; cbn; lia]. unfold key_age.
  destruct (TxtRecord.ka (di_record d)) as [[|u s]|]; cbn; [lia| |lia].
  apply le_n_S. destruct (ask _ _); [|cbn; lia]. cbn. destruct (check_key_age _ _ _); cbn; lia.
Qed.

Lemma fetchActiveStatus_waits su revalidate : (waits (fetchActiveStatus su revalidate) <= 1)%nat.
Proof.
  unfold fetchActiveStatus, fetch_status. apply (waits_bind _ _ 1 0); [|intros ?; by cbn; destruct (require_active _)].
  apply waits_catch; [|done]. apply (waits_bind _ _ 1 0); [apply waits_fetch|intros ?; cbn; lia].
Qed.

(** The run in which every await settles. *)
Definition settled_schedule : list run_event :=
  replicate 2 Settles ++ Proceeds :: map OnBranches (replicate 4 LeftSettles ++ replicate 1 RightSettles) ++ [Proceeds].

Lemma branches_run domain revalidate t d f evs :
  foldl (run_step domain revalidate t) (Branching d f) (map OnBranches evs) = Branching d (fan_run f evs).
Proof. revert f; induction evs as [|ev evs IH]; intros f; [done|]. cbn. apply IH. Qed.

Lemma settles_done (m : task discovery) domain revalidate t : (waits m <= 2)%nat ->
  foldl (run_step domain revalidate t) (Discovering false m) (replicate 2 Settles) = Discovering false (Done (run_alone m)).
Proof.
  intros H. cbn. do 2 f_equal. destruct m as [r|C op k]; [done|]. cbn in *.
  destruct (k op) as [r|C' op' k'] eqn:E; [done|]. cbn in *. destruct (k' op') eqn:E'; [done|]. cbn in H. lia.
Qed.

Lemma settled_schedule_ends domain revalidate t : exists out,
  verifyDomainUncached domain revalidate t settled_schedule = Ended out.
Proof.
  unfold verifyDomainUncached, settled_schedule. rewrite foldl_app, settles_done by apply discover_waits.
  cbn [foldl run_step]. destruct (run_alone _) as [d|e].
  - rewrite foldl_app, branches_run. cbn [foldl run_step].
    destruct (fan_run_settles (fan_start false (verifyIdentityEvidence (at_key_age t) domain d revalidate)
      (fetchActiveStatus (TxtRecord.su (di_record d)) revalidate)) 4 1) as [out Hout];
      [apply verifyIdentityEvidence_cancellable|apply fetchActiveStatus_cancellable
      |apply verifyIdentityEvidence_waits|apply fetchActiveStatus_waits|].
    rewrite Hout. by eexists.
  - exists (Throw e). cbn. done.
Qed.

(** Once the caller's signal has fired before the end, no run succeeds. *)
Lemma fired_fails domain revalidate t evs s :
  (match s with
   | Discovering a _ => a = true
   | Branching _ f => fan_parent_aborted f = true
   | Ended r => is_ok r = false
   end) ->
  match foldl (run_step domain revalidate t) s evs with
  | Ended r => is_ok r = false
  | _ => True
  end.
Proof.
  revert s; induction evs as [|ev evs IH]; intros s Hs; cbn [foldl]; [by destruct s|].
  apply IH. destruct s as [a m|d f|r]; cbn [run_step].
  - subst a. destruct ev; try done. by destruct m as [[d|e]|].
  - destruct ev; try done; [|by apply fan_step_parent].
    destruct (fan_result f) as [out|] eqn:E; [|done]. unfold fan_result in E. rewrite Hs in E.
    destruct (fan_left f), (fan_right f); try done. injection E as <-. done.
  - by destruct ev.
Qed.

(** ** Theorems *)

(** C15: Whatever the answers of the network, the schedule and the cancellations, a verification
    that succeeds has its evidence: the signed record of the domain, keys bound by the log,
    an ACTIVE status, nothing expired. *)
Theorem verifyDomainUncached_sound domain revalidate t evs v :
  verifyDomainUncached domain revalidate t evs = Ended (Ok v) -> verified domain revalidate t v.
Proof. intros H. by apply verify_alone_sound, (run_refines _ _ _ evs). Qed.

(** C17: A run that is not cancelled computes the sequential verification, whatever the order in
    which the two branches settle; when both fail, either error is reported. *)
Theorem verifyDomainUncached_schedule domain revalidate t evs out :
  forallb (fun ev => negb (disturbs ev)) evs = true ->
  verifyDomainUncached domain revalidate t evs = Ended out ->
  match verify_alone domain revalidate t with
  | Ok v => out = Ok v
  | Throw e =>
      out = Throw e
      \/ exists d e', run_alone (discover domain revalidate (at_lookup t)) = Ok d
           /\ run_alone (fetchActiveStatus (TxtRecord.su (di_record d)) revalidate) = Throw e' /\ out = Throw e'
  end.
Proof.
  intros Hcalm E. pose proof (verification_run_inv domain revalidate t evs) as H. rewrite Hcalm, E in H.
  destruct out as [v|e]; [cbn in H; by rewrite H|]. unfold verify_alone.
  destruct (H eq_refl) as [Hm|(d & Hd & Hc & _)]; [rewrite Hm; by left|]. rewrite Hd. cbn [mbind res_bind].
  destruct Hc as [Hl|[Hr|(x & Hx & Hcc)]].
  - rewrite Hl. by left.
  - destruct (run_alone (verifyIdentityEvidence _ _ _ _)) as [ev|e1]; cbn [mbind res_bind]; [|right; by exists d, e].
    rewrite Hr. by left.
  - unfold outcome_of in Hx. destruct (run_alone (verifyIdentityEvidence _ _ _ _)) as [ev|e1];
      destruct (run_alone (fetchActiveStatus _ _)) as [st|e2]; cbn [mbind res_bind]; try done.
    + injection Hx as ->. rewrite Hcc. by left.
    + destruct (_ && _); [done|]. by destruct Hx.
Qed.

(** C26: A revoked identity whose key endpoint refuses is reported as not active, whichever of
    the two answers comes first. *)
Theorem verifyDomainUncached_tombstone domain revalidate t evs d e1 e2 out :
  forallb (fun ev => negb (disturbs ev)) evs = true ->
  run_alone (discover domain revalidate (at_lookup t)) = Ok d ->
  run_alone (verifyIdentityEvidence (at_key_age t) domain d revalidate) = Throw e1 -> has_code HTTPError e1 = true ->
  run_alone (fetchActiveStatus (TxtRecord.su (di_record d)) revalidate) = Throw e2 -> has_code StatusNotActive e2 = true ->
  verifyDomainUncached domain revalidate t evs = Ended out -> out = Throw e2.
Proof.
  intros Hcalm Hd H1 C1 H2 C2 E. pose proof (verification_run_inv domain revalidate t evs) as H. rewrite Hcalm, E in H.
  destruct out as [v|e].
  - cbn in H. unfold verify_alone in H. rewrite Hd in H. cbn [mbind res_bind] in H. by rewrite H1 in H.
  - destruct (H eq_refl) as [Hm|(d' & Hd' & _ & Ht)]; [congruence|]. assert (d' = d) as -> by congruence.
    by rewrite (Ht _ H1 C1 _ H2 C2).
Qed.

(** Every verification ends: two awaits of the discovery, four of one branch, one of the
    other; and no verification whose signal has fired succeeds. *)
Theorem verifyDomainUncached_ends domain revalidate t :
  exists out, verifyDomainUncached domain revalidate t settled_schedule = Ended out
  /\ match verify_alone domain revalidate t with Ok v => out = Ok v | Throw _ => is_ok out = false end.
Proof.
  destruct (settled_schedule_ends domain revalidate t) as [out E]. exists out. split; [done|].
  pose proof (verification_run_inv domain revalidate t settled_schedule) as H. rewrite E in H.
  change (forallb _ settled_schedule) with true in H. destruct out as [v|e]; [cbn in H; by rewrite H|].
  destruct (verify_alone domain revalidate t) as [v|e'] eqn:Ev; [|done]. exfalso.
  unfold verify_alone in Ev. apply bind_Ok in Ev as (d & Hd & Ev). apply bind_Ok in Ev as (ev & Hl & Ev).
  apply bind_Ok in Ev as (st & Hr & Ev).
  destruct (H eq_refl) as [Hm|(d' & Hd' & Hc & _)]; [congruence|]. assert (d' = d) as -> by congruence.
  rewrite Hl, Hr in Hc. destruct Hc as [?|[?|(x & Hx & Hcc)]]; [done|done|]. injection Hx as ->. congruence.
Qed.

(** Without a resolver the error thrown as permanent is reported as transient: the handler
    around the lookup replaces it. *)
Lemma no_resolver_is_transient domain revalidate t0 : dp_dnsResolver deps = None ->
  run_alone (discover domain revalidate t0)
  = Throw (newVerificationError "DNS lookup failed" DNSResolution None true).
Proof. intros H. unfold discover, dns_lookup. by rewrite H. Qed.

End Verify.

(** ** Witnesses *)

Section Example.
#[local] Existing Instances SimpleUrl AsciiUnicode ToyJwk.

Definition example_date (v : json) : date := match v with JNumber (NInt z) => Some z | _ => None end.
Definition key_document (k : jwk) : FetchResult :=
  mkFetchResult (JObject [(js "keys", JArray [JObject k])]) (mkTLSCertificate (Some 9000000) [js "example.com"]).
Definition status_document (state : string) : FetchResult :=
  mkFetchResult (JObject [(js "state", JString (js state)); (js "lastTransitionAt", JNumber (NInt 5));
                          (js "revocationReason", JString (js "keyCompromise"))])
    (mkTLSCertificate (Some 9000000) [js "example.com"]).
Definition http_error : exn := newVerificationError "HTTP 410" HTTPError None false.

(** Documents by address; an answer of the operational keys and of the status. *)
Definition example_fetch (operational status : res FetchResult) (url : jsstr) (opts : JsonFetchOptions) : res FetchResult :=
  if bool_decide (url = js "https://keys.example.com/ek") then Ok (key_document example_entity)
  else if bool_decide (url = js "https://bot.example.com/ku") then operational
  else status.
Definition example_text : jsstr :=
  js "v=dnsid-draft-01;gi=example.com;ek=https://keys.example.com/ek;ku=https://bot.example.com/ku;lr=c2sp-tlog:log;su=https://example.com/su;ka=24h;sg="
  ++ x_of "EE".
Definition example_reader : LogReader :=
  mkLogReader (fun _ _ => Ok (Some 100)) (fun _ _ _ => Ok (mkBinding (x_of "OO") (x_of "EE") (Some 100)))
    (fun _ initial current => throw_if (negb (bool_decide (initial = current))) (C2spTlogVerificationError "continuity"))
    (fun _ => Ok []).
Definition example_dependencies (operational status : res FetchResult) : Dependencies :=
  mkDependencies (Some (fun _ => Ok ([mkTXTRecord (JArray [JString example_text]) (Some 300)], js "VALID")))
    (Some (example_fetch operational status)) (Some {[js "c2sp-tlog" := fun _ _ => Ok example_reader]})
    (mkVerificationConfig None (Some required) None).
Definition honest_dependencies : Dependencies :=
  example_dependencies (Ok (key_document example_operational)) (Ok (status_document "ACTIVE")).
Definition revoked_dependencies : Dependencies :=
  example_dependencies (Throw http_error) (Ok (status_document "REVOKED")).
Definition example_clock : clock := mkClock 1000 1100 1200 1200.
Definition bot : jsstr := js "bot.example.com".

Notation verify_example deps evs := (verifyDomainUncached example_date deps bot false example_clock evs).

(** The status settles before the keys. *)
Definition status_first : list run_event :=
  [Settles; Settles; Proceeds] ++ map OnBranches (RightSettles :: replicate 4 LeftSettles) ++ [Proceeds].
Definition cancelled_run : list run_event :=
  [Settles; Settles; Proceeds; OnBranches RightSettles; OnBranches LeftCancelled; Proceeds].

Lemma honest_run : match verify_example honest_dependencies status_first with
  | Ended (Ok v) => bool_decide (vi_signingKeyThumbprint v = x_of "EE") && bool_decide (vi_dnsExpiresAt v = Some 301000)
  | _ => false
  end = true.
Proof. vm_compute. reflexivity. Qed.

Lemma honest_result : exists v, verify_example honest_dependencies status_first = Ended (Ok v)
  /\ vi_signingKeyThumbprint v = x_of "EE".
Proof.
  pose proof honest_run as H. destruct (verify_example honest_dependencies status_first) as [|?|[v|]]; try done.
  exists v. split; [done|]. by bool_inv.
Qed.

Lemma verifyDomainUncached_sound_witness : exists v, verified example_date honest_dependencies bot false example_clock v
  /\ vi_signingKeyThumbprint v = x_of "EE".
Proof.
  destruct honest_result as (v & E & Ht). exists v. split; [|exact Ht].
  exact (verifyDomainUncached_sound _ _ _ _ _ _ _ E).
Defined.

Lemma verifyDomainUncached_schedule_witness : exists v,
  verify_alone example_date honest_dependencies bot false example_clock = Ok v
  /\ verify_example honest_dependencies status_first = Ended (Ok v).
Proof.
  destruct honest_result as (v & E & _). exists v. split; [|exact E].
  pose proof (verifyDomainUncached_schedule example_date honest_dependencies bot false example_clock status_first (Ok v)
    eq_refl E) as H.
  destruct (verify_alone _ _ _ _ _) as [v'|e]; [injection H as <-; reflexivity|].
  destruct H as [H|(d & e' & _ & _ & H)]; discriminate H.
Defined.

Notation revoked_discovery := (run_alone (discover revoked_dependencies bot false 1000)).
Notation revoked_keys d := (run_alone (verifyIdentityEvidence revoked_dependencies 1100 bot d false)).
Notation revoked_status d :=
  (run_alone (fetchActiveStatus example_date revoked_dependencies (TxtRecord.su (di_record d)) false)).

Definition fail_with {A B} (c1 c2 : VerificationCode) (l : res A) (r : res B) : bool :=
  match l, r with Throw e1, Throw e2 => has_code c1 e1 && has_code c2 e2 | _, _ => false end.
Lemma fail_with_spec {A B} c1 c2 (l : res A) (r : res B) : fail_with c1 c2 l r = true ->
  exists e1 e2, l = Throw e1 /\ has_code c1 e1 = true /\ r = Throw e2 /\ has_code c2 e2 = true.
Proof. destruct l as [|e1], r as [|e2]; try done. intros [? ?]%andb_true_iff. by exists e1, e2. Qed.

Lemma revoked_facts :
  match revoked_discovery with
  | Ok d =>
      fail_with HTTPError StatusNotActive (revoked_keys d) (revoked_status d)
      && match verify_example revoked_dependencies cancelled_run with Ended _ => true | _ => false end
  | Throw _ => false
  end = true.
Proof. vm_compute. reflexivity. Qed.

Lemma revoked_errors : exists d e1 e2 out, revoked_discovery = Ok d
  /\ revoked_keys d = Throw e1 /\ has_code HTTPError e1 = true
  /\ revoked_status d = Throw e2 /\ has_code StatusNotActive e2 = true
  /\ verify_example revoked_dependencies cancelled_run = Ended out.
Proof.
  pose proof revoked_facts as H. destruct revoked_discovery as [d|]; [|done].
  apply andb_true_iff in H as [H H']. apply fail_with_spec in H as (e1 & e2 & E1 & C1 & E2 & C2).
  destruct (verify_example revoked_dependencies cancelled_run) as [| |out]; try done. by exists d, e1, e2, out.
Qed.

Lemma verifyDomainUncached_tombstone_witness : exists e,
  verify_example revoked_dependencies cancelled_run = Ended (Throw e) /\ has_code StatusNotActive e = true.
Proof.
  destruct revoked_errors as (d & e1 & e2 & out & Hd & H1 & C1 & H2 & C2 & E).
  exists e2. split; [|exact C2]. rewrite E. f_equal.
  exact (verifyDomainUncached_tombstone example_date revoked_dependencies bot false example_clock cancelled_run
    d e1 e2 out eq_refl Hd H1 C1 H2 C2 E).
Defined.
End Example.
