(* ===== verification/SharedVerification.v ===== *)
(** Shared verifications: the cache and the coalescing of concurrent calls of
    [IdentityManager], of [protocol/src/identity-manager.ts].

    Concurrent calls for one domain share one operation, whose promise runs its callbacks
    one after the other; between any two steps other calls may run.  The state of a manager
    is the cache, the three maps of operations in flight, all operations started and all
    calls made; a run is an explicit list of events, so that the theorems cover every
    interleaving.  Operations and calls are identified by their position in these lists. *)

From S2P Require Import Prelude JsString Url Utils TxtRecord Json Jwk EventCodec Lifecycle StreamVerifier.
From S2P Require Import Budget AgentStatus IdentityCache LogRegistry FanOut Verification.

(** ** The cache, as an interface

    [ic_content] is what the cache may return; the laws are those of the documentation of the
    interface: a result is the one put, a background eviction only removes. *)
Class IdentityCacheApi := {
  ic_state : Type;
  ic_background : Type;
  ic_get : Z -> jsstr -> ic_state -> option VerifiedIdentity * ic_state;
  ic_put : Z -> jsstr -> VerifiedIdentity -> ic_state -> res unit * ic_state;
  ic_evict : jsstr -> ic_state -> ic_state;
  ic_expire : ic_background -> ic_state -> ic_state;
  ic_content : ic_state -> jsstr -> option VerifiedIdentity;
  ic_get_result now d c v : fst (ic_get now d c) = Some v -> ic_content c d = Some v;
  ic_get_content now d c d' v : ic_content (snd (ic_get now d c)) d' = Some v -> ic_content c d' = Some v;
  ic_put_content now d v c d' v' : ic_content (snd (ic_put now d v c)) d' = Some v' ->
    (d' = d /\ v' = v) \/ ic_content c d' = Some v';
  ic_evict_content d c d' v : ic_content (ic_evict d c) d' = Some v -> d' <> d /\ ic_content c d' = Some v;
  ic_expire_content b c d v : ic_content (ic_expire b c) d = Some v -> ic_content c d = Some v
}.

(** [InMemoryIdentityCache] implements it; its background events are its timers. *)
Definition content (c : cache (V := VerifiedIdentity)) (d : jsstr) : option VerifiedIdentity :=
  ce_result <$> store c !! d.

Lemma delete_entry_content d (c : cache (V := VerifiedIdentity)) d' v : content (delete_entry d c) d' = Some v ->
  d' <> d /\ content c d' = Some v.
Proof.
  unfold content. cbn. destruct (decide (d = d')) as [<-|Hn]; [by rewrite lookup_delete_eq|].
  by rewrite lookup_delete_ne.
Qed.

Lemma evict_content d c d' v : content (cache_evict d c) d' = Some v -> d' <> d /\ content c d' = Some v.
Proof.
  unfold cache_evict. destruct (store c !! d) eqn:E; [intros H; by apply delete_entry_content in H|].
  intros H. split; [|done]. intros ->. unfold content in H. by rewrite E in H.
Qed.

#[export] Program Instance InMemoryIdentityCache : IdentityCacheApi := {|
  ic_state := cache;
  ic_background := Z * nat;
  ic_get := cache_get;
  ic_put := cache_put as_VerifiedDomain;
  ic_evict := cache_evict;
  ic_expire := fun b => fire (fst b) (snd b);
  ic_content := content
|}.
Next Obligation.
  intros now d c v. unfold cache_get, content. destruct (store c !! d) as [entry|]; [|done].
  by destruct (date_ge _ _); cbn; [|intros [= <-]].
Qed.
Next Obligation.
  intros now d c d' v. unfold cache_get. destruct (store c !! d) as [entry|]; [|done].
  destruct (date_ge _ _); [|done]. by intros [_ ?]%delete_entry_content.
Qed.
Next Obligation.
  intros now d v c d' v'. unfold cache_put. destruct (expiry _) as [e|]; [|by right].
  destruct (negb _); cbn [snd]; [intros [_ ?]%evict_content; by right|].
  unfold content at 1. cbn [store]. destruct (decide (d = d')) as [<-|Hn].
  - rewrite lookup_insert_eq. intros [= <-]. by left.
  - rewrite lookup_insert_ne by done. intros H. right. by apply (evict_content d c d' v').
Qed.
Next Obligation. intros d c d' v. apply evict_content. Qed.
Next Obligation.
  intros [now timer] c d v. unfold fire. cbn. destruct (timers c !! timer) as [[d' due]|]; [|done].
  destruct (due <=? now); [|done]. intros [_ H]%delete_entry_content. done.
Qed.

(** ** The state of a manager *)

Inductive kind := Verifications | StatusRefreshes | Refreshes.
#[export] Instance kind_eq_dec : EqDecision kind.
Proof. solve_decision. Defined.

(** The promise of a shared operation: the operation and its budget, then the callbacks of
    [then], [catch] and [finally]; the last one sets [finished]. *)
Inductive promise :=
  | Running
  | AfterThen (r : res VerifiedIdentity)
  | AfterCatch (r : res VerifiedIdentity)
  | Finished (r : res VerifiedIdentity).

Record SharedVerification := mkShared {
  sh_kind : kind;
  sh_domain : jsstr;
  sh_cached : option VerifiedIdentity;
  sh_callers : nat;
  sh_aborted : bool;
  sh_promise : promise
}.
Definition finished (s : SharedVerification) : bool :=
  match sh_promise s with Finished _ => true | _ => false end.
Definition with_promise (p : promise) (s : SharedVerification) : SharedVerification :=
  mkShared (sh_kind s) (sh_domain s) (sh_cached s) (sh_callers s) (sh_aborted s) p.
Definition with_callers (n : nat) (s : SharedVerification) : SharedVerification :=
  mkShared (sh_kind s) (sh_domain s) (sh_cached s) n (sh_aborted s) (sh_promise s).
Definition with_abort (s : SharedVerification) : SharedVerification :=
  mkShared (sh_kind s) (sh_domain s) (sh_cached s) (sh_callers s) true (sh_promise s).

(** Where a call is: joined to an operation (that was there before, or not), running the
    verification itself, at its final checks, or returned. *)
Inductive progress :=
  | Joined (id : nat) (existing : bool)
  | Rerunning
  | Checking (v : VerifiedIdentity)
  | Returned (r : res VerifiedIdentity).

Record call := mkCall {
  ca_domain : jsstr;
  ca_peerCert : option TLSCertificate;
  ca_enforceAcceptance : bool;
  ca_refresh : bool;
  ca_progress : progress
}.
Definition with_progress (p : progress) (c : call) : call :=
  mkCall (ca_domain c) (ca_peerCert c) (ca_enforceAcceptance c) (ca_refresh c) p.

Section Manager.
Context `{Url : URLApi} `{Uni : Unicode} `{Cache : IdentityCacheApi}.
Context (config : VerificationConfig) (namespace : jsstr).

Record manager := mkManager {
  mg_cache : ic_state;
  mg_verifications : gmap jsstr nat;
  mg_statusRefreshes : gmap jsstr nat;
  mg_refreshes : gmap jsstr nat;
  mg_shared : list SharedVerification;
  mg_calls : list call
}.

Definition inflight (k : kind) (m : manager) : gmap jsstr nat :=
  match k with
  | Verifications => mg_verifications m
  | StatusRefreshes => mg_statusRefreshes m
  | Refreshes => mg_refreshes m
  end.
Definition set_inflight (k : kind) (f : gmap jsstr nat) (m : manager) : manager :=
  let '(mkManager c v s r sh ca) := m in
  match k with
  | Verifications => mkManager c f s r sh ca
  | StatusRefreshes => mkManager c v f r sh ca
  | Refreshes => mkManager c v s f sh ca
  end.
Definition set_cache (c : ic_state) (m : manager) : manager :=
  mkManager c (mg_verifications m) (mg_statusRefreshes m) (mg_refreshes m) (mg_shared m) (mg_calls m).
Definition set_shared (sh : list SharedVerification) (m : manager) : manager :=
  mkManager (mg_cache m) (mg_verifications m) (mg_statusRefreshes m) (mg_refreshes m) sh (mg_calls m).
Definition set_calls (ca : list call) (m : manager) : manager :=
  mkManager (mg_cache m) (mg_verifications m) (mg_statusRefreshes m) (mg_refreshes m) (mg_shared m) ca.
Definition forget (k : kind) (domain : jsstr) (m : manager) : manager :=
  set_inflight k (base.delete domain (inflight k m)) m.
Definition update_shared (id : nat) (f : SharedVerification -> SharedVerification) (m : manager) : manager :=
  set_shared (alter f id (mg_shared m)) m.
Definition update_call (cid : nat) (p : progress) (m : manager) : manager :=
  set_calls (alter (with_progress p) cid (mg_calls m)) m.

(** Every manager has keys of its own in a cache that it may share. *)
Definition cache_key (domain : jsstr) : jsstr := namespace ++ 58 :: domain.
Definition evict (domain : jsstr) (m : manager) : manager := set_cache (ic_evict (cache_key domain) (mg_cache m)) m.
Definition lookup_cache (now : Z) (domain : jsstr) (m : manager) : option VerifiedIdentity * manager :=
  let '(r, c) := ic_get now (cache_key domain) (mg_cache m) in (r, set_cache c m).

(** Whether the operation is the one in flight for its domain ([map.get(domain) === shared]). *)
Definition current (id : nat) (s : SharedVerification) (m : manager) : bool :=
  bool_decide (inflight (sh_kind s) m !! sh_domain s = Some id).

(** ** Starting and joining *)

(** Lookups and status checks that are older than a refresh are forgotten. *)
Definition forget_older (k : kind) (domain : jsstr) (m : manager) : manager :=
  match k with
  | Refreshes => forget StatusRefreshes domain (forget Verifications domain m)
  | _ => m
  end.

Definition startShared (k : kind) (domain : jsstr) (cached : option VerifiedIdentity) (m : manager) : nat * manager :=
  let m := forget_older k domain m in
  let id := length (mg_shared m) in
  let m := set_shared (mg_shared m ++ [mkShared k domain cached 0 false Running]) m in
  (id, set_inflight k (<[domain := id]> (inflight k m)) m).

Definition joinShared (id : nat) (m : manager) : manager :=
  update_shared id (fun s => with_callers (S (sh_callers s)) s) m.

(** The [finally] of [joinShared]: the last caller to leave aborts an unfinished operation. *)
Definition leaveShared (id : nat) (m : manager) : manager :=
  update_shared id (fun s =>
    let s := with_callers (pred (sh_callers s)) s in
    if (sh_callers s =? 0)%nat && negb (finished s) then with_abort s else s) m.

(** [existing ?? this.startShared(...)], joined. *)
Definition join_or_start (k : kind) (domain : jsstr) (cached : option VerifiedIdentity) (m : manager) : progress * manager :=
  match inflight k m !! domain with
  | Some id => (Joined id true, joinShared id m)
  | None => let '(id, m) := startShared k domain cached m in (Joined id false, joinShared id m)
  end.

Definition statusCheckIntervalMs : Z := default 0 (statusCheckInterval config) * 1000.

(** [verifyReusableIdentity] up to its first await. *)
Definition verifyReusableIdentity (now : Z) (domain : jsstr) (peerCert : option TLSCertificate)
    (refresh enforceAcceptance : bool) (m : manager) : progress * manager :=
  if refresh then join_or_start Refreshes domain None m
  else
    match lookup_cache now domain m with
    | (Some cached, m) =>
        match (if enforceAcceptance then verifyMtlsPeer (vi_record cached) domain peerCert else Ok tt) with
        | Throw e => (Returned (Throw e), m)
        | Ok _ =>
            if (0 <? statusCheckIntervalMs) && (now - vi_lastStatusCheckAt cached <? statusCheckIntervalMs)
            then (Checking cached, m)
            else join_or_start StatusRefreshes domain (Some cached) m
        end
    | (None, m) => join_or_start Verifications domain None m
    end.

(** [verifyDomainWithinBudget] up to its first await. *)
Definition verifyDomain (now : Z) (raw : jsstr) (peerCert : option TLSCertificate)
    (enforceAcceptance refresh : bool) (m : manager) : manager :=
  match normalizeFQDN raw false with
  | Throw _ =>
      set_calls (mg_calls m ++ [mkCall raw peerCert enforceAcceptance refresh
                                  (Returned (Throw (EArgument "domain is not a valid FQDN")))]) m
  | Ok domain =>
      let '(p, m) := verifyReusableIdentity now domain peerCert refresh enforceAcceptance m in
      set_calls (mg_calls m ++ [mkCall domain peerCert enforceAcceptance refresh p]) m
  end.

(** ** The callbacks of an operation *)

(** [then]: the operation in flight, unless aborted, stores its result. *)
Definition writes (id : nat) (s : SharedVerification) (m : manager) : bool :=
  negb (sh_aborted s) && current id s m.

Definition then_callback (id : nat) (now : Z) (r : res VerifiedIdentity) (m : manager) : manager :=
  match mg_shared m !! id with
  | Some s =>
      match sh_promise s, r with
      | Running, Ok v =>
          if writes id s m then
            let m := forget_older (sh_kind s) (sh_domain s) m in
            let '(stored, c) := ic_put now (cache_key (sh_domain s)) v (mg_cache m) in
            update_shared id (with_promise (AfterThen (stored;; Ok v))) (set_cache c m)
          else update_shared id (with_promise (AfterThen (Ok v))) m
      | Running, Throw e => update_shared id (with_promise (AfterThen (Throw e))) m
      | _, _ => m
      end
  | None => m
  end.

(** [catch]: an identity that is no longer active is evicted. *)
Definition catch_callback (id : nat) (m : manager) : manager :=
  match mg_shared m !! id with
  | Some s =>
      match sh_promise s with
      | AfterThen r =>
          let m := match r with
                   | Throw e => if current id s m && has_code StatusNotActive e then evict (sh_domain s) m else m
                   | Ok _ => m
                   end in
          update_shared id (with_promise (AfterCatch r)) m
      | _ => m
      end
  | None => m
  end.

(** [finally] *)
Definition finally_callback (id : nat) (m : manager) : manager :=
  match mg_shared m !! id with
  | Some s =>
      match sh_promise s with
      | AfterCatch r =>
          let m := update_shared id (with_promise (Finished r)) m in
          if current id s m then forget (sh_kind s) (sh_domain s) m else m
      | _ => m
      end
  | None => m
  end.

(** The end of [refreshStatus]: stale evidence evicts the entry it was made from; [same] is
    the comparison of the cached object with it. *)
Definition evict_if_same (now : Z) (domain : jsstr) (same : bool) (m : manager) : manager :=
  let '(r, m) := lookup_cache now domain m in
  match r with Some _ => if same then evict domain m else m | None => m end.

(** ** The rest of a call *)

(** A result without a time to live belongs to the call that started its operation. *)
Definition needs_rerun (s : SharedVerification) (existing : bool) (v : VerifiedIdentity) : bool :=
  existing && match sh_kind s with
              | Refreshes => vi_dnsTTL v =? 0
              | Verifications => negb (0 <? vi_dnsTTL v)
              | StatusRefreshes => false
              end.

Definition resume (cid : nat) (m : manager) : manager :=
  match mg_calls m !! cid with
  | Some c =>
      match ca_progress c with
      | Joined id existing =>
          match mg_shared m !! id with
          | Some s =>
              match sh_promise s with
              | Finished r =>
                  update_call cid
                    match r with
                    | Ok v => if needs_rerun s existing v then Rerunning else Checking v
                    | Throw e => Returned (Throw e)
                    end (leaveShared id m)
              | _ => m
              end
          | None => m
          end
      | _ => m
      end
  | None => m
  end.

(** The caller's signal or budget ends the call. *)
Definition cancel_call (cid : nat) (m : manager) : manager :=
  match mg_calls m !! cid with
  | Some c =>
      match ca_progress c with
      | Joined id _ => update_call cid (Returned (Throw cancellationError)) (leaveShared id m)
      | Rerunning | Checking _ => update_call cid (Returned (Throw cancellationError)) m
      | Returned _ => m
      end
  | None => m
  end.

Definition rerun_done (cid : nat) (r : res VerifiedIdentity) (m : manager) : manager :=
  match mg_calls m !! cid with
  | Some c =>
      match ca_progress c with
      | Rerunning => update_call cid match r with Ok v => Checking v | Throw e => Returned (Throw e) end m
      | _ => m
      end
  | None => m
  end.

(** The checks of every call on the result, shared or not. *)
Definition call_checks (c : call) (v : VerifiedIdentity) : res unit :=
  if ca_enforceAcceptance c
  then verifyMtlsPeer (vi_record v) (ca_domain c) (ca_peerCert c);; enforceCounterpartyAcceptance config v
  else Ok tt.

Definition finish (cid : nat) (now : Z) (same : bool) (m : manager) : manager :=
  match mg_calls m !! cid with
  | Some c =>
      match ca_progress c with
      | Checking v =>
          match call_checks c v with
          | Throw e => update_call cid (Returned (Throw e)) m
          | Ok _ =>
              match assertFresh now (as_VerifiedDomain v) with
              | Ok _ => update_call cid (Returned (Ok v)) m
              | Throw e => update_call cid (Returned (Throw e)) (evict_if_same now (vi_domain v) same m)
              end
          end
      | _ => m
      end
  | None => m
  end.

Definition evictDomain (raw : jsstr) (m : manager) : res unit * manager :=
  match normalizeFQDN raw false with
  | Throw _ => (Throw (EArgument "domain is not a valid FQDN"), m)
  | Ok domain =>
      (Ok tt, evict domain (forget StatusRefreshes domain (forget Verifications domain (forget Refreshes domain m))))
  end.

(** ** Runs *)

Inductive event :=
  | VerifyDomain (now : Z) (raw : jsstr) (peerCert : option TLSCertificate) (enforceAcceptance refresh : bool)
  | EvictDomain (raw : jsstr)
  | Then (id : nat) (now : Z) (r : res VerifiedIdentity)
  | Catch (id : nat)
  | Finally (id : nat)
  | StaleEvidence (id : nat) (now : Z) (same : bool)
  | Resume (cid : nat)
  | Cancel (cid : nat)
  | RerunDone (cid : nat) (r : res VerifiedIdentity)
  | Finish (cid : nat) (now : Z) (same : bool)
  | Background (b : ic_background).

Definition step (m : manager) (e : event) : manager :=
  match e with
  | VerifyDomain now raw peerCert enforceAcceptance refresh => verifyDomain now raw peerCert enforceAcceptance refresh m
  | EvictDomain raw => snd (evictDomain raw m)
  | Then id now r => then_callback id now r m
  | Catch id => catch_callback id m
  | Finally id => finally_callback id m
  | StaleEvidence id now same =>
      match mg_shared m !! id with
      | Some s => match sh_promise s with Running => evict_if_same now (sh_domain s) same m | _ => m end
      | None => m
      end
  | Resume cid => resume cid m
  | Cancel cid => cancel_call cid m
  | RerunDone cid r => rerun_done cid r m
  | Finish cid now same => finish cid now same m
  | Background b => set_cache (ic_expire b (mg_cache m)) m
  end.
Definition run (m : manager) (es : list event) : manager := foldl step m es.
Definition initial (c : ic_state) : manager := mkManager c ∅ ∅ ∅ [] [].

(** ** Lemmas: the parts of the state *)

Lemma alter_Some {A} (f : A -> A) i (l : list A) j x : alter f i l !! j = Some x ->
  (j = i /\ exists y, l !! i = Some y /\ x = f y) \/ (j <> i /\ l !! j = Some x).
Proof.
  destruct (decide (j = i)) as [->|Hn].
  - rewrite list_lookup_alter_eq. destruct (l !! i) as [y|] eqn:E; [|done]. intros [= <-]. left. eauto.
  - rewrite list_lookup_alter_ne by done. by right.
Qed.

Lemma snoc_Some {A} (l : list A) x j y : (l ++ [x]) !! j = Some y ->
  l !! j = Some y \/ (j = length l /\ y = x).
Proof.
  intros H. apply lookup_app_Some in H as [H|[Hl H]]; [by left|right].
  destruct (j - length l)%nat eqn:E; [|done]. injection H as <-. split; [lia|done].
Qed.

Lemma inflight_set k k' f m : inflight k (set_inflight k' f m) = if decide (k = k') then f else inflight k m.
Proof. by destruct m, k, k'. Qed.
Lemma inflight_set_cache k c m : inflight k (set_cache c m) = inflight k m.
Proof. by destruct k. Qed.
Lemma inflight_set_shared k l m : inflight k (set_shared l m) = inflight k m.
Proof. by destruct k. Qed.
Lemma inflight_set_calls k l m : inflight k (set_calls l m) = inflight k m.
Proof. by destruct k. Qed.
Lemma set_inflight_rest k f m : mg_cache (set_inflight k f m) = mg_cache m
  /\ mg_shared (set_inflight k f m) = mg_shared m /\ mg_calls (set_inflight k f m) = mg_calls m.
Proof. by destruct m, k. Qed.

Lemma inflight_forget k k' d d' m id : inflight k (forget k' d m) !! d' = Some id -> inflight k m !! d' = Some id.
Proof.
  unfold forget. rewrite inflight_set. destruct (decide (k = k')) as [<-|]; [|done].
  by intros [_ ?]%lookup_delete_Some.
Qed.

Lemma cache_key_inj d d' : cache_key d = cache_key d' -> d = d'.
Proof. unfold cache_key. intros H%(app_inv_head namespace). by injection H. Qed.

(** ** Lemmas: an invariant of the whole state from its parts

    [Good s] is what holds of each operation, [GoodC s c] of each call given the operations,
    [Kept d v] of each cached identity. *)

Definition named_by (m : manager) : Prop :=
  forall k d id, inflight k m !! d = Some id ->
    exists s, mg_shared m !! id = Some s /\ sh_kind s = k /\ sh_domain s = d.
Definition joined_ok (m : manager) : Prop :=
  forall cid c id ex, mg_calls m !! cid = Some c -> ca_progress c = Joined id ex ->
    exists s, mg_shared m !! id = Some s /\ sh_domain s = ca_domain c.

Section Invariant.
Context (Kept : jsstr -> VerifiedIdentity -> Prop).

Definition settled_ok (s : SharedVerification) : Prop :=
  match sh_promise s with
  | Running => True
  | AfterThen r | AfterCatch r | Finished r => forall v, r = Ok v -> Kept (sh_domain s) v
  end.
Definition shared_ok (s : SharedVerification) : Prop :=
  (forall v, sh_cached s = Some v -> Kept (sh_domain s) v) /\ settled_ok s.
Definition call_ok (c : call) : Prop :=
  match ca_progress c with
  | Checking v => Kept (ca_domain c) v
  | Returned (Ok v) => Kept (ca_domain c) v /\ call_checks c v = Ok tt
                       /\ exists now, assertFresh now (as_VerifiedDomain v) = Ok tt
  | _ => True
  end.

Record sound (m : manager) : Prop := {
  sd_cache : forall d v, ic_content (mg_cache m) (cache_key d) = Some v -> Kept d v;
  sd_shared : forall id s, mg_shared m !! id = Some s -> shared_ok s;
  sd_named : named_by m;
  sd_joined : joined_ok m;
  sd_calls : forall cid c, mg_calls m !! cid = Some c -> call_ok c
}.

Lemma sound_cache m c : sound m ->
  (forall d v, ic_content c (cache_key d) = Some v -> Kept d v) -> sound (set_cache c m).
Proof.
  intros [Hc Hs Hn Hj Hca] H. by split.
Qed.

Lemma sound_shrink m c : sound m -> (forall d v, ic_content c d = Some v -> ic_content (mg_cache m) d = Some v) ->
  sound (set_cache c m).
Proof. intros Hm H. apply sound_cache; [done|]. intros d v Hv. by apply (sd_cache m Hm), H. Qed.

Lemma sound_evict m d : sound m -> sound (evict d m).
Proof. intros H. apply sound_shrink; [done|]. intros d' v Hv. by apply ic_evict_content in Hv as [_ ?]. Qed.

Lemma sound_lookup m now d r m' : sound m -> lookup_cache now d m = (r, m') ->
  sound m' /\ mg_shared m' = mg_shared m /\ mg_calls m' = mg_calls m /\ forall v, r = Some v -> Kept d v.
Proof.
  unfold lookup_cache. intros Hm. destruct (ic_get now (cache_key d) (mg_cache m)) as [r' c] eqn:E. intros [= <- <-].
  split; [|split; [done|split; [done|]]].
  - apply sound_shrink; [done|]. intros d' v Hv. apply (ic_get_content now (cache_key d)). by rewrite E.
  - intros v ->. apply (sd_cache m Hm), (ic_get_result now). by rewrite E.
Qed.

Lemma sound_forget m k d : sound m -> sound (forget k d m).
Proof.
  intros [Hc Hs Hn Hj Hca]. unfold forget. destruct (set_inflight_rest k (base.delete d (inflight k m)) m) as (E1 & E2 & E3).
  split; rewrite ?E1, ?E2, ?E3; try done.
  - intros k' d' id H. rewrite E2. apply (Hn k' d' id). by apply (inflight_forget k' k d) in H.
  - intros cid c id ex. rewrite E2, E3. apply Hj.
Qed.

Lemma sound_update_shared m id f : sound m ->
  (forall s, mg_shared m !! id = Some s -> sh_kind (f s) = sh_kind s /\ sh_domain (f s) = sh_domain s /\ shared_ok (f s)) ->
  sound (update_shared id f m).
Proof.
  intros [Hc Hs Hn Hj Hca] Hf. assert (Hl : forall j s, mg_shared m !! j = Some s ->
    exists s', alter f id (mg_shared m) !! j = Some s' /\ sh_kind s' = sh_kind s /\ sh_domain s' = sh_domain s).
  { intros j s Hj'. destruct (decide (j = id)) as [->|Hne].
    - exists (f s). rewrite list_lookup_alter_eq, Hj'. split; [done|]. by destruct (Hf s Hj') as (? & ? & _).
    - exists s. by rewrite list_lookup_alter_ne. }
  split; cbn [update_shared set_shared mg_cache mg_shared mg_calls]; try done.
  - intros j s [(-> & s0 & H0 & ->)|[_ H]]%alter_Some; [|by eapply Hs]. by destruct (Hf s0 H0) as (_ & _ & ?).
  - intros k d j. unfold update_shared. rewrite inflight_set_shared. intros (s & Hj' & <- & <-)%Hn.
    destruct (Hl j s Hj') as (s' & ? & ? & ?). by exists s'.
  - intros cid c j ex H1 H2. destruct (Hj cid c j ex H1 H2) as (s & Hj' & <-).
    destruct (Hl j s Hj') as (s' & ? & ? & ?). by exists s'.
Qed.

Lemma sound_update_call m cid p : sound m ->
  (forall c, mg_calls m !! cid = Some c -> call_ok (with_progress p c)
     /\ forall id ex, p = Joined id ex -> exists s, mg_shared m !! id = Some s /\ sh_domain s = ca_domain c) ->
  sound (update_call cid p m).
Proof.
  intros [Hc Hs Hn Hj Hca] Hf. split; cbn [update_call set_calls mg_cache mg_shared mg_calls]; try done.
  - intros cid' c id ex [(-> & c0 & H0 & ->)|[_ H]]%alter_Some; [|by eapply Hj].
    intros E. by apply (proj2 (Hf c0 H0) id ex).
  - intros cid' c [(-> & c0 & H0 & ->)|[_ H]]%alter_Some; [by apply Hf|by eapply Hca].
Qed.

Lemma sound_add_call m c : sound m -> call_ok c ->
  (forall id ex, ca_progress c = Joined id ex -> exists s, mg_shared m !! id = Some s /\ sh_domain s = ca_domain c) ->
  sound (set_calls (mg_calls m ++ [c]) m).
Proof.
  intros [Hc Hs Hn Hj Hca] Hok Hjo. split; cbn [set_calls mg_cache mg_shared mg_calls]; try done.
  - intros cid c' id ex [H|[_ ->]]%snoc_Some; [by eapply Hj|apply Hjo].
  - intros cid c' [H|[_ ->]]%snoc_Some; [by eapply Hca|done].
Qed.

Lemma sound_forget_older m k d : sound m -> sound (forget_older k d m).
Proof. intros H. destruct k; [done|done|]. by do 2 apply sound_forget. Qed.

Lemma forget_older_rest k d m : mg_shared (forget_older k d m) = mg_shared m
  /\ mg_calls (forget_older k d m) = mg_calls m /\ mg_cache (forget_older k d m) = mg_cache m.
Proof. by destruct k, m. Qed.

Lemma sound_start m k d cached id m' : sound m -> (forall v, cached = Some v -> Kept d v) ->
  startShared k d cached m = (id, m') ->
  sound m' /\ mg_calls m' = mg_calls m
  /\ exists s, mg_shared m' !! id = Some s /\ sh_domain s = d.
Proof.
  intros Hm Hk. unfold startShared. set (m1 := forget_older k d m).
  assert (H1 : sound m1) by by apply sound_forget_older.
  assert (Ec : mg_calls m1 = mg_calls m) by apply forget_older_rest. clearbody m1.
  set (s0 := mkShared k d cached 0 false Running). set (m2 := set_shared (mg_shared m1 ++ [s0]) m1). cbv zeta.
  intros [<- <-]%pair_equal_spec. destruct (set_inflight_rest k (<[d := length (mg_shared m1)]> (inflight k m2)) m2) as (E1 & E2 & E3).
  assert (Hlast : mg_shared m2 !! length (mg_shared m1) = Some s0).
  { cbn. rewrite lookup_app_r, Nat.sub_diag by lia. done. }
  assert (Hold : forall j s, mg_shared m1 !! j = Some s -> mg_shared m2 !! j = Some s).
  { intros j s Hj. cbn. by apply lookup_app_l_Some. }
  destruct H1 as [Hc Hs Hn Hj Hca]. split; [|split; [by rewrite E3|exists s0; rewrite E2; done]].
  split; rewrite ?E1, ?E2, ?E3; cbn [m2 set_shared mg_cache mg_calls]; try done.
  - intros j s [H|[_ ->]]%snoc_Some; [by eapply Hs|]. split; [done|]. done.
  - intros k' d' j. rewrite E2, inflight_set. destruct (decide (k' = k)) as [->|Hne].
    + rewrite lookup_insert. destruct (decide (d = d')) as [<-|]; [intros [= <-]; by exists s0|].
      unfold m2. rewrite inflight_set_shared. intros (s & ? & ?)%Hn. exists s. split; [by apply Hold|done].
    + unfold m2. rewrite inflight_set_shared. intros (s & ? & ?)%Hn. exists s. split; [by apply Hold|done].
  - intros cid c j ex. rewrite E2, E3. intros H1 H2. destruct (Hj cid c j ex H1 H2) as (s & ? & ?).
    exists s. split; [by apply Hold|done].
Qed.

(** ** Lemmas: every step keeps the invariant *)

(** Changes of the callers and of the abort flag. *)
Lemma sound_recount m id f : sound m ->
  (forall s, exists n a, f s = mkShared (sh_kind s) (sh_domain s) (sh_cached s) n a (sh_promise s)) ->
  sound (update_shared id f m).
Proof.
  intros Hm Hf. apply sound_update_shared; [done|]. intros s Hs. destruct (Hf s) as (n & a & ->).
  split; [done|]. split; [done|]. exact (sd_shared m Hm id s Hs).
Qed.

Lemma sound_join m id : sound m -> sound (joinShared id m).
Proof. intros H. apply sound_recount; [done|]. intros s. by eexists _, _. Qed.

Lemma sound_leave m id : sound m -> sound (leaveShared id m).
Proof.
  intros H. apply sound_recount; [done|]. intros s. cbv zeta. destruct (_ && _); by eexists _, _.
Qed.

Lemma update_shared_lookup m id f s : mg_shared m !! id = Some s -> mg_shared (update_shared id f m) !! id = Some (f s).
Proof. intros H. cbn. by rewrite list_lookup_alter_eq, H. Qed.

Lemma sound_join_or_start m k d cached p m' : sound m -> (forall v, cached = Some v -> Kept d v) ->
  join_or_start k d cached m = (p, m') ->
  sound m' /\ mg_calls m' = mg_calls m
  /\ exists id ex s, p = Joined id ex /\ mg_shared m' !! id = Some s /\ sh_domain s = d.
Proof.
  intros Hm Hk. unfold join_or_start. destruct (inflight k m !! d) as [id|] eqn:E.
  - intros [<- <-]%pair_equal_spec. split; [by apply sound_join|split; [done|]].
    destruct (sd_named m Hm k d id E) as (s & Hs & _ & Hd). eexists id, true, _. split; [done|].
    split; [by apply update_shared_lookup|done].
  - destruct (startShared k d cached m) as [id m1] eqn:E1. intros [<- <-]%pair_equal_spec.
    destruct (sound_start m k d cached id m1 Hm Hk E1) as (H1 & Hc & s & Hs & Hd).
    split; [by apply sound_join|split; [done|]]. eexists id, false, _. split; [done|].
    split; [by apply update_shared_lookup|done].
Qed.

Definition progress_ok (m : manager) (d : jsstr) (p : progress) : Prop :=
  match p with
  | Joined id _ => exists s, mg_shared m !! id = Some s /\ sh_domain s = d
  | Checking v => Kept d v
  | Returned (Ok _) => False
  | _ => True
  end.

Lemma sound_reusable m now d cert refresh enforce p m' : sound m ->
  verifyReusableIdentity now d cert refresh enforce m = (p, m') ->
  sound m' /\ progress_ok m' d p.
Proof.
  intros Hm. unfold verifyReusableIdentity.
  assert (Hjoin : forall k cached m1 q m2, sound m1 -> (forall v, cached = Some v -> Kept d v) ->
    join_or_start k d cached m1 = (q, m2) -> sound m2 /\ progress_ok m2 d q).
  { intros k cached m1 q m2 H1 Hk E. destruct (sound_join_or_start _ _ _ _ _ _ H1 Hk E) as (? & _ & id & ex & s & -> & ? & ?).
    split; [done|]. by exists s. }
  destruct refresh; [by apply Hjoin|]. destruct (lookup_cache now d m) as [r m1] eqn:E1.
  destruct (sound_lookup m now d r m1 Hm E1) as (H1 & _ & _ & Hr). destruct r as [cached|]; [|by apply Hjoin].
  specialize (Hr cached eq_refl). destruct (if enforce then _ else _); [|intros [<- <-]%pair_equal_spec; done].
  destruct (_ && _); [intros [<- <-]%pair_equal_spec; done|]. apply Hjoin; [done|]. by intros v [= <-].
Qed.

Lemma sound_verifyDomain m now raw cert enforce refresh : sound m ->
  sound (verifyDomain now raw cert enforce refresh m).
Proof.
  intros Hm. unfold verifyDomain. destruct (normalizeFQDN raw false) as [d|e]; [|by apply sound_add_call].
  destruct (verifyReusableIdentity now d cert refresh enforce m) as [p m1] eqn:E.
  destruct (sound_reusable _ _ _ _ _ _ _ _ Hm E) as [H1 Hp]. apply sound_add_call; [done| |].
  - unfold call_ok. cbn. destruct p as [| | |[]]; done.
  - cbn. intros id ex ->. done.
Qed.

Lemma sound_promise m id s p : sound m -> mg_shared m !! id = Some s ->
  settled_ok (with_promise p s) -> sound (update_shared id (with_promise p) m).
Proof.
  intros Hm Hs Hp. apply sound_update_shared; [done|]. intros s' Hs'. assert (s' = s) as -> by congruence.
  split; [done|]. split; [done|]. split; [|done]. apply (sd_shared m Hm id s Hs).
Qed.

Lemma sound_then m id now r : sound m ->
  (forall v s, r = Ok v -> mg_shared m !! id = Some s -> shared_ok s -> Kept (sh_domain s) v) ->
  sound (then_callback id now r m).
Proof.
  intros Hm Hr. unfold then_callback. destruct (mg_shared m !! id) as [s|] eqn:Hs; [|done].
  destruct (sh_promise s) eqn:Ep; [|done..]. destruct r as [v|e].
  2: by eapply sound_promise.
  specialize (Hr v s eq_refl eq_refl (sd_shared m Hm id s Hs)).
  destruct (writes id s m). 2: { eapply sound_promise; [done|done|]. by intros v' [= <-]. }
  set (m1 := forget_older (sh_kind s) (sh_domain s) m). cbv zeta.
  assert (H1 : sound m1) by by apply sound_forget_older.
  assert (Hs1 : mg_shared m1 !! id = Some s) by (destruct (forget_older_rest (sh_kind s) (sh_domain s) m) as (E & _); by unfold m1; rewrite E).
  clearbody m1. destruct (ic_put now (cache_key (sh_domain s)) v (mg_cache m1)) as [stored c] eqn:Eput.
  eapply sound_promise; [|done|].
  - apply sound_cache; [done|]. intros d v' Hv'. change c with (snd (stored, c)) in Hv'. rewrite <-Eput in Hv'.
    apply ic_put_content in Hv' as [[Ed ->]|Hv']; [|by apply (sd_cache m1 H1)].
    apply cache_key_inj in Ed as ->. done.
  - intros v' Hv'. cbn in Hv'. apply bind_Ok in Hv' as (? & _ & [= <-]). done.
Qed.

Lemma sound_catch m id : sound m -> sound (catch_callback id m).
Proof.
  intros Hm. unfold catch_callback. destruct (mg_shared m !! id) as [s|] eqn:Hs; [|done].
  pose proof (sd_shared m Hm id s Hs) as [_ Hset]. unfold settled_ok in Hset.
  destruct (sh_promise s) as [|r| |]; try done.
  eapply sound_promise; [destruct r; [done|]; destruct (_ && _); [by apply sound_evict|done]| |exact Hset].
  destruct r; [done|]. by destruct (_ && _).
Qed.

Lemma sound_finally m id : sound m -> sound (finally_callback id m).
Proof.
  intros Hm. unfold finally_callback. destruct (mg_shared m !! id) as [s|] eqn:Hs; [|done].
  pose proof (sd_shared m Hm id s Hs) as [_ Hset]. unfold settled_ok in Hset.
  destruct (sh_promise s) as [| |r|]; try done. cbv zeta.
  assert (H1 : sound (update_shared id (with_promise (Finished r)) m)) by by eapply sound_promise.
  destruct (current _ _ _); [by apply sound_forget|done].
Qed.

Lemma sound_evict_if_same m now d same : sound m -> sound (evict_if_same now d same m)
  /\ mg_calls (evict_if_same now d same m) = mg_calls m /\ mg_shared (evict_if_same now d same m) = mg_shared m.
Proof.
  intros Hm. unfold evict_if_same. destruct (lookup_cache now d m) as [r m1] eqn:E.
  destruct (sound_lookup m now d r m1 Hm E) as (H1 & Es & Ec & _). destruct r; [|done].
  destruct same; [|done]. split; [by apply sound_evict|done].
Qed.

Lemma sound_resume m cid : sound m -> sound (resume cid m).
Proof.
  intros Hm. unfold resume. destruct (mg_calls m !! cid) as [c|] eqn:Hc; [|done].
  destruct (ca_progress c) as [id ex| | |] eqn:Ep; try done.
  destruct (mg_shared m !! id) as [s|] eqn:Hs; [|done]. destruct (sh_promise s) as [| | |r] eqn:Er; try done.
  apply sound_update_call; [by apply sound_leave|]. cbn. intros c' Hc'. assert (c' = c) as -> by congruence.
  pose proof (sd_shared m Hm id s Hs) as [_ Hset]. unfold settled_ok in Hset. rewrite Er in Hset.
  destruct (sd_joined m Hm cid c id ex Hc Ep) as (s' & Hs' & Hd). assert (s' = s) as -> by congruence.
  destruct r as [v|e]; [|done]. destruct (needs_rerun s ex v); [done|]. split; [|done].
  unfold call_ok. cbn. rewrite <-Hd. by apply Hset.
Qed.

Lemma sound_cancel m cid : sound m -> sound (cancel_call cid m).
Proof.
  intros Hm. unfold cancel_call. destruct (mg_calls m !! cid) as [c|]; [|done].
  destruct (ca_progress c) as [id ex| | |]; try done; apply sound_update_call; try done. by apply sound_leave.
Qed.

Lemma sound_rerun m cid r : sound m ->
  (forall v c, r = Ok v -> mg_calls m !! cid = Some c -> Kept (ca_domain c) v) -> sound (rerun_done cid r m).
Proof.
  intros Hm Hr. unfold rerun_done. destruct (mg_calls m !! cid) as [c|] eqn:Hc; [|done].
  destruct (ca_progress c); try done. apply sound_update_call; [done|]. intros c' Hc'.
  assert (c' = c) as -> by congruence. destruct r as [v|e]; [|done]. split; [exact (Hr v c eq_refl eq_refl)|done].
Qed.

Lemma sound_finish m cid now same : sound m -> sound (finish cid now same m).
Proof.
  intros Hm. unfold finish. destruct (mg_calls m !! cid) as [c|] eqn:Hc; [|done].
  pose proof (sd_calls m Hm cid c Hc) as Hok. unfold call_ok in Hok.
  destruct (ca_progress c) as [| |v|]; try done.
  destruct (call_checks c v) as [[]|e] eqn:Ek; [|by apply sound_update_call].
  destruct (assertFresh now (as_VerifiedDomain v)) as [[]|e] eqn:Ef.
  - apply sound_update_call; [done|]. intros c' Hc'. assert (c' = c) as -> by congruence.
    split; [|done]. split; [done|]. split; [done|by exists now].
  - destruct (sound_evict_if_same m now (vi_domain v) same Hm) as (H1 & H2 & _). by apply sound_update_call.
Qed.

Lemma sound_evictDomain m raw : sound m -> sound (snd (evictDomain raw m)).
Proof.
  intros Hm. unfold evictDomain. destruct (normalizeFQDN raw false); [|done].
  by apply sound_evict, sound_forget, sound_forget, sound_forget.
Qed.

(** The outcomes of operations and of reruns are what verification gives. *)
Definition honest (m : manager) (e : event) : Prop :=
  match e with
  | Then id _ (Ok v) => forall s, mg_shared m !! id = Some s -> shared_ok s -> Kept (sh_domain s) v
  | RerunDone cid (Ok v) => forall c, mg_calls m !! cid = Some c -> Kept (ca_domain c) v
  | _ => True
  end.

Lemma step_sound m e : sound m -> honest m e -> sound (step m e).
Proof.
  intros Hm He. destruct e; cbn [step].
  - by apply sound_verifyDomain.
  - by apply sound_evictDomain.
  - apply sound_then; [done|]. intros v s ->. by apply He.
  - by apply sound_catch.
  - by apply sound_finally.
  - destruct (mg_shared m !! id) as [s|]; [|done]. destruct (sh_promise s); try done. by apply sound_evict_if_same.
  - by apply sound_resume.
  - by apply sound_cancel.
  - apply sound_rerun; [done|]. intros v c ->. by apply He.
  - by apply sound_finish.
  - apply sound_shrink; [done|]. intros d v. apply ic_expire_content.
Qed.

Fixpoint honest_run (m : manager) (es : list event) : Prop :=
  match es with [] => True | e :: es => honest m e /\ honest_run (step m e) es end.

Lemma run_sound m es : sound m -> honest_run m es -> sound (run m es).
Proof. revert m; induction es as [|e es IH]; intros m Hm; [done|]. intros [He Hes]. by apply IH; [apply step_sound|]. Qed.

Lemma initial_sound c : (forall d v, ic_content c (cache_key d) = Some v -> Kept d v) -> sound (initial c).
Proof.
  intros Hc. split.
  - done.
  - done.
  - intros k d id H. assert (E : inflight k (initial c) = ∅) by by destruct k.
    rewrite E in H. by apply lookup_empty_Some in H.
  - done.
  - done.
Qed.

End Invariant.

(** ** Lemmas: what a step can change *)

Record extends (m m' : manager) : Prop := {
  ex_length : (length (mg_shared m) <= length (mg_shared m'))%nat;
  ex_shared : forall id s, mg_shared m !! id = Some s -> exists s', mg_shared m' !! id = Some s'
    /\ sh_kind s' = sh_kind s /\ sh_domain s' = sh_domain s /\ (sh_promise s <> Running -> sh_promise s' <> Running);
  ex_inflight : forall k d id, inflight k m' !! d = Some id ->
    inflight k m !! d = Some id \/ (length (mg_shared m) <= id)%nat
}.

#[local] Instance extends_preorder : PreOrder extends.
Proof.
  split.
  - intros m. split; [done|by eauto|by left].
  - intros m1 m2 m3 [L1 S1 I1] [L2 S2 I2]. split; [lia| |].
    + intros id s Hs. destruct (S1 id s Hs) as (s' & Hs' & K1 & D1 & P1).
      destruct (S2 id s' Hs') as (s'' & Hs'' & K2 & D2 & P2). exists s''. split; [done|].
      split; [congruence|]. split; [congruence|]. auto.
    + intros k d id H. destruct (I2 k d id H) as [H'|H']; [by apply I1|right; lia].
Qed.

Lemma extends_same m m' : mg_shared m' = mg_shared m ->
  (forall k d id, inflight k m' !! d = Some id -> inflight k m !! d = Some id) -> extends m m'.
Proof. intros E H. split; rewrite ?E; [done|by eauto|]. intros k d id Hi. left. by apply H. Qed.

Lemma extends_forget m k d : extends m (forget k d m).
Proof. apply extends_same; [apply set_inflight_rest|]. intros k' d' id. apply inflight_forget. Qed.

Lemma extends_update_shared m id f :
  (forall s, sh_kind (f s) = sh_kind s /\ sh_domain (f s) = sh_domain s /\ (sh_promise s <> Running -> sh_promise (f s) <> Running)) ->
  extends m (update_shared id f m).
Proof.
  intros Hf. split; cbn [update_shared set_shared mg_shared].
  - by rewrite length_alter.
  - intros j s Hj. destruct (decide (j = id)) as [->|Hne].
    + exists (f s). by rewrite list_lookup_alter_eq, Hj.
    + exists s. by rewrite list_lookup_alter_ne.
  - intros k d j. unfold update_shared. rewrite inflight_set_shared. by left.
Qed.

Lemma extends_promise m id p : p <> Running -> extends m (update_shared id (with_promise p) m).
Proof. intros Hp. by apply extends_update_shared. Qed.
Lemma extends_join m id : extends m (joinShared id m).
Proof. by apply extends_update_shared. Qed.
Lemma extends_leave m id : extends m (leaveShared id m).
Proof. apply extends_update_shared. intros s. cbv zeta. by destruct (_ && _). Qed.
Lemma extends_cache m c : extends m (set_cache c m).
Proof. by apply extends_same. Qed.
Lemma extends_calls m l : extends m (set_calls l m).
Proof. by apply extends_same. Qed.
Lemma extends_forget_older m k d : extends m (forget_older k d m).
Proof. destruct k; [done|done|]. etransitivity; apply extends_forget. Qed.

Lemma extends_start m k d cached : extends m (snd (startShared k d cached m)).
Proof.
  unfold startShared. cbn [snd]. etransitivity; [apply (extends_forget_older m k d)|].
  set (m1 := forget_older k d m). clearbody m1. set (s0 := mkShared k d cached 0 false Running).
  set (m2 := set_shared (mg_shared m1 ++ [s0]) m1).
  destruct (set_inflight_rest k (<[d := length (mg_shared m1)]> (inflight k m2)) m2) as (_ & E & _). split; rewrite ?E.
  - cbn. rewrite length_app. cbn. lia.
  - intros id s Hs. exists s. split; [|done]. by apply lookup_app_l_Some.
  - intros k' d' id. rewrite inflight_set. destruct (decide (k' = k)) as [->|]; [|by left].
    rewrite lookup_insert. destruct (decide (d = d')) as [<-|]; [intros [= <-]; by right|by left].
Qed.

Lemma extends_join_or_start m k d cached p m' : join_or_start k d cached m = (p, m') -> extends m m'.
Proof.
  unfold join_or_start. destruct (inflight k m !! d) as [id|].
  - intros [<- <-]%pair_equal_spec. apply extends_join.
  - pose proof (extends_start m k d cached) as H. destruct (startShared k d cached m) as [id m1].
    intros [<- <-]%pair_equal_spec. etransitivity; [exact H|apply extends_join].
Qed.

Lemma extends_lookup m now d r m' : lookup_cache now d m = (r, m') -> extends m m'.
Proof.
  unfold lookup_cache. destruct (ic_get now (cache_key d) (mg_cache m)) as [r' c].
  intros [<- <-]%pair_equal_spec. apply extends_cache.
Qed.

Lemma extends_verifyDomain m now raw cert enforce refresh : extends m (verifyDomain now raw cert enforce refresh m).
Proof.
  unfold verifyDomain. destruct (normalizeFQDN raw false) as [d|]; [|apply extends_calls].
  destruct (verifyReusableIdentity now d cert refresh enforce m) as [p m1] eqn:E.
  etransitivity; [|apply extends_calls]. unfold verifyReusableIdentity in E.
  destruct refresh; [by eapply extends_join_or_start|].
  destruct (lookup_cache now d m) as [r m2] eqn:E2. apply extends_lookup in E2. etransitivity; [exact E2|].
  destruct r as [cached|]; [|by eapply extends_join_or_start].
  destruct (if enforce then _ else _); [|by injection E as <- <-].
  destruct (_ && _); [by injection E as <- <-|]. by eapply extends_join_or_start.
Qed.

Lemma extends_evict_if_same m now d same : extends m (evict_if_same now d same m).
Proof.
  unfold evict_if_same. destruct (lookup_cache now d m) as [r m1] eqn:E. apply extends_lookup in E.
  etransitivity; [exact E|]. destruct r; [|done]. destruct same; [apply extends_cache|done].
Qed.

Lemma extends_then m id now r : extends m (then_callback id now r m).
Proof.
  unfold then_callback. destruct (mg_shared m !! id) as [s|]; [|done]. destruct (sh_promise s); try done.
  destruct r as [v|e]; [|by apply extends_promise]. destruct (writes id s m); [|by apply extends_promise].
  cbv zeta. destruct (ic_put _ _ _ _) as [stored c].
  etransitivity; [apply extends_forget_older|]. etransitivity; [apply extends_cache|]. by apply extends_promise.
Qed.

Lemma extends_step m e : extends m (step m e).
Proof.
  destruct e; cbn [step].
  - apply extends_verifyDomain.
  - unfold evictDomain. destruct (normalizeFQDN raw false); [|done]. cbn [snd].
    do 3 (etransitivity; [apply extends_forget|]). apply extends_cache.
  - apply extends_then.
  - unfold catch_callback. destruct (mg_shared m !! id) as [s|]; [|done]. destruct (sh_promise s) as [|r| |]; try done.
    etransitivity; [|by apply extends_promise]. destruct r; [done|]. destruct (_ && _); [apply extends_cache|done].
  - unfold finally_callback. destruct (mg_shared m !! id) as [s|]; [|done]. destruct (sh_promise s) as [| |r|]; try done.
    cbv zeta. transitivity (update_shared id (with_promise (Finished r)) m); [by apply extends_promise|].
    destruct (current _ _ _); [apply extends_forget|done].
  - destruct (mg_shared m !! id) as [s|]; [|done]. destruct (sh_promise s); try done. apply extends_evict_if_same.
  - unfold resume. destruct (mg_calls m !! cid) as [c|]; [|done]. destruct (ca_progress c) as [id ex| | |]; try done.
    destruct (mg_shared m !! id) as [s|]; [|done]. destruct (sh_promise s); try done.
    etransitivity; [apply extends_leave|apply extends_calls].
  - unfold cancel_call. destruct (mg_calls m !! cid) as [c|]; [|done].
    destruct (ca_progress c) as [id ex| | |]; try done; try apply extends_calls.
    etransitivity; [apply extends_leave|apply extends_calls].
  - unfold rerun_done. destruct (mg_calls m !! cid) as [c|]; [|done]. destruct (ca_progress c); try done. apply extends_calls.
  - unfold finish. destruct (mg_calls m !! cid) as [c|]; [|done]. destruct (ca_progress c) as [| |v|]; try done.
    destruct (call_checks c v); [|apply extends_calls]. destruct (assertFresh _ _); [apply extends_calls|].
    etransitivity; [apply extends_evict_if_same|apply extends_calls].
  - apply extends_cache.
Qed.

Lemma extends_run m es : extends m (run m es).
Proof. revert m; induction es as [|e es IH]; intros m; [done|]. etransitivity; [apply extends_step|apply IH]. Qed.

(** ** Lemmas: what may be stored

    [stores m e d id v]: in the state [m], the event [e] is the moment at which operation [id]
    puts [v] in the cache for [d]. *)

Definition stores (m : manager) (e : event) (d : jsstr) (id : nat) (v : VerifiedIdentity) : Prop :=
  exists s now, e = Then id now (Ok v) /\ mg_shared m !! id = Some s /\ sh_promise s = Running
    /\ writes id s m = true /\ sh_domain s = d.

(** Only these events bring something new into the cache. *)
Lemma content_evict d m d' v : ic_content (mg_cache (evict d m)) d' = Some v -> ic_content (mg_cache m) d' = Some v.
Proof. cbn. by intros [_ ?]%ic_evict_content. Qed.

Lemma content_lookup m now d r m' d' v : lookup_cache now d m = (r, m') ->
  ic_content (mg_cache m') d' = Some v -> ic_content (mg_cache m) d' = Some v.
Proof.
  unfold lookup_cache. destruct (ic_get now (cache_key d) (mg_cache m)) as [r' c] eqn:E.
  intros [<- <-]%pair_equal_spec. cbn. intros H. apply (ic_get_content now (cache_key d)). by rewrite E.
Qed.

Lemma content_forget k d m : mg_cache (forget k d m) = mg_cache m.
Proof. apply set_inflight_rest. Qed.

Lemma content_join_or_start k d cached m p m' : join_or_start k d cached m = (p, m') -> mg_cache m' = mg_cache m.
Proof.
  unfold join_or_start, startShared. destruct (inflight k m !! d); intros [<- <-]%pair_equal_spec; [done|].
  cbn. by destruct k, m.
Qed.

Lemma content_verifyDomain m now raw cert enforce refresh d v :
  ic_content (mg_cache (verifyDomain now raw cert enforce refresh m)) d = Some v ->
  ic_content (mg_cache m) d = Some v.
Proof.
  unfold verifyDomain. destruct (normalizeFQDN raw false) as [d0|]; [|done].
  destruct (verifyReusableIdentity now d0 cert refresh enforce m) as [p m1] eqn:E. cbn.
  unfold verifyReusableIdentity in E. destruct refresh; [by rewrite (content_join_or_start _ _ _ _ _ _ E)|].
  destruct (lookup_cache now d0 m) as [r m2] eqn:E2. intros H. apply (content_lookup _ _ _ _ _ _ _ E2).
  destruct r as [cached|]; [|by rewrite <-(content_join_or_start _ _ _ _ _ _ E)].
  destruct (if enforce then _ else _); [|by injection E as <- <-].
  destruct (_ && _); [by injection E as <- <-|]. by rewrite <-(content_join_or_start _ _ _ _ _ _ E).
Qed.

Lemma content_evict_if_same m now d same d' v : ic_content (mg_cache (evict_if_same now d same m)) d' = Some v ->
  ic_content (mg_cache m) d' = Some v.
Proof.
  unfold evict_if_same. destruct (lookup_cache now d m) as [r m1] eqn:E. intros H.
  apply (content_lookup _ _ _ _ _ _ _ E). destruct r; [|done]. destruct same; [by apply content_evict in H|done].
Qed.

Lemma content_step m e d v : ic_content (mg_cache (step m e)) (cache_key d) = Some v ->
  ic_content (mg_cache m) (cache_key d) = Some v \/ exists id, stores m e d id v.
Proof.
  destruct e; cbn [step].
  - left. by eapply content_verifyDomain.
  - unfold evictDomain. destruct (normalizeFQDN raw false) as [d0|]; [|by left]. cbn [snd]. intros H.
    left. apply content_evict in H. by rewrite !content_forget in H.
  - unfold then_callback. destruct (mg_shared m !! id) as [s|] eqn:Hs; [|by left].
    destruct (sh_promise s) eqn:Hp; try by left. destruct r as [v0|]; [|by left].
    destruct (writes id s m) eqn:Hw; [|by left]. cbv zeta.
    assert (Ec : mg_cache (forget_older (sh_kind s) (sh_domain s) m) = mg_cache m) by apply forget_older_rest.
    rewrite Ec. destruct (ic_put _ _ _ _) as [stored c] eqn:Eput. cbn. intros H.
    change c with (snd (stored, c)) in H. rewrite <-Eput in H. apply ic_put_content in H as [[Ed ->]|H]; [|by left].
    apply cache_key_inj in Ed. right. exists id, s, now. done.
  - unfold catch_callback. destruct (mg_shared m !! id) as [s|]; [|by left]. destruct (sh_promise s) as [|[|]| |]; try by left.
    cbn [update_shared set_shared mg_cache]. destruct (_ && _); [|by left]. intros H. left. by apply content_evict in H.
  - unfold finally_callback. destruct (mg_shared m !! id) as [s|]; [|by left]. destruct (sh_promise s) as [| |r|]; try by left.
    cbv zeta. destruct (current _ _ _); [rewrite content_forget|]; by left.
  - destruct (mg_shared m !! id) as [s|]; [|by left]. destruct (sh_promise s); try by left. left. by eapply content_evict_if_same.
  - unfold resume. destruct (mg_calls m !! cid) as [c|]; [|by left]. destruct (ca_progress c) as [id ex| | |]; try by left.
    destruct (mg_shared m !! id) as [s|]; [|by left]. destruct (sh_promise s); by left.
  - unfold cancel_call. destruct (mg_calls m !! cid) as [c|]; [|by left]. destruct (ca_progress c); by left.
  - unfold rerun_done. destruct (mg_calls m !! cid) as [c|]; [|by left]. destruct (ca_progress c); by left.
  - unfold finish. destruct (mg_calls m !! cid) as [c|]; [|by left]. destruct (ca_progress c) as [| |v0|]; try by left.
    destruct (call_checks c v0); [|by left]. destruct (assertFresh _ _); [by left|]. cbn. intros H. left.
    by eapply content_evict_if_same.
  - intros H. left. by apply ic_expire_content in H.
Qed.

(** What is in the cache at the end of a run was there at its start, or one event stored it. *)
Lemma content_run m es d v : ic_content (mg_cache (run m es)) (cache_key d) = Some v ->
  ic_content (mg_cache m) (cache_key d) = Some v
  \/ exists pre e post id, es = pre ++ e :: post /\ stores (run m pre) e d id v.
Proof.
  induction es as [|e es IH] using rev_ind; [by left|]. unfold run. rewrite foldl_app. cbn [foldl]. fold (run m es).
  intros [H|[id H]]%content_step; [|right; by exists es, e, [], id].
  destruct (IH H) as [?|(pre & e' & post & id & -> & Hs)]; [by left|]. right. exists pre, e', (post ++ [e]), id.
  by rewrite <-app_assoc.
Qed.

(** ** Lemmas: no operation older than [n] can store for [d] *)

Definition barrier (n : nat) (d : jsstr) (m : manager) : Prop :=
  (n <= length (mg_shared m))%nat
  /\ forall k id, inflight k m !! d = Some id ->
       (n <= id)%nat \/ exists s, mg_shared m !! id = Some s /\ sh_promise s <> Running.

Lemma barrier_extends n d m m' : extends m m' -> barrier n d m -> barrier n d m'.
Proof.
  intros [Hl Hs Hi] [Hn Hb]. split; [lia|]. intros k id H. destruct (Hi k d id H) as [H'|H']; [|left; lia].
  destruct (Hb k id H') as [?|(s & Hs' & Hp)]; [by left|]. right. destruct (Hs id s Hs') as (s' & ? & _ & _ & ?). eauto.
Qed.

Lemma barrier_stores n d m e id v : barrier n d m -> stores m e d id v -> (n <= id)%nat.
Proof.
  intros [_ Hb] (s & now & _ & Hs & Hp & Hw & Hd). unfold writes, current in Hw.
  apply andb_true_iff in Hw as [_ Hc]. apply bool_decide_eq_true in Hc. rewrite Hd in Hc.
  destruct (Hb _ _ Hc) as [?|(s' & Hs' & Hp')]; [done|]. congruence.
Qed.

(** The events that make everything older obsolete for [d]: an eviction, the start of a
    refresh, and the result of a refresh. *)
Inductive supersedes (m : manager) (d : jsstr) : event -> Prop :=
  | sup_evict raw : normalizeFQDN raw false = Ok d -> supersedes m d (EvictDomain raw)
  | sup_start now raw cert enforce : normalizeFQDN raw false = Ok d -> mg_refreshes m !! d = None ->
      supersedes m d (VerifyDomain now raw cert enforce true)
  | sup_result id now v s : stores m (Then id now (Ok v)) d id v -> mg_shared m !! id = Some s ->
      sh_kind s = Refreshes -> supersedes m d (Then id now (Ok v)).

Lemma lookup_forget k k' d m : inflight k (forget k' d m) !! d
  = if decide (k = k') then None else inflight k m !! d.
Proof.
  unfold forget. rewrite inflight_set. destruct (decide (k = k')) as [<-|]; [apply lookup_delete_eq|done].
Qed.

Lemma barrier_superseded m d e : supersedes m d e -> barrier (length (mg_shared m)) d (step m e).
Proof.
  intros H. split; [apply (ex_length _ _ (extends_step m e))|].
  destruct H as [raw Hd|now raw cert enforce Hd Hnone|id now v s (s' & now' & _ & Hs & Hp & Hw & Hd) Hs' Hk]; cbn [step].
  - unfold evictDomain. rewrite Hd. cbn [snd]. intros k id Hi. change (inflight k (evict d ?m)) with (inflight k m) in Hi.
    rewrite !lookup_forget in Hi. by destruct k; cbn in Hi.
  - unfold verifyDomain. rewrite Hd. unfold verifyReusableIdentity, join_or_start.
    change (inflight Refreshes m) with (mg_refreshes m). rewrite Hnone. unfold startShared.
    intros k id. rewrite inflight_set_calls. unfold joinShared, update_shared. rewrite inflight_set_shared, inflight_set.
    destruct (forget_older_rest Refreshes d m) as (E & _).
    destruct (decide (k = Refreshes)) as [->|Hne].
    + rewrite lookup_insert_eq. intros <-%(inj Some). left. by rewrite E.
    + rewrite inflight_set_shared. cbn [forget_older]. rewrite !lookup_forget. by destruct k; cbn.
  - assert (s' = s) as -> by congruence. unfold then_callback. rewrite Hs, Hp, Hw, Hk, Hd. cbv zeta.
    destruct (ic_put _ _ _ _) as [stored c]. intros k j. unfold update_shared. rewrite inflight_set_shared, inflight_set_cache.
    cbn [forget_older]. rewrite !lookup_forget. destruct k; cbn; try done. intros Hj. right.
    unfold writes, current in Hw. apply andb_true_iff in Hw as [_ Hc]. apply bool_decide_eq_true in Hc.
    rewrite Hk, Hd in Hc. change (mg_refreshes m !! d = Some id) in Hc. change (mg_refreshes m !! d = Some j) in Hj.
    assert (j = id) as -> by congruence. exists (with_promise (AfterThen (stored;; Ok v)) s). split; [|done].
    destruct (forget_older_rest Refreshes d m) as (E & _). cbn [forget_older] in E. cbn [set_shared set_cache mg_shared].
    by rewrite E, list_lookup_alter_eq, Hs.
Qed.

(** ** Lemmas: callers are counted, and only the last one to leave aborts *)

Definition joined_to (id : nat) (c : call) : bool :=
  match ca_progress c with Joined id' _ => (id' =? id)%nat | _ => false end.
Definition callers (m : manager) : list nat := sh_callers <$> mg_shared m.
Definition aborts (m : manager) : list bool := sh_aborted <$> mg_shared m.
Definition joins (id : nat) (m : manager) : nat := count (joined_to id) (mg_calls m).
Definition counted (m : manager) : Prop := forall id n, callers m !! id = Some n -> n = joins id m.

Lemma count_snoc {A} (f : A -> bool) l x : count f (l ++ [x]) = (count f l + Nat.b2n (f x))%nat.
Proof.
  unfold count. induction l as [|y l IH]; cbn; [by destruct (f x)|]. destruct (f y); cbn; [by rewrite IH|done].
Qed.

Lemma count_alter {A} (f : A -> bool) g l i x : l !! i = Some x ->
  (count f (alter g i l) + Nat.b2n (f x) = count f l + Nat.b2n (f (g x)))%nat.
Proof.
  intros H. rewrite <-(count_insert f l i x (g x) H). f_equal. f_equal. apply list_eq. intros j.
  destruct (decide (j = i)) as [->|Hn].
  - rewrite list_lookup_alter_eq, list_lookup_insert_eq by (by eapply lookup_lt_Some). by rewrite H.
  - by rewrite list_lookup_alter_ne, list_lookup_insert_ne.
Qed.

Lemma alter_id_fmap {A B} (f : A -> B) g i (l : list A) : (forall x, f (g x) = f x) -> f <$> alter g i l = f <$> l.
Proof.
  intros H. apply list_eq. intros j. rewrite !list_lookup_fmap. destruct (decide (j = i)) as [->|Hn].
  - rewrite list_lookup_alter_eq. by destruct (l !! i); cbn; rewrite ?H.
  - by rewrite list_lookup_alter_ne.
Qed.

Lemma alter_fmap_comm {A B} (f : A -> B) g h i (l : list A) : (forall x, f (g x) = h (f x)) ->
  f <$> alter g i l = alter h i (f <$> l).
Proof.
  intros H. apply list_eq. intros j. rewrite list_lookup_fmap. destruct (decide (j = i)) as [->|Hn].
  - rewrite !list_lookup_alter_eq, list_lookup_fmap. by destruct (l !! i); cbn; rewrite ?H.
  - by rewrite !list_lookup_alter_ne, list_lookup_fmap.
Qed.

(** The effect of a step on callers, aborts and calls. *)
Inductive effect (m m' : manager) : Prop :=
  | effect_none : callers m' = callers m -> aborts m' = aborts m -> (forall j, joins j m' = joins j m) -> effect m m'
  | effect_join id k : callers m' = alter S id (callers m ++ replicate k 0%nat) ->
      aborts m' = aborts m ++ replicate k false ->
      (forall j, joins j m' = joins j m + Nat.b2n (id =? j)%nat)%nat -> effect m m'
  | effect_leave id : (id < length (callers m))%nat -> callers m' = alter pred id (callers m) ->
      (forall j, joins j m' + Nat.b2n (id =? j)%nat = joins j m)%nat ->
      (forall j, aborts m' !! j = Some true -> aborts m !! j = Some true \/ callers m' !! j = Some 0%nat) -> effect m m'.

Lemma effect_counted m m' : (forall id, (length (callers m) <= id)%nat -> joins id m = 0%nat) ->
  effect m m' -> counted m -> counted m'.
Proof.
  intros Hv He Hc id n. destruct He as [E _ Hj|i k E _ Hj|i Hi E Hj _]; rewrite E.
  - rewrite Hj. apply Hc.
  - rewrite Hj. intros [(-> & x & Hx & ->)|[Hne H]]%alter_Some.
    + rewrite Nat.eqb_refl. apply lookup_app_Some in Hx as [Hx|[Hl Hx]]; [rewrite (Hc _ _ Hx); cbn; lia|].
      apply lookup_replicate in Hx as [-> _]. rewrite Hv by done. done.
    + rewrite (proj2 (Nat.eqb_neq i id)) by congruence. rewrite Nat.add_0_r.
      apply lookup_app_Some in H as [H|[Hl H]]; [by apply Hc|].
      apply lookup_replicate in H as [-> _]. by rewrite Hv.
  - specialize (Hj id). intros [(-> & x & Hx & ->)|[Hne H]]%alter_Some.
    + rewrite Nat.eqb_refl in Hj. apply Hc in Hx. cbn in Hj. lia.
    + rewrite (proj2 (Nat.eqb_neq i id)) in Hj by congruence. apply Hc in H. cbn in Hj. lia.
Qed.

Lemma effect_abort m m' id : counted m' -> effect m m' -> aborts m' !! id = Some true ->
  aborts m !! id = Some true \/ joins id m' = 0%nat.
Proof.
  intros Hc He Ha. destruct He as [_ E _|i k _ E _|i _ _ _ H].
  - rewrite <-E. by left.
  - rewrite E in Ha. apply lookup_app_Some in Ha as [Ha|[_ Ha]]; [by left|]. by apply lookup_replicate in Ha as [? _].
  - destruct (H id Ha) as [?|Hz]; [by left|]. right. by apply Hc in Hz.
Qed.

(** Updates that leave callers and aborts alone. *)
Lemma effect_promise m id p : effect m (update_shared id (with_promise p) m).
Proof. apply effect_none; [by apply alter_id_fmap|by apply alter_id_fmap|done]. Qed.

Lemma effect_same m m' : mg_shared m' = mg_shared m -> mg_calls m' = mg_calls m -> effect m m'.
Proof. intros E1 E2. apply effect_none; unfold callers, aborts, joins; rewrite ?E1, ?E2; done. Qed.

Lemma effect_trans_same m m1 m' : mg_shared m1 = mg_shared m -> mg_calls m1 = mg_calls m -> effect m1 m' -> effect m m'.
Proof.
  intros E1 E2 [H1 H2 H3|id k H1 H2 H3|id H0 H1 H3 H4]; unfold callers, aborts, joins in *; rewrite ?E1, ?E2 in *.
  - by apply effect_none.
  - by eapply effect_join.
  - by eapply effect_leave.
Qed.

(** A call that is not joined goes on to something that is not joined. *)
Lemma effect_call m cid c p : mg_calls m !! cid = Some c -> (forall id, joined_to id c = false) ->
  (forall id, joined_to id (with_progress p c) = false) -> effect m (update_call cid p m).
Proof.
  intros Hc H1 H2. apply effect_none; [done|done|]. intros j. unfold joins. cbn [update_call set_calls mg_calls].
  pose proof (count_alter (joined_to j) (with_progress p) _ _ _ Hc) as E. rewrite H1, H2 in E. cbn in E. lia.
Qed.

Lemma effect_leaves m cid c id ex p : mg_calls m !! cid = Some c -> ca_progress c = Joined id ex ->
  (id < length (callers m))%nat -> (forall j, joined_to j (with_progress p c) = false) ->
  effect m (update_call cid p (leaveShared id m)).
Proof.
  intros Hc Hp Hl H2. eapply (effect_leave _ _ id); [done| | |].
  - apply alter_fmap_comm. intros s. cbv zeta. by destruct (_ && _).
  - intros j. unfold joins. cbn [update_call set_calls mg_calls leaveShared update_shared set_shared].
    pose proof (count_alter (joined_to j) (with_progress p) _ _ _ Hc) as E. rewrite H2 in E.
    unfold joined_to in E at 2. rewrite Hp in E. cbn in E. lia.
  - intros j. unfold aborts, callers. cbn [update_call set_calls mg_shared leaveShared update_shared set_shared].
    rewrite !list_lookup_fmap. destruct (decide (j = id)) as [->|Hn]; [|rewrite !list_lookup_alter_ne by done; by left].
    rewrite !list_lookup_alter_eq. destruct (mg_shared m !! id) as [s|]; [|done]. cbn.
    destruct (_ && _) eqn:E; [|by left]. intros _. right. cbn. apply andb_true_iff in E as [E%Nat.eqb_eq _]. by rewrite E.
Qed.

Lemma effect_joins m m1 k d cached p c : join_or_start k d cached m = (p, m1) -> ca_progress c = p ->
  effect m (set_calls (mg_calls m1 ++ [c]) m1).
Proof.
  unfold join_or_start. destruct (inflight k m !! d) as [id|].
  - intros [<- <-]%pair_equal_spec Hp. apply (effect_join _ _ id 0).
    + unfold callers. cbn. rewrite app_nil_r. by apply alter_fmap_comm.
    + unfold aborts. cbn. rewrite app_nil_r. by apply alter_id_fmap.
    + intros j. unfold joins. cbn [set_calls mg_calls]. rewrite count_snoc. unfold joined_to at 2. by rewrite Hp.
  - unfold startShared. intros [<- <-]%pair_equal_spec Hp.
    destruct (forget_older_rest k d m) as (E1 & E2 & _). rewrite E1 in *.
    set (m0 := forget_older k d m) in *. clearbody m0.
    apply (effect_join _ _ (length (mg_shared m)) 1).
    + unfold callers, joinShared, update_shared. cbn [set_calls mg_shared set_shared].
      rewrite (proj1 (proj2 (set_inflight_rest _ _ _))). cbn [set_shared mg_shared].
      rewrite (alter_fmap_comm _ _ S) by done. by rewrite fmap_app.
    + unfold aborts, joinShared, update_shared. cbn [set_calls mg_shared set_shared].
      rewrite (proj1 (proj2 (set_inflight_rest _ _ _))). cbn [set_shared mg_shared].
      rewrite alter_id_fmap by done. by rewrite fmap_app.
    + intros j. unfold joins, joinShared, update_shared. cbn [set_calls mg_calls set_shared].
      rewrite (proj2 (proj2 (set_inflight_rest _ _ _))). cbn [set_shared mg_calls]. rewrite E2, count_snoc.
      unfold joined_to at 2. by rewrite Hp.
Qed.

Lemma effect_add m c : (forall id, joined_to id c = false) -> effect m (set_calls (mg_calls m ++ [c]) m).
Proof.
  intros H. apply effect_none; [done|done|]. intros j. unfold joins. cbn [set_calls mg_calls].
  rewrite count_snoc, H. cbn. lia.
Qed.

Lemma lookup_cache_rest now d m : mg_shared (snd (lookup_cache now d m)) = mg_shared m
  /\ mg_calls (snd (lookup_cache now d m)) = mg_calls m.
Proof. unfold lookup_cache. by destruct (ic_get _ _ _). Qed.

Lemma evict_if_same_rest now d same m : mg_shared (evict_if_same now d same m) = mg_shared m
  /\ mg_calls (evict_if_same now d same m) = mg_calls m.
Proof.
  unfold evict_if_same. pose proof (lookup_cache_rest now d m) as H. destruct (lookup_cache now d m) as [r m1].
  cbn [snd] in H. destruct r; [|done]. by destruct same.
Qed.

Lemma effect_verifyDomain m now raw cert enforce refresh : effect m (verifyDomain now raw cert enforce refresh m).
Proof.
  unfold verifyDomain. destruct (normalizeFQDN raw false) as [d|]; [|by apply effect_add].
  destruct (verifyReusableIdentity now d cert refresh enforce m) as [p m1] eqn:E.
  unfold verifyReusableIdentity in E. destruct refresh; [by eapply effect_joins|].
  pose proof (lookup_cache_rest now d m) as [H1 H2]. destruct (lookup_cache now d m) as [r m2]. cbn [snd] in *.
  apply (effect_trans_same m m2); [done|done|].
  destruct r as [cached|]; [|by eapply effect_joins].
  destruct (if enforce then _ else _); [|injection E as <- <-; by apply effect_add].
  destruct (_ && _); [injection E as <- <-; by apply effect_add|]. by eapply effect_joins.
Qed.

Lemma effect_step m e : joined_ok m -> effect m (step m e).
Proof.
  intros Hj. assert (Hlen : forall cid c id ex, mg_calls m !! cid = Some c -> ca_progress c = Joined id ex ->
    (id < length (callers m))%nat).
  { intros cid c id ex Hc Hp. destruct (Hj cid c id ex Hc Hp) as (s & Hs & _). unfold callers.
    rewrite length_fmap. by eapply lookup_lt_Some. }
  assert (Hcall : forall cid c p, mg_calls m !! cid = Some c -> (forall id, joined_to id c = false) ->
    (forall id, joined_to id (with_progress p c) = false) -> effect m (update_call cid p m)) by eauto using effect_call.
  destruct e; cbn [step].
  - apply effect_verifyDomain.
  - unfold evictDomain. destruct (normalizeFQDN raw false); [|by apply effect_same]. cbn [snd].
    apply effect_same; by destruct m.
  - unfold then_callback. destruct (mg_shared m !! id) as [s|]; [|by apply effect_same].
    destruct (sh_promise s); try by apply effect_same. destruct r as [v|e]; [|apply effect_promise].
    destruct (writes id s m); [|apply effect_promise]. cbv zeta. destruct (ic_put _ _ _ _) as [stored c].
    destruct (forget_older_rest (sh_kind s) (sh_domain s) m) as (E1 & E2 & _).
    eapply effect_trans_same; [..|apply effect_promise]; done.
  - unfold catch_callback. destruct (mg_shared m !! id) as [s|]; [|by apply effect_same].
    destruct (sh_promise s) as [|r| |]; try by apply effect_same.
    eapply effect_trans_same; [..|apply effect_promise]; destruct r; try done; by destruct (_ && _).
  - unfold finally_callback. destruct (mg_shared m !! id) as [s|]; [|by apply effect_same].
    destruct (sh_promise s) as [| |r|]; try by apply effect_same. cbv zeta.
    destruct (current _ _ _); [|apply effect_promise].
    destruct (set_inflight_rest (sh_kind s) (base.delete (sh_domain s) (inflight (sh_kind s)
      (update_shared id (with_promise (Finished r)) m))) (update_shared id (with_promise (Finished r)) m)) as (_ & E1 & E2).
    apply effect_none; unfold callers, aborts, joins, forget; rewrite ?E1, ?E2; [by apply alter_id_fmap..|done].
  - destruct (mg_shared m !! id) as [s|]; [|by apply effect_same]. destruct (sh_promise s); try by apply effect_same.
    apply effect_same; apply evict_if_same_rest.
  - unfold resume. destruct (mg_calls m !! cid) as [c|] eqn:Hc; [|by apply effect_same].
    destruct (ca_progress c) as [id ex| | |] eqn:Hp; try by apply effect_same.
    destruct (mg_shared m !! id) as [s|] eqn:Hs; [|by apply effect_same].
    destruct (sh_promise s) as [| | |r]; try by apply effect_same.
    eapply effect_leaves; [done|done|by eapply Hlen|]. intros j. destruct r as [v|]; [|done]. by destruct (needs_rerun _ _ _).
  - unfold cancel_call. destruct (mg_calls m !! cid) as [c|] eqn:Hc; [|by apply effect_same].
    destruct (ca_progress c) as [id ex| | |] eqn:Hp; try by apply effect_same.
    2,3: by eapply Hcall; [done|intros j; unfold joined_to; by rewrite Hp|].
    eapply effect_leaves; [done|done|by eapply Hlen|done].
  - unfold rerun_done. destruct (mg_calls m !! cid) as [c|] eqn:Hc; [|by apply effect_same].
    destruct (ca_progress c) eqn:Hp; try by apply effect_same.
    eapply Hcall; [done|intros j; unfold joined_to; by rewrite Hp|]. by destruct r.
  - unfold finish. destruct (mg_calls m !! cid) as [c|] eqn:Hc; [|by apply effect_same].
    destruct (ca_progress c) as [| |v|] eqn:Hp; try by apply effect_same.
    assert (Hn : forall j, joined_to j c = false) by (intros j; unfold joined_to; by rewrite Hp).
    destruct (call_checks c v); [|by eapply Hcall].
    destruct (assertFresh _ _); [by eapply Hcall|].
    destruct (evict_if_same_rest now (vi_domain v) same m) as [E1 E2].
    eapply effect_trans_same; [exact E1|exact E2|]. eapply effect_call; [by rewrite E2|done|done].
  - by apply effect_same.
Qed.

Definition reachable (m : manager) : Prop := exists c es, m = run (initial c) es.

Lemma reachable_step m e : reachable m -> reachable (step m e).
Proof. intros (c & es & ->). exists c, (es ++ [e]). unfold run. by rewrite foldl_app. Qed.

Lemma reachable_sound m : reachable m -> sound (fun _ _ => True) m.
Proof.
  intros (c & es & ->). apply run_sound; [by apply initial_sound|]. generalize (initial c).
  induction es as [|e es IH]; intros m; [done|]. split; [|apply IH].
  destruct e; try done; cbn; by destruct r.
Qed.

Lemma reachable_joins m id : reachable m -> (length (callers m) <= id)%nat -> joins id m = 0%nat.
Proof.
  intros Hr Hl. pose proof (sd_joined _ _ (reachable_sound m Hr)) as Hj. unfold joins, count.
  destruct (List.filter (joined_to id) (mg_calls m)) as [|c l] eqn:E; [done|]. exfalso.
  assert (Hin : In c (List.filter (joined_to id) (mg_calls m))) by (rewrite E; by left).
  apply List.filter_In in Hin as [Hin Hjt]. apply list_elem_of_In, list_elem_of_lookup in Hin as [cid Hc].
  unfold joined_to in Hjt. destruct (ca_progress c) as [id' ex| | |] eqn:Hp; try done. apply Nat.eqb_eq in Hjt as ->.
  destruct (Hj cid c id ex Hc Hp) as (s & Hs & _). apply lookup_lt_Some in Hs. unfold callers in Hl.
  rewrite length_fmap in Hl. lia.
Qed.

Lemma reachable_counted m : reachable m -> counted m.
Proof.
  intros (c & es & ->). induction es as [|e es IH] using rev_ind.
  { by intros [|id] n Hn. }
  unfold run. rewrite foldl_app. cbn [foldl]. fold (run (initial c) es).
  assert (Hr : reachable (run (initial c) es)) by by exists c, es.
  eapply effect_counted; [by intros; apply reachable_joins|apply effect_step, (sd_joined _ _ (reachable_sound _ Hr))|done].
Qed.

(** ** Theorems on the schedule *)

(** C16: After an eviction, the start of a refresh or the result of a refresh for a domain, what
    the cache holds for it is what it held right after that moment, or was stored by an
    operation that started later: an older lookup or status check never overwrites it. *)
Theorem superseded_never_stores m d e es v : supersedes m d e ->
  ic_content (mg_cache (run (step m e) es)) (cache_key d) = Some v ->
  ic_content (mg_cache (step m e)) (cache_key d) = Some v
  \/ exists pre e' post id, es = pre ++ e' :: post /\ stores (run (step m e) pre) e' d id v
       /\ (length (mg_shared m) <= id)%nat.
Proof.
  intros Hs [H|(pre & e' & post & id & -> & H)]%content_run; [by left|]. right. exists pre, e', post, id.
  split; [done|]. split; [done|]. eapply barrier_stores; [|exact H].
  eapply barrier_extends; [apply extends_run|]. by apply barrier_superseded.
Qed.

(** A caller that gives up does not disturb the others: an operation is aborted only at a
    step after which no call is joined to it. *)
Theorem abort_is_isolated m e id : reachable m -> aborts m !! id <> Some true -> aborts (step m e) !! id = Some true ->
  forall cid c ex, mg_calls (step m e) !! cid = Some c -> ca_progress c <> Joined id ex.
Proof.
  intros Hr Hn Ha cid c ex Hc Hp.
  pose proof (effect_step m e (sd_joined _ _ (reachable_sound m Hr))) as He.
  destruct (effect_abort _ _ id (reachable_counted _ (reachable_step m e Hr)) He Ha) as [?|Hz]; [done|].
  unfold joins, count in Hz. apply length_zero_iff_nil in Hz.
  assert (Hin : In c (List.filter (joined_to id) (mg_calls (step m e)))).
  { apply List.filter_In. split; [by apply list_elem_of_In, list_elem_of_lookup_2 with cid|].
    unfold joined_to. by rewrite Hp, Nat.eqb_refl. }
  by rewrite Hz in Hin.
Qed.

End Manager.

(** ** The manager with the operations of [Verification] *)

Section Operations.
Context `{Url : URLApi} `{Uni : Unicode} `{Jwk : JwkApi} `{Cache : IdentityCacheApi}.
Context (newDate : json -> date) (deps : Dependencies) (namespace : jsstr).

Notation mstep := (step (dp_config deps) namespace).
Notation mrun := (run (dp_config deps) namespace).

(** How an operation can succeed. *)
Definition operation_result (s : SharedVerification) (v : VerifiedIdentity) : Prop :=
  match sh_kind s with
  | StatusRefreshes => exists cached checkedAt freshAt, sh_cached s = Some cached
      /\ run_alone (refreshStatus newDate deps cached checkedAt freshAt) = Ok v
  | k => exists t evs,
      verifyDomainUncached newDate deps (sh_domain s) (bool_decide (k = Refreshes)) t evs = Ended (Ok v)
  end.

(** The outcomes in a run are those of the operations. *)
Definition real_event (m : manager) (e : event) : Prop :=
  match e with
  | Then id _ (Ok v) => forall s, mg_shared m !! id = Some s -> operation_result s v
  | RerunDone cid (Ok v) => forall c, mg_calls m !! cid = Some c ->
      exists t evs, verifyDomainUncached newDate deps (ca_domain c) (ca_refresh c) t evs = Ended (Ok v)
  | _ => True
  end.
Fixpoint real_run (m : manager) (es : list event) : Prop :=
  match es with [] => True | e :: es => real_event m e /\ real_run (mstep m e) es end.

Lemma uncached_verified domain revalidate t evs v :
  verifyDomainUncached newDate deps domain revalidate t evs = Ended (Ok v) -> verified_identity newDate deps domain v.
Proof.
  intros H. exists v, revalidate, t. split; [|by left]. by apply verify_alone_sound, (run_refines _ _ _ _ _ evs).
Qed.

Lemma real_honest m e : real_event m e -> honest (verified_identity newDate deps) m e.
Proof.
  destruct e; try done; cbn; destruct r as [v|]; try done.
  - intros H s Hs [Hc _]. specialize (H s Hs). unfold operation_result in H.
    destruct (sh_kind s); [|destruct H as (cached & ? & ? & Ec & H)|];
      [by destruct H as (t & evs & H); apply uncached_verified in H| |by destruct H as (t & evs & H); apply uncached_verified in H].
    eapply refreshStatus_sound; [by apply Hc|exact H].
  - intros H c Hc. destruct (H c Hc) as (t & evs & E). by eapply uncached_verified.
Qed.

Lemma real_run_honest m es : real_run m es -> honest_run (dp_config deps) namespace (verified_identity newDate deps) m es.
Proof. revert m; induction es as [|e es IH]; intros m; [done|]. intros [H1 H2]. split; [by apply real_honest|by apply IH]. Qed.

(** Who is accepted: a trusted entity, with the pinned key, and over mutual TLS a peer whose
    certificate names the domain. *)
Definition accepted (c : call) (v : VerifiedIdentity) : Prop :=
  (js "mtls" ∈ policyFlags (vi_record v) ->
     exists cert, ca_peerCert c = Some cert /\ matchesDnsName (san cert) (ca_domain c) = true)
  /\ forall policy, trustedEntities (dp_config deps) = Some policy ->
       exists entry, entry ∈ policy /\ te_governanceId entry = gi (vi_record v)
         /\ forall pins, te_entityKeyThumbprints entry = Some pins -> vi_signingKeyThumbprint v ∈ pins.

Lemma call_checks_accepted c v : ca_enforceAcceptance c = true -> call_checks (dp_config deps) c v = Ok tt -> accepted c v.
Proof.
  unfold call_checks. intros -> ([] & Hm & Ha)%bind_Ok. split.
  - intros Hf. unfold verifyMtlsPeer in Hm. rewrite bool_decide_eq_true_2 in Hm by done. cbn in Hm.
    destruct (ca_peerCert c) as [cert|]; [|done]. apply throw_if_Ok in Hm. exists cert. by bool_inv.
  - intros policy Hp. unfold enforceCounterpartyAcceptance in Ha. rewrite Hp in Ha.
    destruct (List.find _ policy) as [entry|] eqn:E; [|done]. apply List.find_some in E as [Hin Hg].
    exists entry. split; [by apply list_elem_of_In|]. split; [by bool_inv|]. intros pins Hpins. rewrite Hpins in Ha.
    apply throw_if_Ok in Ha. by bool_inv.
Qed.

(** Every identity in the manager is a verified one, along every run. *)
Lemma real_run_sound cache es : (forall d, ic_content cache (cache_key namespace d) = None) -> real_run (initial cache) es ->
  sound (dp_config deps) namespace (verified_identity newDate deps) (mrun (initial cache) es).
Proof.
  intros Hcache Hreal. apply run_sound; [|by apply real_run_honest]. apply initial_sound. intros d v'. by rewrite Hcache.
Qed.

End Operations.

(** ** Witnesses *)

Section Example.
#[local] Existing Instances SimpleUrl AsciiUnicode ToyJwk InMemoryIdentityCache.

Definition example_cache : @ic_state InMemoryIdentityCache := empty_cache.
Definition example_namespace : jsstr := js "manager".
#[local] Notation example_manager es :=
  (run (dp_config honest_dependencies) example_namespace (initial example_cache) es).
#[local] Notation example_verification :=
  (verifyDomainUncached example_date honest_dependencies bot false example_clock status_first).

(** Two concurrent calls share one operation. *)
Definition two_calls (v : VerifiedIdentity) : list event :=
  [VerifyDomain 1000 bot None true false; VerifyDomain 1001 bot None true false;
   Then 0 1200 (Ok v); Catch 0; Finally 0; Resume 0; Finish 0 1200 false; Resume 1; Finish 1 1250 false].

Definition returns (s : run_state) (test : VerifiedIdentity -> bool) : bool :=
  match s with Ended (Ok v) => test v | _ => false end.
Lemma returns_spec s test : returns s test = true -> exists v, s = Ended (Ok v) /\ test v = true.
Proof. destruct s as [|?|[v|]]; try done. by exists v. Qed.

Definition call_returned (cid : nat) (m : @manager InMemoryIdentityCache) (test : call -> res VerifiedIdentity -> bool) : bool :=
  match mg_calls m !! cid with
  | Some c => match ca_progress c with Returned r => test c r | _ => false end
  | None => false
  end.
Lemma call_returned_spec cid m test : call_returned cid m test = true ->
  exists c r, mg_calls m !! cid = Some c /\ ca_progress c = Returned r /\ test c r = true.
Proof.
  unfold call_returned. destruct (mg_calls m !! cid) as [c|]; [|done].
  destruct (ca_progress c) as [| | |r] eqn:E; try done. by exists c, r.
Qed.

Definition returned_bot (c : call) (r : res VerifiedIdentity) : bool := bool_decide (ca_domain c = bot) && is_ok r.

Lemma two_calls_run : returns example_verification (fun v =>
    (length (mg_shared (example_manager (two_calls v))) =? 1)%nat
    && call_returned 1 (example_manager (two_calls v)) returned_bot) = true.
Proof. vm_compute. reflexivity. Qed.

Lemma two_calls_result : exists v v' c, example_verification = Ended (Ok v)
  /\ mg_calls (example_manager (two_calls v)) !! 1%nat = Some c /\ ca_progress c = Returned (Ok v')
  /\ ca_domain c = bot.
Proof.
  destruct (returns_spec _ _ two_calls_run) as (v & E & H). apply andb_true_iff in H as [_ H].
  apply call_returned_spec in H as (c & r & Hc & Hp & H).
  unfold returned_bot in H. apply andb_true_iff in H as [Hd H]. apply bool_decide_eq_true in Hd.
  destruct r as [v'|]; [|discriminate H].
  exists v, v', c. split; [exact E|split; [exact Hc|split; [exact Hp|exact Hd]]].
Qed.

(** The one operation of the two calls. *)
Definition lookup_of_bot : SharedVerification := mkShared Verifications bot None 2 false Running.
Lemma two_calls_share :
  mg_shared (example_manager [VerifyDomain 1000 bot None true false; VerifyDomain 1001 bot None true false])
  = [lookup_of_bot].
Proof. vm_compute. reflexivity. Qed.

Lemma lookup_of_bot_result v : example_verification = Ended (Ok v) ->
  operation_result example_date honest_dependencies lookup_of_bot v.
Proof.
  intros E. unfold operation_result, lookup_of_bot. cbn [sh_kind sh_domain]. exists example_clock, status_first.
  rewrite bool_decide_eq_false_2 by discriminate. exact E.
Qed.

Lemma two_calls_real v : example_verification = Ended (Ok v) ->
  real_run example_date honest_dependencies example_namespace (initial example_cache) (two_calls v).
Proof.
  intros E. split; [exact I|]. split; [exact I|]. split; [|repeat split].
  intros s Hs. apply lookup_of_bot_result in E.
  assert (Some s = Some lookup_of_bot) as [= ->]; [|exact E]. rewrite <-Hs.
  exact (f_equal (fun l => l !! 0%nat) two_calls_share).
Qed.

Lemma empty_content d : ic_content example_cache d = None.
Proof. cbn. unfold content. cbn. by rewrite lookup_empty. Qed.

(** A lookup and a refresh race; the lookup settles last and is not stored. *)
Notation lookup_started := (example_manager [VerifyDomain 1000 bot None true false]).
Notation refresh_started := (step (dp_config honest_dependencies) example_namespace lookup_started
  (VerifyDomain 1001 bot None true true)).
Notation refresh_race v := (run (dp_config honest_dependencies) example_namespace refresh_started
  [Then 1 1200 (Ok v); Then 0 1210 (Ok v)]).

Lemma race_run : returns example_verification (fun v =>
  match ic_content (mg_cache (refresh_race v)) (cache_key example_namespace bot) with Some _ => true | None => false end) = true.
Proof. vm_compute. reflexivity. Qed.

Lemma race_result : exists v v', ic_content (mg_cache (refresh_race v)) (cache_key example_namespace bot) = Some v'.
Proof.
  destruct (returns_spec _ _ race_run) as (v & _ & H). exists v.
  destruct (ic_content (mg_cache (refresh_race v)) (cache_key example_namespace bot)) as [v'|]; [exists v'; reflexivity|discriminate H].
Qed.

Lemma refresh_supersedes : supersedes lookup_started bot (VerifyDomain 1001 bot None true true).
Proof. apply sup_start; vm_compute; reflexivity. Qed.

Lemma refresh_started_empty : ic_content (mg_cache refresh_started) (cache_key example_namespace bot) = None.
Proof. vm_compute. reflexivity. Qed.

Lemma superseded_never_stores_witness : exists v v' pre e' post id,
  [Then 1 1200 (Ok v); Then 0 1210 (Ok v)] = pre ++ e' :: post
  /\ stores (run (dp_config honest_dependencies) example_namespace refresh_started pre) e' bot id v' /\ (1 <= id)%nat.
Proof.
  destruct race_result as (v & v' & H). exists v, v'.
  destruct (superseded_never_stores _ _ _ _ _ _ _ refresh_supersedes H) as [H'|(pre & e' & post & id & H1 & H2 & H3)].
  - rewrite refresh_started_empty in H'. discriminate H'.
  - exists pre, e', post, id. split; [exact H1|split; [exact H2|exact H3]].
Defined.

Lemma cancel_aborts : aborts lookup_started !! 0%nat = Some false
  /\ aborts (step (dp_config honest_dependencies) example_namespace lookup_started (Cancel 0)) !! 0%nat = Some true.
Proof. split; vm_compute; reflexivity. Qed.

Lemma lookup_reachable : reachable (dp_config honest_dependencies) example_namespace lookup_started.
Proof. exists example_cache, [VerifyDomain 1000 bot None true false]. reflexivity. Qed.

Lemma abort_is_isolated_witness :
  aborts (step (dp_config honest_dependencies) example_namespace lookup_started (Cancel 0)) !! 0%nat = Some true
  /\ ~ (exists cid c ex,
         mg_calls (step (dp_config honest_dependencies) example_namespace lookup_started (Cancel 0)) !! cid = Some c
         /\ ca_progress c = Joined 0 ex).
Proof.
  split; [exact (proj2 cancel_aborts)|]. intros (cid & c & ex & Hc & Hp). revert Hp.
  refine (abort_is_isolated _ _ _ _ _ lookup_reachable _ (proj2 cancel_aborts) cid c ex Hc).
  rewrite (proj1 cancel_aborts). discriminate.
Defined.

End Example.
