(* ===== verification/CallProgress.v ===== *)
(** The calls of a manager along a run ([SharedVerification]): what every event does to a call
    and to the operation it is joined to, that a call returns, and what it returns. *)

From S2P Require Import Prelude JsString Url Utils TxtRecord Json Jwk EventCodec Lifecycle StreamVerifier.
From S2P Require Import Budget AgentStatus IdentityCache LogRegistry FanOut Verification SharedVerification.

Section Manager.
Context `{Url : URLApi} `{Uni : Unicode} `{Cache : IdentityCacheApi}.
Context (config : VerificationConfig) (namespace : jsstr).

Notation step := (step config namespace).
Notation run := (run config namespace).
Notation call_checks := (call_checks config).
Notation reachable := (reachable config namespace).

(** ** What an event does to a call *)

(** The last checks of a call on the identity [v]. *)
Definition final_checks (c : call) (now : Z) (v : VerifiedIdentity) : res VerifiedIdentity :=
  call_checks c v;; assertFresh now (as_VerifiedDomain v);; Ok v.

Definition next_progress (m : manager) (e : event) (cid : nat) (c : call) : progress :=
  match e, ca_progress c with
  | Resume k, Joined id ex =>
      if (k =? cid)%nat then
        match sh_promise <$> mg_shared m !! id, mg_shared m !! id with
        | Some (Finished (Ok v)), Some s => if needs_rerun s ex v then Rerunning else Checking v
        | Some (Finished (Throw e)), _ => Returned (Throw e)
        | _, _ => Joined id ex
        end
      else Joined id ex
  | Cancel k, Returned r => Returned r
  | Cancel k, p => if (k =? cid)%nat then Returned (Throw cancellationError) else p
  | RerunDone k r, Rerunning =>
      if (k =? cid)%nat then match r with Ok v => Checking v | Throw e => Returned (Throw e) end else Rerunning
  | Finish k now _, Checking v => if (k =? cid)%nat then Returned (final_checks c now v) else Checking v
  | _, p => p
  end.

Lemma with_same_progress c : with_progress (ca_progress c) c = c.
Proof. by destruct c. Qed.
Lemma with_progress_twice p q c : with_progress p (with_progress q c) = with_progress p c.
Proof. done. Qed.

Lemma update_call_eq cid p m c : mg_calls m !! cid = Some c -> mg_calls (update_call cid p m) !! cid = Some (with_progress p c).
Proof. intros H. cbn. by rewrite list_lookup_alter_eq, H. Qed.
Lemma update_call_ne cid k p m : k <> cid -> mg_calls (update_call k p m) !! cid = mg_calls m !! cid.
Proof. intros H. cbn. by rewrite list_lookup_alter_ne. Qed.

Lemma calls_join_or_start m k d cached p m' : join_or_start k d cached m = (p, m') ->
  mg_calls m' = mg_calls m /\ exists id ex, p = Joined id ex.
Proof.
  unfold join_or_start, startShared. destruct (inflight k m !! d) as [id|]; intros [<- <-]%pair_equal_spec.
  - split; [done|by eexists _, _].
  - split; [|by eexists _, _]. cbn [joinShared update_shared set_shared mg_calls].
    rewrite (proj2 (proj2 (set_inflight_rest _ _ _))). apply forget_older_rest.
Qed.

(** A new call has not returned an identity. *)
Lemma calls_verifyDomain m now raw cert enforce refresh : exists c,
  mg_calls (verifyDomain config namespace now raw cert enforce refresh m) = mg_calls m ++ [c]
  /\ forall v, ca_progress c <> Returned (Ok v).
Proof.
  unfold verifyDomain. destruct (normalizeFQDN raw false) as [d|]; [|by eexists].
  destruct (verifyReusableIdentity _ _ now d cert refresh enforce m) as [p m1] eqn:E.
  assert (mg_calls m1 = mg_calls m /\ forall v, p <> Returned (Ok v)) as [Ec Hp].
  { assert (Hj : forall k cached m2, join_or_start k d cached m2 = (p, m1) ->
      mg_calls m1 = mg_calls m2 /\ forall v, p <> Returned (Ok v)).
    { intros k cached m2 H. destruct (calls_join_or_start _ _ _ _ _ _ H) as (? & id & ex & ->). done. }
    unfold verifyReusableIdentity in E. destruct refresh; [by eapply Hj|].
    pose proof (lookup_cache_rest namespace now d m) as [_ H2]. destruct (lookup_cache namespace now d m) as [r m2]. cbn [snd] in H2.
    rewrite <-H2. destruct r as [cached|]; [|by eapply Hj].
    destruct (if enforce then _ else _); [|by injection E as <- <-].
    destruct (_ && _); [by injection E as <- <-|by eapply Hj]. }
  eexists. cbn [set_calls mg_calls]. rewrite Ec. split; [reflexivity|exact Hp].
Qed.

(** The events that are not about a call leave the calls alone. *)
Lemma calls_of_other m e : match e with
    | VerifyDomain _ _ _ _ _ | Resume _ | Cancel _ | RerunDone _ _ | Finish _ _ _ => False | _ => True end ->
  mg_calls (step m e) = mg_calls m.
Proof.
  destruct e; try done; intros _; cbn [SharedVerification.step].
  - unfold evictDomain. destruct (normalizeFQDN raw false); [|done]. by destruct m.
  - unfold then_callback. destruct (mg_shared m !! id) as [s|]; [|done].
    destruct (sh_promise s); try done. destruct r; [|done]. destruct (writes id s m); [|done].
    cbv zeta. destruct (ic_put _ _ _ _). cbn. apply forget_older_rest.
  - unfold catch_callback. destruct (mg_shared m !! id) as [s|]; [|done]. destruct (sh_promise s) as [|r| |]; try done.
    destruct r; [done|]. by destruct (_ && _).
  - unfold finally_callback. destruct (mg_shared m !! id) as [s|]; [|done]. destruct (sh_promise s) as [| |r|]; try done.
    cbv zeta. destruct (current _ _ _); [|done]. unfold forget. by rewrite (proj2 (proj2 (set_inflight_rest _ _ _))).
  - destruct (mg_shared m !! id) as [s|]; [|done]. destruct (sh_promise s); try done. apply evict_if_same_rest.
Qed.

(** The event of one call leaves the others alone. *)
Lemma calls_of_another m e cid : match e with
    | Resume k | Cancel k | RerunDone k _ | Finish k _ _ => k <> cid | _ => False end ->
  mg_calls (step m e) !! cid = mg_calls m !! cid.
Proof.
  destruct e as [| | | | | |k|k|k r|k now same|]; try done; intros Hne; cbn [SharedVerification.step];
    [unfold resume|unfold cancel_call|unfold rerun_done|unfold finish]; destruct (mg_calls m !! k) as [c|]; try done.
  - destruct (ca_progress c) as [id ex| | |]; try done. destruct (mg_shared m !! id) as [s|]; [|done].
    destruct (sh_promise s); try done. by rewrite update_call_ne.
  - destruct (ca_progress c); try done; by rewrite update_call_ne.
  - destruct (ca_progress c); try done; by rewrite update_call_ne.
  - destruct (ca_progress c) as [| |v|]; try done. destruct (call_checks c v); [|by rewrite update_call_ne].
    destruct (assertFresh _ _); rewrite update_call_ne; try done. by rewrite (proj2 (evict_if_same_rest _ _ _ _ _)).
Qed.

Lemma step_call m e cid c : mg_calls m !! cid = Some c ->
  mg_calls (step m e) !! cid = Some (with_progress (next_progress m e cid c) c).
Proof.
  intros Hc. assert (Hstay : forall p, p = ca_progress c -> mg_calls m !! cid = Some (with_progress p c))
    by (intros p ->; by rewrite with_same_progress).
  unfold next_progress.
  destruct e as [now raw cert enforce refresh| | | | | |k|k|k r|k now same|]; try (rewrite calls_of_other by done; by apply Hstay);
    [|destruct (Nat.eqb_spec k cid) as [->|Hne]; [|rewrite calls_of_another by done; apply Hstay; by destruct (ca_progress c)]..];
    cbn [SharedVerification.step]; [|unfold resume|unfold cancel_call|unfold rerun_done|unfold finish, final_checks]; rewrite ?Hc.
  - destruct (calls_verifyDomain m now raw cert enforce refresh) as (c' & -> & _).
    rewrite (lookup_app_l_Some _ _ _ _ Hc). by rewrite with_same_progress.
  - destruct (ca_progress c) as [id ex| | |]; try by apply Hstay.
    destruct (mg_shared m !! id) as [s|]; cbn [fmap option_fmap option_map]; [|by apply Hstay].
    destruct (sh_promise s) as [| | |r]; try by apply Hstay. rewrite (update_call_eq _ _ _ c) by done. by destruct r.
  - destruct (ca_progress c); first [by apply update_call_eq|by apply Hstay].
  - destruct (ca_progress c); try by apply Hstay. by apply update_call_eq.
  - destruct (ca_progress c) as [| |v|]; try by apply Hstay.
    destruct (call_checks c v) as [[]|]; cbn [mbind res_bind]; [|by apply update_call_eq].
    destruct (assertFresh _ _) as [[]|]; cbn [mbind res_bind]; [by apply update_call_eq|].
    apply update_call_eq. by rewrite (proj2 (evict_if_same_rest _ _ _ _ _)).
Qed.

Lemma next_returned m e cid c r : ca_progress c = Returned r -> next_progress m e cid c = Returned r.
Proof. unfold next_progress. intros ->. by destruct e. Qed.

(** Only the last checks lead to an identity. *)
Lemma next_Ok m e cid c v : next_progress m e cid c = Returned (Ok v) ->
  ca_progress c = Returned (Ok v)
  \/ exists now same, e = Finish cid now same /\ ca_progress c = Checking v /\ final_checks c now v = Ok v.
Proof.
  unfold next_progress. destruct (ca_progress c) as [id ex| |w|r] eqn:E0; intros Hp.
  - exfalso. destruct e; try done; [|by case_match]. case_match; [|done].
    destruct (mg_shared m !! id) as [s|]; cbn in Hp; [|done]. destruct (sh_promise s) as [| | |[w|]]; try done. by case_match.
  - exfalso. destruct e; try done; case_match; try done. by case_match.
  - destruct e; try done; [by case_match|]. destruct (Nat.eqb_spec cid0 cid) as [->|]; [|done]. right.
    injection Hp as Hf. assert (w = v) as ->; [|by eexists _, _].
    unfold final_checks in Hf. by apply bind_Ok in Hf as (? & _ & (? & _ & [= <-])%bind_Ok).
  - left. destruct e; exact Hp.
Qed.

Lemma step_new m e cid c v : mg_calls m !! cid = None -> mg_calls (step m e) !! cid = Some c -> ca_progress c <> Returned (Ok v).
Proof.
  intros Hn. assert (Hnone : forall k, k = cid -> mg_calls m !! k = None) by by intros k ->.
  destruct e as [now raw cert enforce refresh| | | | | |k|k|k r|k now same|]; try (rewrite calls_of_other by done; by rewrite Hn).
  1: { destruct (calls_verifyDomain m now raw cert enforce refresh) as (c' & E & Hp). cbn [SharedVerification.step].
    rewrite E. intros [H|[_ ->]]%snoc_Some; [by rewrite Hn in H|apply Hp]. }
  all: destruct (decide (k = cid)) as [->|Hne]; [|rewrite calls_of_another by done; by rewrite Hn].
  all: cbn [SharedVerification.step]; unfold resume, cancel_call, rerun_done, finish; by rewrite !Hn.
Qed.

(** A call that returns an identity has made its last checks on it. *)
Lemma returned_by m e cid c v : mg_calls (step m e) !! cid = Some c -> ca_progress c = Returned (Ok v) ->
  mg_calls m !! cid = Some c
  \/ exists now same, e = Finish cid now same /\ mg_calls m !! cid = Some (with_progress (Checking v) c)
       /\ final_checks c now v = Ok v.
Proof.
  intros Hc Hp. destruct (mg_calls m !! cid) as [c0|] eqn:H0; [|by destruct (step_new _ _ _ _ v H0 Hc)].
  rewrite (step_call m e cid c0 H0) in Hc. injection Hc as <-. cbn in Hp.
  destruct (next_Ok _ _ _ _ _ Hp) as [E|(now & same & -> & E & Hf)].
  - left. rewrite Hp, <-E. by rewrite with_same_progress.
  - right. exists now, same. rewrite with_progress_twice, <-E, with_same_progress. done.
Qed.

Lemma run_snoc m es e : run m (es ++ [e]) = step (run m es) e.
Proof. unfold SharedVerification.run. by rewrite foldl_app. Qed.

Lemma returned_at cache es cid c v : mg_calls (run (initial cache) es) !! cid = Some c -> ca_progress c = Returned (Ok v) ->
  exists pre now same post, es = pre ++ Finish cid now same :: post
    /\ mg_calls (run (initial cache) pre) !! cid = Some (with_progress (Checking v) c) /\ final_checks c now v = Ok v.
Proof.
  induction es as [|e es IH] using rev_ind; [done|]. rewrite run_snoc. intros Hc Hp.
  destruct (returned_by _ _ _ _ _ Hc Hp) as [H|(now & same & -> & H & Hf)].
  - destruct (IH H Hp) as (pre & now & same & post & -> & H1 & H2). exists pre, now, same, (post ++ [e]).
    by rewrite <-app_assoc.
  - by exists es, now, same, [].
Qed.

(** ** What an event does to an operation *)

Definition promises (m : manager) : list promise := sh_promise <$> mg_shared m.

(** The event that the promise waits for. *)
Definition awaits (p : promise) (e : event) (id : nat) : bool :=
  match p, e with
  | Running, Then k _ _ | AfterThen _, Catch k | AfterCatch _, Finally k => (k =? id)%nat
  | _, _ => false
  end.

(** The outcome of the operation, or the error of storing it. *)
Definition settled_from (outcome r : res VerifiedIdentity) : Prop :=
  r = outcome \/ exists v e, outcome = Ok v /\ r = Throw e.

Definition settles (e : event) (id : nat) (p p' : promise) : Prop :=
  if awaits p e id then
    match p with
    | Running => exists now outcome r, e = Then id now outcome /\ p' = AfterThen r /\ settled_from outcome r
    | AfterThen r => p' = AfterCatch r
    | AfterCatch r => p' = Finished r
    | Finished _ => False
    end
  else p' = p.

Lemma promises_update m id p j : promises (update_shared id (with_promise p) m) !! j
  = if decide (j = id) then (fun _ => p) <$> promises m !! j else promises m !! j.
Proof.
  unfold promises. cbn [update_shared set_shared mg_shared]. rewrite !list_lookup_fmap.
  destruct (decide (j = id)) as [->|Hn]; [rewrite list_lookup_alter_eq; by destruct (mg_shared m !! id)|].
  by rewrite list_lookup_alter_ne.
Qed.

Lemma promises_recount m id f : (forall s, sh_promise (f s) = sh_promise s) -> promises (update_shared id f m) = promises m.
Proof. intros H. unfold promises. cbn [update_shared set_shared mg_shared]. by apply alter_id_fmap. Qed.

Lemma promises_leave m id : promises (leaveShared id m) = promises m.
Proof. apply promises_recount. intros s. cbv zeta. by destruct (_ && _). Qed.

Lemma promises_same m m' : mg_shared m' = mg_shared m -> promises m' = promises m.
Proof. unfold promises. by intros ->. Qed.

Lemma promises_forget k d m : promises (forget k d m) = promises m.
Proof. apply promises_same, set_inflight_rest. Qed.

Lemma promises_join_or_start m k d cached p m' : join_or_start k d cached m = (p, m') ->
  exists l, promises m' = promises m ++ l /\ Forall (fun q => q = Running) l.
Proof.
  unfold join_or_start, startShared. destruct (inflight k m !! d) as [id|]; intros [<- <-]%pair_equal_spec.
  - exists []. unfold joinShared. by rewrite promises_recount, app_nil_r.
  - exists [Running]. unfold joinShared. rewrite promises_recount by done. split; [|by repeat constructor].
    unfold promises. rewrite (proj1 (proj2 (set_inflight_rest _ _ _))). cbn [set_shared mg_shared].
    by rewrite fmap_app, (proj1 (forget_older_rest _ _ _)).
Qed.

Lemma promises_verifyDomain m now raw cert enforce refresh : exists l,
  promises (verifyDomain config namespace now raw cert enforce refresh m) = promises m ++ l /\ Forall (fun q => q = Running) l.
Proof.
  unfold verifyDomain. destruct (normalizeFQDN raw false) as [d|]; [|exists []; by rewrite app_nil_r].
  destruct (verifyReusableIdentity _ _ now d cert refresh enforce m) as [p m1] eqn:E. change (promises (set_calls ?l m1)) with (promises m1).
  unfold verifyReusableIdentity in E. destruct refresh; [by eapply promises_join_or_start|].
  pose proof (lookup_cache_rest namespace now d m) as [H1 _]. destruct (lookup_cache namespace now d m) as [r m2]. cbn [snd] in H1.
  rewrite <-(promises_same m m2 H1).
  assert (Hnil : exists l, promises m2 = promises m2 ++ l /\ Forall (fun q => q = Running) l) by (exists []; by rewrite app_nil_r).
  destruct r as [cached|]; [|by eapply promises_join_or_start].
  destruct (if enforce then _ else _); [|by injection E as <- <-].
  destruct (_ && _); [by injection E as <- <-|by eapply promises_join_or_start].
Qed.

Lemma promises_of_other m e : match e with VerifyDomain _ _ _ _ _ | Then _ _ _ | Catch _ | Finally _ => False | _ => True end ->
  promises (step m e) = promises m.
Proof.
  destruct e; try done; intros _; cbn [SharedVerification.step].
  - unfold evictDomain. destruct (normalizeFQDN raw false); [|done]. apply promises_same. by destruct m.
  - destruct (mg_shared m !! id) as [s|]; [|done]. destruct (sh_promise s); try done. apply promises_same, evict_if_same_rest.
  - unfold resume. destruct (mg_calls m !! cid) as [c|]; [|done]. destruct (ca_progress c) as [id ex| | |]; try done.
    destruct (mg_shared m !! id) as [s|]; [|done]. destruct (sh_promise s); try done. apply promises_leave.
  - unfold cancel_call. destruct (mg_calls m !! cid) as [c|]; [|done]. destruct (ca_progress c); try done. apply promises_leave.
  - unfold rerun_done. destruct (mg_calls m !! cid) as [c|]; [|done]. by destruct (ca_progress c).
  - unfold finish. destruct (mg_calls m !! cid) as [c|]; [|done]. destruct (ca_progress c) as [| |v|]; try done.
    destruct (call_checks c v); [|done]. destruct (assertFresh _ _); [done|]. apply promises_same, evict_if_same_rest.
Qed.

Lemma lookup_promise m id s : mg_shared m !! id = Some s -> promises m !! id = Some (sh_promise s).
Proof. intros H. unfold promises. by rewrite list_lookup_fmap, H. Qed.

(** The promise at [k] moves from [p] to [p'], and the others stay. *)
Definition moved (m m' : manager) (k : nat) (p p' : promise) : Prop :=
  promises m !! k = Some p /\ forall j, promises m' !! j = if decide (j = k) then Some p' else promises m !! j.

Lemma moved_update m m0 k s p : mg_shared m0 = mg_shared m -> mg_shared m !! k = Some s ->
  moved m (update_shared k (with_promise p) m0) k (sh_promise s) p.
Proof.
  intros E Hs. split; [by apply lookup_promise|]. intros j. rewrite promises_update, (promises_same m m0 E).
  destruct (decide (j = k)) as [->|]; [|done]. by rewrite (lookup_promise _ _ _ Hs).
Qed.

Lemma promises_then m k now r :
  (promises m !! k <> Some Running /\ promises (then_callback namespace k now r m) = promises m)
  \/ exists r', moved m (then_callback namespace k now r m) k Running (AfterThen r') /\ settled_from r r'.
Proof.
  unfold then_callback. destruct (mg_shared m !! k) as [s|] eqn:Hs.
  2: { left. split; [|done]. unfold promises. by rewrite list_lookup_fmap, Hs. }
  destruct (sh_promise s) eqn:Hp; [|left; split; [|done]; rewrite (lookup_promise _ _ _ Hs), Hp; done..].
  right. rewrite <-Hp. destruct r as [v|e]; [destruct (writes k s m)|].
  - cbv zeta. destruct (ic_put _ _ _ _) as [stored c]. exists (stored;; Ok v). split.
    + apply moved_update; [|done]. apply forget_older_rest.
    + destruct stored as [[]|e]; [by left|]. right. by exists v, e.
  - exists (Ok v). split; [by apply moved_update|by left].
  - exists (Throw e). split; [by apply moved_update|by left].
Qed.

Lemma promises_catch m k :
  ((forall r, promises m !! k <> Some (AfterThen r)) /\ promises (catch_callback namespace k m) = promises m)
  \/ exists r, moved m (catch_callback namespace k m) k (AfterThen r) (AfterCatch r).
Proof.
  unfold catch_callback. destruct (mg_shared m !! k) as [s|] eqn:Hs.
  2: { left. split; [|done]. unfold promises. by rewrite list_lookup_fmap, Hs. }
  destruct (sh_promise s) as [|r| |] eqn:Hp; [left; split; [|done]; rewrite (lookup_promise _ _ _ Hs), Hp; done| |left; split; [|done]; rewrite (lookup_promise _ _ _ Hs), Hp; done..].
  right. exists r. rewrite <-Hp. apply moved_update; [|done]. destruct r; [done|]. by destruct (_ && _).
Qed.

Lemma promises_finally m k :
  ((forall r, promises m !! k <> Some (AfterCatch r)) /\ promises (finally_callback k m) = promises m)
  \/ exists r, moved m (finally_callback k m) k (AfterCatch r) (Finished r).
Proof.
  unfold finally_callback. destruct (mg_shared m !! k) as [s|] eqn:Hs.
  2: { left. split; [|done]. unfold promises. by rewrite list_lookup_fmap, Hs. }
  destruct (sh_promise s) as [| |r|] eqn:Hp; try (left; split; [|done]; rewrite (lookup_promise _ _ _ Hs), Hp; done).
  right. exists r. rewrite <-Hp. cbv zeta. destruct (current _ _ _); [|by apply moved_update].
  destruct (moved_update m m k s (Finished r) eq_refl Hs) as [H1 H2]. split; [done|]. intros j. by rewrite promises_forget.
Qed.

Lemma step_promise m e id p : promises m !! id = Some p -> exists p', promises (step m e) !! id = Some p' /\ settles e id p p'.
Proof.
  intros Hp. assert (Hstay : awaits p e id = false -> promises (step m e) !! id = Some p ->
    exists p', promises (step m e) !! id = Some p' /\ settles e id p p').
  { intros Ha H. exists p. split; [done|]. unfold settles. by rewrite Ha. }
  destruct e as [now raw cert enforce refresh| |k now r|k|k| | | | | |];
    try (apply Hstay; [by destruct p|rewrite promises_of_other by done; exact Hp]); cbn [SharedVerification.step] in *.
  - destruct (promises_verifyDomain m now raw cert enforce refresh) as (l & E & _).
    apply Hstay; [by destruct p|]. rewrite E. by apply lookup_app_l_Some.
  - destruct (promises_then m k now r) as [[Hn E]|(r' & [Hk E] & Hs)]; rewrite E in *.
    + apply Hstay; [|done]. destruct p; try done. cbn. apply Nat.eqb_neq. congruence.
    + destruct (decide (id = k)) as [->|Hne].
      * assert (p = Running) as -> by congruence. exists (AfterThen r'). split; [done|]. unfold settles. cbn.
        rewrite Nat.eqb_refl. by exists now, r, r'.
      * apply Hstay; [|done]. destruct p; try done. cbn. by apply Nat.eqb_neq.
  - destruct (promises_catch m k) as [[Hn E]|(r & [Hk E])]; rewrite E in *.
    + apply Hstay; [|done]. destruct p as [|r| |]; try done. cbn. apply Nat.eqb_neq. intros ->. by apply (Hn r).
    + destruct (decide (id = k)) as [->|Hne].
      * assert (p = AfterThen r) as -> by congruence. exists (AfterCatch r). split; [done|]. unfold settles. cbn. by rewrite Nat.eqb_refl.
      * apply Hstay; [|done]. destruct p; try done. cbn. by apply Nat.eqb_neq.
  - destruct (promises_finally m k) as [[Hn E]|(r & [Hk E])]; rewrite E in *.
    + apply Hstay; [|done]. destruct p as [| |r|]; try done. cbn. apply Nat.eqb_neq. intros ->. by apply (Hn r).
    + destruct (decide (id = k)) as [->|Hne].
      * assert (p = AfterCatch r) as -> by congruence. exists (Finished r). split; [done|]. unfold settles. cbn. by rewrite Nat.eqb_refl.
      * apply Hstay; [|done]. destruct p; try done. cbn. by apply Nat.eqb_neq.
Qed.

(** A new operation runs. *)
Lemma new_promise m e id p : promises m !! id = None -> promises (step m e) !! id = Some p -> p = Running.
Proof.
  intros Hn H. destruct e as [now raw cert enforce refresh| |k now r|k|k| | | | | |];
    try (rewrite promises_of_other in H by done; by rewrite Hn in H); cbn [SharedVerification.step] in H.
  - destruct (promises_verifyDomain m now raw cert enforce refresh) as (l & E & Hl). rewrite E in H.
    apply lookup_app_Some in H as [H|[_ H]]; [by rewrite Hn in H|]. rewrite Forall_lookup in Hl. by eapply Hl.
  - destruct (promises_then m k now r) as [[_ E]|(r' & [Hk E] & _)]; rewrite E in H; [by rewrite Hn in H|].
    destruct (decide _); congruence.
  - destruct (promises_catch m k) as [[_ E]|(r & [Hk E])]; rewrite E in H; [by rewrite Hn in H|]. destruct (decide _); congruence.
  - destruct (promises_finally m k) as [[_ E]|(r & [Hk E])]; rewrite E in H; [by rewrite Hn in H|]. destruct (decide _); congruence.
Qed.

Lemma step_finished m e id r : promises m !! id = Some (Finished r) -> promises (step m e) !! id = Some (Finished r).
Proof.
  intros H. destruct (step_promise m e id _ H) as (p' & H' & Hs). unfold settles in Hs.
  assert (E : awaits (Finished r) e id = false) by by destruct e. rewrite E in Hs. by subst p'.
Qed.

(** ** An operation that is finished is not in flight *)

Definition cleared (m : manager) : Prop :=
  forall k d id r, inflight k m !! d = Some id -> promises m !! id <> Some (Finished r).

Lemma cleared_step m e : reachable m -> cleared m -> cleared (step m e).
Proof.
  intros Hr Hc k d id r Hi Hp. destruct (ex_inflight _ _ (extends_step config namespace m e) k d id Hi) as [Hi'|Hl].
  - destruct (promises m !! id) as [p|] eqn:Ep; [|by apply (new_promise _ _ _ _ Ep) in Hp].
    destruct (step_promise m e id p Ep) as (p' & Hp' & Hs). rewrite Hp in Hp'. injection Hp' as <-. unfold settles in Hs.
    destruct (awaits p e id) eqn:Ea; [|subst p; by apply (Hc k d id r Hi')].
    destruct p as [|r0|r0|r0]; try done; [by destruct Hs as (? & ? & ? & _ & ? & _)|]. destruct e; try done.
    apply Nat.eqb_eq in Ea as ->. cbn [SharedVerification.step] in Hi. unfold finally_callback in Hi.
    destruct (sd_named _ _ _ _ (reachable_sound config namespace m Hr) k d id Hi') as (s & Es & <- & <-).
    rewrite (lookup_promise _ _ _ Es) in Ep. injection Ep as Ep. rewrite Es, Ep in Hi. cbv zeta in Hi.
    assert (Hcur : current id s (update_shared id (with_promise (Finished r0)) m) = true).
    { unfold current, update_shared. rewrite inflight_set_shared. by apply bool_decide_eq_true. }
    rewrite Hcur, lookup_forget, decide_True in Hi by done. done.
  - destruct (promises m !! id) as [p|] eqn:Ep; [|by apply (new_promise _ _ _ _ Ep) in Hp].
    apply lookup_lt_Some in Ep. unfold promises in Ep. rewrite length_fmap in Ep. lia.
Qed.

Lemma reachable_cleared m : reachable m -> cleared m.
Proof.
  intros (c & es & ->). induction es as [|e es IH] using rev_ind.
  - change (cleared (initial c)). intros k d id r H _. assert (E : inflight k (initial c) = ∅) by by destruct k. rewrite E in H. by apply lookup_empty_Some in H.
  - rewrite run_snoc. apply cleared_step; [by exists c, es|done].
Qed.

Lemma reachable_run m es : reachable m -> reachable (run m es).
Proof. intros (c & es0 & ->). exists c, (es0 ++ es). unfold SharedVerification.run. by rewrite foldl_app. Qed.

(** ** What a call waits for

    A call that is joined to an operation waits for the outcome of the operation, for its two
    remaining callbacks and for its own resumption, then perhaps for its own verification,
    and for its last checks: at most six events. *)

Definition rank (m : manager) (cid : nat) : nat :=
  match mg_calls m !! cid with
  | Some c =>
      match ca_progress c with
      | Joined id _ =>
          match promises m !! id with
          | Some Running => 6 | Some (AfterThen _) => 5 | Some (AfterCatch _) => 4 | _ => 3
          end
      | Rerunning => 2
      | Checking _ => 1
      | Returned _ => 0
      end
  | None => 0
  end%nat.

Definition awaited (m : manager) (cid : nat) (e : event) : bool :=
  match mg_calls m !! cid with
  | Some c =>
      match ca_progress c, e with
      | Joined id _, _ =>
          match promises m !! id, e with
          | Some (Finished _), Resume k => (k =? cid)%nat
          | Some (Finished _), _ => false
          | Some p, _ => awaits p e id
          | None, _ => false
          end
      | Rerunning, RerunDone k _ | Checking _, Finish k _ _ => (k =? cid)%nat
      | _, _ => false
      end
  | None => false
  end.

Lemma joined_promise m cid c id ex : reachable m -> mg_calls m !! cid = Some c -> ca_progress c = Joined id ex ->
  exists s, mg_shared m !! id = Some s /\ promises m !! id = Some (sh_promise s).
Proof.
  intros Hr Hc Hp. destruct (sd_joined _ _ _ _ (reachable_sound config namespace m Hr) cid c id ex Hc Hp) as (s & Hs & _).
  exists s. split; [done|]. by apply lookup_promise.
Qed.

Lemma rank_with m cid c p : mg_calls m !! cid = Some (with_progress p c) ->
  rank m cid = match p with
    | Joined id _ => match promises m !! id with
        | Some Running => 6 | Some (AfterThen _) => 5 | Some (AfterCatch _) => 4 | _ => 3 end
    | Rerunning => 2 | Checking _ => 1 | Returned _ => 0 end%nat.
Proof. unfold rank. intros ->. done. Qed.

(** A joined call stays joined, or is cancelled, or resumes on the result of its operation. *)
Lemma next_joined m e cid c id ex s : ca_progress c = Joined id ex -> mg_shared m !! id = Some s ->
  (next_progress m e cid c = Joined id ex /\ ((exists r, sh_promise s = Finished r) -> e <> Resume cid))
  \/ (e = Cancel cid /\ next_progress m e cid c = Returned (Throw cancellationError))
  \/ exists r, e = Resume cid /\ sh_promise s = Finished r
       /\ next_progress m e cid c = match r with
            | Ok v => if needs_rerun s ex v then Rerunning else Checking v
            | Throw x => Returned (Throw x)
            end.
Proof.
  intros Ep Hs. unfold next_progress. rewrite Ep, Hs. cbn [fmap option_fmap option_map]. destruct e; try by left.
  - destruct (Nat.eqb_spec cid0 cid) as [->|Hne]; [|left; split; [done|]; congruence].
    destruct (sh_promise s) as [| | |r]; try (left; split; [done|]; by intros [? [=]]).
    right. right. exists r. split; [done|]. split; [done|]. by destruct r.
  - destruct (Nat.eqb_spec cid0 cid) as [->|Hne]; [by right; left|by left].
Qed.

Lemma rank_step m e cid c : reachable m -> mg_calls m !! cid = Some c ->
  (rank (step m e) cid + Nat.b2n (awaited m cid e) <= rank m cid)%nat.
Proof.
  intros Hr Hc. rewrite (rank_with _ _ _ _ (step_call m e cid c Hc)). unfold rank, awaited. rewrite Hc.
  destruct (ca_progress c) as [id ex| |v|r] eqn:Ep.
  - destruct (joined_promise m cid c id ex Hr Hc Ep) as (s & Hs & Hpr). rewrite Hpr.
    destruct (next_joined m e cid c id ex s Ep Hs) as [[-> He]|[[-> ->]|(r & -> & Hf & ->)]].
    + destruct (step_promise m e id _ Hpr) as (p' & -> & Hset). unfold settles in Hset.
      destruct (sh_promise s) as [|r|r|r] eqn:Eq.
      * destruct (awaits Running e id); [destruct Hset as (? & ? & r & _ & -> & _)|subst p']; cbn; lia.
      * destruct (awaits (AfterThen r) e id); subst p'; cbn; lia.
      * destruct (awaits (AfterCatch r) e id); subst p'; cbn; lia.
      * assert (E : awaits (Finished r) e id = false) by by destruct e. rewrite E in Hset. subst p'.
        destruct e; cbn; try lia. destruct (Nat.eqb_spec cid0 cid) as [->|]; [|cbn; lia]. destruct He; [by exists r|done].
    + destruct (sh_promise s); cbn; lia.
    + rewrite Hf, Nat.eqb_refl. destruct r as [v|]; [destruct (needs_rerun _ _ _)|]; cbn; lia.
  - unfold next_progress. rewrite Ep. destruct e; cbn; try lia; destruct (_ =? _)%nat; cbn; try lia. destruct r; cbn; lia.
  - unfold next_progress. rewrite Ep. destruct e; cbn; try lia; destruct (_ =? _)%nat; cbn; lia.
  - rewrite (next_returned _ _ _ _ _ Ep). destruct e; cbn; lia.
Qed.

Lemma run_call m es cid c : mg_calls m !! cid = Some c -> exists p, mg_calls (run m es) !! cid = Some (with_progress p c).
Proof.
  induction es as [|e es IH] using rev_ind; intros Hc; [exists (ca_progress c); by rewrite with_same_progress|].
  destruct (IH Hc) as [p H]. rewrite run_snoc, (step_call _ _ _ _ H). by eexists.
Qed.

Lemma rank_run m cid c es : reachable m -> mg_calls m !! cid = Some c -> (rank (run m es) cid <= rank m cid)%nat.
Proof.
  intros Hr Hc. induction es as [|e es IH] using rev_ind; [done|]. rewrite run_snoc. destruct (run_call m es cid c Hc) as [p Hp].
  pose proof (rank_step _ e cid _ (reachable_run m es Hr) Hp). lia.
Qed.

Lemma rank_bound m cid : (rank m cid <= 6)%nat.
Proof. unfold rank. destruct (mg_calls m !! cid) as [c|]; [|lia]. destruct (ca_progress c); try lia. repeat case_match; lia. Qed.

(** A call that has not returned waits for an event that can happen. *)
Lemma some_awaited m cid c : reachable m -> mg_calls m !! cid = Some c ->
  (exists e, awaited m cid e = true) \/ exists out, ca_progress c = Returned out.
Proof.
  intros Hr Hc. unfold awaited. rewrite Hc. destruct (ca_progress c) as [id ex| |v|out] eqn:Ep; [left..|right; by exists out].
  - destruct (joined_promise m cid c id ex Hr Hc Ep) as (s & _ & ->).
    destruct (sh_promise s) as [|r|r|r];
      [exists (Then id 0 (Throw cancellationError))|exists (Catch id)|exists (Finally id)|exists (Resume cid)]; cbn; apply Nat.eqb_refl.
  - exists (RerunDone cid (Throw cancellationError)). apply Nat.eqb_refl.
  - exists (Finish cid 0 false). apply Nat.eqb_refl.
Qed.

Lemma run_app m es1 es2 : run m (es1 ++ es2) = run (run m es1) es2.
Proof. unfold SharedVerification.run. by rewrite foldl_app. Qed.

(** The call has returned [out], and stays returned. *)
Definition returned (m : manager) (cid : nat) (c : call) (out : res VerifiedIdentity) : Prop :=
  mg_calls m !! cid = Some (with_progress (Returned out) c).

Lemma returned_stays m es cid c out : returned m cid c out -> returned (run m es) cid c out.
Proof.
  intros H. induction es as [|e es IH] using rev_ind; [done|]. rewrite run_snoc. unfold returned in *.
  rewrite (step_call _ _ _ _ IH). by rewrite (next_returned _ _ _ _ out).
Qed.

(** *** Fair schedules *)

Definition first_events (schedule : nat -> event) (n : nat) : list event := map schedule (seq 0 n).

Lemma first_events_S schedule n : first_events schedule (S n) = first_events schedule n ++ [schedule n].
Proof. unfold first_events. by rewrite seq_S, map_app. Qed.

Lemma first_events_app schedule n k : (n <= k)%nat -> exists es, first_events schedule k = first_events schedule n ++ es.
Proof.
  intros H. exists (map schedule (seq n (k - n))). unfold first_events. rewrite <-map_app, <-seq_app. do 2 f_equal. lia.
Qed.

(** As long as the call has not returned, an event that it waits for happens sooner or later. *)
Definition fair (m : manager) (cid : nat) (c : call) (schedule : nat -> event) : Prop :=
  forall n, exists k, (n <= k)%nat
    /\ (awaited (run m (first_events schedule k)) cid (schedule k) = true
        \/ exists out, returned (run m (first_events schedule k)) cid c out).

Lemma fair_returns m cid c schedule : reachable m -> mg_calls m !! cid = Some c -> fair m cid c schedule ->
  exists n out, returned (run m (first_events schedule n)) cid c out.
Proof.
  intros Hr Hc Hfair. assert (H : forall r n, (rank (run m (first_events schedule n)) cid <= r)%nat ->
    exists n out, returned (run m (first_events schedule n)) cid c out).
  2: { by apply (H 6%nat 0%nat), rank_bound. }
  induction r as [|r IH]; intros n Hn.
  - destruct (run_call m (first_events schedule n) cid c Hc) as [p Hp]. rewrite (rank_with _ _ _ _ Hp) in Hn.
    exists n. destruct p as [id ex| | |out]; [|lia|lia|by exists out]. repeat case_match; lia.
  - destruct (Hfair n) as (k & Hk & [Ha|[out Hout]]); [|by exists k, out].
    apply (IH (S k)). rewrite first_events_S, run_snoc. destruct (run_call m (first_events schedule k) cid c Hc) as [p Hp].
    pose proof (rank_step _ (schedule k) cid _ (reachable_run m (first_events schedule k) Hr) Hp) as H1. rewrite Ha in H1. cbn in H1.
    assert (H2 : (rank (run m (first_events schedule k)) cid <= rank (run m (first_events schedule n)) cid)%nat); [|lia].
    destruct (first_events_app schedule n k Hk) as [es ->]. rewrite run_app.
    destruct (run_call m (first_events schedule n) cid c Hc) as [q Hq]. eapply rank_run; [by apply reachable_run|exact Hq].
Qed.

(** ** What a call returns *)

Section Answer.
(** The call [c] of number [cid], and whether it has joined an operation of another call. *)
Context (cid : nat) (c : call) (ex : bool).

(** The identity that the last checks are made on: that of the operation, or of the call's own
    verification. *)
Definition source (es : list event) (s : SharedVerification) (w : VerifiedIdentity) : Prop :=
  exists v, sh_promise s = Finished (Ok v)
    /\ if needs_rerun s ex v then RerunDone cid (Ok w) ∈ es else w = v.

(** What the call answers after the events [es]. *)
Inductive answer (es : list event) (s : SharedVerification) : res VerifiedIdentity -> Prop :=
  | answer_cancelled : Cancel cid ∈ es -> answer es s (Throw cancellationError)
  | answer_failed e : sh_promise s = Finished (Throw e) -> answer es s (Throw e)
  | answer_rerun_failed v e : sh_promise s = Finished (Ok v) -> needs_rerun s ex v = true ->
      RerunDone cid (Throw e) ∈ es -> answer es s (Throw e)
  | answer_checked w now same : source es s w -> Finish cid now same ∈ es -> answer es s (final_checks c now w).

Definition explained (es : list event) (s : SharedVerification) (id : nat) (p : progress) : Prop :=
  match p with
  | Joined id' ex' => id' = id /\ ex' = ex
  | Rerunning => exists v, sh_promise s = Finished (Ok v) /\ needs_rerun s ex v = true
  | Checking w => source es s w
  | Returned out => answer es s out
  end.

Lemma explained_more es e s s' id p : sh_kind s' = sh_kind s ->
  (forall r, sh_promise s = Finished r -> sh_promise s' = Finished r) ->
  explained es s id p -> explained (es ++ [e]) s' id p.
Proof.
  intros Hk Hf. assert (Hn : forall v, needs_rerun s' ex v = needs_rerun s ex v) by (intros v; unfold needs_rerun; by rewrite Hk).
  assert (Hsrc : forall w, source es s w -> source (es ++ [e]) s' w).
  { intros w (v & Hv & H). exists v. split; [by apply Hf|]. rewrite Hn. destruct (needs_rerun s ex v); [|done].
    rewrite elem_of_app. by left. }
  destruct p as [| |w|out]; [done| |apply Hsrc|].
  - intros (v & Hv & H). exists v. rewrite Hn. split; [by apply Hf|done].
  - intros [Hc|x Hx|v x Hv Hn' Hx|w now same Hw Hx].
    + apply answer_cancelled. rewrite elem_of_app. by left.
    + by apply answer_failed, Hf.
    + eapply answer_rerun_failed; [by apply Hf|by rewrite Hn|]. rewrite elem_of_app. by left.
    + eapply answer_checked; [by apply Hsrc|]. rewrite elem_of_app. by left.
Qed.

Lemma run_explained m es id : reachable m -> mg_calls m !! cid = Some c -> ca_progress c = Joined id ex ->
  exists s p, mg_shared (run m es) !! id = Some s /\ mg_calls (run m es) !! cid = Some (with_progress p c)
    /\ explained es s id p.
Proof.
  intros Hr Hc Hp. induction es as [|e es IH] using rev_ind.
  - destruct (joined_promise m cid c id ex Hr Hc Hp) as (s & Hs & _). exists s, (Joined id ex).
    split; [done|]. split; [|done]. rewrite <-Hp. by rewrite with_same_progress.
  - destruct IH as (s & p & Hs & Hcall & Hx). rewrite run_snoc. set (m1 := run m es) in *.
    destruct (ex_shared _ _ (extends_step config namespace m1 e) id s Hs) as (s' & Hs' & Hk & _ & _).
    assert (Hf : forall r, sh_promise s = Finished r -> sh_promise s' = Finished r).
    { intros r Hrr. pose proof (lookup_promise _ _ _ Hs) as H1. rewrite Hrr in H1. apply step_finished with (e := e) in H1.
      rewrite (lookup_promise _ _ _ Hs') in H1. by injection H1. }
    exists s', (next_progress m1 e cid (with_progress p c)). split; [done|]. split; [by rewrite (step_call _ _ _ _ Hcall)|].
    assert (Hn : forall v, needs_rerun s' ex v = needs_rerun s ex v) by (intros v; unfold needs_rerun; by rewrite Hk).
    pose proof (explained_more es e s s' id p Hk Hf Hx) as Hmore.
    assert (Hlast : forall e', e = e' -> e' ∈ es ++ [e]) by (intros e' ->; rewrite elem_of_app; right; by apply list_elem_of_singleton).
    destruct p as [id' ex'| |w|out].
    + destruct Hx as [-> ->]. destruct (next_joined m1 e cid (with_progress (Joined id ex) c) id ex s eq_refl Hs)
        as [[-> _]|[[-> ->]|(r & -> & Hfin & ->)]]; [done|apply answer_cancelled; by apply Hlast|].
      apply Hf in Hfin. destruct r as [v|x]; [|by apply answer_failed].
      rewrite <-Hn. destruct (needs_rerun s' ex v) eqn:En; [by exists v|]. exists v. by rewrite En.
    + unfold next_progress. cbn [ca_progress with_progress]. destruct e; try done.
      * destruct (Nat.eqb_spec cid0 cid) as [->|]; [|done]. apply answer_cancelled. by apply Hlast.
      * destruct (Nat.eqb_spec cid0 cid) as [->|]; [|done]. destruct Hmore as (v & Hv & En). destruct r as [w|x].
        -- exists v. rewrite En. split; [done|]. by apply Hlast.
        -- eapply answer_rerun_failed; [done|done|by apply Hlast].
    + unfold next_progress. cbn [ca_progress with_progress]. destruct e; try done.
      * destruct (Nat.eqb_spec cid0 cid) as [->|]; [|done]. apply answer_cancelled. by apply Hlast.
      * destruct (Nat.eqb_spec cid0 cid) as [->|]; [|done]. eapply (answer_checked _ _ w now same); [done|by apply Hlast].
    + by rewrite (next_returned _ _ _ _ out).
Qed.
End Answer.

(** The result of an operation: the one that it had already, or its outcome in the run, or
    the error of storing that. *)
Definition result_of (m : manager) (es : list event) (id : nat) (r : res VerifiedIdentity) : Prop :=
  (exists p, promises m !! id = Some p /\ (p = AfterThen r \/ p = AfterCatch r \/ p = Finished r))
  \/ exists now outcome, Then id now outcome ∈ es /\ settled_from outcome r.

Lemma run_result m es id p0 p r : promises m !! id = Some p0 -> promises (run m es) !! id = Some p ->
  p = AfterThen r \/ p = AfterCatch r \/ p = Finished r -> result_of m es id r.
Proof.
  intros H0. revert p r. induction es as [|e es IH] using rev_ind; intros p r Hp Hr.
  - left. change (run m []) with m in Hp. by exists p.
  - rewrite run_snoc in Hp. destruct (promises (run m es) !! id) as [q|] eqn:Hq.
    2: { apply new_promise in Hp; [|done]. subst p. by destruct Hr as [?|[?|?]]. }
    assert (Hmore : result_of m es id r -> result_of m (es ++ [e]) id r).
    { intros [H|(now & o & H & Hs)]; [by left|right]. exists now, o. split; [|done]. rewrite elem_of_app. by left. }
    destruct (step_promise _ e id q Hq) as (p' & Hp' & Hset). rewrite Hp in Hp'. injection Hp' as <-. unfold settles in Hset.
    destruct (awaits q e id) eqn:Ea; [|subst p; by eapply Hmore, IH].
    destruct q as [|r0|r0|r0].
    + destruct Hset as (now & o & r' & -> & -> & Hs). destruct Hr as [[= ->]|[[=]|[=]]]. right. exists now, o.
      split; [|done]. rewrite elem_of_app. right. by apply list_elem_of_singleton.
    + subst p. destruct Hr as [[=]|[[= ->]|[=]]]. apply Hmore. eapply IH; [done|by left].
    + subst p. destruct Hr as [[=]|[[=]|[= ->]]]. apply Hmore. eapply IH; [done|by right; left].
    + done.
Qed.

(** C25: No call waits for ever, and what it returns is what it should.  Whatever happened
    before: (1) in every run a call that is joined to an operation has returned, or waits for
    an event that can happen: the outcome of the operation, its two callbacks, the call's
    resumption, its own verification, or its last checks; (2) in every schedule in which such
    an event happens sooner or later, whatever other events happen in between, the call
    returns; (3) it returns its cancellation, or the error of the operation or of its own
    verification, or the outcome of its last checks, those of its acceptance policy and of
    the freshness at that time, on the identity of the operation, or on that of its own
    verification when the former has no time to live and belongs to another call.  The result
    of the operation is its outcome, or the error of storing that; an operation that is
    finished is no longer in flight; and the callers that it counts are the calls that are
    still joined to it. *)
Theorem call_returns m cid c id ex : reachable m -> mg_calls m !! cid = Some c -> ca_progress c = Joined id ex ->
  (forall es, (exists e, awaited (run m es) cid e = true) \/ exists out, returned (run m es) cid c out)
  /\ (forall schedule, fair m cid c schedule -> exists n out, returned (run m (first_events schedule n)) cid c out)
  /\ (forall es out, returned (run m es) cid c out ->
      exists s, mg_shared (run m es) !! id = Some s
        /\ answer cid c ex es s out
        /\ (forall r, sh_promise s = Finished r ->
              result_of m es id r /\ inflight (sh_kind s) (run m es) !! sh_domain s <> Some id)
        /\ sh_callers s = joins id (run m es)).
Proof.
  intros Hr Hc Hp. split; [|split].
  - intros es. destruct (run_call m es cid c Hc) as [p Hcall].
    destruct (some_awaited _ _ _ (reachable_run m es Hr) Hcall) as [H|[out H]]; [by left|right]. exists out. cbn in H. by subst p.
  - intros schedule. by apply fair_returns.
  - intros es out Hout. destruct (run_explained cid c ex m es id Hr Hc Hp) as (s & p & Hs & Hcall & Hx).
    unfold returned in Hout. rewrite Hcall in Hout. injection Hout as ->. exists s. split; [done|]. split; [done|].
    pose proof (reachable_run m es Hr) as Hr'. split.
    + intros r Hf. pose proof (lookup_promise _ _ _ Hs) as Hq. rewrite Hf in Hq. split.
      * destruct (joined_promise m cid c id ex Hr Hc Hp) as (s0 & _ & H0). eapply run_result; [exact H0|exact Hq|by right; right].
      * intros Hi. by apply (reachable_cleared _ Hr' _ _ _ r Hi).
    + apply (reachable_counted config namespace _ Hr'). unfold callers. by rewrite list_lookup_fmap, Hs.
Qed.

End Manager.

(** ** The manager with the operations of [Verification] *)

Section Operations.
Context `{Url : URLApi} `{Uni : Unicode} `{Jwk : JwkApi} `{Cache : IdentityCacheApi}.
Context (newDate : json -> date) (deps : Dependencies) (namespace : jsstr).

Notation mrun := (SharedVerification.run (dp_config deps) namespace).

(** C14: Whatever calls, refreshes, evictions, cancellations and cache expiries are interleaved, a
    call that returns an identity returns one of its own domain that was verified; and it
    returns it at a last event of its own, at whose time the identity is still fresh and
    before which its own acceptance policy has admitted it, whether the identity was shared,
    cached or its own. *)
Theorem verifyDomain_sound cache es cid c v : (forall d, ic_content cache (cache_key namespace d) = None) ->
  real_run newDate deps namespace (initial cache) es ->
  mg_calls (mrun (initial cache) es) !! cid = Some c -> ca_progress c = Returned (Ok v) ->
  verified_identity newDate deps (ca_domain c) v
  /\ exists pre now same post, es = pre ++ Finish cid now same :: post
      /\ mg_calls (mrun (initial cache) pre) !! cid = Some (with_progress (Checking v) c)
      /\ final_checks (dp_config deps) c now v = Ok v
      /\ (ca_enforceAcceptance c = true -> accepted deps c v)
      /\ fresh_at now v.
Proof.
  intros Hcache Hreal Hc Hp. split.
  - pose proof (sd_calls _ _ _ _ (real_run_sound newDate deps namespace cache es Hcache Hreal) cid c Hc) as H.
    unfold call_ok in H. rewrite Hp in H. apply H.
  - destruct (returned_at _ _ _ _ _ _ _ Hc Hp) as (pre & now & same & post & -> & Hpre & Hf).
    exists pre, now, same, post. split; [done|]. split; [done|]. split; [done|].
    unfold final_checks in Hf. apply bind_Ok in Hf as ([] & Hch & ([] & Hfresh & _)%bind_Ok).
    split; [intros He; by apply call_checks_accepted|by apply assertFresh_fresh].
Qed.

End Operations.

(** ** Witnesses *)

Section Example.
#[local] Existing Instances SimpleUrl AsciiUnicode ToyJwk InMemoryIdentityCache.

#[local] Notation example_manager es :=
  (SharedVerification.run (dp_config honest_dependencies) example_namespace (initial example_cache) es).

Lemma verifyDomain_sound_witness : exists v now, verified_identity example_date honest_dependencies bot v /\ fresh_at now v.
Proof.
  destruct two_calls_result as (v & v' & c & E & Hc & Hp & Hd).
  destruct (verifyDomain_sound example_date honest_dependencies example_namespace example_cache (two_calls v) 1 c v'
    (fun d => empty_content _) (two_calls_real v E) Hc Hp) as (H & pre & now & same & post & _ & _ & _ & _ & Hf).
  exists v', now. rewrite <-Hd. exact (conj H Hf).
Defined.

(** Two lookups of one domain; the first call gives up, another domain is looked up, and the
    second call gets the error of the operation. *)
Definition joined_calls : list event :=
  [VerifyDomain 1000 bot None true false; VerifyDomain 1001 bot None true false].
Definition interleaved : list event :=
  [Cancel 0; Then 0 1200 (Throw (EError "TypeError: fetch failed")); VerifyDomain 1201 (js "other.example.com") None true false;
   Catch 0; Finally 0; Resume 1].
Definition example_schedule (n : nat) : event := nth n interleaved (Finish 1 1300 false).
Definition second_call : call := mkCall bot None true false (Joined 0 true).

Lemma joined_run : mg_calls (example_manager joined_calls) !! 1%nat = Some second_call
  /\ returned (SharedVerification.run (dp_config honest_dependencies) example_namespace (example_manager joined_calls)
       (first_events example_schedule 6)) 1 second_call (Throw (EError "TypeError: fetch failed")).
Proof. split; vm_compute; reflexivity. Qed.

Lemma joined_reachable : reachable (dp_config honest_dependencies) example_namespace (example_manager joined_calls).
Proof. exists example_cache, joined_calls. reflexivity. Qed.

Lemma example_fair : fair (dp_config honest_dependencies) example_namespace (example_manager joined_calls) 1 second_call example_schedule.
Proof.
  intros n. exists (max n 6). split; [lia|]. right. eexists.
  destruct (first_events_app example_schedule 6 (max n 6) ltac:(lia)) as [es ->]. rewrite run_app.
  apply returned_stays. exact (proj2 joined_run).
Qed.

Lemma call_returns_witness :
  (exists n out, returned (SharedVerification.run (dp_config honest_dependencies) example_namespace (example_manager joined_calls)
     (first_events example_schedule n)) 1 second_call out)
  /\ exists s, answer (dp_config honest_dependencies) 1 second_call true (first_events example_schedule 6) s
       (Throw (EError "TypeError: fetch failed")).
Proof.
  destruct (call_returns _ _ _ 1 second_call 0 true joined_reachable (proj1 joined_run) eq_refl) as (_ & H1 & H2).
  split; [exact (H1 example_schedule example_fair)|].
  destruct (H2 _ _ (proj2 joined_run)) as (s & _ & Ha & _). exists s. exact Ha.
Defined.

(** A call that is made between the abort of an operation and its clean-up joins the aborted
    operation, and gets the cancellation of another caller. *)
Lemma joined_after_abort :
  ca_progress <$> mg_calls (example_manager
    [VerifyDomain 1000 bot None true false; Cancel 0; VerifyDomain 1001 bot None true false;
     Then 0 1002 (Throw cancellationError); Catch 0; Finally 0; Resume 1]) !! 1%nat
  = Some (Returned (Throw cancellationError)).
Proof. vm_compute. reflexivity. Qed.
End Example.
