(* ===== verification/DnsidConfig.v ===== *)
(** The configuration of an identity manager: [validateDnsidConfig] of
    [protocol/src/identity-manager.ts] and its use by the factory of
    [sdk/src/node-identity-manager.ts].

    A configuration is an arbitrary value; values that are not data (functions, dates) are
    not represented.  The snapshot is a record, whose absent fields are [None]. *)

From S2P Require Import Prelude JsString Base64 Url Utils Json Double Verification.

(** ** Data ([protocol/src/types.ts]) *)

Record IdentityConfig := mkIdentityConfig {
  ic_domain : jsstr; ic_governanceId : jsstr; ic_logRef : jsstr; ic_statusUrl : jsstr;
  ic_policyFlags : option jsstr; ic_maxKeyAge : option jsstr; ic_ekUrl : option jsstr; ic_kuUrl : option jsstr;
  ic_publishProfile : option jsstr; ic_capabilitiesUrl : option jsstr
}.
Record VerificationConfig := mkVerificationConfig {
  vc_statusCheckInterval : option number; vc_dnssecMode : option DNSSECMode;
  vc_trustedEntities : option (list TrustedEntity)
}.
Record TransportConfig := mkTransportConfig {
  tc_dnsServer : option jsstr; tc_caBundlePath : option jsstr; tc_privateAddressHosts : option (list jsstr)
}.
Record DnsidConfig := mkDnsidConfig {
  dc_identity : option IdentityConfig; dc_verification : VerificationConfig; dc_transport : TransportConfig
}.

Definition IDENTITY_KEYS : list jsstr :=
  [js "domain"; js "governanceId"; js "logRef"; js "statusUrl"; js "policyFlags"; js "maxKeyAge"; js "ekUrl";
   js "kuUrl"; js "publishProfile"; js "capabilitiesUrl"].
Definition VERIFICATION_KEYS : list jsstr := [js "statusCheckInterval"; js "dnssecMode"; js "trustedEntities"].
Definition TRANSPORT_KEYS : list jsstr := [js "dnsServer"; js "caBundlePath"; js "privateAddressHosts"].

(** [Object.values(DNSSECMode)] with the members they name. *)
Definition dnssec_modes : list (jsstr * DNSSECMode) :=
  [(js "auto", auto_mode); (js "validated", validated); (js "required", required)].

(** ** Parsing of a value *)

Definition requireObject (value : json) (path : string) (allowed : list jsstr) : res (list (jsstr * json)) :=
  match value with
  | JObject raw =>
      throw_if (existsb (fun kv => negb (bool_decide (fst kv ∈ allowed))) raw)
        (EArgument (path ++ " has unknown field"));;
      Ok raw
  | _ => Throw (EArgument (path ++ " must be an object"))
  end.

Definition optionalString (raw : list (jsstr * json)) (path : string) (key : jsstr) : res (option jsstr) :=
  match get_member raw key with
  | JUndefined => Ok None
  | JString s => Ok (Some s)
  | _ => Throw (EArgument (path ++ " field must be a string"))
  end.

(** A required string is present and not empty. *)
Definition required_string (raw : list (jsstr * json)) (path : string) (key : jsstr) : res jsstr :=
  v ← optionalString raw path key;
  match v with
  | Some (u :: s) => Ok (u :: s)
  | _ => Throw (EArgument (path ++ " field is required"))
  end.

(** [/^\d{1,3}(\.\d{1,3}){3}$/] *)
Definition is_ipv4_literal (s : jsstr) : bool :=
  let parts := split_on 46 s in
  (length parts =? 4)%nat
  && forallb (fun p => (1 <=? length p)%nat && (length p <=? 3)%nat && forallb is_digit p) parts.

(** [/^[a-z0-9]([a-z0-9-]*[a-z0-9])?(\.[a-z0-9]([a-z0-9-]*[a-z0-9])?)*$/] *)
Definition is_host_label (label : jsstr) : bool :=
  negb (length label =? 0)%nat && forallb is_ldh label && negb (hyphen_at_end label).
Definition is_hostname (s : jsstr) : bool := forallb is_host_label (split_on 46 s).

(** [/^[A-Za-z0-9_-]{43}$/] with a last character that carries no trailing bits. *)
Definition is_thumbprint (p : jsstr) : bool :=
  (length p =? 43)%nat && forallb is_b64url p && bool_decide (nth 42 p 0 ∈ js "AEIMQUYcgkosw048").

Definition pin_text (p : json) : option jsstr :=
  match p with JString s => if is_thumbprint s then Some s else None | _ => None end.

Definition thumbprint_pins (pins : json) : res (list jsstr) :=
  match pins with
  | JArray (p :: ps) =>
      match mapM pin_text (p :: ps) with
      | Some l =>
          throw_if (negb (distinct l)) (EArgument "entityKeyThumbprints contains duplicates");;
          Ok l
      | None => Throw (EArgument "entityKeyThumbprints must contain canonical base64url SHA-256 thumbprints")
      end
  | _ => Throw (EArgument "entityKeyThumbprints must be a non-empty array")
  end.

Section Config.
Context `{Url : URLApi} `{Uni : Unicode}.

Definition normalizePrivateAddressHost (entry : jsstr) : res jsstr :=
  let suffix := startsWith entry [46] in
  let host := if suffix then slice_from entry 1 else entry in
  let invalid := EArgument "invalid privateAddressHosts entry" in
  match new_URL (js "https://" ++ host) with
  | None => Throw invalid
  | Some parsed =>
      throw_if ((length host =? 0)%nat || includes host [47] || includes host [58]
                || negb (length (url_username parsed) =? 0)%nat || negb (length (url_password parsed) =? 0)%nat
                || negb (length (url_port parsed) =? 0)%nat || negb (bool_decide (url_pathname parsed = [47]))
                || negb (length (url_search parsed) =? 0)%nat || negb (length (url_hash parsed) =? 0)%nat
                || startsWith (url_hostname parsed) [91] || is_ipv4_literal (url_hostname parsed)) invalid;;
      let normalized := strip_trailing_dot (url_hostname parsed) in
      throw_if (negb (is_hostname normalized)) invalid;;
      Ok ((if suffix then [46] else []) ++ normalized)
  end.

Definition validateIdentity (value : json) : res IdentityConfig :=
  raw ← requireObject value "config.identity" IDENTITY_KEYS;
  let str := optionalString raw "config.identity" in
  domain ← required_string raw "config.identity" (js "domain");
  governanceId ← required_string raw "config.identity" (js "governanceId");
  logRef ← required_string raw "config.identity" (js "logRef");
  statusUrl ← required_string raw "config.identity" (js "statusUrl");
  domain ← catch (normalizeFQDN domain true)
             (fun _ => Throw (EArgument "config.identity.domain is not a valid agent FQDN"));
  governanceId ← (if isDomainName governanceId then
                    catch (normalizeFQDN governanceId false)
                      (fun _ => Throw (EArgument "config.identity.governanceId is not a valid FQDN"))
                  else Ok governanceId);
  policyFlags ← str (js "policyFlags");
  maxKeyAge ← str (js "maxKeyAge");
  ekUrl ← str (js "ekUrl");
  kuUrl ← str (js "kuUrl");
  publishProfile ← str (js "publishProfile");
  capabilitiesUrl ← str (js "capabilitiesUrl");
  Ok (mkIdentityConfig domain governanceId logRef statusUrl policyFlags maxKeyAge ekUrl kuUrl publishProfile
        capabilitiesUrl).

(** One entry of the allowlist, against the names [seen] before it. *)
Definition trusted_entity (seen : list jsstr) (entry : json) : res TrustedEntity :=
  raw ← requireObject entry "config.verification.trustedEntities[]" [js "governanceId"; js "entityKeyThumbprints"];
  match get_member raw (js "governanceId") with
  | JString g =>
      governanceId ← catch (normalizeFQDN g false) (fun _ => Throw (EArgument "governanceId is not a valid domain"));
      throw_if (bool_decide (governanceId ∈ seen)) (EArgument "governanceId duplicates an earlier entry");;
      match get_member raw (js "entityKeyThumbprints") with
      | JUndefined => Ok (mkTrustedEntity governanceId None)
      | pins => mkTrustedEntity governanceId ∘ Some <$> thumbprint_pins pins
      end
  | _ => Throw (EArgument "governanceId must be a string")
  end.

Fixpoint trusted_entities (seen : list jsstr) (l : list json) : res (list TrustedEntity) :=
  match l with
  | [] => Ok []
  | entry :: l =>
      e ← trusted_entity seen entry;
      es ← trusted_entities (te_governanceId e :: seen) l;
      Ok (e :: es)
  end.

Definition validateTrustedEntities (value : json) : res (list TrustedEntity) :=
  match value with
  | JArray l => trusted_entities [] l
  | _ => Throw (EArgument "config.verification.trustedEntities must be an array")
  end.

Definition status_check_interval (value : json) : res (option number) :=
  match value with
  | JUndefined => Ok None
  | JNumber n => if finite_non_negative n then Ok (Some n)
                 else Throw (EArgument "config.verification.statusCheckInterval must be a finite non-negative number")
  | _ => Throw (EArgument "config.verification.statusCheckInterval must be a finite non-negative number")
  end.

Definition dnssec_mode (value : json) : res (option DNSSECMode) :=
  match value with
  | JUndefined => Ok None
  | JString s =>
      match List.find (fun m => bool_decide (fst m = s)) dnssec_modes with
      | Some (_, m) => Ok (Some m)
      | None => Throw (EArgument "config.verification.dnssecMode must be one of auto, validated, required")
      end
  | _ => Throw (EArgument "config.verification.dnssecMode must be one of auto, validated, required")
  end.

Definition validateVerification (value : json) : res VerificationConfig :=
  raw ← requireObject value "config.verification" VERIFICATION_KEYS;
  interval ← status_check_interval (get_member raw (js "statusCheckInterval"));
  mode ← dnssec_mode (get_member raw (js "dnssecMode"));
  entities ← match get_member raw (js "trustedEntities") with
             | JUndefined => Ok None
             | v => Some <$> validateTrustedEntities v
             end;
  Ok (mkVerificationConfig interval mode entities).

Definition host_text (h : json) : option jsstr := match h with JString s => Some s | _ => None end.

Definition private_address_hosts (value : json) : res (option (list jsstr)) :=
  match value with
  | JUndefined => Ok None
  | JArray l =>
      match mapM host_text l with
      | Some hosts => Some <$> map_res normalizePrivateAddressHost hosts
      | None => Throw (EArgument "config.transport.privateAddressHosts must be an array of strings")
      end
  | _ => Throw (EArgument "config.transport.privateAddressHosts must be an array of strings")
  end.

Definition validateTransport (value : json) : res TransportConfig :=
  raw ← requireObject value "config.transport" TRANSPORT_KEYS;
  dnsServer ← optionalString raw "config.transport" (js "dnsServer");
  caBundlePath ← optionalString raw "config.transport" (js "caBundlePath");
  hosts ← private_address_hosts (get_member raw (js "privateAddressHosts"));
  Ok (mkTransportConfig dnsServer caBundlePath hosts).

(** [raw.x ?? {}] *)
Definition or_empty (v : json) : json := match v with JNull | JUndefined => JObject [] | _ => v end.

Definition validateDnsidConfig (config : json) : res DnsidConfig :=
  raw ← requireObject (match config with JUndefined => JObject [] | _ => config end) "config"
          [js "identity"; js "verification"; js "transport"];
  identity ← match get_member raw (js "identity") with
             | JUndefined => Ok None
             | v => Some <$> validateIdentity v
             end;
  verification ← validateVerification (or_empty (get_member raw (js "verification")));
  transport ← validateTransport (or_empty (get_member raw (js "transport")));
  Ok (mkDnsidConfig identity verification transport).

(** The checks of the constructor on its configuration and on the presence of key
    providers, and those of the factory on the injected dependencies. *)
Definition constructor_config (config : json) (keyProvider entityKeyProvider : bool) : res DnsidConfig :=
  c ← validateDnsidConfig config;
  match dc_identity c with
  | Some _ => throw_if (negb keyProvider) (EArgument "deps.keyProvider is required when config.identity is set")
  | None => throw_if (keyProvider || entityKeyProvider) (EArgument "key providers have no consumer without config.identity")
  end;;
  throw_if (bool_decide (tc_dnsServer (dc_transport c) <> None))
    (EArgument "config.transport.dnsServer has no SDK-managed consumer here; inject dnsResolver and fetchJson or use a runtime factory");;
  throw_if (bool_decide (tc_caBundlePath (dc_transport c) <> None))
    (EArgument "config.transport.caBundlePath has no SDK-managed consumer here; inject fetchJson or use a runtime factory");;
  throw_if (bool_decide (tc_privateAddressHosts (dc_transport c) <> None))
    (EArgument "config.transport.privateAddressHosts has no SDK-managed consumer here; inject fetchJson or use a runtime factory");;
  Ok c.

Definition validateInjectedTransport (t : TransportConfig) (dnsResolver fetchJson : bool) : res unit :=
  throw_if (bool_decide (tc_dnsServer t <> None) && dnsResolver && fetchJson)
    (EArgument "config.transport.dnsServer has no SDK-managed consumer when both dnsResolver and fetchJson are injected");;
  throw_if (bool_decide (tc_caBundlePath t <> None) && fetchJson)
    (EArgument "config.transport.caBundlePath has no SDK-managed consumer when fetchJson is injected");;
  throw_if (bool_decide (tc_privateAddressHosts t <> None) && fetchJson)
    (EArgument "config.transport.privateAddressHosts has no SDK-managed consumer when fetchJson is injected").

End Config.

(** ** Key pins *)

Lemma pin_last x : sextet x = true ->
  bool_decide (url_char x ∈ js "AEIMQUYcgkosw048") = (x mod 4 =? 0).
Proof. revert x. apply sextet_cases. repeat constructor. Qed.

Lemma last_nth42 (s : list Z) d : length s = 43%nat -> nth 42 s d = List.last s d.
Proof.
  intros H. destruct (exists_last (l := s)) as (s' & x & ->); [by destruct s|].
  rewrite length_app in H. cbn in H. rewrite last_last, app_nth2 by lia.
  by replace (42 - length s')%nat with O by lia.
Qed.

(** The pins that a configuration admits are exactly the canonical base64url texts of
    32-byte digests: decoding one and encoding it again gives it back, so two pins that
    differ as texts never denote the same key. *)
Theorem is_thumbprint_spec p : is_thumbprint p = true <-> exists d : bytes, zlen d = 32 /\ p = toBase64Url d.
Proof.
  unfold is_thumbprint. rewrite !andb_true_iff, Nat.eqb_eq. split.
  - intros [[Hn Ha] Hl]. destruct (url_text_sextets p Ha) as (s & Hs & <-). rewrite length_map in Hn.
    assert (Hlast : List.last s 0 mod 4 = 0).
    { rewrite (nth_indep _ 0 (url_char 0)), map_nth in Hl by (rewrite length_map; lia).
      apply forallb_true_Forall in Hs. rewrite Forall_forall in Hs.
      rewrite pin_last, last_nth42 in Hl by (done || apply Hs, list_elem_of_In, nth_In; lia). lia. }
    assert (E : sextets (of_sextets s) = s).
    { apply sextets_of_sextets; [done|]. unfold no_spare_bits. rewrite Hn. cbn [Nat.modulo Nat.divmod fst snd Nat.sub].
      by rewrite Hlast. }
    exists (of_sextets s). split; [|by rewrite toBase64Url_sextets, E].
    pose proof (length_sextets (of_sextets s)) as H. rewrite E in H. unfold zlen at 1 in H. rewrite Hn in H.
    destruct (Z.eqb_spec (zlen (of_sextets s) mod 3) 0); divmod_lia.
  - intros (d & Hd & ->). pose proof (length_sextets d) as Hn. rewrite Hd in Hn. change (_ + _) with 43 in Hn.
    assert (Hn' : length (sextets d) = 43%nat) by (unfold zlen in Hn; lia).
    split; [split; [by rewrite toBase64Url_sextets, length_map|apply toBase64Url_alphabet]|].
    rewrite toBase64Url_sextets, (nth_indep _ 0 (url_char 0)), map_nth by (rewrite length_map; lia).
    pose proof (sextets_range d) as Hs. apply forallb_true_Forall in Hs. rewrite Forall_forall in Hs.
    rewrite pin_last by (apply Hs, list_elem_of_In, nth_In; lia).
    pose proof (sextets_no_spare d) as H. unfold no_spare_bits in H. rewrite Hn' in H.
    cbn [Nat.modulo Nat.divmod fst snd Nat.sub] in H. by rewrite last_nth42.
Qed.

(** What the code reads of a list of pins. *)
Lemma pin_texts js' l : mapM pin_text js' = Some l <->
  js' = map JString l /\ Forall (fun p => is_thumbprint p = true) l.
Proof.
  rewrite mapM_Some. split.
  - induction 1 as [|j s js' l Hj _ [-> IH]]; [done|]. unfold pin_text in Hj. destruct j as [| | | |t| |]; try done.
    destruct (is_thumbprint t) eqn:Et; [|done]. injection Hj as ->. by split; [|constructor].
  - intros [-> H]. induction H as [|p l Hp _ IH]; constructor; [|done]. cbn. by rewrite Hp.
Qed.

Lemma thumbprint_pins_Ok pins l : thumbprint_pins pins = Ok l <->
  l <> [] /\ pins = JArray (map JString l) /\ Forall (fun p => is_thumbprint p = true) l /\ NoDup l.
Proof.
  unfold thumbprint_pins. split.
  - destruct pins as [| | | | |[|p ps]|]; try done.
    destruct (mapM _ _) as [l'|] eqn:E; [|done]. intros (? & Hd%throw_if_Ok & [= ->])%bind_Ok.
    apply negb_false_iff, bool_decide_eq_true in Hd. apply pin_texts in E as [Ep Hl].
    split; [by intros ->|by rewrite Ep].
  - intros (Hne & -> & Hl & Hd). destruct l as [|p l]; [done|].
    cbn [map]. change (JString p :: map JString l) with (map JString (p :: l)).
    rewrite (proj2 (pin_texts _ _) (conj eq_refl Hl)). unfold distinct. by rewrite bool_decide_eq_true_2.
Qed.

(** ** The snapshot as a configuration

    The object that [validateDnsidConfig] returns, which the factory passes on to the
    constructor. *)

Definition members_of (fields : list (jsstr * option json)) : list (jsstr * json) :=
  omap (fun kv => pair (fst kv) <$> snd kv) fields.
Definition string_field (key : jsstr) (v : option jsstr) : jsstr * option json := (key, JString <$> v).

Definition identity_fields (c : IdentityConfig) : list (jsstr * option json) :=
  [string_field (js "domain") (Some (ic_domain c)); string_field (js "governanceId") (Some (ic_governanceId c));
   string_field (js "logRef") (Some (ic_logRef c)); string_field (js "statusUrl") (Some (ic_statusUrl c));
   string_field (js "policyFlags") (ic_policyFlags c); string_field (js "maxKeyAge") (ic_maxKeyAge c);
   string_field (js "ekUrl") (ic_ekUrl c); string_field (js "kuUrl") (ic_kuUrl c);
   string_field (js "publishProfile") (ic_publishProfile c);
   string_field (js "capabilitiesUrl") (ic_capabilitiesUrl c)].

Definition entity_fields (e : TrustedEntity) : list (jsstr * option json) :=
  [string_field (js "governanceId") (Some (te_governanceId e));
   (js "entityKeyThumbprints", JArray ∘ map JString <$> te_entityKeyThumbprints e)].

Definition mode_name (m : DNSSECMode) : jsstr :=
  match m with auto_mode => js "auto" | validated => js "validated" | required => js "required" end.

Definition verification_fields (c : VerificationConfig) : list (jsstr * option json) :=
  [(js "statusCheckInterval", JNumber <$> vc_statusCheckInterval c);
   string_field (js "dnssecMode") (mode_name <$> vc_dnssecMode c);
   (js "trustedEntities", JArray ∘ map (fun e => JObject (members_of (entity_fields e))) <$> vc_trustedEntities c)].

Definition transport_fields (c : TransportConfig) : list (jsstr * option json) :=
  [string_field (js "dnsServer") (tc_dnsServer c); string_field (js "caBundlePath") (tc_caBundlePath c);
   (js "privateAddressHosts", JArray ∘ map JString <$> tc_privateAddressHosts c)].

Definition object_of (fields : list (jsstr * option json)) : json := JObject (members_of fields).

Definition config_object (c : DnsidConfig) : json :=
  object_of [(js "identity", Some (from_option (object_of ∘ identity_fields) JUndefined (dc_identity c)));
             (js "verification", Some (object_of (verification_fields (dc_verification c))));
             (js "transport", Some (object_of (transport_fields (dc_transport c))))].

(** The snapshot without its transport settings, which is what the factory passes on. *)
Definition core_object (c : DnsidConfig) : json :=
  object_of [(js "identity", Some (from_option (object_of ∘ identity_fields) JUndefined (dc_identity c)));
             (js "verification", Some (object_of (verification_fields (dc_verification c))))].
Definition no_transport : TransportConfig := mkTransportConfig None None None.

(** The configuration of the manager that the factory builds, and the transport settings
    of the default resolver and fetcher. *)
Definition createNodeIdentityManager `{Url : URLApi} `{Uni : Unicode} (config : json)
    (keyProvider entityKeyProvider dnsResolver fetchJson : bool) : res (DnsidConfig * TransportConfig) :=
  c ← validateDnsidConfig config;
  validateInjectedTransport (dc_transport c) dnsResolver fetchJson;;
  m ← constructor_config (core_object c) keyProvider entityKeyProvider;
  Ok (m, dc_transport c).

Lemma get_member_fields fields k v : NoDup (map fst fields) -> (k, v) ∈ fields ->
  get_member (members_of fields) k = default JUndefined v.
Proof.
  induction fields as [|[k0 v0] fields IH]; intros Hn Hin; [by apply elem_of_nil in Hin|].
  apply NoDup_cons in Hn as [Hk Hn]. cbn in Hk.
  assert (Hno : forall k', k' ∉ map fst fields -> get_member (members_of fields) k' = JUndefined).
  { clear. induction fields as [|[k v] fields IH]; intros k' Hk'; [done|]. cbn in Hk'.
    rewrite not_elem_of_cons in Hk'. destruct Hk' as [Hne Hk']. unfold members_of. cbn.
    destruct v; cbn; [rewrite bool_decide_eq_false_2 by done|]; by apply IH. }
  apply elem_of_cons in Hin as [[= -> ->]|Hin]; unfold members_of; cbn.
  - destruct v0; cbn; [by rewrite bool_decide_eq_true_2|by apply Hno].
  - assert (k0 <> k) by (intros ->; apply Hk; exact (list_elem_of_fmap_2 fst _ _ Hin)).
    destruct v0; cbn; [rewrite bool_decide_eq_false_2 by done|]; by apply IH.
Qed.

Lemma requireObject_fields fields path allowed : map fst fields = allowed ->
  requireObject (object_of fields) path allowed = Ok (members_of fields).
Proof.
  intros <-. unfold requireObject, object_of.
  replace (existsb _ _) with false; [done|]. symmetry. apply existsb_false_Forall, Forall_forall.
  intros [k v] H. apply negb_false_iff, bool_decide_eq_true. unfold members_of in H.
  apply list_elem_of_omap in H as ([k' v'] & Hin & H). cbn in H. destruct v'; [|done]. injection H as -> ->.
  exact (list_elem_of_fmap_2 fst _ _ Hin).
Qed.

Lemma optionalString_fields fields path k v : NoDup (map fst fields) -> string_field k v ∈ fields ->
  optionalString (members_of fields) path k = Ok v.
Proof.
  intros Hn Hin. unfold optionalString. rewrite (get_member_fields _ _ _ Hn Hin). by destruct v.
Qed.

(** ** Stability

    What the platform documents of its URL parser and Unicode tables: the host that it
    prints for a name is a host that it reads as itself, with nothing around it, and an IPv4
    address is printed without a root dot; letters, digits, hyphens and dots are neither
    control characters nor separators. *)

Definition plain_host `{Url : URLApi} (v : URL) (host : jsstr) : Prop :=
  url_hostname v = host /\ url_pathname v = [47] /\ url_search v = [] /\ url_hash v = [] /\ url_port v = []
  /\ url_username v = [] /\ url_password v = [].

Lemma is_host_label_valid l : valid_label l -> is_host_label l = true.
Proof. intros (Hne & Hl & Hh & _). unfold is_host_label. rewrite Hl, Hh. by destruct l. Qed.

Lemma hostname_units s : is_hostname s = true -> forallb (fun u => is_ldh u || (u =? 46)) s = true.
Proof.
  intros H. rewrite <-(join_split 46 s). unfold is_hostname in H. apply forallb_true_Forall in H.
  induction H as [|l ls Hl _ IH]; [done|].
  assert (Hu : forallb (fun u => is_ldh u || (u =? 46)) l = true).
  { unfold is_host_label in Hl. bool_inv. apply forallb_true_Forall. apply forallb_true_Forall in H1.
    eapply Forall_impl; [exact H1|]. cbn. by intros u ->. }
  destruct ls as [|l' ls]; [exact Hu|]. rewrite join_cons, !forallb_app, Hu, IH. done.
Qed.

Lemma hostname_no_dot_end s : is_hostname s = true -> strip_trailing_dot s = s.
Proof.
  intros H. unfold strip_trailing_dot. destruct (endsWith s [46]) eqn:E; [|done].
  apply endsWith_spec in E as [t ->]. unfold is_hostname in H. rewrite split_on_snoc, forallb_app in H.
  by apply andb_true_iff in H as [_ H].
Qed.

Lemma hostname_start s c : is_hostname s = true -> is_ldh c || (c =? 46) = false -> startsWith s [c] = false.
Proof.
  intros H%hostname_units Hc. apply not_true_is_false. intros [t ->]%startsWith_spec. cbn in H. by rewrite Hc in H.
Qed.

Section Stable.
Context `{Url : URLApi} `{Uni : Unicode}.
Hypothesis host_stable : forall name u, new_URL (js "https://" ++ name) = Some u ->
  is_hostname (strip_trailing_dot (url_hostname u)) = true ->
  exists v, new_URL (js "https://" ++ strip_trailing_dot (url_hostname u)) = Some v
    /\ plain_host v (strip_trailing_dot (url_hostname u)).
Hypothesis ipv4_printed_plain : forall name u, new_URL (js "https://" ++ name) = Some u ->
  is_ipv4_literal (strip_trailing_dot (url_hostname u)) = true -> is_ipv4_literal (url_hostname u) = true.
Hypothesis host_units_printable : forall u, is_ldh u || (u =? 46) = true -> is_other_or_separator u = false.

Lemma hostname_clean (s : jsstr) : is_hostname s = true ->
  map_dots s = s /\ existsb invalid_fqdn_unit (code_points s) = false
  /\ existsb hyphen_at_end (split_on 46 s) = false /\ s <> [].
Proof.
  intros H. pose proof (hostname_units s H) as Hu. split_and!.
  - clear H. unfold map_dots. induction s as [|u s IH]; [done|]. cbn in Hu |- *. apply andb_true_iff in Hu as [Hu Hs].
    rewrite (IH Hs). f_equal. unfold is_ideographic_dot, is_ldh, is_lower, is_digit in *.
    by replace _ with false by lia.
  - apply existsb_false_Forall. clear H. induction s as [|u s IH]; [constructor|]. cbn in Hu.
    apply andb_true_iff in Hu as [Hu Hs]. cbn [code_points].
    replace (is_high u) with false by (unfold is_high, is_ldh, is_lower, is_digit in *; lia).
    constructor; [|by apply IH]. unfold invalid_fqdn_unit. rewrite (host_units_printable _ Hu), orb_false_r.
    apply bool_decide_eq_false. intros Hin. change (js "/\:@?#%") with [47; 92; 58; 64; 63; 35; 37] in Hin.
    rewrite !elem_of_cons, elem_of_nil in Hin. unfold is_ldh, is_lower, is_digit in Hu. lia.
  - apply existsb_false_Forall. unfold is_hostname in H. apply forallb_true_Forall in H.
    eapply Forall_impl; [exact H|]. cbn. unfold is_host_label. intros l Hl. by bool_inv.
  - by intros ->.
Qed.

Lemma normalized_hostname name agent n : normalizeFQDN name agent = Ok n -> is_hostname n = true.
Proof.
  intros (Hl & _)%normalizeFQDN_inv. unfold is_hostname. apply forallb_true_Forall.
  eapply Forall_impl; [exact Hl|]. exact is_host_label_valid.
Qed.

(** A normalized name is its own normal form. *)
Lemma normalizeFQDN_stable name agent n : normalizeFQDN name agent = Ok n -> normalizeFQDN n agent = Ok n.
Proof.
  intros H. pose proof (normalized_hostname _ _ _ H) as Hn.
  pose proof (normalizeFQDN_inv _ _ _ H) as (Hl & Ho & Ha & Hip & m & Hm).
  destruct (hostname_clean n Hn) as (Hd & Hc & Hh & Hne).
  unfold url_host_of in Hm. apply bind_Ok in Hm as (u & Hu%of_option_Ok & Hm).
  apply bind_Ok in Hm as (? & _ & [= Eu]).
  destruct (host_stable m u Hu) as (v & Hv & Hp); rewrite Eu, hostname_no_dot_end in * by done; [done|].
  destruct Hp as (Hp1 & Hp2 & Hp3 & Hp4 & Hp5 & Hp6 & Hp7).
  unfold normalizeFQDN. cbv zeta. rewrite Hd, hostname_no_dot_end, Hd, Hc, Hh by done.
  replace (length n =? 0)%nat with false by (by destruct n).
  cbn [throw_if mbind res_bind]. unfold url_host_of. rewrite Hv. cbn [of_option mbind res_bind].
  rewrite Hp2, Hp3, Hp4, Hp5, Hp6, Hp7, Hp1. cbn [length Nat.eqb negb orb throw_if mbind res_bind].
  rewrite bool_decide_eq_true_2 by done. cbn [negb orb throw_if mbind res_bind]. rewrite Hip.
  replace (length n =? 0)%nat with false by (by destruct n).
  rewrite hostname_start by done.
  cbn [orb throw_if mbind res_bind].
  rewrite (proj2 (for_each_unit check_label _ tt)) by (eapply Forall_impl; [exact Hl|]; intros l; apply check_label_Ok).
  cbn [mbind res_bind]. rewrite (proj2 (Z.ltb_ge MAX_FQDN_OCTETS _) Ho). cbn [throw_if mbind res_bind].
  destruct agent; cbn [andb throw_if mbind res_bind]; [|done].
  by rewrite (proj2 (Z.ltb_ge MAX_AGENT_FQDN_OCTETS _) (Ha eq_refl)).
Qed.

(** The normal form of a private host is its own normal form. *)
Lemma normalizePrivateAddressHost_stable entry h :
  normalizePrivateAddressHost entry = Ok h -> normalizePrivateAddressHost h = Ok h.
Proof.
  unfold normalizePrivateAddressHost at 1. cbv zeta.
  set (host := if startsWith entry [46] then slice_from entry 1 else entry).
  destruct (new_URL (js "https://" ++ host)) as [u|] eqn:Hu; [|done].
  intros (? & Hc%throw_if_Ok & (? & Hn%throw_if_Ok & [= <-])%bind_Ok)%bind_Ok. apply negb_false_iff in Hn.
  destruct (host_stable host u Hu Hn) as (v & Hv & Hp1 & Hp2 & Hp3 & Hp4 & Hp5 & Hp6 & Hp7).
  destruct (hostname_clean _ Hn) as (_ & _ & _ & Hne). pose proof (hostname_units _ Hn) as Hun.
  rewrite orb_false_iff in Hc. destruct Hc as [Hc Hip]. set (n := strip_trailing_dot (url_hostname u)) in *.
  assert (Hx : (if startsWith ((if startsWith entry [46] then [46] else []) ++ n) [46]
                then slice_from ((if startsWith entry [46] then [46] else []) ++ n) 1
                else (if startsWith entry [46] then [46] else []) ++ n) = n
               /\ startsWith ((if startsWith entry [46] then [46] else []) ++ n) [46] = startsWith entry [46]).
  { assert (Hdot : startsWith n [46] = false).
    { apply not_true_is_false. intros [t Et]%startsWith_spec. unfold is_hostname in Hn. by rewrite Et in Hn. }
    destruct (startsWith entry [46]); [|cbn [app]; by rewrite Hdot].
    rewrite (startsWith_app [46] n). by split. }
  destruct Hx as [Hx1 Hx2]. unfold normalizePrivateAddressHost. cbv zeta. rewrite Hx1, Hv, Hx2, Hp1.
  replace (length n =? 0)%nat with false by (by destruct n).
  assert (Hno : forall c, is_ldh c || (c =? 46) = false -> includes n [c] = false).
  { intros c Hc'. unfold includes. rewrite indexOf_none; [done|].
    intros Hin. by rewrite (forallb_not_elem _ c n Hc' Hun) in Hin || apply (forallb_not_elem _ c n Hc' Hun Hin). }
  rewrite (Hno 47), (Hno 58), Hp2, Hp3, Hp4, Hp5, Hp6, Hp7 by done.
  rewrite bool_decide_eq_true_2 by done. cbn [length Nat.eqb negb orb].
  rewrite (hostname_start n 91 Hn) by done.
  replace (is_ipv4_literal n) with false
    by (symmetry; apply not_true_is_false; intros E%(ipv4_printed_plain host u Hu); by rewrite E in Hip).
  cbn [orb throw_if mbind res_bind]. rewrite hostname_no_dot_end, Hn by done. done.
Qed.

Lemma required_string_Ok raw path key s : required_string raw path key = Ok s ->
  optionalString raw path key = Ok (Some s) /\ s <> [].
Proof. intros (v & Hv & H)%bind_Ok. by destruct v as [[|u v]|]; [|injection H as <-|]. Qed.

Lemma required_string_fields fields path k s : NoDup (map fst fields) -> string_field k (Some s) ∈ fields -> s <> [] ->
  required_string (members_of fields) path k = Ok s.
Proof.
  intros Hn Hin Hs. unfold required_string. rewrite (optionalString_fields _ _ _ _ Hn Hin). by destruct s.
Qed.

Lemma validateIdentity_stable j c : validateIdentity j = Ok c -> validateIdentity (object_of (identity_fields c)) = Ok c.
Proof.
  unfold validateIdentity at 1. intros (raw & _ & H)%bind_Ok. cbv zeta in H.
  apply bind_Ok in H as (d & _ & H). apply bind_Ok in H as (g & Hg%required_string_Ok & H).
  apply bind_Ok in H as (l & Hl%required_string_Ok & H). apply bind_Ok in H as (s & Hs%required_string_Ok & H).
  apply bind_Ok in H as (domain & Hd & H). apply catch_Ok in Hd as [Hd|(? & _ & Hd)]; [|done].
  apply bind_Ok in H as (gi & Hgi & H). do 6 apply bind_Ok in H as (? & _ & H). injection H as <-.
  set (c := mkIdentityConfig _ _ _ _ _ _ _ _ _ _).
  assert (Hnd : NoDup (map fst (identity_fields c))) by (apply (bool_decide_unpack _); vm_compute; exact I).
  assert (Hne : forall a n b, normalizeFQDN a b = Ok n -> n <> []).
  { intros a n b Hn -> . by apply normalized_hostname in Hn. }
  assert (Hgi' : (if isDomainName gi
                  then catch (normalizeFQDN gi false)
                         (fun _ => Throw (EArgument "config.identity.governanceId is not a valid FQDN"))
                  else Ok gi) = Ok gi /\ gi <> []).
  { destruct (isDomainName g) eqn:E; [|injection Hgi as <-; rewrite E; by split; [|apply Hg]].
    apply catch_Ok in Hgi as [Hgi|(? & _ & Hgi)]; [|done]. split; [|by eapply Hne].
    destruct (isDomainName gi); [|done]. by rewrite (normalizeFQDN_stable _ _ _ Hgi). }
  unfold validateIdentity. rewrite requireObject_fields by done. cbn [mbind res_bind]. cbv zeta.
  rewrite (required_string_fields _ _ (js "domain") domain Hnd), (required_string_fields _ _ (js "governanceId") gi Hnd),
    (required_string_fields _ _ (js "logRef") l Hnd), (required_string_fields _ _ (js "statusUrl") s Hnd)
    by (solve [by eapply Hne|apply Hgi'|apply Hl|apply Hs|repeat constructor]).
  cbn [mbind res_bind]. rewrite (normalizeFQDN_stable _ _ _ Hd). cbn [catch mbind res_bind].
  rewrite (proj1 Hgi'). cbn [mbind res_bind].
  rewrite (optionalString_fields _ _ (js "policyFlags") (ic_policyFlags c) Hnd),
    (optionalString_fields _ _ (js "maxKeyAge") (ic_maxKeyAge c) Hnd),
    (optionalString_fields _ _ (js "ekUrl") (ic_ekUrl c) Hnd),
    (optionalString_fields _ _ (js "kuUrl") (ic_kuUrl c) Hnd),
    (optionalString_fields _ _ (js "publishProfile") (ic_publishProfile c) Hnd),
    (optionalString_fields _ _ (js "capabilitiesUrl") (ic_capabilitiesUrl c) Hnd)
    by (repeat constructor).
  done.
Qed.

Lemma trusted_entity_stable seen j e : trusted_entity seen j = Ok e ->
  trusted_entity seen (object_of (entity_fields e)) = Ok e.
Proof.
  unfold trusted_entity at 1. intros (raw & _ & H)%bind_Ok.
  destruct (get_member raw (js "governanceId")) as [| | | |g| |]; try done.
  apply bind_Ok in H as (n & Hn & H). apply catch_Ok in Hn as [Hn|(? & _ & Hn)]; [|done].
  apply bind_Ok in H as (? & Hs%throw_if_Ok & H).
  assert (He : te_governanceId e = n /\ forall pins, te_entityKeyThumbprints e = Some pins ->
            thumbprint_pins (JArray (map JString pins)) = Ok pins).
  { assert (Hp : forall v, mkTrustedEntity n ∘ Some <$> thumbprint_pins v = Ok e ->
              te_governanceId e = n /\ forall pins, te_entityKeyThumbprints e = Some pins ->
              thumbprint_pins (JArray (map JString pins)) = Ok pins).
    { intros v Hv. destruct (thumbprint_pins v) as [l|] eqn:E; [|done]. injection Hv as <-. split; [done|].
      intros ? [= <-]. apply thumbprint_pins_Ok in E as (? & _ & ? & ?). by apply thumbprint_pins_Ok. }
    destruct (get_member raw (js "entityKeyThumbprints")); try (by eapply Hp).
    injection H as <-. done. }
  destruct He as [<- Hp].
  assert (Hnd : NoDup (map fst (entity_fields e))) by (apply (bool_decide_unpack _); vm_compute; exact I).
  unfold trusted_entity. rewrite requireObject_fields by done. cbn [mbind res_bind].
  rewrite (get_member_fields _ (js "governanceId") (Some (JString (te_governanceId e))) Hnd) by (repeat constructor).
  rewrite (get_member_fields _ (js "entityKeyThumbprints") (JArray ∘ map JString <$> te_entityKeyThumbprints e) Hnd) by (repeat constructor).
  cbn [default from_option id]. rewrite (normalizeFQDN_stable _ _ _ Hn). cbn [catch mbind res_bind].
  rewrite Hs. cbn [throw_if mbind res_bind]. destruct e as [g' [pins|]]; [|done].
  cbn [te_entityKeyThumbprints te_governanceId fmap option_fmap option_map compose default from_option id].
  by rewrite (Hp pins eq_refl).
Qed.

Lemma trusted_entities_stable seen l es : trusted_entities seen l = Ok es ->
  trusted_entities seen (map (fun e => object_of (entity_fields e)) es) = Ok es.
Proof.
  revert seen es. induction l as [|j l IH]; intros seen es H; [by injection H as <-|].
  apply bind_Ok in H as (e & He & H). apply bind_Ok in H as (es' & Hes & [= <-]).
  cbn [map trusted_entities]. rewrite (trusted_entity_stable _ _ _ He). cbn [mbind res_bind].
  by rewrite (IH _ _ Hes).
Qed.

Lemma validateVerification_stable j c : validateVerification j = Ok c ->
  validateVerification (object_of (verification_fields c)) = Ok c.
Proof.
  unfold validateVerification at 1. intros (raw & _ & H)%bind_Ok.
  apply bind_Ok in H as (i & Hi & H). apply bind_Ok in H as (m & _ & H). apply bind_Ok in H as (es & Hes & [= <-]).
  set (c := mkVerificationConfig _ _ _).
  assert (Hnd : NoDup (map fst (verification_fields c))) by (apply (bool_decide_unpack _); vm_compute; exact I).
  unfold validateVerification. rewrite requireObject_fields by done. cbn [mbind res_bind].
  rewrite (get_member_fields _ (js "statusCheckInterval") (JNumber <$> i) Hnd) by (repeat constructor).
  rewrite (get_member_fields _ (js "dnssecMode") (JString <$> (mode_name <$> m)) Hnd) by (repeat constructor).
  rewrite (get_member_fields _ (js "trustedEntities") (JArray ∘ map (fun e => JObject (members_of (entity_fields e))) <$> es) Hnd)
    by (repeat constructor).
  assert (Hi' : status_check_interval (default JUndefined (JNumber <$> i)) = Ok i).
  { unfold status_check_interval in *. destruct (get_member raw _) as [| | |n| | |]; try done; [by injection Hi as <-|].
    destruct (finite_non_negative n) eqn:E; [|done]. injection Hi as <-. cbn. by rewrite E. }
  rewrite Hi'. cbn [mbind res_bind].
  replace (dnssec_mode _) with (@Ok (option DNSSECMode) m) by (by destruct m as [[]|]). cbn [mbind res_bind].
  assert (Hes' : match es with None => True | Some es => trusted_entities [] (map (fun e => object_of (entity_fields e)) es) = Ok es end).
  { unfold validateTrustedEntities in Hes.
    destruct (get_member raw (js "trustedEntities")) as [| | | | |l|]; try done; [by injection Hes as <-|].
    destruct (trusted_entities [] l) as [es'|] eqn:E; [|done]. injection Hes as <-. by eapply trusted_entities_stable. }
  destruct es as [es|]; [|done]. unfold object_of in Hes'.
  cbn [fmap option_fmap option_map compose default from_option id validateTrustedEntities]. by rewrite Hes'.
Qed.

Lemma validateTransport_stable j c : validateTransport j = Ok c ->
  validateTransport (object_of (transport_fields c)) = Ok c.
Proof.
  unfold validateTransport at 1. intros (raw & _ & H)%bind_Ok.
  apply bind_Ok in H as (d & _ & H). apply bind_Ok in H as (b & _ & H). apply bind_Ok in H as (hs & Hh & [= <-]).
  set (c := mkTransportConfig _ _ _).
  assert (Hnd : NoDup (map fst (transport_fields c))) by (apply (bool_decide_unpack _); vm_compute; exact I).
  unfold validateTransport. rewrite requireObject_fields by done. cbn [mbind res_bind].
  rewrite (optionalString_fields _ _ (js "dnsServer") d Hnd), (optionalString_fields _ _ (js "caBundlePath") b Hnd)
    by (repeat constructor). cbn [mbind res_bind].
  rewrite (get_member_fields _ (js "privateAddressHosts") (JArray ∘ map JString <$> hs) Hnd) by (repeat constructor).
  destruct hs as [hs|]; [|done]. cbn [fmap option_fmap option_map compose default from_option id private_address_hosts].
  assert (Hm : forall l, mapM host_text (map JString l) = Some l)
    by (intros l; apply mapM_Some; induction l; by constructor).
  rewrite Hm. unfold private_address_hosts in Hh. destruct (get_member raw (js "privateAddressHosts")) as [| | | | |l|]; try done.
  destruct (mapM host_text l) as [hosts|]; [|done]. destruct (map_res _ hosts) as [hs'|] eqn:E; [|done].
  injection Hh as <-. replace (map_res normalizePrivateAddressHost hs') with (@Ok (list jsstr) hs'); [done|].
  symmetry. apply map_res_Forall2. apply map_res_Forall2 in E. clear -E host_stable ipv4_printed_plain host_units_printable.
  induction E as [|h n hosts ns Hn _ IH]; [constructor|].
  constructor; [by eapply normalizePrivateAddressHost_stable|done].
Qed.

Lemma validateDnsidConfig_Ok j c : validateDnsidConfig j = Ok c ->
  (forall i, dc_identity c = Some i -> exists v, validateIdentity v = Ok i)
  /\ (exists v, validateVerification v = Ok (dc_verification c))
  /\ (exists v, validateTransport v = Ok (dc_transport c)).
Proof.
  intros (raw & _ & H)%bind_Ok. apply bind_Ok in H as (i & Hi & H). apply bind_Ok in H as (v & Hv & H).
  apply bind_Ok in H as (t & Ht & [= <-]). split; [|by split; eexists]. intros i' E. cbn in E. subst i.
  assert (Hs : forall x, Some <$> validateIdentity x = Ok (Some i') -> exists v, validateIdentity v = Ok i').
  { intros x Hx. exists x. by destruct (validateIdentity x); [injection Hx as ->|]. }
  destruct (get_member raw (js "identity")); try done; by eapply Hs.
Qed.

Lemma validate_members j c t raw : validateDnsidConfig j = Ok c ->
  requireObject (JObject raw) "config" [js "identity"; js "verification"; js "transport"] = Ok raw ->
  get_member raw (js "identity") = from_option (object_of ∘ identity_fields) JUndefined (dc_identity c) ->
  get_member raw (js "verification") = object_of (verification_fields (dc_verification c)) ->
  validateTransport (or_empty (get_member raw (js "transport"))) = Ok t ->
  validateDnsidConfig (JObject raw) = Ok (mkDnsidConfig (dc_identity c) (dc_verification c) t).
Proof.
  intros (Hi & (v & Hv) & _)%validateDnsidConfig_Ok Hr Ei Ev Ht. unfold validateDnsidConfig. rewrite Hr.
  cbn [mbind res_bind]. rewrite Ei, Ev, Ht. cbn [or_empty object_of].
  pose proof (validateVerification_stable _ _ Hv) as Hv'. unfold object_of in Hv' |- *.
  destruct (dc_identity c) as [i|] eqn:E; cbn [from_option compose].
  - destruct (Hi i eq_refl) as [w Hw]. pose proof (validateIdentity_stable _ _ Hw) as Hw'. unfold object_of in Hw'.
    rewrite Hw'. cbn [fmap res_fmap mbind res_bind]. by rewrite Hv'.
  - cbn [mbind res_bind]. by rewrite Hv'.
Qed.

(** A snapshot is a valid configuration, and the snapshot of itself. *)
Lemma validateDnsidConfig_stable j c : validateDnsidConfig j = Ok c -> validateDnsidConfig (config_object c) = Ok c.
Proof.
  intros H. pose proof (validateDnsidConfig_Ok _ _ H) as (_ & _ & t & Ht).
  replace c with (mkDnsidConfig (dc_identity c) (dc_verification c) (dc_transport c)) at 2 by (by destruct c).
  apply (validate_members j c (dc_transport c)); [done|..].
  - by apply requireObject_fields.
  - reflexivity.
  - reflexivity.
  - exact (validateTransport_stable _ _ Ht).
Qed.

Lemma validate_core j c : validateDnsidConfig j = Ok c ->
  validateDnsidConfig (core_object c) = Ok (mkDnsidConfig (dc_identity c) (dc_verification c) no_transport).
Proof.
  intros H. apply (validate_members j c no_transport); [done|done|..].
  - reflexivity.
  - reflexivity.
  - done.
Qed.

(** The factory validates a configuration, passes the snapshot on without its transport
    settings, and the constructor validates it again.  The second validation changes
    nothing and refuses nothing that the first accepted: the manager has the identity and
    verification settings of the first snapshot, and the only further refusals are the
    checks on the injected dependencies. *)
Theorem createNodeIdentityManager_config config keyProvider entityKeyProvider dnsResolver fetchJson :
  createNodeIdentityManager config keyProvider entityKeyProvider dnsResolver fetchJson =
  (c ← validateDnsidConfig config;
   validateInjectedTransport (dc_transport c) dnsResolver fetchJson;;
   match dc_identity c with
   | Some _ => throw_if (negb keyProvider) (EArgument "deps.keyProvider is required when config.identity is set")
   | None => throw_if (keyProvider || entityKeyProvider)
               (EArgument "key providers have no consumer without config.identity")
   end;;
   Ok (mkDnsidConfig (dc_identity c) (dc_verification c) no_transport, dc_transport c)).
Proof.
  unfold createNodeIdentityManager. destruct (validateDnsidConfig config) as [c|e] eqn:E; [|done].
  cbn [mbind res_bind]. destruct (validateInjectedTransport _ _ _) as [[]|e]; [|done]. cbn [mbind res_bind].
  unfold constructor_config. rewrite (validate_core _ _ E). cbn [mbind res_bind dc_identity dc_transport].
  destruct (dc_identity c); by destruct keyProvider, entityKeyProvider.
Qed.
End Stable.

(** ** The allowlist *)

Section Allowlist.
Context `{Url : URLApi} `{Uni : Unicode}.

Lemma trusted_entity_new seen j e : trusted_entity seen j = Ok e -> te_governanceId e ∉ seen
  /\ (exists g, normalizeFQDN g false = Ok (te_governanceId e))
  /\ forall pins, te_entityKeyThumbprints e = Some pins ->
       pins <> [] /\ Forall (fun p => is_thumbprint p = true) pins /\ NoDup pins.
Proof.
  intros (raw & _ & H)%bind_Ok. destruct (get_member raw (js "governanceId")) as [| | | |g| |]; try done.
  apply bind_Ok in H as (n & Hn & H). apply catch_Ok in Hn as [Hn|(? & _ & Hn)]; [|done].
  apply bind_Ok in H as (? & Hs%throw_if_Ok & H). apply bool_decide_eq_false in Hs.
  assert (Hp : forall v, mkTrustedEntity n ∘ Some <$> thumbprint_pins v = Ok e -> te_governanceId e = n
            /\ forall pins, te_entityKeyThumbprints e = Some pins ->
                 pins <> [] /\ Forall (fun p => is_thumbprint p = true) pins /\ NoDup pins).
  { intros v Hv. destruct (thumbprint_pins v) as [l|] eqn:E; [|done]. injection Hv as <-. split; [done|].
    intros ? [= <-]. apply thumbprint_pins_Ok in E as (? & _ & ? & ?). done. }
  assert (He : te_governanceId e = n /\ forall pins, te_entityKeyThumbprints e = Some pins ->
                 pins <> [] /\ Forall (fun p => is_thumbprint p = true) pins /\ NoDup pins).
  { destruct (get_member raw (js "entityKeyThumbprints")); try (by eapply Hp). by injection H as <-. }
  destruct He as [-> He]. split; [done|]. split; [by eexists|done].
Qed.

Lemma trusted_entities_distinct seen l es : trusted_entities seen l = Ok es ->
  NoDup (map te_governanceId es)
  /\ Forall (fun e => te_governanceId e ∉ seen /\ exists g, normalizeFQDN g false = Ok (te_governanceId e)) es.
Proof.
  revert seen es. induction l as [|j l IH]; intros seen es H; [injection H as <-; by split; constructor|].
  apply bind_Ok in H as (e & He & H). apply bind_Ok in H as (es' & Hes & [= <-]).
  apply trusted_entity_new in He as (He & Hg & _). apply IH in Hes as [Hd Hf]. rewrite Forall_forall in Hf. split.
  - cbn. apply NoDup_cons. split; [|done]. intros (e' & E & Hin)%list_elem_of_fmap.
    apply (Hf e' Hin). rewrite <-E. by left.
  - constructor; [done|]. apply Forall_forall. intros e' Hin. destruct (Hf e' Hin) as [Hs Hg']. split; [|done].
    intros Hs'. apply Hs. by right.
Qed.

Lemma validated_policy config c policy : validateDnsidConfig config = Ok c ->
  vc_trustedEntities (dc_verification c) = Some policy ->
  NoDup (map te_governanceId policy)
  /\ Forall (fun e => exists g, normalizeFQDN g false = Ok (te_governanceId e)) policy.
Proof.
  intros (_ & (v & Hv) & _)%validateDnsidConfig_Ok Hp. apply bind_Ok in Hv as (raw & _ & H).
  apply bind_Ok in H as (i & _ & H). apply bind_Ok in H as (m & _ & H). apply bind_Ok in H as (es & Hes & H).
  injection H as H. rewrite <-H in Hp. cbn in Hp. subst es. unfold validateTrustedEntities in Hes.
  destruct (get_member raw (js "trustedEntities")) as [| | | | |l|]; try done.
  destruct (trusted_entities [] l) as [es|] eqn:E; [|done]. injection Hes as ->.
  apply trusted_entities_distinct in E as [Hd Hf]. split; [done|]. eapply Forall_impl; [exact Hf|]. by intros e [_ ?].
Qed.

(** What a snapshot is made of. *)
Definition identity_wf (i : IdentityConfig) : Prop :=
  (exists raw, normalizeFQDN raw true = Ok (ic_domain i))
  /\ ic_governanceId i <> [] /\ ic_logRef i <> [] /\ ic_statusUrl i <> []
  /\ (isDomainName (ic_governanceId i) = true -> exists raw, normalizeFQDN raw false = Ok (ic_governanceId i)).
Definition entity_wf (e : TrustedEntity) : Prop :=
  (exists raw, normalizeFQDN raw false = Ok (te_governanceId e))
  /\ forall pins, te_entityKeyThumbprints e = Some pins ->
       pins <> [] /\ NoDup pins /\ Forall (fun p => is_thumbprint p = true) pins.
Definition host_wf (h : jsstr) : Prop := exists dot host, h = dot ++ host /\ (dot = [] \/ dot = [46]) /\ is_hostname host = true.
Definition well_formed_config (c : DnsidConfig) : Prop :=
  (forall i, dc_identity c = Some i -> identity_wf i)
  /\ (forall n, vc_statusCheckInterval (dc_verification c) = Some n -> finite_non_negative n = true)
  /\ (forall policy, vc_trustedEntities (dc_verification c) = Some policy ->
        NoDup (map te_governanceId policy) /\ Forall entity_wf policy)
  /\ (forall hosts, tc_privateAddressHosts (dc_transport c) = Some hosts -> Forall host_wf hosts).

Lemma validateIdentity_wf j i : validateIdentity j = Ok i -> identity_wf i.
Proof.
  intros (raw & _ & H)%bind_Ok. cbv zeta in H.
  apply bind_Ok in H as (d & _ & H). apply bind_Ok in H as (g & [_ Hg]%required_string_Ok & H).
  apply bind_Ok in H as (l & [_ Hl]%required_string_Ok & H). apply bind_Ok in H as (s & [_ Hs]%required_string_Ok & H).
  apply bind_Ok in H as (domain & Hd & H). apply catch_Ok in Hd as [Hd|(? & _ & Hd)]; [|done].
  apply bind_Ok in H as (gi & Hgi & H). do 6 apply bind_Ok in H as (? & _ & H). injection H as <-.
  split; [by exists d|]. cbn [ic_governanceId ic_logRef ic_statusUrl].
  assert (Hx : gi <> [] /\ (isDomainName gi = true -> exists raw, normalizeFQDN raw false = Ok gi)).
  { destruct (isDomainName g) eqn:E; [|injection Hgi as <-; by rewrite E].
    apply catch_Ok in Hgi as [Hgi|(? & _ & Hgi)]; [|done]. split; [|by eexists]. intros ->.
    by apply normalized_hostname in Hgi. }
  destruct Hx as [Hx1 Hx2]. by split_and!.
Qed.

Lemma normalizePrivateAddressHost_wf entry h : normalizePrivateAddressHost entry = Ok h -> host_wf h.
Proof.
  unfold normalizePrivateAddressHost. cbv zeta. destruct (new_URL _) as [u|]; [|done].
  intros (? & _ & (? & Hn%throw_if_Ok%negb_false_iff & [= <-])%bind_Ok)%bind_Ok.
  eexists _, _. split; [done|]. split; [|exact Hn]. destruct (startsWith entry [46]); [by right|by left].
Qed.

Lemma trusted_entities_wf seen l es : trusted_entities seen l = Ok es -> Forall entity_wf es.
Proof.
  revert seen es. induction l as [|j l IH]; intros seen es H; [injection H as <-; constructor|].
  apply bind_Ok in H as (e & (_ & Hg & Hp)%trusted_entity_new & H). apply bind_Ok in H as (es' & Hes & [= <-]).
  constructor; [|by eapply IH]. split; [done|]. intros pins E. by destruct (Hp pins E) as (? & ? & ?).
Qed.

(** C40: a configuration that is accepted is a well-formed snapshot: a normalized agent name
    and governance name, no empty required field, a finite interval, an allowlist with
    normalized distinct names and distinct canonical pins, and host names for the private
    addresses. *)
Theorem validateDnsidConfig_wf config c : validateDnsidConfig config = Ok c -> well_formed_config c.
Proof.
  intros (Hi & (v & Hv) & (t & Ht))%validateDnsidConfig_Ok. split; [intros i E; destruct (Hi i E) as [w Hw]; by eapply validateIdentity_wf|].
  apply bind_Ok in Hv as (raw & _ & H). apply bind_Ok in H as (n & Hn & H). apply bind_Ok in H as (m & _ & H).
  apply bind_Ok in H as (es & Hes & H). injection H as H. rewrite <-H. cbn [vc_statusCheckInterval vc_trustedEntities].
  split; [|split].
  - intros n' ->. unfold status_check_interval in Hn. destruct (get_member raw (js "statusCheckInterval")); try done.
    destruct (finite_non_negative n) eqn:E; [|done]. by injection Hn as <-.
  - intros policy ->. unfold validateTrustedEntities in Hes.
    destruct (get_member raw (js "trustedEntities")) as [| | | | |l|]; try done.
    destruct (trusted_entities [] l) as [es|] eqn:E; [|done]. injection Hes as ->.
    split; [by apply trusted_entities_distinct in E as []|by eapply trusted_entities_wf].
  - intros hosts E. apply bind_Ok in Ht as (raw' & _ & Ht). apply bind_Ok in Ht as (d & _ & Ht).
    apply bind_Ok in Ht as (b & _ & Ht). apply bind_Ok in Ht as (hs & Hh & Ht). injection Ht as Ht. rewrite <-Ht in E.
    cbn in E. subst hs. unfold private_address_hosts in Hh.
    destruct (get_member raw' (js "privateAddressHosts")) as [| | | | |l|]; try done.
    destruct (mapM host_text l) as [hosts'|]; [|done]. destruct (map_res _ hosts') as [hs|] eqn:E; [|done].
    injection Hh as ->. apply map_res_Forall2 in E. clear -E.
    induction E as [|x y xs ys Hxy _ IH]; constructor; [by eapply normalizePrivateAddressHost_wf|done].
Qed.

Lemma find_distinct {A} (key : A -> jsstr) l e : NoDup (map key l) -> e ∈ l ->
  List.find (fun x => bool_decide (key x = key e)) l = Some e.
Proof.
  induction l as [|x l IH]; intros Hn Hin; [by apply elem_of_nil in Hin|].
  apply NoDup_cons in Hn as [Hx Hn]. cbn. apply elem_of_cons in Hin as [->|Hin]; [by rewrite bool_decide_eq_true_2|].
  rewrite bool_decide_eq_false_2; [by apply IH|]. intros E. apply Hx. rewrite E. by apply list_elem_of_fmap_2.
Qed.

(** Under a validated configuration with an allowlist, an identity is accepted exactly
    when some entry of the list names its accountable entity and admits its signing key.
    Since the names are normalized and distinct, no entry hides another: the verdict does
    not depend on the order in which the operator wrote them. *)
Theorem configured_acceptance config c policy interval mode d :
  validateDnsidConfig config = Ok c -> vc_trustedEntities (dc_verification c) = Some policy ->
  enforceCounterpartyAcceptance (Verification.mkVerificationConfig interval mode (Some policy)) d = Ok tt
  <-> exists e, e ∈ policy /\ te_governanceId e = TxtRecord.governanceId (vi_record d)
        /\ (exists g, normalizeFQDN g false = Ok (te_governanceId e))
        /\ forall pins, te_entityKeyThumbprints e = Some pins -> vi_signingKeyThumbprint d ∈ pins.
Proof.
  intros Hc Hp. destruct (validated_policy _ _ _ Hc Hp) as [Hd Hf]. rewrite Forall_forall in Hf.
  unfold enforceCounterpartyAcceptance. cbn [trustedEntities]. split.
  - destruct (List.find _ policy) as [e|] eqn:E; [|done]. apply List.find_some in E as [Hin Hg].
    apply list_elem_of_In in Hin. apply bool_decide_eq_true in Hg. intros H. exists e.
    split_and!; [done|done|by apply Hf|]. intros pins Hpins. rewrite Hpins in H.
    apply throw_if_Ok, negb_false_iff, bool_decide_eq_true in H. done.
  - intros (e & Hin & Hg & _ & Hpins). rewrite <-Hg, (find_distinct te_governanceId _ _ Hd Hin).
    destruct (te_entityKeyThumbprints e) as [pins|]; [|done]. rewrite bool_decide_eq_true_2; [done|by apply Hpins].
Qed.
End Allowlist.

(** ** Witnesses *)

Module ConfigExamples.

(** A parser that refuses hosts with a root dot. *)
Definition RootlessUrl : URLApi := {|
  URL := Simple.url;
  new_URL := fun raw => u ← Simple.parse raw; if endsWith (Simple.hostname u) [46] then None else Some u;
  url_protocol := Simple.protocol; url_username := Simple.user; url_password := Simple.pass;
  url_host := Simple.host; url_hostname := Simple.hostname; url_port := Simple.port;
  url_pathname := Simple.pathname; url_search := Simple.search; url_hash := Simple.hash;
  set_protocol := @set_protocol SimpleUrl; set_hostname := @set_hostname SimpleUrl; set_port := @set_port SimpleUrl;
  set_pathname := @set_pathname SimpleUrl; url_toString := Simple.toString |}.

Lemma units_no c n : is_hostname n = true -> is_ldh c || (c =? 46) = false -> c ∉ n.
Proof. intros Hn Hc. by apply (forallb_not_elem (fun u => is_ldh u || (u =? 46))); [|apply hostname_units]. Qed.

Lemma parse_host n : is_hostname n = true ->
  Simple.parse (js "https://" ++ n) = Some (Simple.mkUrl (js "https:") [] [] n [] [47] [] []).
Proof.
  intros Hn. pose proof (hostname_units n Hn) as Hu.
  assert (Hall : forall f : Z -> bool, (forall u, is_ldh u || (u =? 46) = true -> f u = true) -> forallb f n = true).
  { intros f Hf. apply forallb_true_Forall. apply forallb_true_Forall in Hu. eapply Forall_impl; [exact Hu|]. exact Hf. }
  assert (Hs : forall f, (forall u, is_ldh u || (u =? 46) = true -> f u = true) -> Simple.span f n = (n, [])).
  { intros f Hf. rewrite <-(app_nil_r n) at 1. by apply span_all; [apply Hall|]. }
  unfold Simple.parse. change (js "https://" ++ n) with (js "https" ++ (js "://" ++ n)).
  rewrite (span_all _ (js "https")) by done. rewrite startsWith_app.
  change (slice_from (js "://" ++ n) 3) with n.
  rewrite (Hs (fun u => negb ((u =? 47) || (u =? 63) || (u =? 35))))
    by (intros u; unfold is_ldh, is_lower, is_digit; lia).
  cbn [Simple.span]. unfold lastIndexOf. rewrite lastIndexOf_from_none by (by apply units_no).
  change (-1 =? -1) with true. cbv iota zeta. cbn [Simple.span].
  rewrite (Hs (fun u => negb (u =? 58))) by (intros u; unfold is_ldh, is_lower, is_digit; lia).
  change (slice_from [] 1) with (@nil Z).
  assert (Hlow : toLowerAscii n = n).
  { unfold toLowerAscii. rewrite <-(map_id n) at 2. apply map_ext_in. intros u Hin. unfold lower_unit.
    replace (is_upper u) with false; [done|]. symmetry. apply forallb_true_Forall in Hu. rewrite Forall_forall in Hu.
    apply list_elem_of_In in Hin. specialize (Hu u Hin). unfold is_ldh, is_lower, is_digit, is_upper in *. lia. }
  rewrite Hlow. replace (length n =? 0)%nat with false by (by destruct n). done.
Qed.

Lemma rootless_stable name u : @new_URL RootlessUrl (js "https://" ++ name) = Some u ->
  is_hostname (strip_trailing_dot (@url_hostname RootlessUrl u)) = true ->
  exists v, @new_URL RootlessUrl (js "https://" ++ strip_trailing_dot (@url_hostname RootlessUrl u)) = Some v
    /\ @plain_host RootlessUrl v (strip_trailing_dot (@url_hostname RootlessUrl u)).
Proof.
  intros _ Hn. set (n := strip_trailing_dot _) in *.
  exists (Simple.mkUrl (js "https:") [] [] n [] [47] [] []). split; [|by repeat split].
  cbn [new_URL RootlessUrl]. rewrite (parse_host n Hn). cbn [mbind option_bind Simple.hostname].
  pose proof (hostname_no_dot_end n Hn) as Hd. unfold strip_trailing_dot in Hd.
  destruct (endsWith n [46]) eqn:E; [|done].
  apply endsWith_spec in E as [t ->]. apply (f_equal length) in Hd. rewrite length_take, length_app in Hd. cbn in Hd. lia.
Qed.

Lemma rootless_ipv4 name u : @new_URL RootlessUrl (js "https://" ++ name) = Some u ->
  is_ipv4_literal (strip_trailing_dot (@url_hostname RootlessUrl u)) = true ->
  is_ipv4_literal (@url_hostname RootlessUrl u) = true.
Proof.
  cbn [new_URL RootlessUrl url_hostname]. destruct (Simple.parse _) as [v|]; [|done]. cbn [mbind option_bind].
  destruct (endsWith _ _) eqn:E; [done|]. intros [= <-]. unfold strip_trailing_dot. by rewrite E.
Qed.

Lemma ascii_printable u : is_ldh u || (u =? 46) = true -> @is_other_or_separator AsciiUnicode u = false.
Proof. cbn. unfold is_ldh, is_lower, is_digit, is_high, is_low. lia. Qed.

Definition s (x : string) : json := JString (js x).
Definition example_pin : jsstr := toBase64Url (repeat x61 32).
Definition example_config : json :=
  JObject [(js "identity", JObject [(js "domain", s "Bot.Example.COM."); (js "governanceId", s "Example.com");
             (js "logRef", s "c2sp-tlog:log.example/a"); (js "statusUrl", s "https://example.com/su")]);
           (js "verification", JObject [(js "dnssecMode", s "required");
             (js "trustedEntities", JArray [JObject [(js "governanceId", s "OTHER.example")];
                JObject [(js "governanceId", s "Example.org"); (js "entityKeyThumbprints", JArray [JString example_pin])]])]);
           (js "transport", JObject [(js "privateAddressHosts", JArray [s ".Test"; s "Host.internal"])])].
Definition example_snapshot : DnsidConfig :=
  mkDnsidConfig
    (Some (mkIdentityConfig (js "bot.example.com") (js "example.com") (js "c2sp-tlog:log.example/a")
             (js "https://example.com/su") None None None None None None))
    (mkVerificationConfig None (Some required)
       (Some [mkTrustedEntity (js "other.example") None; mkTrustedEntity (js "example.org") (Some [example_pin])]))
    (mkTransportConfig None None (Some [js ".test"; js "host.internal"])).

Example example_validated : @validateDnsidConfig RootlessUrl AsciiUnicode example_config = Ok example_snapshot.
Proof. vm_compute. reflexivity. Qed.

Example snapshot_again : @validateDnsidConfig RootlessUrl AsciiUnicode (config_object example_snapshot) = Ok example_snapshot.
Proof. exact (@validateDnsidConfig_stable RootlessUrl AsciiUnicode rootless_stable rootless_ipv4 ascii_printable _ _ example_validated). Qed.

Lemma createNodeIdentityManager_config_witness :
  @createNodeIdentityManager RootlessUrl AsciiUnicode example_config true false true false
  = Ok (mkDnsidConfig (dc_identity example_snapshot) (dc_verification example_snapshot) no_transport,
        dc_transport example_snapshot).
Proof.
  rewrite (@createNodeIdentityManager_config RootlessUrl AsciiUnicode rootless_stable ascii_printable).
  rewrite example_validated. reflexivity.
Defined.

(** A counterparty of the second entry, with the pinned key. *)
Definition example_counterparty : VerifiedIdentity :=
  let cert := mkTLSCertificate None [] in
  mkVerifiedIdentity (js "agent.example.org") (TxtRecord.record_of (TxtRecord.tag_pairs (js "gi=example.org")))
    (Jwk.mkJWKS []) (Jwk.mkJWKS []) StreamVerifier.example_entity example_pin cert cert
    (AgentStatus.mkAgentStatus Lifecycle.ACTIVE None None) 0 0 None None 0 UNSIGNED (LogRegistry.NoopLogReader (js "x")).

Definition example_policy : list TrustedEntity :=
  [mkTrustedEntity (js "other.example") None; mkTrustedEntity (js "example.org") (Some [example_pin])].

Lemma validateDnsidConfig_wf_witness : @well_formed_config RootlessUrl AsciiUnicode example_snapshot.
Proof. exact (@validateDnsidConfig_wf RootlessUrl AsciiUnicode example_config example_snapshot example_validated). Defined.

Lemma configured_acceptance_witness :
  enforceCounterpartyAcceptance (Verification.mkVerificationConfig None None (Some example_policy)) example_counterparty = Ok tt
  <-> exists e, e ∈ example_policy /\ te_governanceId e = TxtRecord.governanceId (vi_record example_counterparty)
        /\ (exists g, @normalizeFQDN RootlessUrl AsciiUnicode g false = Ok (te_governanceId e))
        /\ forall pins, te_entityKeyThumbprints e = Some pins -> vi_signingKeyThumbprint example_counterparty ∈ pins.
Proof.
  apply (@configured_acceptance RootlessUrl AsciiUnicode example_config example_snapshot);
    [exact example_validated|reflexivity].
Defined.

End ConfigExamples.
