(* ===== verification/Reader.v ===== *)
(** The reader of a log: [log-c2sp-tlog/src/reader.ts].

    A call of the reader runs in a small state monad over its clock ([rs_moment]), the
    budget that the readers of a chain of migrations share, and the two fields that the
    class keeps between calls.  What happens outside is a function of the moment at which
    it is asked for: the clock, the signals, the network, the trusted checkpoint store,
    a custom stream source, the factory of readers for previous logs.  Calls of one reader
    follow one another; concurrent calls that share a pending load are not modelled. *)

From S2P Require Import Prelude JsString Base64 Sha256 HashTree Merkle Url Utils Json Jwk EventCodec Lifecycle.
From S2P Require Import Lr Checkpoint Policy Budget CheckpointTrust TlogProof StreamVerifier StreamSource StreamBundle.

(** ** The world *)

(** A moment of a run: the call of the reader, the steps taken in it, and the round of the
    compare-and-swap loop within a step. *)
Record moment := mkMoment { m_call : nat; m_tick : nat; m_round : nat }.
Definition tick (m : moment) : moment := mkMoment (m_call m) (S (m_tick m)) 0.
Definition at_round (m : moment) (n : nat) : moment := mkMoment (m_call m) (m_tick m) n.

(** How a call of [advanceC2spCheckpoint] on a store ends: it runs its [client]. *)
Definition CheckpointStore : Type := moment -> client -> res TrustedC2spCheckpoint.

(** ** Options *)

Record C2spStreamBundleReaderOptions := mkBundleReaderOptions {
  policyDocument : bytes;
  bundleKeys : list SignedNoteKey;
  maxBundleLifetimeMs : Z;
  checkpointFreshnessMs : Z;
  maxBundleBytes : option Z;
  br_maxEvents : option Z;
  required : option bool
}.
Record C2spMigrationVerificationLimits := mkMigrationLimits {
  maxDepth : option Z; maxHistoryEvents : option Z; maxResponseBytes : option Z }.
(** [Required<C2spMigrationVerificationLimits>] *)
Record limits := mkLimits { l_maxDepth : Z; l_maxHistoryEvents : Z; l_maxResponseBytes : Z }.

(** A raw evidence source: the scan of a log, or another implementation. *)
Inductive stream_source :=
  | ScanSource (source : moment -> ScanStreamSource)
  | OtherSource (load : moment -> jsstr -> option bool -> res StreamEvidence)
      (discoverEntry : option (moment -> jsstr -> Z -> option bool -> res (option IndexedEntry))).

(** A key object is its address; the world knows its members. *)
Definition key_object : Type := nat.

Definition consistency_source : Type := moment -> ParsedC2spTlogLr -> Z -> Z -> res (list bytes).

(** A factory of readers is a name for the function that the world has for it. *)
Record C2spTlogReaderOptions (Factory : Type) := mkReaderOptions {
  ro_revalidate : option bool;
  ro_policy : C2spTlogPolicy;
  ro_resourceFetcher : option (moment -> C2spBoundedResourceFetcher);
  ro_streamSource : option stream_source;
  ro_streamBundle : option C2spStreamBundleReaderOptions;
  ro_proofs : gmap Z (TlogProofV1 + jsstr);
  ro_entityKey : option key_object;
  ro_allowedClockSkew : option Z;
  ro_checkpointMaxAge : option Z;
  ro_maxTreeSize : option Z;
  ro_maxCheckpointBytes : option Z;
  ro_maxEntryBundleBytes : option Z;
  ro_maxTotalEntryBytes : option Z;
  ro_requestTimeoutMs : option Z;
  ro_verifyMigration : option (moment -> LogEvent -> res MigrationVerificationResult);
  ro_migrationReaderFactory : option Factory;
  ro_migrationLimits : option C2spMigrationVerificationLimits;
  ro_trustedCheckpointStore : option CheckpointStore;
  ro_consistencyProofSource : option consistency_source
}.
Arguments mkReaderOptions {Factory}. Arguments ro_revalidate {Factory}. Arguments ro_policy {Factory}.
Arguments ro_resourceFetcher {Factory}. Arguments ro_streamSource {Factory}. Arguments ro_streamBundle
{Factory}. Arguments ro_proofs {Factory}. Arguments ro_entityKey {Factory}. Arguments ro_allowedClockSkew
{Factory}. Arguments ro_checkpointMaxAge {Factory}. Arguments ro_maxTreeSize {Factory}. Arguments
ro_maxCheckpointBytes {Factory}. Arguments ro_maxEntryBundleBytes {Factory}. Arguments ro_maxTotalEntryBytes
{Factory}. Arguments ro_requestTimeoutMs {Factory}. Arguments ro_verifyMigration {Factory}. Arguments
ro_migrationReaderFactory {Factory}. Arguments ro_migrationLimits {Factory}. Arguments
ro_trustedCheckpointStore {Factory}. Arguments ro_consistencyProofSource {Factory}.

(** The fields that do not change after construction. *)
Record C2spTlogReader (Factory : Type) := mkReader {
  rd_lr : jsstr;
  rd_options : C2spTlogReaderOptions Factory;
  rd_parsed : ParsedC2spTlogLr;
  rd_source : stream_source;
  rd_checkpointStore : CheckpointStore;
  rd_resourceFetcher : option (moment -> C2spBoundedResourceFetcher)
}.
Arguments mkReader {Factory}. Arguments rd_lr {Factory}. Arguments rd_options {Factory}. Arguments rd_parsed
{Factory}. Arguments rd_source {Factory}. Arguments rd_checkpointStore {Factory}. Arguments rd_resourceFetcher
{Factory}.

(** What is outside of the readers.  [w_size] is the number of bytes of
    [JSON.stringify] of a callback's result, which may have members that are not
    modelled.  The members of key objects do not change. *)
Record world (Factory : Type) := mkWorld {
  w_members : key_object -> jwk;
  w_now : moment -> Z;
  w_signal : moment -> abort;
  w_scan : moment -> call_env;
  w_open : Factory -> moment -> jsstr -> res (option (C2spTlogReader Factory));
  w_size : MigrationVerificationResult -> Z;
  w_newStore : CheckpointStore;
  w_defaultFetcher : moment -> C2spBoundedResourceFetcher;
  w_started : nat -> Z;
  w_finished : nat -> Z;
  w_callSignal : nat -> abort
}.
Arguments mkWorld {Factory}. Arguments w_members {Factory}. Arguments w_now {Factory}. Arguments w_signal {Factory}. Arguments w_scan
{Factory}. Arguments w_open {Factory}. Arguments w_size {Factory}. Arguments w_newStore {Factory}. Arguments
w_defaultFetcher {Factory}. Arguments w_started {Factory}. Arguments w_finished {Factory}. Arguments
w_callSignal {Factory}.

(** ** Histories *)

Record VerifiedHistory := mkHistory {
  vh_events : list LogEvent;
  vh_checkpointWitnessTime : jsdate;
  vh_checkpoint : bytes;
  vh_completeThrough : Z;           (* printed by [String] *)
  vh_completenessMode : jsstr;
  vh_indexedEvents : list VerifiedLifecycleEvent;
  vh_authenticatedEntries : list IndexedEntry;
  vh_historyReferences : option (list jsstr);
  vh_validUntilMs : option date;
  vh_migration : option MigrationVerificationResult
}.

(** A settled entry of the cache; no limit is [Infinity]. *)
Record CachedHistory := mkCached {
  ch_domain : jsstr;
  ch_entityKey : key_object;
  ch_history : VerifiedHistory;
  ch_validUntilMs : option date
}.

(** ** Errors and helpers without state *)

Definition log_err (message : string) : exn := newVerificationError message LogError None false.
Definition log_err_in (message : string) (category : LifecycleErrorCategory) : exn :=
  newVerificationError message LogError (Some category) false.
Definition invalid_migration_error (message : string) : exn := verr_in message INVALID_MIGRATION.

Definition migrationLimits (l : option C2spMigrationVerificationLimits) : res limits :=
  let l := default (mkMigrationLimits None None None) l in
  let result := mkLimits (default 8 (maxDepth l)) (default 10000 (maxHistoryEvents l))
                  (default (8 * 1024 * 1024) (maxResponseBytes l)) in
  throw_if (existsb (fun value => negb (isSafeInteger value) || (value <? 1))
              [l_maxDepth result; l_maxHistoryEvents result; l_maxResponseBytes result])
    (verr "migration limit must be a positive safe integer");;
  Ok result.

(** The line of a note signature: its text, or what it is rebuilt from. *)
Definition signature_line (signature : NoteSignature) : jsstr :=
  if (length (sig_raw signature) =? 0)%nat
  then em_dash ++ [32] ++ sig_name signature ++ [32]
       ++ btoa (default [] (sig_keyHash signature) ++ sig_signature signature)
  else sig_raw signature.
Definition checkpointEvidenceBytes (checkpoint : Checkpoint) : bytes :=
  utf8_encode (signedText checkpoint ++ [10] ++ JsString.join [10] (map signature_line (signatures checkpoint)) ++ [10]).

Definition sorted_entries (evidence : StreamEvidence) : list IndexedEntry := sort_by by_index (se_entries evidence).

Definition bundleFallbackAllowed (cause : exn) : bool :=
  match cause with
  | EVerification v =>
      match (if bool_decide (ve_class v = PlainVerificationError) then None else ve_status v) with
      | Some status =>
          (status =? 404) || (status =? 408) || (status =? 429) || ((500 <=? status) && (status <=? 599))
      | None => ve_transient v
      end
  | _ => false
  end.

Section Helpers.
Context `{H256 : Hash256}.

Definition assertCompleteScan (evidence : StreamEvidence) : res unit :=
  let entries := sorted_entries evidence in
  throw_if (negb (zlen entries =? treeSize (se_checkpoint evidence)))
    (verr_in "complete C2SP scan length does not match checkpoint tree size" INVALID_EVIDENCE);;
  throw_if (existsb (fun p => negb (ie_index (snd p) =? Z.of_nat (fst p))) (imap pair entries))
    (verr_in "complete C2SP scan must contain every index exactly once" INVALID_EVIDENCE);;
  throw_if (negb (bool_decide (merkleRootFromEntries (map ie_bytes entries) = rootHash (se_checkpoint evidence))))
    (verr_in "scanned C2SP entries do not match checkpoint root" INVALID_EVIDENCE).

Definition assertC2spIssuanceEvent (i : IssuanceFields) : res C2spIssuance :=
  of_option (c2sp_issuance i) (log_err "ISSUANCE is missing c2sp-tlog key metadata").

Definition latestSnapshot (domain : jsstr) (history : list LogEvent) : res DomainSnapshot :=
  snapshotAt domain history (latest_time history).

(** The first ISSUANCE of a history. *)
Definition find_issuance (history : list LogEvent) : option (LogEvent * IssuanceFields) :=
  match List.find is_issuance history with
  | Some e => match ev_payload e with ISSUANCE i => Some (e, i) | _ => None end
  | None => None
  end.
End Helpers.

(** ** The monad of the reader *)

(** The clock, the shared migration budget, and the mutable fields of the reader. *)
Record rstate := mkState {
  rs_moment : moment;
  rs_events : Z;
  rs_bytes : Z;
  rs_active : bool;
  rs_trustedEntityKey : option key_object;
  rs_cachedHistory : option CachedHistory
}.
Definition new_state : rstate := mkState (mkMoment 0 0 0) 0 0 false None None.

Definition set_moment (m : moment) (s : rstate) : rstate :=
  mkState m (rs_events s) (rs_bytes s) (rs_active s) (rs_trustedEntityKey s) (rs_cachedHistory s).
Definition set_budget (events bytes : Z) (active : bool) (s : rstate) : rstate :=
  mkState (rs_moment s) events bytes active (rs_trustedEntityKey s) (rs_cachedHistory s).
Definition set_trusted (key : option key_object) (s : rstate) : rstate :=
  mkState (rs_moment s) (rs_events s) (rs_bytes s) (rs_active s) key (rs_cachedHistory s).
Definition set_cached (cached : option CachedHistory) (s : rstate) : rstate :=
  mkState (rs_moment s) (rs_events s) (rs_bytes s) (rs_active s) (rs_trustedEntityKey s) cached.

(** A computation may throw; the fields keep the assignments made before. *)
Definition RM (A : Type) : Type := rstate -> res A * rstate.
#[export] Instance RM_ret : MRet RM := fun A a s => (Ok a, s).
#[export] Instance RM_bind : MBind RM := fun A B f m s =>
  match m s with (Ok a, s) => f a s | (Throw e, s) => (Throw e, s) end.

Definition lift {A} (r : res A) : RM A := fun s => (r, s).
Definition try_catch {A} (m : RM A) (h : exn -> RM A) : RM A := fun s =>
  match m s with (Ok a, s) => (Ok a, s) | (Throw e, s) => h e s end.
Definition gets {A} (f : rstate -> A) : RM A := fun s => (Ok (f s), s).
Definition modify (f : rstate -> rstate) : RM unit := fun s => (Ok tt, f s).

(** An answer of the world, at the current moment. *)
Definition observe {A} (f : moment -> res A) : RM A := fun s => (f (rs_moment s), set_moment (tick (rs_moment s)) s).

(** Code that asks a callback with effects: the answers are those that the callback gives
    after the calls so far, and the effects are those of the calls that were made.  A
    result that is thrown ends the call of the reader. *)
Definition replay {R} (callback : LogEvent -> RM R) (asked : list LogEvent) (s : rstate) : rstate :=
  foldl (fun s event => snd (callback event s)) s asked.
Definition answers_of {R} (callback : LogEvent -> RM R) (s : rstate) : list LogEvent -> LogEvent -> res R :=
  fun asked event => fst (callback event (replay callback asked s)).
Definition with_callback {A} (callback : LogEvent -> RM MigrationVerificationResult)
    (f : (list LogEvent -> LogEvent -> res MigrationVerificationResult) -> res (A * migration_memo))
    : RM (A * option MigrationVerificationResult) := fun s =>
  match f (answers_of callback s) with
  | Ok (a, memo) => (Ok (a, mm_result memo), replay callback (mm_asked memo) s)
  | Throw e => (Throw e, s)
  end.

(** ** The budget of a chain of migrations *)

Definition enforceMigrationBudget (l : limits) : RM unit := fun s =>
  (throw_if (rs_active s && ((l_maxHistoryEvents l <? rs_events s) || (l_maxResponseBytes l <? rs_bytes s)))
     (invalid_migration_error "MIGRATION cumulative history or response size exceeds configured maximum"), s).
Definition spend (l : limits) (events bytes : Z) : RM unit :=
  modify (fun s => set_budget (rs_events s + events) (rs_bytes s + bytes) (rs_active s) s);;
  enforceMigrationBudget l.

(** ** The reader *)

Section Reader.
Context `{H256 : Hash256} `{Url : URLApi} `{Uni : Unicode} `{Jwk : JwkApi} `{Ed : Ed25519}.
Context {Factory : Type} (W : world Factory).

Definition now : RM Z := observe (fun m => Ok (w_now W m)).
Definition await {A} (f : moment -> res A) : RM A :=
  observe (fun m => waitForVerification (w_signal W m) (f m)).

Definition allowedClockSkew (options : C2spTlogReaderOptions Factory) : Z := default 0 (ro_allowedClockSkew options).

Definition validateTimeOptions (options : C2spTlogReaderOptions Factory) : res unit :=
  let skew := allowedClockSkew options in
  let positive value := isSafeInteger value && (1 <=? value) in
  throw_if (negb (isSafeInteger skew) || (skew <? 0))
    (log_err "allowedClockSkew must be a non-negative safe integer");;
  throw_if (match ro_checkpointMaxAge options with Some age => negb (positive age) | None => false end)
    (log_err "checkpointMaxAge must be a positive safe integer");;
  throw_if (match ro_streamBundle options with
            | Some b => (length (bundleKeys b) =? 0)%nat || negb (positive (maxBundleLifetimeMs b))
                || negb (positive (checkpointFreshnessMs b))
                || existsb (fun o => match o with Some n => negb (positive n) | None => false end)
                     [maxBundleBytes b; br_maxEvents b]
            | None => false
            end) (log_err "invalid C2SP stream bundle reader options").

(** The options of the default scan: the checkpoint is accepted by the policy now. *)
Definition scan_options (parsed : ParsedC2spTlogLr) (options : C2spTlogReaderOptions Factory) (m : moment)
    : ScanStreamSourceOptions :=
  mkScanOptions None
    (fun checkpoint => enforceCheckpointPolicy checkpoint (lr_origin parsed) (ro_policy options) (lr_scope parsed)
                         (w_now W m) (allowedClockSkew options);; Ok tt)
    (ro_maxTreeSize options) (ro_maxCheckpointBytes options) (ro_maxEntryBundleBytes options)
    (ro_maxTotalEntryBytes options) (ro_requestTimeoutMs options).

Definition newC2spTlogReader (lr : jsstr) (options : C2spTlogReaderOptions Factory) (m : moment)
    : res (C2spTlogReader Factory) :=
  parsed ← parseC2spTlogLr lr;
  validateTimeOptions options;;
  migrationLimits (ro_migrationLimits options);;
  let resourceFetcher := match ro_resourceFetcher options, ro_streamBundle options with
                         | Some fetcher, _ => Some fetcher
                         | None, Some _ => Some (w_defaultFetcher W)
                         | None, None => None
                         end in
  match resourceFetcher with Some fetcher => validateC2spResourceFetcher (fetcher m) | None => Ok tt end;;
  source ← match ro_streamSource options with
           | Some source => Ok source
           | None =>
               let fetcher := default (w_defaultFetcher W) resourceFetcher in
               s ← newScanStreamSource (scan_options parsed options m) (fetcher m);
               Ok (ScanSource (fun m => mkScanStreamSource (scan_options parsed options m) (fetcher m)
                     (maxTreeSize s) (maxCheckpointBytes s) (maxEntryBundleBytes s) (maxTotalEntryBytes s)
                     (requestTimeoutMs s)))
           end;
  Ok (mkReader lr options parsed source (default (w_newStore W) (ro_trustedCheckpointStore options)) resourceFetcher).

(** *** The parts of one load *)

Section Load.
Context (rd : C2spTlogReader Factory).
Notation options := (rd_options rd).
Notation parsed := (rd_parsed rd).
Notation skew := (allowedClockSkew options).

(** [context()]: the reference is the one that the reader was made with. *)
Definition context (p : ParsedC2spTlogLr) : C2spEventContext :=
  mkContext (Some (lr_scope p)) (Some (lr_origin p)) (Some (lr_streamId p)) (Some (rd_lr rd)) None None None.

Definition verifierOptions (entityKey : jwk) (witnessTime : jsdate)
    (verifyMigration : option (list LogEvent -> LogEvent -> res MigrationVerificationResult)) : StreamVerifierOptions :=
  mkStreamOptions (context parsed) (Some entityKey) (Some (integration_time witnessTime skew)) verifyMigration.

(** The policy's decision on a checkpoint, now. *)
Definition enforce (checkpoint : Checkpoint) (p : ParsedC2spTlogLr) : RM CheckpointPolicyResult :=
  nowMs ← now;
  lift (enforceCheckpointPolicy checkpoint (lr_origin p) (ro_policy options) (lr_scope p) nowMs skew).

Definition evidence_bytes (evidence : StreamEvidence) : Z :=
  foldl (fun size entry => size + zlen (ie_bytes entry)) (zlen (checkpointEvidenceBytes (se_checkpoint evidence)))
    (se_entries evidence).

Definition loadEvidence (logPrefix : jsstr) (budget : option limits) : RM StreamEvidence :=
  evidence ← try_catch
    (await (fun m => match rd_source rd with
                     | ScanSource source => StreamSource.load (source m) (w_scan W m) logPrefix (ro_revalidate options)
                     | OtherSource load _ => load m logPrefix (ro_revalidate options)
                     end))
    (fun cause => lift (Throw (c2spLogError "C2SP stream evidence is unavailable" cause true)));
  match budget with
  | Some l => spend l 0 (evidence_bytes evidence)
  | None => mret tt
  end;;
  mret evidence.

(** [advanceC2spCheckpoint], with the evidence that the caller has. *)
Definition advance (reference : ParsedC2spTlogLr) (checkpoint : Checkpoint) (witnessTime : jsdate)
    (proofs : option consistency_source) (entries : option (list IndexedEntry)) (tiles : bool)
    : RM TrustedC2spCheckpoint :=
  observe (fun m =>
    client ← advanceC2spCheckpoint (lr_origin reference) checkpoint witnessTime (fun round =>
      mkAdvanceOptions ((fun fetchConsistencyProof => fetchConsistencyProof (at_round m round) reference) <$> proofs)
        entries
        (match rd_source rd with
         | ScanSource source =>
             if tiles then Some (fun candidate size =>
               root ← consistencyRoot (source (at_round m round)) (w_scan W (at_round m round)) (lr_logPrefix parsed)
                        (tc_treeSize candidate) (tc_rootHash candidate) size (ro_revalidate options);
               of_option root (EError "TypeError"))
             else None
         | OtherSource _ _ => None
         end));
    rd_checkpointStore rd m client).

Definition is_scan : bool := match rd_source rd with ScanSource _ => true | OtherSource _ _ => false end.
Definition is_missing_evidence (e : exn) : bool :=
  match e with
  | EVerification v => bool_decide (ve_class v = MissingC2spConsistencyEvidenceErrorClass)
  | _ => false
  end.

(** The request of a bundle, in the [try] block. *)
Definition requestBundle (endpoint : jsstr) (maximum : Z) : RM bytes :=
  bs ← await (fun m => match rd_resourceFetcher rd with
                       | Some fetcher =>
                           fetchBounded (fetcher m) endpoint maximum
                             (mkFetchOptions (ro_revalidate options)
                                (default DEFAULT_C2SP_REQUEST_TIMEOUT_MS (ro_requestTimeoutMs options)))
                       | None => Throw (EError "TypeError")
                       end);
  lift (throw_if (maximum <? zlen bs) responseTooLarge);;
  mret bs.

(** The bundle of a domain; [None] is the fallback to the raw evidence. *)
Definition fetchBundle (config : C2spStreamBundleReaderOptions) (endpoint : jsstr) (maximum : Z) : RM (option bytes) :=
  try_catch (bs ← requestBundle endpoint maximum; mret (Some bs))
    (fun cause =>
       if negb (default false (required config)) && bundleFallbackAllowed cause then mret None
       else lift (Throw (c2spLogError "C2SP stream bundle is unavailable" cause
                           (match cause with EVerification v => ve_transient v | _ => true end)))).

Definition bundle_verify_options (config : C2spStreamBundleReaderOptions) (fqdn : jsstr) (entityKey : jwk)
    (maximum nowMs : Z) (cutoffIndex : option Z)
    (verifyMigration : list LogEvent -> LogEvent -> res MigrationVerificationResult) : VerifyC2spStreamBundleOptions :=
  mkVerifyOptions maximum (default DEFAULT_C2SP_MAX_STREAM_BUNDLE_EVENTS (br_maxEvents config)) fqdn (rd_lr rd)
    (policyDocument config) (bundleKeys config) entityKey (maxBundleLifetimeMs config) (checkpointFreshnessMs config)
    (ro_maxTreeSize options) (Some skew) nowMs (Some verifyMigration) cutoffIndex.

(** The fallback of a custom source without a source of consistency proofs. *)
Definition advance_by_scan (l : limits) (bundle : C2spStreamBundle) (witnessTime : jsdate) : RM TrustedC2spCheckpoint :=
  evidence ← loadEvidence (lr_logPrefix parsed) (Some l);
  lift (throw_if (negb (se_complete evidence))
          (verr_in "C2SP consistency fallback requires a complete raw scan" INCOMPLETE_STREAM));;
  policyResult ← enforce (se_checkpoint evidence) parsed;
  lift (throw_if (is_none (checkpointWitnessTime policyResult))
          (verr "C2SP consistency fallback requires an accepted timestamped witness quorum"));;
  lift (assertCompleteScan evidence);;
  advance (sb_reference bundle) (sb_checkpoint bundle) witnessTime None (Some (se_entries evidence)) false.

Definition bundle_history (config : C2spStreamBundleReaderOptions) (verified : VerifiedC2spStreamBundle)
    (migration : option MigrationVerificationResult) : VerifiedHistory :=
  let bundle := vb_bundle verified in
  let witnessTime := vb_checkpointWitnessTime verified in
  mkHistory (vb_lifecycle verified) witnessTime (sb_checkpointBytes bundle) (sb_completeThroughSize bundle)
    (js "trusted-index") (vb_events verified)
    (map (fun event => mkIndexedEntry (be_index event) (be_entryBytes event)) (sb_events bundle))
    (vb_historyReferences verified)
    (Some (date_min (Some (to_double (sb_expires bundle * 1000)))
                    ((fun w => to_double (w + checkpointFreshnessMs config)) <$> witnessTime)))
    migration.

Definition loadBundleHistory (domain : jsstr) (trustedEntityKey : jwk) (l : limits)
    (verifyMigration : LogEvent -> RM MigrationVerificationResult) (cutoffIndex : option Z)
    : RM (option VerifiedHistory) :=
  match ro_streamBundle options with
  | None => mret None
  | Some config =>
      fqdn ← lift (normalizeFQDN domain true);
      encoded ← lift (encodeURIComponent fqdn);
      let endpoint := lr_logPrefix parsed ++ js "/streams/" ++ encoded ++ js "?format=bundle" in
      let maximum := default DEFAULT_C2SP_MAX_STREAM_BUNDLE_BYTES (maxBundleBytes config) in
      fetched ← fetchBundle config endpoint maximum;
      match fetched with
      | None => mret None
      | Some bs =>
          spend l 0 (zlen bs);;
          nowMs ← now;
          '(verified, migration) ← with_callback verifyMigration (fun callback =>
             verifyBundleContents bs
               (bundle_verify_options config fqdn trustedEntityKey maximum nowMs cutoffIndex callback));
          spend l (zlen (vb_events verified)) 0;;
          let bundle := vb_bundle verified in
          let witnessTime := vb_checkpointWitnessTime verified in
          try_catch (advance (sb_reference bundle) (sb_checkpoint bundle) witnessTime
                       (ro_consistencyProofSource options) None true)
            (fun cause =>
               if default false (required config) || negb (is_none (ro_consistencyProofSource options))
                  || is_scan || negb (is_missing_evidence cause)
               then lift (Throw cause)
               else advance_by_scan l bundle witnessTime);;
          mret (Some (bundle_history config verified migration))
      end
  end.

Definition below_cutoff (cutoffIndex : option Z) (entries : list IndexedEntry) : list IndexedEntry :=
  match cutoffIndex with
  | Some cutoff => List.filter (fun entry => ie_index entry <=? cutoff) entries
  | None => entries
  end.

Definition loadAndVerifyHistory (domain : jsstr) (trustedEntityKey : jwk) (l : limits)
    (verifyMigration : LogEvent -> RM MigrationVerificationResult) (cutoffIndex : option Z) : RM VerifiedHistory :=
  bundled ← loadBundleHistory domain trustedEntityKey l verifyMigration cutoffIndex;
  match bundled with
  | Some history => mret history
  | None =>
      evidence ← loadEvidence (lr_logPrefix parsed) (Some l);
      lift (throw_if (negb (se_complete evidence))
              (log_err_in "C2SP stream source is incomplete for current-state verification" INCOMPLETE_STREAM));;
      policyResult ← enforce (se_checkpoint evidence) parsed;
      witnessTime ← lift (of_option (checkpointWitnessTime policyResult)
        (log_err_in "C2SP lifecycle timestamps require an accepted timestamped witness quorum" INVALID_EVIDENCE));
      lift (assertCompleteScan evidence);;
      advance parsed (se_checkpoint evidence) witnessTime (ro_consistencyProofSource options)
        (Some (se_entries evidence)) false;;
      '(verified, migration) ← with_callback verifyMigration (fun callback =>
         verifyStreamWithinBudget (below_cutoff cutoffIndex (se_entries evidence)) domain
           (verifierOptions trustedEntityKey witnessTime (Some callback)));
      spend l (zlen verified) 0;;
      '(events, historyReferences) ← lift (stitch domain (lr_lr parsed) verified migration);
      mret (mkHistory events witnessTime (checkpointEvidenceBytes (se_checkpoint evidence))
              (treeSize (se_checkpoint evidence)) (js "full-scan") verified (se_entries evidence)
              historyReferences None migration)
  end.

(** *** Occurrences of events *)

(** [history.findIndex]: the place of the event with the given identifier. *)
Fixpoint find_event (entryId : jsstr) (place : nat) (history : list VerifiedLifecycleEvent)
    : res (option (nat * VerifiedLifecycleEvent)) :=
  match history with
  | [] => Ok None
  | item :: history =>
      signed ← signedC2spEntryBytes (ve_bytes item);
      if bool_decide (c2spEventId signed = entryId) then Ok (Some (place, item))
      else find_event entryId (S place) history
  end.

Definition not_authorized : exn := log_err "C2SP event is not authorized by its lifecycle history".

Definition verifyOccurrence (entry : IndexedEntry) (event : LogEvent) (history : list VerifiedLifecycleEvent)
    (entityKey : jwk) (witnessTime : jsdate) (migration : option MigrationVerificationResult) : res LogEvent :=
  signed ← signedC2spEntryBytes (ie_bytes entry);
  found ← find_event (c2spEventId signed) 0 history;
  '(position, item) ← of_option found not_authorized;
  throw_if (ie_index entry <? ve_index item) not_authorized;;
  recorded ← signedC2spEntryBytes (ve_bytes item);
  throw_if (negb (bool_decide (recorded = signed))) not_authorized;;
  fst (verifyLifecycle (verifierOptions entityKey witnessTime None)
         ((fun migration => plain_verifier (fun _ _ => Ok migration)) <$> migration) 0
         (take position history ++ [candidate_of entry event]) no_memo);;
  Ok event.

Definition discoverEntry (logPrefix : jsstr) (index : Z) : RM IndexedEntry :=
  entry ← match rd_source rd with
          | ScanSource source =>
              try_catch (await (fun m => Some <$> StreamSource.discoverEntry (source m) (w_scan W m) logPrefix index
                                                    (ro_revalidate options)))
                (fun cause => lift (Throw (c2spLogError "C2SP stream evidence is unavailable" cause true)))
          | OtherSource _ (Some discover) =>
              try_catch (await (fun m => discover m logPrefix index (ro_revalidate options)))
                (fun cause => lift (Throw (c2spLogError "C2SP stream evidence is unavailable" cause true)))
          | OtherSource _ None =>
              evidence ← loadEvidence logPrefix None;
              mret (List.find (fun e => ie_index e =? index) (se_entries evidence))
          end;
  lift (match entry with
        | Some e => throw_if (negb (ie_index e =? index)) (log_err "C2SP entry not found in source");; Ok e
        | None => Throw (log_err "C2SP entry not found in source")
        end).

(** *** Histories through a cutoff *)

(** An occurrence that the bundle omits: the raw entries up to its checkpoint have the root
    of its checkpoint. *)
Definition occurrence_by_scan (l : limits) (history : VerifiedHistory) (cutoff : Z) : RM (option IndexedEntry) :=
  evidence ← loadEvidence (lr_logPrefix parsed) (Some l);
  lift (throw_if (negb (se_complete evidence))
          (invalid_migration_error "MIGRATION cutoff requires complete occurrence evidence"));;
  enforce (se_checkpoint evidence) parsed;;
  lift (
    assertCompleteScan evidence;;
    let mismatch := invalid_migration_error "MIGRATION cutoff occurrence does not match completeness checkpoint" in
    let prefix := slice (sorted_entries evidence) 0 (vh_completeThrough history) in
    throw_if (negb (zlen prefix =? vh_completeThrough history)) mismatch;;
    checkpoint ← parseCheckpoint (text_decode (vh_checkpoint history));
    throw_if (negb (bool_decide (merkleRootFromEntries (map ie_bytes prefix) = rootHash checkpoint))) mismatch;;
    Ok (List.find (fun entry => ie_index entry =? cutoff) prefix)).

(** The last reference is replaced by that of the cutoff. *)
Definition end_at (finalRef : jsstr) (history : VerifiedHistory) (references : list jsstr) : VerifiedHistory :=
  mkHistory (vh_events history) (vh_checkpointWitnessTime history) (vh_checkpoint history)
    (vh_completeThrough history) (vh_completenessMode history) (vh_indexedEvents history)
    (vh_authenticatedEntries history) (Some (removelast references ++ [finalRef])) (vh_validUntilMs history)
    (vh_migration history).

Definition loadThrough (domain finalRef : jsstr) (entity : jwk) (l : limits)
    (verifyMigration : LogEvent -> RM MigrationVerificationResult) : RM VerifiedHistory :=
  let inexact := invalid_migration_error "MIGRATION cutoff does not exactly identify an entry in the previous log" in
  cutoff ← lift (parseC2spTlogLr finalRef);
  entryIndex ← lift (of_option (if bool_decide (lr_lr cutoff = lr_lr parsed) then lr_entryIndex cutoff else None) inexact);
  lift (throw_if (negb (bool_decide (finalRef = event_reference (lr_lr parsed) entryIndex))) inexact);;
  history ← loadAndVerifyHistory domain entity l verifyMigration (Some entryIndex);
  lift (throw_if (vh_completeThrough history <=? entryIndex)
          (invalid_migration_error "MIGRATION cutoff exceeds complete history"));;
  occurrence ← match List.find (fun entry => ie_index entry =? entryIndex) (vh_authenticatedEntries history) with
               | Some entry => mret (Some entry)
               | None => occurrence_by_scan l history entryIndex
               end;
  lift (
    let not_final := invalid_migration_error "MIGRATION cutoff is not the final applied logical event" in
    occurrence ← of_option occurrence not_final;
    last ← of_option (last (vh_indexedEvents history)) not_final;
    signed ← signedC2spEntryBytes (ie_bytes occurrence);
    final ← signedC2spEntryBytes (ve_bytes last);
    throw_if (negb (bool_decide (signed = final))) not_final;;
    event ← parseC2spEventEntry (ie_bytes occurrence) (context parsed);
    catch (verifyOccurrence occurrence event (vh_indexedEvents history) entity (vh_checkpointWitnessTime history)
             (vh_migration history))
      (fun cause => Throw (c2spLogError "MIGRATION cutoff occurrence is invalid" cause false));;
    references ← of_option (vh_historyReferences history)
      (invalid_migration_error "MIGRATION cutoff requires aligned history references");
    Ok (end_at finalRef history references)).

Definition migrationResult (domain : jsstr) (history : VerifiedHistory) : res MigrationVerificationResult :=
  snapshot ← latestSnapshot domain (vh_events history);
  let inactive := invalid_migration_error "MIGRATION previous history must preserve an ACTIVE identity" in
  throw_if (negb (bool_decide (sn_historicalState snapshot = ACTIVE))) inactive;;
  '(_, issuance) ← of_option (find_issuance (vh_events history)) inactive;
  c ← assertC2spIssuanceEvent issuance;
  Ok (mkMigrationResult (ci_entityKey c) (sn_activeKey snapshot) (vh_events history) (vh_historyReferences history)).

End Load.

(** *** Migrations *)

(** The logs that the prior history of a callback passes, from the last migration to the
    first. *)
Fixpoint prior_logs (seen : list jsstr) (current : jsstr) (migrations : list (jsstr * jsstr))
    : res (list jsstr * jsstr) :=
  match migrations with
  | [] => Ok (seen, current)
  | (previousLog, newLog) :: migrations =>
      throw_if (bool_decide (current ∈ seen) || negb (bool_decide (newLog = current)))
        (invalid_migration_error "MIGRATION prior history contains a cycle or discontinuity");;
      prior_logs (current :: seen) previousLog migrations
  end.

Definition migrations_of (events : list LogEvent) : list (jsstr * jsstr) :=
  omap (fun e => match ev_payload e with MIGRATION previousLog newLog _ => Some (previousLog, newLog) | _ => None end)
    events.

(** The branch of [options.verifyMigration]. *)
Definition customMigration (verify : moment -> LogEvent -> res MigrationVerificationResult) (l : limits) (hops : nat)
    (seen : list jsstr) (event : LogEvent) (previousLog : jsstr) : RM MigrationVerificationResult :=
  result ← await (fun m => verify m event);
  let migrations := migrations_of (mr_priorHistory result) in
  '(seen, current) ← lift (prior_logs seen previousLog (rev migrations));
  lift (throw_if (bool_decide (current ∈ seen) || (hops <? S (length migrations))%nat)
          (invalid_migration_error "MIGRATION cycle or recursion depth exceeded"));;
  spend l (zlen (mr_priorHistory result)) (w_size W result);;
  mret result.

(** [hops] is [limits.maxDepth - context.depth]: every reader of a previous log is
    one hop deeper. *)
Fixpoint migrationVerifier (hops : nat) (rd : C2spTlogReader Factory) (l : limits) (seen : list jsstr)
    (entity : jwk) (event : LogEvent) : RM MigrationVerificationResult :=
  modify (fun s => set_budget (rs_events s) (rs_bytes s) true s);;
  enforceMigrationBudget l;;
  let cycle := invalid_migration_error "MIGRATION cycle, discontinuity, or recursion depth exceeded" in
  match ev_payload event, hops with
  | MIGRATION previousLog newLog finalEntryRef, S hops' =>
      lift (throw_if (negb (bool_decide (newLog = lr_lr (rd_parsed rd))) || bool_decide (previousLog ∈ seen)) cycle);;
      match ro_verifyMigration (rd_options rd), ro_migrationReaderFactory (rd_options rd) with
      | Some verify, _ => customMigration verify l hops seen event previousLog
      | None, None => lift (Throw (invalid_migration_error "MIGRATION requires verified prior-log history"))
      | None, Some factory =>
          opened ← await (fun m => w_open W factory m previousLog);
          let mismatch := invalid_migration_error "MIGRATION requires a matching C2SP previous-log reader" in
          reader ← lift (of_option opened mismatch);
          lift (throw_if (negb (bool_decide (lr_lr (rd_parsed reader) = previousLog))) mismatch);;
          prior ← loadThrough reader (ev_domain event) finalEntryRef entity l
                    (migrationVerifier hops' reader l (previousLog :: seen) entity);
          lift (migrationResult (ev_domain event) prior)
      end
  | _, _ => lift (Throw cycle)
  end.

(** ** The calls of the reader *)

Section Calls.
Context (rd : C2spTlogReader Factory).
Notation options := (rd_options rd).
Notation parsed := (rd_parsed rd).
Notation skew := (allowedClockSkew options).

(** A call under the budget of time of [withVerificationBudget]. *)
Definition budgeted {A} (call : RM A) : RM A := fun s =>
  let n := m_call (rs_moment s) in
  let run r := withVerificationBudget None (w_started W n) (w_finished W n) (w_callSignal W n) r in
  match w_callSignal W n with
  | AbortedBefore => (run (Throw cancellationError), s)
  | _ => let '(r, s) := call s in (run r, s)
  end.

(** Each call has moments of its own. *)
Definition next_call (s : rstate) : rstate := set_moment (mkMoment (S (m_call (rs_moment s))) 0 0) s.
Definition begin_call {A} (call : RM A) : RM A := modify next_call;; call.

(** [migrationContext]: the limits, and a new budget. *)
Definition migrationContext (active : bool) : RM limits :=
  l ← lift (migrationLimits (ro_migrationLimits options));
  modify (set_budget 0 0 active);;
  mret l.

Definition reader_verifier (l : limits) (entity : jwk) : LogEvent -> RM MigrationVerificationResult :=
  migrationVerifier (Z.to_nat (l_maxDepth l)) rd l [lr_lr parsed] entity.

(** [options.entityKey ?? this.trustedEntityKey] *)
Definition own_key : RM (option key_object) := gets (fun s => orElse (ro_entityKey options) (rs_trustedEntityKey s)).

Definition load_history (domain : jsstr) (entityKey : jwk) : RM VerifiedHistory :=
  l ← migrationContext false;
  loadAndVerifyHistory rd domain entityKey l (reader_verifier l entityKey) None.

(** [Date.now() < cached.validUntilMs] *)
Definition still_valid (nowMs : Z) (validUntilMs : option date) : bool :=
  match validUntilMs with
  | None => true
  | Some (Some limit) => nowMs <? limit
  | Some None => false
  end.

Definition cache_hit (domain : jsstr) (key : key_object) (nowMs : Z) (cached : option CachedHistory)
    : option VerifiedHistory :=
  match cached with
  | Some c => if bool_decide (ch_domain c = domain) && (ch_entityKey c =? key)%nat
                 && still_valid nowMs (ch_validUntilMs c)
              then Some (ch_history c) else None
  | None => None
  end.

Definition loadCompleteHistoryWithinBudget (domain : jsstr) (entityKey : option key_object) : RM VerifiedHistory :=
  own ← own_key;
  key ← lift (of_option (orElse entityKey own)
                (log_err "C2SP lifecycle verification requires a trusted entity key"));
  nowMs ← now;
  cached ← gets rs_cachedHistory;
  match cache_hit domain key nowMs cached with
  | Some history => mret history
  | None =>
      history ← try_catch (load_history domain (w_members W key))
                  (fun cause => modify (set_cached None);; lift (Throw cause));
      modify (set_cached (Some (mkCached domain key history (vh_validUntilMs history))));;
      mret history
  end.

Definition loadCompleteHistory (domain : jsstr) (entityKey : option key_object) : RM VerifiedHistory :=
  budgeted (loadCompleteHistoryWithinBudget domain entityKey).

Definition canonical (event : LogEvent) : res bytes :=
  throw_if (negb (is_issuance event))
    (log_err "c2sp-tlog events after ISSUANCE require the prepared-event API");;
  let c := context rd parsed in
  signedC2spEventBytes event
    (mkContext (cx_scope c) (cx_logOrigin c) (cx_streamId c) (cx_lr c) (Some 0) (cx_prevEventId c) (cx_prevStateHash c)).

Definition additionalSignerRoles (event : LogEvent) : list jsstr :=
  match ev_payload event with KEY_ROTATION _ => [js "NewOperational"] | _ => [] end.

Definition rebuildHistory (domain : jsstr) : RM (list LogEvent) :=
  history ← loadCompleteHistory domain None;
  mret (vh_events history).

(** The operational key that an event brings into force. *)
Definition introduced_key (event : LogEvent) : option jsstr :=
  match ev_payload event with
  | ISSUANCE i => i_initialOperationalThumbprint i
  | KEY_ROTATION r => Some (r_newOperationalThumbprint r)
  | _ => None
  end.
Definition introduces (thumbprint : jsstr) (event : LogEvent) : bool := bool_decide (introduced_key event = Some thumbprint).

Definition keyTimestamp (domain keyThumbprint : jsstr) : RM date :=
  history ← rebuildHistory domain;
  lift (match List.find (introduces keyThumbprint) history with
        | Some e => Ok (ev_timestamp e)
        | None => Throw (log_err "key thumbprint not found in C2SP lifecycle history")
        end).

(** The members of the record that are read; [domain ?? fqdn ?? agentFQDN]. *)
Record binding_request := mkBindingRequest {
  bq_domain : option jsstr; bq_fqdn : option jsstr; bq_agentFQDN : option jsstr; bq_gi : option jsstr }.
Definition requested_domain (q : binding_request) : option jsstr :=
  match orElse (bq_domain q) (orElse (bq_fqdn q) (bq_agentFQDN q)) with
  | Some domain => if (length domain =? 0)%nat then None else Some domain
  | None => None
  end.

Record BilateralBindingResult := mkBilateralBinding {
  bb_initialOperationalThumbprint : jsstr; bb_initialEntityThumbprint : jsstr; bb_timestamp : date }.

(** What the history says of a binding. *)
Definition check_binding (domain : jsstr) (gi : option jsstr) (initialEntityThumbprint : jsstr) (operational : jwk)
    (history : list LogEvent) : res BilateralBindingResult :=
  '(event, issuance) ← of_option (find_issuance history) (log_err "ISSUANCE not found");
  c ← assertC2spIssuanceEvent issuance;
  throw_if (negb (bool_decide (ev_domain event = domain)) || negb (bool_decide (Some (i_governanceId issuance) = gi)))
    (log_err "ISSUANCE does not match current domain and governance ID");;
  throw_if (negb (bool_decide (ci_entityThumb c = initialEntityThumbprint)))
    (log_err "ISSUANCE entity key does not match current ek key");;
  currentOperationalThumbprint ← jwkThumbprint operational;
  throw_if (negb (existsb (introduces currentOperationalThumbprint) history))
    (log_err "current operational key is not recorded in lifecycle history");;
  snapshot ← latestSnapshot domain history;
  throw_if (negb (bool_decide (sn_historicalState snapshot = ACTIVE))) (log_err "domain is not active");;
  throw_if (negb (bool_decide (sn_activeKeyThumbprint snapshot = currentOperationalThumbprint)))
    (log_err "current operational key mismatch");;
  Ok (mkBilateralBinding (ci_operationalThumb c) (ci_entityThumb c) (ev_timestamp event)).

Definition verifyBilateralBinding (record : binding_request) (entityKey operationalKey : option key_object)
    : RM BilateralBindingResult :=
  domain ← lift (of_option (requested_domain record) (log_err "cannot infer domain for bilateral binding"));
  let missing := log_err "entity and operational keys are required for C2SP bilateral binding" in
  entity ← lift (of_option entityKey missing);
  operational ← lift (of_option operationalKey missing);
  initialEntityThumbprint ← lift (jwkThumbprint (w_members W entity));
  verifiedHistory ← loadCompleteHistory domain (Some entity);
  modify (set_trusted (Some entity));;
  lift (check_binding domain (bq_gi record) initialEntityThumbprint (w_members W operational) (vh_events verifiedHistory)).

Definition check_continuity (domain initialOperationalThumbprint currentOperationalThumbprint : jsstr)
    (history : list LogEvent) : res unit :=
  let mismatch := log_err "initial operational key mismatch" in
  '(_, first) ← of_option (find_issuance history) mismatch;
  throw_if (negb (bool_decide (i_initialOperationalThumbprint first = Some initialOperationalThumbprint))) mismatch;;
  assertC2spIssuanceEvent first;;
  snap ← latestSnapshot domain history;
  throw_if (negb (bool_decide (sn_historicalState snap = ACTIVE))) (log_err "domain is not active");;
  throw_if (negb (bool_decide (sn_activeKeyThumbprint snap = currentOperationalThumbprint)))
    (log_err "current operational key mismatch").

Definition verifyOperationalContinuity (domain initialOperationalThumbprint currentOperationalThumbprint : jsstr) : RM unit :=
  verifiedHistory ← loadCompleteHistory domain None;
  lift (check_continuity domain initialOperationalThumbprint currentOperationalThumbprint (vh_events verifiedHistory)).

Record LoggedStateEvidence := mkLoggedState {
  le_logReference : jsstr;
  le_loggedState : AgentStatusState;
  le_historyStart : jsstr;
  le_historyEnd : jsstr;
  le_completeThrough : jsstr;
  le_completenessMode : jsstr;
  le_checkpoint : bytes;
  le_freshnessTime : jsdate
}.

Definition assertFresh (nowMs : Z) (checkpointWitnessTime : jsdate) : res unit :=
  maximumAge ← of_option (ro_checkpointMaxAge options) (log_err "non-revocation verification requires checkpointMaxAge");
  throw_if (date_ms_gt ((fun w => nowMs - w) <$> checkpointWitnessTime) (Some maximumAge))
    (log_err "C2SP checkpoint is too stale for non-revocation verification").

(** An element of the references that is a nonempty string. *)
Definition reference_at (references : list jsstr) (i : nat) : option jsstr :=
  match references !! i with
  | Some r => if (length r =? 0)%nat then None else Some r
  | None => None
  end.

Definition logged_state (domain : jsstr) (at_ : date) (verified : VerifiedHistory) : res LoggedStateEvidence :=
  snapshot ← snapshotAt domain (vh_events verified) at_;
  throw_if (bool_decide (sn_historicalState snapshot = REVOKED) || bool_decide (sn_historicalState snapshot = RETIRED))
    (log_err "domain was revoked or retired");;
  let unbounded := log_err_in "C2SP non-revocation evidence has no verified history bounds" INVALID_EVIDENCE in
  references ← of_option (vh_historyReferences verified) unbounded;
  start ← of_option (reference_at references 0) unbounded;
  end_ ← of_option (reference_at references (length (sn_events snapshot) - 1)) unbounded;
  throw_if (negb (length references =? length (vh_events verified))%nat) unbounded;;
  Ok (mkLoggedState (lr_lr parsed) (sn_historicalState snapshot) start end_ (dec (vh_completeThrough verified))
        (vh_completenessMode verified) (vh_checkpoint verified) (vh_checkpointWitnessTime verified)).

Definition verifyNonRevocation (domain : jsstr) (at_ : date) : RM LoggedStateEvidence :=
  lift (throw_if (is_none (ro_checkpointMaxAge options)) (log_err "non-revocation verification requires checkpointMaxAge"));;
  own ← own_key;
  trustedEntityKey ← lift (of_option own (log_err "C2SP lifecycle verification requires a trusted entity key"));
  verified ← budgeted (load_history domain (w_members W trustedEntityKey));
  nowMs ← now;
  lift (assertFresh nowMs (vh_checkpointWitnessTime verified));;
  lift (logged_state domain at_ verified).

(** A missing proof and an empty one are no proof. *)
Definition proof_of (index : Z) : option (TlogProofV1 + jsstr) :=
  match ro_proofs options !! index with
  | Some (inr []) | None => None
  | Some proof => Some proof
  end.

(** Without a proof, the entry is the one that the lifecycle evidence authenticates. *)
Definition authenticate_entry (p : ParsedC2spTlogLr) (entryIndex : Z) (discovered : IndexedEntry) (event : LogEvent)
    (history : VerifiedHistory) : RM IndexedEntry :=
  match proof_of entryIndex with
  | None =>
      lift (
        authenticated ← of_option (List.find (fun e => ie_index e =? entryIndex) (vh_authenticatedEntries history))
          (log_err "C2SP entry is not in its authenticated lifecycle evidence");
        throw_if (negb (bool_decide (ie_bytes authenticated = ie_bytes discovered)))
          (log_err "C2SP entry does not match its authenticated lifecycle evidence");;
        Ok authenticated)
  | Some proof =>
      nowMs ← now;
      verifiedProof ← lift (verifyC2spTlogProof (ie_bytes discovered) proof (ro_policy options) (Some (lr_origin p))
                              (Some (lr_scope p)) nowMs skew);
      lift (throw_if (negb (TlogProof.index verifiedProof =? entryIndex)) (log_err "C2SP proof index mismatch"));;
      proofPolicyResult ← enforce rd (TlogProof.checkpoint verifiedProof) p;
      witnessTime ← lift (of_option (checkpointWitnessTime proofPolicyResult)
        (log_err_in "C2SP proof timestamp requires an accepted timestamped witness quorum" INVALID_EVIDENCE));
      lift (throw_if (match ev_timestamp event with Some t => integration_time witnessTime skew <? t | None => false end)
              (log_err_in "C2SP event timestamp is later than its proof checkpoint integration time" INVALID_EVIDENCE));;
      mret discovered
  end.

Definition readEventWithinBudget (ref : jsstr) : RM LogEvent :=
  p ← lift (parseC2spTlogLr ref);
  lift (throw_if (negb (bool_decide (lr_scope p = lr_scope parsed)) || negb (bool_decide (lr_logPrefix p = lr_logPrefix parsed))
                  || negb (bool_decide (lr_streamId p = lr_streamId parsed)))
          (log_err "C2SP event ref does not belong to this reader"));;
  entryIndex ← lift (of_option (lr_entryIndex p) (log_err "C2SP event ref missing @index"));
  own ← own_key;
  entityKey ← lift (of_option own (log_err "C2SP readEvent requires a trusted entity key"));
  discovered ← discoverEntry rd (lr_logPrefix p) entryIndex;
  event ← lift (parseC2spEventEntry (ie_bytes discovered) (context rd p));
  history ← loadCompleteHistoryWithinBudget (ev_domain event) (Some entityKey);
  entry ← authenticate_entry p entryIndex discovered event history;
  lift (verifyOccurrence rd entry event (vh_indexedEvents history) (w_members W entityKey)
          (vh_checkpointWitnessTime history) (vh_migration history)).

Definition readEvent (ref : jsstr) : RM LogEvent := budgeted (readEventWithinBudget ref).

Definition rebuildHistoryThrough (domain finalRef : jsstr) : RM MigrationVerificationResult :=
  budgeted (
    own ← own_key;
    entity ← lift (of_option own (verr "C2SP lifecycle verification requires a trusted entity key"));
    l ← migrationContext true;
    history ← loadThrough rd domain finalRef (w_members W entity) l (reader_verifier l (w_members W entity));
    lift (migrationResult domain history)).

End Calls.
End Reader.

(** ** Inversion of runs *)

Lemma rm_bind_Ok {A B} (m : RM A) (f : A -> RM B) s b s' :
  (m ≫= f) s = (Ok b, s') <-> exists a s1, m s = (Ok a, s1) /\ f a s1 = (Ok b, s').
Proof. unfold mbind, RM_bind. destruct (m s) as [[a|e] s1]; naive_solver. Qed.

Lemma lift_Ok {A} (r : res A) s a s' : lift r s = (Ok a, s') <-> r = Ok a /\ s' = s.
Proof. unfold lift. naive_solver. Qed.

Lemma try_catch_Ok {A} (m : RM A) h s a s' : try_catch m h s = (Ok a, s') <->
  m s = (Ok a, s') \/ exists e s1, m s = (Throw e, s1) /\ h e s1 = (Ok a, s').
Proof. unfold try_catch. destruct (m s) as [[b|e] s1]; naive_solver. Qed.

Lemma observe_Ok {A} (f : moment -> res A) s a s' : observe f s = (Ok a, s') <->
  f (rs_moment s) = Ok a /\ s' = set_moment (tick (rs_moment s)) s.
Proof. unfold observe. split; [by intros [= -> <-]|by intros [-> ->]]. Qed.

Lemma with_callback_Ok {A} callback (f : _ -> res (A * migration_memo)) s a r s' :
  with_callback callback f s = (Ok (a, r), s') -> exists memo, f (answers_of callback s) = Ok (a, memo)
    /\ r = mm_result memo /\ s' = replay callback (mm_asked memo) s.
Proof. unfold with_callback. destruct (f _) as [[x memo]|]; [|done]. intros [= <- <- <-]. by exists memo. Qed.

Lemma spend_Ok l events bytes s u s' : spend l events bytes s = (Ok u, s') ->
  s' = set_budget (rs_events s + events) (rs_bytes s + bytes) (rs_active s) s
  /\ (rs_active s' = true -> rs_events s' <= l_maxHistoryEvents l /\ rs_bytes s' <= l_maxResponseBytes l).
Proof.
  unfold spend, modify, enforceMigrationBudget. intros (a & s1 & [= <- <-] & [= H <-])%rm_bind_Ok.
  split; [done|]. cbn. intros Ha. apply throw_if_Ok in H. rewrite Ha in H. cbn in *. bool_inv. lia.
Qed.

(** Inverts a successful run into the steps it took. *)
Ltac rm_step :=
  match goal with
  | H : mbind (M := RM) _ _ _ = (Ok _, _) |- _ =>
      let a := fresh "a" in let s := fresh "s" in let Ha := fresh "Ha" in
      apply rm_bind_Ok in H as (a & s & Ha & H)
  | H : lift _ _ = (Ok _, _) |- _ => apply lift_Ok in H as [H ->]
  | H : mret (M := RM) _ _ = (Ok _, _) |- _ => injection H as <- <-
  | H : gets _ _ = (Ok _, _) |- _ => injection H as <- <-
  | H : modify _ _ = (Ok _, _) |- _ => injection H as <- <-
  | H : observe _ _ = (Ok _, _) |- _ => apply observe_Ok in H as [H ->]
  end.
Ltac rm_inv := repeat rm_step.
