(* ===== verification/ReaderSpec.v ===== *)
(** What the reader of a log guarantees ([Reader]): the evidence behind a verified history,
    across migrations, and the answers that are given from it. *)

From S2P Require Import Prelude JsString Base64 Sha256 HashTree Merkle Url Utils Json Jwk EventCodec Lifecycle.
From S2P Require Import Consistency Lr Checkpoint Policy Budget CheckpointTrust TlogProof.
From S2P Require Import StreamVerifier StreamSource StreamBundle Reader.

(** ** The latest snapshot *)

Lemma latest_time_from a events :
  let latest := foldl (fun latest e => match latest, ev_timestamp e with
                                       | Some a, Some b => Some (Z.max a b) | _, _ => None end) a events in
  (forall t m, a = Some t -> latest = Some m -> t <= m)
  /\ forall e, e ∈ events -> date_gt (ev_timestamp e) latest = false.
Proof.
  revert a; induction events as [|e events IH]; intros a latest.
  { split; [intros t m -> [= ->]; lia|]. by intros e He%not_elem_of_nil. }
  subst latest. cbn [foldl].
  destruct (IH (match a, ev_timestamp e with Some a, Some b => Some (Z.max a b) | _, _ => None end)) as [Hm He].
  split.
  - intros t m -> Hl. destruct (ev_timestamp e) as [b|]; [|clear He; exfalso].
    + specialize (Hm _ _ eq_refl Hl). lia.
    + clear -Hl. induction events as [|e' events IH]; [done|]. exact (IH Hl).
  - intros e' [->|Hin]%elem_of_cons; [|by apply He].
    destruct (foldl _ _ events) as [m|] eqn:El; [|by destruct (ev_timestamp e)].
    destruct (ev_timestamp e) as [b|] eqn:Et; [|done]. cbn.
    destruct a as [a|]; [specialize (Hm _ _ eq_refl eq_refl); apply Z.ltb_ge; lia|exfalso].
    clear -El. induction events as [|e' events IH]; [done|]. exact (IH El).
Qed.

(** The latest snapshot covers all events: it is where the lifecycle machine stops. *)
Lemma latestSnapshot_run `{H256 : Hash256} domain events sn : latestSnapshot domain events = Ok sn ->
  lifecycle_run events (snapshot_phase sn) /\ sn_events sn = events /\ Forall (fun e => ev_domain e = domain) events
  /\ exists category, synchronousJwkThumbprint (sn_activeKey sn) category = Ok (sn_activeKeyThumbprint sn).
Proof.
  intros (s & [Hd (rest & E & _ & Ha & _) Hr Hk] & Ek & Et & Ee & Ep)%snapshotAt_inv.
  assert (rest = []) as ->.
  { destruct rest as [|e rest]; [done|]. exfalso. apply Forall_cons in Ha as [Ha _].
    destruct (latest_time_from (Some 0) events) as [_ Hl]. specialize (Hl e).
    fold (latest_time events) in Hl. rewrite Ha in Hl. discriminate Hl. rewrite E. apply elem_of_app. right. by left. }
  rewrite app_nil_r in E. rewrite <-E, Ep in Hr. split; [done|]. split; [congruence|]. split; [done|].
  unfold key_bound in Hk. by rewrite Ek, Et in Hk.
Qed.

(** ** Histories *)

(** A name is brought into its normal form by the reader and again by the verification of the
    bundle. *)
Definition normal_name `{URLApi} `{Unicode} (domain d : jsstr) : Prop :=
  exists n, normalizeFQDN domain true = Ok n /\ normalizeFQDN n true = Ok d.

Section Spec.
Context `{H256 : Hash256} `{Url : URLApi} `{Uni : Unicode} `{Jwk : JwkApi} `{Ed : Ed25519}.
Context {Factory : Type} (W : world Factory).

(** A reader keeps the parsed form of its reference. *)
Definition well_made (rd : C2spTlogReader Factory) : Prop := parseC2spTlogLr (rd_lr rd) = Ok (rd_parsed rd).

Lemma newC2spTlogReader_well_made lr options m rd : newC2spTlogReader W lr options m = Ok rd -> well_made rd.
Proof.
  unfold newC2spTlogReader. intros H. apply bind_Ok in H as (p & Hp & H). res_inv. done.
Qed.

(** An instance of the class comes from its constructor. *)
Definition factories_construct : Prop :=
  forall factory m lr rd, w_open W factory m lr = Ok (Some rd) -> well_made rd.

Section Histories.
Context (Imported : LogEvent -> MigrationVerificationResult -> Prop).
Context (rd : C2spTlogReader Factory) (entity : jwk).

(** The policy of the reader, or that of its bundle configuration. *)
Definition local_policy (policy : C2spTlogPolicy) : Prop :=
  policy = ro_policy (rd_options rd)
  \/ exists config text, ro_streamBundle (rd_options rd) = Some config
       /\ utf8_decode (policyDocument config) = Some text /\ parseC2spPolicyFile text = Ok policy.

(** A local policy accepts the checkpoint, whose witness time is that of the history. *)
Definition accepted_checkpoint (h : VerifiedHistory) (checkpoint : Checkpoint) : Prop :=
  exists policy nowMs result, local_policy policy
    /\ enforceCheckpointPolicy checkpoint (lr_origin (rd_parsed rd)) policy (lr_scope (rd_parsed rd)) nowMs
         (allowedClockSkew (rd_options rd)) = Ok result
    /\ checkpointWitnessTime result = Some (vh_checkpointWitnessTime h)
    /\ treeSize checkpoint = vh_completeThrough h.

(** The whole log was read: entries 0, 1, ... with the root of the checkpoint; the events are
    among those up to the cutoff. *)
Record scan_evidence (cutoff : option Z) (h : VerifiedHistory) (evidence : StreamEvidence) : Prop := {
  sc_complete : se_complete evidence = true;
  sc_accepted : accepted_checkpoint h (se_checkpoint evidence);
  sc_indexes : map ie_index (sorted_entries evidence) = seqZ 0 (treeSize (se_checkpoint evidence));
  sc_root : merkleRootFromEntries (map ie_bytes (sorted_entries evidence)) = rootHash (se_checkpoint evidence);
  sc_entries : vh_authenticatedEntries h = se_entries evidence;
  sc_selected : map entry_of (vh_indexedEvents h) `sublist_of` sort_by by_index (below_cutoff cutoff (se_entries evidence))
}.

(** A bundle of the producer was verified in all its parts. *)
Record bundle_evidence (domain : jsstr) (cutoff : option Z) (h : VerifiedHistory) (bundle : C2spStreamBundle) : Prop := {
  be_accepted : accepted_checkpoint h (sb_checkpoint bundle);
  be_verified : exists config bs options verified policy keys result memo,
    ro_streamBundle (rd_options rd) = Some config
    /\ verified_parts bs options verified policy keys result memo
    /\ vo_bundleKeys options = bundleKeys config /\ vo_policyBytes options = policyDocument config
    /\ vo_cutoffIndex options = cutoff /\ vb_bundle verified = bundle
    /\ h = bundle_history config verified (mm_result memo);
  be_fqdn : normal_name domain (sb_fqdn bundle)
}.

(** The lifecycle events of a stream run the authority machine under the trusted entity key;
    a history that begins with a migration has the imported history in front. *)
Record stream_history (d : jsstr) (h : VerifiedHistory) : Prop := {
  sh_faithful : Forall (faithful (verifierOptions rd entity (vh_checkpointWitnessTime h) None) d) (vh_indexedEvents h);
  sh_authorized : exists entityKey activeKey,
    authorized_history (verifierOptions rd entity (vh_checkpointWitnessTime h) None) Imported (vh_indexedEvents h)
      (Some (entityKey, activeKey));
  sh_stitched : exists first rest, vh_indexedEvents h = first :: rest
    /\ if is_migration (ve_event first) then
         exists r, Imported (ve_event first) r /\ vh_migration h = Some r
           /\ vh_events h = mr_priorHistory r ++ map ve_event (vh_indexedEvents h)
           /\ stitchVerifiedMigrationHistory d (map ve_event (vh_indexedEvents h)) r = Ok (vh_events h)
       else vh_events h = map ve_event (vh_indexedEvents h)
}.

(** The domain that the events name: the requested one, or its normal form. *)
Definition names (domain d : jsstr) : Prop := d = domain \/ normal_name domain d.

Definition verified_history (domain : jsstr) (cutoff : option Z) (h : VerifiedHistory) : Prop :=
  ((exists evidence, scan_evidence cutoff h evidence) \/ (exists bundle, bundle_evidence domain cutoff h bundle))
  /\ exists d, names domain d /\ stream_history d h.

End Histories.

(** The last event of a history is the logical event of the entry at the cutoff. *)
Definition ends_at (cutoff : Z) (h : VerifiedHistory) : Prop :=
  cutoff < vh_completeThrough h
  /\ exists occurrence item signed, ie_index occurrence = cutoff /\ last (vh_indexedEvents h) = Some item
       /\ signedC2spEntryBytes (ie_bytes occurrence) = Ok signed /\ signedC2spEntryBytes (ve_bytes item) = Ok signed.

(** What a history exports: its events, the entity key of its ISSUANCE, and the operational
    key that is active at its end. *)
Definition exports (h : VerifiedHistory) (r : MigrationVerificationResult) : Prop :=
  mr_priorHistory r = vh_events h
  /\ (exists e i c, find_issuance (vh_events h) = Some (e, i) /\ c2sp_issuance i = Some c
        /\ mr_entityKey r = ci_entityKey c)
  /\ exists thumb governance category, lifecycle_run (vh_events h) (Alive thumb governance)
       /\ synchronousJwkThumbprint (mr_activeOperationalKey r) category = Ok thumb.

(** What may be imported for a MIGRATION, with at most [hops] readers of previous logs behind
    one another: the answer of the custom callback, or a history that a reader of exactly
    the named previous log verified through exactly the named entry, under the same
    trusted entity key, and that leaves the identity active. *)
Fixpoint imported (hops : nat) (rd : C2spTlogReader Factory) (entity : jwk) (event : LogEvent)
    (r : MigrationVerificationResult) : Prop :=
  match hops with
  | O => False
  | S hops =>
      exists previousLog finalEntryRef, ev_payload event = MIGRATION previousLog (lr_lr (rd_parsed rd)) finalEntryRef
      /\ ((exists verify m, ro_verifyMigration (rd_options rd) = Some verify /\ verify m event = Ok r)
          \/ exists factory m previous cutoff prior,
               ro_migrationReaderFactory (rd_options rd) = Some factory
               /\ w_open W factory m previousLog = Ok (Some previous) /\ lr_lr (rd_parsed previous) = previousLog
               /\ finalEntryRef = event_reference previousLog cutoff
               /\ verified_history (imported hops previous entity) previous entity (ev_domain event) (Some cutoff) prior
               /\ ends_at cutoff prior /\ exports prior r)
  end.

(** ** Lemmas: one load *)

Lemma answers_of_Ok {R} (callback : LogEvent -> RM R) (Answer : LogEvent -> R -> Prop) s asked event r :
  (forall e s r s', callback e s = (Ok r, s') -> Answer e r) ->
  answers_of callback s asked event = Ok r -> Answer event r.
Proof.
  intros Hc H. unfold answers_of in H. destruct (callback event (replay callback asked s)) as [r' s'] eqn:E.
  cbn in H. subst. by eapply Hc.
Qed.

Lemma await_Ok {A} (f : moment -> res A) s a s' : await W f s = (Ok a, s') -> f (rs_moment s) = Ok a.
Proof. unfold await. intros [[_ H]%waitForVerification_Ok _]%observe_Ok. done. Qed.

Lemma enforce_Ok rd checkpoint p s r s' : enforce W rd checkpoint p s = (Ok r, s') ->
  exists nowMs, enforceCheckpointPolicy checkpoint (lr_origin p) (ro_policy (rd_options rd)) (lr_scope p) nowMs
                  (allowedClockSkew (rd_options rd)) = Ok r.
Proof. unfold enforce, now. intros H. rm_inv. by eexists. Qed.

Lemma assertCompleteScan_Ok evidence : assertCompleteScan evidence = Ok tt ->
  map ie_index (sorted_entries evidence) = seqZ 0 (treeSize (se_checkpoint evidence))
  /\ merkleRootFromEntries (map ie_bytes (sorted_entries evidence)) = rootHash (se_checkpoint evidence).
Proof.
  unfold assertCompleteScan. intros H. res_inv. bool_inv. split; [|done].
  match goal with He : existsb _ _ = false |- _ => apply existsb_false_Forall in He; rename He into Hall end.
  match goal with Hz : zlen _ = _ |- _ => rewrite <-Hz end.
  apply list_eq. intros i. change (map ie_index ?l) with (ie_index <$> l). rewrite list_lookup_fmap.
  destruct (sorted_entries evidence !! i) as [e|] eqn:E; cbn.
  - rewrite Forall_lookup in Hall. specialize (Hall i (i, e)).
    rewrite list_lookup_imap, E in Hall. specialize (Hall eq_refl). cbn in Hall. bool_inv.
    apply lookup_lt_Some in E. symmetry. rewrite Hall. apply lookup_seqZ. unfold zlen. lia.
  - apply lookup_ge_None in E. symmetry. apply lookup_seqZ_ge. unfold zlen. lia.
Qed.

Lemma stitch_Ok d lr verified migration events refs : stitch d lr verified migration = Ok (events, refs) ->
  match verified with
  | [] => events = []
  | first :: _ =>
      if is_migration (ve_event first) then
        exists r, migration = Some r /\ stitchVerifiedMigrationHistory d (map ve_event verified) r = Ok events
          /\ events = mr_priorHistory r ++ map ve_event verified
      else events = map ve_event verified
  end.
Proof.
  unfold stitch. destruct verified as [|first rest]; [by intros [= <- <-]|]. cbn [map].
  destruct (is_migration (ve_event first)); [|by intros [= <- <-]].
  intros H. apply bind_Ok in H as (r & ->%of_option_Ok & H). apply bind_Ok in H as (refs' & _ & H).
  apply bind_Ok in H as (l & Hl & [= <- <-]). exists r. split; [done|]. split; [done|].
  unfold stitchVerifiedMigrationHistory in Hl. destruct (ev_payload (ve_event first)); try done. by res_inv.
Qed.

(** The selection of a stream with the answers of a callback, and its stitched history. *)
Lemma stream_history_Ok Imported rd entity callback entries d w verified memo events refs s h :
  (forall e s r s', callback e s = (Ok r, s') -> Imported e r) ->
  let so := verifierOptions rd entity w (Some (answers_of callback s)) in
  verifyStreamWithinBudget entries d so = Ok (verified, memo) ->
  stitch d (lr_lr (rd_parsed rd)) verified (mm_result memo) = Ok (events, refs) ->
  verified <> [] ->
  vh_indexedEvents h = verified -> vh_events h = events -> vh_checkpointWitnessTime h = w ->
  vh_migration h = mm_result memo ->
  stream_history Imported rd entity d h /\ map entry_of verified `sublist_of` sort_by by_index entries.
Proof.
  intros Hcb so Hv Hst Hne Hi He Hw Hm.
  assert (Hans : forall e r, callback_answer so e r -> Imported e r).
  { intros e r (f & asked & [= <-] & H). by eapply answers_of_Ok. }
  destruct (verifyStreamWithinBudget_Ok _ _ _ _ _ Hv) as (Hsub & Hf & ek & ak & Ha). split; [|done].
  pose proof (stitch_Ok _ _ _ _ _ _ Hst) as Hs. split.
  - rewrite Hi, Hw. exact Hf.
  - exists ek, ak. rewrite Hi, Hw. by eapply (authorized_history_mono so).
  - rewrite Hi. destruct verified as [|first rest]; [done|]. exists first, rest. split; [done|].
    destruct (is_migration (ve_event first)) eqn:Em; [|congruence].
    destruct Hs as (r & Hr & Hsv & ->). exists r.
    destruct (verifyStreamWithinBudget_migration _ _ _ _ _ _ Hv Em) as (r' & Hr' & Hc).
    rewrite Hr in Hr'. injection Hr' as <-. split; [by apply Hans|]. split; [congruence|]. rewrite He. split; [done|exact Hsv].
Qed.

(** The stream options of a bundle are those of the reader. *)
Lemma bundle_options_reader rd entity config fqdn maximum nowMs cutoff callback bs r policy keys result memo :
  well_made rd ->
  let options := bundle_verify_options rd config fqdn entity maximum nowMs cutoff callback in
  verified_parts bs options r policy keys result memo ->
  sb_reference (vb_bundle r) = rd_parsed rd
  /\ bundle_stream_options (vb_bundle r) options (vb_checkpointWitnessTime r) (default 0 (vo_maxClockSkewMs options))
     = verifierOptions rd entity (vb_checkpointWitnessTime r) (Some callback).
Proof.
  intros Hw options Hp. pose proof (parseC2spStreamBundle_reference _ _ _ _ (vp_parsed _ _ _ _ _ _ _ Hp)) as Hr.
  pose proof (vp_lr _ _ _ _ _ _ _ Hp) as Hlr. cbn in Hlr. unfold well_made in Hw.
  assert (Hs : sb_reference (vb_bundle r) = rd_parsed rd) by (rewrite Hlr in Hr; congruence).
  split; [done|]. unfold bundle_stream_options, verifierOptions, context. cbn. rewrite Hlr, Hs. done.
Qed.

Lemma loadBundleHistory_Ok Imported rd domain entity l callback cutoff s h s' : well_made rd ->
  (forall e s r s', callback e s = (Ok r, s') -> Imported e r) ->
  loadBundleHistory W rd domain entity l callback cutoff s = (Ok (Some h), s') ->
  verified_history Imported rd entity domain cutoff h /\ exists bundle, bundle_evidence rd domain cutoff h bundle.
Proof.
  intros Hw Hcb. unfold loadBundleHistory. destruct (ro_streamBundle (rd_options rd)) as [config|] eqn:Ec; [|done].
  intros H. rm_inv. destruct a1 as [bs|]; [|done]. rm_inv. destruct a3 as [verified migration]. rm_inv.
  match goal with Hc : with_callback _ _ _ = _ |- _ =>
    apply with_callback_Ok in Hc as (memo & Hv & -> & ->) end.
  destruct (verifyBundleContents_Ok _ _ _ _ Hv) as (policy & keys & result & Hp).
  destruct (bundle_options_reader _ _ _ _ _ _ _ _ _ _ _ _ _ _ Hw Hp) as [Href Hso].
  set (h := bundle_history config verified (mm_result memo)).
  assert (Hfq : normal_name domain (sb_fqdn (vb_bundle verified))) by (exists a; split; [done|exact (vp_fqdn _ _ _ _ _ _ _ Hp)]).
  assert (Hb : bundle_evidence rd domain cutoff h (vb_bundle verified)).
  { destruct (vp_policy _ _ _ _ _ _ _ Hp) as (text & Ht & Hpol & _). split; [| |done].
    - exists policy, a2, result. split; [right; by exists config, text|]. rewrite <-Href.
      split; [exact (vp_checkpoint _ _ _ _ _ _ _ Hp)|]. split; [exact (vp_witness _ _ _ _ _ _ _ Hp)|].
      exact (vp_size _ _ _ _ _ _ _ Hp).
    - eexists config, bs, _, verified, policy, keys, result, memo. split; [done|]. split; [exact Hp|done]. }
  split; [|by exists (vb_bundle verified)]. split; [right; by exists (vb_bundle verified)|].
  exists (sb_fqdn (vb_bundle verified)). split; [by right|].
  pose proof (vp_stream _ _ _ _ _ _ _ Hp) as Hst. rewrite Hso in Hst.
  pose proof (vp_lifecycle _ _ _ _ _ _ _ Hp) as Hl. rewrite Href in Hl.
  exact (proj1 (stream_history_Ok _ _ _ _ _ _ _ _ _ _ _ _ h Hcb Hst Hl (vp_nonempty _ _ _ _ _ _ _ Hp)
                  eq_refl eq_refl eq_refl eq_refl)).
Qed.

Lemma authorized_nonempty so Imported items keys : authorized_history so Imported items (Some keys) -> items <> [].
Proof. inversion 1; by destruct items0. Qed.

(** The bundle was not there: its request failed in a way that allows the raw evidence. *)
Definition bundle_unavailable (rd : C2spTlogReader Factory) (config : C2spStreamBundleReaderOptions) : Prop :=
  default false (required config) = false
  /\ exists endpoint maximum s cause s', requestBundle W rd endpoint maximum s = (Throw cause, s')
       /\ bundleFallbackAllowed cause = true.

Lemma fetchBundle_None rd config endpoint maximum s s' : fetchBundle W rd config endpoint maximum s = (Ok None, s') ->
  bundle_unavailable rd config.
Proof.
  unfold fetchBundle. intros [H|(cause & s1 & Hr & H)]%try_catch_Ok; [by rm_inv|].
  destruct (negb _ && _) eqn:E; [|done]. bool_inv. split; [done|]. exists endpoint, maximum, s, cause, s1. split; [|done].
  unfold mbind, RM_bind in Hr. destruct (requestBundle W rd endpoint maximum s) as [[bs|e] s2]; [done|].
  by injection Hr as -> ->.
Qed.

Lemma loadBundleHistory_None rd domain entity l callback cutoff s s' :
  loadBundleHistory W rd domain entity l callback cutoff s = (Ok None, s') ->
  forall config, ro_streamBundle (rd_options rd) = Some config -> bundle_unavailable rd config.
Proof.
  unfold loadBundleHistory. intros H config Hc. rewrite Hc in H.
  apply rm_bind_Ok in H as (fqdn & ? & _ & H). apply rm_bind_Ok in H as (encoded & ? & _ & H).
  apply rm_bind_Ok in H as ([bs|] & s1 & Hf & H); [|by eapply fetchBundle_None].
  apply rm_bind_Ok in H as (? & ? & _ & H). apply rm_bind_Ok in H as (? & ? & _ & H).
  apply rm_bind_Ok in H as ([verified migration] & ? & _ & H). apply rm_bind_Ok in H as (? & ? & _ & H).
  by apply rm_bind_Ok in H as (? & ? & _ & ?).
Qed.

(** Whatever a load returns is a verified history; the callback only answers what may be
    imported.  The raw evidence is read only when there is no bundle. *)
Lemma load_parts Imported rd domain entity l callback cutoff s h s' : well_made rd ->
  (forall e s r s', callback e s = (Ok r, s') -> Imported e r) ->
  loadAndVerifyHistory W rd domain entity l callback cutoff s = (Ok h, s') ->
  ((exists bundle, bundle_evidence rd domain cutoff h bundle)
   \/ (forall config, ro_streamBundle (rd_options rd) = Some config -> bundle_unavailable rd config)
      /\ exists evidence, scan_evidence rd cutoff h evidence)
  /\ exists d, names domain d /\ stream_history Imported rd entity d h.
Proof.
  intros Hw Hcb. unfold loadAndVerifyHistory. intros (bundled & s1 & Hb & H)%rm_bind_Ok.
  destruct bundled as [h'|].
  { injection H as -> <-. destruct (loadBundleHistory_Ok _ _ _ _ _ _ _ _ _ _ Hw Hcb Hb) as [[_ Hh] He].
    split; [by left|done]. }
  pose proof (loadBundleHistory_None _ _ _ _ _ _ _ _ Hb) as Hno. clear Hb.
  rm_inv. rename a into evidence, a0 into u, a1 into result, a2 into w.
  destruct a3, a5 as [verified migration]. apply rm_bind_Ok in H as (? & ? & _ & H).
  apply rm_bind_Ok in H as ([events refs] & ? & Hst & H). rm_inv.
  apply with_callback_Ok in Ha5 as (memo & Hv & -> & ->).
  match goal with |- _ /\ exists d, names domain d /\ stream_history _ _ _ d ?h' => set (h := h') end.
  destruct (verifyStreamWithinBudget_Ok _ _ _ _ _ Hv) as (_ & _ & ek & ak & Hne%authorized_nonempty).
  destruct (stream_history_Ok _ _ _ _ _ _ _ _ _ _ _ _ h Hcb Hv Hst Hne eq_refl eq_refl eq_refl eq_refl)
    as [Hsh Hsub].
  split; [right; split; [exact Hno|]|exists domain; split; [by left|done]]. exists evidence.
  apply throw_if_Ok, negb_false_iff in Ha0. apply of_option_Ok in Ha2. apply enforce_Ok in Ha1 as (nowMs & Hen).
  apply assertCompleteScan_Ok in Ha3 as [Hidx Hroot].
  split; try done. exists (ro_policy (rd_options rd)), nowMs, result. by split; [left|].
Qed.

Lemma loadAndVerifyHistory_Ok Imported rd domain entity l callback cutoff s h s' : well_made rd ->
  (forall e s r s', callback e s = (Ok r, s') -> Imported e r) ->
  loadAndVerifyHistory W rd domain entity l callback cutoff s = (Ok h, s') ->
  verified_history Imported rd entity domain cutoff h.
Proof.
  intros Hw Hcb Hl. destruct (load_parts _ _ _ _ _ _ _ _ _ _ Hw Hcb Hl) as [[Hb|[_ He]] Hd]; (split; [|done]); auto.
Qed.

(** ** Lemmas: migrations *)

Lemma migrationResult_Ok domain h r : migrationResult domain h = Ok r -> exports h r.
Proof.
  unfold migrationResult, assertC2spIssuanceEvent. intros H. res_inv. bool_inv.
  match goal with Hs : latestSnapshot _ _ = Ok ?sn |- _ =>
    destruct (latestSnapshot_run _ _ _ Hs) as (Hr & _ & _ & category & Ht); rename sn into snapshot end.
  destruct v1 as [e i]. apply bind_Ok in H as (c & Hc%of_option_Ok & [= <-]).
  split; [done|]. split; [by exists e, i, c|].
  exists (sn_activeKeyThumbprint snapshot), (sn_governanceId snapshot), category. split; [|done].
  unfold snapshot_phase in Hr. by rewrite Hv0 in Hr.
Qed.

Lemma occurrence_by_scan_index rd l h cutoff s e s' :
  occurrence_by_scan W rd l h cutoff s = (Ok (Some e), s') -> ie_index e = cutoff.
Proof.
  unfold occurrence_by_scan. intros H. rm_inv. apply bind_Ok in H as (? & _ & H).
  apply bind_Ok in H as (? & _ & H). apply bind_Ok in H as (? & _ & H). apply bind_Ok in H as (? & _ & [= H]).
  apply find_some in H as [_ H]. by apply Z.eqb_eq in H.
Qed.

Lemma loadThrough_Ok Imported rd domain finalRef entity l callback s h s' : well_made rd ->
  (forall e s r s', callback e s = (Ok r, s') -> Imported e r) ->
  loadThrough W rd domain finalRef entity l callback s = (Ok h, s') ->
  exists cutoff prior refs, finalRef = event_reference (lr_lr (rd_parsed rd)) cutoff
    /\ verified_history Imported rd entity domain (Some cutoff) prior /\ ends_at cutoff prior
    /\ h = end_at finalRef prior refs.
Proof.
  intros Hw Hcb. unfold loadThrough. intros H.
  apply rm_bind_Ok in H as (p & ? & [_ ->]%lift_Ok & H).
  apply rm_bind_Ok in H as (cutoff & ? & [_ ->]%lift_Ok & H).
  apply rm_bind_Ok in H as (? & ? & [Href%throw_if_Ok ->]%lift_Ok & H). bool_inv.
  apply rm_bind_Ok in H as (prior & s1 & Hl & H).
  apply (loadAndVerifyHistory_Ok Imported) in Hl; [|done|done].
  apply rm_bind_Ok in H as (? & ? & [Hsize%throw_if_Ok ->]%lift_Ok & H). bool_inv.
  apply rm_bind_Ok in H as (occurrence & s2 & Ho & [H _]%lift_Ok).
  apply bind_Ok in H as (o & ->%of_option_Ok & H). apply bind_Ok in H as (item & Hi%of_option_Ok & H).
  apply bind_Ok in H as (signed & Hs & H). apply bind_Ok in H as (final & Hf & H).
  apply bind_Ok in H as (? & Heq%throw_if_Ok & H). apply bind_Ok in H as (? & _ & H).
  apply bind_Ok in H as (? & _ & H). apply bind_Ok in H as (refs & _ & [= <-]). bool_inv. subst final.
  exists cutoff, prior, refs. split; [done|]. split; [done|]. split; [|done]. split; [lia|].
  exists o, item, signed. split; [|done].
  destruct (List.find _ (vh_authenticatedEntries prior)) as [e|] eqn:Ef.
  - apply find_some in Ef as [_ Ef%Z.eqb_eq]. injection Ho as -> _. done.
  - by eapply occurrence_by_scan_index.
Qed.

Lemma migrationVerifier_Ok hops rd l seen entity event s r s' : factories_construct ->
  migrationVerifier W hops rd l seen entity event s = (Ok r, s') -> imported hops rd entity event r.
Proof.
  intros Hfac. revert rd seen event s r s'. induction hops as [|hops IH]; intros rd seen event s r s' H.
  { cbn [migrationVerifier] in H. rm_inv. by destruct (ev_payload event). }
  cbn [migrationVerifier] in H. apply rm_bind_Ok in H as (? & ? & _ & H). apply rm_bind_Ok in H as (? & ? & _ & H).
  destruct (ev_payload event) as [| | | |previousLog newLog finalEntryRef|] eqn:Ep; try by (unfold lift in H).
  apply rm_bind_Ok in H as (? & ? & [Hnew%throw_if_Ok ->]%lift_Ok & H). bool_inv. subst newLog.
  cbn [imported]. exists previousLog, finalEntryRef. split; [done|].
  destruct (ro_verifyMigration (rd_options rd)) as [verify|] eqn:Ev.
  - left. unfold customMigration in H. apply rm_bind_Ok in H as (result & ? & Hr%await_Ok & H).
    apply rm_bind_Ok in H as ([seen' current] & ? & _ & H). rm_inv. by eexists verify, _.
  - right. destruct (ro_migrationReaderFactory (rd_options rd)) as [factory|] eqn:Ef; [|by unfold lift in H].
    apply rm_bind_Ok in H as (opened & ? & Ho%await_Ok & H).
    apply rm_bind_Ok in H as (previous & ? & [->%of_option_Ok ->]%lift_Ok & H).
    apply rm_bind_Ok in H as (? & ? & [Hlr%throw_if_Ok ->]%lift_Ok & H). bool_inv.
    apply rm_bind_Ok in H as (prior & ? & Hp & [H _]%lift_Ok).
    destruct (loadThrough_Ok (imported hops previous entity) _ _ _ _ _ _ _ _ _ (Hfac _ _ _ _ Ho)
                (fun e s r s' => IH previous _ e s r s') Hp) as (cutoff & h & refs & Hfr & Hv & Hend & ->).
    eexists factory, _, previous, cutoff, h. split; [done|]. split; [exact Ho|]. split; [done|].
    split; [by rewrite <-Hlr|]. split; [done|]. split; [done|]. exact (migrationResult_Ok _ _ _ H).
Qed.

(** ** The fields that a load leaves alone *)

Definition fields (s : rstate) : option key_object * option CachedHistory :=
  (rs_trustedEntityKey s, rs_cachedHistory s).
Definition keeps {A} (m : RM A) : Prop := forall s, fields (snd (m s)) = fields s.

Lemma keeps_bind {A B} (m : RM A) (f : A -> RM B) : keeps m -> (forall a, keeps (f a)) -> keeps (m ≫= f).
Proof.
  intros Hm Hf s. unfold mbind, RM_bind. specialize (Hm s). destruct (m s) as [[a|e] s1]; cbn in *; [|done].
  by rewrite Hf.
Qed.
Lemma keeps_lift {A} (r : res A) : keeps (lift r).
Proof. done. Qed.
Lemma keeps_ret {A} (a : A) : keeps (mret a).
Proof. done. Qed.
Lemma keeps_gets {A} (f : rstate -> A) : keeps (gets f).
Proof. done. Qed.
Lemma keeps_observe {A} (f : moment -> res A) : keeps (observe f).
Proof. done. Qed.
Lemma keeps_await {A} (f : moment -> res A) : keeps (await W f).
Proof. done. Qed.
Lemma keeps_now : keeps (now W).
Proof. done. Qed.
Lemma keeps_try {A} (m : RM A) h : keeps m -> (forall e, keeps (h e)) -> keeps (try_catch m h).
Proof.
  intros Hm Hh s. unfold try_catch. specialize (Hm s). destruct (m s) as [[a|e] s1]; cbn in *; [done|]. by rewrite Hh.
Qed.
Lemma keeps_spend l events bytes : keeps (spend l events bytes).
Proof. intros s. unfold spend, mbind, RM_bind, modify, enforceMigrationBudget. done. Qed.
Lemma keeps_enforce_budget l : keeps (enforceMigrationBudget l).
Proof. done. Qed.
Lemma keeps_activate : keeps (modify (fun s => set_budget (rs_events s) (rs_bytes s) true s)).
Proof. done. Qed.
Lemma keeps_callback {A} callback (f : _ -> res (A * migration_memo)) :
  (forall e, keeps (callback e)) -> keeps (with_callback callback f).
Proof.
  intros Hc s. unfold with_callback. destruct (f _) as [[a memo]|e]; [|done]. cbn. unfold replay.
  generalize (mm_asked memo) as asked. intros asked. revert s; induction asked as [|e asked IH]; intros s; [done|].
  cbn. by rewrite IH, Hc.
Qed.
End Spec.

Create HintDb keeps.
#[export] Hint Resolve keeps_bind keeps_lift keeps_ret keeps_gets keeps_observe keeps_await keeps_now keeps_try keeps_spend
  keeps_enforce_budget keeps_activate keeps_callback : keeps.

(** Follows the structure of a computation. *)
Ltac keeps_tac :=
  repeat (intros; lazymatch goal with
    | |- keeps (mbind _ _) => apply keeps_bind
    | |- keeps (try_catch _ _) => apply keeps_try
    | |- keeps (with_callback _ _) => apply keeps_callback
    | |- keeps (match ?x with _ => _ end) => destruct x
    | |- keeps (let '_ := ?x in _) => destruct x
    | |- _ => solve [auto with keeps]
    end).

Section Keeps.
Context `{H256 : Hash256} `{Url : URLApi} `{Uni : Unicode} `{Jwk : JwkApi} `{Ed : Ed25519}.
Context {Factory : Type} (W : world Factory).

Lemma keeps_loadEvidence rd prefix budget : keeps (loadEvidence W rd prefix budget).
Proof. unfold loadEvidence. keeps_tac. Qed.
Lemma keeps_enforce rd checkpoint p : keeps (enforce W rd checkpoint p).
Proof. unfold enforce. keeps_tac. Qed.
Lemma keeps_advance rd reference checkpoint w proofs entries tiles :
  keeps (advance W rd reference checkpoint w proofs entries tiles).
Proof. unfold advance. keeps_tac. Qed.
Lemma keeps_fetchBundle rd config endpoint maximum : keeps (fetchBundle W rd config endpoint maximum).
Proof. unfold fetchBundle, requestBundle. keeps_tac. Qed.
#[local] Hint Resolve keeps_loadEvidence keeps_enforce keeps_advance keeps_fetchBundle : keeps.

Lemma keeps_advance_by_scan rd l bundle w : keeps (advance_by_scan W rd l bundle w).
Proof. unfold advance_by_scan. keeps_tac. Qed.
Lemma keeps_occurrence_by_scan rd l h cutoff : keeps (occurrence_by_scan W rd l h cutoff).
Proof. unfold occurrence_by_scan. keeps_tac. Qed.
#[local] Hint Resolve keeps_advance_by_scan keeps_occurrence_by_scan : keeps.

Section Callback.
Context (callback : LogEvent -> RM MigrationVerificationResult) (Hcb : forall e, keeps (callback e)).

Lemma keeps_loadBundleHistory rd domain entity l cutoff : keeps (loadBundleHistory W rd domain entity l callback cutoff).
Proof using Hcb. unfold loadBundleHistory. keeps_tac. Qed.
Lemma keeps_loadAndVerifyHistory rd domain entity l cutoff : keeps (loadAndVerifyHistory W rd domain entity l callback cutoff).
Proof using Hcb. unfold loadAndVerifyHistory. pose proof keeps_loadBundleHistory. keeps_tac. Qed.
Lemma keeps_loadThrough rd domain finalRef entity l : keeps (loadThrough W rd domain finalRef entity l callback).
Proof using Hcb. unfold loadThrough. pose proof keeps_loadAndVerifyHistory. keeps_tac. Qed.
End Callback.

Lemma keeps_migrationVerifier hops rd l seen entity event : keeps (migrationVerifier W hops rd l seen entity event).
Proof.
  revert rd seen event; induction hops as [|hops IH]; intros rd seen event; cbn [migrationVerifier].
  - keeps_tac.
  - unfold customMigration. pose proof (fun callback H => keeps_loadThrough callback H). keeps_tac.
Qed.
End Keeps.

(** ** The budget of a chain of migrations

    [grows n m]: the count of events does not fall and counting stays active; a result
    counts for at least [n] of it. *)
Definition grows {A} (n : A -> Z) (m : RM A) : Prop :=
  forall s, rs_events s <= rs_events (snd (m s)) /\ (rs_active s = true -> rs_active (snd (m s)) = true)
    /\ forall a, fst (m s) = Ok a -> rs_events s + n a <= rs_events (snd (m s)).
Notation grows0 := (grows (fun _ => 0)).

Lemma grows_weaken {A} (n : A -> Z) (m : RM A) : (forall a, 0 <= n a) -> grows n m -> grows0 m.
Proof. intros Hn Hm s. destruct (Hm s) as (He & Ha & Hr). split; [done|]. split; [done|]. intros. lia. Qed.

Lemma grows_bind {A B} (k : B -> Z) (m : RM A) (f : A -> RM B) :
  grows0 m -> (forall a, grows k (f a)) -> grows k (m ≫= f).
Proof.
  intros Hm Hf s. unfold mbind, RM_bind. specialize (Hm s). destruct (m s) as [[a|e] s1]; cbn in *.
  - destruct Hm as (He & Ha & _), (Hf a s1) as (He' & Ha' & Hr). split; [lia|]. split; [auto|].
    intros b Hb. specialize (Hr b Hb). lia.
  - destruct Hm as (He & Ha & _). split; [done|]. by split.
Qed.

Lemma grows_spend l events bytes : 0 <= events -> grows0 (spend l events bytes).
Proof. intros Hn s. unfold spend, mbind, RM_bind, modify, enforceMigrationBudget. cbn. split; [lia|]. split; [done|]. intros. lia. Qed.

(** Computations that count no events. *)
Definition quiet {A} (m : RM A) : Prop :=
  forall s, rs_events (snd (m s)) = rs_events s /\ rs_active (snd (m s)) = rs_active s.

Lemma grows_quiet {A} (m : RM A) : quiet m -> grows0 m.
Proof. intros Hm s. destruct (Hm s) as [-> ->]. split; [lia|]. split; [done|]. intros. lia. Qed.
Lemma quiet_bind {A B} (m : RM A) (f : A -> RM B) : quiet m -> (forall a, quiet (f a)) -> quiet (m ≫= f).
Proof.
  intros Hm Hf s. unfold mbind, RM_bind. specialize (Hm s). destruct (m s) as [[a|e] s1]; cbn in *; [|done].
  destruct Hm as [<- <-]. apply Hf.
Qed.
Lemma quiet_try {A} (m : RM A) h : quiet m -> (forall e, quiet (h e)) -> quiet (try_catch m h).
Proof.
  intros Hm Hh s. unfold try_catch. specialize (Hm s). destruct (m s) as [[a|e] s1]; cbn in *; [done|].
  destruct Hm as [<- <-]. apply Hh.
Qed.
Lemma quiet_spend l bytes : quiet (spend l 0 bytes).
Proof. intros s. unfold spend, mbind, RM_bind, modify, enforceMigrationBudget. cbn. split; [lia|done]. Qed.
Lemma quiet_Ok {A} (m : RM A) s a s' : quiet m -> m s = (Ok a, s') ->
  rs_events s' = rs_events s /\ rs_active s' = rs_active s.
Proof. intros Hm H. specialize (Hm s). by rewrite H in Hm. Qed.

Lemma grows_callback {A} callback (f : _ -> res (A * migration_memo)) :
  (forall e, grows (fun r => zlen (mr_priorHistory r)) (callback e)) ->
  (forall g a memo, f g = Ok (a, memo) -> memo_traced g memo) ->
  grows (fun p => match snd p with Some r => zlen (mr_priorHistory r) | None => 0 end) (with_callback callback f).
Proof.
  intros Hc Hf.
  assert (Hmono : forall asked s, rs_events s <= rs_events (replay callback asked s)
    /\ (rs_active s = true -> rs_active (replay callback asked s) = true)).
  { induction asked as [|e asked IH]; intros s; [split; [cbn; lia|done]|]. unfold replay. cbn [foldl].
    destruct (Hc e s) as (He & Ha & _), (IH (snd (callback e s))) as [He' Ha'].
    unfold replay in He', Ha'. split; [lia|auto]. }
  intros s. unfold with_callback. destruct (f (answers_of callback s)) as [[a memo]|e] eqn:E; cbn;
    [|split; [lia|by split]].
  destruct (Hmono (mm_asked memo) s) as [He Ha]. split; [done|]. split; [done|]. intros p [= <-]. cbn.
  destruct (mm_result memo) as [r|] eqn:Er; [|lia].
  destruct (Hf _ _ _ E r Er) as (before & event & after & Hasked & Hr). rewrite Hasked. unfold replay. rewrite foldl_app.
  cbn [foldl]. fold (replay callback before s). unfold answers_of in Hr.
  destruct (Hc event (replay callback before s)) as (_ & _ & Hn). specialize (Hn r Hr).
  pose proof (Hmono before s) as [Hb _].
  pose proof (Hmono after (snd (callback event (replay callback before s)))) as [Hafter _]. unfold replay in *. lia.
Qed.

Section Budget.
Context `{H256 : Hash256} `{Url : URLApi} `{Uni : Unicode} `{Jwk : JwkApi} `{Ed : Ed25519}.
Context {Factory : Type} (W : world Factory).

(** Follows the structure of a computation that counts no events. *)
Ltac quiet_tac :=
  repeat (intros; lazymatch goal with
    | |- quiet (mbind _ _) => apply quiet_bind
    | |- quiet (try_catch _ _) => apply quiet_try
    | |- quiet (spend _ 0 _) => apply quiet_spend
    | |- quiet (match ?x with _ => _ end) => destruct x
    | |- _ => solve [auto | done]
    end).

Lemma quiet_loadEvidence rd prefix budget : quiet (loadEvidence W rd prefix budget).
Proof. unfold loadEvidence. quiet_tac. Qed.
Lemma quiet_advance_by_scan rd l bundle w : quiet (advance_by_scan W rd l bundle w).
Proof. unfold advance_by_scan, enforce. pose proof quiet_loadEvidence. quiet_tac. Qed.
Lemma quiet_occurrence_by_scan rd l h cutoff : quiet (occurrence_by_scan W rd l h cutoff).
Proof. unfold occurrence_by_scan, enforce. pose proof quiet_loadEvidence. quiet_tac. Qed.
Lemma quiet_fetchBundle rd config endpoint maximum : quiet (fetchBundle W rd config endpoint maximum).
Proof. unfold fetchBundle, requestBundle. quiet_tac. Qed.

Section Callback.
Context (callback : LogEvent -> RM MigrationVerificationResult).
Context (Hcb : forall e, grows (fun r => zlen (mr_priorHistory r)) (callback e)).

(** Follows the structure of a computation that asks the callback. *)
Ltac grows_tac :=
  repeat (intros; lazymatch goal with
    | |- grows _ (mbind _ _) => apply grows_bind
    | |- grows _ (spend _ _ _) => apply grows_spend; first [lia | apply zlen_nonneg]
    | |- grows _ (match ?x with _ => _ end) => destruct x
    | |- _ => solve [auto | apply grows_quiet; quiet_tac]
    end).

Lemma bundle_traced (rd : C2spTlogReader Factory) config fqdn entity maximum nowMs cutoff g bs r memo :
  verifyBundleContents bs (bundle_verify_options rd config fqdn entity maximum nowMs cutoff g) = Ok (r, memo) ->
  memo_traced g memo.
Proof.
  intros (policy & keys & result & Hp)%verifyBundleContents_Ok.
  eapply verifyStreamWithinBudget_traced; [|exact (vp_stream _ _ _ _ _ _ _ Hp)]. done.
Qed.

Lemma grows_ask_bundle (rd : C2spTlogReader Factory) config fqdn entity maximum nowMs cutoff bs :
  grows (fun p => match snd p with Some r => zlen (mr_priorHistory r) | None => 0 end)
    (with_callback callback (fun g => verifyBundleContents bs
       (bundle_verify_options rd config fqdn entity maximum nowMs cutoff g))).
Proof using Hcb. apply grows_callback; [done|]. intros g a memo. apply bundle_traced. Qed.

Lemma grows_ask_stream (rd : C2spTlogReader Factory) entries domain entity w :
  grows (fun p => match snd p with Some r => zlen (mr_priorHistory r) | None => 0 end)
    (with_callback callback (fun g => verifyStreamWithinBudget entries domain (verifierOptions rd entity w (Some g)))).
Proof using Hcb. apply grows_callback; [done|]. intros g a memo. by apply verifyStreamWithinBudget_traced. Qed.

Lemma stitched_length d lr verified migration events refs : stitch d lr verified migration = Ok (events, refs) ->
  zlen events <= zlen verified + match migration with Some r => zlen (mr_priorHistory r) | None => 0 end.
Proof.
  intros H%stitch_Ok. assert (Hm : 0 <= match migration with Some r => zlen (mr_priorHistory r) | None => 0 end)
    by (destruct migration; [apply zlen_nonneg|lia]).
  destruct verified as [|first rest]; [subst; change (zlen (@nil LogEvent)) with 0; pose proof (zlen_nonneg (@nil VerifiedLifecycleEvent)); lia|].
  destruct (is_migration (ve_event first)).
  - destruct H as (r & -> & _ & ->). rewrite zlen_app. unfold zlen. rewrite length_map. lia.
  - subst. unfold zlen in *. rewrite length_map. lia.
Qed.

(** What a result has counted: its events are paid for, and within the limit. *)
Definition paid (l : limits) (n : Z) (s s' : rstate) : Prop :=
  rs_events s + n <= rs_events s'
  /\ (rs_active s = true -> rs_active s' = true /\ rs_events s' <= l_maxHistoryEvents l).

(** The answers of a callback, the stitched history, and the payment for the new events. *)
Lemma paid_history {A} (count : A -> Z) (ask : RM (A * option MigrationVerificationResult)) l a migration
    d lr verified events refs s s1 s2 u :
  grows (fun p => match snd p with Some r => zlen (mr_priorHistory r) | None => 0 end) ask ->
  ask s = (Ok (a, migration), s1) -> spend l (zlen verified) 0 s1 = (Ok u, s2) ->
  stitch d lr verified migration = Ok (events, refs) -> paid l (zlen events) s s2.
Proof.
  intros Hg Ha [Hs Hb]%spend_Ok Hst%stitched_length. specialize (Hg s). rewrite Ha in Hg. cbn in Hg.
  destruct Hg as (_ & Hact & Hn). specialize (Hn _ eq_refl). cbn in Hn. subst s2. split.
  - cbn. lia.
  - intros Hs%Hact. split; [done|]. by apply Hb.
Qed.

Lemma paid_quiet l n s s1 s2 s' : rs_events s1 = rs_events s /\ rs_active s1 = rs_active s ->
  paid l n s1 s2 -> rs_events s' = rs_events s2 /\ rs_active s' = rs_active s2 -> paid l n s s'.
Proof. intros [E1 E2] Hp [E3 E4]. unfold paid in *. by rewrite E3, E4, <-E1, <-E2. Qed.

Lemma loadBundleHistory_paid rd domain entity l cutoff s h s' :
  loadBundleHistory W rd domain entity l callback cutoff s = (Ok (Some h), s') -> paid l (zlen (vh_events h)) s s'.
Proof using Hcb.
  unfold loadBundleHistory. destruct (ro_streamBundle (rd_options rd)) as [config|]; [|done]. intros H.
  apply rm_bind_Ok in H as (fqdn & ? & [_ ->]%lift_Ok & H). apply rm_bind_Ok in H as (encoded & ? & [_ ->]%lift_Ok & H).
  apply rm_bind_Ok in H as ([bs|] & s1 & Hf & H); [|done]. apply quiet_Ok in Hf; [|apply quiet_fetchBundle].
  apply rm_bind_Ok in H as (? & s2 & Hb & H). apply quiet_Ok in Hb; [|apply quiet_spend].
  apply rm_bind_Ok in H as (nowMs & s3 & Hn & H). apply quiet_Ok in Hn; [|done].
  apply rm_bind_Ok in H as ([verified migration] & s4 & Hask & H).
  apply rm_bind_Ok in H as (u & s5 & Hsp & H). apply rm_bind_Ok in H as (? & s6 & Had & [= <- <-]).
  apply quiet_Ok in Had; [|pose proof quiet_advance_by_scan; quiet_tac].
  pose proof Hask as (memo & Hv & Hm & _)%with_callback_Ok. cbn in *.
  destruct (verifyBundleContents_Ok _ _ _ _ Hv) as (policy & keys & result & Hp).
  pose proof (vp_lifecycle _ _ _ _ _ _ _ Hp) as Hst. rewrite <-Hm in Hst.
  eapply paid_quiet; [|eapply (paid_history (fun _ => 0)); [apply grows_ask_bundle|exact Hask|exact Hsp|exact Hst]|exact Had].
  destruct Hf, Hb, Hn. split; congruence.
Qed.

Lemma loadBundleHistory_quiet rd domain entity l cutoff s s' :
  loadBundleHistory W rd domain entity l callback cutoff s = (Ok None, s') ->
  rs_events s' = rs_events s /\ rs_active s' = rs_active s.
Proof.
  unfold loadBundleHistory. destruct (ro_streamBundle (rd_options rd)) as [config|]; [|by intros [= <-]]. intros H.
  apply rm_bind_Ok in H as (fqdn & ? & [_ ->]%lift_Ok & H). apply rm_bind_Ok in H as (encoded & ? & [_ ->]%lift_Ok & H).
  apply rm_bind_Ok in H as ([bs|] & s1 & Hf & H).
  - apply rm_bind_Ok in H as (? & ? & _ & H). apply rm_bind_Ok in H as (? & ? & _ & H).
    apply rm_bind_Ok in H as ([verified migration] & ? & _ & H). apply rm_bind_Ok in H as (? & ? & _ & H).
    by apply rm_bind_Ok in H as (? & ? & _ & ?).
  - injection H as <-. eapply quiet_Ok; [apply quiet_fetchBundle|exact Hf].
Qed.

Lemma loadAndVerifyHistory_paid rd domain entity l cutoff s h s' :
  loadAndVerifyHistory W rd domain entity l callback cutoff s = (Ok h, s') -> paid l (zlen (vh_events h)) s s'.
Proof using Hcb.
  unfold loadAndVerifyHistory. intros (bundled & s1 & Hb & H)%rm_bind_Ok.
  destruct bundled as [h'|]; [injection H as -> <-; by eapply loadBundleHistory_paid|].
  apply loadBundleHistory_quiet in Hb.
  apply rm_bind_Ok in H as (evidence & s2 & He%quiet_Ok & H); [|apply quiet_loadEvidence].
  apply rm_bind_Ok in H as (? & ? & [_ ->]%lift_Ok & H).
  apply rm_bind_Ok in H as (result & s3 & Hp%quiet_Ok & H); [|done].
  apply rm_bind_Ok in H as (w & ? & [_ ->]%lift_Ok & H). apply rm_bind_Ok in H as (? & ? & [_ ->]%lift_Ok & H).
  apply rm_bind_Ok in H as (? & s4 & Ha%quiet_Ok & H); [|done].
  apply rm_bind_Ok in H as ([verified migration] & s5 & Hask & H).
  apply rm_bind_Ok in H as (u & s6 & Hsp & H).
  apply rm_bind_Ok in H as ([events refs] & ? & [Hst ->]%lift_Ok & [= <- <-]). cbn [vh_events].
  eapply paid_quiet; [|eapply (paid_history (fun _ => 0)); [apply grows_ask_stream|exact Hask|exact Hsp|exact Hst]|done].
  destruct Hb, He, Hp, Ha. split; congruence.
Qed.

Lemma loadThrough_paid rd domain finalRef entity l s h s' :
  loadThrough W rd domain finalRef entity l callback s = (Ok h, s') -> paid l (zlen (vh_events h)) s s'.
Proof using Hcb.
  unfold loadThrough. intros H. apply rm_bind_Ok in H as (p & ? & [_ ->]%lift_Ok & H).
  apply rm_bind_Ok in H as (cutoff & ? & [_ ->]%lift_Ok & H). apply rm_bind_Ok in H as (? & ? & [_ ->]%lift_Ok & H).
  apply rm_bind_Ok in H as (prior & s1 & Hl%loadAndVerifyHistory_paid & H).
  apply rm_bind_Ok in H as (? & ? & [_ ->]%lift_Ok & H).
  apply rm_bind_Ok in H as (occurrence & s2 & Ho & [H ->]%lift_Ok).
  assert (Hq : rs_events s2 = rs_events s1 /\ rs_active s2 = rs_active s1).
  { eapply quiet_Ok; [|exact Ho]. destruct (List.find _ _); [done|apply quiet_occurrence_by_scan]. }
  assert (He : vh_events h = vh_events prior).
  { apply bind_Ok in H as (o & _ & H). apply bind_Ok in H as (item & _ & H). apply bind_Ok in H as (? & _ & H).
    apply bind_Ok in H as (? & _ & H). apply bind_Ok in H as (? & _ & H). apply bind_Ok in H as (? & _ & H).
    apply bind_Ok in H as (? & _ & H). by apply bind_Ok in H as (refs & _ & [= <-]). }
  rewrite He. by eapply paid_quiet; [|exact Hl|exact Hq].
Qed.

Lemma prior_count_nonneg (A : Type) (p : A * option MigrationVerificationResult) :
  0 <= match snd p with Some r => zlen (mr_priorHistory r) | None => 0 end.
Proof. destruct (snd p); [apply zlen_nonneg|lia]. Qed.

Lemma grows_loadThrough rd domain finalRef entity l : grows0 (loadThrough W rd domain finalRef entity l callback).
Proof using Hcb.
  unfold loadThrough, loadAndVerifyHistory, loadBundleHistory, enforce, advance. pose proof quiet_loadEvidence.
  pose proof quiet_occurrence_by_scan. pose proof quiet_advance_by_scan. pose proof quiet_fetchBundle.
  grows_tac; (eapply grows_weaken; [apply prior_count_nonneg|]).
  - apply grows_ask_bundle.
  - apply grows_ask_stream.
Qed.
End Callback.

Lemma grows_count {A} (n : A -> Z) (m : RM A) :
  grows0 m -> (forall s a s', m s = (Ok a, s') -> rs_events s + n a <= rs_events s') -> grows n m.
Proof.
  intros Hm Hn s. destruct (Hm s) as (He & Ha & _). split; [done|]. split; [done|]. intros a Hr.
  apply Hn. rewrite <-Hr. by destruct (m s).
Qed.

(** An imported history is paid for. *)
Lemma grows_migrationVerifier hops rd l seen entity event :
  grows (fun r => zlen (mr_priorHistory r)) (migrationVerifier W hops rd l seen entity event).
Proof.
  revert rd seen event; induction hops as [|hops IH]; intros rd seen event; cbn [migrationVerifier].
  all: apply grows_bind; [intros s; split; [cbn; lia|]; split; [done|]; intros; cbn; lia|]; intros _.
  all: apply grows_bind; [by apply grows_quiet|]; intros _.
  all: assert (Ht : forall A (n : A -> Z) e, grows n (lift (Throw e))) by (intros A n e s; split; [cbn; lia|]; by split).
  - by destruct (ev_payload event).
  - destruct (ev_payload event); try done. apply grows_bind; [by apply grows_quiet|]; intros _.
    destruct (ro_verifyMigration (rd_options rd)) as [verify|]; [|destruct (ro_migrationReaderFactory _) as [factory|]; [|done]].
    + unfold customMigration. apply grows_bind; [by apply grows_quiet|]. intros result.
      apply grows_bind; [by apply grows_quiet|]. intros [seen' current]. apply grows_bind; [by apply grows_quiet|]. intros _.
      apply grows_count; [apply grows_bind; [apply grows_spend, zlen_nonneg|intros; by apply grows_quiet]|].
      intros s a s' (u & s1 & [Hs _]%spend_Ok & [= <- <-])%rm_bind_Ok. subst s1. cbn. lia.
    + apply grows_bind; [by apply grows_quiet|]. intros opened. apply grows_bind; [by apply grows_quiet|]. intros reader.
      apply grows_bind; [by apply grows_quiet|]. intros _. apply grows_count.
      * apply grows_bind; [apply grows_loadThrough; intros; apply IH|intros; by apply grows_quiet].
      * intros s a s' (prior & s1 & [Hp _]%loadThrough_paid & [H ->]%lift_Ok)%rm_bind_Ok; [|intros; apply IH].
        apply migrationResult_Ok in H as (-> & _). lia.
Qed.
End Budget.

(** ** Which evidence is used *)

Section Evidence.
Context `{H256 : Hash256} `{Url : URLApi} `{Uni : Unicode} `{Jwk : JwkApi} `{Ed : Ed25519}.
Context {Factory : Type} (W : world Factory) (rd : C2spTlogReader Factory).
Notation options := (rd_options rd).

(** An entry of a complete scan is at its index. *)
Lemma scanned_lookup evidence v : map ie_index (sorted_entries evidence) = seqZ 0 (treeSize (se_checkpoint evidence)) ->
  entry_of v ∈ sorted_entries evidence ->
  0 <= ve_index v /\ map ie_bytes (sorted_entries evidence) !! Z.to_nat (ve_index v) = Some (ve_bytes v).
Proof.
  intros Hidx [i Hi]%list_elem_of_lookup.
  assert (E : map ie_index (sorted_entries evidence) !! i = Some (ve_index v))
    by (change (map ie_index ?l) with (ie_index <$> l); by rewrite list_lookup_fmap, Hi).
  rewrite Hidx in E. apply lookup_seqZ in E as [-> Hr]. split; [lia|].
  change (map ie_bytes ?l) with (ie_bytes <$> l). rewrite list_lookup_fmap.
  replace (Z.to_nat (0 + Z.of_nat i)) with i by lia. by rewrite Hi.
Qed.

(** C36: the evidence of a complete scan: when its checkpoint is the head of a log, either two
    logs of one root, the scanned one and this one, contain a computed SHA-256 collision,
    or the scan is the log, and every event of the history is the log's entry at its
    index. *)
Theorem scan_evidence_is_log cutoff h evidence log : scan_evidence rd cutoff h evidence ->
  rootHash (se_checkpoint evidence) = merkleRootFromEntries log -> treeSize (se_checkpoint evidence) = zlen log ->
  match log_collision log (map ie_bytes (sorted_entries evidence)) with
  | Some c => is_collision c
  | None => map ie_bytes (sorted_entries evidence) = log
      /\ Forall (fun v => log !! Z.to_nat (ve_index v) = Some (ve_bytes v)) (vh_indexedEvents h)
  end.
Proof.
  intros [_ _ Hidx Hroot _ Hsub] Hr Hn.
  assert (Hlen : zlen (sorted_entries evidence) = treeSize (se_checkpoint evidence)).
  { pose proof (f_equal length Hidx) as Hl. rewrite length_map, length_seqZ in Hl. unfold zlen.
    assert (0 <= treeSize (se_checkpoint evidence)) by (rewrite Hn; apply zlen_nonneg). lia. }
  pose proof (log_collision_spec log (map ie_bytes (sorted_entries evidence))) as Hc.
  destruct (log_collision _ _) as [c|].
  { apply Hc; [rewrite length_map; unfold zlen in *; lia|congruence]. }
  rewrite Hc by (rewrite ?length_map; unfold zlen in *; lia || congruence). split; [done|].
  apply Forall_forall. intros v Hv. apply (scanned_lookup evidence v Hidx). unfold sorted_entries.
  assert (Hin : entry_of v ∈ sort_by by_index (below_cutoff cutoff (se_entries evidence)))
    by (eapply sublist_subseteq; [exact Hsub|]; by apply list_elem_of_fmap_2).
  rewrite sort_by_perm in Hin. rewrite sort_by_perm. destruct cutoff as [n|]; [|done]. cbn in Hin.
  apply list_elem_of_In, filter_In in Hin as [Hin _]. by apply list_elem_of_In.
Qed.
End Evidence.
