(* ===== verification/ReaderCalls.v ===== *)
(** The calls of a reader ([Reader]): every answer comes from a verified history
    ([ReaderSpec]), along every sequence of calls. *)

From S2P Require Import Prelude JsString Base64 Sha256 HashTree Merkle Url Utils Json Jwk EventCodec Lifecycle.
From S2P Require Import Lr Checkpoint Policy Budget CheckpointTrust TlogProof.
From S2P Require Import StreamVerifier StreamSource StreamBundle Reader ReaderSpec.

(** ** Facts of lifecycle runs *)

Lemma run_governance es p : lifecycle_run es p ->
  match p with
  | Unborn => es = []
  | Alive _ governance | Closed _ _ governance =>
      exists e i rest, es = e :: rest /\ ev_payload e = ISSUANCE i /\ i_governanceId i = governance
  end /\ match p with Closed state _ _ => state = REVOKED \/ state = RETIRED | _ => True end.
Proof.
  induction 1 as [|es e p p' Hr [IH IHs] Hs]; [done|].
  inversion Hs; subst; try (destruct IH as (e0 & i0 & rest & -> & Hp0 & Hg); split; [by exists e0, i0, (rest ++ [e])|by auto]).
  rewrite IH. split; [by exists e, i, []|done].
Qed.

Lemma find_issuance_head e i rest : ev_payload e = ISSUANCE i -> find_issuance (e :: rest) = Some (e, i).
Proof. intros Hp. unfold find_issuance. cbn [List.find]. unfold is_issuance at 1. rewrite Hp. by rewrite Hp. Qed.

Lemma run_issuance es thumb governance e i : lifecycle_run es (Alive thumb governance) ->
  find_issuance es = Some (e, i) -> i_governanceId i = governance /\ head es = Some e.
Proof.
  intros Hr Hf. destruct (run_governance _ _ Hr) as [(e0 & i0 & rest & -> & Hp & Hg) _].
  rewrite (find_issuance_head _ _ _ Hp) in Hf. injection Hf as <- <-. done.
Qed.

Lemma c2sp_issuance_fields i c : c2sp_issuance i = Some c ->
  i_initialOperationalThumbprint i = Some (ci_operationalThumb c) /\ i_initialEntityThumbprint i = Some (ci_entityThumb c)
  /\ i_initialEntityPublicKey i = Some (ci_entityKey c).
Proof. unfold c2sp_issuance. intros H. repeat (case_match; try done). injection H as <-. done. Qed.

(** A snapshot in the state [ACTIVE] is the end of a live run. *)
Lemma active_snapshot `{H256 : Hash256} domain events sn : latestSnapshot domain events = Ok sn ->
  sn_historicalState sn = ACTIVE -> lifecycle_run events (Alive (sn_activeKeyThumbprint sn) (sn_governanceId sn)).
Proof. intros (Hr & _)%latestSnapshot_run Ha. unfold snapshot_phase in Hr. by rewrite Ha in Hr. Qed.

(** A run that is neither revoked nor retired is live. *)
Lemma live_snapshot `{H256 : Hash256} domain events at_ sn : snapshotAt domain events at_ = Ok sn ->
  sn_historicalState sn <> REVOKED -> sn_historicalState sn <> RETIRED ->
  sn_historicalState sn = ACTIVE
  /\ lifecycle_run (sn_events sn) (Alive (sn_activeKeyThumbprint sn) (sn_governanceId sn))
  /\ no_terminal (sn_events sn) /\ sn_events sn <> []
  /\ exists later, events = sn_events sn ++ later /\ Forall (before_boundary at_) (sn_events sn)
       /\ Forall (fun e => date_gt (ev_timestamp e) at_ = true) later.
Proof.
  intros (s & [_ (later & E & Hb & Ha & _) Hr _] & _ & _ & Ee & Ep)%snapshotAt_inv Hrev Hret. rewrite Ee in *. rewrite Ep in Hr.
  pose proof (run_governance _ _ Hr) as [_ Hstate]. pose proof (run_shape _ _ Hr) as Hshape.
  unfold snapshot_phase in *. destruct (sn_historicalState sn); try (by destruct Hstate); try done.
  destruct Hshape as (first & rest & Hes & _ & _ & Hterm). rewrite Hes in *. do 4 (split; [done|]). by exists later.
Qed.

Section Checks.
Context `{H256 : Hash256} `{Jwk : JwkApi}.

(** What a binding rests on: the ISSUANCE at the head of a history that the lifecycle machine
    runs to a live identity under the thumbprint. *)
Record bound_by (domain : jsstr) (gi : option jsstr) (thumb : jsstr) (history : list LogEvent)
    (e : LogEvent) (i : IssuanceFields) (b : BilateralBindingResult) : Prop := {
  bo_head : head history = Some e;
  bo_issuance : ev_payload e = ISSUANCE i;
  bo_domain : ev_domain e = domain;
  bo_governance : gi = Some (i_governanceId i);
  bo_entity : i_initialEntityThumbprint i = Some (bb_initialEntityThumbprint b);
  bo_operational : i_initialOperationalThumbprint i = Some (bb_initialOperationalThumbprint b);
  bo_timestamp : ev_timestamp e = bb_timestamp b;
  bo_introduced : existsb (introduces thumb) history = true;
  bo_run : lifecycle_run history (Alive thumb (i_governanceId i))
}.

Lemma find_issuance_payload history e i : find_issuance history = Some (e, i) -> ev_payload e = ISSUANCE i.
Proof. unfold find_issuance. destruct (List.find _ _) as [e'|]; [|done]. destruct (ev_payload e') eqn:E; by intros [= <- <-]. Qed.

Lemma check_binding_Ok domain gi entityThumb operational history b :
  check_binding domain gi entityThumb operational history = Ok b ->
  bb_initialEntityThumbprint b = entityThumb
  /\ exists thumb e i, jwkThumbprint operational = Ok thumb /\ bound_by domain gi thumb history e i b.
Proof.
  unfold check_binding, assertC2spIssuanceEvent. intros H. apply bind_Ok in H as ([e i] & Hf%of_option_Ok & H). res_inv.
  bool_inv. cbn. split; [done|]. destruct (c2sp_issuance_fields _ _ Hv) as (Ho & He & _).
  pose proof (active_snapshot _ _ _ Hv4 Hv5) as Hr. rewrite Hv6 in Hr.
  destruct (run_issuance _ _ _ _ _ Hr Hf) as [Hg Hh]. rewrite <-Hg in Hr.
  exists v2, e, i. split; [done|]. split; cbn; try congruence. by eapply find_issuance_payload.
Qed.

(** The answers of one history agree. *)
Lemma check_binding_continuity domain gi entityThumb operational history b thumb :
  check_binding domain gi entityThumb operational history = Ok b -> jwkThumbprint operational = Ok thumb ->
  check_continuity domain (bb_initialOperationalThumbprint b) thumb history = Ok tt
  /\ exists e, List.find (introduces thumb) history = Some e.
Proof.
  unfold check_binding, check_continuity, assertC2spIssuanceEvent. intros H Ht.
  apply bind_Ok in H as ([e i] & Hf%of_option_Ok & H). res_inv. bool_inv.
  rewrite Ht in Hv2. injection Hv2 as <-. rewrite Hf. cbn [of_option mbind res_bind].
  destruct (c2sp_issuance_fields _ _ Hv) as (-> & _ & _). cbn. rewrite bool_decide_eq_true_2 by done. cbn.
  rewrite Hv. cbn. rewrite Hv4. cbn. rewrite Hv5, Hv6, !bool_decide_eq_true_2 by done. split; [done|].
  destruct (List.find (introduces thumb) history) as [e'|] eqn:Ee; [by exists e'|].
  apply existsb_exists in Hv3 as (e' & Hin & He'). pose proof (find_none _ _ Ee _ Hin). congruence.
Qed.
End Checks.

Section Calls.
Context `{H256 : Hash256} `{Url : URLApi} `{Uni : Unicode} `{Jwk : JwkApi} `{Ed : Ed25519}.
Context {Factory : Type} (W : world Factory).
Context (rd : C2spTlogReader Factory).
Notation options := (rd_options rd).

(** A history that a call of the reader may answer from. *)
Definition trusted_history (domain : jsstr) (entity : jwk) (h : VerifiedHistory) : Prop :=
  exists l, migrationLimits (ro_migrationLimits options) = Ok l
    /\ verified_history (imported W (Z.to_nat (l_maxDepth l)) rd entity) rd entity domain None h.

Definition cache_ok (s : rstate) : Prop :=
  forall c, rs_cachedHistory s = Some c -> trusted_history (ch_domain c) (w_members W (ch_entityKey c)) (ch_history c).

(** The calls, and the state that a sequence of them leaves behind. *)
Inductive reader_call :=
  | CallRebuildHistory (domain : jsstr)
  | CallKeyTimestamp (domain thumbprint : jsstr)
  | CallVerifyBilateralBinding (record : binding_request) (entityKey operationalKey : option key_object)
  | CallVerifyOperationalContinuity (domain initialThumbprint currentThumbprint : jsstr)
  | CallVerifyNonRevocation (domain : jsstr) (at_ : date)
  | CallReadEvent (ref : jsstr)
  | CallRebuildHistoryThrough (domain finalRef : jsstr).

Definition run_call (s : rstate) (c : reader_call) : rstate :=
  match c with
  | CallRebuildHistory domain => snd (begin_call (rebuildHistory W rd domain) s)
  | CallKeyTimestamp domain thumbprint => snd (begin_call (keyTimestamp W rd domain thumbprint) s)
  | CallVerifyBilateralBinding record ek ok => snd (begin_call (verifyBilateralBinding W rd record ek ok) s)
  | CallVerifyOperationalContinuity domain t0 t =>
      snd (begin_call (verifyOperationalContinuity W rd domain t0 t) s)
  | CallVerifyNonRevocation domain at_ => snd (begin_call (verifyNonRevocation W rd domain at_) s)
  | CallReadEvent ref => snd (begin_call (readEvent W rd ref) s)
  | CallRebuildHistoryThrough domain finalRef => snd (begin_call (rebuildHistoryThrough W rd domain finalRef) s)
  end.
Definition session (calls : list reader_call) : rstate := foldl run_call new_state calls.

Context (Hrd : well_made rd) (Hfac : factories_construct W).

Lemma load_history_Ok domain entity s h s' : load_history W rd domain entity s = (Ok h, s') ->
  trusted_history domain entity h.
Proof using Hrd Hfac.
  unfold load_history, migrationContext. intros H. rm_inv.
  eexists. split; [done|]. eapply loadAndVerifyHistory_Ok; [done| |exact H].
  intros e s0 r s2. by apply migrationVerifier_Ok.
Qed.

Lemma keeps_load_history domain entity : keeps (load_history W rd domain entity).
Proof.
  unfold load_history. apply keeps_bind.
  - unfold migrationContext. apply keeps_bind; [apply keeps_lift|]. intros l. apply keeps_bind; [done|]. intros. apply keeps_ret.
  - intros l. apply keeps_loadAndVerifyHistory. intros e. apply keeps_migrationVerifier.
Qed.

(** What a load of a complete history leaves behind, and what it returns. *)
Lemma complete_history domain entityKey s : cache_ok s ->
  let '(r, s') := loadCompleteHistoryWithinBudget W rd domain entityKey s in
  cache_ok s' /\ rs_trustedEntityKey s' = rs_trustedEntityKey s
  /\ forall h, r = Ok h -> exists key c,
       orElse entityKey (orElse (ro_entityKey options) (rs_trustedEntityKey s)) = Some key
       /\ rs_cachedHistory s' = Some c /\ ch_domain c = domain /\ ch_entityKey c = key /\ ch_history c = h
       /\ trusted_history domain (w_members W key) h.
Proof using Hrd Hfac.
  intros Hc. unfold loadCompleteHistoryWithinBudget, own_key, mbind, RM_bind, gets at 1, lift.
  set (o := orElse entityKey (orElse (ro_entityKey options) (rs_trustedEntityKey s))).
  destruct o as [key|]; [|done]. cbn [of_option].
  unfold now at 1, observe, gets. cbn [rs_cachedHistory set_moment].
  destruct (cache_hit domain key _ (rs_cachedHistory s)) as [h|] eqn:Eh.
  - cbn. split; [exact Hc|]. split; [done|]. intros h' [= <-]. unfold cache_hit in Eh.
    destruct (rs_cachedHistory s) as [c|] eqn:Ec; [|done]. destruct (_ && _) eqn:Eb; [|done]. injection Eh as <-.
    bool_inv. subst. eexists _, c. do 5 (split; [done|]). by apply Hc.
  - unfold try_catch. set (s1 := set_moment _ s). pose proof (keeps_load_history domain (w_members W key) s1) as Hk.
    destruct (load_history W rd domain (w_members W key) s1) as [[h|e] s2] eqn:El; cbn.
    + injection Hk as Ht _. pose proof (load_history_Ok _ _ _ _ _ El) as Hl. split; [by intros c [= <-]|]. split; [done|].
      intros h' [= <-]. eexists _, (mkCached domain key h (vh_validUntilMs h)). done.
    + injection Hk as Ht _. split; [by intros c|]. split; [done|]. done.
Qed.

Lemma budgeted_state {A} (call : RM A) s : snd (budgeted W call s) = s \/ snd (budgeted W call s) = snd (call s).
Proof.
  unfold budgeted. destruct (w_callSignal W _); [right|by left|right|right]; by destruct (call s).
Qed.

Lemma budgeted_Ok {A} (call : RM A) s a s' : budgeted W call s = (Ok a, s') -> call s = (Ok a, s').
Proof.
  unfold budgeted. destruct (call s) as [r s1].
  destruct (w_callSignal W _) eqn:E; intros [= H <-];
    (destruct (proj1 (withVerificationBudget_Ok _ _ _ _ _ _) H) as (_ & _ & ? & ->) || idtac); done.
Qed.

(** Computations that keep the cache in order. *)
Definition safe {A} (m : RM A) : Prop := forall s, cache_ok s -> cache_ok (snd (m s)).

Lemma safe_keeps {A} (m : RM A) : keeps m -> safe m.
Proof. intros Hk s Hc c. specialize (Hk s). injection Hk as _ ->. apply Hc. Qed.
Lemma safe_bind {A B} (m : RM A) (f : A -> RM B) : safe m -> (forall a, safe (f a)) -> safe (m ≫= f).
Proof.
  intros Hm Hf s Hc. unfold mbind, RM_bind. specialize (Hm s Hc). destruct (m s) as [[a|e] s1]; [by apply Hf|done].
Qed.
Lemma safe_budgeted {A} (m : RM A) : safe m -> safe (budgeted W m).
Proof. intros Hm s Hc. destruct (budgeted_state m s) as [-> | ->]; auto. Qed.
Lemma safe_complete domain entityKey : safe (loadCompleteHistoryWithinBudget W rd domain entityKey).
Proof using Hrd Hfac.
  intros s Hc. pose proof (complete_history domain entityKey s Hc) as H.
  destruct (loadCompleteHistoryWithinBudget W rd domain entityKey s) as [r s']. exact (proj1 H).
Qed.
Lemma safe_begin {A} (m : RM A) : safe m -> safe (begin_call m).
Proof. intros Hm. unfold begin_call. apply safe_bind; [by apply safe_keeps|done]. Qed.
Lemma safe_trusted key : safe (modify (set_trusted key)).
Proof. intros s Hc. exact Hc. Qed.

Lemma keeps_discoverEntry prefix index : keeps (discoverEntry W rd prefix index).
Proof. unfold discoverEntry. pose proof (keeps_loadEvidence W). keeps_tac. Qed.
Lemma keeps_authenticate p index discovered event h : keeps (authenticate_entry W rd p index discovered event h).
Proof. unfold authenticate_entry. pose proof (keeps_enforce W). keeps_tac. Qed.
Lemma keeps_migrationContext active : keeps (migrationContext rd active).
Proof. unfold migrationContext. keeps_tac. Qed.

Ltac safe_tac :=
  repeat (intros; lazymatch goal with
    | |- safe (mbind _ _) => apply safe_bind
    | |- safe (budgeted _ _) => apply safe_budgeted
    | |- safe (begin_call _) => apply safe_begin
    | |- safe (modify (set_trusted _)) => apply safe_trusted
    | |- safe (loadCompleteHistoryWithinBudget _ _ _ _) => apply safe_complete
    | |- _ => apply safe_keeps; solve [auto using keeps_load_history, keeps_discoverEntry, keeps_authenticate,
        keeps_migrationContext, keeps_loadThrough, keeps_migrationVerifier with keeps]
    end).

Lemma run_call_safe s c : cache_ok s -> cache_ok (run_call s c).
Proof using Hrd Hfac.
  destruct c; cbn [run_call]; revert s;
    lazymatch goal with |- forall s, _ -> cache_ok (snd (?m s)) => change (safe m) end;
    unfold rebuildHistory, keyTimestamp, verifyBilateralBinding, verifyOperationalContinuity, verifyNonRevocation,
      readEvent, readEventWithinBudget, rebuildHistoryThrough, rebuildHistory, loadCompleteHistory, reader_verifier;
    safe_tac.
Qed.

Lemma session_ok calls : cache_ok (session calls).
Proof using Hrd Hfac.
  unfold session. assert (H0 : cache_ok new_state) by done. revert H0. generalize new_state.
  induction calls as [|c calls IH]; intros s Hs; [done|]. cbn. by apply IH, run_call_safe.
Qed.

Lemma loadCompleteHistory_Ok domain entityKey s h s' : cache_ok s ->
  loadCompleteHistory W rd domain entityKey s = (Ok h, s') ->
  exists key c, orElse entityKey (orElse (ro_entityKey options) (rs_trustedEntityKey s)) = Some key
    /\ rs_cachedHistory s' = Some c /\ ch_domain c = domain /\ ch_entityKey c = key /\ ch_history c = h
    /\ trusted_history domain (w_members W key) h.
Proof using Hrd Hfac.
  intros Hc H%budgeted_Ok. pose proof (complete_history domain entityKey s Hc) as Hl. rewrite H in Hl.
  destruct Hl as (_ & _ & Hl). by apply Hl.
Qed.

(** *** Properties *)

(** C12: along every sequence of calls, the history that a reader returns is verified under
    the key that it trusts, and so is the cached one that later calls answer from. *)
Theorem rebuildHistory_verified calls domain events s' :
  begin_call (rebuildHistory W rd domain) (session calls) = (Ok events, s') ->
  exists key h, orElse (ro_entityKey options) (rs_trustedEntityKey (session calls)) = Some key
    /\ trusted_history domain (w_members W key) h /\ vh_events h = events
    /\ exists c, rs_cachedHistory s' = Some c /\ ch_history c = h /\ cache_ok s'.
Proof using Hrd Hfac.
  intros H. assert (Hc' : cache_ok s') by (pose proof (run_call_safe (session calls) (CallRebuildHistory domain)
    (session_ok calls)) as Hc'; cbn [run_call] in Hc'; by rewrite H in Hc').
  unfold begin_call, rebuildHistory in H. rm_inv.
  match goal with Hl : loadCompleteHistory _ _ _ _ _ = _ |- _ =>
    destruct (loadCompleteHistory_Ok _ _ _ _ _ (session_ok calls : cache_ok (next_call (session calls))) Hl)
      as (key & c & Hk & Hs & _ & _ & Hh & Ht) end.
  eexists key, _. split; [exact Hk|]. split; [exact Ht|]. split; [done|]. by exists c.
Qed.

(** An accepted bilateral binding: the history is verified under the given entity key,
    begins with the ISSUANCE of the domain and governance identifier under that key, records
    the operational key, and is run by the lifecycle machine to a live identity whose
    active key is that operational key; the entity key becomes the trusted one. *)
Theorem verifyBilateralBinding_sound calls record ek ok b s' :
  begin_call (verifyBilateralBinding W rd record ek ok) (session calls) = (Ok b, s') ->
  exists domain entity operational h thumb e i,
    requested_domain record = Some domain /\ ek = Some entity /\ ok = Some operational
    /\ trusted_history domain (w_members W entity) h
    /\ jwkThumbprint (w_members W entity) = Ok (bb_initialEntityThumbprint b)
    /\ jwkThumbprint (w_members W operational) = Ok thumb
    /\ bound_by domain (bq_gi record) thumb (vh_events h) e i b
    /\ rs_trustedEntityKey s' = Some entity.
Proof using Hrd Hfac.
  unfold begin_call, verifyBilateralBinding. intros H.
  apply rm_bind_Ok in H as (? & ? & [= _ <-] & H).
  apply rm_bind_Ok in H as (domain & ? & [Hd%of_option_Ok ->]%lift_Ok & H).
  apply rm_bind_Ok in H as (entity & ? & [->%of_option_Ok ->]%lift_Ok & H).
  apply rm_bind_Ok in H as (operational & ? & [->%of_option_Ok ->]%lift_Ok & H).
  apply rm_bind_Ok in H as (thumb & ? & [Ht ->]%lift_Ok & H).
  apply rm_bind_Ok in H as (h & s1 & Hl & H).
  destruct (loadCompleteHistory_Ok _ _ _ _ _ (session_ok calls : cache_ok (next_call (session calls))) Hl)
    as (key & c & [= <-] & _ & _ & _ & _ & Hv).
  apply rm_bind_Ok in H as (? & ? & [= _ <-] & [H ->]%lift_Ok).
  destruct (check_binding_Ok _ _ _ _ _ _ H) as (<- & t & e & i & Hop & Hb).
  by exists domain, entity, operational, h, t, e, i.
Qed.

(** A call that finds its history in the cache. *)
Lemma cached_answer c s : rs_cachedHistory s = Some c ->
  orElse (ro_entityKey options) (rs_trustedEntityKey s) = Some (ch_entityKey c) ->
  still_valid (w_now W (rs_moment s)) (ch_validUntilMs c) = true ->
  w_callSignal W (m_call (rs_moment s)) = Live ->
  w_finished W (m_call (rs_moment s)) < w_started W (m_call (rs_moment s)) + 30000 ->
  exists s', loadCompleteHistory W rd (ch_domain c) None s = (Ok (ch_history c), s').
Proof.
  intros Hc Hk Hv Hl Ht.
  assert (H : loadCompleteHistoryWithinBudget W rd (ch_domain c) None s
              = (Ok (ch_history c), set_moment (tick (rs_moment s)) s)).
  { unfold loadCompleteHistoryWithinBudget, own_key, mbind, RM_bind, gets at 1, lift. cbn [orElse]. rewrite Hk.
    cbn [of_option]. unfold now, observe, gets. cbn [rs_cachedHistory set_moment]. rewrite Hc. unfold cache_hit.
    by rewrite bool_decide_eq_true_2, Nat.eqb_refl, Hv by done. }
  exists (set_moment (tick (rs_moment s)) s). unfold loadCompleteHistory, budgeted. rewrite Hl, H. f_equal.
  apply withVerificationBudget_Ok. cbn. split; [lia|]. by split.
Qed.

(** The checks of one verification share a snapshot: after an accepted binding, as long as
    its evidence is valid, the next call answers from the same history, without the
    network, and agrees: the continuity of the operational key from the key of the binding
    holds, and the key has a time. *)
Theorem binding_is_shared calls record entity operational b s1 domain thumb :
  begin_call (verifyBilateralBinding W rd record (Some entity) (Some operational)) (session calls) = (Ok b, s1) ->
  requested_domain record = Some domain -> jwkThumbprint (w_members W operational) = Ok thumb ->
  (ro_entityKey options = None \/ ro_entityKey options = Some entity) ->
  let n := S (m_call (rs_moment s1)) in
  (forall c, rs_cachedHistory s1 = Some c -> still_valid (w_now W (mkMoment n 0 0)) (ch_validUntilMs c) = true) ->
  w_callSignal W n = Live -> w_finished W n < w_started W n + 30000 ->
  (exists s2, begin_call (verifyOperationalContinuity W rd domain (bb_initialOperationalThumbprint b) thumb) s1 = (Ok tt, s2))
  /\ (exists c e s2, rs_cachedHistory s1 = Some c /\ e ∈ vh_events (ch_history c) /\ introduced_key e = Some thumb
       /\ begin_call (keyTimestamp W rd domain thumb) s1 = (Ok (ev_timestamp e), s2)).
Proof using Hrd Hfac.
  intros H Hd Ht Hown n Hvalid Hlive Htime. unfold begin_call, verifyBilateralBinding in H.
  apply rm_bind_Ok in H as (? & ? & [= _ <-] & H).
  apply rm_bind_Ok in H as (d & ? & [Hd'%of_option_Ok ->]%lift_Ok & H). rewrite Hd in Hd'. injection Hd' as <-.
  apply rm_bind_Ok in H as (? & ? & [[= <-]%of_option_Ok ->]%lift_Ok & H).
  apply rm_bind_Ok in H as (? & ? & [[= <-]%of_option_Ok ->]%lift_Ok & H).
  apply rm_bind_Ok in H as (? & ? & [_ ->]%lift_Ok & H).
  apply rm_bind_Ok in H as (h & s & Hl & H).
  destruct (loadCompleteHistory_Ok _ _ _ _ _ (session_ok calls : cache_ok (next_call (session calls))) Hl)
    as (key & c & [= <-] & Hc & <- & Hk & <- & Hv).
  apply rm_bind_Ok in H as (? & ? & [= _ <-] & [H ->]%lift_Ok).
  destruct (check_binding_continuity _ _ _ _ _ _ _ H Ht) as (Hcont & e & He).
  set (s2 := next_call (set_trusted (Some entity) s)).
  destruct (cached_answer c s2 Hc) as [s3 H3]; [|by apply Hvalid|done|done|].
  { cbn. rewrite Hk. by destruct Hown as [-> | ->]. }
  split.
  - exists s3. unfold begin_call, verifyOperationalContinuity, mbind, RM_bind, modify. fold s2. rewrite H3.
    unfold lift. by rewrite Hcont.
  - destruct (find_some _ _ He) as [Hin Hi%bool_decide_eq_true]. exists c, e, s3. split; [done|].
    split; [by apply list_elem_of_In|]. split; [done|].
    unfold begin_call, keyTimestamp, rebuildHistory, mbind, RM_bind, modify. fold s2. rewrite H3. cbn. unfold lift. by rewrite He.
Qed.

Lemma reference_at_Ok references i r : reference_at references i = Some r -> references !! i = Some r.
Proof. unfold reference_at. destruct (references !! i) as [x|]; [|done]. by destruct (length x =? 0)%nat. Qed.

(** C13: Non-revocation evidence: it comes from a history that this call has loaded and
    verified itself, from the evidence of its own moments, whatever is cached, and the cache
    is left as it is; the checkpoint of that history is witnessed within the maximum age; the
    events at or before the requested time are a prefix of it that the lifecycle machine runs
    to a live identity, without a REVOCATION or RETIREMENT; and the references bound exactly
    that prefix. *)
Theorem verifyNonRevocation_sound calls domain at_ ev s' :
  begin_call (verifyNonRevocation W rd domain at_) (session calls) = (Ok ev, s') ->
  exists key h loaded maximumAge refs before later thumb governance,
    orElse (ro_entityKey options) (rs_trustedEntityKey (session calls)) = Some key
    /\ load_history W rd domain (w_members W key) (next_call (session calls)) = (Ok h, loaded)
    /\ s' = set_moment (tick (rs_moment loaded)) loaded
    /\ rs_cachedHistory s' = rs_cachedHistory (session calls)
    /\ trusted_history domain (w_members W key) h
    /\ ro_checkpointMaxAge options = Some maximumAge
    /\ le_freshnessTime ev = vh_checkpointWitnessTime h
    /\ (forall w, le_freshnessTime ev = Some w -> w_now W (rs_moment loaded) - w <= maximumAge)
    /\ vh_events h = before ++ later /\ Forall (before_boundary at_) before
    /\ Forall (fun e => date_gt (ev_timestamp e) at_ = true) later
    /\ lifecycle_run before (Alive thumb governance) /\ no_terminal before /\ le_loggedState ev = ACTIVE
    /\ vh_historyReferences h = Some refs /\ length refs = length (vh_events h)
    /\ refs !! 0%nat = Some (le_historyStart ev) /\ refs !! (length before - 1)%nat = Some (le_historyEnd ev)
    /\ le_completeThrough ev = dec (vh_completeThrough h).
Proof using Hrd Hfac.
  unfold begin_call, verifyNonRevocation. intros H.
  apply rm_bind_Ok in H as (? & ? & [= _ <-] & H). apply rm_bind_Ok in H as (? & ? & [_ ->]%lift_Ok & H).
  apply rm_bind_Ok in H as (own & ? & [= <- <-] & H).
  apply rm_bind_Ok in H as (key & ? & [Hk%of_option_Ok ->]%lift_Ok & H).
  apply rm_bind_Ok in H as (h & s1 & Hload%budgeted_Ok & H). pose proof (load_history_Ok _ _ _ _ _ Hload) as Hl.
  pose proof (keeps_load_history domain (w_members W key) (next_call (session calls))) as Hkeep.
  rewrite Hload in Hkeep. injection Hkeep as _ Hcache.
  apply rm_bind_Ok in H as (nowMs & s2 & [[= <-] ->]%observe_Ok & H).
  apply rm_bind_Ok in H as (? & ? & [Hfresh ->]%lift_Ok & [H ->]%lift_Ok).
  unfold assertFresh in Hfresh. apply bind_Ok in Hfresh as (age & Hage%of_option_Ok & Hfresh%throw_if_Ok).
  unfold logged_state in H. apply bind_Ok in H as (sn & Hsn & H). apply bind_Ok in H as (? & Hstate%throw_if_Ok & H).
  apply bind_Ok in H as (refs & Hrefs%of_option_Ok & H). apply bind_Ok in H as (start & Hs%of_option_Ok & H).
  apply bind_Ok in H as (end_ & He%of_option_Ok & H). apply bind_Ok in H as (? & Hlen%throw_if_Ok & [= <-]). bool_inv.
  destruct (live_snapshot _ _ _ _ Hsn) as (Hact & Hrun & Hterm & _ & later & E & Hb & Ha); [done|done|].
  exists key, h, s1, age, refs, (sn_events sn), later. do 2 eexists.
  do 7 (split; [done|]). split; [cbn; intros w Hw; rewrite Hw in Hfresh; cbn in Hfresh; bool_inv; lia|].
  do 7 (split; [done|]). split; [done|]. split; [by apply reference_at_Ok|]. split; [by apply reference_at_Ok|done].
Qed.

Lemma discoverEntry_index prefix index s e s' : discoverEntry W rd prefix index s = (Ok e, s') -> ie_index e = index.
Proof.
  unfold discoverEntry. intros H. apply rm_bind_Ok in H as (entry & ? & _ & [H _]%lift_Ok).
  destruct entry as [e'|]; [|done]. apply bind_Ok in H as (? & Hi%throw_if_Ok & [= <-]). by bool_inv.
Qed.

(** The entry that is accepted has the bytes that were discovered. *)
Lemma authenticate_entry_Ok p index discovered event h s entry s' :
  authenticate_entry W rd p index discovered event h s = (Ok entry, s') ->
  ie_bytes entry = ie_bytes discovered /\ (ie_index discovered = index -> ie_index entry = index)
  /\ ((proof_of rd index = None /\ entry ∈ vh_authenticatedEntries h)
      \/ exists proof m verified, proof_of rd index = Some proof
           /\ verifyC2spTlogProof (ie_bytes entry) proof (ro_policy options) (Some (lr_origin p)) (Some (lr_scope p))
                (w_now W m) (allowedClockSkew options) = Ok verified /\ TlogProof.index verified = index).
Proof.
  unfold authenticate_entry. destruct (proof_of rd index) as [proof|]; intros H.
  - apply rm_bind_Ok in H as (nowMs & s1 & [[= <-] ->]%observe_Ok & H).
    apply rm_bind_Ok in H as (verified & ? & [Hv ->]%lift_Ok & H).
    apply rm_bind_Ok in H as (? & ? & [Hi%throw_if_Ok ->]%lift_Ok & H). bool_inv.
    apply rm_bind_Ok in H as (? & ? & _ & H). apply rm_bind_Ok in H as (? & ? & _ & H).
    apply rm_bind_Ok in H as (? & ? & _ & [= <- _]). split; [done|]. split; [done|]. right. by do 3 eexists.
  - apply lift_Ok in H as [H _]. apply bind_Ok in H as (e & Hf%of_option_Ok & H).
    apply bind_Ok in H as (? & Hb%throw_if_Ok & [= <-]). bool_inv. apply find_some in Hf as [Hin Hi%Z.eqb_eq].
    split; [done|]. split; [done|]. left. split; [done|]. by apply list_elem_of_In.
Qed.

Lemma find_event_Ok entryId place history position item : find_event entryId place history = Ok (Some (position, item)) ->
  item ∈ history.
Proof.
  revert place; induction history as [|x history IH]; intros place H; [done|]. cbn [find_event] in H.
  apply bind_Ok in H as (signed & _ & H). case_bool_decide; [injection H as _ <-; by left|]. right. by eapply IH.
Qed.

Lemma verifyOccurrence_Ok entry event history entity w migration e :
  verifyOccurrence rd entry event history entity w migration = Ok e ->
  e = event /\ exists item signed, item ∈ history /\ ve_index item <= ie_index entry
    /\ signedC2spEntryBytes (ie_bytes entry) = Ok signed /\ signedC2spEntryBytes (ve_bytes item) = Ok signed.
Proof.
  unfold verifyOccurrence. intros H. apply bind_Ok in H as (signed & Hs & H). apply bind_Ok in H as (found & Hf & H).
  apply bind_Ok in H as ([position item] & ->%of_option_Ok & H). apply bind_Ok in H as (? & Hle%throw_if_Ok & H).
  apply bind_Ok in H as (recorded & Hr & H). apply bind_Ok in H as (? & Heq%throw_if_Ok & H). bool_inv. subst recorded.
  apply bind_Ok in H as (? & _ & [= <-]). split; [done|]. exists item, signed.
  split; [by eapply find_event_Ok|]. done.
Qed.

(** An event that is read: it is the parsed content of the entry at the index of the
    reference, and the same logical event, byte for byte, is in a verified history of its
    domain at that index or before; the entry is one that the evidence of that history
    authenticates, or its inclusion in an accepted checkpoint is proved. *)
Theorem readEvent_sound calls ref e s' :
  begin_call (readEvent W rd ref) (session calls) = (Ok e, s') ->
  exists p index key h entry item signed,
    parseC2spTlogLr ref = Ok p /\ lr_entryIndex p = Some index
    /\ lr_scope p = lr_scope (rd_parsed rd) /\ lr_logPrefix p = lr_logPrefix (rd_parsed rd)
    /\ lr_streamId p = lr_streamId (rd_parsed rd)
    /\ orElse (ro_entityKey options) (rs_trustedEntityKey (session calls)) = Some key
    /\ trusted_history (ev_domain e) (w_members W key) h
    /\ ie_index entry = index /\ parseC2spEventEntry (ie_bytes entry) (context rd p) = Ok e
    /\ item ∈ vh_indexedEvents h /\ ve_index item <= index
    /\ signedC2spEntryBytes (ie_bytes entry) = Ok signed /\ signedC2spEntryBytes (ve_bytes item) = Ok signed
    /\ ((proof_of rd index = None /\ entry ∈ vh_authenticatedEntries h)
        \/ exists proof m verified, proof_of rd index = Some proof
             /\ verifyC2spTlogProof (ie_bytes entry) proof (ro_policy options) (Some (lr_origin p)) (Some (lr_scope p))
                  (w_now W m) (allowedClockSkew options) = Ok verified /\ TlogProof.index verified = index).
Proof using Hrd Hfac.
  unfold begin_call, readEvent. intros H. apply rm_bind_Ok in H as (? & ? & [= _ <-] & H%budgeted_Ok).
  unfold readEventWithinBudget in H.
  apply rm_bind_Ok in H as (p & ? & [Hp ->]%lift_Ok & H).
  apply rm_bind_Ok in H as (? & ? & [Hown%throw_if_Ok ->]%lift_Ok & H).
  apply rm_bind_Ok in H as (index & ? & [Hi%of_option_Ok ->]%lift_Ok & H).
  apply rm_bind_Ok in H as (own & ? & [= <- <-] & H).
  apply rm_bind_Ok in H as (key & ? & [Hk%of_option_Ok ->]%lift_Ok & H).
  apply rm_bind_Ok in H as (discovered & s1 & Hd & H).
  apply rm_bind_Ok in H as (event & ? & [He ->]%lift_Ok & H).
  apply rm_bind_Ok in H as (h & s2 & Hl & H).
  apply rm_bind_Ok in H as (entry & s3 & Ha & [H ->]%lift_Ok). bool_inv.
  assert (Hc1 : cache_ok s1).
  { pose proof (safe_keeps _ (keeps_discoverEntry (lr_logPrefix p) index) _ (session_ok calls : cache_ok (next_call _))) as Hc1.
    by rewrite Hd in Hc1. }
  pose proof (complete_history (ev_domain event) (Some key) s1 Hc1) as Hch. rewrite Hl in Hch.
  destruct Hch as (_ & _ & Hch). destruct (Hch h eq_refl) as (? & _ & [= <-] & _ & _ & _ & _ & Hv).
  apply discoverEntry_index in Hd. destruct (authenticate_entry_Ok _ _ _ _ _ _ _ _ Ha) as (Hb & Hidx & Hproof).
  destruct (verifyOccurrence_Ok _ _ _ _ _ _ _ H) as (-> & item & signed & Hin & Hle & Hs1 & Hs2).
  exists p, index, key, h, entry, item, signed. rewrite Hb. do 7 (split; [done|]).
  assert (Hie : ie_index entry = index) by (rewrite Hidx; [done|lia]). rewrite Hie in Hle.
  do 3 (split; [done|]). split; [lia|]. rewrite <-Hb. done.
Qed.

(** The history that is exported through a cutoff: it is verified under the trusted key,
    ends at exactly the named entry of this reader's log, is left active, names the key of
    its ISSUANCE, and is no longer than the limit on the cumulative history. *)
Theorem rebuildHistoryThrough_sound calls domain finalRef r s' :
  begin_call (rebuildHistoryThrough W rd domain finalRef) (session calls) = (Ok r, s') ->
  exists key l cutoff prior,
    orElse (ro_entityKey options) (rs_trustedEntityKey (session calls)) = Some key
    /\ migrationLimits (ro_migrationLimits options) = Ok l
    /\ finalRef = event_reference (lr_lr (rd_parsed rd)) cutoff
    /\ verified_history (imported W (Z.to_nat (l_maxDepth l)) rd (w_members W key)) rd (w_members W key) domain
         (Some cutoff) prior
    /\ ends_at cutoff prior /\ exports prior r
    /\ zlen (mr_priorHistory r) <= l_maxHistoryEvents l.
Proof using Hrd Hfac.
  unfold begin_call, rebuildHistoryThrough. intros H. apply rm_bind_Ok in H as (? & ? & [= _ <-] & H%budgeted_Ok).
  apply rm_bind_Ok in H as (own & ? & [= <- <-] & H).
  apply rm_bind_Ok in H as (key & ? & [Hk%of_option_Ok ->]%lift_Ok & H).
  unfold migrationContext in H. apply rm_bind_Ok in H as (l & s1 & Hl & H).
  apply rm_bind_Ok in Hl as (l' & ? & [Hlim ->]%lift_Ok & Hl). apply rm_bind_Ok in Hl as (? & ? & [= _ <-] & [= -> <-]).
  apply rm_bind_Ok in H as (h & s2 & Ht & [H ->]%lift_Ok).
  pose proof Ht as [Hn Hb]%loadThrough_paid; [|intros e; apply grows_migrationVerifier].
  destruct (loadThrough_Ok W (imported W (Z.to_nat (l_maxDepth l)) rd (w_members W key)) _ _ _ _ _ _ _ _ _ Hrd
              ltac:(intros e s0 r0 s3; by apply migrationVerifier_Ok) Ht) as (cutoff & prior & refs & Hf & Hv & He & ->).
  exists key, l, cutoff, prior. do 5 (split; [done|]). pose proof (migrationResult_Ok _ _ _ H) as Hx.
  split; [exact Hx|]. destruct (Hb eq_refl) as [_ Hmax]. destruct Hx as (-> & _). cbn in *. lia.
Qed.

(** The raw evidence is read only when there is no bundle: without a bundle configuration,
    or when its request failed as unavailable and the bundle is not required; a bundle that
    was received is never replaced. *)
Theorem bundle_is_preferred domain entity s h s' : load_history W rd domain entity s = (Ok h, s') ->
  (exists bundle, bundle_evidence rd domain None h bundle)
  \/ (forall config, ro_streamBundle options = Some config -> bundle_unavailable W rd config)
     /\ exists evidence, scan_evidence rd None h evidence.
Proof using Hrd Hfac.
  unfold load_history. intros (l & s1 & _ & H)%rm_bind_Ok.
  by eapply (load_parts W (imported W (Z.to_nat (l_maxDepth l)) rd entity)) in H as [He _];
    [|done|intros e s0 r s2; apply migrationVerifier_Ok].
Qed.

End Calls.

(** ** Witnesses *)

Section Example.
(** Toy signatures; the two thumbprint functions agree. *)
Definition ReaderJwk : JwkApi := {|
  CryptoKey := jwk;
  calculateJwkThumbprint := fun key => synchronousJwkThumbprint (H256 := Checksum) key INVALID_EVIDENCE;
  importJWK := fun key _ => Ok key;
  subtle_verify := fun _ key signature _ => Ok (strict_eq (get key "x") (JString (b64url signature)))
|}.
#[local] Existing Instances Checksum SimpleUrl AsciiUnicode ReaderJwk ToyEd25519.

Definition thumb_of (key : jwk) : jsstr := ok_or [] (jwkThumbprint key).
Definition issuance_bytes : bytes :=
  ok_or [] (canonicalizeC2spEvent
    (mkEvent (js "bot.example.com") (Some 1000) (Some (js "e1")) (Some (x_of "EE")) (Some (x_of "OO")) None []
       (ISSUANCE (mkIssuance (js "example.com") (Some (js "o1")) (Some (js "EdDSA")) (Some example_operational)
          (Some (thumb_of example_operational)) (Some (js "e1")) (Some (js "EdDSA")) (Some example_entity)
          (Some (thumb_of example_entity)) None None None None None None None)))
    (plain_context 0 None None)).

Definition log_lr (name : string) : jsstr := js "c2sp-tlog:public:https://log.example/" ++ js name ++ js "#s1".

(** A log that moved: the identity of the first log continues in the second one. *)
Definition migration_bytes : bytes :=
  ok_or [] (canonicalizeC2spEvent
    (mkEvent (js "bot.example.com") (Some 3000) (Some (js "e1")) (Some (x_of "EE")) None None []
       (MIGRATION (log_lr "a") (log_lr "b") (log_lr "a" ++ js "@0")))
    (mkContext (Some (js "public")) (Some (js "log.example/b")) (Some (js "s1")) (Some (log_lr "b")) (Some 0) None None)).

(** The head of a log, signed by the log and cosigned by the witness at time 10. *)
Definition head_of (name : string) (log : list bytes) : jsstr :=
  js "log.example/" ++ js name ++ [10] ++ dec (zlen log) ++ [10] ++ btoa (merkleRootFromEntries log) ++ [10].
Definition note_of (name : string) (log : list bytes) : jsstr :=
  let head := head_of name log in
  head ++ [10]
  ++ em_dash ++ js " log.example/" ++ js name ++ js " "
  ++ btoa ([x01; x02; x03; x04] ++ toy_sign (repeat x05 32) (utf8_encode head)) ++ [10]
  ++ em_dash ++ js " w.example "
  ++ btoa ([x01; x02; x03; x04] ++ repeat x00 7 ++ [x0a]
           ++ toy_sign (repeat x06 32) (utf8_encode (cosignature_message 10 head))) ++ [10].
Definition evidence_of (name : string) (log : list bytes) : res StreamEvidence :=
  checkpoint ← parseCheckpoint (note_of name log);
  Ok (mkStreamEvidence checkpoint (imap (fun i e => mkIndexedEntry (Z.of_nat i) e) log) true).

Definition reader_options (name : string) (log : list bytes) (factory : option unit) : C2spTlogReaderOptions unit :=
  mkReaderOptions None
    (ok_or (mkPolicy None ∅) (parseC2spPolicyFile (small_policy (String.append "log.example/" name))))
    None (Some (OtherSource (fun _ _ _ => evidence_of name log) None)) None ∅ (Some 0%nat) None (Some 60000) None None None
    None None None factory None None None.
Definition lr_of (name : string) : ParsedC2spTlogLr :=
  ok_or (mkLr [] [] [] [] [] None) (parseC2spTlogLr (log_lr name)).
Definition toy_store : CheckpointStore := fun _ c => Ok (cl_candidate c).
Definition reader_of (name : string) (log : list bytes) (factory : option unit) : C2spTlogReader unit :=
  mkReader (log_lr name) (reader_options name log factory) (lr_of name)
    (OtherSource (fun _ _ _ => evidence_of name log) None) toy_store None.

Definition reader_a : C2spTlogReader unit := reader_of "a" [issuance_bytes] None.
Definition reader_b : C2spTlogReader unit := reader_of "b" [migration_bytes] (Some tt).

Definition toy_world : world unit :=
  mkWorld (fun k => if (k =? 0)%nat then example_entity else example_operational) (fun _ => 12000) (fun _ => Live)
    (fun _ => mkCallEnv (fun _ => Live) Live 0 0) (fun _ _ _ => Ok (Some reader_a)) (fun _ => 0) toy_store
    (fun _ => mkFetcher (fun _ _ _ => Throw (EError "TypeError")) (Throw (EError "TypeError")))
    (fun _ => 0) (fun _ => 0) (fun _ => Live).

Definition bot : jsstr := js "bot.example.com".
Definition bot_request : binding_request := mkBindingRequest (Some bot) None None (Some (js "example.com")).

Local Notation rebuilt := (begin_call (rebuildHistory toy_world reader_b bot) (session toy_world reader_b [])).
Local Notation bound := (begin_call (verifyBilateralBinding toy_world reader_b bot_request (Some 0%nat) (Some 1%nat))
  (session toy_world reader_b [])).
(** A call after one that has cached the history. *)
Local Notation unrevoked := (begin_call (verifyNonRevocation toy_world reader_b bot (Some 5000))
  (session toy_world reader_b [CallRebuildHistory bot])).
Local Notation read := (begin_call (readEvent toy_world reader_b (log_lr "b" ++ js "@0")) (session toy_world reader_b [])).
Local Notation exported := (begin_call (rebuildHistoryThrough toy_world reader_b bot (log_lr "b" ++ js "@0"))
  (session toy_world reader_b [])).

Local Notation loaded := (load_history toy_world reader_a bot example_entity new_state).

Definition lasting (s : rstate) : bool :=
  match rs_cachedHistory s with Some c => still_valid 12000 (ch_validUntilMs c) | None => false end.
Definition two_events (r : res (list LogEvent)) : bool :=
  match r with Ok events => (length events =? 2)%nat | Throw _ => false end.

(** One evaluation of the example. *)
Lemma toy_calls :
  two_events (fst rebuilt)
  && is_ok (fst bound) && is_ok (fst unrevoked) && is_ok (fst read) && is_ok (fst exported)
  && lasting (snd bound) && is_ok (fst loaded) = true.
Proof. vm_compute. reflexivity. Qed.

Lemma run_two (run : res (list LogEvent) * rstate) : two_events (fst run) = true ->
  exists events s, run = (Ok events, s) /\ length events = 2%nat.
Proof. destruct run as [[a|] s]; [|done]. cbn. intros H. exists a, s. split; [done|]. by apply Nat.eqb_eq. Qed.
Lemma run_Ok {A} (run : res A * rstate) : is_ok (fst run) = true -> exists a s, run = (Ok a, s).
Proof. destruct run as [[a|] s]; [|done]. by exists a, s. Qed.

Lemma reader_a_made : well_made reader_a.
Proof. vm_compute. reflexivity. Qed.
Lemma reader_b_made : well_made reader_b.
Proof. vm_compute. reflexivity. Qed.
Lemma toy_factories : factories_construct toy_world.
Proof. intros factory m lr rd [= <-]. vm_compute. reflexivity. Qed.

Lemma toy_calls_Ok :
  (exists events s, rebuilt = (Ok events, s) /\ length events = 2%nat)
  /\ (exists b s, bound = (Ok b, s) /\ lasting s = true)
  /\ (exists ev s, unrevoked = (Ok ev, s)) /\ (exists e s, read = (Ok e, s)) /\ (exists r s, exported = (Ok r, s))
  /\ exists h s, loaded = (Ok h, s).
Proof.
  pose proof toy_calls as H. apply andb_true_iff in H as [H H7]. apply andb_true_iff in H as [H H6].
  apply andb_true_iff in H as [H H5]. apply andb_true_iff in H as [H H4].
  apply andb_true_iff in H as [H H3]. apply andb_true_iff in H as [H1 H2].
  refine (conj (run_two rebuilt H1) (conj _ (conj (run_Ok unrevoked H3) (conj (run_Ok read H4)
    (conj (run_Ok exported H5) (run_Ok loaded H7)))))).
  destruct (run_Ok bound H2) as (b & s & E). exists b, s. split; [exact E|]. rewrite E in H6. exact H6.
Qed.

(** The rebuilt history has two events: that of the first log and the migration. *)
Lemma rebuildHistory_verified_witness : exists events key h, length events = 2%nat
  /\ trusted_history toy_world reader_b bot (w_members toy_world key) h /\ vh_events h = events.
Proof.
  destruct toy_calls_Ok as [(events & s & H & Hl) _].
  destruct (rebuildHistory_verified toy_world reader_b reader_b_made toy_factories [] bot events s H)
    as (key & h & _ & Ht & He & _). exists events, key, h. exact (conj Hl (conj Ht He)).
Defined.

Lemma verifyBilateralBinding_sound_witness : exists thumb h e i b,
  bound_by bot (Some (js "example.com")) thumb (vh_events h) e i b.
Proof.
  destruct toy_calls_Ok as (_ & (b & s & H & _) & _).
  destruct (verifyBilateralBinding_sound toy_world reader_b reader_b_made toy_factories [] bot_request (Some 0%nat)
    (Some 1%nat) b s H) as (domain & entity & operational & h & thumb & e & i & [= <-] & _ & _ & _ & _ & _ & Hb & _).
  exists thumb, h, e, i, b. exact Hb.
Defined.

Lemma verifyNonRevocation_sound_witness : exists before, no_terminal before /\ before <> [].
Proof.
  destruct toy_calls_Ok as (_ & _ & (ev & s & H) & _).
  destruct (verifyNonRevocation_sound toy_world reader_b reader_b_made toy_factories [CallRebuildHistory bot] bot (Some 5000) ev s H)
    as (key & h & m & age & refs & before & later & thumb & governance & _ & _ & _ & _ & _ & _ & _ & _ & _ & _ & _ & Hr & Ht & _).
  exists before. split; [exact Ht|]. intros ->. apply run_shape in Hr. destruct Hr as (? & ? & Hr & _). discriminate Hr.
Defined.

Lemma readEvent_sound_witness : exists h item, item ∈ vh_indexedEvents h /\ ve_index item <= 0.
Proof.
  destruct toy_calls_Ok as (_ & _ & _ & (e & s & H) & _).
  destruct (readEvent_sound toy_world reader_b reader_b_made toy_factories [] (log_lr "b" ++ js "@0") e s H)
    as (p & index & key & h & entry & item & signed & Hp & Hi & _ & _ & _ & _ & _ & _ & _ & Hin & Hle & _).
  exists h, item. split; [exact Hin|].
  assert (E : match parseC2spTlogLr (log_lr "b" ++ js "@0") with Ok p => lr_entryIndex p | Throw _ => None end = Some 0)
    by (vm_compute; reflexivity).
  rewrite Hp, Hi in E. by injection E as ->.
Defined.

Lemma rebuildHistoryThrough_sound_witness : exists r cutoff prior, exports prior r /\ ends_at cutoff prior.
Proof.
  destruct toy_calls_Ok as (_ & _ & _ & _ & (r & s & H) & _).
  destruct (rebuildHistoryThrough_sound toy_world reader_b reader_b_made toy_factories [] bot (log_lr "b" ++ js "@0") r s H)
    as (key & l & cutoff & prior & _ & _ & _ & _ & He & Hx & _). exists r, cutoff, prior. exact (conj Hx He).
Defined.

Lemma example_thumb : jwkThumbprint example_operational = Ok (thumb_of example_operational).
Proof. vm_compute. reflexivity. Qed.

Lemma binding_is_shared_witness : exists b s1 s2,
  begin_call (verifyOperationalContinuity toy_world reader_b bot (bb_initialOperationalThumbprint b)
    (thumb_of example_operational)) s1 = (Ok tt, s2).
Proof.
  destruct toy_calls_Ok as (_ & (b & s & H & Hl) & _).
  destruct (binding_is_shared toy_world reader_b reader_b_made toy_factories [] bot_request 0%nat 1%nat b s bot
              (thumb_of example_operational) H eq_refl example_thumb (or_intror eq_refl)) as [[s2 Hc] _].
  - intros c Hc. unfold lasting in Hl. rewrite Hc in Hl. exact Hl.
  - reflexivity.
  - reflexivity.
  - exists b, s, s2. exact Hc.
Defined.

Lemma bundle_is_preferred_witness : exists h,
  (exists bundle, bundle_evidence reader_a bot None h bundle) \/ exists evidence, scan_evidence reader_a None h evidence.
Proof.
  destruct toy_calls_Ok as (_ & _ & _ & _ & _ & (h & s & H)). exists h.
  destruct (bundle_is_preferred toy_world reader_a reader_a_made toy_factories bot example_entity new_state
              h s H) as [Hb|[_ He]]; [left; exact Hb|right; exact He].
Defined.

Definition toy_evidence : StreamEvidence :=
  ok_or (mkStreamEvidence (mkCheckpoint [] 0 [] [] []) [] false) (evidence_of "a" [issuance_bytes]).
Definition toy_history : VerifiedHistory :=
  mkHistory [] (Some 10000) [] 1 [] [mkVerifiedEvent 0 [] issuance_bytes (example_event 0 RETIREMENT)]
    (se_entries toy_evidence) None None None.

Lemma toy_evidence_scan : scan_evidence reader_a None toy_history toy_evidence.
Proof.
  split.
  - vm_compute. reflexivity.
  - exists (ro_policy (rd_options reader_a)), 12000, (mkCheckpointPolicyResult [10] (Some (Some 10000))).
    split; [by left|]. split; [vm_compute; reflexivity|]. split; [reflexivity|vm_compute; reflexivity].
  - vm_compute. reflexivity.
  - vm_compute. reflexivity.
  - reflexivity.
  - assert (E : sort_by by_index (se_entries toy_evidence) = [mkIndexedEntry 0 issuance_bytes]) by (vm_compute; reflexivity).
    cbn [below_cutoff]. rewrite E. apply sublist_skip, sublist_nil_l.
Qed.

Lemma scan_evidence_is_log_witness :
  match log_collision [issuance_bytes] (map ie_bytes (sorted_entries toy_evidence)) with
  | Some c => Consistency.is_collision c
  | None => map ie_bytes (sorted_entries toy_evidence) = [issuance_bytes]
      /\ Forall (fun v => [issuance_bytes] !! Z.to_nat (ve_index v) = Some (ve_bytes v)) (vh_indexedEvents toy_history)
  end.
Proof. apply (scan_evidence_is_log reader_a None toy_history toy_evidence [issuance_bytes] toy_evidence_scan); vm_compute; reflexivity. Defined.

End Example.
