(* ===== verification/Writer.v ===== *)
(** The prepared-event workflow of a log: [log-c2sp-tlog/src/writer.ts] and the class
    [C2spTlogBinding] of [log-c2sp-tlog/src/reader.ts].

    An event is prepared, signed under each role that its type requires, serialized to the
    bytes of its entry and handed over to the deployment's [submit].  Freezing and cloning
    of objects have no counterpart: values do not change here. *)

From S2P Require Import Prelude JsString Base64 Sha256 Merkle Url Utils Json JsonText Jwk EventCodec Lr Lifecycle StreamVerifier.

(** ** Data *)

Inductive C2spSignerRole := Entity | OperationalCountersignature | PreviousOperational | NewOperational.
#[export] Instance C2spSignerRole_eq_dec : EqDecision C2spSignerRole.
Proof. solve_decision. Defined.

Record C2spChain := mkChain {
  sequence : Z; previousEventId : option jsstr; previousStateHash : option jsstr }.

(** An envelope: its own members. *)
Notation envelope := (list (jsstr * json)) (only parsing).

Record PreparedC2spTlogEvent := mkPrepared {
  pe_reference : ParsedC2spTlogLr;
  pe_envelope : envelope;
  pe_signedBytes : bytes;
  pe_eventId : jsstr;
  pe_requiredSignatures : list C2spSignerRole
}.

Record PreparedC2spVerificationContext := mkVerificationContext {
  pc_expectedFqdn : option jsstr;
  pc_expectedGovernanceId : option jsstr;
  pc_entityKey : option jwk;
  pc_operationalKey : option jwk;
  pc_previousOperationalKey : option jwk
}.
Definition no_context : PreparedC2spVerificationContext := mkVerificationContext None None None None None.

(** The two operations of a key provider that are used here. *)
Record KeyProvider := mkKeyProvider {
  kp_jwk : json -> res jwk;
  kp_signKey : json -> bytes -> res bytes
}.

(** What [submit] throws: the exception that wraps it, and its members when it is an
    object. *)
Record submit_failure := mkFailure { sf_cause : exn; sf_members : option (list (jsstr * json)) }.

Record C2spTlogAppendOptions := mkAppendOptions {
  ap_context : PreparedC2spVerificationContext;
  ap_submit : bytes -> option jsstr -> number + submit_failure;
  ap_idempotencyKey : option jsstr;
  ap_validateChain : option (PreparedC2spTlogEvent -> res unit)
}.

(** [ROLE_TO_SIGNATURE] and [SIGNATURE_TO_ROLE] *)
Definition signature_of_role (role : C2spSignerRole) : jsstr :=
  match role with
  | Entity => js "ae" | OperationalCountersignature => js "op"
  | PreviousOperational => js "prev_op" | NewOperational => js "new_op"
  end.
Definition roles : list C2spSignerRole := [Entity; OperationalCountersignature; PreviousOperational; NewOperational].
Definition role_of_signature (name : jsstr) : option C2spSignerRole :=
  List.find (fun role => bool_decide (signature_of_role role = name)) roles.

(** ** Envelopes *)

(** A non-negative safe integer. *)
Definition safe_nonnegative (value : json) : bool :=
  match value with
  | JNumber (NInt z) => isSafeInteger z && (0 <=? z)
  | JNumber NNegZero => true
  | _ => false
  end.
Definition is_zero (value : json) : bool := strict_eq value (JNumber (NInt 0)).

(** [/^[A-Za-z0-9_-]{42}[AEIMQUYcgkosw048]$/] *)
Definition is_hash_text (value : json) : bool :=
  match value with
  | JString s => (length s =? 43)%nat && forallb is_b64url s
                 && existsb (fun u => bool_decide (last s = Some u)) (js "AEIMQUYcgkosw048")
  | _ => false
  end.

Definition assertPublicChainShape (e : envelope) : res unit :=
  throw_if (negb (safe_nonnegative (get e "seq"))) (err "public C2SP event has invalid seq");;
  throw_if (existsb (fun name => has_member e (js name)) ["prev_index"; "prev_leaf_hash"; "event_id"]%string)
    (err "prohibited C2SP chain field");;
  if is_zero (get e "seq") then
    throw_if (existsb (fun name => negb (is_undef (get e name))) ["prev_event_id"; "prev_state_hash"]%string)
      (err "public seq=0 event must not contain previous-chain fields")
  else
    throw_if (existsb (fun name => negb (is_hash_text (get e name))) ["prev_event_id"; "prev_state_hash"]%string)
      (err "public C2SP event missing chain field").

Section Writer.
Context `{H256 : Hash256} `{Url : URLApi} `{Uni : Unicode} `{Jwk : JwkApi}.

Definition boundReference (lr : jsstr) : res ParsedC2spTlogLr :=
  parsed ← parseC2spTlogLr lr;
  throw_if (negb (is_none (lr_entryIndex parsed))) (err "prepared events require a bound reference without @index");;
  Ok parsed.

(** The signed binding, and the members that a type requires. *)
Definition assert_bound (e : envelope) (reference : ParsedC2spTlogLr) : res unit :=
  throw_if (negb (strict_eq (get e "method") (JString (js "c2sp-tlog")))
            || negb (strict_eq (get e "log_origin") (JString (lr_origin reference)))
            || negb (strict_eq (get e "stream_id") (JString (lr_streamId reference)))
            || negb (strict_eq (get e "lr") (JString (lr_lr reference))))
    (err "public C2SP event binding mismatch").
Definition assert_genesis (e : envelope) (type : jsstr) (reference : ParsedC2spTlogLr) : res unit :=
  let type_is s := bool_decide (type = js s) in
  assertPublicChainShape e;;
  throw_if (is_zero (get e "seq") && negb (type_is "ISSUANCE"%string) && negb (type_is "MIGRATION"%string))
    (err "public seq=0 event must be ISSUANCE or inbound MIGRATION");;
  if type_is "MIGRATION"%string then
    throw_if (negb (strict_eq (get e "new_lr") (JString (lr_lr reference))))
      (err "inbound MIGRATION new_lr must match the bound reference");;
    throw_if (strict_eq (get e "prev_lr") (get e "new_lr"))
      (err "inbound MIGRATION prev_lr must differ from new_lr");;
    throw_if (negb (is_zero (get e "seq"))) (err "inbound MIGRATION must be public stream genesis")
  else Ok tt.

(** Everything but the signatures; the type of the event. *)
Definition assert_unsigned (e : envelope) (reference : ParsedC2spTlogLr) : res jsstr :=
  throw_if (negb (strict_eq (get e "v") (JNumber (NInt 1))) || negb (is_lit (get e "kind") "dnsid.lifecycle"))
    (err "unsupported C2SP event envelope");;
  type ← of_option (as_str (get e "type")) (err "prepared C2SP event missing type");
  requiredC2spSignatureNames type;;
  fqdn ← asString (get e "fqdn");
  normalizedFqdn ← catch (normalizeFQDN fqdn true) (fun _ => Throw (err "prepared C2SP event has invalid fqdn"));
  throw_if (bool_decide (lr_streamId reference = normalizedFqdn))
    (err "new C2SP streams must use an opaque stream ID distinct from the event fqdn");;
  throw_if (negb (safe_nonnegative (get e "ts"))) (err "prepared C2SP event has invalid ts");;
  assert_bound e reference;;
  assert_genesis e type reference;;
  Ok type.

Definition assertPreparedEnvelope (value : json) (reference : ParsedC2spTlogLr) : res envelope :=
  match value with
  | JObject e =>
      type ← assert_unsigned e reference;
      parseC2spSignatures (get e "sigs") type false;;
      Ok e
  | _ => Throw (err "prepared C2SP event must be an object")
  end.

(** [String(envelope.type)]; the type of a prepared envelope is a string. *)
Definition envelope_type (e : envelope) : jsstr := default [] (as_str (get e "type")).

Definition makePrepared (reference : ParsedC2spTlogLr) (e : envelope) : res PreparedC2spTlogEvent :=
  let type := envelope_type e in
  parseC2spSignatures (get e "sigs") type false;;
  signedBytes ← canonicalizeUnknownC2spEnvelope e false;
  names ← requiredC2spSignatureNames type;
  Ok (mkPrepared reference e signedBytes (c2spEventId signedBytes) (omap role_of_signature names)).

Definition assertPreparedIntegrity (prepared : PreparedC2spTlogEvent) : res unit :=
  expected ← canonicalizeUnknownC2spEnvelope (pe_envelope prepared) false;
  throw_if (negb (bool_decide (pe_eventId prepared = c2spEventId expected))
            || negb (bool_decide (expected = pe_signedBytes prepared)))
    (C2spTlogVerificationError "prepared signed bytes do not match the envelope");;
  assertPreparedEnvelope (JObject (pe_envelope prepared)) (pe_reference prepared);;
  Ok tt.

Definition prepareChain (event : LogEvent) (reference : ParsedC2spTlogLr) (chain : option C2spChain) : res C2spChain :=
  let genesis := mkChain 0 None None in
  let chained := match chain with
                 | Some c => negb (sequence c =? 0) || negb (is_none (previousEventId c))
                             || negb (is_none (previousStateHash c))
                 | None => false
                 end in
  match ev_payload event with
  | MIGRATION previousLog newLog _ =>
      throw_if (negb (bool_decide (newLog = lr_lr reference)))
        (err "inbound MIGRATION new_lr must match the bound reference");;
      throw_if (bool_decide (previousLog = newLog)) (err "inbound MIGRATION prev_lr must differ from new_lr");;
      throw_if chained (err "public inbound MIGRATION must be an unchained seq=0 event");;
      Ok genesis
  | ISSUANCE _ =>
      throw_if chained (err "public ISSUANCE must be an unchained seq=0 event");;
      Ok genesis
  | _ => of_option chain (err "public non-genesis event requires prepared chain metadata")
  end.

Definition prepareC2spTlogEventForSigning (event : LogEvent) (lr : jsstr) (chain : option C2spChain)
    : res PreparedC2spTlogEvent :=
  reference ← boundReference lr;
  normalizedChain ← prepareChain event reference chain;
  e ← eventToC2spEnvelope event
        (mkContext (Some (lr_scope reference)) (Some (lr_origin reference)) (Some (lr_streamId reference))
           (Some (lr_lr reference)) (Some (sequence normalizedChain)) (previousEventId normalizedChain)
           (previousStateHash normalizedChain)) false;
  e ← assertPreparedEnvelope (JObject e) reference;
  makePrepared reference e.

(** ** Keys *)

(** The key [asJwk] of this file. *)
Definition prepared_jwk (value : json) : res jwk :=
  match value with
  | JObject key =>
      throw_if (is_none (as_str (get key "kty")) || negb (nonempty_str (get key "kid"))
                || negb (nonempty_str (get key "alg"))) (err "prepared C2SP event has malformed key");;
      assertSupportedLifecycleJwk key;;
      Ok key
  | _ => Throw (err "prepared C2SP event missing key")
  end.

Definition differs (actual expected : jwk) : res bool :=
  if negb (strict_eq (get actual "kid") (get expected "kid"))
     || negb (strict_eq (get actual "alg") (get expected "alg")) then Ok true
  else
    a ← jwkThumbprint actual;
    b ← jwkThumbprint expected;
    Ok (negb (bool_decide (a = b))).
Definition assertExpectedKey (actual expected : jwk) : res unit :=
  d ← differs actual expected;
  throw_if d (C2spTlogVerificationError "ISSUANCE key does not match the trusted key").
Definition assertSameKey (actual expected : jwk) : res unit :=
  d ← differs actual expected;
  throw_if d (C2spTlogVerificationError "key provider does not match the prepared event").

(** An embedded key, or the trusted one that it must be. *)
Definition embedded_or_trusted (value : json) (trusted : option jwk) : res jwk :=
  embedded ← prepared_jwk value;
  match trusted with
  | Some key => assertExpectedKey embedded key;; Ok key
  | None => Ok embedded
  end.

Definition keyForRole (prepared : PreparedC2spTlogEvent) (role : C2spSignerRole)
    (context : PreparedC2spVerificationContext) : res jwk :=
  let e := pe_envelope prepared in
  match role with
  | Entity =>
      if is_lit (get e "type") "ISSUANCE" then embedded_or_trusted (get e "ek") (pc_entityKey context)
      else of_option (pc_entityKey context) (C2spTlogVerificationError "Entity signing requires a trusted entity key")
  | OperationalCountersignature => embedded_or_trusted (get e "ku") (pc_operationalKey context)
  | NewOperational => prepared_jwk (get e "new_ku")
  | PreviousOperational =>
      of_option (pc_previousOperationalKey context)
        (C2spTlogVerificationError "PreviousOperational signing requires the trusted previous operational key")
  end.

Definition prepared_signatures (prepared : PreparedC2spTlogEvent) (requireComplete : bool) : res C2spSignatures :=
  parseC2spSignatures (get (pe_envelope prepared) "sigs") (envelope_type (pe_envelope prepared)) requireComplete.

Definition verify_role (prepared : PreparedC2spTlogEvent) (context : PreparedC2spVerificationContext)
    (signatures : C2spSignatures) (role : C2spSignerRole) : res unit :=
  match role_of signatures (signature_of_role role) with
  | None => Ok tt
  | Some signature =>
      key ← keyForRole prepared role context;
      throw_if (negb (strict_eq (JString (sv_kid signature)) (get key "kid")))
        (C2spTlogVerificationError "signature kid does not match the required key");;
      sig ← fromBase64Url (sv_sig signature);
      throw_if (negb (verifyWithKey (pe_signedBytes prepared) sig key None))
        (C2spTlogVerificationError "invalid existing signature")
  end.
Definition verifyExistingSignatures (prepared : PreparedC2spTlogEvent) (context : PreparedC2spVerificationContext)
    : res unit :=
  signatures ← prepared_signatures prepared false;
  for_each (fun _ role => verify_role prepared context signatures role) roles tt.

Definition assertIssuanceExpectations (prepared : PreparedC2spTlogEvent) (context : PreparedC2spVerificationContext)
    (requireComplete : bool) : res unit :=
  let e := pe_envelope prepared in
  if negb (is_lit (get e "type") "ISSUANCE") then Ok tt
  else
    embeddedEntityKey ← prepared_jwk (get e "ek");
    embeddedOperationalKey ← prepared_jwk (get e "ku");
    entityThumbprint ← jwkThumbprint embeddedEntityKey;
    operationalThumbprint ← jwkThumbprint embeddedOperationalKey;
    throw_if (bool_decide (entityThumbprint = operationalThumbprint))
      (C2spTlogVerificationError "ISSUANCE entity and operational keys must be distinct");;
    throw_if (requireComplete && (is_none (pc_expectedFqdn context) || is_none (pc_expectedGovernanceId context)
                                  || is_none (pc_entityKey context) || is_none (pc_operationalKey context)))
      (C2spTlogVerificationError "ISSUANCE verification requires trusted expectations");;
    throw_if (match pc_expectedFqdn context with
              | Some fqdn => negb (strict_eq (get e "fqdn") (JString fqdn)) | None => false end)
      (C2spTlogVerificationError "ISSUANCE fqdn does not match the expected identity");;
    throw_if (match pc_expectedGovernanceId context with
              | Some gi => negb (strict_eq (get e "gi") (JString gi)) | None => false end)
      (C2spTlogVerificationError "ISSUANCE gi does not match the expected governance ID");;
    match pc_entityKey context with Some key => assertExpectedKey embeddedEntityKey key | None => Ok tt end;;
    match pc_operationalKey context with Some key => assertExpectedKey embeddedOperationalKey key | None => Ok tt end.

(** ** Operations *)

Definition parsePreparedC2spTlogEvent (bs : bytes) (lr : jsstr) (context : PreparedC2spVerificationContext)
    : res PreparedC2spTlogEvent :=
  assertEntrySize bs;;
  parsed ← parseJsonNoDuplicateMembers bs;
  assertCanonicalJsonBytes bs parsed;;
  reference ← boundReference lr;
  e ← assertPreparedEnvelope parsed reference;
  prepared ← makePrepared reference e;
  assertIssuanceExpectations prepared context false;;
  verifyExistingSignatures prepared context;;
  Ok prepared.

Definition parsePreparedC2spTlogIssuance (bs : bytes) (context : PreparedC2spVerificationContext)
    : res PreparedC2spTlogEvent :=
  assertEntrySize bs;;
  parsed ← parseJsonNoDuplicateMembers bs;
  assertCanonicalJsonBytes bs parsed;;
  let e := match parsed with JObject e => e | _ => [] end in
  lr ← of_option (as_str (get e "lr")) (err "prepared ISSUANCE is missing a string lr");
  throw_if (negb (is_lit (get e "type") "ISSUANCE")) (err "prepared event must be ISSUANCE");;
  throw_if (negb (is_zero (get e "seq"))) (err "prepared ISSUANCE must have seq=0");;
  prepared ← parsePreparedC2spTlogEvent bs lr context;
  assertIssuanceExpectations prepared context true;;
  Ok prepared.

(** The members of a signature object, in the order of their parsing. *)
Definition signature_members (signatures : C2spSignatures) : list (jsstr * json) :=
  omap (fun role => (fun v => (signature_of_role role, sig_json v)) <$> role_of signatures (signature_of_role role)) roles.

Definition signPreparedC2spTlogEvent (prepared : PreparedC2spTlogEvent) (role : C2spSignerRole)
    (keyProvider : KeyProvider) (options : PreparedC2spVerificationContext) (replaceExisting : bool)
    : res PreparedC2spTlogEvent :=
  assertPreparedIntegrity prepared;;
  throw_if (negb (bool_decide (role ∈ pe_requiredSignatures prepared)))
    (C2spTlogVerificationError "role is not required");;
  assertIssuanceExpectations prepared options
    (bool_decide (role = Entity) || bool_decide (role = OperationalCountersignature));;
  verifyExistingSignatures prepared options;;
  signatures ← prepared_signatures prepared false;
  throw_if (negb (is_none (role_of signatures (signature_of_role role))) && negb replaceExisting)
    (C2spTlogVerificationError "prepared event already has a signature");;
  expectedKey ← keyForRole prepared role options;
  providerKey ← kp_jwk keyProvider (get expectedKey "kid");
  assertSameKey providerKey expectedKey;;
  signature ← kp_signKey keyProvider (get expectedKey "kid") (pe_signedBytes prepared);
  let value := JObject [(js "kid", get expectedKey "kid"); (js "sig", JString (toBase64Url signature))] in
  let nextSignatures := set_member (signature_members signatures) (signature_of_role role) value in
  makePrepared (pe_reference prepared) (set_member (pe_envelope prepared) (js "sigs") (JObject nextSignatures)).

Definition entry_context (prepared : PreparedC2spTlogEvent) : C2spEventContext :=
  let reference := pe_reference prepared in
  mkContext (Some (lr_scope reference)) (Some (lr_origin reference)) (Some (lr_streamId reference))
    (Some (lr_lr reference)) None None None.

Definition c2spTlogEntryBytes (prepared : PreparedC2spTlogEvent) (context : PreparedC2spVerificationContext) : res bytes :=
  assertPreparedIntegrity prepared;;
  assertIssuanceExpectations prepared context true;;
  signatures ← prepared_signatures prepared true;
  throw_if (existsb (fun role => is_none (role_of signatures (signature_of_role role))) (pe_requiredSignatures prepared))
    (C2spTlogVerificationError "missing required signature");;
  verifyExistingSignatures prepared context;;
  bs ← canonicalBytes (JObject (pe_envelope prepared));
  assertEntrySize bs;;
  parseC2spEventEntry bs (entry_context prepared);;
  Ok bs.

(** ** Submission *)

Definition isTerminalSubmissionFailure (cause : submit_failure) : bool :=
  match sf_members cause with
  | None => false
  | Some members =>
      strict_eq (get members "retryWithSameBytes") (JBool false)
      || strict_eq (get members "retryable") (JBool false)
      || is_lit (get members "state") "rejected"
  end.

(** The calls of the deployment's functions, in their order. *)
Inductive append_call :=
  | ValidateChain (prepared : PreparedC2spTlogEvent)
  | Submit (entryBytes : bytes) (idempotencyKey : option jsstr).

Definition validate_chain (prepared : PreparedC2spTlogEvent) (options : C2spTlogAppendOptions) : list append_call * res unit :=
  if is_zero (get (pe_envelope prepared) "seq") then ([], Ok tt)
  else
    match ap_validateChain options with
    | None => ([], Throw (C2spTlogVerificationError "public non-genesis append requires authoritative chain validation"))
    | Some validateChain =>
        ([ValidateChain prepared],
         catch (validateChain prepared) (fun cause =>
           Throw (c2spLogError "C2SP authoritative chain validation failed" cause false)))
    end.

Definition submit_entry (prepared : PreparedC2spTlogEvent) (entryBytes : bytes) (options : C2spTlogAppendOptions) : res jsstr :=
  match ap_submit options entryBytes (ap_idempotencyKey options) with
  | inr cause =>
      let transient := negb (isTerminalSubmissionFailure cause) in
      Throw (c2spLogError (if transient
                           then "C2SP append is unavailable; retry exact bytes with the same idempotency key"
                           else "C2SP append was rejected terminally") (sf_cause cause) transient)
  | inl index =>
      throw_if (negb (safe_nonnegative (JNumber index)))
        (C2spTlogVerificationError "append returned an invalid entry index");;
      Ok (lr_lr (pe_reference prepared) ++ [64] ++ number_toString index)
  end.

Definition writePreparedEvent (prepared : PreparedC2spTlogEvent) (options : C2spTlogAppendOptions)
    : list append_call * res jsstr :=
  match c2spTlogEntryBytes prepared (ap_context options) with
  | Throw e => ([], Throw e)
  | Ok entryBytes =>
      match validate_chain prepared options with
      | (calls, Throw e) => (calls, Throw e)
      | (calls, Ok _) =>
          (calls ++ [Submit entryBytes (ap_idempotencyKey options)], submit_entry prepared entryBytes options)
      end
  end.

(** ** [C2spTlogBinding] *)

Definition prepareEvent (parsed : ParsedC2spTlogLr) (event : LogEvent) (chain : option C2spChain)
    : res PreparedC2spTlogEvent := prepareC2spTlogEventForSigning event (lr_lr parsed) chain.
Definition parsePreparedEvent (parsed : ParsedC2spTlogLr) (bs : bytes) (context : PreparedC2spVerificationContext)
    : res PreparedC2spTlogEvent := parsePreparedC2spTlogEvent bs (lr_lr parsed) context.
Definition writeEvent (event : LogEvent) : res jsstr :=
  Throw (newVerificationError "c2sp-tlog public write API is not implemented; use prepareC2spTlogEvent/writePreparedEvent for a deployment-specific appender"
           LogError None false).

End Writer.

(** ** Lemmas on members *)

Lemma get_set_ne m k v name : k <> js name -> get (set_member m k v) name = get m name.
Proof. apply get_member_set_ne. Qed.
Lemma get_set m k v name : k = js name -> get (set_member m k v) name = v.
Proof. intros ->. apply get_member_set. Qed.
Lemma has_set_ne m k v name : k <> js name -> has_member (set_member m k v) (js name) = has_member m (js name).
Proof.
  intros H. unfold has_member. induction m as [|[k' v'] m IH]; cbn; [by rewrite bool_decide_false|].
  destruct (bool_decide_reflect (k' = k)) as [->|Hk]; cbn; [done|by rewrite IH].
Qed.
Lemma filter_set_sigs m v :
  List.filter (fun kv => negb (bool_decide (fst kv = js "sigs"))) (set_member m (js "sigs") v)
  = List.filter (fun kv => negb (bool_decide (fst kv = js "sigs"))) m.
Proof.
  induction m as [|[k' v'] m IH]; [done|]. cbn [set_member].
  destruct (bool_decide_reflect (k' = js "sigs")) as [->|Hk]; [done|]. cbn [List.filter fst].
  rewrite bool_decide_false by done. cbn [negb]. by rewrite IH.
Qed.

Section WriterFacts.
Context `{H256 : Hash256} `{Url : URLApi} `{Uni : Unicode} `{Jwk : JwkApi}.

(** The signed bytes of an envelope do not depend on its signatures. *)
Lemma canonicalize_set_sigs e v :
  canonicalizeUnknownC2spEnvelope (set_member e (js "sigs") v) false = canonicalizeUnknownC2spEnvelope e false.
Proof. unfold canonicalizeUnknownC2spEnvelope. by rewrite filter_set_sigs. Qed.

(** The checks of an envelope read its members only. *)
Lemma assert_unsigned_ext e1 e2 reference :
  (forall name, name <> "sigs"%string -> get e1 name = get e2 name) ->
  (forall name, name <> "sigs"%string -> has_member e1 (js name) = has_member e2 (js name)) ->
  assert_unsigned e1 reference = assert_unsigned e2 reference.
Proof.
  intros Hg Hh. unfold assert_unsigned, assert_bound, assert_genesis, assertPublicChainShape. cbn [existsb].
  by rewrite !Hg, !Hh by done.
Qed.

Lemma js_inj s t : js s = js t -> s = t.
Proof.
  unfold js. revert t. induction s as [|a s IH]; intros [|b t]; cbn; try done.
  intros [= H1 H2]. f_equal; [|by apply IH]. rewrite <-(ascii_N_embedding a), <-(ascii_N_embedding b). f_equal. lia.
Qed.

Lemma assert_set_sigs e v reference : assert_unsigned (set_member e (js "sigs") v) reference = assert_unsigned e reference.
Proof.
  apply assert_unsigned_ext; intros name Hn; [apply get_set_ne|apply has_set_ne]; intros E%js_inj; congruence.
Qed.

Lemma envelope_type_set_sigs e v : envelope_type (set_member e (js "sigs") v) = envelope_type e.
Proof. unfold envelope_type. by rewrite get_set_ne by (intros E%js_inj; discriminate). Qed.

Lemma assert_unsigned_type e reference type : assert_unsigned e reference = Ok type -> envelope_type e = type.
Proof.
  unfold assert_unsigned, envelope_type. intros (? & _ & H)%bind_Ok. apply bind_Ok in H as (t & Ht%of_option_Ok & H).
  rewrite Ht. do 7 apply bind_Ok in H as (? & _ & H). by injection H.
Qed.

(** *** Signatures *)

Lemma parse_role_Ok raw name o : parse_role raw name = Ok o ->
  match o with Some v => parseSignatureValue (get raw name) = Ok v | None => get raw name = JUndefined end.
Proof.
  unfold parse_role. destruct (is_undef (get raw name)) eqn:E; [intros [= <-]; by destruct (get raw name)|].
  intros H. destruct (parseSignatureValue (get raw name)); [|done]. by injection H as <-.
Qed.

(** The signature that is parsed for a role is that of its member. *)
Lemma parse_signatures_role raw type complete signatures role :
  parseC2spSignatures (JObject raw) type complete = Ok signatures ->
  match role_of signatures (signature_of_role role) with
  | Some v => parseSignatureValue (get_member raw (signature_of_role role)) = Ok v
  | None => get_member raw (signature_of_role role) = JUndefined
  end.
Proof.
  unfold parseC2spSignatures. cbn [is_undef andb]. intros H.
  apply bind_Ok in H as (ae & Hae%parse_role_Ok & H). apply bind_Ok in H as (op & Hop%parse_role_Ok & H).
  apply bind_Ok in H as (pr & Hpr%parse_role_Ok & H). apply bind_Ok in H as (nw & Hnw%parse_role_Ok & H).
  apply bind_Ok in H as (allowed & _ & H). do 2 apply bind_Ok in H as (? & _ & H). injection H as <-.
  by destruct role.
Qed.

Lemma parse_signatures_complete value type signatures names role :
  parseC2spSignatures value type true = Ok signatures -> requiredC2spSignatureNames type = Ok names ->
  signature_of_role role ∈ names -> exists v, role_of signatures (signature_of_role role) = Some v.
Proof.
  unfold parseC2spSignatures. rewrite andb_false_r. intros H Hn Hin. destruct value; try done.
  do 4 apply bind_Ok in H as (? & _ & H). rewrite Hn in H. cbn [mbind res_bind] in H.
  apply bind_Ok in H as (? & _ & H). apply bind_Ok in H as (? & Hc%throw_if_Ok & [= <-]).
  cbn [andb] in Hc. apply existsb_false_Forall in Hc. rewrite Forall_forall in Hc. specialize (Hc _ Hin).
  destruct (role_of _ _) as [v|]; [by exists v|done].
Qed.

Lemma parse_signatures_allowed raw type complete signatures : parseC2spSignatures (JObject raw) type complete = Ok signatures ->
  exists names, requiredC2spSignatureNames type = Ok names.
Proof.
  unfold parseC2spSignatures. cbn [is_undef andb]. intros H. do 4 apply bind_Ok in H as (? & _ & H).
  apply bind_Ok in H as (names & Hn & _). by exists names.
Qed.

Lemma signature_of_role_inj r1 r2 : signature_of_role r1 = signature_of_role r2 -> r1 = r2.
Proof. destruct r1, r2; try done; intros E%js_inj; discriminate. Qed.

Lemma get_signature_members signatures role :
  get_member (signature_members signatures) (signature_of_role role)
  = match role_of signatures (signature_of_role role) with Some v => sig_json v | None => JUndefined end.
Proof. destruct signatures as [[] [] [] []], role; reflexivity. Qed.

Lemma parse_sig_json v v' : parseSignatureValue (sig_json v) = Ok v' -> v' = v.
Proof.
  unfold parseSignatureValue, sig_json. intros H.
  apply bind_Ok in H as (? & _ & H). apply bind_Ok in H as (kid & Hk & H). apply bind_Ok in H as (sig & Hs & H).
  apply bind_Ok in H as (? & _ & [= <-]). destruct v as [k g].
  change (asString (JString k) = Ok kid) in Hk. change (asString (JString g) = Ok sig) in Hs.
  unfold asString in Hk, Hs. by apply bind_Ok in Hk as (? & _ & [= ->]), Hs as (? & _ & [= ->]).
Qed.

(** *** The invariant of prepared events *)

(** A prepared event is the one of its envelope, which is bound to its reference. *)
Record genuine (p : PreparedC2spTlogEvent) : Prop := {
  gn_bound : boundReference (lr_lr (pe_reference p)) = Ok (pe_reference p);
  gn_envelope : assert_unsigned (pe_envelope p) (pe_reference p) = Ok (envelope_type (pe_envelope p));
  gn_made : makePrepared (pe_reference p) (pe_envelope p) = Ok p
}.

Lemma makePrepared_Ok reference e p : makePrepared reference e = Ok p -> exists signatures names,
  parseC2spSignatures (get e "sigs") (envelope_type e) false = Ok signatures
  /\ pe_reference p = reference /\ pe_envelope p = e
  /\ canonicalizeUnknownC2spEnvelope e false = Ok (pe_signedBytes p) /\ pe_eventId p = c2spEventId (pe_signedBytes p)
  /\ requiredC2spSignatureNames (envelope_type e) = Ok names /\ pe_requiredSignatures p = omap role_of_signature names.
Proof.
  unfold makePrepared. intros (signatures & Hs & H)%bind_Ok. apply bind_Ok in H as (bs & Hb & H).
  apply bind_Ok in H as (names & Hn & [= <-]). by exists signatures, names.
Qed.

Lemma genuine_integrity p : genuine p -> assertPreparedIntegrity p = Ok tt.
Proof.
  intros [_ He Hm]. apply makePrepared_Ok in Hm as (signatures & names & Hs & _ & _ & Hb & Hi & _).
  unfold assertPreparedIntegrity. rewrite Hb. cbn [mbind res_bind]. rewrite <-Hi, !bool_decide_true by done.
  cbn [negb orb throw_if mbind res_bind]. unfold assertPreparedEnvelope. rewrite He. cbn [mbind res_bind]. by rewrite Hs.
Qed.

Lemma boundReference_again lr reference : boundReference lr = Ok reference ->
  boundReference (lr_lr reference) = Ok reference.
Proof.
  unfold boundReference. intros (p & Hp & H)%bind_Ok. apply bind_Ok in H as (? & Hn%throw_if_Ok%negb_false_iff & [= <-]).
  rewrite (bound_reference_parses lr p) by done. cbn [mbind res_bind lr_entryIndex is_none negb throw_if].
  destruct p as [? ? ? ? ? [n|]]; by cbn in *.
Qed.

Lemma genuine_made reference lr e e' p : boundReference lr = Ok reference ->
  assertPreparedEnvelope (JObject e) reference = Ok e' -> makePrepared reference e' = Ok p -> genuine p.
Proof.
  intros Hb (type & Ht & H)%bind_Ok Hm. apply bind_Ok in H as (? & _ & [= <-]).
  pose proof Hm as (? & ? & _ & Er & Ee & _)%makePrepared_Ok. split; rewrite ?Er, ?Ee; [by eapply boundReference_again| |done].
  by rewrite (assert_unsigned_type _ _ _ Ht).
Qed.

(** The events that the workflow produces, by any signers in any order. *)
Inductive staged : PreparedC2spTlogEvent -> Prop :=
  | staged_prepared event lr chain p : prepareC2spTlogEventForSigning event lr chain = Ok p -> staged p
  | staged_parsed bs lr context p : parsePreparedC2spTlogEvent bs lr context = Ok p -> staged p
  | staged_signed p role keyProvider options replaceExisting p' :
      staged p -> signPreparedC2spTlogEvent p role keyProvider options replaceExisting = Ok p' -> staged p'.

(** The steps of signing. *)
Lemma sign_Ok p role keyProvider options replace p' :
  signPreparedC2spTlogEvent p role keyProvider options replace = Ok p' ->
  exists signatures key providerKey sig,
    role ∈ pe_requiredSignatures p /\ prepared_signatures p false = Ok signatures
    /\ (replace = false -> role_of signatures (signature_of_role role) = None)
    /\ keyForRole p role options = Ok key /\ kp_jwk keyProvider (get key "kid") = Ok providerKey
    /\ differs providerKey key = Ok false /\ kp_signKey keyProvider (get key "kid") (pe_signedBytes p) = Ok sig
    /\ makePrepared (pe_reference p) (set_member (pe_envelope p) (js "sigs")
         (JObject (set_member (signature_members signatures) (signature_of_role role)
            (JObject [(js "kid", get key "kid"); (js "sig", JString (toBase64Url sig))])))) = Ok p'.
Proof.
  unfold signPreparedC2spTlogEvent. intros (? & _ & H)%bind_Ok.
  apply bind_Ok in H as (? & Hr%throw_if_Ok%negb_false_iff%bool_decide_eq_true & H).
  do 2 apply bind_Ok in H as (? & _ & H). apply bind_Ok in H as (signatures & Hs & H).
  apply bind_Ok in H as (? & Hrep%throw_if_Ok & H). apply bind_Ok in H as (key & Hk & H).
  apply bind_Ok in H as (pk & Hpk & H). apply bind_Ok in H as (? & Hd & H). apply bind_Ok in H as (sig & Hsig & H).
  unfold assertSameKey in Hd. apply bind_Ok in Hd as (d & Hd & ->%throw_if_Ok).
  exists signatures, key, pk, sig. split_and!; try done. intros ->. cbn [negb] in Hrep. rewrite andb_true_r in Hrep.
  by destruct (role_of _ _).
Qed.

Lemma staged_genuine p : staged p -> genuine p.
Proof.
  induction 1 as [event lr chain p H|bs lr context p H|p role kp options replace p' _ IH H].
  - unfold prepareC2spTlogEventForSigning in H. apply bind_Ok in H as (reference & Hb & H).
    apply bind_Ok in H as (? & _ & H). apply bind_Ok in H as (e & _ & H). apply bind_Ok in H as (e' & He & H).
    by eapply genuine_made.
  - unfold parsePreparedC2spTlogEvent in H. apply bind_Ok in H as (? & _ & H). apply bind_Ok in H as (obj & _ & H).
    apply bind_Ok in H as (? & _ & H). apply bind_Ok in H as (reference & Hb & H).
    apply bind_Ok in H as (e & He & H). apply bind_Ok in H as (q & Hm & H).
    do 2 apply bind_Ok in H as (? & _ & H). injection H as <-.
    destruct obj; try done. by eapply genuine_made.
  - apply sign_Ok in H as (signatures & key & pk & sig & _ & _ & _ & _ & _ & _ & _ & H). destruct IH as [Hb He _].
    pose proof H as (? & ? & _ & Er & Ee & _)%makePrepared_Ok. split; rewrite ?Er, ?Ee; [done| |done].
    by rewrite assert_set_sigs, envelope_type_set_sigs.
Qed.

(** C38: whoever signs, and in whatever order, the event stays the same: a signature is made
    over the signed bytes of the event with a key that is the one required for its role,
    and changes neither the reference, the signed bytes, the identifier and the required
    roles nor the signatures of other roles. *)
Theorem signing_keeps_event p role keyProvider options replace p' :
  staged p -> signPreparedC2spTlogEvent p role keyProvider options replace = Ok p' ->
  pe_reference p' = pe_reference p /\ pe_signedBytes p' = pe_signedBytes p /\ pe_eventId p' = pe_eventId p
  /\ pe_requiredSignatures p' = pe_requiredSignatures p /\ assertPreparedIntegrity p' = Ok tt
  /\ exists before after key providerKey sig kid,
       prepared_signatures p false = Ok before /\ prepared_signatures p' false = Ok after
       /\ keyForRole p role options = Ok key /\ kp_jwk keyProvider (JString kid) = Ok providerKey
       /\ differs providerKey key = Ok false /\ kp_signKey keyProvider (JString kid) (pe_signedBytes p) = Ok sig
       /\ role_of after (signature_of_role role) = Some (mkSigValue kid (toBase64Url sig))
       /\ (replace = false -> role_of before (signature_of_role role) = None)
       /\ forall other, other <> role ->
            role_of after (signature_of_role other) = role_of before (signature_of_role other).
Proof.
  intros Hst H. assert (Hg' : genuine p') by (by apply staged_genuine; eapply staged_signed).
  apply staged_genuine in Hst as [_ _ Hp].
  apply sign_Ok in H as (before & key & pk & sig & _ & Hs & Hrep & Hk & Hpk & Hd & Hsig & H).
  apply makePrepared_Ok in Hp as (_ & names & _ & _ & _ & Hb & Hi & Hn & Hr).
  pose proof H as (after & names' & Ha & Er & Ee & Hb' & Hi' & Hn' & Hr')%makePrepared_Ok.
  rewrite canonicalize_set_sigs in Hb'. rewrite envelope_type_set_sigs in Hn', Ha. rewrite get_set in Ha by done.
  assert (Eb : pe_signedBytes p' = pe_signedBytes p) by congruence.
  split; [done|]. split; [done|]. split; [congruence|]. split; [congruence|]. split; [by apply genuine_integrity|].
  pose proof (parse_signatures_role _ _ _ _ role Ha) as Hrole.
  rewrite get_member_set in Hrole. destruct (role_of after (signature_of_role role)) as [v|] eqn:Ev; [|done].
  assert (Hv : get key "kid" = JString (sv_kid v) /\ sv_sig v = toBase64Url sig).
  { unfold parseSignatureValue in Hrole. apply bind_Ok in Hrole as (? & _ & Hrole).
    apply bind_Ok in Hrole as (kid & Hkid & Hrole). apply bind_Ok in Hrole as (sg & Hsg & Hrole).
    apply bind_Ok in Hrole as (? & _ & [= <-]). change (asString (get key "kid") = Ok kid) in Hkid.
    change (asString (JString (toBase64Url sig)) = Ok sg) in Hsg. unfold asString in Hkid, Hsg.
    apply bind_Ok in Hsg as (? & _ & [= <-]). destruct (get key "kid"); try done.
    by apply bind_Ok in Hkid as (? & _ & [= <-]). }
  destruct Hv as [Hkid Hsv]. rewrite Hkid in *.
  exists before, after, key, pk, sig, (sv_kid v). split_and!; try done.
  - unfold prepared_signatures. by rewrite Ee, envelope_type_set_sigs, get_set by done.
  - destruct v. cbn in *. by subst.
  - intros other Hne. pose proof (parse_signatures_role _ _ _ _ other Ha) as Ho.
    rewrite get_member_set_ne, get_signature_members in Ho by (intros E%signature_of_role_inj; congruence).
    destruct (role_of before (signature_of_role other)) as [w|], (role_of after (signature_of_role other)) as [w'|]; try done.
    by rewrite (parse_sig_json w w').
Qed.

(** *** Entries *)

(** Two keys that the workflow takes for the same. *)
Definition same_key (a b : jwk) : Prop :=
  strict_eq (get a "kid") (get b "kid") = true /\ strict_eq (get a "alg") (get b "alg") = true
  /\ exists thumbprint, jwkThumbprint a = Ok thumbprint /\ jwkThumbprint b = Ok thumbprint.

Lemma assertExpectedKey_Ok a b u : assertExpectedKey a b = Ok u -> same_key a b.
Proof.
  unfold assertExpectedKey, differs. intros (d & Hd & ->%throw_if_Ok)%bind_Ok.
  destruct (_ || _) eqn:E; [done|]. apply orb_false_iff in E as [E1%negb_false_iff E2%negb_false_iff].
  apply bind_Ok in Hd as (t & Ha & Hd). apply bind_Ok in Hd as (t' & Hb & [= Ht]).
  apply negb_false_iff, bool_decide_eq_true in Ht as ->. split; [done|split; [done|by exists t']].
Qed.

(** What the caller expects of an issuance, and the keys that it embeds. *)
Record expected_issuance (e : envelope) (context : PreparedC2spVerificationContext) : Prop := {
  ei_fqdn : exists fqdn, pc_expectedFqdn context = Some fqdn /\ get e "fqdn" = JString fqdn;
  ei_governance : exists gi, pc_expectedGovernanceId context = Some gi /\ get e "gi" = JString gi;
  ei_keys : exists entity operational ek ku t1 t2, get e "ek" = JObject entity /\ get e "ku" = JObject operational
    /\ pc_entityKey context = Some ek /\ same_key entity ek
    /\ pc_operationalKey context = Some ku /\ same_key operational ku
    /\ jwkThumbprint entity = Ok t1 /\ jwkThumbprint operational = Ok t2 /\ t1 <> t2
}.

Lemma prepared_jwk_Ok v key : prepared_jwk v = Ok key -> v = JObject key.
Proof. unfold prepared_jwk. destruct v; try done. intros H. do 2 apply bind_Ok in H as (? & _ & H). by injection H as ->. Qed.

Lemma strict_eq_string v s : strict_eq v (JString s) = true -> v = JString s.
Proof. destruct v as [| | |[]|t| |]; cbn; try done. by intros ->%bool_decide_eq_true. Qed.

Lemma issuance_expectations_Ok p context u : assertIssuanceExpectations p context true = Ok u ->
  is_lit (get (pe_envelope p) "type") "ISSUANCE" = true -> expected_issuance (pe_envelope p) context.
Proof.
  unfold assertIssuanceExpectations. intros H Ht. rewrite Ht in H. cbn [negb] in H.
  apply bind_Ok in H as (entity & Hentity%prepared_jwk_Ok & H). apply bind_Ok in H as (operational & Hoper%prepared_jwk_Ok & H).
  apply bind_Ok in H as (t1 & Ht1 & H). apply bind_Ok in H as (t2 & Ht2 & H).
  apply bind_Ok in H as (? & Hd%throw_if_Ok%bool_decide_eq_false & H).
  apply bind_Ok in H as (? & Hm%throw_if_Ok & H). cbn [andb] in Hm.
  apply bind_Ok in H as (? & Hf%throw_if_Ok & H). apply bind_Ok in H as (? & Hg%throw_if_Ok & H).
  apply bind_Ok in H as (? & He & Ho).
  destruct (pc_expectedFqdn context) as [fqdn|] eqn:E1; [|done].
  destruct (pc_expectedGovernanceId context) as [gi|] eqn:E2; [|done].
  destruct (pc_entityKey context) as [ek|] eqn:E3; [|done].
  destruct (pc_operationalKey context) as [ku|] eqn:E4; [|done].
  apply negb_false_iff, strict_eq_string in Hf, Hg.
  split; [by exists fqdn|by exists gi|]. exists entity, operational, ek, ku, t1, t2.
  by split_and!; try apply assertExpectedKey_Ok in He; try apply assertExpectedKey_Ok in Ho.
Qed.

(** A signature of an event under the key that its role requires. *)
Definition signed_for (p : PreparedC2spTlogEvent) (context : PreparedC2spVerificationContext) (role : C2spSignerRole) : Prop :=
  exists signatures v key raw, prepared_signatures p false = Ok signatures
    /\ role_of signatures (signature_of_role role) = Some v /\ keyForRole p role context = Ok key
    /\ get key "kid" = JString (sv_kid v) /\ fromBase64Url (sv_sig v) = Ok raw
    /\ verifyWithKey (pe_signedBytes p) raw key None = true.

Lemma verify_role_Ok p context signatures role v : verify_role p context signatures role = Ok tt ->
  role_of signatures (signature_of_role role) = Some v -> prepared_signatures p false = Ok signatures -> signed_for p context role.
Proof.
  unfold verify_role. intros H Hv Hs. rewrite Hv in H. apply bind_Ok in H as (key & Hk & H).
  apply bind_Ok in H as (? & Hkid%throw_if_Ok%negb_false_iff & H). apply bind_Ok in H as (raw & Hraw & H).
  apply throw_if_Ok, negb_false_iff in H. exists signatures, v, key, raw. split_and!; try done.
  destruct (get key "kid") as [| | |[]|t| |]; cbn in Hkid; try done. by apply bool_decide_eq_true in Hkid as ->.
Qed.

Lemma complete_is_parsed value type signatures :
  parseC2spSignatures value type true = Ok signatures -> parseC2spSignatures value type false = Ok signatures.
Proof.
  unfold parseC2spSignatures. rewrite andb_false_r. destruct value; try done. cbn [is_undef andb].
  intros H. apply bind_Ok in H as (ae & -> & H). apply bind_Ok in H as (op & -> & H).
  apply bind_Ok in H as (pr & -> & H). apply bind_Ok in H as (nw & -> & H). apply bind_Ok in H as (names & -> & H).
  cbn [mbind res_bind]. apply bind_Ok in H as (? & -> & H). apply bind_Ok in H as (? & _ & H). done.
Qed.

Lemma strict_eq_false v : strict_eq v (JBool false) = true <-> v = JBool false.
Proof. destruct v as [| |[]|[]| | |]; naive_solver. Qed.
Lemma is_lit_string v s : is_lit v s = true <-> v = JString (js s).
Proof. destruct v; cbn; try naive_solver. rewrite bool_decide_eq_true. naive_solver. Qed.

(** The signed bytes of an entry are those of the envelope. *)
Lemma signed_bytes_of_entry e bs signed obj : readable (JObject e) = true -> canonicalBytes (JObject e) = Ok bs ->
  canonicalizeUnknownC2spEnvelope e false = Ok signed -> assertEntrySize bs = Ok tt ->
  parseJsonNoDuplicateMembers bs = Ok obj -> assertCanonicalJsonBytes bs obj = Ok tt -> signedC2spEntryBytes bs = Ok signed.
Proof.
  intros Hr Hc Hs Hsize Hp Ha. unfold signedC2spEntryBytes. rewrite Hsize. cbn [mbind res_bind]. rewrite Hp. cbn [mbind res_bind].
  rewrite Ha. cbn [mbind res_bind]. unfold canonicalBytes in Hc. destruct (canonicalJson (JObject e)) as [t|] eqn:E; [|done].
  injection Hc as <-. apply (canonical_text_parses (JObject e) t) in Hp as ->; [|done..].
  destruct (sort_json_filter (fun k => negb (bool_decide (k = js "sigs"))) e) as (m' & -> & Hm).
  cbn [spread]. unfold canonicalizeUnknownC2spEnvelope in Hs |- *. rewrite <-Hs, Hm. f_equal. apply canonicalJson_sort.
Qed.

(** C37: the bytes of an entry are complete: they are the canonical form of the envelope,
    within the size limit, parse as an event of the log, and give back exactly the bytes
    that were signed; every role that the type requires has signed these under its key;
    and an issuance is the one that the caller expects, with both trusted keys. *)
Theorem c2spTlogEntryBytes_sound p context bs : c2spTlogEntryBytes p context = Ok bs ->
  canonicalBytes (JObject (pe_envelope p)) = Ok bs /\ 1 <= zlen bs <= MAX_ENTRY_BYTES
  /\ (exists event, parseC2spEventEntry bs (entry_context p) = Ok event)
  /\ (readable (JObject (pe_envelope p)) = true -> signedC2spEntryBytes bs = Ok (pe_signedBytes p))
  /\ pe_eventId p = c2spEventId (pe_signedBytes p)
  /\ (exists names, requiredC2spSignatureNames (envelope_type (pe_envelope p)) = Ok names
      /\ forall role, signature_of_role role ∈ names -> signed_for p context role)
  /\ (is_lit (get (pe_envelope p) "type") "ISSUANCE" = true -> expected_issuance (pe_envelope p) context).
Proof.
  unfold c2spTlogEntryBytes. intros (? & Hi & H)%bind_Ok. apply bind_Ok in H as (? & Hex & H).
  apply bind_Ok in H as (signatures & Hs & H). apply bind_Ok in H as (? & _ & H).
  apply bind_Ok in H as (? & Hv & H). apply bind_Ok in H as (bs' & Hb & H).
  apply bind_Ok in H as ([] & Hsize & H). apply bind_Ok in H as (event & Hev & [= <-]).
  unfold assertPreparedIntegrity in Hi. apply bind_Ok in Hi as (expected & Hexp & Hi).
  apply bind_Ok in Hi as (? & Hb2%throw_if_Ok & _). bool_inv. subst expected.
  split; [done|]. split.
  { pose proof Hsize as Hz%throw_if_Ok. bool_inv. unfold MAX_ENTRY_BYTES in *. pose proof (zlen_nonneg bs'). lia. }
  split; [by exists event|]. split.
  { intros Hr. unfold parseC2spEventEntry in Hev. apply bind_Ok in Hev as (? & _ & Hev).
    apply bind_Ok in Hev as (obj & Hobj & Hev). apply bind_Ok in Hev as ([] & Hcan & _).
    by eapply signed_bytes_of_entry. }
  split; [done|]. split; [|intros Ht; by eapply issuance_expectations_Ok].
  unfold prepared_signatures in Hs. pose proof (complete_is_parsed _ _ _ Hs) as Hs'.
  destruct (get (pe_envelope p) "sigs") eqn:Eg; try done.
  destruct (parse_signatures_allowed _ _ _ _ Hs) as [names Hn]. exists names. split; [done|]. intros role Hrole.
  destruct (parse_signatures_complete _ _ _ _ _ Hs Hn Hrole) as [v Hrv].
  unfold verifyExistingSignatures, prepared_signatures in Hv. rewrite Eg, Hs' in Hv. cbn [mbind res_bind] in Hv.
  apply for_each_unit in Hv. rewrite Forall_forall in Hv.
  apply (verify_role_Ok p context signatures role v); [|done|by unfold prepared_signatures; rewrite Eg].
  apply Hv. destruct role; unfold roles; set_solver.
Qed.

(** *** Submission *)

Definition is_genesis (p : PreparedC2spTlogEvent) : bool := is_zero (get (pe_envelope p) "seq").

Lemma validate_chain_calls p options calls r : validate_chain p options = (calls, r) ->
  (forall bs key, Submit bs key ∉ calls)
  /\ (r = Ok tt -> calls = (if is_genesis p then [] else [ValidateChain p])
       /\ (is_genesis p = false -> exists validate, ap_validateChain options = Some validate /\ validate p = Ok tt)).
Proof.
  unfold validate_chain, is_genesis. destruct (is_zero _).
  { intros [= <- <-]. split; [intros; apply not_elem_of_nil|done]. }
  destruct (ap_validateChain options) as [validate|].
  2:{ intros [= <- <-]. split; [intros; apply not_elem_of_nil|done]. }
  intros [= <- <-]. split.
  - intros bs key H. by apply list_elem_of_singleton in H.
  - intros H. split; [done|]. intros _. exists validate. split; [done|]. by destruct (validate p) as [[]|].
Qed.

(** Nothing is submitted before it is complete: [submit] is called at most once, with
    the bytes of the finished entry and the key for retries, after the chain of an event
    that is no genesis was validated; and the reference that is returned names the entry
    at the index that the log assigned. *)
Theorem writePreparedEvent_submits p options calls r :
  staged p -> writePreparedEvent p options = (calls, r) ->
  (forall bs key, Submit bs key ∈ calls ->
     c2spTlogEntryBytes p (ap_context options) = Ok bs /\ key = ap_idempotencyKey options
     /\ calls = (if is_genesis p then [] else [ValidateChain p]) ++ [Submit bs key]
     /\ (is_genesis p = false -> exists validate, ap_validateChain options = Some validate /\ validate p = Ok tt))
  /\ (forall ref, r = Ok ref -> exists bs index n,
       Submit bs (ap_idempotencyKey options) ∈ calls /\ ap_submit options bs (ap_idempotencyKey options) = inl index
       /\ number_value index = NInt n /\ ref = lr_lr (pe_reference p) ++ 64 :: dec n
       /\ parseC2spTlogLr ref = Ok (mkLr (lr_scope (pe_reference p)) (lr_logPrefix (pe_reference p))
            (lr_streamId (pe_reference p)) (lr_origin (pe_reference p)) (lr_lr (pe_reference p)) (Some n))).
Proof.
  intros Hst H. apply staged_genuine in Hst as [Hb _ _]. unfold writePreparedEvent in H.
  destruct (c2spTlogEntryBytes p (ap_context options)) as [bs|e] eqn:Eb.
  2:{ injection H as <- <-. split; [intros bs key Hin; by apply elem_of_nil in Hin|done]. }
  destruct (validate_chain p options) as [pre v] eqn:Ev. apply validate_chain_calls in Ev as [Hno Hv].
  destruct v as [[]|e].
  2:{ injection H as <- <-. split; [intros bs' key Hin; by destruct (Hno bs' key)|done]. }
  injection H as <- <-. destruct (Hv eq_refl) as [-> Hval]. split.
  - intros bs' key [Hin|Hin]%elem_of_app; [by destruct (Hno bs' key)|].
    apply list_elem_of_singleton in Hin as [= <- <-]. by split_and!.
  - intros ref Hr. unfold submit_entry in Hr. destruct (ap_submit _ _ _) as [index|cause] eqn:Es; [|done].
    apply bind_Ok in Hr as (? & Hn%throw_if_Ok%negb_false_iff & [= <-]).
    assert (Hi : exists n, number_value index = NInt n /\ number_toString index = dec n /\ 0 <= n <= MAX_SAFE_INTEGER).
    { destruct index as [n| | | |]; try done; cbn [safe_nonnegative] in Hn; [|by exists 0].
      apply andb_true_iff in Hn as [Hn%isSafeInteger_spec H0%Z.leb_le]. exists n.
      split; [done|]. split; [|lia]. cbn. by rewrite (proj2 (Z.ltb_ge n 0)). }
    destruct Hi as (n & Hnv & Ht & Hn'). exists bs, index, n.
    split; [apply elem_of_app; right; by apply list_elem_of_singleton|]. rewrite Ht.
    split_and!; try done. unfold boundReference in Hb. apply bind_Ok in Hb as (q & Hq & Hb).
    apply bind_Ok in Hb as (? & _ & [= Hqe]). subst q. by eapply parse_entry_reference.
Qed.

(** A failed submission is final exactly when the log says so: the error is to be retried
    with the same bytes unless a member of the failure refuses it. *)
Theorem submission_failure_transient p bs options cause : (forall v, sf_cause cause <> EVerification v) ->
  ap_submit options bs (ap_idempotencyKey options) = inr cause ->
  exists e, submit_entry p bs options = Throw (EVerification e) /\ ve_code e = LogError
    /\ (ve_transient e = false <-> exists members, sf_members cause = Some members
          /\ (get members "retryWithSameBytes" = JBool false \/ get members "retryable" = JBool false
              \/ get members "state" = JString (js "rejected"))).
Proof.
  intros Hc Hs. unfold submit_entry. rewrite Hs. unfold c2spLogError.
  destruct (sf_cause cause) as [v| | | | | |] eqn:Ec; [by destruct (Hc v)|..];
    (eexists; split; [reflexivity|]; split; [done|]; cbn [ve_transient]; rewrite negb_false_iff;
     unfold isTerminalSubmissionFailure; destruct (sf_members cause) as [members|]; [|naive_solver];
     rewrite !orb_true_iff, !strict_eq_false, is_lit_string; naive_solver).
Qed.
End WriterFacts.

(** ** Witnesses *)

Section Example.
#[local] Existing Instances Checksum SimpleUrl AsciiUnicode ToyJwk.

Definition example_thumb (key : jwk) : jsstr := ok_or [] (jwkThumbprint key).
Definition example_issuance : LogEvent :=
  mkEvent (js "bot.example.com") (Some 1000) None None None None []
    (ISSUANCE (mkIssuance (js "example.com") (Some (js "o1")) (Some (js "EdDSA")) (Some example_operational)
       (Some (example_thumb example_operational)) (Some (js "e1")) (Some (js "EdDSA")) (Some example_entity)
       (Some (example_thumb example_entity)) None None None None None None None)).
Definition example_lr : jsstr := js "c2sp-tlog:public:https://log.example/a#s1".
Definition example_trust : PreparedC2spVerificationContext :=
  mkVerificationContext (Some (js "bot.example.com")) (Some (js "example.com")) (Some example_entity)
    (Some example_operational) None.
(** A provider of one key, whose signatures are toys. *)
Definition holder (key : jwk) : KeyProvider :=
  mkKeyProvider (fun _ => Ok key) (fun _ _ => fromBase64Url (default [] (as_str (get key "x")))).
Definition example_append : C2spTlogAppendOptions :=
  mkAppendOptions example_trust (fun _ _ => inl (NInt 41)) (Some (js "once")) None.

Local Notation prepared_issuance := (prepareC2spTlogEventForSigning example_issuance example_lr None).
Local Notation entity_signs p := (signPreparedC2spTlogEvent p Entity (holder example_entity) example_trust false).
Local Notation operational_signs p :=
  (signPreparedC2spTlogEvent p OperationalCountersignature (holder example_operational) example_trust false).

(** The issuance is prepared, signed by both keys, finished and appended. *)
Definition example_workflow : res unit :=
  p0 ← prepared_issuance;
  p1 ← entity_signs p0;
  p2 ← operational_signs p1;
  bs ← c2spTlogEntryBytes p2 example_trust;
  throw_if (negb (readable (JObject (pe_envelope p2)))) (EError "not readable");;
  ref ← snd (writePreparedEvent p2 example_append);
  throw_if (negb (bool_decide (ref = example_lr ++ js "@41"))) (EError "wrong reference").
Lemma example_workflow_runs : is_ok example_workflow = true.
Proof. vm_compute. reflexivity. Qed.

Lemma example_steps : exists p0 p1 p2 bs ref,
  staged p0 /\ entity_signs p0 = Ok p1 /\ staged p1 /\ operational_signs p1 = Ok p2 /\ staged p2
  /\ c2spTlogEntryBytes p2 example_trust = Ok bs /\ readable (JObject (pe_envelope p2)) = true
  /\ snd (writePreparedEvent p2 example_append) = Ok ref /\ ref = example_lr ++ js "@41".
Proof.
  pose proof example_workflow_runs as H. destruct example_workflow as [u|] eqn:E; [clear H|done].
  unfold example_workflow in E. apply bind_Ok in E as (p0 & H0 & E). apply bind_Ok in E as (p1 & H1 & E).
  apply bind_Ok in E as (p2 & H2 & E). apply bind_Ok in E as (bs & Hb & E).
  apply bind_Ok in E as (? & Hr%throw_if_Ok%negb_false_iff & E). apply bind_Ok in E as (ref & Href & E).
  apply throw_if_Ok, negb_false_iff, bool_decide_eq_true in E.
  assert (S0 : staged p0) by (by eapply staged_prepared).
  assert (S1 : staged p1) by (by eapply staged_signed). assert (S2 : staged p2) by (by eapply staged_signed).
  exists p0, p1, p2, bs, ref. repeat (split; [assumption|]). exact E.
Qed.

Lemma signing_keeps_event_witness : exists p p' : PreparedC2spTlogEvent,
  staged p /\ entity_signs p = Ok p' /\ pe_signedBytes p' = pe_signedBytes p /\ pe_eventId p' = pe_eventId p.
Proof.
  destruct example_steps as (p0 & p1 & _ & _ & _ & S0 & H1 & _). exists p0, p1.
  destruct (signing_keeps_event p0 Entity (holder example_entity) example_trust false p1 S0 H1) as (_ & H & H' & _).
  exact (conj S0 (conj H1 (conj H H'))).
Defined.

Lemma c2spTlogEntryBytes_sound_witness : exists (p : PreparedC2spTlogEvent) (bs : bytes),
  c2spTlogEntryBytes p example_trust = Ok bs /\ signedC2spEntryBytes bs = Ok (pe_signedBytes p).
Proof.
  destruct example_steps as (_ & _ & p2 & bs & _ & _ & _ & _ & _ & _ & Hb & Hr & _). exists p2, bs.
  destruct (c2spTlogEntryBytes_sound p2 example_trust bs Hb) as (_ & _ & _ & H & _). split; [exact Hb|exact (H Hr)].
Defined.

Lemma writePreparedEvent_submits_witness : exists (p : PreparedC2spTlogEvent) (ref : jsstr),
  snd (writePreparedEvent p example_append) = Ok ref /\ exists n, is_ok (parseC2spTlogLr ref) = true /\ ref = lr_lr (pe_reference p) ++ 64 :: dec n.
Proof.
  destruct example_steps as (_ & _ & p2 & _ & ref & _ & _ & _ & _ & S2 & _ & _ & Hw & _). exists p2, ref. split; [exact Hw|].
  destruct (writePreparedEvent_submits p2 example_append _ _ S2 (surjective_pairing _)) as [_ H].
  destruct (H ref Hw) as (bs & index & n & _ & _ & _ & Hr & Hp). exists n. split; [by rewrite Hp|exact Hr].
Defined.

Definition rejecting : C2spTlogAppendOptions :=
  mkAppendOptions example_trust (fun _ _ => inr (mkFailure (EError "rejected") (Some [(js "state", JString (js "rejected"))])))
    None None.
Lemma submission_failure_transient_witness : exists p e, submit_entry p [] rejecting = Throw (EVerification e)
  /\ ve_transient e = false.
Proof.
  exists (mkPrepared (mkLr [] [] [] [] [] None) [] [] [] []).
  destruct (submission_failure_transient (mkPrepared (mkLr [] [] [] [] [] None) [] [] [] []) [] rejecting
    (mkFailure (EError "rejected") (Some [(js "state", JString (js "rejected"))]))) as (e & He & _ & Ht); [done|done|].
  exists e. split; [exact He|]. apply Ht. eexists. split; [reflexivity|]. right. right. vm_compute. reflexivity.
Defined.
End Example.
