(* ===== verification/ManagedRotation.v ===== *)
(** The rotation of an operational key through a registry:
    [sdk/src/managed-key-rotation.ts].

    The code drives key providers, the registry, the application's signer and a durable
    store, any of which may fail; the operator resumes an interrupted rotation from a state
    it holds.  A run is a computation over the calls made so far ([Effects]); crashes and
    resumptions are cuts of runs and further runs on the same list of calls. *)

From S2P Require Import Prelude Effects JsString Base64 Sha256 Merkle Url Utils TxtRecord Json Jwk EventCodec Lr.
From S2P Require Import Lifecycle StreamVerifier Verification Writer.

(** ** Data *)

Inductive submission_state := pending | accepted_state | rejected_state.
#[export] Instance submission_state_eq_dec : EqDecision submission_state.
Proof. solve_decision. Defined.

(** The registry's answer; [index] is a number or missing. *)
Record SubmissionResult := mkSubmission {
  sr_state : submission_state;
  sr_entryHash : option jsstr;
  sr_index : json;
  sr_logRef : option jsstr;
  sr_errorCode : option jsstr;
  sr_keyId : option jsstr
}.

Record ManagedKeyRotationResult := mkManaged {
  mr_domain : jsstr;
  mr_logReference : jsstr;
  mr_previousKid : json;
  mr_newKid : jsstr;
  mr_previousProviderReference : jsstr;
  mr_newProviderReference : jsstr;
  mr_previousKey : jwk;
  mr_previousThumbprint : jsstr;
  mr_newThumbprint : jsstr;
  mr_entryHash : jsstr;
  mr_entryBytes : bytes;
  mr_idempotencyKey : jsstr;
  mr_submission : option SubmissionResult;
  mr_activated : bool;
  mr_applicationSigningPaused : bool
}.

(** [{ ...rotation, x }] *)
Definition with_submission (r : ManagedKeyRotationResult) (s : SubmissionResult) : ManagedKeyRotationResult :=
  mkManaged (mr_domain r) (mr_logReference r) (mr_previousKid r) (mr_newKid r) (mr_previousProviderReference r)
    (mr_newProviderReference r) (mr_previousKey r) (mr_previousThumbprint r) (mr_newThumbprint r) (mr_entryHash r)
    (mr_entryBytes r) (mr_idempotencyKey r) (Some s) (mr_activated r) (mr_applicationSigningPaused r).
Definition with_flags (r : ManagedKeyRotationResult) (activated paused : bool) : ManagedKeyRotationResult :=
  mkManaged (mr_domain r) (mr_logReference r) (mr_previousKid r) (mr_newKid r) (mr_previousProviderReference r)
    (mr_newProviderReference r) (mr_previousKey r) (mr_previousThumbprint r) (mr_newThumbprint r) (mr_entryHash r)
    (mr_entryBytes r) (mr_idempotencyKey r) (mr_submission r) activated paused.

(** A key provider is an object; what matters of it is its identity. *)
Notation provider := nat (only parsing).

Record RotateManagedOperationalKeyOptions := mkRotateOptions {
  ro_domain : jsstr;
  ro_logReference : jsstr;
  ro_keyProvider : provider;
  ro_previousProviderReference : jsstr;
  ro_targetKeyProvider : option provider;
  ro_targetAlgorithm : option json;
  ro_newProviderReference : jsstr;
  ro_idempotencyKey : jsstr
}.

(** What the functions of this file throw. *)
Inductive rotation_error :=
  | RotationExn (e : exn)
  | ManagedKeyRotationSubmissionError (message : string) (rotation : ManagedKeyRotationResult) (retryWithSameBytes : bool)
  | ManagedKeyRotationActivationError (message : string) (rotation : ManagedKeyRotationResult).

(** The calls, with their answers. *)
Inductive event :=
  | ESigningKey (p : provider) (r : res jwk)
  | EActiveSigningKey (p : provider) (r : res (option jwk))
  | EValidateKeyGeneration (p : provider) (algorithm : json) (r : res unit)
  | EGenerateKey (p : provider) (algorithm : json) (r : res jsstr)
  | EJwk (p : provider) (kid : json) (r : res jwk)
  | EListKeyIds (p : provider) (r : res (list jsstr))
  | ESignPrepared (p : provider) (role : C2spSignerRole) (r : res PreparedC2spTlogEvent)
  | EActivate (p : provider) (kid : jsstr) (r : res unit)
  | ESupersede (p : provider) (kid : json) (r : res unit)
  | EPrepare (domain previousKeyId : jsstr) (publicKey : jwk) (idempotencyKey : jsstr) (r : res bytes)
  | ESubmit (domain : jsstr) (entryBytes : bytes) (idempotencyKey : jsstr) (r : SubmissionResult + submit_failure)
  | EPersist (rotation : ManagedKeyRotationResult) (r : res unit)
  | EPause (paused : bool) (r : res unit)
  | ESetSigner (p : provider) (kid : jsstr) (r : res unit)
  | EResolve (reference : jsstr) (r : res provider)
  | EVerifyPublication (r : res VerifiedIdentity)
  | EReadEvent (reference : jsstr) (r : res LogEvent).

(** The environment answers each call as it pleases, knowing all calls before it.  A
    provider may or may not have the optional methods. *)
Record Environment := mkEnvironment {
  env_signingKey : list event -> provider -> res jwk;
  env_hasActiveSigningKey : provider -> bool;
  env_activeSigningKey : list event -> provider -> res (option jwk);
  env_hasValidateKeyGeneration : provider -> bool;
  env_validateKeyGeneration : list event -> provider -> json -> res unit;
  env_generateKey : list event -> provider -> json -> res jsstr;
  env_jwk : list event -> provider -> json -> res jwk;
  env_signKey : list event -> provider -> json -> bytes -> res bytes;
  env_listKeyIds : list event -> provider -> res (list jsstr);
  env_activate : list event -> provider -> jsstr -> res unit;
  env_supersede : list event -> provider -> json -> res unit;
  env_prepareKeyRotation : list event -> jsstr -> jsstr -> jwk -> jsstr -> res bytes;
  env_submitPreparedEvent : list event -> jsstr -> bytes -> jsstr -> SubmissionResult + submit_failure;
  env_persistRotation : list event -> ManagedKeyRotationResult -> res unit;
  env_setApplicationSigningPaused : list event -> bool -> res unit;
  env_setApplicationSigner : list event -> provider -> jsstr -> res unit;
  env_resolveKeyProvider : list event -> jsstr -> res provider;
  env_verifyLocalPublication : list event -> res VerifiedIdentity;
  env_readEvent : list event -> jsstr -> res LogEvent
}.

Notation run := (Eff event rotation_error).

Definition permanentRotationError (message : string) : exn := newVerificationError message LogError None false.

Definition lift {A} (r : res A) : run A := pure_res RotationExn r.
Definition check (b : bool) (message : string) : run unit := lift (throw_if b (permanentRotationError message)).
Notation ask := (Effects.ask RotationExn).

Definition kid_is (key : jwk) (kid : json) : bool := strict_eq (get key "kid") kid.

Section Rotation.
Context `{H256 : Hash256} `{Url : URLApi} `{Uni : Unicode} `{Jwk : JwkApi} (env : Environment).

Definition signingKey (p : provider) : run jwk := ask (fun t => env_signingKey env t p) (ESigningKey p).
Definition jwk_of (p : provider) (kid : json) : run jwk := ask (fun t => env_jwk env t p kid) (EJwk p kid).
Definition listKeyIds (p : provider) : run (list jsstr) := ask (fun t => env_listKeyIds env t p) (EListKeyIds p).
Definition activate (p : provider) (kid : jsstr) : run unit := ask (fun t => env_activate env t p kid) (EActivate p kid).
Definition supersede (p : provider) (kid : json) : run unit := ask (fun t => env_supersede env t p kid) (ESupersede p kid).
Definition persistRotation (r : ManagedKeyRotationResult) : run unit :=
  ask (fun t => env_persistRotation env t r) (EPersist r).
Definition setApplicationSigningPaused (b : bool) : run unit :=
  ask (fun t => env_setApplicationSigningPaused env t b) (EPause b).
Definition setApplicationSigner (p : provider) (kid : jsstr) : run unit :=
  ask (fun t => env_setApplicationSigner env t p kid) (ESetSigner p kid).
Definition resolveKeyProvider (reference : jsstr) : run provider :=
  ask (fun t => env_resolveKeyProvider env t reference) (EResolve reference).

(** The signing of a prepared event calls the provider's [jwk] and [signKey]. *)
Definition provider_at (t : list event) (p : provider) : KeyProvider :=
  mkKeyProvider (env_jwk env t p) (env_signKey env t p).
Definition sign_prepared (prepared : PreparedC2spTlogEvent) (role : C2spSignerRole) (p : provider)
    (context : PreparedC2spVerificationContext) : run PreparedC2spTlogEvent :=
  ask (fun t => signPreparedC2spTlogEvent prepared role (provider_at t p) context false) (ESignPrepared p role).

(** ** Checks *)

Definition sha256Hex (value : bytes) : jsstr := to_hex (digest value).

Definition assertOperationReferences (previous next idempotencyKey : jsstr) : res unit :=
  throw_if ((length (trim previous) =? 0)%nat || (length (trim next) =? 0)%nat
            || (length idempotencyKey =? 0)%nat || negb (bool_decide (trim idempotencyKey = idempotencyKey))
            || (200 <? zlen idempotencyKey))
    (permanentRotationError "managed rotation requires provider references and a valid idempotency key").

Definition assertKeyBinding (key : jwk) (kid : json) (thumbprint : jsstr) : res unit :=
  validateOperational (mkJWKS [key]);;
  mismatch ← (if negb (kid_is key kid) then Ok true
              else t ← jwkThumbprint key; Ok (negb (bool_decide (t = thumbprint))));
  throw_if mismatch (permanentRotationError "saved managed rotation key binding mismatch").

Definition assertPreparedRotationKey (value thumbprint : json) (expected : jwk) : res unit :=
  match value with
  | JObject actual =>
      actualThumbprint ← jwkThumbprint actual;
      expectedThumbprint ← jwkThumbprint expected;
      throw_if (negb (kid_is actual (get expected "kid")) || negb (strict_eq (get actual "alg") (get expected "alg"))
                || negb (bool_decide (actualThumbprint = expectedThumbprint)))
        (permanentRotationError "registry KEY_ROTATION new key does not match the generated pending key");;
      throw_if (negb (strict_eq thumbprint (JString expectedThumbprint)))
        (permanentRotationError "registry KEY_ROTATION new thumbprint does not match the generated pending key")
  | _ => Throw (permanentRotationError "registry KEY_ROTATION is missing new_ku")
  end.

(** Both present, not empty and different. *)
Definition hashes_differ (a b : option jsstr) : bool :=
  match a, b with
  | Some (u :: a), Some (v :: b) => negb (bool_decide (u :: a = v :: b))
  | _, _ => false
  end.

Definition assertSubmissionMatchesRotation (rotation : ManagedKeyRotationResult) (submission : SubmissionResult) : res unit :=
  throw_if (hashes_differ (mr_submission rotation ≫= sr_entryHash) (sr_entryHash submission))
    (permanentRotationError "registry reconciled a different entry hash for this managed key rotation");;
  throw_if (match sr_entryHash submission with Some h => negb (bool_decide (h = mr_entryHash rotation)) | None => false end)
    (permanentRotationError "submission entry hash does not match the exact managed key rotation bytes");;
  if negb (bool_decide (sr_state submission = accepted_state)) then Ok tt
  else
    throw_if (negb (bool_decide (sr_entryHash submission = Some (sha256Hex (mr_entryBytes rotation)))))
      (permanentRotationError "accepted submission entry hash does not match the exact managed key rotation bytes");;
    throw_if (negb (match sr_index submission with
                    | JNumber n => bool_decide (sr_logRef submission = Some (mr_logReference rotation ++ [64] ++ number_toString n))
                                   && safe_nonnegative (JNumber n)
                    | _ => false
                    end))
      (permanentRotationError "accepted submission log reference does not match managed rotation");;
    throw_if (negb (bool_decide (sr_keyId submission = Some (mr_newKid rotation))))
      (permanentRotationError "accepted submission key_id does not match the generated pending key").

Definition is_accepted (rotation : ManagedKeyRotationResult) : bool :=
  match mr_submission rotation with Some s => bool_decide (sr_state s = accepted_state) | None => false end.
Definition is_rejected (rotation : ManagedKeyRotationResult) : bool :=
  match mr_submission rotation with Some s => bool_decide (sr_state s = rejected_state) | None => false end.

Definition rotation_context (rotation : ManagedKeyRotationResult) : PreparedC2spVerificationContext :=
  mkVerificationContext (Some (mr_domain rotation)) None None None (Some (mr_previousKey rotation)).

Definition activeKey (p : provider) (listedIds : list jsstr) : run (option jwk) :=
  if env_hasActiveSigningKey env p then ask (fun t => env_activeSigningKey env t p) (EActiveSigningKey p)
  else if (length listedIds =? 0)%nat then mret None
  else key ← signingKey p; mret (Some key).

Definition includes_kid (ids : list jsstr) (kid : json) : bool := existsb (fun id => strict_eq (JString id) kid) ids.

(** The prepared event of saved bytes, which must be a rotation of the saved keys. *)
Definition saved_event (rotation : ManagedKeyRotationResult) : res PreparedC2spTlogEvent :=
  parsePreparedC2spTlogEvent (mr_entryBytes rotation) (mr_logReference rotation) (rotation_context rotation).

Definition validateSavedRotation (rotation : ManagedKeyRotationResult) (previous target : provider) : run unit :=
  lift (assertOperationReferences (mr_previousProviderReference rotation) (mr_newProviderReference rotation)
          (mr_idempotencyKey rotation));;
  domain ← lift (normalizeFQDN (mr_domain rotation) true);
  check (negb (bool_decide (domain = mr_domain rotation))
         || negb (bool_decide (sha256Hex (mr_entryBytes rotation) = mr_entryHash rotation)))
    "saved managed rotation domain or entry hash mismatch";;
  lift (assertKeyBinding (mr_previousKey rotation) (mr_previousKid rotation) (mr_previousThumbprint rotation));;
  previousIds ← listKeyIds previous;
  sourceActive ← activeKey previous previousIds;
  (if includes_kid previousIds (mr_previousKid rotation) then
     key ← jwk_of previous (mr_previousKid rotation);
     lift (assertKeyBinding key (mr_previousKid rotation) (mr_previousThumbprint rotation));;
     match sourceActive with
     | None => mret tt
     | Some active =>
         let targetIsActive := (previous =? target)%nat && is_accepted rotation
                               && kid_is active (JString (mr_newKid rotation)) in
         lift (if targetIsActive then assertKeyBinding active (JString (mr_newKid rotation)) (mr_newThumbprint rotation)
               else assertKeyBinding active (mr_previousKid rotation) (mr_previousThumbprint rotation))
     end
   else
     match mr_submission rotation with
     | Some submission =>
         check (negb (is_accepted rotation)) "saved previous key is unavailable without saved acceptance";;
         lift (assertSubmissionMatchesRotation rotation submission);;
         key ← signingKey target;
         lift (assertKeyBinding key (JString (mr_newKid rotation)) (mr_newThumbprint rotation));;
         check (negb (previous =? target)%nat && negb (is_none sourceActive))
           "superseded source provider still has an active signing key"
     | None => lift (Throw (permanentRotationError "saved previous key is unavailable without saved acceptance"))
     end);;
  next ← jwk_of target (JString (mr_newKid rotation));
  lift (assertKeyBinding next (JString (mr_newKid rotation)) (mr_newThumbprint rotation));;
  prepared ← lift (saved_event rotation);
  let e := pe_envelope prepared in
  check (negb (is_lit (get e "type") "KEY_ROTATION") || negb (strict_eq (get e "fqdn") (JString (mr_domain rotation)))
         || negb (strict_eq (get e "prev_thumb") (JString (mr_previousThumbprint rotation))))
    "saved managed rotation event binding mismatch";;
  lift (assertPreparedRotationKey (get e "new_ku") (get e "new_thumb") next);;
  lift (c2spTlogEntryBytes prepared (rotation_context rotation));;
  match mr_submission rotation with
  | Some submission => lift (assertSubmissionMatchesRotation rotation submission)
  | None => mret tt
  end.

(** A member of a value that may be no object: reading it from [undefined] throws. *)
Definition member_of (v : json) (name : string) : res json :=
  match v with
  | JObject members => Ok (get_member members (js name))
  | JUndefined | JNull => Throw (EError "TypeError")
  | _ => Ok JUndefined
  end.

(** The event read back is the saved signed event. *)
Definition continuity_mismatch (rotation : ManagedKeyRotationResult) (e : list (jsstr * json)) (ev : LogEvent) : res bool :=
  match ev_payload ev with
  | KEY_ROTATION f =>
      or_else (negb (bool_decide (ev_domain ev = mr_domain rotation))
               || negb (bool_decide (r_previousOperationalThumbprint f = mr_previousThumbprint rotation))
               || negb (bool_decide (r_newOperationalKid f = mr_newKid rotation))
               || negb (bool_decide (r_newOperationalThumbprint f = mr_newThumbprint rotation)))
        (prev_op ← member_of (get e "sigs") "prev_op";
         prev_kid ← member_of prev_op "kid";
         prev_sig ← member_of prev_op "sig";
         or_else (negb (strict_eq (json_of (ev_signingKid ev)) prev_kid) || negb (strict_eq (json_of (ev_sig ev)) prev_sig))
           (new_op ← member_of (get e "sigs") "new_op";
            new_sig ← member_of new_op "sig";
            Ok (negb (strict_eq (json_of (ev_newOperationalProof ev)) new_sig)
                || negb (match ev_timestamp ev, get e "ts" with
                         | Some ms, JNumber (NInt z) => ms =? z * 1000
                         | Some ms, JNumber NNegZero => ms =? 0
                         | _, _ => false
                         end))))
  | _ => Ok true
  end.

Definition verifyAcceptedPublication (rotation : ManagedKeyRotationResult) : run unit :=
  verified ← ask (env_verifyLocalPublication env) EVerifyPublication;
  check (negb (bool_decide (vi_domain verified = mr_domain rotation))
         || negb (bool_decide (lr (vi_record verified) = mr_logReference rotation)))
    "current signed publication does not match managed rotation";;
  key ← lift (currentOperationalSigningKey (vi_jwks verified));
  lift (assertKeyBinding key (JString (mr_newKid rotation)) (mr_newThumbprint rotation));;
  prepared ← lift (saved_event rotation);
  logRef ← lift (of_option (mr_submission rotation ≫= sr_logRef) (EError "TypeError"));
  ev ← ask (fun t => env_readEvent env t logRef) (EReadEvent logRef);
  mismatch ← lift (continuity_mismatch rotation (pe_envelope prepared) ev);
  check mismatch "accepted managed rotation continuity mismatch".

Definition reconcileAcceptedRotation (previous target : provider) (rotation : ManagedKeyRotationResult) : run unit :=
  active ← signingKey target;
  (if negb (kid_is active (JString (mr_newKid rotation))) then
     (if (previous =? target)%nat
      then lift (assertKeyBinding active (mr_previousKid rotation) (mr_previousThumbprint rotation)) else mret tt);;
     activate target (mr_newKid rotation)
   else mret tt);;
  key ← signingKey target;
  lift (assertKeyBinding key (JString (mr_newKid rotation)) (mr_newThumbprint rotation));;
  ids ← listKeyIds previous;
  if includes_kid ids (mr_previousKid rotation) then supersede previous (mr_previousKid rotation) else mret tt.

(** No other provider still signs with the superseded key. *)
Definition assertSourceInactive (previous target : provider) : run unit :=
  if (previous =? target)%nat then mret tt
  else
    ids ← listKeyIds previous;
    active ← activeKey previous ids;
    check (negb (is_none active)) "superseded source provider still has an active signing key".

(** Restores the signer and lets the application sign again. *)
Definition resume_signing (rotation : ManagedKeyRotationResult) : run ManagedKeyRotationResult :=
  setApplicationSigningPaused false;;
  let completed := with_flags rotation (mr_activated rotation) false in
  persistRotation completed;;
  mret completed.
Definition restore_signer (target : provider) (rotation : ManagedKeyRotationResult) : run unit :=
  key ← signingKey target;
  lift (assertKeyBinding key (JString (mr_newKid rotation)) (mr_newThumbprint rotation));;
  setApplicationSigner target (mr_newKid rotation).

Definition activation_incomplete (rotation : ManagedKeyRotationResult) {A} (e : rotation_error) : run A :=
  raise (ManagedKeyRotationActivationError
    "managed key rotation was accepted, but local key activation is incomplete; resume with this rotation state" rotation).

(** Up to the saving of the activation a failure leaves the rotation to be activated again;
    after it, the activated one. *)
Definition activateRotation (previous target : provider) (rotation : ManagedKeyRotationResult) : run ManagedKeyRotationResult :=
  let activated := with_flags rotation true true in
  try_with
    (verifyAcceptedPublication rotation;;
     reconcileAcceptedRotation previous target rotation;;
     assertSourceInactive previous target;;
     persistRotation activated)
    (activation_incomplete rotation);;
  try_with (restore_signer target activated;; resume_signing activated) (activation_incomplete activated).

Definition restoreActivatedRotation (previous target : provider) (rotation : ManagedKeyRotationResult)
    : run ManagedKeyRotationResult :=
  try_with
    (assertSourceInactive previous target;;
     restore_signer target rotation;;
     if negb (mr_applicationSigningPaused rotation) then mret rotation else resume_signing rotation)
    (fun _ => raise (ManagedKeyRotationActivationError
       "managed key rotation is activated, but restoring the application signer failed; resume with this rotation state" rotation)).

Definition structuredRetryWithSameBytes (cause : submit_failure) : bool :=
  match sf_members cause with
  | Some members => match get_member members (js "retryWithSameBytes") with JBool b => b | _ => true end
  | None => true
  end.

Definition submitManagedRotation (previous target : provider) (rotation : ManagedKeyRotationResult)
    : run ManagedKeyRotationResult :=
  answer ← call (fun t => env_submitPreparedEvent env t (mr_domain rotation) (mr_entryBytes rotation) (mr_idempotencyKey rotation))
             (ESubmit (mr_domain rotation) (mr_entryBytes rotation) (mr_idempotencyKey rotation));
  match answer with
  | inr cause =>
      let retryWithSameBytes := structuredRetryWithSameBytes cause in
      raise (ManagedKeyRotationSubmissionError
        (if retryWithSameBytes
         then "managed key rotation submission is unresolved; retry the same bytes and idempotency key"
         else "managed key rotation submission failed terminally") rotation retryWithSameBytes)
  | inl submission =>
      let next := with_submission rotation submission in
      try_with (lift (assertSubmissionMatchesRotation rotation submission);; persistRotation next)
        (fun _ => raise (ManagedKeyRotationSubmissionError
           "managed rotation acceptance binding or persistence failed; resume this state" next true));;
      match sr_state submission with
      | rejected_state =>
          raise (ManagedKeyRotationSubmissionError "registry rejected the prepared KEY_ROTATION" next false)
      | pending => mret next
      | accepted_state => activateRotation previous target next
      end
  end.

(** Errors of a resumption, but those of the rotation itself. *)
Definition recovery_failed {A} (rotation : ManagedKeyRotationResult) (e : rotation_error) : run A :=
  match e with
  | RotationExn _ => raise (ManagedKeyRotationActivationError
                       "managed rotation recovery failed; signing must remain paused" rotation)
  | _ => raise e
  end.

Definition resumeManagedOperationalKeyRotation (rotation : ManagedKeyRotationResult) : run ManagedKeyRotationResult :=
  providers ← try_with
    (lift (assertOperationReferences (mr_previousProviderReference rotation) (mr_newProviderReference rotation)
             (mr_idempotencyKey rotation));;
     previous ← resolveKeyProvider (mr_previousProviderReference rotation);
     target ← (if bool_decide (mr_newProviderReference rotation = mr_previousProviderReference rotation)
               then mret previous else resolveKeyProvider (mr_newProviderReference rotation));
     validateSavedRotation rotation previous target;;
     mret (previous, target)) (recovery_failed rotation);
  let '(previous, target) := providers in
  if mr_activated rotation then
    try_with
      (match mr_submission rotation with
       | Some submission =>
           check (negb (is_accepted rotation)) "activated rotation has no accepted submission";;
           lift (assertSubmissionMatchesRotation rotation submission)
       | None => lift (Throw (permanentRotationError "activated rotation has no accepted submission"))
       end;;
       restoreActivatedRotation previous target rotation) (recovery_failed rotation)
  else if is_rejected rotation then
    raise (ManagedKeyRotationSubmissionError "cannot resume a rejected managed key rotation" rotation false)
  else
    let rotation := with_flags rotation (mr_activated rotation) true in
    try_with
      (setApplicationSigningPaused true;;
       persistRotation rotation;;
       match mr_submission rotation with
       | Some submission =>
           if is_accepted rotation then
             lift (assertSubmissionMatchesRotation rotation submission);;
             activateRotation previous target rotation
           else submitManagedRotation previous target rotation
       | None => submitManagedRotation previous target rotation
       end) (recovery_failed rotation).

(** ** A new rotation *)

Definition supported_algorithm (algorithm : json) : bool := is_lit algorithm "EdDSA" || is_lit algorithm "ES256".

(** A pending key of the target provider, distinct from the active one. *)
Definition generate_target (target : provider) (algorithm : json) (previousThumbprint : jsstr) : run (jsstr * jwk) :=
  (if env_hasValidateKeyGeneration env target
   then ask (fun t => env_validateKeyGeneration env t target algorithm) (EValidateKeyGeneration target algorithm)
   else
     active ← signingKey target;
     lift (validateOperational (mkJWKS [active]));;
     lift (throw_if (negb (strict_eq (get active "alg") algorithm))
             (EArgument "target provider must validate support for the selected algorithm")));;
  newKid ← ask (fun t => env_generateKey env t target algorithm) (EGenerateKey target algorithm);
  newKey ← jwk_of target (JString newKid);
  lift (validateOperational (mkJWKS [newKey]));;
  check (negb (strict_eq (get newKey "alg") algorithm)) "generated key does not use the selected algorithm";;
  newThumbprint ← lift (jwkThumbprint newKey);
  check (bool_decide (newThumbprint = previousThumbprint)) "managed KEY_ROTATION requires a distinct pending operational key";;
  mret (newKid, newKey).

(** The signed bytes of the rotation that the registry prepared. *)
Definition signed_rotation (options : RotateManagedOperationalKeyOptions) (domain : jsstr) (previousKey newKey : jwk)
    (previousThumbprint : jsstr) (target : provider) : run bytes :=
  raw ← try_with
    (ask (fun t => env_prepareKeyRotation env t domain previousThumbprint newKey (ro_idempotencyKey options))
       (EPrepare domain previousThumbprint newKey (ro_idempotencyKey options)))
    (fun _ => lift (Throw (newVerificationError "managed key rotation preparation is unavailable" LogError None true)));
  let context := mkVerificationContext (Some domain) None None None (Some previousKey) in
  prepared ← lift (parsePreparedC2spTlogEvent raw (ro_logReference options) context);
  let e := pe_envelope prepared in
  check (negb (is_lit (get e "type") "KEY_ROTATION")) "registry preparation returned another event instead of KEY_ROTATION";;
  check (negb (strict_eq (get e "fqdn") (JString domain))) "registry KEY_ROTATION fqdn does not match the expected identity";;
  check (negb (strict_eq (get e "prev_thumb") (JString previousThumbprint)))
    "registry KEY_ROTATION previous thumbprint does not match the active operational key";;
  lift (assertPreparedRotationKey (get e "new_ku") (get e "new_thumb") newKey);;
  prepared ← sign_prepared prepared PreviousOperational (ro_keyProvider options) context;
  prepared ← sign_prepared prepared NewOperational target context;
  lift (c2spTlogEntryBytes prepared context).

Definition rotateManagedOperationalKey (options : RotateManagedOperationalKeyOptions) : run ManagedKeyRotationResult :=
  domain ← lift (normalizeFQDN (ro_domain options) true);
  lift (assertOperationReferences (ro_previousProviderReference options) (ro_newProviderReference options)
          (ro_idempotencyKey options));;
  let target := default (ro_keyProvider options) (ro_targetKeyProvider options) in
  lift (throw_if (negb (Bool.eqb (target =? ro_keyProvider options)%nat
                          (bool_decide (ro_previousProviderReference options = ro_newProviderReference options))))
          (EArgument "provider references must identify the selected previous and target providers"));;
  previousKey ← signingKey (ro_keyProvider options);
  lift (validateOperational (mkJWKS [previousKey]));;
  previousThumbprint ← lift (jwkThumbprint previousKey);
  let algorithm := default (get previousKey "alg") (ro_targetAlgorithm options) in
  lift (throw_if (negb (supported_algorithm algorithm)) (EArgument "unsupported target algorithm"));;
  generated ← generate_target target algorithm previousThumbprint;
  let '(newKid, newKey) := generated in
  entryBytes ← signed_rotation options domain previousKey newKey previousThumbprint target;
  newThumbprint ← lift (jwkThumbprint newKey);
  let rotation := mkManaged domain (ro_logReference options) (get previousKey "kid") newKid
    (ro_previousProviderReference options) (ro_newProviderReference options) previousKey previousThumbprint newThumbprint
    (sha256Hex entryBytes) entryBytes (ro_idempotencyKey options) None false true in
  try_with (persistRotation rotation;; setApplicationSigningPaused true)
    (fun _ => raise (ManagedKeyRotationSubmissionError
       "managed rotation persistence or pause failed; resume this state" rotation true));;
  submitManagedRotation (ro_keyProvider options) target rotation.

End Rotation.
