(* ===== verification/RotationSafety.v ===== *)
(** Safety of managed rotations across failures, crashes and resumptions. *)

From S2P Require Import Prelude Effects JsString Base64 Json Sha256 Url Utils TxtRecord Jwk EventCodec StreamVerifier Verification Writer.
From S2P Require Import ManagedRotation.

Section Safety.
Context `{H256 : Hash256} `{Url : URLApi} `{Uni : Unicode} `{Jwk : JwkApi}.

(** ** What a list of calls shows *)

(** The operation that a state belongs to: everything but its progress. *)
Definition operation (r : ManagedKeyRotationResult) : ManagedKeyRotationResult :=
  mkManaged (mr_domain r) (mr_logReference r) (mr_previousKid r) (mr_newKid r) (mr_previousProviderReference r)
    (mr_newProviderReference r) (mr_previousKey r) (mr_previousThumbprint r) (mr_newThumbprint r) (mr_entryHash r)
    (mr_entryBytes r) (mr_idempotencyKey r) None false false.

(** The registry answered the submission of the exact bytes with [s]. *)
Definition submitted (r : ManagedKeyRotationResult) (s : SubmissionResult) (t : list event) : Prop :=
  ESubmit (mr_domain r) (mr_entryBytes r) (mr_idempotencyKey r) (inl s) ∈ t.

(** It accepted them, for the new key, at an index of the log. *)
Definition accepted (r : ManagedKeyRotationResult) (t : list event) : Prop :=
  exists s n, mr_submission r = Some s /\ sr_state s = accepted_state /\ submitted r s t
    /\ sr_entryHash s = Some (sha256Hex (mr_entryBytes r)) /\ sr_keyId s = Some (mr_newKid r)
    /\ sr_index s = JNumber n /\ sr_logRef s = Some (mr_logReference r ++ [64] ++ number_toString n).

Definition bound_key (r : ManagedKeyRotationResult) (key : jwk) : Prop :=
  assertKeyBinding key (JString (mr_newKid r)) (mr_newThumbprint r) = Ok tt.

(** A verified publication serves the new key, and the log holds the signed event. *)
Definition published (r : ManagedKeyRotationResult) (t : list event) : Prop :=
  exists v key ref ev prepared,
    EVerifyPublication (Ok v) ∈ t /\ vi_domain v = mr_domain r /\ lr (vi_record v) = mr_logReference r
    /\ currentOperationalSigningKey (vi_jwks v) = Ok key /\ bound_key r key
    /\ mr_submission r ≫= sr_logRef = Some ref /\ EReadEvent ref (Ok ev) ∈ t
    /\ saved_event r = Ok prepared /\ continuity_mismatch r (pe_envelope prepared) ev = Ok false.

(** A provider answered with the new key as its active key. *)
Definition switched (r : ManagedKeyRotationResult) (t : list event) : Prop :=
  exists p key, ESigningKey p (Ok key) ∈ t /\ bound_key r key.

(** The last word on application signing. *)
Definition last_pause (t : list event) : option (bool * res unit) :=
  foldl (fun acc e => match e with EPause b r => Some (b, r) | _ => acc end) None t.
Definition paused (t : list event) : Prop := last_pause t = Some (true, Ok tt).

(** What may be saved: submissions are those of the registry, an activation is earned. *)
Definition truthful (t : list event) (r : ManagedKeyRotationResult) : Prop :=
  (forall s, mr_submission r = Some s -> submitted r s t)
  /\ (mr_activated r = true -> accepted r t /\ published r t /\ switched r t)
  /\ (mr_activated r = false -> mr_applicationSigningPaused r = true).

Definition activation_saved (r : ManagedKeyRotationResult) (t : list event) : Prop :=
  exists r' a, EPersist r' a ∈ t /\ operation r' = operation r /\ mr_activated r' = true.

(** ** The calls that are allowed

    The bytes are durable and signing is paused before they are submitted; the acceptance is
    durable and the publication verified before the new key is activated; the old key is
    superseded after that; the application signs again only after the activation was saved
    and its signer was set to the key that the provider has just shown. *)
Definition allowed (t : list event) (e : event) : Prop :=
  match e with
  | ESubmit d b k _ =>
      paused t /\ exists r, EPersist r (Ok tt) ∈ t /\ d = mr_domain r /\ b = mr_entryBytes r /\ k = mr_idempotencyKey r
  | EPersist r _ => truthful t r /\ forall r' a, EPersist r' a ∈ t -> operation r' = operation r
  | EActivate _ kid _ =>
      paused t /\ exists r, EPersist r (Ok tt) ∈ t /\ kid = mr_newKid r /\ accepted r t /\ published r t
  | ESupersede _ kid _ =>
      paused t /\ exists r, kid = mr_previousKid r /\ accepted r t /\ published r t /\ switched r t
  | ESetSigner p kid _ =>
      exists r key, activation_saved r t /\ truthful t r /\ mr_activated r = true /\ kid = mr_newKid r
        /\ last t = Some (ESigningKey p (Ok key)) /\ bound_key r key
  | EPause false _ =>
      exists r p, activation_saved r t /\ truthful t r /\ mr_activated r = true
        /\ last t = Some (ESetSigner p (mr_newKid r) (Ok tt))
  | _ => True
  end.
Notation valid := (all_allowed allowed).

(** Calls that only ask. *)
Definition quiet (e : event) : Prop :=
  match e with
  | ESubmit _ _ _ _ | EPersist _ _ | EActivate _ _ _ | ESupersede _ _ _ | ESetSigner _ _ _ | EPause _ _ => False
  | _ => True
  end.
Definition calm (t t' : list event) : Prop := exists q, t' = t ++ q /\ Forall quiet q.

Lemma calm_refl t : calm t t.
Proof. exists []. by rewrite app_nil_r. Qed.
Lemma calm_trans t1 t2 t3 : calm t1 t2 -> calm t2 t3 -> calm t1 t3.
Proof. intros (q & -> & Hq) (q' & -> & Hq'). exists (q ++ q'). by rewrite app_assoc, Forall_app. Qed.
Lemma calm_snoc t e : quiet e -> calm t (t ++ [e]).
Proof. intros H. exists [e]. split; [done|by constructor]. Qed.
Lemma calm_prefix t t' : calm t t' -> t `prefix_of` t'.
Proof. intros (q & -> & _). by eexists. Qed.

Lemma last_pause_snoc t e : last_pause (t ++ [e]) = match e with EPause b r => Some (b, r) | _ => last_pause t end.
Proof. unfold last_pause. by rewrite foldl_app. Qed.

Lemma calm_facts t t' : calm t t' -> (valid t -> valid t') /\ (paused t -> paused t')
  /\ (forall r a, EPersist r a ∈ t' -> EPersist r a ∈ t).
Proof.
  intros (q & -> & Hq). induction q as [|e q IH] using rev_ind; [by rewrite app_nil_r|].
  apply Forall_app in Hq as [Hq [He _]%Forall_cons]. destruct (IH Hq) as (H1 & H2 & H3).
  rewrite app_assoc. split_and!.
  - intros H. apply all_allowed_snoc. split; [by apply H1|]. by destruct e.
  - unfold paused in *. rewrite last_pause_snoc. destruct e; try done; by apply H2.
  - intros r a Hin. apply elem_of_app in Hin as [Hin|Hin]; [by apply H3|]. apply list_elem_of_singleton in Hin. by subst e.
Qed.

(** What was shown stays shown. *)
Lemma in_prefix (t t' : list event) e : t `prefix_of` t' -> e ∈ t -> e ∈ t'.
Proof. intros [q ->] H. apply elem_of_app. by left. Qed.
Lemma submitted_mono r s t t' : t `prefix_of` t' -> submitted r s t -> submitted r s t'.
Proof. intros H. by apply in_prefix. Qed.
Lemma accepted_mono r t t' : t `prefix_of` t' -> accepted r t -> accepted r t'.
Proof. intros H (s & n & ? & ? & Hs & ?). exists s, n. split_and!; try done; [by eapply submitted_mono|naive_solver..]. Qed.
Lemma published_mono r t t' : t `prefix_of` t' -> published r t -> published r t'.
Proof.
  intros H (v & key & ref & ev & p & Hv & ? & ? & ? & ? & ? & He & ? & ?). exists v, key, ref, ev, p.
  split_and!; try done; by eapply in_prefix.
Qed.
Lemma switched_mono r t t' : t `prefix_of` t' -> switched r t -> switched r t'.
Proof. intros H (p & key & Hk & ?). exists p, key. split; [by eapply in_prefix|done]. Qed.
Lemma truthful_mono t t' r : t `prefix_of` t' -> truthful t r -> truthful t' r.
Proof.
  intros H (Hs & Ha & Hp). split_and!; [intros s E; by eapply submitted_mono, Hs| |done].
  intros E. destruct (Ha E) as (? & ? & ?).
  split_and!; [by eapply accepted_mono|by eapply published_mono|by eapply switched_mono].
Qed.
Lemma activation_saved_mono r t t' : t `prefix_of` t' -> activation_saved r t -> activation_saved r t'.
Proof. intros H (r' & a & Hin & ?). exists r', a. split; [by eapply in_prefix|done]. Qed.

(** ** Computations that only ask *)

Context (env : Environment).

Definition plain_failure {A} (o : outcome rotation_error A) : Prop :=
  match o with Raises e => exists x, e = RotationExn x | Returns _ => True end.
Definition calms {A} (m : run A) : Prop := forall t, wp m t (fun o t' => calm t t' /\ plain_failure o).

Lemma calms_ret {A} (a : A) : calms (mret a).
Proof. intros t. apply wp_ret. split; [apply calm_refl|done]. Qed.
Lemma calms_lift {A} (r : res A) : calms (lift r).
Proof. intros t. apply wp_pure; intros; (split; [apply calm_refl|]); [done|by eexists]. Qed.
Lemma calms_check b m : calms (check b m).
Proof. apply calms_lift. Qed.
Lemma calms_bind {A B} (m : run A) (f : A -> run B) : calms m -> (forall a, calms (f a)) -> calms (m ≫= f).
Proof.
  intros Hm Hf t. apply wp_bind. eapply wp_mono; [apply Hm|]. intros [a|e] t' [Hc Hp]; [|done].
  eapply wp_mono; [apply Hf|]. intros o t'' [Hc' Hp']. split; [by eapply calm_trans|done].
Qed.
Lemma calms_ask {A} (answer : list event -> res A) log : (forall r, quiet (log r)) -> calms (ask answer log).
Proof.
  intros H t. apply wp_ask. intros r. split; [by apply calm_snoc|]. destruct r; [done|by eexists].
Qed.
Lemma calms_try {A} (m : run A) h : calms m -> (forall e, calms (h e)) -> calms (try_with m h).
Proof.
  intros Hm Hh t. apply wp_try. eapply wp_mono; [apply Hm|]. intros [a|e] t' [Hc Hp]; [done|].
  eapply wp_mono; [apply Hh|]. intros o t'' [Hc' Hp']. split; [by eapply calm_trans|done].
Qed.

Ltac calm_step :=
  lazymatch goal with
  | |- calms (mret _) => apply calms_ret
  | |- calms (lift _) => apply calms_lift
  | |- calms (check _ _) => apply calms_check
  | |- calms (ask _ _) => apply calms_ask; done
  | |- calms (_ ≫= _) => apply calms_bind; [|intros ?]
  | |- calms (try_with _ _) => apply calms_try; [|intros ?]
  | |- calms (match ?x with _ => _ end) => destruct x
  | |- calms (let '_ := ?x in _) => destruct x
  end.
Ltac calm_auto := repeat calm_step.

Lemma wp_quiet {A} (m : run A) t (Q : outcome rotation_error A -> list event -> Prop) : calms m ->
  (forall o t', calm t t' -> plain_failure o -> Q o t') -> wp m t Q.
Proof. intros Hm HQ. eapply wp_mono; [apply Hm|]. intros o t' [Hc Hf]. by apply HQ. Qed.

Lemma activeKey_calms p ids : calms (activeKey env p ids).
Proof. unfold activeKey, signingKey. calm_auto. Qed.
Lemma validateSavedRotation_calms r p q : calms (validateSavedRotation env r p q).
Proof.
  unfold validateSavedRotation, listKeyIds, jwk_of, signingKey. cbv zeta. calm_auto; apply activeKey_calms.
Qed.
Lemma assertSourceInactive_calms p q : calms (assertSourceInactive env p q).
Proof. unfold assertSourceInactive, listKeyIds. calm_auto. apply activeKey_calms. Qed.
Lemma generate_target_calms p a h : calms (generate_target env p a h).
Proof. unfold generate_target, signingKey, jwk_of. calm_auto. Qed.
Lemma signed_rotation_calms o d k k' h p : calms (signed_rotation env o d k k' h p).
Proof. unfold signed_rotation, sign_prepared. cbv zeta. calm_auto. Qed.

(** The publication is evidence once it passed. *)
Lemma verifyAcceptedPublication_spec r t :
  wp (verifyAcceptedPublication env r) t
    (fun o t' => calm t t' /\ plain_failure o /\ match o with Returns _ => published r t' | Raises _ => True end).
Proof.
  unfold verifyAcceptedPublication, check, lift.
  assert (HF : forall (o : outcome rotation_error unit) t', calm t t' -> plain_failure o ->
            match o with Returns _ => False | Raises _ => True end ->
            calm t t' /\ plain_failure o /\ match o with Returns _ => published r t' | Raises _ => True end)
    by (intros [[]|] t' ???; done).
  apply wp_bind, wp_ask. intros [v|e]; [|apply HF; [by apply calm_snoc|by eexists|done]].
  assert (H1 : calm t (t ++ [EVerifyPublication (Ok v)])) by (by apply calm_snoc).
  apply wp_bind, wp_pure; [|intros e _; apply HF; [done|by eexists|done]]. intros [] [Hd%negb_false_iff Hl%negb_false_iff]%throw_if_Ok%orb_false_iff.
  apply bool_decide_eq_true in Hd, Hl.
  apply wp_bind, wp_pure; [|intros e _; apply HF; [done|by eexists|done]]. intros key Hk.
  apply wp_bind, wp_pure; [|intros e _; apply HF; [done|by eexists|done]]. intros [] Hb.
  apply wp_bind, wp_pure; [|intros e _; apply HF; [done|by eexists|done]]. intros p Hp.
  apply wp_bind, wp_pure; [|intros e _; apply HF; [done|by eexists|done]]. intros ref Hr%of_option_Ok.
  apply wp_bind, wp_ask. set (t2 := t ++ [EVerifyPublication (Ok v)]) in *. intros a.
  assert (H2 : calm t (t2 ++ [EReadEvent ref a])) by (eapply calm_trans; [exact H1|by apply calm_snoc]).
  destruct a as [ev|e]; [|apply HF; [done|by eexists|done]].
  apply wp_bind, wp_pure; [|intros e _; apply HF; [done|by eexists|done]]. intros m Hm.
  apply wp_pure; [|intros e _; apply HF; [done|by eexists|done]]. intros [] Hf%throw_if_Ok. subst m.
  split; [done|]. split; [done|]. exists v, key, ref, ev, p.
  split_and!; try done.
  - apply elem_of_app. left. apply elem_of_app. right. by left.
  - apply elem_of_app. right. by left.
Qed.

(** ** Steps under a pause *)

(** Between two saves: only allowed calls, and signing stays paused. *)
Definition advances (t t' : list event) : Prop :=
  t `prefix_of` t' /\ valid t' /\ paused t' /\ (forall r a, EPersist r a ∈ t' -> EPersist r a ∈ t).

Lemma advances_calm t t' : valid t -> paused t -> calm t t' -> advances t t'.
Proof. intros Hv Hp Hc. destruct (calm_facts _ _ Hc) as (H1 & H2 & H3). split_and!; auto using calm_prefix. Qed.
Lemma advances_trans t1 t2 t3 : advances t1 t2 -> advances t2 t3 -> advances t1 t3.
Proof. intros (? & ? & ? & H) (? & ? & ? & H'). split_and!; try done; [by etrans|auto]. Qed.
Lemma advances_snoc t e : valid t -> paused t -> allowed t e ->
  match e with EPause _ _ | EPersist _ _ => False | _ => True end -> advances t (t ++ [e]).
Proof.
  intros Hv Hp Ha He. split_and!; [by eexists|by apply all_allowed_snoc| |].
  - unfold paused. rewrite last_pause_snoc. by destruct e.
  - intros r a Hin. apply elem_of_app in Hin as [Hin|Hin]; [done|]. apply list_elem_of_singleton in Hin. by subst e.
Qed.

Lemma wp_calms {A} (m : run A) t (Q : outcome rotation_error A -> list event -> Prop) : calms m -> valid t -> paused t ->
  (forall o t', advances t t' -> plain_failure o -> Q o t') -> wp m t Q.
Proof.
  intros Hm Hv Hp HQ. eapply wp_mono; [apply Hm|]. intros o t' [Hc Hf]. apply HQ; [by apply advances_calm|done].
Qed.

Lemma reconcileAcceptedRotation_spec p q r t :
  valid t -> paused t -> accepted r t -> published r t -> EPersist r (Ok tt) ∈ t ->
  wp (reconcileAcceptedRotation env p q r) t (fun o t' => advances t t' /\ plain_failure o
    /\ match o with Returns _ => switched r t' | Raises _ => True end).
Proof.
  intros Hv Hp Ha Hpub Hsave. unfold reconcileAcceptedRotation, activate, supersede, signingKey, listKeyIds.
  apply wp_bind, wp_ask. intros a. set (t1 := t ++ [ESigningKey q a]).
  assert (H1 : advances t t1) by (by apply advances_calm; [..|apply calm_snoc]).
  destruct a as [active|e]; [|split; [done|by split; [eexists|]]].
  apply wp_bind.
  apply (wp_mono _ _ (fun o t' => advances t t' /\ plain_failure o)).
  { destruct (negb _); [|apply wp_ret; by split].
    apply wp_bind. apply (wp_mono _ _ (fun o t' => t' = t1 /\ plain_failure o)).
    { destruct (_ =? _)%nat; [|by apply wp_ret]. apply wp_pure; intros; (split; [done|]); [done|by eexists]. }
    intros [[]|e] t' [-> Hf]; [|by split].
    apply wp_ask. intros a. split; [|destruct a; [done|by eexists]].
    eapply advances_trans; [exact H1|]. destruct H1 as (Hpre & Hv1 & Hp1 & _). apply advances_snoc; [done|done| |done].
    split; [done|]. exists r. split_and!; [by eapply in_prefix|done|by eapply accepted_mono|by eapply published_mono]. }
  intros [[]|e] t2 [H2 Hf2]; [|done]. clear t1 H1. destruct H2 as (Hpre2 & Hv2 & Hp2 & Hs2).
  apply wp_bind, wp_ask. intros a. set (t3 := t2 ++ [ESigningKey q a]).
  assert (H3 : advances t t3).
  { eapply advances_trans; [split_and!; done|]. by apply advances_calm; [..|apply calm_snoc]. }
  destruct a as [key|e]; [|split; [done|by split; [eexists|]]].
  apply wp_bind, wp_pure; [|intros e _; split; [done|by split; [eexists|]]]. intros [] Hb.
  assert (Hsw : switched r t3).
  { exists q, key. split; [|done]. apply elem_of_app. right. by left. }
  apply wp_bind, wp_ask. intros a. set (t4 := t3 ++ [EListKeyIds p a]).
  assert (H4 : advances t t4).
  { eapply advances_trans; [exact H3|]. destruct H3 as (_ & ? & ? & _). by apply advances_calm; [..|apply calm_snoc]. }
  assert (Hsw4 : switched r t4) by (eapply switched_mono; [by eexists|exact Hsw]).
  destruct a as [ids|e]; [|split; [done|by split; [eexists|]]].
  destruct (includes_kid _ _); [|by apply wp_ret].
  destruct H4 as (Hpre4 & Hv4 & Hp4 & Hs4).
  apply wp_ask. intros a. assert (H5 : advances t (t4 ++ [ESupersede p (mr_previousKid r) a])).
  { eapply advances_trans; [split_and!; done|]. apply advances_snoc; [done|done| |done]. split; [done|]. exists r.
    split_and!; [done|by eapply accepted_mono|by eapply published_mono|done]. }
  split; [done|]. split; [destruct a; [done|by eexists]|].
  destruct a; [|done]. eapply switched_mono; [by eexists|exact Hsw4].
Qed.

(** ** Whole runs *)

(** The state that a result hands to the operator. *)
Definition carried (o : outcome rotation_error ManagedKeyRotationResult) : option ManagedKeyRotationResult :=
  match o with
  | Returns r => Some r
  | Raises (ManagedKeyRotationSubmissionError _ r _) => Some r
  | Raises (ManagedKeyRotationActivationError _ r) => Some r
  | Raises (RotationExn _) => None
  end.

(** A state that an operator may hold. *)
Definition held_ok (t : list event) (r : ManagedKeyRotationResult) : Prop :=
  truthful t r /\ (mr_activated r = true -> activation_saved r t).
Definition all_same (r : ManagedKeyRotationResult) (t : list event) : Prop :=
  forall r' a, EPersist r' a ∈ t -> operation r' = operation r.
Definition sound (r : ManagedKeyRotationResult) (t t' : list event) : Prop :=
  t `prefix_of` t' /\ valid t' /\ all_same r t'.

Lemma held_ok_mono t t' r : t `prefix_of` t' -> held_ok t r -> held_ok t' r.
Proof.
  intros H [Ht Ha]. split; [by eapply truthful_mono|]. intros E. by eapply activation_saved_mono, Ha.
Qed.
Lemma sound_refl r t : valid t -> all_same r t -> sound r t t.
Proof. by split. Qed.
Lemma sound_trans r t1 t2 t3 : sound r t1 t2 -> sound r t2 t3 -> sound r t1 t3.
Proof. intros (? & _) (? & ? & ?). split_and!; try done. by etrans. Qed.
Lemma sound_advances r t t' : all_same r t -> advances t t' -> sound r t t'.
Proof. intros Hs (? & ? & _ & H). split_and!; try done. intros r' a Hin. by eapply Hs, H. Qed.
Lemma sound_calm r t t' : valid t -> all_same r t -> calm t t' -> sound r t t'.
Proof.
  intros Hv Hs Hc. destruct (calm_facts _ _ Hc) as (H1 & _ & H3). split_and!; [by apply calm_prefix|auto|].
  intros r' a Hin. by eapply Hs, H3.
Qed.
Lemma sound_snoc r t e : valid t -> all_same r t -> allowed t e ->
  (forall r' a, e = EPersist r' a -> operation r' = operation r) -> sound r t (t ++ [e]).
Proof.
  intros Hv Hs Ha He. split_and!; [by eexists|by apply all_allowed_snoc|].
  intros r' a Hin. apply elem_of_app in Hin as [Hin|Hin]; [by eapply Hs|].
  apply list_elem_of_singleton in Hin. by eapply He.
Qed.

(** Saving a state of the operation. *)
Lemma wp_persist r r' t (Q : outcome rotation_error unit -> list event -> Prop) :
  valid t -> all_same r t -> operation r' = operation r -> truthful t r' ->
  (forall a, sound r t (t ++ [EPersist r' a]) ->
     Q (match a with Ok u => Returns u | Throw e => Raises (RotationExn e) end) (t ++ [EPersist r' a])) ->
  wp (persistRotation env r') t Q.
Proof.
  intros Hv Hs Ho Ht HQ. apply wp_ask. intros a. apply HQ. apply sound_snoc; [done|done| |by intros ?? [= -> _]].
  split; [done|]. intros r'' b Hin. rewrite Ho. by eapply Hs.
Qed.

Lemma restore_signer_spec r q t : valid t -> all_same r t -> held_ok t r -> mr_activated r = true ->
  wp (restore_signer env q r) t (fun o t' => sound r t t' /\ plain_failure o
    /\ match o with Returns _ => last t' = Some (ESetSigner q (mr_newKid r) (Ok tt)) | Raises _ => True end).
Proof.
  intros Hv Hs Hh Ha. unfold restore_signer, signingKey, setApplicationSigner.
  apply wp_bind, wp_ask. intros a.
  assert (H1 : sound r t (t ++ [ESigningKey q a])) by (by apply sound_calm; [..|apply calm_snoc]).
  destruct a as [key|e]; [|split; [done|by split; [eexists|]]].
  apply wp_bind, wp_pure; [|intros e _; split; [done|by split; [eexists|]]]. intros [] Hb.
  set (t1 := t ++ [ESigningKey q (Ok key)]) in *. destruct H1 as (Hp1 & Hv1 & Hs1).
  apply wp_ask. intros a. split; [eapply sound_trans; [split_and!; done|]|].
  - apply sound_snoc; [done|done| |done]. exists r, key. destruct (held_ok_mono _ _ _ Hp1 Hh) as [Ht1 Hsv].
    split_and!; [by apply Hsv|done|done|done|by unfold t1; rewrite last_snoc|done].
  - destruct a as [[]|e]; [|by split; [eexists|]]. split; [done|]. by rewrite last_snoc.
Qed.

Lemma resume_signing_spec r q t : valid t -> all_same r t -> held_ok t r -> mr_activated r = true ->
  last t = Some (ESetSigner q (mr_newKid r) (Ok tt)) ->
  wp (resume_signing env r) t (fun o t' => sound r t t' /\ plain_failure o
    /\ match o with Returns r' => operation r' = operation r /\ held_ok t' r' | Raises _ => True end).
Proof.
  intros Hv Hs Hh Ha Hl. unfold resume_signing, setApplicationSigningPaused.
  apply wp_bind, wp_ask. intros a.
  assert (H1 : sound r t (t ++ [EPause false a])).
  { apply sound_snoc; [done|done| |done]. exists r, q. destruct Hh as [? Hsv]. split_and!; auto. }
  destruct a as [u|e]; [|split; [done|by split; [eexists|]]].
  set (t1 := t ++ [EPause false (Ok u)]) in *. cbv zeta. apply wp_bind.
  destruct (held_ok_mono _ _ _ (proj1 H1) Hh) as [(Hts & Hta & Htp) Hsv].
  assert (Htr : truthful t1 (with_flags r (mr_activated r) false)).
  { split_and!; [exact Hts|exact Hta|]. cbn. by rewrite Ha. }
  destruct H1 as (Hp1 & Hv1 & Hs1).
  apply (wp_persist r); [done|done|done|exact Htr|]. intros a H2.
  assert (H3 : sound r t (t1 ++ [EPersist (with_flags r (mr_activated r) false) a]))
    by (eapply sound_trans; [split_and!; done|exact H2]).
  destruct a as [u'|e]; [|split; [done|by split; [eexists|]]].
  apply wp_ret. split; [done|]. split; [done|]. split; [done|]. split.
  - eapply truthful_mono; [apply H2|exact Htr].
  - intros _. eapply activation_saved_mono; [apply H2|]. exact (Hsv Ha).
Qed.

Definition good (r : ManagedKeyRotationResult) (t : list event) (o : outcome rotation_error ManagedKeyRotationResult)
    (t' : list event) : Prop :=
  sound r t t' /\ forall r', carried o = Some r' -> operation r' = operation r /\ held_ok t' r'.

Lemma good_trans r t1 t2 o t3 : sound r t1 t2 -> good r t2 o t3 -> good r t1 o t3.
Proof. intros H [H1 H2]. split; [by eapply sound_trans|done]. Qed.
Lemma good_raise r r' t t' e : sound r t t' -> carried (Raises e) = Some r' -> operation r' = operation r ->
  held_ok t r' -> good r t (Raises e) t'.
Proof.
  intros Hs He Ho Hh. split; [done|]. intros r'' E. rewrite He in E. injection E as <-.
  split; [done|]. eapply held_ok_mono; [apply Hs|done].
Qed.

(** The application's signer is restored and it signs again. *)
Lemma restore_and_resume_spec (h : rotation_error -> run ManagedKeyRotationResult) r q t :
  valid t -> all_same r t -> held_ok t r -> mr_activated r = true ->
  (forall e t', sound r t t' -> wp (h e) t' (good r t)) ->
  wp (try_with (restore_signer env q r;; resume_signing env r) h) t (good r t).
Proof.
  intros Hv Hs Hh Ha He. apply wp_try, wp_bind. eapply wp_mono; [by apply restore_signer_spec|].
  intros [[]|e] t1 (H1 & _ & Hl); [|by apply He]. destruct H1 as (Hp1 & Hv1 & Hs1).
  eapply wp_mono; [apply (resume_signing_spec r q); try done; by eapply held_ok_mono|].
  intros [r'|e] t2 (H2 & _ & Hr); (assert (H3 : sound r t t2) by (eapply sound_trans; [split_and!; done|done])); [|by apply He].
  split; [done|]. intros ? [= <-]. done.
Qed.

Lemma activateRotation_spec p q r t : valid t -> paused t -> all_same r t -> held_ok t r -> accepted r t ->
  EPersist r (Ok tt) ∈ t -> wp (activateRotation env p q r) t (good r t).
Proof.
  intros Hv Hp Hs Hh Ha Hsave. unfold activateRotation. cbv zeta. set (r2 := with_flags r true true).
  apply wp_bind. apply (wp_mono _ _ (fun o t' => sound r t t' /\ match o with
      | Returns _ => held_ok t' r2
      | Raises e => carried (Raises e) = Some r
      end)).
  - apply wp_try, wp_bind.
    assert (HE : forall e t', sound r t t' -> wp (activation_incomplete r (A := unit) e) t' (fun o t' => sound r t t' /\ match o with
      | Returns _ => held_ok t' r2 | Raises e => carried (Raises e) = Some r end)) by (intros; by apply wp_raise).
    eapply wp_mono; [apply verifyAcceptedPublication_spec|].
    intros [[]|e] t1 (Hc1 & _ & Hpub); [|by apply HE, sound_calm].
    pose proof (advances_calm _ _ Hv Hp Hc1) as H1. destruct H1 as (Hpre1 & Hv1 & Hp1 & Hs1).
    apply wp_bind. eapply wp_mono;
      [apply reconcileAcceptedRotation_spec; [done|done|by eapply accepted_mono|done|by eapply in_prefix]|].
    intros [[]|e] t2 (H2 & _ & Hsw); (assert (H2' : advances t t2) by (eapply advances_trans; [split_and!; done|done]));
      [|by apply HE, sound_advances].
    destruct H2' as (Hpre2 & Hv2 & Hp2 & Hs2). apply wp_bind. apply wp_calms; [apply assertSourceInactive_calms|done|done|].
    intros [[]|e] t3 H3 _; (assert (H3' : advances t t3) by (eapply advances_trans; [split_and!; done|done]));
      [|by apply HE, sound_advances].
    pose proof (sound_advances _ _ _ Hs H3') as Hsd. destruct H3' as (Hpre3 & Hv3 & Hp3 & Hs3).
    assert (Htr : truthful t3 r2).
    { split_and!; [|intros _|done].
      - destruct Hh as [[Hsub _] _]. intros s E. exact (submitted_mono _ _ _ _ Hpre3 (Hsub s E)).
      - split_and!; [exact (accepted_mono _ _ _ Hpre3 Ha)| |].
        + eapply published_mono; [|exact Hpub]. etrans; [apply H2|apply H3].
        + eapply switched_mono; [apply H3|exact Hsw]. }
    apply (wp_persist r); [done|apply Hsd|done|done|]. intros a H4.
    assert (H5 : sound r t (t3 ++ [EPersist r2 a])) by (by eapply sound_trans).
    destruct a as [u|e]; [|by apply HE]. split; [done|]. split.
    + eapply truthful_mono; [apply H4|done].
    + intros _. exists r2, (Ok u). split; [apply elem_of_app; right; by left|done].
  - intros [u|e] t1 [H1 Hr].
    + destruct H1 as (Hpre1 & Hv1 & Hs1).
      eapply wp_mono; [apply (restore_and_resume_spec _ r2); [done|exact Hs1|done|done|]|].
      * intros e t' H'. apply wp_raise. eapply good_raise; [exact H'|done|done|done].
      * intros o t' Hg. eapply good_trans; [split_and!; done|exact Hg].
    + eapply good_raise; [done|exact Hr|done|done].
Qed.

Lemma restoreActivatedRotation_spec p q r t : valid t -> all_same r t -> held_ok t r -> mr_activated r = true ->
  wp (restoreActivatedRotation env p q r) t (good r t).
Proof.
  intros Hv Hs Hh Ha. unfold restoreActivatedRotation.
  apply wp_try, wp_bind. eapply wp_mono; [apply assertSourceInactive_calms|].
  intros [[]|e] t1 [Hc _]; (assert (H1 : sound r t t1) by (by apply sound_calm)).
  2: { apply wp_raise. by eapply good_raise. }
  apply wp_bind. destruct H1 as (Hpre1 & Hv1 & Hs1).
  eapply wp_mono; [apply restore_signer_spec; try done; by eapply held_ok_mono|].
  intros [[]|e] t2 (H2 & _ & Hl); (assert (H2' : sound r t t2) by (eapply sound_trans; [split_and!; done|done])).
  2: { apply wp_raise. by eapply good_raise. }
  destruct H2' as (Hpre2 & Hv2 & Hs2). destruct (negb _).
  - apply wp_ret. split; [split_and!; done|]. intros ? [= <-]. split; [done|by eapply held_ok_mono].
  - eapply wp_mono; [apply (resume_signing_spec r q); try done; by eapply held_ok_mono|].
    intros [r'|e] t3 (H3 & _ & Hr); (assert (H3' : sound r t t3) by (eapply sound_trans; [split_and!; done|done])).
    + split; [done|]. by intros ? [= <-].
    + apply wp_raise. by eapply good_raise.
Qed.

(** What the check of an accepted submission establishes. *)
Lemma accepted_of_check r r' s t : operation r' = operation r -> mr_submission r' = Some s ->
  sr_state s = accepted_state -> submitted r s t -> assertSubmissionMatchesRotation r s = Ok tt -> accepted r' t.
Proof.
  intros Ho Hr Hst Hsub H. apply bind_Ok in H as (? & _ & H). apply bind_Ok in H as (? & _ & H).
  rewrite bool_decide_eq_true_2 in H by done. cbn [negb] in H.
  apply bind_Ok in H as (? & Hh%throw_if_Ok & H). apply bind_Ok in H as (? & Hi%throw_if_Ok & Hk%throw_if_Ok).
  apply negb_false_iff in Hh, Hi, Hk. apply bool_decide_eq_true in Hh, Hk.
  destruct (sr_index s) as [| | |n| | |] eqn:Ei; try done. apply andb_true_iff in Hi as [Hi _].
  apply bool_decide_eq_true in Hi. unfold accepted, submitted in *.
  pose proof (f_equal mr_domain Ho) as E1. pose proof (f_equal mr_entryBytes Ho) as E2.
  pose proof (f_equal mr_idempotencyKey Ho) as E3. pose proof (f_equal mr_newKid Ho) as E4.
  pose proof (f_equal mr_logReference Ho) as E5. cbn in E1, E2, E3, E4, E5. rewrite E1, E2, E3, E4, E5.
  by exists s, n.
Qed.

Lemma submitManagedRotation_spec p q r t : valid t -> paused t -> all_same r t -> held_ok t r ->
  mr_activated r = false -> EPersist r (Ok tt) ∈ t -> wp (submitManagedRotation env p q r) t (good r t).
Proof.
  intros Hv Hp Hs Hh Ha Hsave. unfold submitManagedRotation. apply wp_bind, wp_call. intros answer.
  set (t1 := t ++ [ESubmit (mr_domain r) (mr_entryBytes r) (mr_idempotencyKey r) answer]).
  assert (H1 : advances t t1) by (apply advances_snoc; [done|done|split; [done|by exists r]|done]).
  destruct answer as [s|cause].
  2: { apply wp_raise. eapply good_raise; [by apply sound_advances|done|done|done]. }
  pose proof (sound_advances _ _ _ Hs H1) as Hsd1. destruct H1 as (Hpre1 & Hv1 & Hp1 & Hs1).
  set (next := with_submission r s).
  assert (Hsub : submitted r s t1) by (apply elem_of_app; right; by left).
  assert (Htr : truthful t1 next).
  { split_and!; [by intros ? [= <-]|cbn; by rewrite Ha|]. destruct Hh as [(_ & _ & H) _]. exact H. }
  assert (Hh1 : held_ok t1 next) by (split; [done|]; cbn; by rewrite Ha).
  cbv zeta. apply wp_bind. apply (wp_mono _ _ (fun o t' => match o with
      | Returns _ => t' = t1 ++ [EPersist next (Ok tt)] /\ sound r t1 t' /\ assertSubmissionMatchesRotation r s = Ok tt
      | Raises e => sound r t1 t' /\ carried (Raises e) = Some next
      end)).
  - apply wp_try, wp_bind, wp_pure.
    2: { intros e _. apply wp_raise. split; [apply sound_refl; [done|apply Hsd1]|done]. }
    intros [] Hm. apply (wp_persist r); [done|apply Hsd1|done|done|].
    intros [[]|e] H2; [done|]. by apply wp_raise.
  - intros [[]|e] t2 H; [destruct H as (-> & H2 & Hm)|destruct H as [H2 He]].
    2: { eapply good_trans; [exact Hsd1|]. by eapply good_raise. }
    apply (wp_mono _ _ (good r (t1 ++ [EPersist next (Ok tt)])));
      [|intros o t' Hg; eapply good_trans; [|exact Hg]; by eapply sound_trans].
    destruct H2 as (Hpre2 & Hv2 & Hs2). pose proof (held_ok_mono _ _ _ Hpre2 Hh1) as Hh2.
    destruct (sr_state s) eqn:Est.
    + apply wp_ret. split; [by apply sound_refl|]. by intros ? [= <-].
    + eapply wp_mono; [apply activateRotation_spec; [done| |exact Hs2|done| |apply elem_of_app; right; by left]|done].
      * unfold paused. rewrite last_pause_snoc. exact Hp1.
      * apply (accepted_of_check r next s); [done|done|done|by eapply submitted_mono|done].
    + apply wp_raise. eapply good_raise; [by apply sound_refl|done|done|done].
Qed.

Lemma recovery_good r r' t (o : outcome rotation_error ManagedKeyRotationResult) t' :
  operation r' = operation r -> held_ok t' r' -> good r t o t' ->
  match o with Returns a => good r t (Returns a) t' | Raises e => wp (recovery_failed r' e) t' (good r t) end.
Proof.
  intros Ho Hh Hg. destruct o as [a|e]; [done|]. destruct e; cbn; apply wp_raise; [|done..].
  split; [apply Hg|]. by intros ? [= <-].
Qed.

(** A resumption of any state that an operator may hold. *)
Lemma resume_spec r t : valid t -> all_same r t -> held_ok t r ->
  wp (resumeManagedOperationalKeyRotation env r) t (good r t).
Proof.
  intros Hv Hs Hh. unfold resumeManagedOperationalKeyRotation.
  apply wp_bind, wp_try, wp_quiet; [unfold resolveKeyProvider; calm_auto; apply validateSavedRotation_calms|].
  intros [[p q]|e] t1 Hc Hf; pose proof (sound_calm _ _ _ Hv Hs Hc) as H1; cbn beta iota.
  2: { destruct Hf as [x ->]. apply wp_raise. by eapply good_raise. }
  apply (wp_mono _ _ (good r t1)); [|intros o t' Hg; by eapply good_trans].
  destruct H1 as (Hpre1 & Hv1 & Hs1). pose proof (held_ok_mono _ _ _ Hpre1 Hh) as Hh1. clear t Hc Hf Hpre1 Hv Hs Hh.
  destruct (mr_activated r) eqn:Ea; [|destruct (is_rejected r)].
  - apply wp_try. apply (wp_mono _ _ (good r t1)).
    2: { intros o t' Hg. apply recovery_good; [done| |done]. eapply held_ok_mono; [apply Hg|done]. }
    apply wp_bind, wp_quiet; [calm_auto|]. intros [[]|e] t2 Hc Hf; pose proof (sound_calm _ _ _ Hv1 Hs1 Hc) as H2.
    2: { destruct Hf as [x ->]. split; [done|]. by intros ?. }
    eapply wp_mono; [apply restoreActivatedRotation_spec; [apply H2|apply H2|by eapply held_ok_mono; [apply H2|]|done]|].
    intros o t' Hg. by eapply good_trans.
  - apply wp_raise. by eapply good_raise; [apply sound_refl|..].
  - cbv zeta. set (r' := with_flags r false true).
    assert (Hh' : held_ok t1 r').
    { destruct Hh1 as [(H1 & H2 & H3) H4]. split; [split_and!; [exact H1|done|done]|done]. }
    apply wp_try. apply (wp_mono _ _ (good r t1)).
    2: { intros o t' Hg. apply recovery_good; [done| |done]. eapply held_ok_mono; [apply Hg|done]. }
    unfold setApplicationSigningPaused. apply wp_bind, wp_ask. intros a.
    assert (H2 : sound r t1 (t1 ++ [EPause true a])) by (by apply sound_snoc).
    destruct a as [[]|e]; [|by split]. set (t2 := t1 ++ [EPause true (Ok tt)]) in *.
    apply wp_bind. apply (wp_persist r); [apply H2|apply H2|done|eapply truthful_mono; [apply H2|apply Hh']|]. intros a H3.
    assert (H4 : sound r t1 (t2 ++ [EPersist r' a])) by (by eapply sound_trans).
    destruct a as [[]|e]; [|by split]. set (t3 := t2 ++ [EPersist r' (Ok tt)]) in *.
    assert (Hp3 : paused t3) by (unfold paused, t3, t2; by rewrite !last_pause_snoc).
    assert (Hin : EPersist r' (Ok tt) ∈ t3) by (apply elem_of_app; right; by left).
    assert (Hh3 : held_ok t3 r') by (eapply held_ok_mono; [apply H4|done]).
    apply (wp_mono _ _ (good r t3)); [|intros o t' Hg; by eapply good_trans].
    change (good r t3) with (good r' t3).
    assert (Hsubmit : wp (submitManagedRotation env p q r') t3 (good r' t3))
      by (apply submitManagedRotation_spec; [apply H4|done|apply H4|done|done|done]).
    change (mr_submission r) with (mr_submission r'). destruct (mr_submission r') as [s|] eqn:Es; [|exact Hsubmit].
    destruct (is_accepted r') eqn:Eacc; [|exact Hsubmit].
    apply wp_bind, wp_pure; [|intros e _; by split; [apply sound_refl; apply H4|]].
    intros [] Hm. unfold is_accepted in Eacc. rewrite Es in Eacc. apply bool_decide_eq_true in Eacc.
    apply activateRotation_spec; [apply H4|done|apply H4|done| |done].
    apply (accepted_of_check r' r' s); [done..|by apply (proj1 (proj1 Hh3))|done].
Qed.

(** A new rotation, on a fresh list of calls. *)
Definition started (o : outcome rotation_error ManagedKeyRotationResult) (t : list event) : Prop :=
  valid t /\ exists r, all_same r t /\ forall r', carried o = Some r' -> operation r' = operation r /\ held_ok t r'.

Lemma started_calm o t : calm [] t -> plain_failure o -> (forall r, o <> Returns r) -> started o t.
Proof.
  intros Hc Hf Ho. destruct (calm_facts _ _ Hc) as (Hv & _ & Hp). split; [by apply Hv|].
  exists (mkManaged [] [] JNull [] [] [] [] [] [] [] [] [] None false true). split.
  - intros r' a Hin. apply Hp in Hin. by apply elem_of_nil in Hin.
  - destruct o as [r|e]; [by destruct (Ho r)|]. by destruct Hf as [x ->].
Qed.

Lemma rotate_spec options : wp (rotateManagedOperationalKey env options) [] started.
Proof.
  unfold rotateManagedOperationalKey.
  assert (Hstep : forall A (m : run A) (f : A -> run ManagedKeyRotationResult) t, calms m -> calm [] t ->
            (forall a t', calm [] t' -> wp (f a) t' started) -> wp (m ≫= f) t started).
  { intros A m f t Hm Hc Hf. apply wp_bind, wp_quiet; [done|]. intros [a|e] t' Hc' Hp.
    - apply Hf. by eapply calm_trans.
    - apply started_calm; [by eapply calm_trans|done|done]. }
  apply Hstep; [calm_auto|apply calm_refl|]. intros domain t1 H1.
  apply Hstep; [calm_auto|done|]. intros _ t2 H2. cbv zeta.
  apply Hstep; [calm_auto|done|]. intros _ t3 H3.
  apply Hstep; [unfold signingKey; calm_auto|done|]. intros previousKey t4 H4.
  apply Hstep; [calm_auto|done|]. intros _ t5 H5.
  apply Hstep; [calm_auto|done|]. intros previousThumbprint t6 H6.
  apply Hstep; [calm_auto|done|]. intros _ t7 H7.
  apply Hstep; [apply generate_target_calms|done|]. intros [newKid newKey] t8 H8.
  apply Hstep; [apply signed_rotation_calms|done|]. intros entryBytes t9 H9.
  apply Hstep; [calm_auto|done|]. intros newThumbprint t H.
  set (r := mkManaged _ _ _ _ _ _ _ _ _ _ _ _ _ _ _).
  destruct (calm_facts _ _ H) as (Hv & _ & Hn). specialize (Hv (all_allowed_nil _)).
  assert (Hs : all_same r t) by (intros r' a Hin; apply Hn in Hin; by apply elem_of_nil in Hin).
  assert (Htr : truthful t r) by done. assert (Hh : held_ok t r) by done.
  assert (Hdone : forall o t', good r t o t' -> started o t').
  { intros o t' [(_ & Hv' & Hs') Hc]. split; [done|]. by exists r. }
  eapply wp_mono; [|exact Hdone]. clear Hdone H1 H2 H3 H4 H5 H6 H7 H8 H9 Hstep.
  apply wp_bind. apply (wp_mono _ _ (fun o t' => sound r t t' /\ match o with
      | Returns _ => paused t' /\ EPersist r (Ok tt) ∈ t'
      | Raises e => carried (Raises e) = Some r
      end)).
  - apply wp_try, wp_bind. apply (wp_persist r); [done|done|done|done|]. intros a H1.
    destruct a as [[]|e]; [|by apply wp_raise].
    set (t1' := t ++ [EPersist r (Ok tt)]) in *. apply wp_ask. intros a.
    assert (H2 : sound r t (t1' ++ [EPause true a]))
      by (eapply sound_trans; [exact H1|]; by apply sound_snoc; [apply H1|apply H1|..]).
    destruct a as [[]|e]; [|by apply wp_raise]. split; [done|]. split.
    + unfold paused. by rewrite last_pause_snoc.
    + apply elem_of_app. left. apply elem_of_app. right. by left.
  - intros [[]|e] t' [H1 H2].
    + apply (wp_mono _ _ (good r t')); [|intros o t'' Hg; by eapply good_trans].
      apply submitManagedRotation_spec; [apply H1|apply H2|apply H1|by eapply held_ok_mono; [apply H1|]|done|apply H2].
    + by eapply good_raise.
Qed.
End Safety.

(** ** Crashes and resumptions *)

Section History.
Context `{H256 : Hash256} `{Url : URLApi} `{Uni : Unicode} `{Jwk : JwkApi}.

Definition persisted (t : list event) : list ManagedKeyRotationResult :=
  omap (fun e => match e with EPersist r _ => Some r | _ => None end) t.

(** A run that is cut after [n] calls (a call in flight counts as made): the calls, and the
    states the operator may then hold.  These are all that were handed to the store, whether
    or not it answered, and the one in the result of a run that ended. *)
Definition cut (n : nat) (result : outcome rotation_error ManagedKeyRotationResult * list event)
    : list event * list ManagedKeyRotationResult :=
  (take n (snd result),
   persisted (take n (snd result)) ++ if (length (snd result) <=? n)%nat then option_list (carried (fst result)) else []).

(** One rotation, its crashes and its resumptions, each from any state held so far, old ones
    included, and in its own environment. *)
Inductive history : list event -> list ManagedKeyRotationResult -> Prop :=
  | history_start env options n c :
      cut n (rotateManagedOperationalKey env options []) = c -> history (fst c) (snd c)
  | history_resume env t held r n c :
      history t held -> r ∈ held -> (length t <= n)%nat ->
      cut n (resumeManagedOperationalKeyRotation env r t) = c -> history (fst c) (held ++ snd c).

Lemma elem_of_persisted t r : r ∈ persisted t <-> exists a, EPersist r a ∈ t.
Proof.
  unfold persisted. rewrite list_elem_of_omap. split.
  - intros (e & He & E). destruct e; try done. injection E as ->. by eexists.
  - intros [a Ha]. by exists (EPersist r a).
Qed.

Lemma persisted_ok t r a : all_allowed allowed t -> EPersist r a ∈ t -> held_ok t r.
Proof.
  intros Hv Hin. pose proof Hin as (i & Hi)%list_elem_of_lookup. destruct (Hv i _ Hi) as [Ht _]. split.
  - eapply truthful_mono; [|exact Ht]. apply prefix_take.
  - intros E. by exists r, a.
Qed.

Definition invariant (t : list event) (held : list ManagedKeyRotationResult) : Prop :=
  all_allowed allowed t /\ Forall (held_ok t) held
  /\ exists r, all_same r t /\ Forall (fun r' => operation r' = operation r) held.

Lemma cut_invariant n o t r t0 held : all_allowed allowed t -> all_same r t ->
  (forall r', carried o = Some r' -> operation r' = operation r /\ held_ok t r') ->
  t0 `prefix_of` t -> (length t0 <= n)%nat ->
  Forall (held_ok t0) held -> Forall (fun r' => operation r' = operation r) held ->
  invariant (fst (cut n (o, t))) (held ++ snd (cut n (o, t))).
Proof.
  intros Hv Hs Hc Hp Hn Hh Hsame. unfold cut. cbn [fst snd].
  assert (Hv' : all_allowed allowed (take n t)) by (by apply all_allowed_take).
  assert (Hin : forall r' a, EPersist r' a ∈ take n t -> EPersist r' a ∈ t)
    by (intros r' a H; eapply in_prefix; [apply prefix_take|exact H]).
  assert (Hp' : t0 `prefix_of` take n t) by (destruct Hp as [q ->]; rewrite take_app_ge by done; by eexists).
  assert (Hs' : all_same r (take n t)) by (intros r' a H; by eapply Hs, Hin).
  split; [done|]. split.
  - apply Forall_app. split; [eapply Forall_impl; [exact Hh|]; intros; by eapply held_ok_mono|].
    apply Forall_app. split.
    + apply Forall_forall. intros r' (a & Ha)%elem_of_persisted. by eapply persisted_ok.
    + destruct (Nat.leb_spec (length t) n); [|constructor]. rewrite take_ge by done.
      destruct (carried o) as [r'|]; [|constructor]. constructor; [by apply Hc|constructor].
  - exists r. split; [done|]. apply Forall_app. split; [done|]. apply Forall_app. split.
    + apply Forall_forall. intros r' (a & Ha)%elem_of_persisted. by eapply Hs'.
    + destruct (_ <=? _)%nat; [|constructor]. destruct (carried o) as [r'|]; [|constructor].
      constructor; [by apply Hc|constructor].
Qed.

Lemma history_invariant t held : history t held -> invariant t held.
Proof.
  induction 1 as [env options n c <-|env t held r n c H (Hv & Hh & r0 & Hs & Hsame) Hr Hn <-].
  - destruct (rotateManagedOperationalKey env options []) as [o t] eqn:E.
    pose proof (rotate_spec env options) as (Hv & r & Hs & Hc). rewrite E in Hv, Hs, Hc. cbn in Hv, Hs, Hc.
    apply (cut_invariant n o t r [] []); try done; [apply prefix_nil|cbn; lia].
  - destruct (resumeManagedOperationalKeyRotation env r t) as [o t'] eqn:E.
    rewrite Forall_forall in Hsame. pose proof (Hsame r Hr) as Ho.
    assert (Hs' : all_same r t) by (intros r' a Hin; rewrite Ho; by eapply Hs).
    pose proof (resume_spec env r t Hv Hs' (proj1 (Forall_forall _ _) Hh r Hr)) as [(Hp & Hv' & Hs'') Hc].
    rewrite E in Hp, Hv', Hs'', Hc. cbn in Hp, Hv', Hs'', Hc.
    apply (cut_invariant n o t' r t held); try done.
    apply Forall_forall. intros r' Hr'. rewrite Ho. by apply Hsame.
Qed.

(** C1: whatever fails and whenever the process dies, over a rotation and any number of
    resumptions from states that were handed to the store or returned: every submission is
    of the same durable bytes under a pause of the application's signing; a key is activated
    only after the registry durably accepted exactly those bytes for it and a verified
    publication shows it with the signed event in the log; the old key is superseded only
    after a provider has switched; and the application signs again only after the activation
    was saved and its signer set to the key that the provider had just shown.  All states
    belong to one operation, and what they record of the registry is what it answered. *)
Theorem rotation_safe t held : history t held ->
  all_allowed allowed t /\ Forall (held_ok t) held
  /\ forall r r', r ∈ held -> r' ∈ held -> operation r = operation r'.
Proof.
  intros (Hv & Hh & r0 & _ & Hsame)%history_invariant. split; [done|]. split; [done|].
  rewrite Forall_forall in Hsame. intros r r' H1 H2. by rewrite (Hsame r H1), (Hsame r' H2).
Qed.
End History.

(** ** Settled rotations *)

Section Settled.
Context `{H256 : Hash256} `{Url : URLApi} `{Uni : Unicode} `{Jwk : JwkApi} (env : Environment).

(** Calls that stay on the machine: providers, signer and store; no registry, no network,
    no change of keys. *)
Definition local (e : event) : Prop :=
  match e with
  | ESubmit _ _ _ _ | EPrepare _ _ _ _ _ | EVerifyPublication _ | EReadEvent _ _ | EActivate _ _ _ | ESupersede _ _ _
  | EGenerateKey _ _ _ | ESignPrepared _ _ _ | EPause true _ => False
  | _ => True
  end.

Definition emits (P : event -> Prop) {A} (m : run A) : Prop :=
  forall t, exists q, snd (m t) = t ++ q /\ Forall P q.

Lemma emits_pure {A} P (m : run A) : (forall t, snd (m t) = t) -> emits P m.
Proof. intros H t. exists []. by rewrite H, app_nil_r. Qed.
Lemma emits_lift {A} P (r : res A) : emits P (lift r).
Proof. apply emits_pure. by destruct r. Qed.
Lemma emits_ask {A} (P : event -> Prop) (answer : list event -> res A) log : (forall r, P (log r)) -> emits P (ask answer log).
Proof.
  intros H t. exists [log (answer t)]. split; [|by constructor].
  unfold ask, call, mbind, Eff_bind, lift, pure_res. by destruct (answer t).
Qed.
Lemma emits_bind {A B} P (m : run A) (f : A -> run B) : emits P m -> (forall a, emits P (f a)) -> emits P (m ≫= f).
Proof.
  intros Hm Hf t. destruct (Hm t) as (q & Hq & Fq). unfold mbind, Eff_bind. destruct (m t) as [[a|e] t'].
  - cbn in Hq. subst t'. destruct (Hf a (t ++ q)) as (q' & -> & Fq'). exists (q ++ q').
    by rewrite app_assoc, Forall_app.
  - by exists q.
Qed.
Lemma emits_try {A} P (m : run A) h : emits P m -> (forall e, emits P (h e)) -> emits P (try_with m h).
Proof.
  intros Hm Hh t. destruct (Hm t) as (q & Hq & Fq). unfold try_with. destruct (m t) as [[a|e] t']; [by exists q|].
  cbn in Hq. subst t'. destruct (Hh e (t ++ q)) as (q' & -> & Fq'). exists (q ++ q').
  by rewrite app_assoc, Forall_app.
Qed.
Lemma emits_weaken {A} (P P' : event -> Prop) (m : run A) : (forall e, P e -> P' e) -> emits P m -> emits P' m.
Proof. intros HP Hm t. destruct (Hm t) as (q & Hq & Fq). exists q. split; [done|]. by eapply Forall_impl. Qed.

Ltac emit_step :=
  lazymatch goal with
  | |- emits _ (mret _) => by apply emits_pure
  | |- emits _ (raise _) => by apply emits_pure
  | |- emits _ (lift _) => apply emits_lift
  | |- emits _ (check _ _) => apply emits_lift
  | |- emits _ (ask _ _) => apply emits_ask; done
  | |- emits _ (_ ≫= _) => apply emits_bind; [|intros ?]
  | |- emits _ (try_with _ _) => apply emits_try; [|intros ?]
  | |- emits _ (match ?x with _ => _ end) => destruct x
  end.
Ltac emit_auto := repeat emit_step.

(** Calls that stay on the machine and only ask. *)
Definition asking (e : event) : Prop := local e /\ quiet e.

Lemma activeKey_asking p ids : emits asking (activeKey env p ids).
Proof. unfold activeKey, signingKey. emit_auto. Qed.
Lemma validateSavedRotation_asking r p q : emits asking (validateSavedRotation env r p q).
Proof. unfold validateSavedRotation, listKeyIds, jwk_of, signingKey. cbv zeta. emit_auto; apply activeKey_asking. Qed.
Lemma asking_local {A} (m : run A) : emits asking m -> emits local m.
Proof. apply emits_weaken. by intros e []. Qed.
Lemma restoreActivatedRotation_local p q r : emits local (restoreActivatedRotation env p q r).
Proof.
  unfold restoreActivatedRotation, assertSourceInactive, restore_signer, resume_signing, listKeyIds, signingKey,
    setApplicationSigner, setApplicationSigningPaused, persistRotation. cbv zeta.
  emit_auto; apply asking_local, activeKey_asking.
Qed.
Lemma recovery_failed_emits {A} P r e : emits P (recovery_failed (A := A) r e).
Proof. destruct e; by apply emits_pure. Qed.

Lemma wp_bind_any {A B} (m : run A) (f : A -> run B) t (Q : outcome rotation_error B -> list event -> Prop) :
  (forall e t', Q (Raises e) t') -> (forall a t', wp (f a) t' Q) -> wp (m ≫= f) t Q.
Proof. intros He Hf. apply wp_bind. unfold wp at 1. destruct (m t) as [[a|e] t']; [apply Hf|apply He]. Qed.

Lemma restoreActivatedRotation_returns p q r t : mr_activated r = true ->
  wp (restoreActivatedRotation env p q r) t (fun o _ => forall r', o = Returns r' -> r' = with_flags r true false).
Proof.
  intros Ha. apply wp_try. repeat (apply wp_bind_any; [by intros; apply wp_raise|intros ? ?]).
  destruct (mr_applicationSigningPaused r) eqn:Ep; cbn [negb].
  - unfold resume_signing. cbv zeta. repeat (apply wp_bind_any; [by intros; apply wp_raise|intros ? ?]).
    apply wp_ret. intros ? [= <-]. by rewrite Ha.
  - apply wp_ret. intros ? [= <-]. destruct r. cbn in Ha, Ep. by rewrite Ha, Ep.
Qed.

Lemma resume_providers_asking r : emits asking
  (try_with
    (lift (assertOperationReferences (mr_previousProviderReference r) (mr_newProviderReference r) (mr_idempotencyKey r));;
     previous ← resolveKeyProvider env (mr_previousProviderReference r);
     target ← (if bool_decide (mr_newProviderReference r = mr_previousProviderReference r)
               then mret previous else resolveKeyProvider env (mr_newProviderReference r));
     validateSavedRotation env r previous target;;
     mret (previous, target)) (recovery_failed r)).
Proof.
  unfold resolveKeyProvider. emit_auto; [apply validateSavedRotation_asking..|apply recovery_failed_emits].
Qed.

(** Resuming a rotation whose activation was saved only restores the signer and lets the
    application sign: it asks the network nothing, changes no key and never pauses, and when
    it returns the rotation is complete.  Resuming a rejected one calls nothing but to look
    at the providers, and always fails. *)
Theorem resume_settled r t :
  (mr_activated r = true ->
     (exists q, snd (resumeManagedOperationalKeyRotation env r t) = t ++ q /\ Forall local q)
     /\ forall r', fst (resumeManagedOperationalKeyRotation env r t) = Returns r' -> r' = with_flags r true false)
  /\ (mr_activated r = false -> is_rejected r = true ->
     (exists q, snd (resumeManagedOperationalKeyRotation env r t) = t ++ q /\ Forall asking q)
     /\ exists e, fst (resumeManagedOperationalKeyRotation env r t) = Raises e).
Proof.
  split; intros Ha.
  - split.
    + revert t. change (emits local (resumeManagedOperationalKeyRotation env r)).
      apply emits_bind; [apply asking_local, resume_providers_asking|]. intros [p q]. rewrite Ha.
      apply emits_try; [|intros e; apply recovery_failed_emits].
      apply emits_bind; [emit_auto|]. intros _. apply restoreActivatedRotation_local.
    + change (wp (resumeManagedOperationalKeyRotation env r) t
        (fun o _ => forall r', o = Returns r' -> r' = with_flags r true false)).
      apply wp_bind_any; [done|]. intros [p q] t1. rewrite Ha. apply wp_try, wp_bind_any.
      { intros e t'. by destruct e; apply wp_raise. }
      intros _ t2. eapply wp_mono; [by apply restoreActivatedRotation_returns|].
      intros [a|e] t' H; [exact H|]. by destruct e; apply wp_raise.
  - intros Hr. split.
    + revert t. change (emits asking (resumeManagedOperationalKeyRotation env r)).
      apply emits_bind; [apply resume_providers_asking|]. intros [p q]. rewrite Ha, Hr. by apply emits_pure.
    + change (wp (resumeManagedOperationalKeyRotation env r) t (fun o _ => exists e, o = Raises e)).
      apply wp_bind_any; [by eexists|]. intros [p q] t1. rewrite Ha, Hr. apply wp_raise. by eexists.
Qed.
End Settled.

(** ** Witnesses *)

(** A rotation whose first submission times out, resumed from the state its error carries. *)
Definition interrupted `{H256 : Hash256} `{Url : URLApi} `{Uni : Unicode} `{Jwk : JwkApi} (env : Environment)
    (options : RotateManagedOperationalKeyOptions) (test : ManagedKeyRotationResult -> list event -> bool) : bool :=
  let '(o, t) := rotateManagedOperationalKey env options [] in
  match carried o with
  | Some r =>
      let '(o', t') := resumeManagedOperationalKeyRotation env r t in
      match o' with Returns r' => negb (mr_activated r) && test r' t' | Raises _ => false end
  | None => false
  end.

Lemma interrupted_history `{H256 : Hash256} `{Url : URLApi} `{Uni : Unicode} `{Jwk : JwkApi} env options test :
  interrupted env options test = true -> exists t held r, history t held /\ r ∈ held /\ test r t = true.
Proof.
  unfold interrupted. destruct (rotateManagedOperationalKey env options []) as [o t] eqn:E1.
  destruct (carried o) as [r|] eqn:Ec; [|done].
  destruct (resumeManagedOperationalKeyRotation env r t) as [o' t'] eqn:E2. destruct o' as [r'|e]; [|done].
  intros [_ Ht]%andb_true_iff.
  assert (H1 : history t (persisted t ++ [r])).
  { pose proof (history_start env options (length t) _ eq_refl) as H. unfold cut in H. rewrite E1 in H.
    cbn [fst snd] in H. rewrite Nat.leb_refl, take_ge, Ec in H by done. exact H. }
  assert (Hp : (length t <= length t')%nat).
  { pose proof (history_invariant _ _ H1) as (Hv & Hh & r0 & Hs & Hsame). rewrite Forall_forall in Hsame.
    rewrite Forall_forall in Hh. assert (Hr : r ∈ persisted t ++ [r]) by (apply elem_of_app; right; by left).
    pose proof (resume_spec env r t Hv) as Hsp. unfold wp in Hsp. rewrite E2 in Hsp.
    destruct Hsp as [(Hpre & _) _]; [|by apply Hh|by apply prefix_length].
    intros r'' a Hin. rewrite (Hsame r Hr). by eapply Hs. }
  exists t', ((persisted t ++ [r]) ++ (persisted t' ++ [r'])), r'. split; [|split; [|done]].
  - assert (Hr : r ∈ persisted t ++ [r]) by (apply elem_of_app; right; by left).
    pose proof (history_resume env t _ r (length t') _ H1 Hr Hp eq_refl) as H. unfold cut in H. rewrite E2 in H.
    cbn [fst snd carried] in H. rewrite Nat.leb_refl, take_ge in H by done. exact H.
  - apply elem_of_app. right. apply elem_of_app. right. by left.
Qed.

Section Example.
#[local] Existing Instances Checksum SimpleUrl AsciiUnicode ToyJwk.

Definition new_operational : jwk := ed_key "o2" "PP".
Definition example_hash : jsstr := x_of "HH".
Definition rotation_event : LogEvent :=
  mkEvent (js "bot.example.com") (Some 2000) None None None None []
    (KEY_ROTATION (mkRotation (js "o1") (example_thumb example_operational) (js "o2") (js "EdDSA")
       (example_thumb new_operational) new_operational)).
Definition registry_bytes : bytes :=
  ok_or [] (p ← prepareC2spTlogEventForSigning rotation_event example_lr (Some (mkChain 1 (Some example_hash) (Some example_hash)));
            canonicalBytes (JObject (pe_envelope p))).

Definition has_call (f : event -> bool) (t : list event) : bool := existsb f t.
Definition is_activate (e : event) : bool := match e with EActivate _ _ _ => true | _ => false end.
Definition is_supersede (e : event) : bool := match e with ESupersede _ _ _ => true | _ => false end.
Definition is_submit (e : event) : bool := match e with ESubmit _ _ _ _ => true | _ => false end.
Definition is_resume (e : event) : bool := match e with EPause false _ => true | _ => false end.

Definition example_key (kid : json) : jwk := if is_lit kid "o1" then example_operational else new_operational.
Definition example_publication : VerifiedIdentity :=
  let cert := mkTLSCertificate None [] in
  mkVerifiedIdentity (js "bot.example.com")
    (record_of (tag_pairs (js "lr=" ++ example_lr))) (mkJWKS [new_operational]) (mkJWKS [])
    example_entity [] cert cert (AgentStatus.mkAgentStatus Lifecycle.ACTIVE None None) 0 0 None None 0 UNSIGNED
    (LogRegistry.NoopLogReader (js "x")).
(** The event that the log holds: the submitted entry. *)
Definition logged_event (t : list event) : res LogEvent :=
  match List.find is_submit t with
  | Some (ESubmit _ bs _ _) =>
      parseC2spEventEntry bs (mkContext (Some (js "public")) (Some (js "log.example/a")) (Some (js "s1"))
                                        (Some example_lr) None None None)
  | _ => Throw (EError "not found")
  end.

Definition example_environment : Environment := {|
  env_signingKey := fun t _ => Ok (if has_call is_activate t then new_operational else example_operational);
  env_hasActiveSigningKey := fun _ => false;
  env_activeSigningKey := fun _ _ => Ok None;
  env_hasValidateKeyGeneration := fun _ => true;
  env_validateKeyGeneration := fun _ _ _ => Ok tt;
  env_generateKey := fun _ _ _ => Ok (js "o2");
  env_jwk := fun _ _ kid => Ok (example_key kid);
  env_signKey := fun _ _ kid _ => fromBase64Url (example_thumb (example_key kid));
  env_listKeyIds := fun t _ => Ok (if has_call is_supersede t then [js "o2"] else [js "o1"]);
  env_activate := fun _ _ _ => Ok tt;
  env_supersede := fun _ _ _ => Ok tt;
  env_prepareKeyRotation := fun _ _ _ _ _ => Ok registry_bytes;
  env_submitPreparedEvent := fun t _ bs _ =>
    if has_call is_submit t
    then inl (mkSubmission accepted_state (Some (sha256Hex bs)) (JNumber (NInt 41)) (Some (example_lr ++ js "@41")) None (Some (js "o2")))
    else inr (mkFailure (EError "timeout") None);
  env_persistRotation := fun _ _ => Ok tt;
  env_setApplicationSigningPaused := fun _ _ => Ok tt;
  env_setApplicationSigner := fun _ _ _ => Ok tt;
  env_resolveKeyProvider := fun _ _ => Ok 0%nat;
  env_verifyLocalPublication := fun _ => Ok example_publication;
  env_readEvent := fun t _ => logged_event t
|}.
Definition example_options : RotateManagedOperationalKeyOptions :=
  mkRotateOptions (js "bot.example.com") example_lr 0%nat (js "kms:a") None None (js "kms:a") (js "once").

(** The resumed rotation activates the new key, supersedes the old one, and the application
    signs again. *)
Definition completed (r : ManagedKeyRotationResult) (t : list event) : bool :=
  mr_activated r && negb (mr_applicationSigningPaused r) && has_call is_activate t && has_call is_supersede t
  && has_call is_resume t && (count is_submit t =? 2)%nat.
Lemma example_interrupted : interrupted example_environment example_options completed = true.
Proof. vm_compute. reflexivity. Qed.

Lemma rotation_safe_witness : exists t held r,
  history t held /\ r ∈ held /\ completed r t = true /\ all_allowed allowed t /\ Forall (held_ok t) held.
Proof.
  destruct (interrupted_history _ _ _ example_interrupted) as (t & held & r & H & Hr & Ht). exists t, held, r.
  destruct (rotation_safe t held H) as (H1 & H2 & _).
  exact (conj H (conj Hr (conj Ht (conj H1 H2)))).
Defined.

Lemma resume_settled_witness : exists r t,
  mr_activated r = true
  /\ exists q, snd (resumeManagedOperationalKeyRotation example_environment r t) = t ++ q /\ Forall local q.
Proof.
  destruct (interrupted_history _ _ _ example_interrupted) as (t & held & r & _ & _ & Ht). exists r, t.
  apply andb_true_iff in Ht as [Ht _]. apply andb_true_iff in Ht as [Ht _]. apply andb_true_iff in Ht as [Ht _].
  apply andb_true_iff in Ht as [Ht _]. apply andb_true_iff in Ht as [Ht _].
  destruct (resume_settled example_environment r t) as [H _]. split; [exact Ht|exact (proj1 (H Ht))].
Defined.
End Example.
