(* ===== verification/Publishing.v ===== *)
(** What an identity manager does for its own identity: the signing, writing and publishing
    methods of [protocol/src/identity-manager.ts].

    Key providers, the log method and the caller's publication of a key set are calls of the
    environment ([Effects]).  An event is an object that signing mutates; every assignment
    to its fields is a step [EUpdate] with the event as it is from then on. *)

From S2P Require Import SharedVerification.
From S2P Require Import Prelude Effects JsString Base64 Url Utils TxtRecord Json Jwk EventCodec LogRegistry.
From S2P Require Import Verification DnsidConfig.

(** ** Data *)

Inductive LogSignerRole := Entity | Operational | OperationalCountersignature | PreviousOperational | NewOperational.
#[export] Instance LogSignerRole_eq_dec : EqDecision LogSignerRole.
Proof. solve_decision. Defined.

(** A reader that a registered factory made: an object with the optional methods
    [additionalSignerRoles] and [writeEvent]. *)
Record LogObject := mkLogObject {
  lo_identity : nat;
  lo_additionalSignerRoles : option (LogEvent -> list LogSignerRole);
  lo_writes : bool
}.
Notation LogCanonicalizer := (@reader LogObject) (only parsing).
Notation provider := nat (only parsing).

Record IdentityManager := mkManager {
  im_config : DnsidConfig;
  im_keyProvider : option provider;
  im_entityKeyProvider : option provider;
  im_localLogBinding : option LogCanonicalizer;
  im_localLog : option LogObject
}.

(** The calls, with their answers. *)
Inductive event :=
  | ESigningKey (p : provider) (r : res jwk)
  | EJwk (p : provider) (kid : jsstr) (r : res jwk)
  | ESign (p : provider) (payload : bytes) (r : res bytes)
  | ESignKey (p : provider) (kid : json) (payload : bytes) (r : res bytes)
  | EGenerateKey (p : provider) (r : res jsstr)
  | EActivate (p : provider) (kid : jsstr) (r : res unit)
  | ESupersede (p : provider) (kid : json) (r : res unit)
  | EPublishKeySet (keySet : JWKS) (r : res unit)
  | ECanonical (log : LogObject) (ev : LogEvent) (r : res bytes)
  | EWriteEvent (log : LogObject) (ev : LogEvent) (r : res jsstr)
  | EUpdate (ev : LogEvent).

(** Each call is answered with knowledge of the calls before it. *)
Record Environment := mkEnvironment {
  env_signingKey : list event -> provider -> res jwk;
  env_jwk : list event -> provider -> jsstr -> res jwk;
  env_sign : list event -> provider -> bytes -> res bytes;
  env_signKey : list event -> provider -> json -> bytes -> res bytes;
  env_generateKey : list event -> provider -> res jsstr;
  env_activate : list event -> provider -> jsstr -> res unit;
  env_supersede : list event -> provider -> json -> res unit;
  env_publishKeySet : list event -> JWKS -> res unit;
  env_canonical : list event -> LogObject -> LogEvent -> res bytes;
  env_writeEvent : list event -> LogObject -> LogEvent -> res jsstr
}.

Notation run := (Eff event exn).
Notation ask := (Effects.ask (fun e : exn => e)).
Definition lift {A} (r : res A) : run A := pure_res (fun e => e) r.
Definition check (b : bool) (e : exn) : run unit := lift (throw_if b e).

(** ** Signer roles *)

Definition is_issuance (ev : LogEvent) : bool := match ev_payload ev with ISSUANCE _ => true | _ => false end.
Definition is_rotation (ev : LogEvent) : bool := match ev_payload ev with KEY_ROTATION _ => true | _ => false end.

(** [[...new Set(roles)]] *)
Definition distinct_roles (roles : list LogSignerRole) : list LogSignerRole :=
  foldl (fun seen r => if bool_decide (r ∈ seen) then seen else seen ++ [r]) [] roles.

Definition additional_roles (binding : option LogCanonicalizer) (ev : LogEvent) : list LogSignerRole :=
  match binding with
  | Some (Reader o) => match lo_additionalSignerRoles o with Some f => f ev | None => [] end
  | _ => []
  end.

Definition requiredLogSignaturesFor (ev : LogEvent) (binding : option LogCanonicalizer) : list LogSignerRole :=
  distinct_roles
    ((if is_issuance ev then [Entity; OperationalCountersignature]
      else if is_rotation ev then [PreviousOperational] else [Entity])
     ++ additional_roles binding ev).

Definition hasLogSignature (ev : LogEvent) (role : LogSignerRole) : bool :=
  match role with
  | OperationalCountersignature => filled (ev_operationalCountersig ev)
  | NewOperational => is_rotation ev && filled (ev_newOperationalProof ev)
  | _ => filled (ev_sig ev)
  end.

(** ** Assignments to an event *)

Definition with_signingKid (ev : LogEvent) (kid : option jsstr) : LogEvent :=
  mkEvent (ev_domain ev) (ev_timestamp ev) kid (ev_sig ev) (ev_operationalCountersig ev)
    (ev_newOperationalProof ev) (ev_chain ev) (ev_payload ev).
Definition with_sig (ev : LogEvent) (sig : jsstr) : LogEvent :=
  mkEvent (ev_domain ev) (ev_timestamp ev) (ev_signingKid ev) (Some sig) (ev_operationalCountersig ev)
    (ev_newOperationalProof ev) (ev_chain ev) (ev_payload ev).
Definition with_countersig (ev : LogEvent) (sig : jsstr) : LogEvent :=
  mkEvent (ev_domain ev) (ev_timestamp ev) (ev_signingKid ev) (ev_sig ev) (Some sig)
    (ev_newOperationalProof ev) (ev_chain ev) (ev_payload ev).
Definition with_proof (ev : LogEvent) (sig : jsstr) : LogEvent :=
  mkEvent (ev_domain ev) (ev_timestamp ev) (ev_signingKid ev) (ev_sig ev) (ev_operationalCountersig ev)
    (Some sig) (ev_chain ev) (ev_payload ev).

(** The [kid] of a key is a string by its type. *)
Definition kid_of (key : jwk) : option jsstr := as_str (get key "kid").

Section Manager.
Context `{Url : URLApi} `{Uni : Unicode} `{Jwk : JwkApi} (env : Environment).

Definition signingKey (p : provider) : run jwk := ask (fun t => env_signingKey env t p) (ESigningKey p).
Definition jwk_of (p : provider) (kid : jsstr) : run jwk := ask (fun t => env_jwk env t p kid) (EJwk p kid).
Definition sign (p : provider) (payload : bytes) : run bytes := ask (fun t => env_sign env t p payload) (ESign p payload).
Definition signKey (p : provider) (kid : json) (payload : bytes) : run bytes :=
  ask (fun t => env_signKey env t p kid payload) (ESignKey p kid payload).
Definition activate (p : provider) (kid : jsstr) : run unit := ask (fun t => env_activate env t p kid) (EActivate p kid).
Definition supersede (p : provider) (kid : json) : run unit := ask (fun t => env_supersede env t p kid) (ESupersede p kid).
Definition update (ev : LogEvent) : run LogEvent := call (fun _ => ev) EUpdate.

(** A reader without a factory throws. *)
Definition canonical_of (binding : LogCanonicalizer) (ev : LogEvent) : run bytes :=
  match binding with
  | Reader o => ask (fun t => env_canonical env t o ev) (ECanonical o ev)
  | NoopLogReader _ => lift noop_raise
  end.

(** ** The constructor *)

Definition new_IdentityManager (config : json) (keyProvider entityKeyProvider : option provider)
    (logRegistry : option (gmap jsstr (@LogReaderFactory LogObject unit))) : res IdentityManager :=
  c ← constructor_config config (negb (is_none keyProvider)) (negb (is_none entityKeyProvider));
  match dc_identity c, logRegistry with
  | Some identity, Some registry =>
      r ← catch (newReader registry (ic_logRef identity) tt)
            (fun _ => Throw (EArgument "config.identity.logRef is malformed"));
      Ok (mkManager c keyProvider entityKeyProvider (Some r)
            (match r with Reader o => if lo_writes o then Some o else None | NoopLogReader _ => None end))
  | _, _ => Ok (mkManager c keyProvider entityKeyProvider None None)
  end.

Definition requireKeyProvider (m : IdentityManager) : res provider :=
  of_option (im_keyProvider m) (EArgument "local signing requires a keyProvider").
Definition getKeyProvider (m : IdentityManager) : res provider := requireKeyProvider m.
Definition requireIdentity (m : IdentityManager) : res IdentityConfig :=
  of_option (dc_identity (im_config m)) (EArgument "this operation requires a local identity (config.identity)").
Definition requireLocalDomain (m : IdentityManager) : res jsstr :=
  match dc_identity (im_config m) with
  | Some i => throw_if (length (ic_domain i) =? 0)%nat (EArgument "a local identity (config.identity) is required");;
              Ok (ic_domain i)
  | None => Throw (EArgument "a local identity (config.identity) is required")
  end.

Definition requiredLogSignatures (m : IdentityManager) (ev : LogEvent) : list LogSignerRole :=
  requiredLogSignaturesFor ev (im_localLogBinding m).

Definition canonicalizeLogEvent (m : IdentityManager) (ev : LogEvent) : run bytes :=
  binding ← lift (of_option (im_localLogBinding m) (EArgument "local log binding is required"));
  canonical_of binding ev.

(** ** Signing an event *)

Definition same_value (expected : option jsstr) (v : json) : bool := strict_eq (json_of expected) v.

(** [a !== b || c !== d || e !== await jwkThumbprint(key)] *)
Definition assert_key_metadata (kid alg thumbprint : option jsstr) (key : jwk) (message : string) : res unit :=
  mismatch ← or_else (negb (same_value kid (get key "kid")) || negb (same_value alg (get key "alg")))
               (t ← jwkThumbprint key; Ok (negb (bool_decide (thumbprint = Some t))));
  throw_if mismatch (EArgument message).

Definition assertIssuanceEntityKey (i : IssuanceFields) (key : jwk) : res unit :=
  assert_key_metadata (i_initialEntityKid i) (i_initialEntityAlg i) (i_initialEntityThumbprint i) key
    "ISSUANCE entity key metadata does not match the active entity key".
Definition assertIssuanceOperationalKey (i : IssuanceFields) (key : jwk) : res unit :=
  assert_key_metadata (i_initialOperationalKid i) (i_initialOperationalAlg i) (i_initialOperationalThumbprint i) key
    "ISSUANCE operational key metadata does not match the active operational key".
Definition assert_new_key (f : RotationFields) (key : jwk) : res unit :=
  assert_key_metadata (Some (r_newOperationalKid f)) (Some (r_newOperationalAlg f))
    (Some (r_newOperationalThumbprint f)) key "KEY_ROTATION new operational key metadata mismatch".

Definition signEventWithProvider (ev : LogEvent) (role : LogSignerRole) (p : provider)
    (logBinding : option LogCanonicalizer) : run LogEvent :=
  binding ← lift (of_option logBinding (EArgument "local log binding is required"));
  check (negb (bool_decide (role ∈ requiredLogSignaturesFor ev logBinding)))
    (EArgument "not an authorized signer role for the event");;
  canonical ← canonical_of binding ev;
  match role with
  | Entity =>
      key ← signingKey p;
      match ev_payload ev with ISSUANCE i => lift (assertIssuanceEntityKey i key) | _ => mret tt end;;
      ev ← update (with_signingKid ev (kid_of key));
      signature ← sign p canonical;
      update (with_sig ev (toBase64Url signature))
  | OperationalCountersignature =>
      match ev_payload ev with
      | ISSUANCE i =>
          key ← signingKey p;
          lift (assertIssuanceOperationalKey i key);;
          signature ← sign p canonical;
          update (with_countersig ev (toBase64Url signature))
      | _ => raise (EArgument "operational countersignature is only valid for ISSUANCE")
      end
  | PreviousOperational =>
      match ev_payload ev with
      | KEY_ROTATION f =>
          key ← jwk_of p (r_previousOperationalKid f);
          thumbprint ← lift (jwkThumbprint key);
          check (negb (bool_decide (r_previousOperationalThumbprint f = thumbprint)))
            (EArgument "KEY_ROTATION previous operational key metadata mismatch");;
          lift (assert_new_key f (r_newOperationalPublicKey f));;
          ev ← update (with_signingKid ev (kid_of key));
          signature ← signKey p (get key "kid") canonical;
          update (with_sig ev (toBase64Url signature))
      | _ => raise (EArgument "previous-operational signature is only valid for KEY_ROTATION")
      end
  | NewOperational =>
      match ev_payload ev with
      | KEY_ROTATION f =>
          key ← jwk_of p (r_newOperationalKid f);
          lift (assert_new_key f key);;
          signature ← signKey p (get key "kid") canonical;
          update (with_proof ev (toBase64Url signature))
      | _ => raise (EArgument "new-operational signature is only valid for KEY_ROTATION")
      end
  | Operational => mret ev
  end.

Definition signer_of (m : IdentityManager) (role : LogSignerRole) : option provider :=
  match role with Entity => im_entityKeyProvider m | _ => im_keyProvider m end.

Definition signEvent (m : IdentityManager) (ev : LogEvent) (role : LogSignerRole) : run LogEvent :=
  p ← lift (of_option (signer_of m role)
              (EArgument (match role with
                          | Entity => "draft-01 event signing requires entityKeyProvider"
                          | _ => "local event signing requires a keyProvider"
                          end)));
  signEventWithProvider ev role p (im_localLogBinding m).

Definition writeSignedEvent (m : IdentityManager) (ev : LogEvent) : run jsstr :=
  log ← lift (of_option (im_localLog m) (EArgument "local write log is required"));
  check (existsb (fun role => negb (hasLogSignature ev role)) (requiredLogSignatures m ev))
    (EArgument "missing required signature");;
  ask (fun t => env_writeEvent env t log ev) (EWriteEvent log ev).

(** The loop over the roles that are required before any signature is made. *)
Fixpoint sign_missing (m : IdentityManager) (roles : list LogSignerRole) (ev : LogEvent) : run LogEvent :=
  match roles with
  | [] => mret ev
  | role :: roles =>
      ev ← (if hasLogSignature ev role then mret ev else signEvent m ev role);
      sign_missing m roles ev
  end.

(** The reference of the entry, and the event object as it is in the end. *)
Definition signAndWriteEvent (m : IdentityManager) (ev : LogEvent) : run (jsstr * LogEvent) :=
  ev ← sign_missing m (requiredLogSignatures m ev) ev;
  logRef ← writeSignedEvent m ev;
  mret (logRef, ev).

(** ** Key sets *)

Definition getKeySet (m : IdentityManager) : run JWKS :=
  p ← lift (requireKeyProvider m);
  key ← signingKey p;
  lift (validateOperational (mkJWKS [key]));;
  mret (mkJWKS [key]).

Definition getEntityKeySet (m : IdentityManager) : run JWKS :=
  p ← lift (of_option (im_entityKeyProvider m) (EArgument "draft-01 GetEntityKeySet requires entityKeyProvider"));
  key ← signingKey p;
  lift (validateRecordSigning (mkJWKS [key]));;
  mret (mkJWKS [key]).

(** ** Rotation *)

Record OperationalKeyRotationResult := mkRotationResult {
  or_event : LogEvent; or_logRef : jsstr; or_keySet : JWKS
}.

(** A validated key has a [kid] and an [alg], strings by their types. *)
Definition text_member (key : jwk) (name : string) : jsstr := default [] (as_str (get key name)).

Definition rotation_of (domain : jsstr) (previous next : jwk) (previousThumbprint newThumbprint : jsstr) (timestamp : date) : LogEvent :=
  mkEvent domain timestamp None None None None []
    (KEY_ROTATION (mkRotation (text_member previous "kid") previousThumbprint (text_member next "kid")
                     (text_member next "alg") newThumbprint next)).

(** [timestamp] is the option of the caller, [now] the clock. *)
Definition rotateOperationalKey (m : IdentityManager) (timestamp : option date) (now : Z) : run OperationalKeyRotationResult :=
  p ← lift (requireKeyProvider m);
  previousKey ← signingKey p;
  lift (validateOperational (mkJWKS [previousKey]));;
  newKid ← ask (fun t => env_generateKey env t p) (EGenerateKey p);
  newKey ← jwk_of p newKid;
  let keySet := mkJWKS [newKey] in
  lift (validateOperational keySet);;
  let timestamp := default (new_date (now / 1000 * 1000)) timestamp in
  check (is_none timestamp) (EArgument "rotation timestamp is invalid");;
  identity ← lift (requireIdentity m);
  previousThumbprint ← lift (jwkThumbprint previousKey);
  newThumbprint ← lift (jwkThumbprint newKey);
  let ev := rotation_of (ic_domain identity) previousKey newKey previousThumbprint newThumbprint timestamp in
  ask (fun t => env_publishKeySet env t keySet) (EPublishKeySet keySet);;
  written ← signAndWriteEvent m ev;
  activate p newKid;;
  supersede p (get previousKey "kid");;
  mret (mkRotationResult (snd written) (fst written) keySet).

(** ** The TXT record *)

Definition DEFAULT_PUBLISH_PROFILE : jsstr := DNSID_DRAFT01_VERSION.
Definition SUPPORTED_PUBLISH_PROFILES : list jsstr := [DNSID_DRAFT01_VERSION].

(** [if (value) record.x = value] *)
Definition truthy_text (o : option jsstr) : option jsstr := match o with Some [] => None | o => o end.

Definition createUnsignedTxtRecord (m : IdentityManager) : res DnsIdTxtRecord :=
  i ← requireIdentity m;
  let profile := default DEFAULT_PUBLISH_PROFILE (ic_publishProfile i) in
  throw_if (negb (bool_decide (profile ∈ SUPPORTED_PUBLISH_PROFILES))) (EArgument "unsupported DNSid publish profile");;
  match truthy_text (ic_ekUrl i), truthy_text (ic_kuUrl i) with
  | Some ekUrl, Some kuUrl =>
      let record := mkTxtRecord profile (ic_governanceId i) ekUrl kuUrl (ic_logRef i) (ic_statusUrl i) []
                      (truthy_text (ic_policyFlags i)) (truthy_text (ic_maxKeyAge i)) (truthy_text (ic_capabilitiesUrl i))
                      [] (ic_domain i) [] in
      catch (TxtRecord.validate record) (fun _ => Throw (EArgument "invalid TXT record configuration"));;
      Ok record
  | _, _ => Throw (EArgument "draft-01 publishing requires ekUrl and kuUrl")
  end.

(** [record.sg = sg] *)
Definition with_sg (r : DnsIdTxtRecord) (sg : jsstr) : DnsIdTxtRecord :=
  let '(mkTxtRecord v gi ek ku lr su _ fl ka cu un ag pt) := r in
  mkTxtRecord v gi ek ku lr su sg fl ka cu un ag pt.

Definition createTxtRecord (m : IdentityManager) : run jsstr :=
  p ← lift (requireKeyProvider m);
  record ← lift (createUnsignedTxtRecord m);
  ekp ← lift (of_option (im_entityKeyProvider m) (EArgument "draft-01 CreateTxtRecord requires entityKeyProvider"));
  let canonicalBytes := utf8_encode (canonical record) in
  entityKey ← signingKey ekp;
  agentKey ← signingKey p;
  lift (validateRecordSigning (mkJWKS [entityKey]));;
  lift (validateOperational (mkJWKS [agentKey]));;
  t1 ← lift (jwkThumbprint entityKey);
  t2 ← lift (jwkThumbprint agentKey);
  check (bool_decide (t1 = t2)) (EArgument "draft-01 entity and agent keys must be distinct");;
  signature ← sign ekp canonicalBytes;
  mret (serialize (with_sg record (toBase64Url signature))).

(** ** Entry points of verification

    The calls that the public methods start in the manager of [SharedVerification]: what
    they verify, with which peer certificate, with or without the acceptance policy, from
    the cache or afresh.  Evidence of a publication is only given for the own name. *)

Definition verifyDomain (now : Z) (raw : jsstr) (peerCert : option TLSCertificate) : SharedVerification.event :=
  SharedVerification.VerifyDomain now raw peerCert true false.
Definition refreshDomain (now : Z) (raw : jsstr) (peerCert : option TLSCertificate) : SharedVerification.event :=
  SharedVerification.VerifyDomain now raw peerCert true true.

Definition verifyPublicationEvidence (m : IdentityManager) (now : Z) (raw : jsstr) (refresh : bool) : res SharedVerification.event :=
  identity ← requireIdentity m;
  requested ← catch (normalizeFQDN raw false) (fun _ => Throw (EArgument "domain is not a valid FQDN"));
  throw_if (negb (bool_decide (requested = ic_domain identity)))
    (EArgument "publication evidence is only available for the local identity");;
  Ok (SharedVerification.VerifyDomain now requested None false refresh).

Definition verifyLocalPublication (m : IdentityManager) (now : Z) : res SharedVerification.event :=
  identity ← requireIdentity m;
  verifyPublicationEvidence m now (ic_domain identity) true.

End Manager.
