(* ===== verification/PublishingSafety.v ===== *)
(** What the publishing methods of an identity manager guarantee ([Publishing]): which calls
    they make, in what order, and what they sign and write. *)

From S2P Require Import Prelude Effects JsString Base64 Url Utils TxtRecord Json Jwk EventCodec LogRegistry.
From S2P Require Import Sha256 StreamVerifier Verification DnsidConfig Publishing.

(** ** Specification *)

Definition same_content (a b : LogEvent) : Prop :=
  ev_domain a = ev_domain b /\ ev_timestamp a = ev_timestamp b /\ ev_chain a = ev_chain b /\ ev_payload a = ev_payload b.

#[export] Instance same_content_equiv : Equivalence same_content.
Proof. split; unfold same_content; [done|intros ??; naive_solver|intros ???; intuition congruence]. Qed.

(** The log method answered with these bytes for an event of this content. *)
Definition canonical_bytes (t : list event) (ev : LogEvent) (bs : bytes) : Prop :=
  exists o ev0, ECanonical o ev0 (Ok bs) ∈ t /\ same_content ev0 ev.

Section Specification.
Context `{Url : URLApi} `{Uni : Unicode} `{Jwk : JwkApi}.

(** The signature of a role that an event carries was made by the provider [p], with the
    key that the event names, over the canonical bytes of the event. *)
Definition made (t : list event) (role : LogSignerRole) (p : nat) (ev : LogEvent) : Prop :=
  exists bs s, canonical_bytes t ev bs /\
    match role with
    | Entity =>
        exists key, ESigningKey p (Ok key) ∈ t /\ ESign p bs (Ok s) ∈ t
          /\ ev_signingKid ev = kid_of key /\ ev_sig ev = Some (toBase64Url s)
          /\ (forall i, ev_payload ev = ISSUANCE i -> assertIssuanceEntityKey i key = Ok tt)
    | OperationalCountersignature =>
        exists i key, ev_payload ev = ISSUANCE i /\ ESigningKey p (Ok key) ∈ t /\ ESign p bs (Ok s) ∈ t
          /\ ev_operationalCountersig ev = Some (toBase64Url s) /\ assertIssuanceOperationalKey i key = Ok tt
    | PreviousOperational =>
        exists f key, ev_payload ev = KEY_ROTATION f /\ EJwk p (r_previousOperationalKid f) (Ok key) ∈ t
          /\ jwkThumbprint key = Ok (r_previousOperationalThumbprint f)
          /\ assert_new_key f (r_newOperationalPublicKey f) = Ok tt
          /\ ESignKey p (get key "kid") bs (Ok s) ∈ t
          /\ ev_signingKid ev = kid_of key /\ ev_sig ev = Some (toBase64Url s)
    | NewOperational =>
        exists f key, ev_payload ev = KEY_ROTATION f /\ EJwk p (r_newOperationalKid f) (Ok key) ∈ t
          /\ assert_new_key f key = Ok tt /\ ESignKey p (get key "kid") bs (Ok s) ∈ t
          /\ ev_newOperationalProof ev = Some (toBase64Url s)
    | Operational => False
    end.

Definition fully_signed (m : IdentityManager) (ev : LogEvent) : Prop :=
  Forall (fun role => hasLogSignature ev role = true) (requiredLogSignatures m ev).

(** The key set of a key that the provider generated. *)
Definition generated (t : list event) (p : nat) (kid : jsstr) (key : jwk) : Prop :=
  EGenerateKey p (Ok kid) ∈ t /\ EJwk p kid (Ok key) ∈ t /\ validateOperational (mkJWKS [key]) = Ok tt.

(** The log holds a rotation from one key to the other. *)
Definition rotated (m : IdentityManager) (t : list event) (previous next : jwk) : Prop :=
  exists log ev ref f, EWriteEvent log ev (Ok ref) ∈ t /\ fully_signed m ev
    /\ ev_payload ev = KEY_ROTATION f /\ r_newOperationalPublicKey f = next
    /\ jwkThumbprint previous = Ok (r_previousOperationalThumbprint f)
    /\ jwkThumbprint next = Ok (r_newOperationalThumbprint f).

(** The key that the event rotates to was generated, and its key set was then published. *)
Definition published (t : list event) (ev : LogEvent) : Prop :=
  exists p kid key f, generated t p kid key /\ EPublishKeySet (mkJWKS [key]) (Ok tt) ∈ t
    /\ ev_payload ev = KEY_ROTATION f /\ r_newOperationalPublicKey f = key.

(** Which call may follow the calls [t] of the same operation, which is a rotation or not:
    what is signed was canonicalized or is the validated record, only fully signed events
    are written, and a rotation goes through the generation of the new key, its
    publication, the log, the activation and the retirement in this order. *)
Definition allowed (m : IdentityManager) (rotating : bool) (t : list event) (e : event) : Prop :=
  match e with
  | ESign p payload _ =>
      (exists o ev, ECanonical o ev (Ok payload) ∈ t)
      \/ (im_entityKeyProvider m = Some p
          /\ exists record, createUnsignedTxtRecord m = Ok record /\ payload = utf8_encode (canonical record))
  | ESignKey p kid payload _ =>
      (exists o ev, ECanonical o ev (Ok payload) ∈ t) /\ exists kid0 key, EJwk p kid0 (Ok key) ∈ t /\ kid = get key "kid"
  | EWriteEvent log ev _ => im_localLog m = Some log /\ fully_signed m ev /\ (rotating = true -> published t ev)
  | EGenerateKey p _ => rotating = true /\ im_keyProvider m = Some p
  | EPublishKeySet keySet _ => rotating = true /\ exists p kid key, generated t p kid key /\ keySet = mkJWKS [key]
  | EActivate p kid _ =>
      rotating = true /\ exists previous key, ESigningKey p (Ok previous) ∈ t /\ generated t p kid key
        /\ EPublishKeySet (mkJWKS [key]) (Ok tt) ∈ t /\ rotated m t previous key
  | ESupersede p kid _ =>
      rotating = true /\ exists previous newKid key, ESigningKey p (Ok previous) ∈ t /\ kid = get previous "kid"
        /\ generated t p newKid key /\ EActivate p newKid (Ok tt) ∈ t /\ rotated m t previous key
  | _ => True
  end.

(** ** Triples

    [triple m rotating base x t Q]: after the calls [base] of earlier operations and [t] of
    this one, the calls that [x] adds are allowed after [t], and when it returns, [Q] holds
    of the result and of the added calls. *)
Definition triple {A} (m : IdentityManager) (rotating : bool) (base : list event) (x : run A) (t : list event)
    (Q : A -> list event -> Prop) : Prop :=
  wp x (base ++ t) (fun o t' => exists new, t' = base ++ t ++ new
                      /\ (all_allowed (allowed m rotating) t -> all_allowed (allowed m rotating) (t ++ new))
                      /\ match o with Returns a => Q a new | Raises _ => True end).

Context (m : IdentityManager) (rotating : bool) (base : list event).
Notation spec := (triple m rotating base).

Lemma spec_mono {A} (x : run A) t (Q R : A -> list event -> Prop) :
  spec x t Q -> (forall a new, Q a new -> R a new) -> spec x t R.
Proof.
  intros H HR. eapply wp_mono; [apply H|]. intros o t' (new & -> & Hg & HQ). exists new.
  split; [done|]. split; [done|]. destruct o; [by apply HR|done].
Qed.

Lemma spec_ret {A} (a : A) t (Q : A -> list event -> Prop) : Q a [] -> spec (mret a) t Q.
Proof. intros H. apply wp_ret. exists []. by rewrite app_nil_r. Qed.

Lemma spec_raise {A} e t (Q : A -> list event -> Prop) : spec (raise e) t Q.
Proof. apply wp_raise. exists []. by rewrite app_nil_r. Qed.

Lemma spec_bind {A B} (x : run A) (f : A -> run B) t Q R : spec x t Q ->
  (forall a new, Q a new -> spec (f a) (t ++ new) (fun b new' => R b (new ++ new'))) -> spec (x ≫= f) t R.
Proof.
  intros Hx Hf. apply wp_bind. eapply wp_mono; [apply Hx|]. intros o t' (new & -> & Hg & HQ).
  destruct o as [a|e]; [|by exists new]. eapply wp_mono; [by apply Hf|].
  intros o t' (new' & -> & Hg' & HR). exists (new ++ new'). rewrite <-(app_assoc t new new') in *. auto.
Qed.

Lemma spec_ask {A} (answer : list event -> res A) log t (Q : A -> list event -> Prop) :
  (forall r, allowed m rotating t (log r)) -> (forall a, Q a [log (Ok a)]) -> spec (ask answer log) t Q.
Proof.
  intros Ha HQ. apply wp_ask. intros r. exists [log r]. rewrite app_assoc. split; [done|]. split.
  - intros Ht. by apply all_allowed_snoc.
  - by destruct r.
Qed.

Lemma spec_lift {A} (r : res A) t (Q : A -> list event -> Prop) : (forall a, r = Ok a -> Q a []) -> spec (lift r) t Q.
Proof.
  intros H. apply wp_pure; intros; exists []; rewrite app_nil_r; auto.
Qed.

Lemma spec_check b e t (Q : unit -> list event -> Prop) : (b = false -> Q tt []) -> spec (check b e) t Q.
Proof. intros H. apply spec_lift. intros [] Hb%throw_if_Ok. auto. Qed.

Lemma spec_update ev t (Q : LogEvent -> list event -> Prop) : Q ev [EUpdate ev] -> spec (update ev) t Q.
Proof. intros H. exists [EUpdate ev]. rewrite app_assoc. split; [done|]. split; [intros Ht; by apply all_allowed_snoc|done]. Qed.

Lemma spec_bind_ask {A B} (answer : list event -> res A) log (f : A -> run B) t (R : B -> list event -> Prop) :
  (forall r, allowed m rotating t (log r)) ->
  (forall a, spec (f a) (t ++ [log (Ok a)]) (fun b new => R b (log (Ok a) :: new))) -> spec (ask answer log ≫= f) t R.
Proof.
  intros Ha Hf. eapply (spec_bind _ _ _ (fun a new => new = [log (Ok a)])); [by apply spec_ask|].
  intros a ? ->. apply Hf.
Qed.

Lemma spec_bind_lift {A B} (r : res A) (f : A -> run B) t (R : B -> list event -> Prop) :
  (forall a, r = Ok a -> spec (f a) t R) -> spec (lift r ≫= f) t R.
Proof.
  intros Hf. eapply (spec_bind _ _ _ (fun a new => r = Ok a /\ new = [])); [by apply spec_lift|].
  intros a ? [Ha ->]. rewrite app_nil_r. by apply Hf.
Qed.

Lemma spec_bind_check {B} b e (f : unit -> run B) t (R : B -> list event -> Prop) :
  (b = false -> spec (f tt) t R) -> spec (check b e ≫= f) t R.
Proof. intros Hf. apply spec_bind_lift. intros [] Hb%throw_if_Ok. auto. Qed.

Lemma spec_bind_update {B} ev (f : LogEvent -> run B) t (R : B -> list event -> Prop) :
  spec (f ev) (t ++ [EUpdate ev]) (fun b new => R b (EUpdate ev :: new)) -> spec (update ev ≫= f) t R.
Proof.
  intros Hf. eapply (spec_bind _ _ _ (fun ev' new => ev' = ev /\ new = [EUpdate ev])); [by apply spec_update|].
  by intros ? ? [-> ->].
Qed.

(** ** Signing *)

(** The fields that a signature of a role is stored in. *)
Definition slot (role : LogSignerRole) : nat :=
  match role with OperationalCountersignature => 1 | NewOperational => 2 | _ => 0 end.
Definition agree (k : nat) (a b : LogEvent) : Prop :=
  match k with
  | 0%nat => ev_signingKid a = ev_signingKid b /\ ev_sig a = ev_sig b
  | 1%nat => ev_operationalCountersig a = ev_operationalCountersig b
  | 2%nat => ev_newOperationalProof a = ev_newOperationalProof b
  | _ => True
  end.
(** Only the fields of these roles may differ. *)
Definition changes (roles : list LogSignerRole) (a b : LogEvent) : Prop :=
  same_content a b /\ forall k, k ∉ map slot roles -> agree k a b.

#[local] Instance agree_equiv k : Equivalence (agree k).
Proof. destruct k as [|[|[|k]]]; split; intros ?; cbn; intros; intuition congruence. Qed.

Lemma changes_refl roles a : changes roles a a.
Proof. split; [done|]. intros k _. reflexivity. Qed.
Lemma changes_trans r1 r2 a b c : changes [r1] a b -> changes r2 b c -> changes (r1 :: r2) a c.
Proof.
  intros [Hs Ha] [Hs' Ha']. split; [by transitivity b|]. cbn. intros k [Hk Hk']%not_elem_of_cons.
  transitivity b; [apply Ha; cbn; by rewrite list_elem_of_singleton|by apply Ha'].
Qed.

Lemma changes_intro role a b : same_content a b -> (slot role <> 0%nat -> agree 0 a b) ->
  (slot role <> 1%nat -> agree 1 a b) -> (slot role <> 2%nat -> agree 2 a b) -> changes [role] a b.
Proof.
  intros Hs H0 H1 H2. split; [done|]. cbn [map]. intros k Hk. rewrite list_elem_of_singleton in Hk.
  destruct k as [|[|[|k]]]; [by apply H0|by apply H1|by apply H2|done].
Qed.

Lemma canonical_bytes_more t more a b bs : same_content a b -> canonical_bytes t a bs -> canonical_bytes (t ++ more) b bs.
Proof. intros Hs (o & ev0 & Hi & Hc). exists o, ev0. split; [set_solver|by transitivity a]. Qed.

(** A signature stays made when other calls follow and other fields change. *)
Lemma made_more t more role p a b : same_content a b -> agree (slot role) a b -> made t role p a -> made (t ++ more) role p b.
Proof.
  intros Hs Ha (bs & s & Hc & H). exists bs, s. split; [by eapply canonical_bytes_more|].
  destruct Hs as (_ & _ & _ & Hp). rewrite <-Hp.
  destruct role; cbn in Ha; [destruct Ha as [<- <-]|done|rewrite <-Ha|destruct Ha as [<- <-]|rewrite <-Ha];
    set_solver.
Qed.

Context (env : Environment).

Lemma spec_bind_canonical {B} binding ev (f : bytes -> run B) t (R : B -> list event -> Prop) :
  (forall o bs, spec (f bs) (t ++ [ECanonical o ev (Ok bs)]) (fun b new => R b (ECanonical o ev (Ok bs) :: new))) ->
  spec (canonical_of env binding ev ≫= f) t R.
Proof.
  intros Hf. destruct binding as [o|]; [by apply spec_bind_ask|]. by apply spec_bind_lift.
Qed.

Ltac spec_steps :=
  repeat first
    [ apply spec_raise
    | apply spec_bind_canonical; intros
    | apply spec_bind_update
    | apply spec_bind_check; intros
    | apply spec_bind_lift; intros
    | apply spec_bind_ask; [intros; cbn [allowed]; first [exact I|by split; [|by eapply of_option_Ok]|set_solver]|intros]
    | apply spec_update
    | apply spec_ret ].

Ltac mem_tac := repeat first [apply list_elem_of_here | apply list_elem_of_further].
Ltac made_tac :=
  repeat match goal with u : () |- _ => destruct u end; bool_inv; subst;
  split; [apply changes_intro; cbn; done|right]; do 2 eexists;
  split; [by do 2 eexists; split; [left|]|];
  first [do 2 eexists; repeat split; solve [eassumption|reflexivity|mem_tac]
        |eexists; repeat split; solve [eassumption|reflexivity|mem_tac]].

Lemma signEventWithProvider_spec ev role p binding t :
  spec (signEventWithProvider env ev role p binding) t
    (fun ev' new => changes [role] ev ev' /\ (role = Operational \/ made new role p ev')).
Proof.
  unfold signEventWithProvider, signingKey, jwk_of, sign, signKey. spec_steps.
  destruct role.
  - spec_steps. eapply (spec_bind _ _ _ (fun _ new => new = [] /\ forall i, ev_payload ev = ISSUANCE i -> assertIssuanceEntityKey i a0 = Ok tt)).
    { destruct (ev_payload ev); try (by apply spec_ret); apply spec_lift. intros [] Hi. split; [done|]. by intros ? [= <-]. }
    intros [] ? [-> Hi]. spec_steps. made_tac.
  - spec_steps. split; [apply changes_refl|by left].
  - destruct (ev_payload ev) eqn:E; spec_steps. made_tac.
  - destruct (ev_payload ev) eqn:E; spec_steps. made_tac.
  - destruct (ev_payload ev) eqn:E; spec_steps. made_tac.
Qed.
Lemma signEvent_spec ev role t :
  spec (signEvent env m ev role) t
    (fun ev' new => changes [role] ev ev' /\ exists p, signer_of m role = Some p /\ (role = Operational \/ made new role p ev')).
Proof.
  apply spec_bind_lift. intros p Hp%of_option_Ok. eapply spec_mono; [apply signEventWithProvider_spec|].
  intros ev' new [Hc Hm]. split; [done|]. by exists p.
Qed.

Lemma has_agree a b role : same_content a b -> agree (slot role) a b -> hasLogSignature a role = hasLogSignature b role.
Proof.
  intros (_ & _ & _ & Hp) Ha. unfold hasLogSignature, is_rotation. rewrite Hp.
  by destruct role; cbn in Ha; first [rewrite Ha|rewrite (proj2 Ha)].
Qed.

Lemma sign_missing_changes roles ev t :
  spec (sign_missing env m roles ev) t (fun ev' new => changes roles ev ev').
Proof.
  revert ev t; induction roles as [|role roles IH]; intros ev t; cbn [sign_missing].
  { apply spec_ret, changes_refl. }
  eapply (spec_bind _ _ _ (fun ev' _ => changes [role] ev ev')).
  - destruct (hasLogSignature ev role); [apply spec_ret, changes_refl|].
    eapply spec_mono; [apply signEvent_spec|]. by intros ev' new [].
  - intros ev1 new H1. eapply spec_mono; [apply IH|]. intros ev2 new' H2. by eapply changes_trans.
Qed.

(** When no signature of the roles is there and they are stored in different fields, each
    is made. *)
Lemma sign_missing_made roles ev t : NoDup (map slot roles) -> Operational ∉ roles ->
  Forall (fun role => hasLogSignature ev role = false) roles ->
  spec (sign_missing env m roles ev) t
    (fun ev' new => changes roles ev ev'
                    /\ Forall (fun role => exists p, signer_of m role = Some p /\ made new role p ev') roles).
Proof.
  revert ev t; induction roles as [|role roles IH]; intros ev t Hnd Ho Hu; cbn [sign_missing].
  { apply spec_ret. split; [apply changes_refl|constructor]. }
  apply Forall_cons in Hu as [Hr Hu]. cbn [map] in Hnd. apply NoDup_cons in Hnd as [Hn Hnd].
  apply not_elem_of_cons in Ho as [Hor Ho]. rewrite Hr. eapply spec_bind; [apply signEvent_spec|].
  intros ev1 new (H1 & p & Hp & [->|Hm]); [done|]. eapply spec_mono; [apply IH; [done|done|]|].
  - rewrite Forall_forall in *. intros r Hi. rewrite <-(Hu r Hi). symmetry. apply has_agree; [apply H1|].
    apply H1. cbn. rewrite list_elem_of_singleton. intros E. apply Hn. rewrite <-E. by apply list_elem_of_fmap_2.
  - intros ev2 new' [H2 Hf]. split; [by eapply changes_trans|]. constructor.
    + exists p. split; [done|]. by apply (made_more new new' role p ev1); [apply H2|apply H2|].
    + eapply Forall_impl; [apply Hf|]. intros r (q & Hq & Hmq). exists q. split; [done|].
      destruct Hmq as (bs & s & (o & ev0 & Hi & Hs) & Hrest). exists bs, s. split; [exists o, ev0; set_solver|].
      destruct r; set_solver.
Qed.

Lemma published_more t new a b : same_content a b -> published t a -> published (t ++ new) b.
Proof.
  intros (_ & _ & _ & Hp) (p & kid & key & f & (H1 & H2 & H3) & H4 & H5 & H6). exists p, kid, key, f.
  rewrite <-Hp. split; [split; [set_solver|split; [set_solver|done]]|]. split; [set_solver|done].
Qed.

Lemma writeSignedEvent_spec ev t : (rotating = true -> published t ev) ->
  spec (writeSignedEvent env m ev) t
    (fun ref new => exists log, im_localLog m = Some log /\ fully_signed m ev /\ new = [EWriteEvent log ev (Ok ref)]).
Proof.
  intros Hp. apply spec_bind_lift. intros log Hl%of_option_Ok. apply spec_bind_check. intros Hs.
  assert (Hf : fully_signed m ev).
  { apply Forall_forall. intros role Hi. destruct (hasLogSignature ev role) eqn:E; [done|].
    assert (Ht : existsb (fun role => negb (hasLogSignature ev role)) (requiredLogSignatures m ev) = true)
      by (apply existsb_exists; exists role; split; [by apply list_elem_of_In|by rewrite E]).
    congruence. }
  apply spec_ask; [done|]. intros ref. by exists log.
Qed.

Lemma signAndWriteEvent_spec ev t : (rotating = true -> published t ev) ->
  spec (signAndWriteEvent env m ev) t
    (fun written new => exists log, EWriteEvent log (snd written) (Ok (fst written)) ∈ new
        /\ fully_signed m (snd written) /\ same_content ev (snd written)).
Proof.
  intros Hp. eapply spec_bind; [apply sign_missing_changes|]. intros ev' new [Hs _].
  eapply spec_bind; [apply writeSignedEvent_spec; intros Hr; by eapply published_more; [|apply Hp]|]. intros ref new' (log & _ & Hf & ->).
  apply spec_ret. exists log. cbn. set_solver.
Qed.
(** ** Rotation and publication *)

Lemma distinct_roles_spec (roles seen : list LogSignerRole) : NoDup seen ->
  let r := foldl (fun seen r => if bool_decide (r ∈ seen) then seen else seen ++ [r]) seen roles in
  NoDup r /\ forall x, x ∈ r <-> x ∈ seen \/ x ∈ roles.
Proof.
  revert seen; induction roles as [|y roles IH]; intros seen Hn; cbn [foldl]; [set_solver|].
  case_bool_decide as Hy.
  - destruct (IH seen Hn) as [Hr He]. split; [done|]. intros x. rewrite He. set_solver.
  - destruct (IH (seen ++ [y])) as [Hr He].
    { apply NoDup_app. split; [done|]. split; [set_solver|apply NoDup_singleton]. }
    split; [done|]. intros x. rewrite He. set_solver.
Qed.

(** The log method asks for no other signature in the fields of the first one. *)
Definition plain_roles : Prop := forall ev role, role ∈ additional_roles (im_localLogBinding m) ev -> slot role <> 0%nat.

Lemma required_roles ev : plain_roles ->
  NoDup (map slot (requiredLogSignatures m ev)) /\ Operational ∉ requiredLogSignatures m ev.
Proof.
  intros Hp. unfold requiredLogSignatures, requiredLogSignaturesFor.
  edestruct distinct_roles_spec as [Hn He]; [apply NoDup_nil_2|]. split.
  - apply (NoDup_fmap_2_strong slot); [|exact Hn]. intros x y Hx Hy Exy. apply He in Hx, Hy.
    destruct Hx as [?%not_elem_of_nil|Hx], Hy as [?%not_elem_of_nil|Hy]; try done.
    apply elem_of_app in Hx, Hy.
    assert (Hz : forall z, z ∈ additional_roles (im_localLogBinding m) ev -> z = OperationalCountersignature \/ z = NewOperational)
      by (intros z Hz%Hp; destruct z; cbn in Hz; auto; done).
    destruct Hx as [Hx|Hx%Hz], Hy as [Hy|Hy%Hz]; destruct (is_issuance ev), (is_rotation ev), x, y; set_solver.
  - intros Hi. apply He in Hi as [?%not_elem_of_nil|[Hi|Hi%Hp]%elem_of_app]; [done| |done].
    destruct (is_issuance ev), (is_rotation ev); set_solver.
Qed.

Definition unsigned (ev : LogEvent) : Prop :=
  filled (ev_sig ev) = false /\ filled (ev_operationalCountersig ev) = false /\ filled (ev_newOperationalProof ev) = false.

Lemma signAndWriteEvent_made ev t : plain_roles -> unsigned ev -> (rotating = true -> published t ev) ->
  spec (signAndWriteEvent env m ev) t
    (fun written new => exists log, EWriteEvent log (snd written) (Ok (fst written)) ∈ new
        /\ fully_signed m (snd written) /\ same_content ev (snd written)
        /\ Forall (fun role => exists p, signer_of m role = Some p /\ made new role p (snd written)) (requiredLogSignatures m ev)).
Proof.
  intros [Hn Ho]%(required_roles ev) (U0 & U1 & U2) Hpub.
  eapply spec_bind; [apply sign_missing_made; [done|done|]|].
  { apply Forall_forall. intros role _. destruct role; cbn; try done. by rewrite U2, andb_false_r. }
  intros ev' new [[Hs _] Hm].
  eapply spec_bind; [apply writeSignedEvent_spec; intros Hr'; by eapply published_more; [|apply Hpub]|]. intros ref new' (log & _ & Hf & ->).
  apply spec_ret. exists log. cbn. split; [set_solver|]. split; [done|]. split; [done|].
  eapply Forall_impl; [apply Hm|]. intros role (p & Hp & Hr). exists p. split; [done|]. by apply (made_more new _ role p ev').
Qed.
(** What a rotation that returns has done. *)
Definition rotation_done (r : OperationalKeyRotationResult) (new : list event) : Prop :=
  exists p previous newKid key log t1 t2 timestamp identity ev0,
    im_keyProvider m = Some p /\ dc_identity (im_config m) = Some identity
    /\ ESigningKey p (Ok previous) ∈ new /\ validateOperational (mkJWKS [previous]) = Ok tt
    /\ generated new p newKid key /\ or_keySet r = mkJWKS [key] /\ EPublishKeySet (or_keySet r) (Ok tt) ∈ new
    /\ jwkThumbprint previous = Ok t1 /\ jwkThumbprint key = Ok t2
    /\ ev0 = rotation_of (ic_domain identity) previous key t1 t2 (Some timestamp) /\ same_content ev0 (or_event r)
    /\ EWriteEvent log (or_event r) (Ok (or_logRef r)) ∈ new /\ fully_signed m (or_event r)
    /\ (plain_roles -> Forall (fun role => exists q, signer_of m role = Some q /\ made new role q (or_event r))
                        (requiredLogSignatures m ev0))
    /\ EActivate p newKid (Ok tt) ∈ new /\ ESupersede p (get previous "kid") (Ok tt) ∈ new.

Lemma spec_and_if {A} (P : Prop) (x : run A) t (Q R : A -> list event -> Prop) :
  spec x t Q -> (P -> spec x t R) -> spec x t (fun a new => Q a new /\ (P -> R a new)).
Proof.
  intros (new & Et & Hg & HQ) HR. exists new. split; [done|]. split; [done|].
  destruct (fst (x (base ++ t))) as [a|e] eqn:E; [|done]. split; [done|]. intros (new' & Et' & _ & HR')%HR.
  rewrite E in HR'. rewrite Et in Et'. by apply app_inv_head, app_inv_head in Et' as <-.
Qed.

Lemma made_suffix before t role p ev : made t role p ev -> made (before ++ t) role p ev.
Proof.
  intros (bs & s & (o & ev0 & Hi & Hs) & Hrest). exists bs, s. split; [exists o, ev0; set_solver|].
  destruct role; set_solver.
Qed.

Lemma rotated_intro t log ev ev0 ref domain previous key t1 t2 ts : EWriteEvent log ev (Ok ref) ∈ t -> fully_signed m ev ->
  ev0 = rotation_of domain previous key t1 t2 ts -> same_content ev0 ev ->
  jwkThumbprint previous = Ok t1 -> jwkThumbprint key = Ok t2 -> rotated m t previous key.
Proof.
  intros Hi Hf -> (_ & _ & _ & Hp) H1 H2. do 4 eexists. split; [done|]. split; [done|]. by rewrite <-Hp.
Qed.

Lemma rotateOperationalKey_spec timestamp now t : rotating = true ->
  spec (rotateOperationalKey env m timestamp now) t rotation_done.
Proof.
  intros Hrot. unfold rotateOperationalKey, signingKey, jwk_of, activate, supersede. spec_steps.
  apply of_option_Ok in H, H3. repeat match goal with u : () |- _ => destruct u end.
  destruct (default _ timestamp) as [ts|] eqn:Ets; [|done].
  set (ev0 := rotation_of _ _ _ _ _ _). set (t0 := _ ++ [EJwk a a2 (Ok a3)]).
  assert (Hg : generated t0 a a2 a3) by (subst t0; split; [set_solver|split; [set_solver|done]]).
  assert (Hk : ESigningKey a (Ok a0) ∈ t0) by (subst t0; set_solver).
  apply spec_bind_ask; [by split; [|do 3 eexists]|]. intros [].
  assert (Hpub : rotating = true -> published (t0 ++ [EPublishKeySet (mkJWKS [a3]) (Ok tt)]) ev0).
  { intros _. destruct Hg as (?&?&?). exists a, a2, a3. eexists. split; [split; [set_solver|split; [set_solver|done]]|].
    split; [set_solver|]. by split. }
  eapply spec_bind.
  { apply spec_and_if; [by apply signAndWriteEvent_spec|]. intros Hp. by apply signAndWriteEvent_made. }
  intros [ref ev] new ((log & Hw & Hf & Hs) & Hm). cbn [fst snd] in *. set (t1 := _ ++ new).
  assert (Hg' : generated t1 a a2 a3) by (destruct Hg as (?&?&?); subst t1; split; [set_solver|split; [set_solver|done]]).
  assert (Hr : rotated m t1 a0 a3) by (eapply (rotated_intro _ log ev ev0 ref); try done; subst t1; set_solver).
  apply spec_bind_ask.
  { intros r. split; [done|]. exists a0, a3. split; [subst t1; set_solver|]. split; [done|]. split; [subst t1; set_solver|done]. }
  intros []. apply spec_bind_ask.
  { intros r. split; [done|]. exists a0, a2, a3. split; [subst t1; set_solver|]. split; [done|].
    split; [destruct Hg' as (?&?&?); split; [set_solver|split; [set_solver|done]]|]. split; [set_solver|].
    destruct Hr as (log' & ev' & ref' & f & Hi & ?). exists log', ev', ref', f. split; [set_solver|done]. }
  intros []. apply spec_ret. exists a, a0, a2, a3, log, a6, a7, ts, a5, ev0. cbn [or_event or_logRef or_keySet].
  repeat match goal with |- _ /\ _ => split end; try done; try set_solver.
  - split; [set_solver|]. split; [set_solver|done].
  - intros Hp. destruct (Hm Hp) as (_ & _ & _ & _ & Hall). eapply Forall_impl; [apply Hall|].
    intros role (q & Hq & Hmade). exists q. split; [done|].
    by apply (made_suffix [_; _; _; _]), (made_more new _ role q ev).
Qed.

Lemma createTxtRecord_spec t :
  spec (createTxtRecord env m) t (fun text new => exists p q record entityKey agentKey t1 t2 s,
     im_entityKeyProvider m = Some p /\ im_keyProvider m = Some q /\ createUnsignedTxtRecord m = Ok record
     /\ ESigningKey p (Ok entityKey) ∈ new /\ ESigningKey q (Ok agentKey) ∈ new
     /\ validateRecordSigning (mkJWKS [entityKey]) = Ok tt /\ validateOperational (mkJWKS [agentKey]) = Ok tt
     /\ jwkThumbprint entityKey = Ok t1 /\ jwkThumbprint agentKey = Ok t2 /\ t1 <> t2
     /\ ESign p (utf8_encode (canonical record)) (Ok s) ∈ new
     /\ text = serialize (with_sg record (toBase64Url s))).
Proof.
  unfold createTxtRecord, signingKey, sign. spec_steps.
  apply of_option_Ok in H, H1. apply bool_decide_eq_false in H6. repeat match goal with u : () |- _ => destruct u end.
  apply spec_bind_ask; [intros r; right; split; [done|by exists a0]|]. intros s. apply spec_ret.
  exists a1, a, a0, a2, a3, a6, a7, s. repeat match goal with |- _ /\ _ => split end; try done; set_solver.
Qed.
Lemma getKeySet_spec t : spec (getKeySet env m) t (fun ks _ => validateOperational ks = Ok tt).
Proof. unfold getKeySet, signingKey. spec_steps. match goal with u : () |- _ => by destruct u end. Qed.
Lemma getEntityKeySet_spec t : spec (getEntityKeySet env m) t (fun ks _ => validateRecordSigning ks = Ok tt).
Proof. unfold getEntityKeySet, signingKey. spec_steps. match goal with u : () |- _ => by destruct u end. Qed.

End Specification.

(** ** Any use of a manager *)

Section Use.
Context `{Url : URLApi} `{Uni : Unicode} `{Jwk : JwkApi}.

Inductive operation :=
  | SignAndWriteEvent (ev : LogEvent)
  | CanonicalizeLogEvent (ev : LogEvent)
  | SignEvent (ev : LogEvent) (role : LogSignerRole)
  | SignEventWithProvider (ev : LogEvent) (role : LogSignerRole) (p : nat) (binding : option (@reader LogObject))
  | WriteSignedEvent (ev : LogEvent)
  | GetKeySet
  | GetEntityKeySet
  | RotateOperationalKey (timestamp : option date) (now : Z)
  | CreateTxtRecord.

Definition is_rotating (op : operation) : bool := match op with RotateOperationalKey _ _ => true | _ => false end.

Context (m : IdentityManager) (env : Environment).

Definition perform (op : operation) : run unit :=
  match op with
  | SignAndWriteEvent ev => signAndWriteEvent env m ev;; mret tt
  | CanonicalizeLogEvent ev => canonicalizeLogEvent env m ev;; mret tt
  | SignEvent ev role => signEvent env m ev role;; mret tt
  | SignEventWithProvider ev role p binding => signEventWithProvider env ev role p binding;; mret tt
  | WriteSignedEvent ev => writeSignedEvent env m ev;; mret tt
  | GetKeySet => getKeySet env m;; mret tt
  | GetEntityKeySet => getEntityKeySet env m;; mret tt
  | RotateOperationalKey timestamp now => rotateOperationalKey env m timestamp now;; mret tt
  | CreateTxtRecord => createTxtRecord env m;; mret tt
  end.

(** The calls of one operation after the other, each of which may fail. *)
Definition perform_all (ops : list operation) (t : list event) : list event :=
  foldl (fun t op => snd (perform op t)) t ops.

Lemma spec_unit {A} rotating base (x : run A) t Q :
  triple m rotating base x t Q -> triple m rotating base (x;; mret tt) t (fun _ _ => True).
Proof. intros H. eapply spec_bind; [apply H|]. intros a new _. by apply spec_ret. Qed.

Lemma perform_spec op base t : triple m (is_rotating op) base (perform op) t (fun _ _ => True).
Proof.
  destruct op; cbn [perform is_rotating]; eapply spec_unit.
  - by apply signAndWriteEvent_spec.
  - apply spec_bind_lift. intros binding _. destruct binding; [by apply (spec_ask _ _ _ _ _ _ (fun _ _ => True))|by apply (spec_lift _ _ _ _ _ (fun _ _ => True))].
  - apply signEvent_spec.
  - apply signEventWithProvider_spec.
  - by apply writeSignedEvent_spec.
  - apply getKeySet_spec.
  - apply getEntityKeySet_spec.
  - by apply rotateOperationalKey_spec.
  - apply createTxtRecord_spec.
Qed.

(** The operations one after the other with the calls of each. *)
Definition own_calls_allowed (op : operation) (calls : list event) : Prop :=
  all_allowed (allowed m (is_rotating op)) calls.

Lemma perform_all_allowed ops base : exists calls,
  perform_all ops base = base ++ concat calls /\ Forall2 own_calls_allowed ops calls.
Proof.
  revert base; induction ops as [|op ops IH]; intros base; cbn [perform_all foldl].
  { exists []. by rewrite app_nil_r. }
  destruct (perform_spec op base []) as (new & E & Hg & _). rewrite app_nil_r in E.
  destruct (IH (snd (perform op base))) as (calls & Ec & Hc). exists (new :: calls).
  split; [unfold perform_all in Ec; rewrite Ec, E; cbn; by rewrite <-app_assoc|].
  constructor; [by apply Hg, all_allowed_nil|done].
Qed.
End Use.

(** C2: whatever a manager is asked to do, in whatever order, and whatever fails: the calls
    are those of one operation after the other, and each operation keeps to its order by
    its own calls.  Keys only sign bytes that the log method computed for an event or the
    canonical text of the manager's own validated record; only events that carry every
    required signature are written, to the local log.  Only a rotation generates,
    publishes, activates or retires keys: it generates the new key, then publishes its key
    set, writes an event to the log only after this publication succeeded and only for the
    rotation to this key, activates the key only after the log accepted the rotation from
    the previous key to it, and retires the previous key only after that activation; a
    failure at any point leaves out what would follow. *)
Theorem manager_calls_allowed `{URLApi} `{Unicode} `{JwkApi} m env ops :
  exists calls, perform_all m env ops [] = concat calls
    /\ Forall2 (fun op own => all_allowed (allowed m (is_rotating op)) own) ops calls.
Proof. apply (perform_all_allowed m env ops []). Qed.

(** A rotation that returns has published the key set of the generated key, logged an
    event from the previous to the new key, of the configured identity, that carries all
    required signatures, activated the new key and retired the previous one; when the log
    method asks for further signatures in fields of their own only, each was made by the
    provider of its role with the right key over the canonical bytes of this event. *)
Theorem rotateOperationalKey_done `{URLApi} `{Unicode} `{JwkApi} env m timestamp now t r t' :
  rotateOperationalKey env m timestamp now t = (Returns r, t') ->
  exists new, t' = t ++ new /\ rotation_done m r new.
Proof.
  intros E. destruct (rotateOperationalKey_spec m true t env timestamp now [] eq_refl) as (new & Et & _ & HQ).
  rewrite app_nil_r, E in *. by exists new.
Qed.

(** ** Witnesses *)

Section Example.
#[local] Existing Instances Sha256.Sha256_instance ConfigExamples.RootlessUrl AsciiUnicode ToyJwk.

Definition text (s : string) : json := JString (js s).
Definition local_config (flags : string) : json :=
  JObject [(js "identity", JObject [(js "domain", text "bot.example.com"); (js "governanceId", text "example.com");
             (js "logRef", text "c2sp-tlog:log"); (js "statusUrl", text "https://example.com/su");
             (js "ekUrl", text "https://keys.example.com/ek"); (js "kuUrl", text "https://bot.example.com/ku");
             (js "policyFlags", text flags); (js "maxKeyAge", text "30d")])].

(** A log method that asks for the new key's signature on rotations. *)
Definition example_log : LogObject :=
  mkLogObject 0 (Some (fun ev => if is_rotation ev then [NewOperational] else [])) true.
Definition example_manager (flags : string) : IdentityManager :=
  ok_or (mkManager (mkDnsidConfig None (mkVerificationConfig None None None) (mkTransportConfig None None None)) None None None None)
    (new_IdentityManager (local_config flags) (Some 0%nat) (Some 1%nat) (Some {[ js "c2sp-tlog" := fun _ _ => Ok example_log ]})).

Definition generated_key : jwk := ed_key "o2" "NN".
Definition key_named (kid : jsstr) : jwk := if bool_decide (kid = js "o2") then generated_key else example_operational.
Definition signature_of_key (key : jwk) : res bytes :=
  match get key "x" with JString x => fromBase64Url x | _ => Throw (EError "TypeError") end.

(** Two providers whose signatures are toys; 0 holds the operational keys, 1 the entity key. *)
Definition example_env : Environment := {|
  env_signingKey := fun _ p => Ok (if (p =? 0)%nat then example_operational else example_entity);
  env_jwk := fun _ _ kid => Ok (key_named kid);
  env_sign := fun _ p _ => signature_of_key (if (p =? 0)%nat then example_operational else example_entity);
  env_signKey := fun _ _ kid _ => signature_of_key (key_named (default [] (as_str kid)));
  env_generateKey := fun _ _ => Ok (js "o2");
  env_activate := fun _ _ _ => Ok tt;
  env_supersede := fun _ _ _ => Ok tt;
  env_publishKeySet := fun _ _ => Ok tt;
  env_canonical := fun _ _ ev => Ok (utf8_encode (ev_domain ev));
  env_writeEvent := fun _ _ _ => Ok (js "c2sp-tlog:log@7")
|}.

Definition returns {A} (x : run A) : bool := match fst (x []) with Returns _ => true | Raises _ => false end.
Lemma returns_inv {A} (x : run A) : returns x = true -> exists a t, x [] = (Returns a, t).
Proof. unfold returns. destruct (x []) as [[a|e] t]; [by eauto|done]. Qed.

Lemma example_rotation : returns (rotateOperationalKey example_env (example_manager "mtls") None 5500) = true.
Proof. vm_compute. reflexivity. Qed.

Lemma rotateOperationalKey_done_witness : exists r t,
  rotateOperationalKey example_env (example_manager "mtls") None 5500 [] = (Returns r, t)
  /\ exists new, t = [] ++ new /\ rotation_done (example_manager "mtls") r new.
Proof.
  destruct (returns_inv _ example_rotation) as (r & t & E). exists r, t. split; [exact E|].
  exact (rotateOperationalKey_done example_env (example_manager "mtls") None 5500 [] r t E).
Defined.
End Example.
