(* ===== verification/PublishedRecord.v ===== *)
(** The TXT record that an identity manager publishes is one that verifiers accept:
    [createTxtRecord] against [parse], [validate] and the signature check of
    [protocol/src/identity-manager.ts]. *)

From S2P Require Import Prelude Effects JsString Base64 Url Utils TxtRecord Json Jwk EventCodec LogRegistry.
From S2P Require Import Verification DnsidConfig Publishing PublishingSafety.

(** ** A record as it is created *)

(** Required values, options that are not empty, nothing else. *)
Record created (r : DnsIdTxtRecord) : Prop := {
  cr_version : v r ∈ SUPPORTED_DNSID_VERSIONS;
  cr_required : Forall (fun s => s <> []) [v r; gi r; ek r; ku r; lr r; su r];
  cr_optional : Forall (fun o => o <> Some []) [fl r; ka r; cu r];
  cr_plain : unknownTags r = [] /\ parsedTags r = [];
  cr_values : Forall (fun s => is_tag_value s = true)
                [v r; gi r; ek r; ku r; lr r; su r; default [] (fl r); default [] (ka r); default [] (cu r)]
}.

(** What parsing stores besides the values. *)
Definition parsed_as (r : DnsIdTxtRecord) (tags : list jsstr) : DnsIdTxtRecord :=
  let '(mkTxtRecord v gi ek ku lr su sg fl ka cu un _ _) := r in mkTxtRecord v gi ek ku lr su sg fl ka cu un [] tags.

Definition signed_record_pairs (r : DnsIdTxtRecord) (sg : jsstr) : Prop :=
  let r' := with_sg r sg in
  let ps := serialize_pairs r' in
  (exists rest, ps = (js "v", v r) :: rest) /\ NoDup (map fst ps) /\ record_of ps = parsed_as r' (map fst ps)
  /\ canonical (parsed_as r' (map fst ps)) = canonical r
  /\ Forall (fun p => valid_pair p = true) ps.

Lemma created_pairs r sg : created r -> sg <> [] -> is_tag_value sg = true -> signed_record_pairs r sg.
Proof.
  intros [_ Hreq Hopt [Hu Hp] Hval] Hsg Hs. destruct r as [v gi ek ku lr su sg0 fl ka cu un ag pt].
  cbn [TxtRecord.v TxtRecord.gi TxtRecord.ek TxtRecord.ku TxtRecord.lr TxtRecord.su TxtRecord.fl TxtRecord.ka TxtRecord.cu
       unknownTags parsedTags] in *. subst un pt.
  repeat match goal with H : Forall _ (_ :: _) |- _ => apply Forall_cons in H as [? H] end.
  destruct v, gi, ek, ku, lr, su, sg; try done.
  destruct fl as [[|? ?]|], ka as [[|? ?]|], cu as [[|? ?]|]; try done.
  all: split; [eexists; reflexivity|]; split; [apply (bool_decide_unpack _); vm_compute; reflexivity|].
  all: split; [reflexivity|]; split; [reflexivity|].
  all: match goal with |- Forall ?P ?l => let l' := eval vm_compute in l in change (Forall P l') end.
  all: repeat (apply Forall_cons_2; [unfold valid_pair; cbn [fst snd]; apply andb_true_iff; split; [reflexivity|assumption]|]);
    apply Forall_nil_2.
Qed.

(** The serialized record parses back, with the created values, the canonical text that
    was signed, and the signature. *)
Lemma serialize_created r sg : created r -> sg <> [] -> is_tag_value sg = true ->
  exists r', parse (serialize (with_sg r sg)) = Ok r' /\ canonical r' = canonical r /\ TxtRecord.sg r' = sg
    /\ exists tags, r' = parsed_as (with_sg r sg) tags.
Proof.
  intros Hc Hsg Hs. destruct (created_pairs r sg Hc Hsg Hs) as ((rest & Ev) & Hnd & Er & Ec & Hv).
  set (ps := serialize_pairs (with_sg r sg)) in *.
  exists (record_of ps). split; [|split; [by rewrite Er|split; [rewrite Er; by destruct r|by rewrite Er; eexists]]].
  apply parseTagPairs_text; [|by eauto]. split; [done|done| | |done].
  - rewrite Er. destruct r. apply Hc.
  - rewrite Er. destruct Hc as [_ Hreq _ _ _]. destruct r as [? ? ? ? ? ? ? ? ? ? ? ? ?]. 
    repeat match goal with H : Forall _ (_ :: _) |- _ => apply Forall_cons in H as [? H] end.
    repeat constructor; assumption.
Qed.

(** ** What a configuration creates *)

(** The configured texts are tag values: printable ASCII without blanks and semicolons. *)
Definition publishable (i : IdentityConfig) : Prop :=
  Forall (fun s => is_tag_value s = true)
    [ic_logRef i; ic_statusUrl i; default [] (ic_ekUrl i); default [] (ic_kuUrl i);
     default [] (ic_policyFlags i); default [] (ic_capabilitiesUrl i)].

Section Published.
Context `{Url : URLApi} `{Uni : Unicode} `{Jwk : JwkApi}.

Lemma ka_values : Forall (fun s => is_tag_value s = true) VALID_KA_VALUES.
Proof. by apply (bool_decide_unpack _). Qed.

Lemma validate_values r : TxtRecord.validate r = Ok tt ->
  is_tag_value (gi r) = true /\ Forall (fun s => s <> []) [gi r; lr r; su r]
  /\ (forall s, ka r = Some s -> s <> [] -> is_tag_value s = true).
Proof.
  unfold TxtRecord.validate, validateLrFormat. intros H. res_inv. bool_inv. subst. split; [|split].
  - by eapply name_value.
  - match goal with H : normalizeFQDN (gi r) false = _ |- _ => apply name_value in H as [_ Hg] end.
    apply Forall_cons_2; [done|]. apply Forall_cons_2; [by destruct (lr r)|]. apply Forall_cons_2; [|apply Forall_nil_2].
    match goal with H : validateHttpsUrl (su r) = _ |- _ => revert H end. by destruct (su r).
  - intros s Es Hs. match goal with H : match ka r with _ => _ end = _ |- _ => revert H end. rewrite Es. destruct s as [|u s]; [done|].
    intros Hk%throw_if_Ok. apply negb_false_iff, bool_decide_eq_true in Hk.
    by apply (proj1 (Forall_forall _ _) ka_values).
Qed.

Lemma createUnsignedTxtRecord_created m r : createUnsignedTxtRecord m = Ok r ->
  exists i, dc_identity (im_config m) = Some i /\ agentFQDN r = ic_domain i /\ TxtRecord.validate r = Ok tt
    /\ (publishable i -> created r).
Proof.
  unfold createUnsignedTxtRecord, requireIdentity. intros H. apply bind_Ok in H as (i & Hi%of_option_Ok & H).
  apply bind_Ok in H as (? & Hp%throw_if_Ok & H). apply negb_false_iff, bool_decide_eq_true in Hp.
  destruct (truthy_text (ic_ekUrl i)) as [ekUrl|] eqn:Eek; [|done]. destruct (truthy_text (ic_kuUrl i)) as [kuUrl|] eqn:Eku; [|done].
  apply bind_Ok in H as (? & Hv & [= <-]). exists i. split; [done|]. split; [done|].
  assert (Hval : TxtRecord.validate (mkTxtRecord (default DEFAULT_PUBLISH_PROFILE (ic_publishProfile i)) (ic_governanceId i)
     ekUrl kuUrl (ic_logRef i) (ic_statusUrl i) [] (truthy_text (ic_policyFlags i)) (truthy_text (ic_maxKeyAge i))
     (truthy_text (ic_capabilitiesUrl i)) [] (ic_domain i) []) = Ok tt)
    by (destruct (TxtRecord.validate _) as [[]|]; done).
  split; [done|]. intros Hpub. apply validate_values in Hval as (Hgi & Hne & Hka). cbn in Hgi, Hne, Hka.
  assert (Ht : forall o, truthy_text o <> Some [] /\ default [] (truthy_text o) = default [] o) by (by intros [[|? ?]|]).
  assert (Hku : forall o s, truthy_text o = Some s -> o = Some s /\ s <> []) by (intros [[|? ?]|] s; by try intros [= <-]).
  apply Hku in Eek as [Eek ?], Eku as [Eku ?]. unfold publishable in Hpub. rewrite Eek, Eku in Hpub. cbn in Hpub.
  repeat match goal with H : Forall _ (_ :: _) |- _ => apply Forall_cons in H as [? H] end.
  split; cbn [v gi ek ku lr su fl ka cu unknownTags parsedTags].
  - apply list_elem_of_singleton in Hp as ->. apply list_elem_of_here.
  - apply list_elem_of_singleton in Hp as ->. repeat apply Forall_cons_2; done || apply Forall_nil_2.
  - repeat apply Forall_cons_2; try apply Ht. apply Forall_nil_2.
  - done.
  - apply list_elem_of_singleton in Hp as ->. rewrite !(proj2 (Ht _)). repeat apply Forall_cons_2; try done.
    destruct (ic_maxKeyAge i) as [[|u s]|]; [done| |done]. by apply (Hka (u :: s)).
Qed.
Lemma validate_fields r sg tags : TxtRecord.validate (set_agentFQDN (parsed_as (with_sg r sg) tags) (agentFQDN r)) = TxtRecord.validate r.
Proof. by destruct r. Qed.

Lemma canonical_set_agent r agent : canonical (set_agentFQDN r agent) = canonical r /\ sg (set_agentFQDN r agent) = sg r.
Proof. by destruct r. Qed.

(** A signature of which the text form is published verifies as itself. *)
Lemma verify_published bs s key alg : validateRecordSigning (mkJWKS [key]) = Ok tt -> jwkSignatureAlg key = Ok alg ->
  verifyWithKey bs s key (Some alg) = true -> verifyDraft01RecordSignature (toBase64Url s) bs (mkJWKS [key]) = Ok key.
Proof.
  intros Hk Ha Hs. unfold validateRecordSigning in Hk. apply bind_Ok in Hk as (_ & _ & Hk).
  apply bind_Ok in Hk as (key' & Hc & _). unfold verifyDraft01RecordSignature. rewrite Hc.
  assert (key' = key) as ->.
  { unfold currentRecordSigningKey, currentDraft01SigningKey in Hc. cbn in Hc. destruct (isSigningUse key); [|done].
    res_inv. done. }
  cbn [mbind res_bind]. rewrite fromBase64Url_toBase64Url. cbn [catch mbind res_bind].
  rewrite (bool_decide_eq_true_2 (_ = _)) by done.
  assert (Hi : includes (toBase64Url s) [61] = false).
  { unfold includes. rewrite indexOf_none; [done|]. intros Hi%list_elem_of_In.
    pose proof (toBase64Url_alphabet s) as Hb. rewrite forallb_forall in Hb. by specialize (Hb _ Hi). }
  rewrite Hi. cbn [orb negb throw_if mbind res_bind]. rewrite Ha. cbn [mbind res_bind]. rewrite Hs. done.
Qed.

(** C3: when the configured log reference, URLs and policy flags are made of printable ASCII
    characters without blanks and semicolons (the other configured texts are checked when
    the record is created), a record that the manager creates carries the answer of the
    entity key provider for the canonical text of its validated record, and unless that
    answer is empty, verifiers accept it: it parses and validates for the configured domain,
    with the canonical text that was signed and this signature, and verifying the signature
    under the published entity key succeeds when it is a valid one. *)
Theorem createTxtRecord_verifies env m t text t' i : createTxtRecord env m t = (Returns text, t') ->
  dc_identity (im_config m) = Some i -> publishable i ->
  exists new p entityKey s r, t' = t ++ new /\ im_entityKeyProvider m = Some p /\ createUnsignedTxtRecord m = Ok r
    /\ ESigningKey p (Ok entityKey) ∈ new /\ validateRecordSigning (mkJWKS [entityKey]) = Ok tt
    /\ ESign p (utf8_encode (canonical r)) (Ok s) ∈ new
    /\ (s <> [] -> exists record, parse_record (ic_domain i) text = Ok record
          /\ canonical record = canonical r /\ sg record = toBase64Url s
          /\ forall alg, jwkSignatureAlg entityKey = Ok alg ->
               verifyWithKey (utf8_encode (canonical record)) s entityKey (Some alg) = true ->
               verifyDraft01RecordSignature (sg record) (utf8_encode (canonical record)) (mkJWKS [entityKey]) = Ok entityKey).
Proof.
  intros Hrun Hi Hpub. pose proof (createTxtRecord_spec m false t env []) as (new & Ht & _ & HQ).
  rewrite app_nil_r, Hrun in Ht, HQ.
  destruct HQ as (p & q & r & entityKey & agentKey & t1 & t2 & s & Hp & Hq & Hr & Hek & Hak & Hv & Hva & _ & _ & _ & Hsig & ->).
  exists new, p, entityKey, s, r. repeat (split; [done|]). intros Hs.
  apply createUnsignedTxtRecord_created in Hr as (i' & Hi' & Hd & Hval & Hc).
  rewrite Hi in Hi'. injection Hi' as <-. specialize (Hc Hpub).
  assert (Hne : toBase64Url s <> []).
  { intros E. apply Hs. pose proof (fromBase64Url_toBase64Url s) as Hb. rewrite E in Hb. by injection Hb. }
  destruct (serialize_created r (toBase64Url s) Hc Hne (base64url_value s)) as (r' & Hparse & Hcan & Hsg & tags & Er).
  exists (set_agentFQDN r' (ic_domain i)). destruct (canonical_set_agent r' (ic_domain i)) as [Ec Es].
  rewrite Ec, Es, Hcan, Hsg. split; [|split; [done|split; [done|intros alg; by apply verify_published]]].
  unfold parse_record. rewrite Hparse. cbn [catch mbind res_bind]. rewrite Er, <-Hd, validate_fields, Hval. done.
Qed.
End Published.

(** ** Witnesses *)

Section Example.
#[local] Existing Instances Sha256.Sha256_instance ConfigExamples.RootlessUrl AsciiUnicode StreamVerifier.ToyJwk.

Definition real_signature (e : event) : bool := match e with ESign _ _ (Ok []) => false | _ => true end.
Definition published (flags : string) : option (jsstr * list event) :=
  match createTxtRecord example_env (example_manager flags) [] with
  | (Returns text, t) => if forallb real_signature t then Some (text, t) else None
  | _ => None
  end.

Lemma published_inv flags text t : published flags = Some (text, t) ->
  createTxtRecord example_env (example_manager flags) [] = (Returns text, t) /\ forall p bs, ESign p bs (Ok []) ∉ t.
Proof.
  unfold published. destruct (createTxtRecord _ _ _) as [[s|e] t0]; [|done]. destruct (forallb _ t0) eqn:E; [|done].
  intros [= <- <-]. split; [done|]. intros p bs Hi%list_elem_of_In. rewrite forallb_forall in E. by specialize (E _ Hi).
Qed.

Definition example_identity : IdentityConfig :=
  mkIdentityConfig (js "bot.example.com") (js "example.com") (js "c2sp-tlog:log") (js "https://example.com/su")
    (Some (js "mtls")) (Some (js "30d")) (Some (js "https://keys.example.com/ek")) (Some (js "https://bot.example.com/ku"))
    None None.
Lemma example_published :
  bool_decide (is_Some (published "mtls")) = true
  /\ dc_identity (im_config (example_manager "mtls")) = Some example_identity.
Proof. split; vm_compute; reflexivity. Qed.

Lemma createTxtRecord_verifies_witness : exists text t record,
  createTxtRecord example_env (example_manager "mtls") [] = (Returns text, t)
  /\ parse_record (js "bot.example.com") text = Ok record.
Proof.
  destruct example_published as [Hp Hi]. apply bool_decide_eq_true in Hp as [[text t] Hp].
  destruct (published_inv _ _ _ Hp) as [Hrun Hs].
  destruct (createTxtRecord_verifies example_env (example_manager "mtls") [] text t example_identity Hrun Hi)
    as (new & p & key & s & r & Et & _ & _ & _ & _ & Hsig & Hv); [apply (bool_decide_unpack _); vm_compute; reflexivity|].
  destruct Hv as (record & Hr & _); [intros ->; apply (Hs p (utf8_encode (canonical r))); rewrite Et; exact Hsig|].
  exists text, t, record. exact (conj Hrun Hr).
Defined.

(** A semicolon in a configured text passes validation; what is published then parses to a
    record with another canonical text than the one that was signed. *)
Definition published_canonical (flags : string) : option (jsstr * jsstr) :=
  match published flags, createUnsignedTxtRecord (example_manager flags) with
  | Some (text, _), Ok signed =>
      match parse text with Ok record => Some (canonical signed, canonical record) | Throw _ => None end
  | _, _ => None
  end.
Lemma semicolon_changes_record : match published_canonical "a;zz=1" with Some (a, b) => negb (bool_decide (a = b)) | None => false end = true.
Proof. vm_compute. reflexivity. Qed.
End Example.
