(* ===== verification/Issuance.v ===== *)
(** The bilateral issuance binding of [protocol/src/identity-manager.ts]: the bytes that the
    entity key and the first operational key both sign, and their verification. *)

From S2P Require Import Prelude JsString Base64 Url Utils TxtRecord Json JsonText Jwk EventCodec Verification.

(** ** [Date.prototype.toISOString] *)

(** The proleptic Gregorian date of a day since 1970-01-01: the year of the era of 400
    years that begins in March, the day of that year, and the month counted from March. *)
Definition year_of_era (doe : Z) : Z := (doe - doe / 1460 + doe / 36524 - doe / 146096) / 365.
Definition day_of_year (doe : Z) : Z :=
  let y := year_of_era doe in doe - (365 * y + y / 4 - y / 100).
Definition civil (day : Z) : Z * Z * Z :=
  let day := day + 719468 in
  let doe := day mod 146097 in
  let doy := day_of_year doe in
  let mp := (5 * doy + 2) / 153 in
  let month := if mp <? 10 then mp + 3 else mp - 9 in
  (year_of_era doe + day / 146097 * 400 + (if month <=? 2 then 1 else 0), month, doy - (153 * mp + 2) / 5 + 1).

(** The last [w] decimal digits. *)
Fixpoint digits (w : nat) (n : Z) : jsstr :=
  match w with O => [] | S w => digits w (n / 10) ++ [48 + n mod 10] end.

Definition year_text (y : Z) : jsstr :=
  if (0 <=? y) && (y <=? 9999) then digits 4 y else (if y <? 0 then [45] else [43]) ++ digits 6 (Z.abs y).

Definition day_text (date : Z * Z * Z) : jsstr :=
  let '(y, m, d) := date in year_text y ++ [45] ++ digits 2 m ++ [45] ++ digits 2 d.
Definition time_text (ms : Z) : jsstr :=
  digits 2 (ms / 3600000) ++ [58] ++ digits 2 (ms / 60000 mod 60) ++ [58] ++ digits 2 (ms / 1000 mod 60)
  ++ [46] ++ digits 3 (ms mod 1000).

Definition MS_PER_DAY : Z := 86400000.
Definition toISOString (d : date) : res jsstr :=
  match d with
  | Some ms => Ok (day_text (civil (ms / MS_PER_DAY)) ++ [84] ++ time_text (ms mod MS_PER_DAY) ++ [90])
  | None => Throw (EError "RangeError")
  end.

(** ** The binding *)

Section Binding.
Context `{Url : URLApi} `{Uni : Unicode} `{Jwk : JwkApi}.

Definition binding_error (message : string) (code : VerificationCode) : exn := newVerificationError message code None false.

Definition binding_lines (domain gi ek ku ts : jsstr) : list jsstr :=
  [js "DNSID-ISSUANCE-BINDING"; js "domain=" ++ domain; js "gi=" ++ gi; js "ek=" ++ ek; js "ku=" ++ ku; js "ts=" ++ ts].

Definition canonicalIssuanceBinding (ev : LogEvent) (i : IssuanceFields) : res bytes :=
  match i_entityKey i, i_operationalKey i with
  | Some entityKey, Some operationalKey =>
      domain ← normalizeFQDN (ev_domain ev) false;
      ts ← toISOString (ev_timestamp ev);
      Ok (utf8_encode (join [10] (binding_lines domain (i_governanceId i) (slot_thumbprint entityKey)
                                    (slot_thumbprint operationalKey) ts)))
  | _, _ => Throw (binding_error "ISSUANCE binding requires entityKey and operationalKey" RecordInvalid)
  end.

Definition verifySlot (binding : bytes) (sig : jsstr) (slot : IssuanceKeySlot) : res unit :=
  t ← jwkThumbprint (slot_jwk slot);
  throw_if (negb (bool_decide (t = slot_thumbprint slot)))
    (binding_error "ISSUANCE key JWK does not match its recorded thumbprint" RecordInvalid);;
  bs ← catch (fromBase64Url sig) (fun _ => Throw (binding_error "ISSUANCE signature is not valid base64url" SignatureInvalid));
  throw_if (negb (verifyWithKey binding bs (slot_jwk slot) (Some (slot_alg slot))))
    (binding_error "ISSUANCE signature is invalid" SignatureInvalid).

(** [!slot || !sig] *)
Definition signed_slot (slot : option IssuanceKeySlot) (sig : option jsstr) : option (IssuanceKeySlot * jsstr) :=
  match slot, sig with
  | Some slot, Some (u :: s) => Some (slot, u :: s)
  | _, _ => None
  end.

(** The thumbprint of the first operational key. *)
Definition verifyBilateralBinding (ev : LogEvent) (record : DnsIdTxtRecord) (currentEntityKey : jwk) : res jsstr :=
  match ev_payload ev with
  | ISSUANCE i =>
      entity ← of_option (signed_slot (i_entityKey i) (i_entitySig i))
                 (binding_error "ISSUANCE is missing the entity-key signature" SignatureInvalid);
      operational ← of_option (signed_slot (i_operationalKey i) (i_operationalSig i))
                      (binding_error "ISSUANCE is missing the operational-key countersignature" SignatureInvalid);
      binding ← canonicalIssuanceBinding ev i;
      verifySlot binding (snd entity) (fst entity);;
      verifySlot binding (snd operational) (fst operational);;
      a ← normalizeFQDN (ev_domain ev) false;
      b ← normalizeFQDN (agentFQDN record) false;
      throw_if (negb (bool_decide (a = b))) (binding_error "ISSUANCE FQDN does not match the TXT record" RecordInvalid);;
      throw_if (negb (bool_decide (i_governanceId i = gi record)))
        (binding_error "ISSUANCE gi does not match the TXT record" RecordInvalid);;
      t ← jwkThumbprint currentEntityKey;
      throw_if (negb (bool_decide (t = slot_thumbprint (fst entity))))
        (binding_error "ISSUANCE-recorded entity key does not match the current ek key" RecordInvalid);;
      Ok (slot_thumbprint (fst operational))
  | _ => Throw (binding_error "bilateral binding requires an ISSUANCE event" RecordInvalid)
  end.

End Binding.

(** ** The text of a date determines it *)

(** The day of a date. *)
Definition day_of_civil (date : Z * Z * Z) : Z :=
  let '(y, m, d) := date in
  let y := y - (if m <=? 2 then 1 else 0) in
  let mp := if m <=? 2 then m + 9 else m - 3 in
  y / 400 * 146097 + (365 * (y mod 400) + y mod 400 / 4 - y mod 400 / 100) + (153 * mp + 2) / 5 + d - 1 - 719468.

#[local] Ltac Zify.zify_post_hook ::= Z.to_euclidean_division_equations.

Lemma day_of_year_bounds doe : 0 <= doe < 146097 -> 0 <= year_of_era doe < 400 /\ 0 <= day_of_year doe <= 365.
Proof.
  intros H. assert (Hy : 0 <= year_of_era doe < 400) by (unfold year_of_era; lia). split; [done|].
  unfold day_of_year. cbv zeta. unfold year_of_era in *.
  set (a := doe / 1460) in *. set (b := doe / 36524) in *. set (c := doe / 146096) in *. set (y := (doe - a + b - c) / 365) in *. lia.
Qed.

Lemma civil_bounds day : let '(y, m, d) := civil day in 1 <= m <= 12 /\ 1 <= d <= 31 /\ day_of_civil (y, m, d) = day.
Proof.
  unfold civil. set (n := day + 719468). assert (Hn : 0 <= n mod 146097 < 146097) by lia.
  assert (Hd : n = n / 146097 * 146097 + n mod 146097) by lia.
  set (doe := n mod 146097) in *. set (era := n / 146097) in *.
  destruct (day_of_year_bounds doe Hn) as [Hy Hdoy].
  assert (He : doe = 365 * year_of_era doe + year_of_era doe / 4 - year_of_era doe / 100 + day_of_year doe)
    by (unfold day_of_year; lia).
  set (yoe := year_of_era doe) in *. set (doy := day_of_year doe) in *. set (mp := (5 * doy + 2) / 153).
  assert (Hmp : 0 <= mp <= 11) by (subst mp; lia).
  assert (Hr : 1 <= doy - (153 * mp + 2) / 5 + 1 <= 31) by (subst mp; lia).
  unfold day_of_civil. destruct (Z.ltb_spec mp 10) as [Hlt|Hge]; cbv zeta.
  - destruct (Z.leb_spec (mp + 3) 2) as [|_]; [lia|].
    replace (yoe + era * 400 + 0 - 0) with (yoe + era * 400) by lia. replace (mp + 3 - 3) with mp by lia.
    rewrite Z.div_add, Z.mod_add, (Z.mod_small yoe), (Z.div_small yoe) by lia. clearbody yoe doy. lia.
  - destruct (Z.leb_spec (mp - 9) 2) as [_|]; [|lia].
    replace (yoe + era * 400 + 1 - 1) with (yoe + era * 400) by lia. replace (mp - 9 + 9) with mp by lia.
    rewrite Z.div_add, Z.mod_add, (Z.mod_small yoe), (Z.div_small yoe) by lia. clearbody yoe doy. lia.
Qed.

Lemma digits_length w n : length (digits w n) = w.
Proof. revert n; induction w as [|w IH]; intros n; [done|]. cbn. rewrite length_app, IH. cbn. lia. Qed.

Lemma digits_inj w a b : 0 <= a < 10 ^ Z.of_nat w -> 0 <= b < 10 ^ Z.of_nat w -> digits w a = digits w b -> a = b.
Proof.
  revert a b; induction w as [|w IH]; intros a b Ha Hb; [cbn in *; lia|].
  rewrite Nat2Z.inj_succ, Z.pow_succ_r in Ha, Hb by lia. cbn. intros E.
  apply app_inj_2 in E as [E [= E']]; [|done].
  apply IH in E; [lia| |]; split; first [apply Z.div_pos; lia|apply Z.div_lt_upper_bound; lia].
Qed.

Lemma year_text_inj a b : Z.abs a < 1000000 -> Z.abs b < 1000000 -> year_text a = year_text b -> a = b.
Proof.
  intros Ha Hb E. unfold year_text in E.
  destruct ((0 <=? a) && (a <=? 9999)) eqn:Ea, ((0 <=? b) && (b <=? 9999)) eqn:Eb.
  - apply (digits_inj 4); [cbn; lia|cbn; lia|done].
  - apply (f_equal length) in E. rewrite length_app, !digits_length in E. by destruct (b <? 0).
  - apply (f_equal length) in E. rewrite length_app, !digits_length in E. by destruct (a <? 0).
  - destruct (a <? 0) eqn:Sa, (b <? 0) eqn:Sb; 
      apply app_inj_1 in E as [E' E]; try done; apply (digits_inj 6) in E; cbn; lia.
Qed.

Lemma day_text_inj a b : let '(y, m, d) := a in let '(y', m', d') := b in
  Z.abs y < 1000000 -> Z.abs y' < 1000000 -> 1 <= m <= 12 -> 1 <= m' <= 12 -> 1 <= d <= 31 -> 1 <= d' <= 31 ->
  day_text a = day_text b -> a = b.
Proof.
  destruct a as [[y m] d], b as [[y' m'] d']. intros Hy Hy' Hm Hm' Hd Hd' E. unfold day_text in E.
  apply app_inj_2 in E as [E1 E]; [|by rewrite !length_app, !digits_length].
  apply app_inj_1 in E as [_ E]; [|done]. apply app_inj_1 in E as [E2 E]; [|by rewrite !digits_length]. apply app_inj_1 in E as [_ E3]; [|done].
  apply year_text_inj in E1; [|done|done]. apply digits_inj in E2; [|cbn; lia|cbn; lia]. apply digits_inj in E3; [|cbn; lia|cbn; lia].
  congruence.
Qed.

Lemma time_text_inj a b : 0 <= a < MS_PER_DAY -> 0 <= b < MS_PER_DAY -> time_text a = time_text b -> a = b.
Proof.
  unfold MS_PER_DAY, time_text. intros Ha Hb E.
  apply app_inj_1 in E as [E1 E]; [|by rewrite !digits_length]. apply app_inj_1 in E as [_ E]; [|done].
  apply app_inj_1 in E as [E2 E]; [|by rewrite !digits_length]. apply app_inj_1 in E as [_ E]; [|done].
  apply app_inj_1 in E as [E3 E]; [|by rewrite !digits_length]. apply app_inj_1 in E as [_ E4]; [|done].
  apply digits_inj in E1, E2, E3, E4; cbn; lia.
Qed.
(** A time value of a [Date]. *)
Definition valid_time (d : date) : Prop := match d with Some ms => Z.abs ms <= MAX_TIME | None => True end.

Lemma civil_year ms : Z.abs ms <= MAX_TIME -> let '(y, _, _) := civil (ms / MS_PER_DAY) in Z.abs y < 1000000.
Proof.
  unfold MAX_TIME, MS_PER_DAY, civil. intros H. set (n := ms / 86400000 + 719468).
  assert (Hn : -100000000 <= n <= 101000000) by (subst n; lia). assert (Hm : 0 <= n mod 146097 < 146097) by lia.
  destruct (day_of_year_bounds _ Hm) as [Hy _]. set (yoe := year_of_era _) in *. clearbody yoe n. case_match; lia.
Qed.

Lemma toISOString_inj a b s : valid_time a -> valid_time b -> toISOString a = Ok s -> toISOString b = Ok s -> a = b.
Proof.
  destruct a as [a|], b as [b|]; try done. cbn [valid_time toISOString]. intros Ha Hb Ea Eb. rewrite <-Eb in Ea. apply Ok_inj in Ea.
  apply app_inj_2 in Ea as [E1 E]; [|unfold time_text; by rewrite !length_app, !digits_length].
  apply app_inj_1 in E as [_ E]; [|done]. apply app_inj_2 in E as [E2 _]; [|done].
  assert (Hd : 0 < MS_PER_DAY) by done.
  apply time_text_inj in E2; [|by apply Z.mod_pos_bound|by apply Z.mod_pos_bound].
  pose proof (civil_bounds (a / MS_PER_DAY)) as Ca. pose proof (civil_bounds (b / MS_PER_DAY)) as Cb.
  pose proof (civil_year a Ha) as Ya. pose proof (civil_year b Hb) as Yb.
  destruct (civil (a / MS_PER_DAY)) as [[y m] d], (civil (b / MS_PER_DAY)) as [[y' m'] d'].
  destruct Ca as (? & ? & Ca), Cb as (? & ? & Cb).
  pose proof (day_text_inj (y, m, d) (y', m', d')) as Hi. cbn beta iota in Hi.
  assert (E : (y, m, d) = (y', m', d')) by (apply Hi; done).
  f_equal. rewrite (Z.div_mod a MS_PER_DAY), (Z.div_mod b MS_PER_DAY) by lia. congruence.
Qed.

(** ** The binding determines its content *)

(** Printable ASCII, blanks included: a line of the binding. *)
Definition line_text (s : jsstr) : bool := forallb (fun u => (32 <=? u) && (u <=? 126)) s.

Lemma tag_line s : is_tag_value s = true -> line_text s = true.
Proof.
  unfold is_tag_value, line_text. rewrite !forallb_forall. intros H u Hu. specialize (H u Hu). revert H.
  unfold is_value_unit. lia.
Qed.

Lemma digits_line w n : line_text (digits w n) = true.
Proof.
  revert n; induction w as [|w IH]; intros n; [done|]. cbn [digits]. unfold line_text in *. rewrite forallb_app, IH. cbn.
  rewrite andb_true_r. lia.
Qed.

Lemma line_app a b : line_text (a ++ b) = line_text a && line_text b.
Proof. apply forallb_app. Qed.

Lemma toISOString_line d s : toISOString d = Ok s -> line_text s = true.
Proof.
  destruct d as [ms|]; [|done]. intros H. apply Ok_inj in H as <-. unfold day_text, time_text, year_text. destruct (civil _) as [[y m] d].
  rewrite !line_app, !digits_line. case_match; rewrite ?line_app, ?digits_line; [done|]. by destruct (y <? 0).
Qed.

Lemma lines_inj ls ls' : ls <> [] -> ls' <> [] -> Forall (fun l => line_text l = true) ls -> Forall (fun l => line_text l = true) ls' ->
  utf8_encode (join [10] ls) = utf8_encode (join [10] ls') -> ls = ls'.
Proof.
  assert (Hno : forall ls, Forall (fun l => line_text l = true) ls -> Forall (fun p => 10 ∉ p) ls).
  { intros l Hl. eapply Forall_impl; [apply Hl|]. intros s Hs Hi%list_elem_of_In. unfold line_text in Hs.
    rewrite forallb_forall in Hs. by specialize (Hs _ Hi). }
  assert (Ha : forall ls, Forall (fun l => line_text l = true) ls -> ascii (join [10] ls) = true).
  { intros l Hl. unfold ascii. induction Hl as [|s l Hs Hl IH]; [done|].
    assert (Hs' : forallb (fun u => (0 <=? u) && (u <? 128)) s = true).
    { rewrite forallb_forall in *. intros u Hu. unfold line_text in Hs. rewrite forallb_forall in Hs. specialize (Hs u Hu). lia. }
    destruct l as [|s' l]; [done|]. change (join [10] (s :: s' :: l)) with (s ++ [10] ++ join [10] (s' :: l)).
    by rewrite !forallb_app, Hs', IH. }
  intros Hn Hn' Hl Hl' E. apply (f_equal (map b2z)) in E. rewrite !ascii_bytes in E by auto.
  apply (f_equal (split_on 10)) in E. by rewrite !split_join in E by auto.
Qed.

Section Soundness.
Context `{Url : URLApi} `{Uni : Unicode} `{Jwk : JwkApi}.

(** What a binding says, the name normalized. *)
Definition binding_content (ev : LogEvent) (i : IssuanceFields) : res jsstr * jsstr * option jsstr * option jsstr * date :=
  (normalizeFQDN (ev_domain ev) false, i_governanceId i, slot_thumbprint <$> i_entityKey i,
   slot_thumbprint <$> i_operationalKey i, ev_timestamp ev).

Definition printable_binding (ev : LogEvent) (i : IssuanceFields) : Prop :=
  is_tag_value (i_governanceId i) = true /\ valid_time (ev_timestamp ev)
  /\ (forall slot, i_entityKey i = Some slot \/ i_operationalKey i = Some slot -> is_tag_value (slot_thumbprint slot) = true).

Lemma canonicalIssuanceBinding_inj ev i ev' i' bs : printable_binding ev i -> printable_binding ev' i' ->
  canonicalIssuanceBinding ev i = Ok bs -> canonicalIssuanceBinding ev' i' = Ok bs ->
  binding_content ev i = binding_content ev' i'.
Proof.
  unfold canonicalIssuanceBinding, binding_content. intros (Hg & Ht & Hs) (Hg' & Ht' & Hs') H H'.
  destruct (i_entityKey i) as [e|], (i_operationalKey i) as [o|]; try done.
  destruct (i_entityKey i') as [e'|], (i_operationalKey i') as [o'|]; try done.
  apply bind_Ok in H as (n & Hn & H), H' as (n' & Hn' & H'). apply bind_Ok in H as (ts & Hts & H), H' as (ts' & Hts' & H').
  rewrite <-H' in H. apply Ok_inj in H.
  assert (Hl : forall n gi ek ku ts, line_text n = true -> line_text gi = true -> line_text ek = true -> line_text ku = true ->
            line_text ts = true -> Forall (fun l => line_text l = true) (binding_lines n gi ek ku ts)).
  { intros n0 g0 e0 k0 t0 H1 H2 H3 H4 H5. unfold binding_lines.
    repeat (apply Forall_cons_2; [rewrite ?line_app, ?H1, ?H2, ?H3, ?H4, ?H5; done|]). apply Forall_nil_2. }
  apply lines_inj in H; [|done|done| |].
  - assert (Hk : forall k p a b, nth k (binding_lines n (i_governanceId i) (slot_thumbprint e) (slot_thumbprint o) ts) [] = p ++ a ->
              nth k (binding_lines n' (i_governanceId i') (slot_thumbprint e') (slot_thumbprint o') ts') [] = p ++ b -> a = b)
      by (intros k p a b Ea Eb; rewrite H, Eb in Ea; by apply app_inv_head in Ea).
    assert (n = n') as <- by by apply (Hk 1%nat (js "domain=")).
    assert (i_governanceId i = i_governanceId i') as <- by by apply (Hk 2%nat (js "gi=")).
    assert (slot_thumbprint e = slot_thumbprint e') as E1 by by apply (Hk 3%nat (js "ek=")).
    assert (slot_thumbprint o = slot_thumbprint o') as E2 by by apply (Hk 4%nat (js "ku=")).
    assert (ts = ts') as <- by by apply (Hk 5%nat (js "ts=")).
    rewrite Hn, Hn'. cbn. rewrite E1, E2.
    by rewrite (toISOString_inj (ev_timestamp ev) (ev_timestamp ev') ts).
  - apply Hl; [by apply tag_line, (name_value (ev_domain ev) false)|by apply tag_line|apply tag_line, Hs; by left|
      apply tag_line, Hs; by right|by eapply toISOString_line].
  - apply Hl; [by apply tag_line, (name_value (ev_domain ev') false)|by apply tag_line|apply tag_line, Hs'; by left|
      apply tag_line, Hs'; by right|by eapply toISOString_line].
Qed.
(** A slot whose key has the recorded thumbprint and verified the signature over these bytes. *)
Definition slot_signed (slot : option IssuanceKeySlot) (sig : option jsstr) (thumbprint : jsstr) (binding : bytes) : Prop :=
  exists sl s bs, slot = Some sl /\ sig = Some s /\ slot_thumbprint sl = thumbprint
    /\ jwkThumbprint (slot_jwk sl) = Ok thumbprint /\ fromBase64Url s = Ok bs
    /\ verifyWithKey binding bs (slot_jwk sl) (Some (slot_alg sl)) = true.

Lemma verifySlot_Ok binding slot sig sl s : signed_slot slot sig = Some (sl, s) -> verifySlot binding s sl = Ok tt ->
  slot_signed slot sig (slot_thumbprint sl) binding.
Proof.
  unfold signed_slot, verifySlot. destruct slot as [sl'|], sig as [[|u s']|]; try done. intros [= -> <-] H.
  apply bind_Ok in H as (t & Ht & H). apply bind_Ok in H as (? & Hb%throw_if_Ok & H).
  apply bind_Ok in H as (bs & Hd & Hv%throw_if_Ok). apply negb_false_iff in Hb, Hv. apply bool_decide_eq_true in Hb as ->.
  exists sl, (u :: s'), bs. repeat (split; [done|]). split; [|done]. by destruct (fromBase64Url _).
Qed.

(** C4: an accepted issuance binding: the recorded entity key, which is the current one, and
    the recorded operational key, whose thumbprint is returned, both signed the same bytes;
    the event is of the record's name and governance identifier; and these bytes are the
    binding of no other name, governance identifier, pair of keys or time. *)
Theorem bilateral_binding_sound ev record key thumbprint :
  (forall k t, jwkThumbprint k = Ok t -> is_tag_value t = true) -> is_tag_value (gi record) = true ->
  valid_time (ev_timestamp ev) -> verifyBilateralBinding ev record key = Ok thumbprint ->
  exists i ek binding name, ev_payload ev = ISSUANCE i /\ canonicalIssuanceBinding ev i = Ok binding
    /\ jwkThumbprint key = Ok ek
    /\ slot_signed (i_entityKey i) (i_entitySig i) ek binding
    /\ slot_signed (i_operationalKey i) (i_operationalSig i) thumbprint binding
    /\ normalizeFQDN (ev_domain ev) false = Ok name /\ normalizeFQDN (agentFQDN record) false = Ok name
    /\ i_governanceId i = gi record
    /\ forall ev' i', printable_binding ev' i' -> canonicalIssuanceBinding ev' i' = Ok binding ->
         binding_content ev' i' = (Ok name, gi record, Some ek, Some thumbprint, ev_timestamp ev).
Proof.
  intros Hthumb Hgi Htime. unfold verifyBilateralBinding. destruct (ev_payload ev) as [i| | | | |] eqn:Ep; try done. intros H.
  apply bind_Ok in H as ([sl s] & Hs%of_option_Ok & H). apply bind_Ok in H as ([sl' s'] & Hs'%of_option_Ok & H).
  apply bind_Ok in H as (binding & Hb & H). cbn [fst snd] in H.
  apply bind_Ok in H as ([] & Hv & H). apply bind_Ok in H as ([] & Hv' & H).
  apply bind_Ok in H as (a & Ha & H). apply bind_Ok in H as (b & Hb' & H). apply bind_Ok in H as (? & He%throw_if_Ok & H).
  apply bind_Ok in H as (? & Hg%throw_if_Ok & H). apply bind_Ok in H as (t & Ht & H).
  apply bind_Ok in H as (? & Hk%throw_if_Ok & [= <-]). bool_inv. subst.
  pose proof (verifySlot_Ok _ _ _ _ _ Hs Hv) as H1. pose proof (verifySlot_Ok _ _ _ _ _ Hs' Hv') as H2.
  exists i, (slot_thumbprint sl), binding, b. repeat (split; [done|]). intros ev' i' Hpr Hb2.
  destruct H1 as (sl0 & _ & _ & E1 & _ & T1 & J1 & _), H2 as (sl1 & _ & _ & E2 & _ & T2 & J2 & _).
  rewrite <-(canonicalIssuanceBinding_inj ev i ev' i' binding); [|split; [by rewrite Hg|split; [done|]]|done|done|done].
  - unfold binding_content. rewrite E1, E2, Ha, Hg. cbn. by rewrite T1, T2.
  - intros slot [Es|Es]; [rewrite E1 in Es|rewrite E2 in Es]; injection Es as <-;
      [rewrite T1; by apply (Hthumb _ _ J1)|rewrite T2; by apply (Hthumb _ _ J2)].
Qed.
End Soundness.
Example epoch : toISOString (Some 0) = Ok (js "1970-01-01T00:00:00.000Z").
Proof. vm_compute. reflexivity. Qed.
Example leap_day : toISOString (Some 1709210096789) = Ok (js "2024-02-29T12:34:56.789Z").
Proof. vm_compute. reflexivity. Qed.
Example last_time : toISOString (Some MAX_TIME) = Ok (js "+275760-09-13T00:00:00.000Z").
Proof. vm_compute. reflexivity. Qed.
Example first_time : toISOString (Some (- MAX_TIME)) = Ok (js "-271821-04-20T00:00:00.000Z").
Proof. vm_compute. reflexivity. Qed.

(** ** Witness *)

Section Example.
(** Toy thumbprints and signatures, both texts of the key's [x]. *)
Definition TextJwk : JwkApi := {|
  CryptoKey := jwk;
  calculateJwkThumbprint := fun key => Ok (toBase64Url (utf8_encode (default [] (as_str (get key "x")))));
  importJWK := fun key _ => Ok key;
  subtle_verify := fun _ key signature _ => Ok (strict_eq (get key "x") (JString (toBase64Url signature)))
|}.
#[local] Existing Instances SimpleUrl AsciiUnicode TextJwk.

Definition example_slot (key : jwk) : IssuanceKeySlot :=
  mkSlot key (toBase64Url (utf8_encode (default [] (as_str (get key "x"))))) None (js "EdDSA").
Definition example_issuance : LogEvent :=
  mkEvent (js "Bot.Example.COM") (Some 1709210096789) None None None None []
    (ISSUANCE (mkIssuance (js "example.com") None None None None None None None None
       (Some (example_slot StreamVerifier.example_entity)) (Some (example_slot StreamVerifier.example_operational))
       (as_str (get StreamVerifier.example_entity "x")) (as_str (get StreamVerifier.example_operational "x")) None None None)).
Definition issuance_record : DnsIdTxtRecord :=
  set_agentFQDN (record_of [(js "gi", js "example.com")]) (js "bot.example.com").

Lemma bilateral_binding_sound_witness : exists i ek binding name,
  ev_payload example_issuance = ISSUANCE i /\ canonicalIssuanceBinding example_issuance i = Ok binding
  /\ slot_signed (i_entityKey i) (i_entitySig i) ek binding
  /\ normalizeFQDN (agentFQDN issuance_record) false = Ok name.
Proof.
  destruct (bilateral_binding_sound example_issuance issuance_record StreamVerifier.example_entity
              (slot_thumbprint (example_slot StreamVerifier.example_operational)))
    as (i & ek & binding & name & H1 & H2 & _ & H3 & _ & _ & H4 & _).
  - intros k t [= <-]. apply base64url_value.
  - vm_compute. reflexivity.
  - apply (bool_decide_unpack _). vm_compute. reflexivity.
  - vm_compute. reflexivity.
  - exists i, ek, binding, name. exact (conj H1 (conj H2 (conj H3 H4))).
Defined.
End Example.
