(* ===== verification/HttpMessages.v ===== *)
(** HTTP messages and their signature fields: the part of [http-signatures/src/index.ts]
    that no clock, key or network takes part in.

    Covered components and their values, the signature base, the fields [Signature-Input],
    [Signature], [Accept-Signature] and [Content-Digest].  The parser and the serializer of
    structured fields are a library outside the repository ([StructuredFields]); the parts
    of its syntax that the program scans itself are definitions. *)

From S2P Require Import Prelude JsString Base64 Url Json.

(** ** Structured fields

    A bare item is a JavaScript number, string or boolean, an [ArrayBuffer], or an object
    of one of the library's classes.  A [Map] is the list of its entries, in order. *)

Inductive bare_item :=
  | BNumber (n : number) | BString (s : jsstr) | BBoolean (b : bool) | BBytes (b : bytes)
  | BToken (s : jsstr) | BDate (n : number) | BDisplayString (s : jsstr).
#[export] Instance bare_item_eq_dec : EqDecision bare_item.
Proof. solve_decision. Defined.

Notation parameters := (list (jsstr * bare_item)).
Notation item := (bare_item * list (jsstr * bare_item))%type.

Inductive member := Item (i : item) | InnerList (items : list item) (ps : parameters).
#[export] Instance member_eq_dec : EqDecision member.
Proof. solve_decision. Defined.
Notation dictionary := (list (jsstr * member)).

(** [map.get(key)] *)
Fixpoint map_get {A} (key : jsstr) (m : list (jsstr * A)) : option A :=
  match m with
  | (k, v) :: m => if bool_decide (k = key) then Some v else map_get key m
  | [] => None
  end.

(** [map.set(key, v)] *)
Fixpoint map_set {A} (key : jsstr) (v : A) (m : list (jsstr * A)) : list (jsstr * A) :=
  match m with
  | (k, w) :: m => if bool_decide (k = key) then (k, v) :: m else (k, w) :: map_set key v m
  | [] => [(key, v)]
  end.

(** The library [structured-headers]; a function without a result throws. *)
Class StructuredFields := {
  parseStructuredDictionary : jsstr -> option dictionary;
  serializeStructuredInnerList : list item -> parameters -> option jsstr;
  serializeStructuredItem : bare_item -> parameters -> option jsstr;
  serializeStructuredParameters : parameters -> option jsstr
}.
Definition serialized (o : option jsstr) : res jsstr := of_option o (EError "SerializeError").

(** [Number.isInteger], and the integer that such a number is. *)
Definition isInteger (n : number) : bool :=
  match n with
  | NInt _ | NNegZero => true
  | NDouble _ m e => (0 <=? e) || (m mod 2 ^ (- e) =? 0)
  | NInfinity _ | NNaN => false
  end.
Definition integer_of (n : number) : Z :=
  match n with
  | NInt z => z
  | NDouble neg m e => (if neg then -1 else 1) * (m * 2 ^ Z.max e 0 / 2 ^ Z.max (- e) 0)
  | NNegZero | NInfinity _ | NNaN => 0
  end.

Definition recordInvalid (message : string) : exn := newVerificationError message RecordInvalid None false.
Definition signatureInvalid (message : string) : exn := newVerificationError message SignatureInvalid None false.
Definition error_message (e : exn) : string :=
  match e with
  | EVerification v => ve_message v
  | EParse m | EValidation m | EArgument m | ERange m | EError m | ESystem _ m => m
  end.

(** ** Component identifiers *)

Inductive param_value := PString (s : jsstr) | PNumber (n : number) | PBoolean (b : bool).
#[export] Instance param_value_eq_dec : EqDecision param_value.
Proof. solve_decision. Defined.

(** A name, or an object with a name and parameters. *)
Inductive ComponentIdentifier :=
  | CName (name : jsstr)
  | CObject (name : jsstr) (params : option (list (jsstr * param_value))).
#[export] Instance ComponentIdentifier_eq_dec : EqDecision ComponentIdentifier.
Proof. solve_decision. Defined.

Definition componentName (c : ComponentIdentifier) : jsstr := match c with CName n | CObject n _ => n end.
Definition componentParams (c : ComponentIdentifier) : list (jsstr * param_value) :=
  match c with CName _ => [] | CObject _ ps => default [] ps end.

(** [a === b] on parameter values. *)
Definition same_param (a b : param_value) : bool :=
  match a, b with
  | PString a, PString b => bool_decide (a = b)
  | PBoolean a, PBoolean b => Bool.eqb a b
  | PNumber NNaN, _ => false
  | PNumber NNegZero, PNumber (NInt z) | PNumber (NInt z), PNumber NNegZero => z =? 0
  | PNumber a, PNumber b => bool_decide (a = b)
  | _, _ => false
  end.

Definition sameComponent (a b : ComponentIdentifier) : bool :=
  bool_decide (componentName a = componentName b)
  && (length (componentParams a) =? length (componentParams b))%nat
  && forallb (fun '(key, v) => match map_get key (componentParams b) with Some w => same_param v w | None => false end)
       (componentParams a).

Definition hasComponentNamed (components : list ComponentIdentifier) (name : jsstr) : bool :=
  existsb (fun c => bool_decide (componentName c = name)) components.

Definition KNOWN_DERIVED_COMPONENTS : list jsstr :=
  map js ["@method"; "@authority"; "@target-uri"; "@path"; "@query"; "@query-param"; "@status";
          "@request-target"; "@scheme"]%string.

(** [/^[a-z0-9!#$%&'*+\-.^_`|~]+$/] *)
Definition is_field_name_unit (u : Z) : bool :=
  is_lower u || is_digit u || existsb (fun v => v =? u) (js "!#$%&'*+-.^_`|~").
Definition isLowercaseHttpFieldName (name : jsstr) : bool :=
  negb (length name =? 0)%nat && forallb is_field_name_unit name.

Definition nonempty_string (v : option param_value) : bool :=
  match v with Some (PString s) => negb (length s =? 0)%nat | _ => false end.
Definition req_true (c : ComponentIdentifier) : bool :=
  bool_decide (map_get (js "req") (componentParams c) = Some (PBoolean true)).

(** The parameters that a component may have. *)
Definition allowed_params (name : jsstr) (params : list (jsstr * param_value)) : res (list jsstr) :=
  if bool_decide (name = js "@query-param") then
    throw_if (negb (nonempty_string (map_get (js "name") params)))
      (EArgument "@query-param requires non-empty string name parameter");;
    Ok [js "name"; js "req"]
  else if bool_decide (name = js "@status") then Ok []
  else if bool_decide (name ∈ KNOWN_DERIVED_COMPONENTS) then Ok [js "req"]
  else
    throw_if (match map_get (js "key") params with None => false | v => negb (nonempty_string v) end)
      (EArgument "field component key parameter must be a non-empty string");;
    Ok [js "key"; js "req"].

(** The test that the value is a string or such an object is its type here. *)
Definition validateComponentIdentifier (c : ComponentIdentifier) : res unit :=
  let name := componentName c in
  throw_if (negb (bool_decide (name ∈ KNOWN_DERIVED_COMPONENTS)) && negb (isLowercaseHttpFieldName name))
    (EArgument "unknown signature component");;
  allowed ← allowed_params name (componentParams c);
  for_each (fun _ '(parameter, v) =>
    throw_if (negb (bool_decide (parameter ∈ allowed))) (EArgument "unsupported component parameter");;
    throw_if (bool_decide (parameter = js "req") && negb (bool_decide (v = PBoolean true)))
      (EArgument "component req parameter must be Boolean true")) (componentParams c) tt.

Definition of_param (v : param_value) : bare_item :=
  match v with PString s => BString s | PNumber n => BNumber n | PBoolean b => BBoolean b end.
Definition toStructuredParams (params : list (jsstr * param_value)) : parameters :=
  map (fun '(key, v) => (key, of_param v)) params.
Definition fromStructuredParams (params : parameters) : res (list (jsstr * param_value)) :=
  map_res (fun '(key, v) =>
    match v with
    | BString s => Ok (key, PString s)
    | BBoolean b => Ok (key, PBoolean b)
    | BNumber n => if isInteger n then Ok (key, PNumber n) else Throw (recordInvalid "unsupported structured field bare value")
    | _ => Throw (recordInvalid "unsupported structured field bare value")
    end) params.

Definition component_item (c : ComponentIdentifier) : item := (BString (componentName c), toStructuredParams (componentParams c)).
Definition parseComponentItem (i : item) : res ComponentIdentifier :=
  match i with
  | (BString name, ps) =>
      params ← fromStructuredParams ps;
      Ok (match params with [] => CName name | _ => CObject name (Some params) end)
  | _ => Throw (recordInvalid "malformed Signature-Input component")
  end.

(** ** Messages

    [Headers] maps a lower-case field name to the combined value of the field.  A body is a
    stream: the chunks it delivers and whether it fails after them. *)

Notation headers := (gmap jsstr jsstr).

Record stream := mkStream { chunks : list bytes; fails : bool }.
Record Request := mkRequest {
  rq_method : jsstr; rq_url : jsstr; rq_headers : headers; rq_body : option stream; rq_bodyUsed : bool }.
Record Response := mkResponse {
  rs_status : Z; rs_headers : headers; rs_body : option stream; rs_bodyUsed : bool }.

Inductive message := MRequest (r : Request) | MResponse (r : Response).
Inductive HttpMessage := Alone (m : message) | Paired (m : message) (request : option Request).
Definition asMessage (input : HttpMessage) : message * option Request :=
  match input with Alone m => (m, None) | Paired m r => (m, r) end.

Definition message_headers (m : message) : headers := match m with MRequest r => rq_headers r | MResponse r => rs_headers r end.
Definition as_request (m : message) : option Request := match m with MRequest r => Some r | MResponse _ => None end.
Definition as_response (m : message) : option Response := match m with MResponse r => Some r | MRequest _ => None end.

(** [headers.get], [headers.set] and [headers.append].  A field value is trimmed of HTTP
    white space, and refused when it has a NUL, a line break or a unit over 255. *)
Definition is_http_space (u : Z) : bool := (u =? 9) || (u =? 10) || (u =? 13) || (u =? 32).
Definition normalize_value (v : jsstr) : jsstr := rev (dropWhile is_http_space (rev (dropWhile is_http_space v))).
Definition valid_value (v : jsstr) : bool :=
  forallb (fun u => negb ((u =? 0) || (u =? 10) || (u =? 13) || (255 <? u))) v.
Definition headers_get (h : headers) (name : jsstr) : option jsstr := h !! toLowerAscii name.
Definition headers_set (h : headers) (name value : jsstr) : res headers :=
  throw_if (negb (valid_value (normalize_value value))) (EError "TypeError: invalid header value");;
  Ok (<[toLowerAscii name := normalize_value value]> h).
Definition headers_append (h : headers) (name value : jsstr) : res headers :=
  throw_if (negb (valid_value (normalize_value value))) (EError "TypeError: invalid header value");;
  Ok (<[toLowerAscii name := match headers_get h name with
         | Some old => old ++ js ", " ++ normalize_value value
         | None => normalize_value value end]> h).

(** ** Query parameters

    [new URLSearchParams(part)] for a part without [&], and its first entry. *)

Fixpoint percent_decode (l : list Z) : list Z :=
  match l with
  | x :: rest =>
      match rest with
      | a :: b :: rest' =>
          if (x =? 37) && is_hex a && is_hex b then 16 * hex_value a + hex_value b :: percent_decode rest'
          else x :: percent_decode rest
      | _ => x :: percent_decode rest
      end
  | [] => []
  end.
Definition form_decode (l : list Z) : jsstr :=
  utf8_lossy None (percent_decode (map (fun u => if u =? 43 then 32 else u) l)).
Definition first_entry (part : jsstr) : option (jsstr * jsstr) :=
  let part := match part with 63 :: part => part | _ => part end in
  let octets := map b2z (utf8_encode part) in
  if (length octets =? 0)%nat then None else
  let equals := indexOf octets [61] in
  if equals =? -1 then Some (form_decode octets, [])
  else Some (form_decode (slice octets 0 equals), form_decode (slice_from octets (equals + 1))).

Definition formPercentEncode (value : jsstr) : res jsstr :=
  encoded ← encodeURIComponent value;
  Ok (flat_map (fun u => if existsb (fun v => v =? u) (js "!'()~") then 37 :: map upper_unit (to_hex [z2b u]) else [u]) encoded).

Definition canonicalQueryParamValues (search paramName : jsstr) : res (list jsstr) :=
  let query := if startsWith search [63] then slice_from search 1 else search in
  if (length query =? 0)%nat then Ok [] else
  values ← map_res (fun part =>
    match first_entry part with
    | None => Ok []
    | Some (name, value) =>
        encoded ← formPercentEncode name;
        if bool_decide (encoded = paramName) then v ← formPercentEncode value; Ok [v] else Ok []
    end) (split_on 38 query);
  Ok (concat values).

(** ** The values of components *)

(** [protocol.replace(':', '')] *)
Fixpoint remove_first (c : Z) (s : jsstr) : jsstr :=
  match s with u :: s => if u =? c then s else u :: remove_first c s | [] => [] end.

Section Messages.
Context `{Url : URLApi} `{SF : StructuredFields}.

Definition normalizedAuthority (u : URL) : jsstr :=
  if (length (url_port u) =? 0)%nat then toLowerAscii (url_hostname u)
  else toLowerAscii (url_hostname u) ++ 58 :: url_port u.

Definition serializeStructuredMember (m : member) : res jsstr :=
  serialized (match m with
    | Item (v, ps) => serializeStructuredItem v ps
    | InnerList items ps => serializeStructuredInnerList items ps
    end).

Definition serializeComponentIdentifier (c : ComponentIdentifier) : res jsstr :=
  serialized (serializeStructuredItem (BString (componentName c)) (toStructuredParams (componentParams c))).

Fixpoint validate_after (seen components : list ComponentIdentifier) : res unit :=
  match components with
  | c :: components =>
      validateComponentIdentifier c;;
      (if existsb (fun s => sameComponent s c) seen then
         serializeComponentIdentifier c;; Throw (EArgument "duplicate covered component")
       else Ok tt);;
      validate_after (seen ++ [c]) components
  | [] => Ok tt
  end.
Definition validateComponents (components : list ComponentIdentifier) : res unit := validate_after [] components.

(** The value of a component of a request whose URL is [u]; [None] when the name is not one
    of a derived component of requests. *)
Definition derived_value (name : jsstr) (r : Request) (u : URL) (params : list (jsstr * param_value)) : option (res jsstr) :=
  let name_is s := bool_decide (name = js s) in
  if name_is "@method"%string then Some (Ok (rq_method r))
  else if name_is "@authority"%string then Some (Ok (normalizedAuthority u))
  else if name_is "@target-uri"%string then
    Some (Ok (url_protocol u ++ js "//" ++ normalizedAuthority u ++ url_pathname u ++ url_search u))
  else if name_is "@path"%string then Some (Ok (url_pathname u))
  else if name_is "@query"%string then Some (Ok (if (length (url_search u) =? 0)%nat then [63] else url_search u))
  else if name_is "@query-param"%string then Some (
    let paramName := match map_get (js "name") params with Some (PString s) => s | _ => [] end in
    values ← canonicalQueryParamValues (url_search u) paramName;
    match values with
    | [v] => Ok v
    | [] => Throw (EArgument "covered query parameter not present in request")
    | _ => Throw (EArgument "covered query parameter appears more than once")
    end)
  else if name_is "@scheme"%string then Some (Ok (remove_first 58 (url_protocol u)))
  else if name_is "@request-target"%string then Some (Ok (url_pathname u ++ url_search u))
  else None.

Definition is_request_component (name : jsstr) : bool :=
  bool_decide (name ∈ KNOWN_DERIVED_COMPONENTS) && negb (bool_decide (name = js "@status")).

Definition field_value (h : headers) (name : jsstr) (params : list (jsstr * param_value)) : res jsstr :=
  val ← of_option (headers_get h name) (EArgument "covered component not present in message");
  match map_get (js "key") params with
  | None => Ok val
  | Some v =>
      let key := match v with PString s => s | _ => [] end in
      dict ← of_option (parseStructuredDictionary val) (EArgument "covered component is not a valid structured field dictionary");
      m ← of_option (map_get key dict) (EArgument "covered component missing dictionary key");
      serializeStructuredMember m
  end.

Definition extractComponentValue (input : HttpMessage) (c : ComponentIdentifier) : res jsstr :=
  validateComponentIdentifier c;;
  let '(msg, request) := asMessage input in
  let params := componentParams c in
  throw_if (req_true c && (is_none (as_response msg) || is_none request))
    (EArgument "covered component requires response request context");;
  source ← of_option (if req_true c then MRequest <$> request else Some msg) (EArgument "covered component requires request context");
  let name := componentName c in
  url ← match as_request source with
        | Some r => u ← of_option (new_URL (rq_url r)) (EError "TypeError: Invalid URL"); Ok (Some (r, u))
        | None => Ok None
        end;
  if is_request_component name then
    match url with
    | Some (r, u) => default (Ok []) (derived_value name r u params)
    | None => Throw (EArgument "the component is only available on requests")
    end
  else if bool_decide (name = js "@status") then
    match as_response source with
    | Some r => Ok (dec (rs_status r))
    | None => Throw (EArgument "@status is only available on responses")
    end
  else field_value (message_headers source) name params.

End Messages.
