(* ===== verification/SignatureFields.v ===== *)
(** The signature fields of HTTP messages: signature parameters and the signature base, the
    fields [Signature-Input], [Signature] and [Content-Digest], and the negotiation of
    signed responses in [Accept-Signature] ([http-signatures/src/index.ts]). *)

From S2P Require Import Prelude JsString Base64 Url Utils Json HttpMessages.

(** ** Signature parameters *)

Record SignatureParams := mkSignatureParams {
  label : jsstr;
  components : list ComponentIdentifier;
  keyId : option jsstr;
  alg : option jsstr;
  created : option number;
  expires : option number;
  nonce : option jsstr;
  tag : option jsstr;
  sp_parameters : option parameters
}.

Definition STRING_PARAMETERS : list jsstr := map js ["keyid"; "alg"; "nonce"; "tag"]%string.
Definition INTEGER_PARAMETERS : list jsstr := map js ["created"; "expires"]%string.
Definition is_known_parameter (name : jsstr) : bool :=
  bool_decide (name ∈ map js ["keyid"; "alg"; "created"; "expires"; "nonce"; "tag"]%string).

(** [value instanceof Date || value instanceof DisplayString] *)
Definition rfc9651_only (v : bare_item) : bool := match v with BDate _ | BDisplayString _ => true | _ => false end.
Definition is_string_item (v : bare_item) : bool := match v with BString _ => true | _ => false end.
Definition is_integer_item (v : bare_item) : bool := match v with BNumber n => isInteger n | _ => false end.

(** The given parameters, in order; those of a profile when none are given. *)
Fixpoint check_parameters (seenKnown : list jsstr) (params : parameters) : res parameters :=
  match params with
  | (name, value) :: params =>
      throw_if (rfc9651_only value) (EArgument "RFC 9651-only signature parameters are unsupported");;
      throw_if (is_known_parameter name && bool_decide (name ∈ seenKnown)) (EArgument "duplicate Signature-Input parameter");;
      throw_if (bool_decide (name ∈ STRING_PARAMETERS) && negb (is_string_item value))
        (EArgument "Signature-Input parameter must be a string");;
      throw_if (bool_decide (name ∈ INTEGER_PARAMETERS) && negb (is_integer_item value))
        (EArgument "Signature-Input parameter must be an integer");;
      rest ← check_parameters (if is_known_parameter name then name :: seenKnown else seenKnown) params;
      Ok ((name, value) :: rest)
  | [] => Ok []
  end.

Definition optional_parameter {A} (name : string) (f : A -> bare_item) (o : option A) : parameters :=
  match o with Some v => [(js name, f v)] | None => [] end.
Definition profile_parameters (p : SignatureParams) : parameters :=
  optional_parameter "keyid" BString (keyId p) ++ optional_parameter "alg" BString (alg p)
  ++ optional_parameter "created" BNumber (created p) ++ optional_parameter "nonce" BString (nonce p)
  ++ optional_parameter "expires" BNumber (expires p) ++ optional_parameter "tag" BString (tag p).
Definition signatureParameterList (p : SignatureParams) : res parameters :=
  match sp_parameters p with
  | Some params => check_parameters [] params
  | None => Ok (profile_parameters p)
  end.

Section Base.
Context `{Url : URLApi} `{SF : StructuredFields}.

Definition serializeSigParams (p : SignatureParams) : res jsstr :=
  innerList ← serialized (serializeStructuredInnerList (map component_item (components p)) []);
  params ← signatureParameterList p;
  parts ← map_res (fun kv => serialized (serializeStructuredParameters [kv])) params;
  Ok (innerList ++ concat parts).

Definition component_line (msg : HttpMessage) (c : ComponentIdentifier) : res jsstr :=
  name ← serializeComponentIdentifier c;
  value ← extractComponentValue msg c;
  Ok (name ++ js ": " ++ value).

Definition signature_base (msg : HttpMessage) (p : SignatureParams) : res jsstr :=
  validateComponents (components p);;
  lines ← map_res (component_line msg) (components p);
  sigParams ← serializeSigParams p;
  Ok (JsString.join [10] (lines ++ [34 :: js "@signature-params" ++ 34 :: js ": " ++ sigParams])).
Definition buildSignatureInput (msg : HttpMessage) (p : SignatureParams) : res bytes :=
  base ← signature_base msg p; Ok (utf8_encode base).

End Base.

(** ** The members of a dictionary, as text *)

(** [cur] is the member so far. *)
Fixpoint split_members (cur : jsstr) (depth : Z) (inString inBytes escape : bool) (s : jsstr) : res (list jsstr) :=
  let malformed := recordInvalid "malformed structured field header" in
  match s with
  | [] =>
      throw_if (inString || inBytes || negb (depth =? 0) || escape) malformed;;
      let tail := trim cur in
      Ok (if (length tail =? 0)%nat then [] else [tail])
  | ch :: s =>
      if escape then split_members (cur ++ [ch]) depth inString inBytes false s
      else if inString && (ch =? 92) then split_members (cur ++ [ch]) depth inString inBytes true s
      else
        let inString := if negb inBytes && (ch =? 34) then negb inString else inString in
        let inBytes := if negb inString && (ch =? 58) then negb inBytes else inBytes in
        if negb inString && negb inBytes && (ch =? 44) && (depth =? 0) then
          parts ← split_members [] depth inString inBytes false s; Ok (trim cur :: parts)
        else
          let depth := if negb inString && negb inBytes
                       then if ch =? 40 then depth + 1 else if ch =? 41 then depth - 1 else depth else depth in
          throw_if (depth <? 0) malformed;;
          split_members (cur ++ [ch]) depth inString inBytes false s
  end.
Definition splitDictionary (headerValue : jsstr) : res (list jsstr) := split_members [] 0 false false false headerValue.

Definition MAX_HEADER_LENGTH : Z := 16 * 1024.
Definition assertHeaderBound (value : jsstr) : res unit :=
  throw_if (MAX_HEADER_LENGTH <? zlen value) (recordInvalid "signature header exceeds 16 KiB").

(** The bare items of a member. *)
Definition member_values (m : member) : list bare_item :=
  match m with
  | Item (v, ps) => map snd ps ++ [v]
  | InnerList items ps => map snd ps ++ flat_map (fun '(v, qs) => v :: map snd qs) items
  end.

Section Dictionaries.
Context `{SF : StructuredFields}.

Definition parseDictionaryField (headerValue : jsstr) : res dictionary :=
  assertHeaderBound headerValue;;
  catch
    (dict ← of_option (parseStructuredDictionary headerValue) (EError "ParseError");
     entries ← splitDictionary headerValue;
     throw_if (negb (length dict =? length entries)%nat) (EError "duplicate dictionary member");;
     for_each (fun _ '(_, m) =>
       throw_if (existsb rfc9651_only (member_values m)) (EError "RFC 9651-only values are unsupported")) dict tt;;
     Ok dict)
    (fun _ => Throw (recordInvalid "malformed structured field dictionary")).

(** ** [Signature-Input] *)

(** The index of the parenthesis that closes the inner list, from [i] on. *)
Fixpoint find_close (i : Z) (inString escape : bool) (s : jsstr) : Z :=
  match s with
  | [] => -1
  | ch :: s =>
      if escape then find_close (i + 1) inString false s
      else if inString && (ch =? 92) then find_close (i + 1) inString true s
      else if ch =? 34 then find_close (i + 1) (negb inString) false s
      else if negb inString && (ch =? 41) then i
      else find_close (i + 1) inString false s
  end.
Definition findInnerListClose (m : jsstr) : Z := find_close 1 false false (slice_from m 1).

(** A quoted text up to and with its closing quote, and what follows. *)
Fixpoint scan_quoted (s : jsstr) : jsstr * jsstr :=
  match s with
  | [] => ([], [])
  | 92 :: s' => match s' with
               | [] => ([92], [])
               | x :: s => let '(q, r) := scan_quoted s in (92 :: x :: q, r)
               end
  | 34 :: s => ([34], s)
  | x :: s => let '(q, r) := scan_quoted s in (x :: q, r)
  end.
Definition is_parameter_unit (u : Z) : bool :=
  is_lower u || is_digit u || existsb (fun v => v =? u) [95; 46; 42; 45].

(** The value of a parameter after [=], and what follows. *)
Definition scan_value (s : jsstr) : jsstr * jsstr :=
  match s with
  | 34 :: s => let '(q, r) := scan_quoted s in (34 :: q, r)
  | 37 :: 34 :: s => let '(q, r) := scan_quoted s in (37 :: 34 :: q, r)
  | 58 :: s =>
      let k := indexOf s [58] in
      if k =? -1 then (58 :: s, []) else (58 :: slice s 0 (k + 1), slice_from s (k + 1))
  | _ => Simple.span (fun u => negb (u =? 59)) s
  end.

Definition scan_segment (s : jsstr) : jsstr * jsstr :=
  let '(name, r) := Simple.span is_parameter_unit s in
  let '(eq, r) := match r with 61 :: r => ([61], r) | _ => ([], r) end in
  let '(v, r) := scan_value r in
  (59 :: name ++ eq ++ v, r).

Fixpoint scan_segments (fuel : nat) (value : jsstr) : list jsstr :=
  match fuel with
  | O => []
  | S fuel =>
      match dropWhile (fun u => u =? 32) value with
      | 59 :: s => let '(segment, r) := scan_segment s in trim segment :: scan_segments fuel r
      | _ => []
      end
  end.
Definition scanParameterSegments (value : jsstr) : list jsstr := scan_segments (S (length value)) value.

Definition parse_segment (integerTimestamps : bool) (segment : jsstr) : res (jsstr * bare_item) :=
  let malformed := recordInvalid "malformed Signature-Input parameter" in
  dict ← of_option (parseStructuredDictionary (js "x=()" ++ segment)) malformed;
  match map_get (js "x") dict with
  | Some (InnerList _ [parameter]) =>
      throw_if (integerTimestamps && bool_decide (fst parameter ∈ INTEGER_PARAMETERS)
                && (match snd parameter with BNumber _ => true | _ => false end) && includes segment [46])
        (signatureInvalid "response timestamps must be Structured Field integers");;
      Ok parameter
  | _ => Throw malformed
  end.
Definition parseSignatureParameterOccurrences (m : jsstr) (integerTimestamps : bool) : res parameters :=
  map_res (parse_segment integerTimestamps) (scanParameterSegments (slice_from m (findInnerListClose m + 1))).

Definition signatureStringParam (value : bare_item) : res jsstr :=
  match value with BString s => Ok s | _ => Throw (recordInvalid "malformed Signature-Input parameter") end.
Definition signatureIntegerParam (value : bare_item) : res number :=
  match value with
  | BNumber n => if isInteger n then Ok n else Throw (recordInvalid "malformed Signature-Input parameter")
  | _ => Throw (recordInvalid "malformed Signature-Input parameter")
  end.

Definition assign_parameter (p : SignatureParams) (key : jsstr) (value : bare_item) : res SignatureParams :=
  let key_is s := bool_decide (key = js s) in
  let '(mkSignatureParams l c k a cr ex n t ps) := p in
  if key_is "keyid"%string then s ← signatureStringParam value; Ok (mkSignatureParams l c (Some s) a cr ex n t ps)
  else if key_is "alg"%string then s ← signatureStringParam value; Ok (mkSignatureParams l c k (Some s) cr ex n t ps)
  else if key_is "created"%string then z ← signatureIntegerParam value; Ok (mkSignatureParams l c k a (Some z) ex n t ps)
  else if key_is "nonce"%string then s ← signatureStringParam value; Ok (mkSignatureParams l c k a cr ex (Some s) t ps)
  else if key_is "expires"%string then z ← signatureIntegerParam value; Ok (mkSignatureParams l c k a cr (Some z) n t ps)
  else if key_is "tag"%string then s ← signatureStringParam value; Ok (mkSignatureParams l c k a cr ex n (Some s) ps)
  else Ok p.

Fixpoint apply_parameters (seenKnown : list jsstr) (parsed : SignatureParams) (params : parameters) : res SignatureParams :=
  match params with
  | (key, value) :: params =>
      throw_if (rfc9651_only value) (recordInvalid "unsupported structured field bare value");;
      throw_if (is_known_parameter key && bool_decide (key ∈ seenKnown)) (recordInvalid "duplicate Signature-Input parameter");;
      parsed ← assign_parameter parsed key value;
      apply_parameters (if is_known_parameter key then key :: seenKnown else seenKnown) parsed params
  | [] => Ok parsed
  end.
Definition applySignatureInputParams (parsed : SignatureParams) (params : parameters) : res SignatureParams :=
  apply_parameters [] parsed params.

(** One member of the field: its label, the parsed member, and its text. *)
Definition parse_input_member (labelled : jsstr * member) (entry : jsstr) : res (jsstr * SignatureParams) :=
  match snd labelled with
  | Item _ => Throw (recordInvalid "malformed Signature-Input header")
  | InnerList items _ =>
      throw_if (64 <? zlen items) (recordInvalid "too many covered components");;
      components ← map_res parseComponentItem items;
      catch (validateComponents components) (fun e => Throw (recordInvalid (error_message e)));;
      let memberText := trim (slice_from entry (indexOf entry [61] + 1)) in
      parameters ← parseSignatureParameterOccurrences memberText false;
      parsed ← applySignatureInputParams
        (mkSignatureParams (fst labelled) components None None None None None None (Some parameters)) parameters;
      Ok (fst labelled, parsed)
  end.

(** The members of a dictionary field with their texts; a repeated member is refused. *)
Definition dictionary_entries (headerValue : jsstr) (malformed : exn) : res (list ((jsstr * member) * jsstr)) :=
  assertHeaderBound headerValue;;
  entries ← catch (splitDictionary headerValue) (fun _ => Throw malformed);
  dict ← of_option (parseStructuredDictionary headerValue) malformed;
  throw_if ((16 <? zlen dict) || negb (length dict =? length entries)%nat) malformed;;
  Ok (zip dict entries).

Definition parseSignatureInput (headerValue : jsstr) : res (list (jsstr * SignatureParams)) :=
  entries ← dictionary_entries headerValue (recordInvalid "malformed Signature-Input header");
  map_res (fun '(labelled, entry) => parse_input_member labelled entry) entries.

(** ** [Signature] *)

Definition parseSignature (headerValue : jsstr) : res (list (jsstr * bytes)) :=
  let malformed := recordInvalid "malformed Signature header" in
  entries ← dictionary_entries headerValue malformed;
  map_res (fun '((name, m), _) =>
    match m with Item (BBytes raw, []) => Ok (name, raw) | _ => Throw malformed end) entries.

Definition setDictionaryMember (h : headers) (name lbl value : jsstr) : res headers :=
  catch
    (let replacementText := lbl ++ 61 :: value in
     replacement ← of_option (parseStructuredDictionary replacementText) (EError "ParseError");
     throw_if (negb (length replacement =? 1)%nat || is_none (map_get lbl replacement)) (EError "invalid replacement dictionary member");;
     match headers_get h name with
     | Some ((_ :: _) as current) =>
         entries ← splitDictionary current;
         dict ← of_option (parseStructuredDictionary current) (EError "ParseError");
         throw_if (negb (length dict =? length entries)%nat) (EError "duplicate dictionary member");;
         let entries := match list_find (fun kv => fst kv = lbl) dict with
                        | Some (index, _) => <[index := replacementText]> entries
                        | None => entries ++ [replacementText]
                        end in
         headers_set h name (JsString.join (js ", ") entries)
     | _ => headers_set h name replacementText
     end)
    (fun _ => Throw (EArgument "malformed structured field dictionary")).

(** ** [Content-Digest] *)

Definition SUPPORTED_DIGEST_ALGS : list jsstr := [js "sha-256"; js "sha-512"].
(** The keys of a dictionary are lower case; [toLowerCase] maps their letters. *)
Definition parseContentDigest (headerValue : jsstr) : res (jsstr * bytes) :=
  let malformed := EArgument "malformed Content-Digest header" in
  dict ← of_option (parseStructuredDictionary headerValue) malformed;
  match dict with
  | [] => Throw malformed
  | (rawHashAlg, m) :: _ =>
      let hashAlg := toLowerAscii rawHashAlg in
      throw_if (negb (bool_decide (hashAlg ∈ SUPPORTED_DIGEST_ALGS))) (EArgument "unsupported hash algorithm in Content-Digest");;
      match m with Item (BBytes digest, _) => Ok (hashAlg, digest) | _ => Throw malformed end
  end.

Definition unsupported_digest_member (c : ComponentIdentifier) : bool :=
  bool_decide (componentName c = js "content-digest")
  && match map_get (js "key") (componentParams c) with
     | None => false
     | Some v => negb (bool_decide (v = PString (js "sha-256")))
     end.
Definition parseSha256ContentDigest (headerValue : jsstr) (covered : list ComponentIdentifier) : res bytes :=
  throw_if (existsb unsupported_digest_member covered) (signatureInvalid "unsupported covered Content-Digest algorithm");;
  dict ← catch (parseDictionaryField headerValue) (fun _ => Throw (signatureInvalid "malformed Content-Digest header"));
  match map_get (js "sha-256") dict with
  | Some (Item (BBytes digest, [])) => Ok digest
  | _ => Throw (signatureInvalid "DNSid HTTP signatures require sha-256 Content-Digest")
  end.

End Dictionaries.

(** [diff |= a[i] ^ b[i]] for every index of arrays of one length. *)
Definition constantTimeEqual (a b : bytes) : bool :=
  if negb (length a =? length b)%nat then false
  else foldl (fun diff '(x, y) => Z.lor diff (Z.lxor (b2z x) (b2z y))) 0 (zip a b) =? 0.

Definition toStdBase64 (l : bytes) : jsstr := btoa l.

(** ** Cache-Control *)

(** One directive: its name, whether it has an argument, and what follows its comma. *)
Definition is_token_unit (u : Z) : bool := is_alnum u || existsb (fun v => v =? u) (js "!#$%&'*+.^_`|~-").
Fixpoint quoted_argument (s : jsstr) : option jsstr :=
  match s with
  | [] => None
  | u :: s' =>
      if u =? 34 then Some s'
      else if u =? 92 then
        match s' with
        | v :: s => if (v =? 9) || ((32 <=? v) && (v <=? 126)) then quoted_argument s else None
        | [] => None
        end
      else if (u =? 10) || (u =? 13) then None
      else quoted_argument s'
  end.
Definition argument (s : jsstr) : option jsstr :=
  match dropWhile is_space s with
  | 34 :: s => quoted_argument s
  | s => match Simple.span is_token_unit s with ([], _) => None | (_, r) => Some r end
  end.
Definition directive_end (s : jsstr) : option jsstr :=
  match dropWhile is_space s with [] => Some [] | 44 :: s => Some s | _ => None end.
Definition directive (s : jsstr) : option (jsstr * bool * jsstr) :=
  match Simple.span is_token_unit (dropWhile is_space s) with
  | ([], _) => None
  | (name, r) =>
      match dropWhile is_space r with
      | 61 :: s => r ← argument s; rest ← directive_end r; Some (name, true, rest)
      | _ => rest ← directive_end r; Some (name, false, rest)
      end
  end.

Fixpoint no_store (fuel : nat) (found : bool) (value : jsstr) : bool :=
  match fuel with
  | O => false
  | S fuel =>
      match dropWhile (fun u => (u =? 9) || (u =? 32) || (u =? 44)) value with
      | [] => found
      | value =>
          match directive value with
          | None => false
          | Some (name, has_argument, rest) =>
              no_store fuel (found || (bool_decide (toLowerAscii name = js "no-store") && negb has_argument)) rest
          end
      end
  end.
Definition hasNoStore (value : option jsstr) : bool :=
  match value with Some value => no_store (S (length value)) false value | None => false end.

(** ** Negotiated responses *)

Record ResponseSignatureOptions := mkResponseOptions {
  expectedDomain : jsstr; additionalComponents : option (list ComponentIdentifier) }.

Definition with_req (name : string) : ComponentIdentifier := CObject (js name) (Some [(js "req", PBoolean true)]).
Definition with_req_key (requestLabel : jsstr) (name : string) : ComponentIdentifier :=
  CObject (js name) (Some [(js "req", PBoolean true); (js "key", PString requestLabel)]).
Definition responseComponents (requestLabel : jsstr) : list ComponentIdentifier :=
  [CName (js "@status")]
  ++ map with_req ["@method"; "@authority"; "@target-uri"; "accept-signature"]%string
  ++ map (with_req_key requestLabel) ["signature-input"; "signature"]%string
  ++ [CName (js "content-digest"); CName (js "cache-control")].

Definition DEFAULT_HTTP_SIGNATURE_LABEL : jsstr := js "sig1".
Definition MAX_RESPONSE_NONCE_LENGTH : Z := 1024.

Definition check_response_component (c : ComponentIdentifier) : res unit :=
  let name := componentName c in
  throw_if (is_request_component name && negb (req_true c)) (EArgument "response request-derived components require req");;
  throw_if ((bool_decide (name = js "signature") || bool_decide (name = js "signature-input")) && negb (req_true c))
    (EArgument "response components cannot cover response signature fields").

Definition copyComponents (l : list ComponentIdentifier) : res (list ComponentIdentifier) :=
  map_res (fun c =>
    validateComponentIdentifier c;;
    Ok (match c with CName n => CName n | CObject n _ => CObject n (Some (componentParams c)) end)) l.

(** The strings that are the [key] of a component of the request with the given name. *)
Definition request_keys (l : list ComponentIdentifier) (name : string) : list jsstr :=
  omap (fun c =>
    if bool_decide (componentName c = js name) && req_true c
    then match map_get (js "key") (componentParams c) with Some (PString key) => Some key | _ => None end
    else None) l.
Definition requestedSignatureMember (l : list ComponentIdentifier) : res jsstr :=
  match request_keys l "signature-input", request_keys l "signature" with
  | [a], [b] =>
      throw_if (negb (bool_decide (a = b))) (signatureInvalid "response negotiation must bind one request signature member");;
      Ok a
  | _, _ => Throw (signatureInvalid "response negotiation must bind one request signature member")
  end.

(** The [;] outside of quoted texts. *)
Fixpoint count_parameters (quoted escaped : bool) (s : jsstr) : Z :=
  match s with
  | [] => 0
  | ch :: s =>
      if escaped then count_parameters quoted false s
      else if quoted && (ch =? 92) then count_parameters quoted true s
      else
        let quoted := if ch =? 34 then negb quoted else quoted in
        (if negb quoted && (ch =? 59) then 1 else 0) + count_parameters quoted false s
  end.

Definition is_base64url_unit (u : Z) : bool := is_alnum u || (u =? 95) || (u =? 45).
Definition decode_nonce (nonce : jsstr) : res bytes :=
  catch (atob (replace_unit 95 47 (replace_unit 45 43 nonce)))
    (fun _ => Throw (signatureInvalid "invalid response nonce encoding")).

Record negotiation := mkNegotiation { ng_label : jsstr; ng_components : list ComponentIdentifier; ng_nonce : jsstr }.
(** A response policy: the options, and the components that a response must cover. *)
Record response_policy := mkPolicy { po_options : ResponseSignatureOptions; po_components : list ComponentIdentifier }.

Section Negotiation.
Context `{Url : URLApi} `{Uni : Unicode} `{SF : StructuredFields}.

Definition validateResponseComponents (l : list ComponentIdentifier) : res unit :=
  throw_if (64 <? zlen l) (EArgument "too many response components");;
  validateComponents l;;
  for_each (fun _ c => check_response_component c) l tt.

Definition responsePolicy (opts : ResponseSignatureOptions) (requestLabel : jsstr) : res response_policy :=
  catch
    (domain ← normalizeFQDN (expectedDomain opts) true;
     let additional := default [] (additionalComponents opts) in
     let components := responseComponents requestLabel ++ additional in
     validateResponseComponents components;;
     copied ← copyComponents additional;
     all ← copyComponents components;
     Ok (mkPolicy (mkResponseOptions domain (Some copied)) all))
    (fun _ => Throw (EArgument "invalid response signature options")).

Definition serializeNegotiation (l : list ComponentIdentifier) (nonce : jsstr) : res jsstr :=
  text ← serialized (serializeStructuredInnerList (map component_item l)
    [(js "created", BBoolean true); (js "expires", BBoolean true); (js "nonce", BString nonce)]);
  let value := js "sig1=" ++ text in
  throw_if (16 * 1024 <? zlen value) (EArgument "Accept-Signature exceeds 16 KiB");;
  Ok value.

Definition check_nonce (parameters : parameters) : res jsstr :=
  match map_get (js "nonce") parameters with
  | Some (BString nonce) =>
      throw_if ((MAX_RESPONSE_NONCE_LENGTH <? zlen nonce) || (length nonce =? 0)%nat || negb (forallb is_base64url_unit nonce))
        (signatureInvalid "invalid response nonce");;
      raw ← decode_nonce nonce;
      throw_if ((zlen raw <? 32) || negb (bool_decide (toBase64Url raw = nonce)))
        (signatureInvalid "noncanonical or short response nonce");;
      Ok nonce
  | _ => Throw (signatureInvalid "invalid response nonce")
  end.

Definition parseNegotiation (value : jsstr) : res negotiation :=
  dict ← parseDictionaryField value;
  match dict with
  | [(lbl, m)] =>
      match m with
      | Item _ => Throw (signatureInvalid "Accept-Signature requires an Inner List")
      | InnerList items parameters =>
          throw_if (negb (count_parameters false false value
                          =? zlen parameters + foldl (fun n '(_, ps) => n + zlen ps) 0 items))
            (signatureInvalid "duplicate Accept-Signature parameter");;
          throw_if (64 <? zlen items) (signatureInvalid "too many requested response components");;
          components ← map_res parseComponentItem items;
          catch (validateResponseComponents components) (fun _ => Throw (signatureInvalid "unsupported response components"));;
          requestLabel ← requestedSignatureMember components;
          throw_if (existsb (fun required => negb (existsb (fun c => sameComponent c required) components)) (responseComponents requestLabel))
            (signatureInvalid "missing required response coverage");;
          throw_if (negb (length parameters =? 3)%nat
                    || negb (bool_decide (map_get (js "created") parameters = Some (BBoolean true)))
                    || negb (bool_decide (map_get (js "expires") parameters = Some (BBoolean true))))
            (signatureInvalid "unsupported signature request constraints");;
          nonce ← check_nonce parameters;
          Ok (mkNegotiation lbl components nonce)
      end
  | _ => Throw (signatureInvalid "Accept-Signature requires exactly one member")
  end.

(** Whether a field of a message already has the label. *)
Definition has_label {A} (parse : jsstr -> res (list (jsstr * A))) (value : option jsstr) (lbl : jsstr) : res bool :=
  match value with
  | None => Ok false
  | Some v => m ← parse v; Ok (negb (is_none (map_get lbl m)))
  end.
Definition rejectLabelCollision (h : headers) (lbl : jsstr) : res unit :=
  a ← has_label parseSignatureInput (headers_get h (js "Signature-Input")) lbl;
  b ← or_else a (has_label parseSignature (headers_get h (js "Signature")) lbl);
  throw_if b (signatureInvalid "requested response signature label already exists").

Definition validateNegotiatedTarget (r : Request) : res unit :=
  throw_if (negb (is_none (headers_get (rq_headers r) (js "Accept-Signature")))) (EArgument "Accept-Signature already exists");;
  u ← of_option (new_URL (rq_url r)) (EError "TypeError: Invalid URL");
  throw_if (negb (bool_decide (url_protocol u = js "https:"))) (EArgument "negotiated responses require HTTPS");;
  match headers_get (rq_headers r) (js "Signature-Input") with Some v => parseSignatureInput v;; Ok tt | None => Ok tt end;;
  match headers_get (rq_headers r) (js "Signature") with Some v => parseSignature v;; Ok tt | None => Ok tt end.

End Negotiation.

Definition requireFinalResponse (request : Request) (response : Response) : res unit :=
  throw_if ((rs_status response <? 200) || (599 <? rs_status response) || bool_decide (rq_method request = js "CONNECT"))
    (signatureInvalid "not an ordinary final response").
Definition noResponseContent (request : Request) (response : Response) : bool :=
  bool_decide (rq_method request = js "HEAD") || existsb (fun s => s =? rs_status response) [204; 205; 304].
