(* ===== verification/HttpSignatures.v ===== *)
(** Signing and verifying HTTP messages: the functions of [http-signatures/src/index.ts] that
    call a key provider, the identity resolver, a transport, the clock or the random source.

    The calls are those of an environment ([Effects]).  A wait that a signal can end is
    [wait]; an operation that is pending when the signal fires makes its calls, and its
    result is lost. *)

From S2P Require Import SharedVerification.
From S2P Require Import Publishing.
From S2P Require Import Prelude Effects JsString Base64 Sha256 Url Utils Json Double Jwk Lifecycle Budget.
From S2P Require Import Verification HttpMessages SignatureFields.

(** ** Data *)

Definition JOSE_TO_HTTP_SIG_ALG : list (jsstr * jsstr) :=
  [(js "EdDSA", js "ed25519"); (js "ES256", js "ecdsa-p256-sha256")].
(** Every caller in the package passes what [jwkSignatureAlg] returns; the inherited members
    of the object ([constructor], ...) are not keys of this table. *)
Definition joseAlgToHttpSigAlg (joseAlg : jsstr) : res jsstr :=
  of_option (map_get joseAlg JOSE_TO_HTTP_SIG_ALG)
    (EArgument "the JOSE algorithm has no RFC 9421 HTTP Message Signature mapping").

Definition DEFAULT_SIGNATURE_MAX_AGE_SECONDS : Z := 300.
Definition DEFAULT_CLOCK_SKEW_SECONDS : Z := 5.
Definition RESPONSE_SIGNATURE_LIFETIME_SECONDS : Z := 60.
Definition MAX_HTTP_CONTENT_BYTES : Z := 8 * 1024 * 1024.

Record HttpSignaturesProfileConfig := mkProfileConfig { maxAge : option number; clockSkew : option number }.

(** A key provider is a name for the object that the environment has for it. *)
Notation provider := nat (only parsing).
Record HttpSignaturesProfile := mkProfile {
  pf_domain : jsstr; pf_keyProvider : option provider; pf_config : HttpSignaturesProfileConfig }.

Definition validateHttpSignaturesConfig (c : HttpSignaturesProfileConfig) : res unit :=
  throw_if (match maxAge c with
            | None => false
            | Some (NInt z) => negb (isSafeInteger z) || (z <=? 0)
            | Some _ => true
            end) (EArgument "httpMessageSignatures.maxAge must be positive");;
  throw_if (match clockSkew c with None => false | Some n => negb (finite_non_negative n) end)
    (EArgument "httpMessageSignatures.clockSkew must be non-negative").

(** Timestamps are integers, so they compare with a sum as with its integer part. *)
Definition max_age (c : HttpSignaturesProfileConfig) : Z := default DEFAULT_SIGNATURE_MAX_AGE_SECONDS (integer_of <$> maxAge c).
Definition clock_skew (c : HttpSignaturesProfileConfig) : Z := default DEFAULT_CLOCK_SKEW_SECONDS (integer_of <$> clockSkew c).

Record HttpSigningOptions := mkSigningOptions {
  so_additionalComponents : option (list ComponentIdentifier);
  so_label : option jsstr;
  so_tag : option jsstr;
  so_expiresInSeconds : option number;
  so_responseSignature : option ResponseSignatureOptions
}.
Definition no_signing_options : HttpSigningOptions := mkSigningOptions None None None None None.

Record HttpVerificationOptions := mkVerificationOptions {
  vo_timeoutMs : option Z;
  vo_peerCert : option TLSCertificate;
  vo_requiredComponents : option (list ComponentIdentifier);
  vo_requiredTag : option jsstr
}.

(** ** The environment *)

Inductive event :=
  | ENow (ms : Z)
  | EPerformanceNow (ms : Z)
  | EWait (a : abort)
  | EAborted (b : bool)
  | ERandom (l : bytes)
  | ESigningKey (p : provider) (r : res jwk)
  | ESign (p : provider) (payload : bytes) (r : res bytes)
  | EVerifyDomain (domain : jsstr) (peerCert : option TLSCertificate) (r : res VerifiedIdentity)
  | EFetch (request : Request) (r : res Response)
  | ETransport (request : Request) (r : res (Response * option TLSCertificate))
  | ECancelResponse (response : Response).

Record Environment := mkEnvironment {
  env_now : list event -> Z;
  env_performanceNow : list event -> Z;
  env_abort : list event -> abort;
  env_aborted : list event -> bool;
  env_random : list event -> Z -> bytes;
  env_signingKey : list event -> provider -> res jwk;
  env_sign : list event -> provider -> bytes -> res bytes;
  env_verifyDomain : list event -> jsstr -> option TLSCertificate -> res VerifiedIdentity;
  env_fetch : list event -> Request -> res Response;
  env_transport : list event -> Request -> res (Response * option TLSCertificate)
}.

Notation run := (Eff event exn).
Notation ask := (Effects.ask (fun e : exn => e)).
Definition lift {A} (r : res A) : run A := pure_res (fun e => e) r.
Definition check (b : bool) (e : exn) : run unit := lift (throw_if b e).
Definition attempt {A} (m : run A) : run (A + exn) := try_with (m ≫= (fun a => mret (inl a))) (fun e => mret (inr e)).

(** The stream of one chunk. *)
Definition body_of (l : bytes) : option stream := Some (mkStream [l] false).

Section Profile.
Context `{Url : URLApi} `{Uni : Unicode} `{Jwk : JwkApi} `{H256 : Hash256} `{SF : StructuredFields} (env : Environment).

Definition date_now : run Z := call (env_now env) ENow.
Definition signing_key (p : provider) : run jwk := ask (fun t => env_signingKey env t p) (ESigningKey p).
Definition sign_with (p : provider) (payload : bytes) : run bytes := ask (fun t => env_sign env t p payload) (ESign p payload).
Definition resolve (domain : jsstr) (peerCert : option TLSCertificate) : run VerifiedIdentity :=
  ask (fun t => env_verifyDomain env t domain peerCert) (EVerifyDomain domain peerCert).
Definition cancelResponse (response : Response) : run unit := call (fun _ => tt) (fun _ => ECancelResponse response).

Definition wait {A} (operation : run A) : run A :=
  a ← call (env_abort env) EWait;
  match a with
  | Live => operation
  | AbortedBefore => raise cancellationError
  | AbortedDuring => try_with (operation;; raise cancellationError) (fun _ => raise cancellationError)
  | AbortedAfter => operation;; raise cancellationError
  end.

Definition budgeted {A} (timeoutMs : option Z) (operation : run A) : run A :=
  let timeout := default 30000 timeoutMs in
  check ((timeout <=? 0) || (2147483647 <? timeout)) (EArgument "verification timeout must be finite and positive");;
  started ← call (env_performanceNow env) EPerformanceNow;
  result ← wait operation;
  finished ← call (env_performanceNow env) EPerformanceNow;
  check (started + timeout <=? finished) (newVerificationError "verification deadline exceeded" RecordInvalid None true);;
  mret result.

(** ** Profiles *)

Definition new_HttpSignaturesProfile (domain : jsstr) (keyProvider : option provider)
    (config : option HttpSignaturesProfileConfig) : res HttpSignaturesProfile :=
  d ← catch (normalizeFQDN domain true) (fun _ => Throw (EArgument "domain is not a valid agent FQDN"));
  let c := default (mkProfileConfig None None) config in
  validateHttpSignaturesConfig c;;
  Ok (mkProfile d keyProvider c).

(** The resolver is the manager itself. *)
Definition fromIdentityManager (m : IdentityManager) (config : option HttpSignaturesProfileConfig) : res HttpSignaturesProfile :=
  domain ← requireLocalDomain m;
  keyProvider ← getKeyProvider m;
  new_HttpSignaturesProfile domain (Some keyProvider) config.
Definition createHttpSignaturesProfile := new_HttpSignaturesProfile.

Definition requireKeyProvider (p : HttpSignaturesProfile) : res provider :=
  of_option (pf_keyProvider p) (EArgument "HTTP message signing requires a keyProvider").

Definition generateNonce (byteLength : number) : run jsstr :=
  match byteLength with
  | NInt n =>
      check (negb (isSafeInteger n) || (n <=? 0)) (EArgument "nonce byte length must be a positive integer");;
      l ← call (fun t => env_random env t n) ERandom;
      mret (toBase64Url l)
  | _ => raise (EArgument "nonce byte length must be a positive integer")
  end.
Definition NONCE_BYTES : number := NInt 32.

(** [key.kid.includes('#')]; a key has a [kid] by its type. *)
Definition kid_without_hash (key : jwk) : res jsstr :=
  kid ← of_option (as_str (get key "kid")) (EError "TypeError");
  throw_if (includes kid [35]) (EArgument "signing key kid must not contain '#'");;
  Ok kid.

(** ** Bodies *)

(** The reads of a stream, each of which waits. *)
Fixpoint read_chunks (maxBytes : Z) (fails : bool) (acc : bytes) (l : list bytes) : run bytes :=
  match l with
  | [] => wait (check fails (EError "TypeError: stream failed"));; mret acc
  | chunk :: l =>
      value ← wait (mret chunk);
      check (maxBytes <? zlen acc + zlen value) (recordInvalid "HTTP signature body exceeds size limit");;
      read_chunks maxBytes fails (acc ++ value) l
  end.
(** A request is cloned, which throws when its body has been used. *)
Definition readBoundedBody (m : message) (maxBytes : Z) : run bytes :=
  body ← match m with
         | MRequest r => check (rq_bodyUsed r) (EError "TypeError: body used");; mret (rq_body r)
         | MResponse r => mret (rs_body r)
         end;
  match body with
  | Some s => read_chunks maxBytes (fails s) [] (chunks s)
  | None => raise (EError "TypeError")
  end.

(** [await message.clone().arrayBuffer()] when there is a body. *)
Definition whole_body (used : bool) (body : option stream) : run (option stream) :=
  match body with
  | None => mret None
  | Some s => check (used || fails s) (EError "TypeError");; mret (body_of (concat (chunks s)))
  end.

Definition digest_value (l : bytes) : jsstr := js "sha-256=:" ++ toStdBase64 (digest l) ++ js ":".

Definition with_headers (r : Request) (h : headers) : Request := mkRequest (rq_method r) (rq_url r) h (rq_body r) (rq_bodyUsed r).
(** [body] of the result; the body of the request when it is absent. *)
Definition rebuildRequest (r : Request) (h : headers) (body : option stream) : Request :=
  mkRequest (rq_method r) (rq_url r) h (match body with None => rq_body r | b => b end) false.

(** ** Signing *)

Definition signHttpMessage (msg : HttpMessage) (params : SignatureParams) (keyProvider : provider)
    (signingKey : option jwk) : run message :=
  let m := fst (asMessage msg) in
  key ← match signingKey with Some k => mret k | None => signing_key keyProvider end;
  input ← lift (buildSignatureInput msg params);
  sigRaw ← sign_with keyProvider input;
  a ← lift (jwkSignatureAlg key);
  check (negb (verifyWithKey input sigRaw key (Some a))) (EArgument "HTTP signing key changed or returned an invalid signature");;
  sigParams ← lift (serializeSigParams params);
  h ← lift (setDictionaryMember (message_headers m) (js "Signature-Input") (label params) sigParams);
  h ← lift (setDictionaryMember h (js "Signature") (label params) (58 :: toStdBase64 sigRaw ++ [58]));
  match m with
  | MRequest r => body ← whole_body (rq_bodyUsed r) (rq_body r); mret (MRequest (rebuildRequest r h body))
  | MResponse r =>
      body ← whole_body (rs_bodyUsed r) (rs_body r); mret (MResponse (mkResponse (rs_status r) h body false))
  end.

(** The additional components that are not covered already, in order. *)
Definition add_components (additional covered : list ComponentIdentifier) : res (list ComponentIdentifier) :=
  for_each (fun covered c =>
    validateComponentIdentifier c;;
    Ok (if existsb (fun d => sameComponent d c) covered then covered else covered ++ [c])) additional covered.

(** The request with [Accept-Signature], and the options that cover it. *)
Definition negotiate (req : Request) (opts : HttpSigningOptions) (r : ResponseSignatureOptions)
    : run (Request * HttpSigningOptions) :=
  policy ← lift (responsePolicy r (default DEFAULT_HTTP_SIGNATURE_LABEL (so_label opts)));
  lift (validateNegotiatedTarget req);;
  nonce ← generateNonce NONCE_BYTES;
  value ← lift (serializeNegotiation (po_components policy) nonce);
  h ← lift (headers_set (rq_headers req) (js "Accept-Signature") value);
  check (rq_bodyUsed req) (EError "TypeError: body used");;
  mret (with_headers req h,
        mkSigningOptions (Some (default [] (so_additionalComponents opts) ++ [CName (js "accept-signature")]))
          (so_label opts) (so_tag opts) (so_expiresInSeconds opts) (so_responseSignature opts)).

Definition DEFAULT_COMPONENTS : list ComponentIdentifier := map (fun n => CName (js n)) ["@method"; "@authority"; "@target-uri"]%string.

Definition check_expiry (c : HttpSignaturesProfileConfig) (expiresInSeconds : option number) : res unit :=
  throw_if (match expiresInSeconds with
            | None => false
            | Some (NInt z) => negb (isSafeInteger z) || (z <=? 0) || (max_age c <? z)
            | Some _ => true
            end) (EArgument "expiresInSeconds must be a positive integer no greater than maxAge").

Definition signRequest (p : HttpSignaturesProfile) (req : Request) (opts : HttpSigningOptions) : run Request :=
  '(req, opts) ← match so_responseSignature opts with Some r => negotiate req opts r | None => mret (req, opts) end;
  keyProvider ← lift (requireKeyProvider p);
  key ← signing_key keyProvider;
  kid ← lift (kid_without_hash key);
  bodyBuffer ← match rq_body req with
               | Some _ => b ← readBoundedBody (MRequest req) MAX_HTTP_CONTENT_BYTES; mret (Some b)
               | None => mret None
               end;
  newHeaders ← match bodyBuffer with
               | Some b => lift (headers_set (rq_headers req) (js "Content-Digest") (digest_value b))
               | None => mret (rq_headers req)
               end;
  let covered := DEFAULT_COMPONENTS ++ match bodyBuffer with Some _ => [CName (js "content-digest")] | None => [] end in
  covered ← lift (add_components (default [] (so_additionalComponents opts)) covered);
  let requestWithDigest := rebuildRequest req newHeaders (b ← bodyBuffer; body_of b) in
  ms ← date_now;
  let now := ms / 1000 in
  lift (check_expiry (pf_config p) (so_expiresInSeconds opts));;
  jose ← lift (jwkSignatureAlg key);
  httpAlg ← lift (joseAlgToHttpSigAlg jose);
  nonce ← generateNonce NONCE_BYTES;
  let sigParams := {|
    label := default DEFAULT_HTTP_SIGNATURE_LABEL (so_label opts); components := covered;
    keyId := Some (pf_domain p ++ 35 :: kid); alg := Some httpAlg;
    created := Some (NInt now); expires := (fun n => NInt (now + integer_of n)) <$> so_expiresInSeconds opts;
    nonce := Some nonce; tag := so_tag opts; sp_parameters := None |} in
  match so_responseSignature opts with
  | Some _ =>
      let limits := EArgument "negotiated request signature exceeds header or component limits" in
      check (64 <? zlen covered) limits;;
      text ← lift (serializeSigParams sigParams);
      check (16 * 1024 - zlen (label sigParams) - 1 <? zlen text) limits
  | None => mret tt
  end;;
  signed ← signHttpMessage (Alone (MRequest requestWithDigest)) sigParams keyProvider (Some key);
  match so_responseSignature opts with
  | Some _ =>
      inputs ← lift (of_option (headers_get (message_headers signed) (js "Signature-Input")) (EError "TypeError"));
      lift (parseSignatureInput inputs);;
      signatures ← lift (of_option (headers_get (message_headers signed) (js "Signature")) (EError "TypeError"));
      lift (parseSignature signatures);;
      mret tt
  | None => mret tt
  end;;
  match signed with MRequest r => mret r | MResponse _ => raise (EError "TypeError") end.

Definition snapshotSigningOptions (opts : HttpSigningOptions) (policy : ResponseSignatureOptions) : res HttpSigningOptions :=
  copied ← match so_additionalComponents opts with Some l => Some <$> copyComponents l | None => Ok None end;
  Ok (mkSigningOptions copied (so_label opts) (so_tag opts) (so_expiresInSeconds opts) (Some policy)).

Definition createSignedHttpRequest (p : HttpSignaturesProfile) (req : Request) (opts : option HttpSigningOptions) : run Request :=
  let given := default no_signing_options opts in
  match so_responseSignature given with
  | None => signRequest p req given
  | Some r =>
      policy ← lift (responsePolicy r DEFAULT_HTTP_SIGNATURE_LABEL);
      options ← lift (snapshotSigningOptions given (po_options policy));
      check (rq_bodyUsed req) (EError "TypeError: body used");;
      budgeted None (signRequest p req options)
  end.

(** ** Freshness *)

Definition checkFreshness (p : HttpSignaturesProfile) (s : SignatureParams) : run unit :=
  ms ← date_now;
  let now := ms / 1000 in
  let created := integer_of (default NNaN (created s)) in
  let expires := integer_of <$> expires s in
  let maxAgeSeconds := max_age (pf_config p) in
  let clockSkewSeconds := clock_skew (pf_config p) in
  check (maxAgeSeconds <? now - created)
    (signatureInvalid "HTTP message signature has expired (created too far in the past)");;
  check (now + clockSkewSeconds <? created) (signatureInvalid "HTTP message signature created time is in the future");;
  match expires with
  | None => mret tt
  | Some expires =>
      check (expires <? created) (signatureInvalid "HTTP message signature expires precedes created");;
      check (expires + clockSkewSeconds <? now) (signatureInvalid "HTTP message signature has expired (expires parameter)");;
      check (maxAgeSeconds <? expires - created) (signatureInvalid "HTTP message signature expires lifetime exceeds maximum")
  end.

Definition without_expires (s : SignatureParams) : SignatureParams :=
  mkSignatureParams (label s) (components s) (keyId s) (alg s) (created s) None (nonce s) (tag s) (sp_parameters s).

(** Both timestamps are present. *)
Definition checkResponseFreshness (p : HttpSignaturesProfile) (s : SignatureParams) : run unit :=
  let created := integer_of (default NNaN (created s)) in
  let expires := integer_of (default NNaN (expires s)) in
  let lifetime := expires - created in
  check (negb ((0 <? lifetime) && (lifetime <=? RESPONSE_SIGNATURE_LIFETIME_SECONDS)))
    (signatureInvalid "response signature lifetime must be 1 to 60 seconds");;
  checkFreshness p (without_expires s);;
  ms ← date_now;
  check (expires + clock_skew (pf_config p) <? ms / 1000) (signatureInvalid "response signature has expired").

(** ** Verifying requests *)

Definition selectSignatureCandidates (inputs : list (jsstr * SignatureParams)) (sigs : list (jsstr * bytes))
    (requiredTag : option jsstr) : res (list SignatureParams) :=
  let matching := List.filter (fun params =>
    negb (is_none (map_get (label params) sigs))
    && match requiredTag with None => true | Some t => bool_decide (tag params = Some t) end) (map snd inputs) in
  throw_if (length matching =? 0)%nat (recordInvalid "expected at least one matching Signature and Signature-Input label");;
  Ok matching.

Definition argument_or_validation (e : exn) : bool := match e with EArgument _ | EValidation _ => true | _ => false end.
(** The errors of a candidate that leave the others to be tried. *)
Definition candidate_error (e : exn) : bool :=
  match e with EArgument _ | EValidation _ | EVerification _ => true | _ => false end.

Definition covers (s : SignatureParams) (c : ComponentIdentifier) : bool := existsb (fun d => sameComponent d c) (components s).

(** The body agrees with the covered [Content-Digest]. *)
Definition verify_body (req : Request) (s : SignatureParams) : run unit :=
  let hasBody := negb (is_none (rq_body req)) in
  check (hasBody && negb (covers s (CName (js "content-digest"))))
    (signatureInvalid "request body is present but content-digest is not covered by the signature");;
  if negb (hasComponentNamed (components s) (js "content-digest")) then mret tt else
  check (negb hasBody) (signatureInvalid "content-digest is a covered component but request has no body");;
  match headers_get (rq_headers req) (js "Content-Digest") with
  | Some ((_ :: _) as digestHeader) =>
      expectedDigest ← lift (parseSha256ContentDigest digestHeader (components s));
      bodyBuffer ← readBoundedBody (MRequest req) MAX_HTTP_CONTENT_BYTES;
      check (negb (constantTimeEqual expectedDigest (digest bodyBuffer)))
        (signatureInvalid "Content-Digest does not match request body")
  | _ => raise (signatureInvalid "content-digest is covered but Content-Digest header is absent")
  end.

Definition verifySignatureCandidate (p : HttpSignaturesProfile) (req : Request) (s : SignatureParams) (rawSig : bytes)
    (opts : HttpVerificationOptions) : run VerifiedIdentity :=
  let requiredComponents := default DEFAULT_COMPONENTS (vo_requiredComponents opts) in
  check (negb (forallb (covers s) requiredComponents))
    (signatureInvalid "Signature-Input missing required covered component");;
  key_id ← lift (match keyId s with
                | Some ((_ :: _) as k) => Ok k
                | _ => Throw (signatureInvalid "Signature-Input missing required keyid parameter")
                end);
  check (is_none (created s)) (signatureInvalid "Signature-Input missing required created parameter");;
  '(domain, kid) ← lift (catch (parseKeyId key_id) (fun e =>
    Throw (if argument_or_validation e then signatureInvalid "invalid keyid in Signature-Input" else e)));
  checkFreshness p s;;
  vd ← wait (resolve domain (vo_peerCert opts));
  sigKey ← lift (of_option (keyById (vi_jwks vd) kid) (newVerificationError "request kid not found in signer JWKS" KeyNotFound None false));
  verify_body req s;;
  keyAlg ← lift (jwkSignatureAlg sigKey);
  expectedHttpSigAlg ← lift (joseAlgToHttpSigAlg keyAlg);
  check (match alg s with Some ((_ :: _) as a) => negb (bool_decide (a = expectedHttpSigAlg)) | _ => false end)
    (signatureInvalid "HTTP message signature alg mismatch");;
  input ← lift (catch (buildSignatureInput (Alone (MRequest req)) s) (fun e =>
    Throw (match e with EArgument _ => signatureInvalid "Signature-Input covers absent component" | e => e end)));
  let sigBase := text_decode input in
  check (negb (verifyWithKey (utf8_encode sigBase) rawSig sigKey (Some keyAlg))) (signatureInvalid "HTTP message signature invalid");;
  mret vd.

Fixpoint try_candidates (p : HttpSignaturesProfile) (req : Request) (sigs : list (jsstr * bytes)) (opts : HttpVerificationOptions)
    (verified : option VerifiedIdentity) (lastError : option exn) (candidates : list SignatureParams) : run VerifiedIdentity :=
  match candidates with
  | [] =>
      match verified, lastError with
      | Some vd, _ => mret vd
      | None, Some e => raise e
      | None, None => raise (signatureInvalid "no valid HTTP message signature")
      end
  | s :: candidates =>
      aborted ← call (env_aborted env) EAborted;
      check aborted (recordInvalid "HTTP verification canceled");;
      outcome ← attempt (verifySignatureCandidate p req s (default [] (map_get (label s) sigs)) opts);
      match outcome with
      | inr e =>
          if candidate_error e then try_candidates p req sigs opts verified (Some e) candidates else raise e
      | inl candidate =>
          check (negb (is_none verified)) (recordInvalid "multiple valid HTTP message signatures");;
          try_candidates p req sigs opts (Some candidate) lastError candidates
      end
  end.

Definition verifyRequestWithinBudget (p : HttpSignaturesProfile) (req : Request) (opts : HttpVerificationOptions) : run VerifiedIdentity :=
  match headers_get (rq_headers req) (js "Signature-Input"), headers_get (rq_headers req) (js "Signature") with
  | Some ((_ :: _) as sigInputHeader), Some ((_ :: _) as sigHeader) =>
      sigInputs ← lift (parseSignatureInput sigInputHeader);
      sigs ← lift (parseSignature sigHeader);
      candidates ← lift (selectSignatureCandidates sigInputs sigs (vo_requiredTag opts));
      try_candidates p req sigs opts None None candidates
  | _, _ => raise (signatureInvalid "missing Signature or Signature-Input headers")
  end.

Definition verifySignedHttpRequest (p : HttpSignaturesProfile) (req : Request) (opts : HttpVerificationOptions) : run VerifiedIdentity :=
  budgeted (vo_timeoutMs opts) (verifyRequestWithinBudget p req opts).

(** ** Signed responses *)

Definition responseContent (request : Request) (response : Response) (signing : bool) : run bytes :=
  if noResponseContent request response && (is_none (rs_body response) || signing) then mret []
  else
    check (is_none (rs_body response) || rs_bodyUsed response) (signatureInvalid "response content is unavailable");;
    try_with
      (body ← readBoundedBody (MResponse response) MAX_HTTP_CONTENT_BYTES;
       check (noResponseContent request response && negb (zlen body =? 0))
         (signatureInvalid "content supplied for a no-content response");;
       mret body)
      (fun cause => raise (match cause with
         | EVerification _ => cause
         | _ => signatureInvalid "unable to read exact response content" end)).

Definition response_body (request : Request) (response : Response) (body : bytes) : option stream :=
  if noResponseContent request response then None else body_of body.

Definition negotiated_params (p : HttpSignaturesProfile) (n : negotiation) (kid httpAlg : jsstr) (created : Z) : SignatureParams :=
  {| label := ng_label n; components := ng_components n; keyId := Some (pf_domain p ++ 35 :: kid); alg := Some httpAlg;
     SignatureFields.created := Some (NInt created); expires := Some (NInt (created + RESPONSE_SIGNATURE_LIFETIME_SECONDS));
     nonce := Some (ng_nonce n); tag := None; sp_parameters := None |}.

(** [response] with [Content-Digest] and [no-store]. *)
Definition response_headers (response : Response) (body : bytes) : res headers :=
  h ← headers_set (rs_headers response) (js "Content-Digest") (digest_value body);
  h ← (if hasNoStore (headers_get h (js "Cache-Control")) then Ok h else headers_append h (js "Cache-Control") (js "no-store"));
  throw_if (negb (hasNoStore (headers_get h (js "Cache-Control")))) (EArgument "malformed response Cache-Control");;
  Ok h.

Definition sign_negotiated (p : HttpSignaturesProfile) (keyProvider : provider) (request : Request) (response : Response)
    (n : negotiation) : run Response :=
  body ← responseContent request response true;
  h ← lift (response_headers response body);
  let unsigned := mkResponse (rs_status response) h (response_body request response body) false in
  key ← wait (signing_key keyProvider);
  kid ← lift (kid_without_hash key);
  ms ← date_now;
  jose ← lift (jwkSignatureAlg key);
  httpAlg ← lift (joseAlgToHttpSigAlg jose);
  let params := negotiated_params p n kid httpAlg (ms / 1000) in
  text ← lift (serializeSigParams params);
  lift (assertHeaderBound (label params ++ 61 :: text));;
  signed ← wait (signHttpMessage (Paired (MResponse unsigned) (Some request)) params keyProvider (Some key));
  inputs ← lift (of_option (headers_get (message_headers signed) (js "Signature-Input")) (EError "TypeError"));
  lift (parseSignatureInput inputs);;
  input ← lift (buildSignatureInput (Paired signed (Some request)) params);
  signatures ← lift (of_option (headers_get (message_headers signed) (js "Signature")) (EError "TypeError"));
  sigs ← lift (parseSignature signatures);
  check (negb (verifyWithKey input (default [] (map_get (label params) sigs)) key (Some jose)))
    (EArgument "response signing key changed during signing");;
  match signed with MResponse r => mret r | MRequest _ => raise (EError "TypeError") end.

Definition signRequestedHttpResponse (p : HttpSignaturesProfile) (request : Request) (response : Response) : run Response :=
  match headers_get (rq_headers request) (js "Accept-Signature") with
  | None => mret response
  | Some header =>
      n ← lift (parseNegotiation header);
      lift (requireFinalResponse request response);;
      lift (rejectLabelCollision (rs_headers response) (ng_label n));;
      keyProvider ← lift (requireKeyProvider p);
      try_with (budgeted None (sign_negotiated p keyProvider request response n))
        (fun e => cancelResponse response;; raise e)
  end.

(** The timestamps of the members with the label are integers as written. *)
Definition check_timestamps (inputHeader lbl : jsstr) : res unit :=
  entries ← splitDictionary inputHeader;
  for_each (fun _ entry =>
    let k := indexOf entry [61] in
    let name := trim (slice entry 0 (if k =? -1 then zlen entry - 1 else k)) in
    if bool_decide (name = lbl) then
      parseSignatureParameterOccurrences (trim (slice_from entry (k + 1))) true;; Ok tt
    else Ok tt) entries tt.

Definition same_components (a b : list ComponentIdentifier) : bool :=
  (length a =? length b)%nat && forallb (fun '(c, d) => sameComponent c d) (zip a b).

Definition response_params_complete (s : SignatureParams) : bool :=
  negb (is_none (created s)) && negb (is_none (expires s))
  && match alg s with Some a => bool_decide (a ∈ map snd JOSE_TO_HTTP_SIG_ALG) | None => false end
  && match keyId s with Some (_ :: _) => true | _ => false end.

(** What the fields of the response say about the requested signature. *)
Definition requested_signature (request : Request) (response : Response) (policy : response_policy) : res (SignatureParams * bytes) :=
  requireFinalResponse request response;;
  u ← of_option (new_URL (rq_url request)) (EError "TypeError: Invalid URL");
  throw_if (negb (bool_decide (url_protocol u = js "https:"))) (signatureInvalid "negotiated responses require HTTPS");;
  requested ← parseNegotiation (default [] (headers_get (rq_headers request) (js "Accept-Signature")));
  throw_if (existsb (fun c => negb (existsb (fun d => sameComponent d c) (ng_components requested)))
             (default [] (additionalComponents (po_options policy)))) (signatureInvalid "saved negotiation omits local coverage");;
  let inputHeader := default [] (headers_get (rs_headers response) (js "Signature-Input")) in
  inputs ← parseSignatureInput inputHeader;
  check_timestamps inputHeader (ng_label requested);;
  signatures ← parseSignature (default [] (headers_get (rs_headers response) (js "Signature")));
  match map_get (ng_label requested) inputs, map_get (ng_label requested) signatures with
  | Some params, Some signature =>
      throw_if (negb (same_components (components params) (ng_components requested))
                || negb (bool_decide (nonce params = Some (ng_nonce requested))))
        (signatureInvalid "response coverage or nonce differs from negotiation");;
      throw_if (negb (response_params_complete params)) (signatureInvalid "response requires timestamps, algorithm, and keyid");;
      Ok (params, signature)
  | _, _ => Throw (signatureInvalid "missing requested response signature")
  end.

(** The [try] around the base and the key. *)
Definition check_response_signature (request : Request) (response : Response) (params : SignatureParams)
    (signature : bytes) (key : jwk) : res unit :=
  catch
    (a ← jwkSignatureAlg key;
     expected ← joseAlgToHttpSigAlg a;
     valid ← (if negb (bool_decide (Some expected = alg params)) then Ok false
              else input ← buildSignatureInput (Paired (MResponse response) (Some request)) params;
                   Ok (verifyWithKey input signature key (Some a)));
     throw_if (negb valid) (signatureInvalid "invalid response signature or key algorithm"))
    (fun cause => Throw (match cause with
       | EVerification _ => cause
       | _ => signatureInvalid "invalid response signature base or key" end)).

Definition verify_response (p : HttpSignaturesProfile) (request : Request) (response : Response)
    (policy : response_policy) (peerCert : option TLSCertificate) : run VerifiedIdentity :=
  '(params, signature) ← lift (requested_signature request response policy);
  checkResponseFreshness p params;;
  '(domain, kid) ← lift (catch (parseKeyId (default [] (keyId params)))
                          (fun _ => Throw (signatureInvalid "invalid response keyid")));
  check (negb (bool_decide (domain = expectedDomain (po_options policy)))) (signatureInvalid "unexpected response signer domain");;
  vd ← wait (resolve domain peerCert);
  key ← lift (of_option (keyById (vi_jwks vd) kid)
                (newVerificationError "response kid not found in current JWKS" KeyNotFound None false));
  lift (check_response_signature request response params signature key);;
  expectedDigest ← lift (parseSha256ContentDigest (default [] (headers_get (rs_headers response) (js "Content-Digest"))) (components params));
  content ← responseContent request response false;
  check (negb (constantTimeEqual expectedDigest (digest content))) (signatureInvalid "response Content-Digest mismatch");;
  check (negb (hasNoStore (headers_get (rs_headers response) (js "Cache-Control")))) (signatureInvalid "response requires signed no-store");;
  checkResponseFreshness p params;;
  ms ← date_now;
  lift (assertFresh ms (as_VerifiedDomain vd));;
  mret vd.

Definition verifySignedHttpResponse (p : HttpSignaturesProfile) (request : Request) (response : Response)
    (opts : ResponseSignatureOptions) (peerCert : option TLSCertificate) (timeoutMs : option Z) : run VerifiedIdentity :=
  try_with
    (policy ← lift (responsePolicy opts DEFAULT_HTTP_SIGNATURE_LABEL);
     budgeted timeoutMs (verify_response p request response policy peerCert))
    (fun e => cancelResponse response;; raise e).

(** ** Signed fetch *)

Record CreateSignedFetchOptions := mkFetchOptions {
  fo_fetch : bool;
  fo_responseTransport : bool;
  fo_timeoutMs : option Z;
  fo_signing : Request -> option HttpSigningOptions;
  fo_prepareRequest : option (Request -> res Request)
}.

(** The send is started at once; a response that settles after the signal is cancelled. *)
Definition send (request : Request) : run (Response * option TLSCertificate) :=
  r ← call (fun t => env_transport env t request) (ETransport request);
  a ← call (env_abort env) EWait;
  match a, r with
  | Live, _ => lift r
  | _, Ok (response, _) => cancelResponse response;; raise cancellationError
  | AbortedAfter, Throw e => raise e
  | _, Throw _ => raise cancellationError
  end.

(** The function that [createSignedFetch] returns, on the request made of its arguments;
    [streaming] when the given body is a [ReadableStream]. *)
Definition signedFetch (p : HttpSignaturesProfile) (opts : CreateSignedFetchOptions) (streaming : bool) (req : Request) : run Response :=
  check streaming (EArgument "createSignedFetch does not support non-replayable ReadableStream request bodies");;
  preparedReq ← match fo_prepareRequest opts with Some f => lift (f req) | None => mret req end;
  let signingOptions := fo_signing opts preparedReq in
  match so_responseSignature (default no_signing_options signingOptions) with
  | None =>
      check (negb (fo_fetch opts)) (EArgument "createSignedFetch requires fetch for request-only signing");;
      signedReq ← createSignedHttpRequest p preparedReq signingOptions;
      ask (fun t => env_fetch env t signedReq) (EFetch signedReq)
  | Some r =>
      policy ← lift (responsePolicy r DEFAULT_HTTP_SIGNATURE_LABEL);
      check (negb (fo_responseTransport opts)) (EArgument "negotiated responses require a single-send responseTransport");;
      check (rq_bodyUsed preparedReq) (EError "TypeError: body used");;
      signing ← lift (snapshotSigningOptions (default no_signing_options signingOptions) (po_options policy));
      budgeted (fo_timeoutMs opts)
        (signedReq ← signRequest p preparedReq signing;
         '(response, peerCert) ← send signedReq;
         try_with
           (verifySignedHttpResponse p signedReq response (po_options policy) peerCert None;;
            mret response)
           (fun e => cancelResponse response;; raise e))
  end.

End Profile.
