(* ===== verification/ProfileRules.v ===== *)
(** The rules of the operations that the profiles of [HttpSignatures] and [Jose] share: waits,
    budgets, checks and attempts. *)

From S2P Require Import Prelude Effects JsString Budget HttpMessages HttpSignatures.

(** ** Triples of the profile's operations *)

Section Rules.
Context (env : Environment).

Notation returning := (@returning event exn _).

Lemma returning_lift {A} (r : res A) t Q : (forall a, r = Ok a -> Q a t) -> returning (lift r) t Q.
Proof. apply returning_pure. Qed.

Lemma returning_check b e t (Q : unit -> list event -> Prop) : (b = false -> Q tt t) -> returning (check b e) t Q.
Proof. intros H. apply returning_lift. intros [] Hb%throw_if_Ok. by apply H. Qed.

Lemma returning_wait {A} (op : run A) t Q :
  (forall t', t `prefix_of` t' -> returning op t' Q) -> returning (wait env op) t Q.
Proof.
  intros H. apply returning_bind, returning_call. intros a.
  pose proof (H (t ++ [EWait a]) ltac:(by apply prefix_app_r)) as Hop.
  destruct a; [done|apply returning_raise| |].
  - apply returning_try; [|intros; apply returning_raise].
    apply returning_bind. eapply returning_mono; [exact Hop|]. intros; apply returning_raise.
  - apply returning_bind. eapply returning_mono; [exact Hop|]. intros; apply returning_raise.
Qed.

Lemma returning_budgeted {A} timeoutMs (op : run A) t Q :
  (forall t', t `prefix_of` t' -> returning op t' (fun a t2 => forall t3, t2 `prefix_of` t3 -> Q a t3)) ->
  returning (budgeted env timeoutMs op) t Q.
Proof.
  intros H. apply returning_bind, returning_check. intros _. apply returning_bind, returning_call. intros s.
  apply returning_bind, returning_wait. intros t' Hp.
  eapply returning_mono; [apply H; etrans; [|exact Hp]; by apply prefix_app_r|]. intros a t2 _ HQ.
  apply returning_bind, returning_call. intros f. apply returning_bind, returning_check. intros _.
  apply returning_ret, HQ. by apply prefix_app_r.
Qed.

Lemma returning_attempt {A} (m : run A) t (Q : A + exn -> list event -> Prop) :
  returning m t (fun a t' => Q (inl a) t') ->
  (forall e t', m t = (Raises e, t') -> t `prefix_of` t' -> Q (inr e) t') -> returning (attempt m) t Q.
Proof.
  unfold returning, wp, attempt, try_with, mbind, Eff_bind, mret, Eff_ret. intros [Hp HQ] He.
  destruct (m t) as [[a|e] t'] eqn:E; cbn in *; [done|]. split; [done|]. by apply He.
Qed.

End Rules.

#[export] Hint Resolve prefix_app_r : core.

(** One step of a triple. *)
Ltac step :=
  lazymatch goal with
  | |- returning (mret _) _ _ => apply returning_ret
  | |- returning (raise _) _ _ => apply returning_raise
  | |- returning (_ ≫= _) _ _ => apply returning_bind
  | |- returning (lift _) _ _ => apply returning_lift
  | |- returning (check _ _) _ _ => apply returning_check
  | |- returning (call _ _) _ _ => apply returning_call
  | |- returning (wait _ _) _ _ => apply returning_wait
  | |- returning (date_now _) _ _ => apply returning_call
  | |- returning _ _ _ => apply returning_bind
  end.

(** ** Computations that return whatever was called before *)

Section Delivers.
Context (env : Environment) (timeoutMs : option Z).

(** Nothing is aborted, and no call takes longer than its budget. *)
Record undisturbed : Prop := {
  un_live : forall t, env_abort env t = Live;
  un_going : forall t, env_aborted env t = false;
  un_timeout : 0 < default 30000 timeoutMs <= 2147483647;
  un_in_time : forall t t', env_performanceNow env t' < env_performanceNow env t + default 30000 timeoutMs
}.
Context (Hun : undisturbed).

Lemma delivers_check b e : b = false -> delivers (check b e) tt.
Proof. intros ->. apply delivers_pure. Qed.

Lemma delivers_lift {A} (r : res A) a : r = Ok a -> delivers (lift r) a.
Proof. intros ->. apply delivers_pure. Qed.

Lemma delivers_wait {A} (op : run A) a : delivers op a -> delivers (wait env op) a.
Proof. intros H. apply delivers_call. intros t. by rewrite (un_live Hun). Qed.

Lemma delivers_attempt {A} (m : run A) a : delivers m a -> delivers (attempt m) (inl a).
Proof. intros H t. destruct (H t) as [t' E]. exists t'. unfold attempt, try_with, mbind, Eff_bind. by rewrite E. Qed.

Lemma delivers_budgeted {A} (op : run A) a : delivers op a -> delivers (budgeted env timeoutMs op) a.
Proof.
  intros H. destruct Hun as [_ _ Ht Hi]. eapply delivers_bind; [apply delivers_check; lia|].
  apply delivers_call. intros t. eapply delivers_bind; [by apply delivers_wait|]. apply delivers_call. intros t'.
  eapply delivers_bind; [apply delivers_check|apply delivers_ret]. pose proof (Hi t t'). lia.
Qed.

End Delivers.
