(* ===== verification/HttpSafety.v ===== *)
(** What an accepted HTTP message signature has shown ([HttpSignatures]). *)

From S2P Require Import Prelude Effects JsString Base64 Sha256 Url Utils Json Jwk Lifecycle Budget.
From S2P Require Import Verification HttpMessages SignatureFields HttpSignatures ProfileRules.

(** ** Texts and octets *)

Lemma constantTimeEqual_spec a b : constantTimeEqual a b = true <-> a = b.
Proof.
  unfold constantTimeEqual. destruct (Nat.eqb_spec (length a) (length b)) as [Hl|Hl]; cbn [negb].
  2: { split; [done|intros ->; done]. }
  assert (Hz : forall l d, 0 <= d -> foldl (fun diff '(x, y) => Z.lor diff (Z.lxor (b2z x) (b2z y))) d l = 0
             <-> d = 0 /\ Forall (fun '(x, y) => x = y) l).
  { induction l as [|[x y] l IH]; intros d Hd; [cbn; split; [done|tauto]|]. cbn [foldl].
    pose proof (b2z_range x). pose proof (b2z_range y).
    rewrite IH by (apply Z.lor_nonneg; split; [lia|apply Z.lxor_nonneg; lia]).
    rewrite Z.lor_eq_0_iff, Z.lxor_eq_0_iff, Forall_cons. split.
    - intros [[-> E] H']. split; [done|split; [by apply b2z_inj|done]].
    - intros [-> [-> H']]. done. }
  rewrite Z.eqb_eq, Hz by lia. split.
  - intros [_ H]. revert b Hl H. induction a as [|x a IH]; intros [|y b] Hl H; try done.
    inversion H; subst. f_equal. apply IH; [cbn in Hl; lia|done].
  - intros <-. split; [done|]. clear. induction a; cbn; constructor; done.
Qed.

(** ** What an accepted request has shown *)

(** The timestamps of a signature at the second [now]. *)
Record timely (p : HttpSignaturesProfile) (created : Z) (expires : option Z) (now : Z) : Prop := {
  fr_age : now - created <= max_age (pf_config p);
  fr_past : created <= now + clock_skew (pf_config p);
  fr_expires : match expires with
               | Some e => created <= e <= created + max_age (pf_config p) /\ now <= e + clock_skew (pf_config p)
               | None => True
               end
}.

Section Accepted.
Context `{Url : URLApi} `{Uni : Unicode} `{Jwk : JwkApi} `{H256 : Hash256} `{SF : StructuredFields} (env : Environment).
Context (p : HttpSignaturesProfile) (req : Request) (opts : HttpVerificationOptions).

Notation returning := (@returning event exn _).

(** The octets of the body of the request. *)
Definition body_content (b : stream) : bytes := concat (chunks b).

(** The resolver has verified the domain of the [keyid], and a key of that domain's key set
    verifies the signature over the base. *)
Definition signed_by (s : SignatureParams) (raw : bytes) (v : VerifiedIdentity) (t : list event) : Prop :=
  exists key_id domain kid key a httpAlg input,
    keyId s = Some key_id /\ parseKeyId key_id = Ok (domain, kid)
    /\ EVerifyDomain domain (vo_peerCert opts) (Ok v) ∈ t
    /\ keyById (vi_jwks v) kid = Some key /\ jwkSignatureAlg key = Ok a /\ joseAlgToHttpSigAlg a = Ok httpAlg
    /\ (default [] (alg s) = [] \/ alg s = Some httpAlg)
    /\ buildSignatureInput (Alone (MRequest req)) s = Ok input
    /\ verifyWithKey (utf8_encode (text_decode input)) raw key (Some a) = true.

Definition body_bound (s : SignatureParams) : Prop :=
  match rq_body req with
  | None => hasComponentNamed (components s) (js "content-digest") = false
  | Some b =>
      covers s (CName (js "content-digest")) = true /\ fails b = false
      /\ zlen (body_content b) <= MAX_HTTP_CONTENT_BYTES
      /\ exists header, headers_get (rq_headers req) (js "Content-Digest") = Some header
         /\ parseSha256ContentDigest header (components s) = Ok (digest (body_content b))
  end.

Record accepted (s : SignatureParams) (raw : bytes) (v : VerifiedIdentity) (t : list event) : Prop := {
  ac_covered : forall c, c ∈ default DEFAULT_COMPONENTS (vo_requiredComponents opts) -> covers s c = true;
  ac_signed : signed_by s raw v t;
  ac_body : body_bound s;
  ac_fresh : exists n ms, created s = Some n /\ ENow ms ∈ t
             /\ timely p (integer_of n) (integer_of <$> expires s) (ms / 1000)
}.

Lemma signed_by_mono s raw v t t' : t `prefix_of` t' -> signed_by s raw v t -> signed_by s raw v t'.
Proof.
  intros [k ->] (key_id & d & kid & key & a & h & i & H1 & H2 & H3 & H4).
  exists key_id, d, kid, key, a, h, i. rewrite elem_of_app. naive_solver.
Qed.

Lemma candidate_accepted_mono s raw v t t' : t `prefix_of` t' -> accepted s raw v t -> accepted s raw v t'.
Proof.
  intros Hp [H1 H2 H3 (n & ms & Hn & He & Hf)]. split; [done|by eapply signed_by_mono|done|].
  destruct Hp as [k ->]. exists n, ms. rewrite elem_of_app. naive_solver.
Qed.

Lemma read_chunks_spec maxBytes broken acc l t : zlen acc <= maxBytes ->
  returning (read_chunks env maxBytes broken acc l) t
    (fun b _ => broken = false /\ b = acc ++ concat l /\ zlen b <= maxBytes).
Proof.
  revert acc t. induction l as [|c l IH]; intros acc t Ha; cbn [read_chunks].
  - step. step. intros t1 _. step. intros Hb. step. by rewrite app_nil_r.
  - step. step. intros t1 _. step. step. step. intros Hm%Z.ltb_ge.
    eapply returning_mono; [apply IH; by rewrite zlen_app|]. intros b t2 _ (? & -> & ?).
    by rewrite <-app_assoc in *.
Qed.

Lemma checkFreshness_spec s t : returning (checkFreshness env p s) t (fun _ t' =>
  exists ms, ENow ms ∈ t' /\ timely p (integer_of (default NNaN (created s))) (integer_of <$> expires s) (ms / 1000)).
Proof.
  step. step. intros ms. step. step. intros Ha%Z.ltb_ge. step. step. intros Hb%Z.ltb_ge.
  assert (He : ENow ms ∈ t ++ [ENow ms]) by set_solver.
  destruct (integer_of <$> expires s) as [e|]; [|step; by exists ms].
  step. step. intros Hc%Z.ltb_ge. step. step. intros Hd%Z.ltb_ge. step. intros Hg%Z.ltb_ge.
  exists ms. split; [done|]. split; [lia|lia|lia].
Qed.

Lemma verify_body_spec s t : returning (verify_body env req s) t (fun _ _ => body_bound s).
Proof.
  unfold verify_body, body_bound. step. step. intros Hc.
  destruct (rq_body req) as [b|] eqn:Eb; cbn [is_none negb andb] in *.
  - apply negb_false_iff in Hc.
    destruct (hasComponentNamed _ _) eqn:En; cbn [negb].
    2: { exfalso. unfold covers in Hc. apply existsb_exists in Hc as (c & Hin & Hs).
         unfold hasComponentNamed in En. rewrite <-not_true_iff_false, existsb_exists in En. apply En.
         exists c. split; [done|]. unfold sameComponent in Hs. apply andb_true_iff in Hs as [Hs _].
         by apply andb_true_iff in Hs as [Hs _]. }
    step. step. intros _. destruct (headers_get _ _) as [[|x header]|] eqn:Eh; [step|..|step].
    step. step. intros d Hd. unfold readBoundedBody. rewrite Eb. step. step. step. step. intros _. step.
    eapply returning_mono; [by apply read_chunks_spec|]. intros content t' _ (Hf & -> & Hl).
    step. intros He%negb_false_iff%constantTimeEqual_spec. subst d. repeat split; [done|done|done|].
    by exists (x :: header).
  - destruct (hasComponentNamed _ _) eqn:En; cbn [negb]; [|by step]. step. step. done.
Qed.

Lemma verifySignatureCandidate_spec s raw t :
  returning (verifySignatureCandidate env p req s raw opts) t (fun v t' => accepted s raw v t').
Proof.
  step. step. intros Hc%negb_false_iff. step. step. intros key_id Hk.
  assert (Hk' : keyId s = Some key_id).
  { destruct (keyId s) as [[|x k]|]; [done| |done]. by injection Hk as <-. }
  step. step. intros Hcr. step. step. intros [domain kid] [Hp|(e & ? & ?)]%catch_Ok; [|done].
  step. eapply returning_mono; [apply checkFreshness_spec|]. intros [] t1 _ (ms & Hms & Hf).
  step. step. intros t2 Hp2. unfold resolve. apply returning_ask. intros v _.
  step. step. intros key Hkey%of_option_Ok. step. eapply returning_mono; [apply verify_body_spec|].
  intros [] t3 Hp3 Hb. step. step. intros a Ha. step. step. intros h Hh. step. step. intros Halg.
  step. step. intros input [Hi|(e & _ & [=])]%catch_Ok. step. step. intros Hv%negb_false_iff. step.
  split.
  - intros c Hin. rewrite forallb_forall in Hc. apply Hc. by apply list_elem_of_In.
  - exists key_id, domain, kid, key, a, h, input. repeat split; try done.
    + eapply elem_of_prefix; [|exact Hp3]. set_solver.
    + destruct (alg s) as [[|x l]|]; [by left| |by left]. right. f_equal.
      by apply negb_false_iff, bool_decide_eq_true in Halg.
  - done.
  - destruct (created s) as [n|] eqn:Ec; [|done]. exists n, ms. split; [done|]. split; [|done].
    eapply elem_of_prefix; [exact Hms|]. etrans; [exact Hp2|]. etrans; [|exact Hp3]. by apply prefix_app_r.
Qed.

(** ** The candidates of a request *)

Definition raw_of (sigs : list (jsstr * bytes)) (s : SignatureParams) : bytes := default [] (map_get (label s) sigs).
(** The candidate has been tried, and refused. *)
Definition refused (sigs : list (jsstr * bytes)) (s : SignatureParams) : Prop :=
  exists t e, fst (verifySignatureCandidate env p req s (raw_of sigs s) opts t) = Raises e.

Definition only_accepted (sigs : list (jsstr * bytes)) (l : list SignatureParams) (v : VerifiedIdentity) (t : list event) : Prop :=
  exists l1 s l2, l = l1 ++ s :: l2 /\ accepted s (raw_of sigs s) v t /\ Forall (refused sigs) (l1 ++ l2).

Lemma try_candidates_spec sigs l : forall verified lastError t,
  returning (try_candidates env p req sigs opts verified lastError l) t (fun v t' =>
    (verified = Some v /\ Forall (refused sigs) l) \/ (verified = None /\ only_accepted sigs l v t')).
Proof.
  induction l as [|s l IH]; intros verified lastError t; cbn [try_candidates].
  - destruct verified as [v|], lastError as [e|]; step; by left.
  - step. step. intros aborted. step. step. intros _. step. apply returning_attempt.
    + eapply returning_mono; [apply verifySignatureCandidate_spec|]. intros v1 t1 Hp1 Hacc.
      step. step. intros Hv. destruct verified; [done|].
      eapply returning_mono; [apply IH|]. intros v t2 Hp2 [[[= ->] Hl]|[? _]]; [|done].
      right. split; [done|]. exists [], s, l. split; [done|]. split; [by eapply candidate_accepted_mono|done].
    + intros e t1 He Hp1. assert (refused sigs s) as Hr by (exists (t ++ [EAborted aborted]), e; unfold raw_of; by rewrite He).
      destruct (candidate_error e); [|step].
      eapply returning_mono; [apply IH|]. intros v t2 Hp2 [[-> Hl]|(-> & l1 & s1 & l2 & -> & Hacc & Hl)].
      * left. split; [done|by constructor].
      * right. split; [done|]. exists (s :: l1), s1, l2. split; [done|]. split; [done|by constructor].
Qed.

Lemma selectSignatureCandidates_In inputs sigs t l s : selectSignatureCandidates inputs sigs t = Ok l -> s ∈ l ->
  s ∈ map snd inputs /\ (exists raw, map_get (label s) sigs = Some raw) /\ (forall tg, t = Some tg -> tag s = Some tg).
Proof.
  intros ([] & _ & [= <-])%bind_Ok Hs%list_elem_of_In. apply filter_In in Hs as [Hin Hs].
  apply andb_true_iff in Hs as [Hg Ht]. split; [by apply list_elem_of_In|]. split.
  - destruct (map_get _ _) as [raw|]; [by exists raw|done].
  - intros tg ->. by apply bool_decide_eq_true in Ht.
Qed.

(** The fields of the request hold exactly one signature that the profile accepts. *)
Definition request_accepted (v : VerifiedIdentity) (t : list event) : Prop :=
  exists input_header signature_header inputs sigs candidates,
    headers_get (rq_headers req) (js "Signature-Input") = Some input_header
    /\ headers_get (rq_headers req) (js "Signature") = Some signature_header
    /\ parseSignatureInput input_header = Ok inputs /\ parseSignature signature_header = Ok sigs
    /\ selectSignatureCandidates inputs sigs (vo_requiredTag opts) = Ok candidates
    /\ only_accepted sigs candidates v t.

(** C5: An HTTP request is accepted only with a signature of the identity that is returned.
    The fields of the request hold a candidate, with the required tag, whose domain the
    resolver has verified in this call, giving that identity; a key of that identity's key
    set, named by the candidate's [keyid], verifies the signature over the signature base of
    this very request; the base covers the required components; the algorithm is that of the
    key; the timestamps are within the profile's age and skew at a reading of the clock; and
    the body, if there is one, has the covered SHA-256 digest and at most 8 MiB.  Every other
    candidate was tried and refused. *)
Theorem verifySignedHttpRequest_sound t v t' :
  verifySignedHttpRequest env p req opts t = (Returns v, t') -> request_accepted v t'.
Proof.
  apply (returning_run (verifySignedHttpRequest env p req opts) t request_accepted).
  apply returning_budgeted. intros t1 _. unfold verifyRequestWithinBudget.
  destruct (headers_get _ (js "Signature-Input")) as [[|x h]|] eqn:Eh; [step| |step].
  destruct (headers_get _ (js "Signature")) as [[|y g]|] eqn:Eg; [step| |step].
  step. step. intros inputs Hi. step. step. intros sigs Hs. step. step. intros l Hl.
  eapply returning_mono; [apply try_candidates_spec|].
  intros v1 t2 _ [[[=] _]|(_ & l1 & s & l2 & Hl12 & Hacc & Hr)] t3 Hp3.
  exists (x :: h), (y :: g), inputs, sigs, l. repeat split; try done.
  exists l1, s, l2. split; [done|]. split; [by eapply candidate_accepted_mono|done].
Qed.

End Accepted.

(** ** What an accepted response has shown *)

Lemma map_get_elem {A} k (m : list (jsstr * A)) v : map_get k m = Some v -> (k, v) ∈ m.
Proof.
  induction m as [|[k' w] m IH]; [done|]. cbn. case_bool_decide as E.
  - intros [= <-]. subst. apply list_elem_of_here.
  - intros H. apply list_elem_of_further. by apply IH.
Qed.

Lemma same_param_trans a b c : same_param a b = true -> same_param b c = true -> same_param a c = true.
Proof.
  destruct a as [a|[]|a], b as [b|[]|b], c as [c|[]|c]; cbn; intros H1 H2; try done;
    rewrite ?bool_decide_eq_true, ?Z.eqb_eq, ?eqb_true_iff in *; congruence.
Qed.

Lemma sameComponent_trans a b c : sameComponent a b = true -> sameComponent b c = true -> sameComponent a c = true.
Proof.
  unfold sameComponent. rewrite !andb_true_iff, !bool_decide_eq_true, !Nat.eqb_eq, !forallb_forall.
  intros [[Hn Hl] Hp] [[Hn' Hl'] Hp']. split; [split; congruence|]. intros [k v] Hkv.
  specialize (Hp _ Hkv). cbn in Hp. destruct (map_get k (componentParams b)) as [w|] eqn:E; [|done].
  apply map_get_elem, list_elem_of_In in E. specialize (Hp' _ E). cbn in Hp'.
  destruct (map_get k (componentParams c)); [|done]. by eapply same_param_trans.
Qed.

Lemma covers_same s l c : same_components (components s) l = true ->
  existsb (fun d => sameComponent d c) l = true -> covers s c = true.
Proof.
  unfold same_components, covers. rewrite andb_true_iff, Nat.eqb_eq, forallb_forall. intros [Hl Hz].
  rewrite !existsb_exists. intros (d & Hd & Hdc). apply list_elem_of_In, list_elem_of_lookup in Hd as [i Hi].
  destruct (lookup_lt_is_Some_2 (components s) i) as [e He]; [rewrite Hl; by eapply lookup_lt_Some|].
  exists e. split; [by eapply list_elem_of_In, list_elem_of_lookup_2|].
  eapply sameComponent_trans; [|exact Hdc]. apply (Hz (e, d)).
  eapply list_elem_of_In, (list_elem_of_lookup_2 _ i). by rewrite lookup_zip_with, He, Hi.
Qed.

Section Responses.
Context `{Url : URLApi} `{Uni : Unicode} `{Jwk : JwkApi} `{H256 : Hash256} `{SF : StructuredFields} (env : Environment).
Context (p : HttpSignaturesProfile) (request : Request) (response : Response) (peerCert : option TLSCertificate).

Notation returning := (@returning event exn _).

(** The fields: the negotiation of the request, and the signature of the response under the
    label it asks for.  The signature covers what every signed response covers, with the
    request's own signature under one of its labels, and what the policy adds. *)
Record requested (policy : response_policy) (s : SignatureParams) (raw : bytes) : Prop := {
  rq_final : requireFinalResponse request response = Ok tt;
  rq_negotiated : exists n requestLabel inputs sigs,
    parseNegotiation (default [] (headers_get (rq_headers request) (js "Accept-Signature"))) = Ok n
    /\ parseSignatureInput (default [] (headers_get (rs_headers response) (js "Signature-Input"))) = Ok inputs
    /\ parseSignature (default [] (headers_get (rs_headers response) (js "Signature"))) = Ok sigs
    /\ map_get (ng_label n) inputs = Some s /\ map_get (ng_label n) sigs = Some raw
    /\ nonce s = Some (ng_nonce n)
    /\ forall c, c ∈ responseComponents requestLabel ++ default [] (additionalComponents (po_options policy)) -> covers s c = true;
  rq_complete : response_params_complete s = true
}.

(** A key of the verified identity, named by the [keyid], verifies the signature over the
    base of this response and this request. *)
Definition response_signed_by (domain : jsstr) (s : SignatureParams) (raw : bytes) (v : VerifiedIdentity) (t : list event) : Prop :=
  exists kid key a httpAlg input,
    parseKeyId (default [] (keyId s)) = Ok (domain, kid)
    /\ EVerifyDomain domain peerCert (Ok v) ∈ t
    /\ keyById (vi_jwks v) kid = Some key /\ jwkSignatureAlg key = Ok a /\ joseAlgToHttpSigAlg a = Ok httpAlg
    /\ alg s = Some httpAlg
    /\ buildSignatureInput (Paired (MResponse response) (Some request)) s = Ok input
    /\ verifyWithKey input raw key (Some a) = true.

(** The content of the response: none, or what its unread body delivers. *)
Definition content_is (content : bytes) : Prop :=
  (noResponseContent request response = true -> content = [])
  /\ match rs_body response with
     | None => noResponseContent request response = true
     | Some b => rs_bodyUsed response = false /\ fails b = false /\ content = concat (chunks b)
                 /\ zlen content <= MAX_HTTP_CONTENT_BYTES
     end.

Definition response_fresh (s : SignatureParams) (v : VerifiedIdentity) (t : list event) : Prop :=
  exists c e ms ms' ms'',
    created s = Some c /\ expires s = Some e
    /\ 0 < integer_of e - integer_of c <= RESPONSE_SIGNATURE_LIFETIME_SECONDS
    /\ ENow ms ∈ t /\ timely p (integer_of c) None (ms / 1000)
    /\ ENow ms' ∈ t /\ ms' / 1000 <= integer_of e + clock_skew (pf_config p)
    /\ ENow ms'' ∈ t /\ assertFresh ms'' (as_VerifiedDomain v) = Ok tt.

Record response_accepted (opts : ResponseSignatureOptions) (v : VerifiedIdentity) (t : list event) : Prop := {
  ra_signature : exists policy s raw,
    responsePolicy opts DEFAULT_HTTP_SIGNATURE_LABEL = Ok policy
    /\ requested policy s raw
    /\ response_signed_by (expectedDomain (po_options policy)) s raw v t
    /\ (exists content, content_is content
        /\ parseSha256ContentDigest (default [] (headers_get (rs_headers response) (js "Content-Digest"))) (components s)
           = Ok (digest content))
    /\ response_fresh s v t;
  ra_no_store : hasNoStore (headers_get (rs_headers response) (js "Cache-Control")) = true
}.

Lemma response_accepted_mono opts v t t' : t `prefix_of` t' -> response_accepted opts v t -> response_accepted opts v t'.
Proof.
  intros [k ->] [(policy & s & raw & Hp & Hr & Hs & Hc & Hf) Hn]. split; [|done].
  exists policy, s, raw. split; [done|]. split; [done|]. split; [|split; [done|]].
  - destruct Hs as (kid & key & a & h & i & H1 & H2 & H3). exists kid, key, a, h, i. rewrite elem_of_app. naive_solver.
  - destruct Hf as (c & e & m1 & m2 & m3 & Hf). exists c, e, m1, m2, m3. rewrite !elem_of_app. naive_solver.
Qed.

Lemma not_missing (l : list ComponentIdentifier) (req : list ComponentIdentifier) c :
  existsb (fun r => negb (existsb (fun d => sameComponent d r) l)) req = false -> c ∈ req ->
  existsb (fun d => sameComponent d c) l = true.
Proof.
  intros H Hc. rewrite existsb_false_Forall, Forall_forall in H. by apply negb_false_iff, H.
Qed.

Lemma parseNegotiation_covers value n : parseNegotiation value = Ok n ->
  exists requestLabel, forall c, c ∈ responseComponents requestLabel -> existsb (fun d => sameComponent d c) (ng_components n) = true.
Proof.
  intros (dict & _ & H)%bind_Ok. destruct dict as [|[lbl m] []]; [done| |done]. destruct m as [i|items ps]; [done|].
  apply bind_Ok in H as ([] & _ & H). apply bind_Ok in H as ([] & _ & H). apply bind_Ok in H as (l & _ & H).
  apply bind_Ok in H as ([] & _ & H). apply bind_Ok in H as (requestLabel & _ & H).
  apply bind_Ok in H as ([] & Hm%throw_if_Ok & H). apply bind_Ok in H as ([] & _ & H).
  apply bind_Ok in H as (nonce & _ & [= <-]). exists requestLabel. intros c Hc. by eapply not_missing.
Qed.

Lemma requested_signature_Ok policy s raw : requested_signature request response policy = Ok (s, raw) -> requested policy s raw.
Proof.
  intros ([] & Hf & H)%bind_Ok. apply bind_Ok in H as (u & _ & H). apply bind_Ok in H as ([] & _ & H).
  apply bind_Ok in H as (n & Hn & H). apply bind_Ok in H as ([] & Hadd%throw_if_Ok & H).
  apply bind_Ok in H as (inputs & Hi & H). apply bind_Ok in H as ([] & _ & H). apply bind_Ok in H as (sigs & Hs & H).
  destruct (map_get (ng_label n) inputs) as [s'|] eqn:Es; [|done].
  destruct (map_get (ng_label n) sigs) as [raw'|] eqn:Er; [|done].
  apply bind_Ok in H as ([] & Hsame%throw_if_Ok & H). apply bind_Ok in H as ([] & Hc%throw_if_Ok & [= -> ->]).
  apply orb_false_iff in Hsame as [Hsame%negb_false_iff Hnonce%negb_false_iff%bool_decide_eq_true].
  destruct (parseNegotiation_covers _ _ Hn) as [requestLabel Hcov].
  split; [done| |by apply negb_false_iff in Hc]. exists n, requestLabel, inputs, sigs. repeat split; try done.
  intros c [Hc'|Hc']%elem_of_app; (eapply covers_same; [exact Hsame|]); [by apply Hcov|by eapply not_missing].
Qed.

Lemma responseContent_spec t : returning (responseContent env request response false) t (fun content _ => content_is content).
Proof.
  unfold responseContent. rewrite orb_false_r. destruct (noResponseContent _ _ && is_none _) eqn:En.
  - apply andb_true_iff in En as [Hn Hb]. step. split; [done|]. by destruct (rs_body response).
  - step. step. intros [Hb Hu]%orb_false_iff. apply returning_try; [|intros; step]. step. cbn [readBoundedBody].
    step. step. destruct (rs_body response) as [b|] eqn:Eb; [|step].
    eapply returning_mono; [by apply read_chunks_spec|]. intros content t1 _ (Hf & -> & Hl).
    step. step. intros Hz. step. split; [|by rewrite Eb].
    intros Hn. rewrite Hn in Hz. cbn in Hz. apply negb_false_iff, Z.eqb_eq in Hz. by apply zlen_nil_inv.
Qed.

Lemma check_response_signature_Ok s raw key : check_response_signature request response s raw key = Ok tt ->
  exists a h input, jwkSignatureAlg key = Ok a /\ joseAlgToHttpSigAlg a = Ok h /\ alg s = Some h
    /\ buildSignatureInput (Paired (MResponse response) (Some request)) s = Ok input
    /\ verifyWithKey input raw key (Some a) = true.
Proof.
  intros [H|(e & _ & [=])]%catch_Ok. apply bind_Ok in H as (a & Ha & H). apply bind_Ok in H as (h & Hh & H).
  apply bind_Ok in H as (valid & Hv & H%throw_if_Ok%negb_false_iff). subst valid.
  case_bool_decide as Hb; cbn in Hv; [|done]. apply bind_Ok in Hv as (input & Hi & [= Hv]). by exists a, h, input.
Qed.

Lemma checkResponseFreshness_spec s t : response_params_complete s = true ->
  returning (checkResponseFreshness env p s) t (fun _ t' => exists c e ms ms',
    created s = Some c /\ expires s = Some e /\ 0 < integer_of e - integer_of c <= RESPONSE_SIGNATURE_LIFETIME_SECONDS
    /\ ENow ms ∈ t' /\ timely p (integer_of c) None (ms / 1000)
    /\ ENow ms' ∈ t' /\ ms' / 1000 <= integer_of e + clock_skew (pf_config p)).
Proof.
  unfold response_params_complete. destruct (created s) as [c|] eqn:Ec; [|done]. destruct (expires s) as [e|] eqn:Ee; [|done].
  intros _. unfold checkResponseFreshness. rewrite Ec, Ee. cbn [default]. step. step.
  intros [Hl%Z.ltb_lt Hu%Z.leb_le]%negb_false_iff%andb_true_iff.
  step. eapply returning_mono; [apply checkFreshness_spec|]. cbn [without_expires created expires].
  intros [] t1 _ (ms & Hms & Hf). rewrite Ec in Hf. step. step. intros ms'. step. intros He%Z.ltb_ge.
  exists c, e, ms, ms'. rewrite !elem_of_app. cbn in *.
  split_and!; try done; try lia; [by left|]. right. by apply list_elem_of_singleton.
Qed.

Lemma verify_response_spec opts policy t : responsePolicy opts DEFAULT_HTTP_SIGNATURE_LABEL = Ok policy ->
  returning (verify_response env p request response policy peerCert) t (fun v t' => response_accepted opts v t').
Proof.
  intros Hpol. step. step. intros [s raw] Hreq. pose proof (requested_signature_Ok _ _ _ Hreq) as Hr.
  step. eapply returning_mono; [by apply checkResponseFreshness_spec, Hr|]. intros [] t1 _ _.
  step. step. intros [domain kid] [Hk|(e & _ & [=])]%catch_Ok.
  step. step. intros ->%negb_false_iff%bool_decide_eq_true.
  step. step. intros t2 _. unfold resolve. apply returning_ask. intros v _.
  step. step. intros key Hkey%of_option_Ok. step. step.
  intros [] (a & h & input & Hsig)%check_response_signature_Ok.
  step. step. intros d Hd. step. eapply returning_mono; [apply responseContent_spec|]. intros content t3 Hp3 Hcont.
  step. step. intros ->%negb_false_iff%constantTimeEqual_spec. step. step. intros Hns%negb_false_iff.
  step. eapply returning_mono; [by apply checkResponseFreshness_spec, Hr|]. intros [] t4 Hp4 (c & e & m1 & m2 & Hf).
  step. step. intros m3. step. step. intros [] Hfresh. step.
  split; [|done]. exists policy, s, raw. split; [done|]. split; [done|]. split; [|split; [by exists content|]].
  - exists kid, key, a, h, input. split; [done|]. split; [|naive_solver].
    eapply elem_of_prefix; [|apply prefix_app_r, Hp4]. eapply elem_of_prefix; [|exact Hp3]. set_solver.
  - destruct Hf as (? & ? & ? & ? & ? & ? & ?). exists c, e, m1, m2, m3. rewrite !elem_of_app.
    split_and!; try done; try lia; [by left|by left|]. right. by apply list_elem_of_singleton.
Qed.

Lemma verifySignedHttpResponse_spec opts timeoutMs t :
  returning (verifySignedHttpResponse env p request response opts peerCert timeoutMs) t (response_accepted opts).
Proof.
  apply returning_try; [|intros; step; apply returning_call; intros; step].
  step. step. intros policy Hp. apply returning_budgeted. intros t1 _.
  eapply returning_mono; [by apply verify_response_spec|]. intros v1 t2 _ H t3 Hp3. by eapply response_accepted_mono.
Qed.

(** C6: A response is accepted only as the expected agent's answer to this very request.  A
    signature under the label that the request asked for, with the nonce that the request
    chose, covers the status, the method, authority, target URI and negotiation of the
    request, the request's own signature, the content digest, the cache control and what the
    local policy adds; a key of the identity that the resolver has verified for the expected
    domain verifies it over the base of this response and this request; the content of the
    response has the covered digest; the response is not to be stored; the signature lives at
    most a minute and has not expired, and the identity is still fresh at the end. *)
Theorem verifySignedHttpResponse_sound opts timeoutMs t v t' :
  verifySignedHttpResponse env p request response opts peerCert timeoutMs t = (Returns v, t') -> response_accepted opts v t'.
Proof.
  apply returning_run, verifySignedHttpResponse_spec.
Qed.

End Responses.

(** ** Fetching with response authentication *)

Section Fetching.
Context `{Url : URLApi} `{Uni : Unicode} `{Jwk : JwkApi} `{H256 : Hash256} `{SF : StructuredFields} (env : Environment).
Context (p : HttpSignaturesProfile) (opts : CreateSignedFetchOptions).

Notation returning := (@returning event exn _).

(** The calls that send a request. *)
Definition is_send (e : event) : Prop := match e with ETransport _ _ | EFetch _ _ => True | _ => False end.
Definition unsent (es : list event) : Prop := Forall (fun e => ~ is_send e) es.

(** The calls [new] of a signed fetch of the request [prepared]: the profile signs it, with
    the snapshot of the caller's options, and what it has signed is sent, once and only over
    the transport; the [response] is the answer to it, and is accepted as such. *)
Definition authenticated (prepared : Request) (policy : response_policy) (response : Response) (t new : list event) : Prop :=
  exists signing signed peerCert v before calls after,
    snapshotSigningOptions (default no_signing_options (fo_signing opts prepared)) (po_options policy) = Ok signing
    /\ new = before ++ calls ++ ETransport signed (Ok (response, peerCert)) :: after
    /\ signRequest env p prepared signing (t ++ before) = (Returns signed, t ++ before ++ calls)
    /\ unsent before /\ unsent calls /\ unsent after
    /\ rq_method signed = rq_method prepared /\ rq_url signed = rq_url prepared
    /\ response_accepted p signed response peerCert (po_options policy) v (t ++ new).

Lemma send_spec request t :
  returning (send env request) t (fun r t' => t' = t ++ [ETransport request (Ok r); EWait Live]).
Proof.
  step. apply returning_call_at. step. step. intros a.
  destruct (env_transport env t request) as [[response cert]|e], a;
    try (step; apply returning_call; intros; step); try step; try step; intros r; [intros [= <-]; by rewrite <-app_assoc|done].
Qed.

Lemma returning_wait_at {A} (op : run A) t Q :
  (forall a, returning op (t ++ [EWait a]) Q) -> returning (wait env op) t Q.
Proof.
  intros H. apply returning_bind, returning_call. intros a. specialize (H a).
  destruct a; [done|apply returning_raise| |].
  - apply returning_try; [|intros; apply returning_raise].
    apply returning_bind. eapply returning_mono; [exact H|]. intros; apply returning_raise.
  - apply returning_bind. eapply returning_mono; [exact H|]. intros; apply returning_raise.
Qed.

(** Computations that send nothing on the way to their result. *)
Definition silent {A} (m : run A) : Prop :=
  forall t, returning m t (fun _ t' => exists new, t' = t ++ new /\ unsent new).

Lemma silent_seq {A B} (m : run A) (f : A -> run B) : silent m -> (forall a, silent (f a)) -> silent (m ≫= f).
Proof.
  intros Hm Hf t. apply returning_bind. eapply returning_mono; [apply Hm|]. intros a t' _ (n1 & -> & H1).
  eapply returning_mono; [apply Hf|]. intros b t' _ (n2 & -> & H2). exists (n1 ++ n2). rewrite app_assoc.
  split; [done|]. by apply Forall_app.
Qed.
Lemma silent_nil {A} (a : A) t (Q : A -> Prop) : Q a -> exists new, t = t ++ new /\ unsent new.
Proof. intros _. exists []. split; [by rewrite app_nil_r|constructor]. Qed.
Lemma silent_ret {A} (a : A) : silent (mret a).
Proof. intros t. apply returning_ret. by apply (silent_nil a t (fun _ => True)). Qed.
Lemma silent_raise {A} e : silent (raise e : run A).
Proof. intros t. apply returning_raise. Qed.
Lemma silent_lift {A} (r : res A) : silent (lift r).
Proof. intros t. apply returning_lift. intros a _. by apply (silent_nil a t (fun _ => True)). Qed.
Lemma silent_check b e : silent (check b e).
Proof. apply silent_lift. Qed.
Lemma silent_call {B} (answer : list event -> B) log : (forall b, ~ is_send (log b)) -> silent (call answer log).
Proof. intros H t. apply returning_call. intros b. exists [log b]. split; [done|]. by apply Forall_singleton. Qed.
Lemma silent_ask {A} (answer : list event -> res A) log : (forall r, ~ is_send (log r)) -> silent (ask answer log).
Proof. intros H t. apply returning_ask. intros a _. exists [log (Ok a)]. split; [done|]. by apply Forall_singleton. Qed.
Lemma silent_wait {A} (op : run A) : silent op -> silent (wait env op).
Proof.
  intros H t. apply returning_wait_at. intros a. eapply returning_mono; [apply H|]. intros b t' _ (new & -> & Hn).
  exists (EWait a :: new). rewrite <-app_assoc. split; [done|]. by constructor; [intros []|].
Qed.
Lemma silent_try {A} (m : run A) h : silent m -> (forall e, silent (h e)) -> (forall e t, returning (h e) t (fun _ _ => False)) ->
  silent (try_with m h).
Proof. intros H _ Hh t. apply returning_try; [apply H|]. intros e t' _. eapply returning_mono; [apply Hh|]. done. Qed.
Lemma silent_budgeted {A} timeoutMs (op : run A) : silent op -> silent (budgeted env timeoutMs op).
Proof.
  intros H. unfold budgeted. apply silent_seq; [apply silent_check|]. intros _.
  apply silent_seq; [apply silent_call; by intros ? []|]. intros s. apply silent_seq; [by apply silent_wait|]. intros a.
  apply silent_seq; [apply silent_call; by intros ? []|]. intros f. apply silent_seq; [apply silent_check|]. intros _. apply silent_ret.
Qed.

Ltac quiet := repeat first
  [ apply silent_ask; intros ? [] | apply silent_call; intros ? [] | apply silent_lift | apply silent_check | apply silent_ret
  | apply silent_raise | apply silent_wait | match goal with |- silent (_ ≫= _) => apply silent_seq; [|intros ?] end | case_match ].

Lemma read_chunks_silent maxBytes broken acc l : silent (read_chunks env maxBytes broken acc l).
Proof. revert acc. induction l as [|c l IH]; intros acc; cbn [read_chunks]; quiet. apply IH. Qed.

Lemma readBoundedBody_silent m maxBytes : silent (readBoundedBody env m maxBytes).
Proof. unfold readBoundedBody. quiet; apply read_chunks_silent. Qed.

Lemma negotiate_silent req so r : silent (negotiate env req so r).
Proof. unfold negotiate, generateNonce, NONCE_BYTES. quiet. Qed.

Lemma signHttpMessage_silent msg params kp key : silent (signHttpMessage env msg params kp key).
Proof. unfold signHttpMessage, signing_key, sign_with, whole_body. quiet. Qed.

Lemma signRequest_silent req so : silent (signRequest env p req so).
Proof.
  unfold signRequest. apply silent_seq; [case_match; [apply negotiate_silent|apply silent_ret]|].
  unfold signing_key, date_now, generateNonce, NONCE_BYTES. intros [req' so']. quiet; first [apply readBoundedBody_silent|apply signHttpMessage_silent].
Qed.

Lemma checkResponseFreshness_silent s : silent (checkResponseFreshness env p s).
Proof. unfold checkResponseFreshness, checkFreshness, date_now. quiet. Qed.

Lemma responseContent_silent req response signing : silent (responseContent env req response signing).
Proof.
  unfold responseContent. quiet. apply silent_try; [quiet; apply readBoundedBody_silent|intros; apply silent_raise|].
  intros e t. apply returning_raise.
Qed.

Lemma verifySignedHttpResponse_silent req response ro cert timeoutMs :
  silent (verifySignedHttpResponse env p req response ro cert timeoutMs).
Proof.
  unfold verifySignedHttpResponse. apply silent_try.
  - apply silent_seq; [apply silent_lift|]. intros policy. apply silent_budgeted. unfold verify_response, resolve, date_now.
    quiet; first [apply checkResponseFreshness_silent|apply responseContent_silent].
  - intros e. unfold cancelResponse. quiet.
  - intros e t. step. apply returning_call. intros. step.
Qed.

(** Signing keeps the method and the URL. *)
Definition same_target (req signed : Request) : Prop := rq_method signed = rq_method req /\ rq_url signed = rq_url req.

(** The results of a computation have the property [P]. *)
Definition yields {A} (m : run A) (P : A -> Prop) : Prop := forall t, returning m t (fun a _ => P a).

Lemma yields_bind {A B} (m : run A) (f : A -> run B) P Q : yields m P -> (forall a, P a -> yields (f a) Q) -> yields (m ≫= f) Q.
Proof. intros Hm Hf t. apply returning_bind. eapply returning_mono; [apply Hm|]. intros a t' _ Ha. by apply Hf. Qed.
Lemma yields_skip {A B} (m : run A) (f : A -> run B) Q : silent m -> (forall a, yields (f a) Q) -> yields (m ≫= f) Q.
Proof. intros Hm Hf t. apply returning_bind. eapply returning_mono; [apply Hm|]. intros a t' _ _. by apply Hf. Qed.
Lemma yields_ret {A} (a : A) P : P a -> yields (mret a) P.
Proof. intros H t. by apply returning_ret. Qed.

Ltac skip := repeat (apply yields_skip; [quiet; fail|intros ?]).

Lemma signHttpMessage_target req params kp key :
  yields (signHttpMessage env (Alone (MRequest req)) params kp key)
    (fun m => exists signed, m = MRequest signed /\ same_target req signed).
Proof.
  unfold signHttpMessage, signing_key, sign_with, whole_body. cbn [asMessage fst]. skip.
  apply yields_ret. by eexists.
Qed.

Lemma negotiate_target req so r : yields (negotiate env req so r) (fun a => same_target req (fst a)).
Proof. unfold negotiate, generateNonce, NONCE_BYTES. skip. by apply yields_ret. Qed.

Lemma signRequest_target req so : yields (signRequest env p req so) (same_target req).
Proof.
  unfold signRequest. eapply (yields_bind _ _ (fun a => same_target req (fst a))).
  { case_match; [apply negotiate_target|by apply yields_ret]. }
  intros [req' so'] Hreq. cbn [fst] in Hreq. apply yields_skip; [unfold signing_key; quiet|]. intros kp.
  apply yields_skip; [unfold signing_key; quiet|]. intros key. apply yields_skip; [quiet|]. intros kid.
  apply yields_skip; [quiet; apply readBoundedBody_silent|]. intros content. unfold date_now, generateNonce, NONCE_BYTES.
  skip. eapply yields_bind; [apply signHttpMessage_target|]. intros m (signed & -> & [Hm Hu]).
  apply yields_skip; [quiet|]. intros _. apply yields_ret. cbn in Hm, Hu. destruct Hreq. split; congruence.
Qed.

(** C9: In response mode a signed fetch returns only what it has authenticated.  The profile
    signs the caller's request, as it is prepared, in this call and with the options of the
    caller; it sends what it has signed, once, over the transport, and sends nothing else;
    and the response it returns is the transport's answer, accepted as the response to that
    very request under the caller's policy. *)
Theorem signedFetch_authenticated streaming req prepared r t response t' :
  signedFetch env p opts streaming req t = (Returns response, t') ->
  match fo_prepareRequest opts with Some f => f req | None => Ok req end = Ok prepared ->
  so_responseSignature (default no_signing_options (fo_signing opts prepared)) = Some r ->
  exists policy new, responsePolicy r DEFAULT_HTTP_SIGNATURE_LABEL = Ok policy
    /\ t' = t ++ new /\ authenticated prepared policy response t new.
Proof.
  intros Hrun Hprep Hr. revert Hrun.
  apply (returning_run _ _ (fun response t' => exists policy new,
    responsePolicy r DEFAULT_HTTP_SIGNATURE_LABEL = Ok policy /\ t' = t ++ new /\ authenticated prepared policy response t new)).
  unfold signedFetch. step. step. intros _. step. eapply (returning_mono _ _ (fun a t' => a = prepared /\ t' = t)).
  { destruct (fo_prepareRequest opts); step; [intros ? ?; split; congruence|by injection Hprep]. }
  intros a t1 _ [-> ->]. rewrite Hr. step. step. intros policy Hp. step. step. intros _. step. step. intros _.
  step. step. intros signing Hsigning. unfold budgeted. step. step. intros _. step. step. intros started.
  step. apply returning_wait_at. intros a0. rewrite <-app_assoc. cbn [app]. set (before := [EPerformanceNow started; EWait a0]).
  step. eapply returning_mono.
  { apply returning_self, returning_and; [apply signRequest_silent|apply signRequest_target]. }
  intros signed t2 _ (Hsign & (calls & -> & Hcalls) & Hmethod & Hurl). step.
  eapply returning_mono; [apply send_spec|]. intros [resp cert] t3 _ ->. cbn [fst snd] in *.
  apply returning_try; [|intros; step; apply returning_call; intros; step]. step.
  eapply returning_mono; [apply returning_and; [apply verifySignedHttpResponse_spec|apply verifySignedHttpResponse_silent]|].
  intros v t4 _ [Hacc (checks & -> & Hchecks)]. step. step. step. intros finished. step. step. intros _. step.
  rewrite <-!app_assoc in *. eexists policy, _. split; [exact Hp|]. split; [reflexivity|].
  exists signing, signed, cert, v, before, calls, (EWait Live :: checks ++ [EPerformanceNow finished]).
  split; [done|]. split; [done|]. split; [exact Hsign|]. split; [|split; [done|split; [|split; [done|split; [done|]]]]].
  - by repeat constructor; intros [].
  - constructor; [by intros []|]. apply Forall_app. split; [done|]. apply Forall_singleton. intros [].
  - eapply response_accepted_mono; [|exact Hacc]. exists [EPerformanceNow finished]. by rewrite <-!app_assoc.
Qed.

End Fetching.
