(* ===== verification/PlainFields.v ===== *)
(** Structured fields as RFC 8941 writes them: the texts of the values that the program signs,
    and the laws of the serializer and the parser on them.

    A simple value is a string, an integer, a boolean or a byte sequence; it is plain when
    it has a text: the units of a string are printable ASCII, and an integer has at most 15
    digits.  In the text of a string the quotes and backslashes are escaped.  [SimpleFields]
    is a small implementation that has the laws. *)

From S2P Require Import Prelude JsString Base64 Url Json HttpMessages SignatureFields.

(** ** Texts *)

Definition is_plain_unit (u : Z) : bool := (32 <=? u) && (u <=? 126).
Definition is_plain (s : jsstr) : bool := forallb is_plain_unit s.
Definition is_key_start (u : Z) : bool := is_lower u || (u =? 42).
Definition is_key (s : jsstr) : bool :=
  match s with u :: _ => is_key_start u | [] => false end && forallb is_parameter_unit s.

Definition simple_bare (v : bare_item) : bool :=
  match v with BString _ | BNumber (NInt _) | BBoolean _ | BBytes _ => true | _ => false end.
Definition simple_params (ps : parameters) : bool := forallb (fun kv => simple_bare (snd kv)) ps.
Definition simple_item (i : item) : bool := simple_bare (fst i) && simple_params (snd i) && distinct (map fst (snd i)).

Definition plain_bare (v : bare_item) : bool :=
  match v with
  | BString s => is_plain s
  | BNumber (NInt n) => Z.abs n <? 10 ^ 15
  | BBoolean _ | BBytes _ => true
  | _ => false
  end.
Definition plain_param (kv : jsstr * bare_item) : bool := is_key (fst kv) && plain_bare (snd kv).
Definition plain_params (ps : parameters) : bool := forallb plain_param ps && distinct (map fst ps).
Definition plain_item (i : item) : bool := plain_bare (fst i) && plain_params (snd i).

(** A quote or a backslash is written after a backslash. *)
Definition needs_escape (u : Z) : bool := (u =? 34) || (u =? 92).
Definition escape (s : jsstr) : jsstr := flat_map (fun u => if needs_escape u then [92; u] else [u]) s.
Definition sf_integer (n : Z) : jsstr := if n <? 0 then 45 :: dec (- n) else dec n.
Definition sf_bare (v : bare_item) : jsstr :=
  match v with
  | BString s => 34 :: escape s ++ [34]
  | BNumber (NInt n) => sf_integer n
  | BBoolean b => [63; if b then 49 else 48]
  | BBytes l => 58 :: btoa l ++ [58]
  | _ => []
  end.
Definition sf_param (kv : jsstr * bare_item) : jsstr :=
  59 :: fst kv ++ (if bool_decide (snd kv = BBoolean true) then [] else 61 :: sf_bare (snd kv)).
Definition sf_params (ps : parameters) : jsstr := flat_map sf_param ps.
Definition sf_item (i : item) : jsstr := sf_bare (fst i) ++ sf_params (snd i).
Definition sf_inner (items : list item) : jsstr := 40 :: JsString.join [32] (map sf_item items) ++ [41].

(** RFC 8941, section 4: how simple values are serialized, that the serializer fails on those
    that have no text, that such texts parse, and that the keys of a dictionary are keys. *)
Class Rfc8941 `{SF : StructuredFields} : Prop := {
  rfc_item v ps : simple_item (v, ps) = true ->
    serializeStructuredItem v ps = if plain_item (v, ps) then Some (sf_item (v, ps)) else None;
  rfc_inner_list items ps : forallb simple_item items = true -> simple_params ps = true -> distinct (map fst ps) = true ->
    serializeStructuredInnerList items ps
    = if forallb plain_item items && plain_params ps then Some (sf_inner items ++ sf_params ps) else None;
  rfc_parameters ps : simple_params ps = true -> distinct (map fst ps) = true ->
    serializeStructuredParameters ps = if plain_params ps then Some (sf_params ps) else None;
  rfc_parse_inner_list key items ps : is_key key = true -> forallb plain_item items = true -> plain_params ps = true ->
    parseStructuredDictionary (key ++ 61 :: sf_inner items ++ sf_params ps) = Some [(key, InnerList items ps)];
  rfc_parse_bytes key l : is_key key = true ->
    parseStructuredDictionary (key ++ 61 :: 58 :: btoa l ++ [58]) = Some [(key, Item (BBytes l, []))];
  rfc_parse_keys s d : parseStructuredDictionary s = Some d -> forallb (fun kv => is_key (fst kv)) d = true
}.

(** ** An implementation *)

Definition parse_key (s : jsstr) : option (jsstr * jsstr) :=
  match s with
  | u :: _ => if is_key_start u then Some (Simple.span is_parameter_unit s) else None
  | [] => None
  end.

(** The text of a string up to its closing quote, and what follows. *)
Fixpoint parse_quoted (s : jsstr) : option (jsstr * jsstr) :=
  match s with
  | [] => None
  | u :: s' =>
      if u =? 34 then Some ([], s')
      else if u =? 92 then
        match s' with
        | w :: s => if needs_escape w then '(t, r) ← parse_quoted s; Some (w :: t, r) else None
        | [] => None
        end
      else if is_plain_unit u then '(t, r) ← parse_quoted s'; Some (u :: t, r) else None
  end.

Definition parse_digits (s : jsstr) : option (Z * jsstr) :=
  match Simple.span is_digit s with ([], _) => None | (t, r) => Some (digits_value t, r) end.

Definition parse_bare (s : jsstr) : option (bare_item * jsstr) :=
  match s with
  | [] => None
  | u :: s' =>
      if u =? 34 then '(t, r) ← parse_quoted s'; Some (BString t, r)
      else if u =? 63 then
        match s' with
        | v :: r => if v =? 49 then Some (BBoolean true, r) else if v =? 48 then Some (BBoolean false, r) else None
        | [] => None
        end
      else if u =? 58 then
        match Simple.span (fun v => negb (v =? 58)) s' with
        | (t, 58 :: r) => match atob t with Ok l => Some (BBytes l, r) | Throw _ => None end
        | _ => None
        end
      else if u =? 45 then '(n, r) ← parse_digits s'; Some (BNumber (NInt (- n)), r)
      else '(n, r) ← parse_digits s; Some (BNumber (NInt n), r)
  end.

Definition parse_value (s : jsstr) : option (bare_item * jsstr) :=
  match s with 61 :: r => parse_bare r | _ => Some (BBoolean true, s) end.

Fixpoint parse_params (fuel : nat) (acc : parameters) (s : jsstr) : option (parameters * jsstr) :=
  match fuel, s with
  | S fuel, 59 :: s =>
      '(key, r) ← parse_key s;
      '(v, r) ← parse_value r;
      parse_params fuel (map_set key v acc) r
  | _, _ => Some (acc, s)
  end.

Definition parse_item (s : jsstr) : option (item * jsstr) :=
  '(v, r) ← parse_bare s;
  '(ps, r) ← parse_params (length r) [] r;
  Some ((v, ps), r).

Fixpoint parse_items (fuel : nat) (acc : list item) (s : jsstr) : option (list item * jsstr) :=
  match dropWhile (fun u => u =? 32) s with
  | [] => None
  | (u :: r) as s' =>
      if u =? 41 then Some (acc, r)
      else match fuel with
           | O => None
           | S fuel => '(i, r) ← parse_item s'; parse_items fuel (acc ++ [i]) r
           end
  end.

Definition parse_member (s : jsstr) : option (member * jsstr) :=
  match s with
  | 40 :: s =>
      '(items, r) ← parse_items (length s) [] s;
      '(ps, r) ← parse_params (length r) [] r;
      Some (InnerList items ps, r)
  | _ => '(i, r) ← parse_item s; Some (Item i, r)
  end.

Fixpoint parse_members (fuel : nat) (acc : dictionary) (s : jsstr) : option dictionary :=
  match fuel with
  | O => None
  | S fuel =>
      '(key, r) ← parse_key s;
      '(m, r) ← match r with
                | 61 :: r => parse_member r
                | _ => '(ps, r) ← parse_params (length r) [] r; Some (Item (BBoolean true, ps), r)
                end;
      let acc := map_set key m acc in
      match r with
      | [] => Some acc
      | 44 :: r => parse_members fuel acc (dropWhile (fun u => u =? 32) r)
      | _ => None
      end
  end.

Definition SimpleFields : StructuredFields := {|
  parseStructuredDictionary s := match s with [] => Some [] | _ => parse_members (length s) [] s end;
  serializeStructuredInnerList items ps :=
    if forallb plain_item items && plain_params ps then Some (sf_inner items ++ sf_params ps) else None;
  serializeStructuredItem v ps := if plain_item (v, ps) then Some (sf_item (v, ps)) else None;
  serializeStructuredParameters ps := if plain_params ps then Some (sf_params ps) else None
|}.

(** ** Its laws *)

(** What may follow a value or its parameters. *)
Definition ends (r : jsstr) : Prop := match r with [] => True | u :: _ => u = 32 \/ u = 41 end.
Definition stops (r : jsstr) : Prop := match r with [] => True | u :: _ => u = 32 \/ u = 41 \/ u = 59 end.

Lemma ends_stops r : ends r -> stops r.
Proof. destruct r; cbn; tauto. Qed.

Lemma stops_params ps r : ends r -> stops (sf_params ps ++ r).
Proof. destruct ps as [|kv ps]; cbn; [apply ends_stops|tauto]. Qed.

Lemma span_stops f s r : forallb f s = true -> f 32 = false -> f 41 = false -> f 59 = false -> stops r ->
  Simple.span f (s ++ r) = (s, r).
Proof. intros Hs H1 H2 H3 Hr. apply span_all; [done|]. destruct r as [|u r]; [done|]. by destruct Hr as [->|[->| ->]]. Qed.

Lemma dec_digits n : 0 <= n -> forallb is_digit (dec n) = true /\ digits_value (dec n) = n /\ dec n <> [].
Proof.
  intros Hn. destruct (dec_spec n Hn) as (Hv & Hd & Hdec). split; [done|]. split; [done|]. by destruct (dec n).
Qed.

Lemma sf_integer_digits n : exists d, forallb is_digit d = true /\ d <> [] /\ digits_value d = Z.abs n
  /\ sf_integer n = (if n <? 0 then [45] else []) ++ d.
Proof.
  unfold sf_integer. destruct (Z.ltb_spec n 0) as [Hn|Hn].
  - destruct (dec_digits (- n)) as (Hd & Hv & Hne); [lia|]. exists (dec (- n)). rewrite Hv. split_and!; try done. lia.
  - destruct (dec_digits n Hn) as (Hd & Hv & Hne). exists (dec n). rewrite Hv. split_and!; try done. lia.
Qed.

Lemma digits_head d : forallb is_digit d = true -> d <> [] -> exists u s, d = u :: s /\ 48 <= u <= 57.
Proof.
  destruct d as [|u s]; [done|]. intros [Hu _]%andb_true_iff _. exists u, s. unfold is_digit in Hu. split; [done|lia].
Qed.

Lemma sf_bare_head v : plain_bare v = true -> exists u s, sf_bare v = u :: s /\ u <> 32 /\ u <> 41.
Proof.
  destruct v as [[n| | | |]|s|b|l|s|n|s]; cbn [plain_bare sf_bare]; try done; intros H; try by eexists _, _.
  destruct (sf_integer_digits n) as (d & Hd & Hne & _ & ->). destruct (digits_head d Hd Hne) as (u & s & -> & Hu).
  destruct (n <? 0); eexists _, _; (split; [reflexivity|lia]).
Qed.

Lemma parse_quoted_escape s r : is_plain s = true -> parse_quoted (escape s ++ 34 :: r) = Some (s, r).
Proof.
  induction s as [|u s IH]; [done|]. unfold is_plain. cbn [forallb]. intros [Hu Hs]%andb_true_iff.
  cbn [escape flat_map]. fold (escape s). rewrite <-app_assoc. destruct (needs_escape u) eqn:E.
  - cbn [app parse_quoted Z.eqb Pos.eqb]. rewrite E, IH by done. done.
  - unfold needs_escape in E. apply orb_false_iff in E as [E1 E2]. cbn [app parse_quoted]. rewrite E1, E2, Hu, IH by done. done.
Qed.

Lemma parse_digits_app d r : forallb is_digit d = true -> d <> [] -> stops r -> parse_digits (d ++ r) = Some (digits_value d, r).
Proof. intros Hd Hne Hr. unfold parse_digits. rewrite span_stops by done. by destruct d. Qed.

Lemma btoa_no_colon l : forallb (fun u => negb (u =? 58)) (btoa l) = true.
Proof.
  unfold btoa. rewrite forallb_app. apply andb_true_iff. split.
  - apply forallb_forall. intros u (x & <- & Hx)%in_map_iff. pose proof (sextets_range l) as Hr.
    rewrite forallb_forall in Hr. specialize (Hr x Hx). unfold std_char, sextet in *.
    repeat case_match; lia.
  - unfold padding. apply forallb_forall. intros u Hu%repeat_spec. by subst.
Qed.

Lemma atob_btoa l : atob (btoa l) = Ok l.
Proof.
  destruct (padding_cases l) as (n & H2 & Hpad & Hn). unfold btoa. rewrite Hpad. by rewrite atob_sextets.
Qed.

Lemma parse_bare_plain v r : plain_bare v = true -> stops r -> parse_bare (sf_bare v ++ r) = Some (v, r).
Proof.
  destruct v as [[n| | | |]|s|b|l|s|n|s]; cbn [plain_bare sf_bare]; try done; intros H Hr.
  - destruct (sf_integer_digits n) as (d & Hd & Hne & Hv & ->). pose proof (parse_digits_app d r Hd Hne Hr) as Hp.
    destruct (Z.ltb_spec n 0) as [Hn|Hn].
    + cbn [app parse_bare Z.eqb Pos.eqb]. rewrite Hp. cbn. rewrite Hv. do 4 f_equal. lia.
    + cbn [app]. destruct (digits_head d Hd Hne) as (u & s & E & Hu). rewrite E in *. cbn [app parse_bare] in *.
      rewrite !(proj2 (Z.eqb_neq _ _)) by lia. rewrite Hp. cbn [mbind option_bind]. rewrite Hv. do 4 f_equal. lia.
  - cbn [app parse_bare Z.eqb Pos.eqb]. rewrite <-app_assoc. cbn [app]. by rewrite parse_quoted_escape.
  - by destruct b.
  - cbn [app parse_bare Z.eqb Pos.eqb]. rewrite <-app_assoc. rewrite span_all; [|by apply btoa_no_colon|done].
    cbn [app]. by rewrite atob_btoa.
Qed.

Lemma parse_key_app k r : is_key k = true -> match r with u :: _ => is_parameter_unit u = false | [] => True end ->
  parse_key (k ++ r) = Some (k, r).
Proof.
  unfold is_key. intros [H1 H2]%andb_true_iff Hr. destruct k as [|u k]; [done|]. unfold parse_key. cbn [app].
  rewrite H1. f_equal. by apply (span_all _ (u :: k)).
Qed.

Lemma map_set_fresh {A} k (v : A) m : k ∉ map fst m -> map_set k v m = m ++ [(k, v)].
Proof.
  induction m as [|[k' w] m IH]; intros H; cbn; [done|]. cbn in H. apply not_elem_of_cons in H as [H1 H2].
  rewrite bool_decide_eq_false_2 by congruence. by rewrite IH.
Qed.

Lemma parse_value_plain v r : plain_bare v = true -> stops r ->
  parse_value ((if bool_decide (v = BBoolean true) then [] else 61 :: sf_bare v) ++ r) = Some (v, r).
Proof.
  intros Hv Hr. case_bool_decide as Hb; [subst v|by apply parse_bare_plain].
  destruct r as [|u r]; [done|]. by destruct Hr as [->|[->| ->]].
Qed.

Lemma parse_params_plain ps : forall fuel acc r, forallb plain_param ps = true ->
  NoDup (map fst (acc ++ ps)) -> (length ps <= fuel)%nat -> ends r ->
  parse_params fuel acc (sf_params ps ++ r) = Some (acc ++ ps, r).
Proof.
  induction ps as [|[k v] ps IH]; intros fuel acc r Hp Hd Hf Hr.
  - rewrite app_nil_r. cbn. destruct r as [|u r]; [by destruct fuel|]. destruct fuel; [done|]. by destruct Hr as [->| ->].
  - destruct fuel as [|fuel]; [cbn in Hf; lia|]. cbn in Hp. apply andb_true_iff in Hp as [[Hk Hv]%andb_true_iff Hp].
    assert (Hkv : map_set k v acc = acc ++ [(k, v)]).
    { apply map_set_fresh. rewrite map_app in Hd. apply NoDup_app in Hd as (_ & Hd & _).
      intros Hin. apply (Hd _ Hin). apply list_elem_of_here. }
    cbn [sf_params flat_map]. rewrite <-app_assoc. unfold sf_param at 1. cbn [fst snd app parse_params].
    assert (Hs : stops (flat_map sf_param ps ++ r)) by by apply stops_params.
    rewrite <-app_assoc, parse_key_app; [|done|].
    2: { case_bool_decide; [|done]. cbn. destruct (flat_map _ _ ++ r); [done|]. by destruct Hs as [->|[->| ->]]. }
    cbn. rewrite parse_value_plain by done. cbn. rewrite Hkv.
    rewrite (IH fuel (acc ++ [(k, v)])); [by rewrite <-app_assoc|done|by rewrite <-app_assoc|cbn in Hf; lia|done].
Qed.

Lemma plain_params_wf ps : plain_params ps = true ->
  forallb plain_param ps = true /\ NoDup (map fst ps).
Proof. unfold plain_params, distinct. by intros [? ?%bool_decide_eq_true]%andb_true_iff. Qed.

Lemma sf_params_length ps : (length ps <= length (sf_params ps))%nat.
Proof. unfold sf_params. induction ps as [|kv ps IH]; cbn; [lia|]. rewrite !length_app. lia. Qed.

Lemma parse_all_params ps r : plain_params ps = true -> ends r ->
  parse_params (length (sf_params ps ++ r)) [] (sf_params ps ++ r) = Some (ps, r).
Proof.
  intros [Hp Hd]%plain_params_wf Hr. apply (parse_params_plain ps _ []); try done.
  rewrite length_app. pose proof (sf_params_length ps). lia.
Qed.

Lemma parse_item_plain i r : plain_item i = true -> ends r -> parse_item (sf_item i ++ r) = Some (i, r).
Proof.
  unfold plain_item. destruct i as [v ps]. cbn [fst snd]. intros [Hv Hp]%andb_true_iff Hr.
  unfold parse_item, sf_item. cbn [fst snd]. rewrite <-app_assoc, parse_bare_plain by (done || by apply stops_params).
  cbn. by rewrite parse_all_params.
Qed.

Lemma sf_item_head i : plain_item i = true -> exists u s, sf_item i = u :: s /\ u <> 32 /\ u <> 41.
Proof.
  unfold plain_item. intros [Hv _]%andb_true_iff. destruct (sf_bare_head _ Hv) as (u & s & E & Hu).
  exists u, (s ++ sf_params (snd i)). unfold sf_item. by rewrite E.
Qed.

Lemma parse_items_plain items : forall fuel acc r, forallb plain_item items = true -> (length items <= fuel)%nat ->
  parse_items fuel acc (JsString.join [32] (map sf_item items) ++ 41 :: r) = Some (acc ++ items, r).
Proof.
  assert (Hone : forall i s fuel acc, plain_item i = true -> ends s ->
    parse_items (S fuel) acc (sf_item i ++ s) = parse_items fuel (acc ++ [i]) s).
  { intros i s fuel acc Hi Hs. destruct (sf_item_head i Hi) as (u & t & E & H1 & H2).
    assert (Hd : dropWhile (fun v => v =? 32) (sf_item i ++ s) = sf_item i ++ s).
    { rewrite E. cbn. by rewrite (proj2 (Z.eqb_neq _ _) H1). }
    cbn [parse_items]. rewrite Hd. pose proof (parse_item_plain i s Hi Hs) as Hp. rewrite E in Hp |- *. cbn [app] in *.
    rewrite (proj2 (Z.eqb_neq _ _) H2), Hp. done. }
  induction items as [|i items IH]; intros fuel acc r Hp Hf.
  - rewrite app_nil_r. cbn. by destruct fuel.
  - destruct fuel as [|fuel]; [cbn in Hf; lia|]. cbn in Hp. apply andb_true_iff in Hp as [Hi Hp].
    destruct items as [|j items]; cbn [map].
    + cbn [JsString.join]. rewrite Hone by (done || by right). specialize (IH fuel (acc ++ [i]) r Hp ltac:(cbn in *; lia)).
      cbn [map JsString.join app] in IH. by rewrite IH, <-app_assoc.
    + rewrite join_cons, <-!app_assoc. rewrite Hone by (done || by left).
      specialize (IH fuel (acc ++ [i]) r Hp ltac:(cbn in *; lia)). cbn [map app] in IH.
      transitivity (parse_items fuel (acc ++ [i]) (JsString.join [32] (sf_item j :: map sf_item items) ++ 41 :: r));
        [|by rewrite IH, <-app_assoc].
      cbn [app]. destruct fuel; done.
Qed.

Lemma join_length (l : list jsstr) : (length l <= S (length (JsString.join [32%Z] l)))%nat.
Proof.
  induction l as [|a l IH]; [cbn; lia|]. destruct l as [|b l]; [cbn; lia|].
  rewrite join_cons, !length_app. cbn [length] in *. lia.
Qed.

Lemma parse_inner_member items ps : forallb plain_item items = true -> plain_params ps = true ->
  parse_member (sf_inner items ++ sf_params ps) = Some (InnerList items ps, []).
Proof.
  intros Hi Hp. unfold sf_inner. cbn [app parse_member]. rewrite <-app_assoc. cbn [app].
  rewrite (parse_items_plain items _ []); [|done|].
  - cbn. pose proof (parse_all_params ps [] Hp I) as H. rewrite app_nil_r in H. by rewrite H.
  - rewrite length_app. cbn. pose proof (join_length (map sf_item items)). rewrite length_map in *. lia.
Qed.

Lemma parse_one key m text : is_key key = true -> parse_member text = Some (m, []) ->
  parseStructuredDictionary (StructuredFields := SimpleFields) (key ++ 61 :: text) = Some [(key, m)].
Proof.
  intros Hk Hm. cbn [parseStructuredDictionary SimpleFields].
  assert (Hl : exists n, length (key ++ 61 :: text) = S n).
  { rewrite length_app. cbn. eexists. rewrite <-plus_n_Sm. done. }
  destruct Hl as [n Hl]. destruct (key ++ 61 :: text) as [|u s] eqn:E; [done|]. rewrite <-E, Hl in *.
  cbn [parse_members]. rewrite parse_key_app by done. cbn. by rewrite Hm.
Qed.

(** The keys that are parsed are keys. *)
Lemma parse_key_is_key s k r : parse_key s = Some (k, r) -> is_key k = true.
Proof.
  unfold parse_key. destruct s as [|u s]; [done|]. destruct (is_key_start u) eqn:Hu; [|done]. intros [= H].
  assert (Hp : is_parameter_unit u = true) by (unfold is_key_start, is_parameter_unit, is_lower, is_digit, existsb in *; lia).
  assert (Hspan : forall t, forallb is_parameter_unit (fst (Simple.span is_parameter_unit t)) = true).
  { induction t as [|x t IH]; [done|]. cbn. destruct (is_parameter_unit x) eqn:Hx; [|done].
    destruct (Simple.span is_parameter_unit t). cbn in *. by rewrite Hx. }
  specialize (Hspan s). rewrite Hp in H. destruct (Simple.span is_parameter_unit s) as [t r']. injection H as <- _.
  unfold is_key. cbn in *. by rewrite Hu, Hp.
Qed.

Lemma map_set_keys {A} (f : jsstr -> bool) k (v : A) m : f k = true -> forallb (fun kv => f (fst kv)) m = true ->
  forallb (fun kv => f (fst kv)) (map_set k v m) = true.
Proof.
  intros Hk. induction m as [|[k' w] m IH]; cbn; [by rewrite Hk|]. intros [H1 H2]%andb_true_iff.
  case_bool_decide; cbn; rewrite H1; [done|]. by apply IH.
Qed.

Lemma parse_members_keys fuel : forall acc s d, forallb (fun kv => is_key (fst kv)) acc = true ->
  parse_members fuel acc s = Some d -> forallb (fun kv => is_key (fst kv)) d = true.
Proof.
  induction fuel as [|fuel IH]; intros acc s d Ha; [done|]. cbn [parse_members].
  intros ([k r] & Hk & H)%bind_Some. apply bind_Some in H as ([m r2] & _ & H). cbv zeta in H.
  assert (Hs : forallb (fun kv => is_key (fst kv)) (map_set k m acc) = true)
    by (apply map_set_keys; [by eapply parse_key_is_key|done]).
  destruct r2 as [|u r2]; [by injection H as <-|]. destruct (Z.eq_dec u 44) as [->|Hu]; [by eapply IH|].
  destruct u as [|p|p]; try done. repeat (destruct p as [p|p|]; try done).
Qed.

#[export] Instance SimpleFields_rfc8941 : Rfc8941 (SF := SimpleFields).
Proof.
  split; try done.
  - intros key items ps Hk Hi Hp. by apply parse_one, parse_inner_member.
  - intros key l Hk. apply parse_one; [done|]. cbn [parse_member]. unfold parse_item.
    pose proof (parse_bare_plain (BBytes l) [] eq_refl I) as H. rewrite app_nil_r in H. cbn [sf_bare] in H. by rewrite H.
  - intros s d. cbn. destruct s as [|u s]; [by intros [= <-]|]. by apply parse_members_keys.
Qed.
