(* ===== verification/FieldText.v ===== *)
(** What the program's own scanners find in the texts of plain structured fields
    ([splitDictionary], [findInnerListClose], [scanParameterSegments], [trim]). *)

From S2P Require Import Prelude JsString Base64 Url Utils Json HttpMessages SignatureFields PlainFields.

(** ** Ends of texts *)

(** A text without white space at its ends. *)
Definition trimmed (s : jsstr) : Prop :=
  match s with u :: _ => is_space u = false | [] => False end
  /\ exists t u, s = t ++ [u] /\ is_space u = false.

Lemma trim_trimmed s : trimmed s -> trim s = s.
Proof.
  intros [H (t & u & -> & Hu)]. unfold trim, trimStart, trimEnd.
  destruct (t ++ [u]) as [|v l] eqn:E; [done|]. cbn [dropWhile]. rewrite H, <-E, rev_app_distr. cbn.
  by rewrite Hu, <-rev_involutive, rev_app_distr.
Qed.

Lemma trimmed_app a b : match a with u :: _ => is_space u = false | [] => False end ->
  (exists t u, b = t ++ [u] /\ is_space u = false) -> trimmed (a ++ b).
Proof.
  intros Ha (t & u & -> & Hu). split; [by destruct a|]. exists (a ++ t), u. by rewrite app_assoc.
Qed.

Lemma last_of (f : Z -> bool) s : s <> [] -> forallb f s = true -> (forall u, f u = true -> is_space u = false) ->
  exists t u, s = t ++ [u] /\ is_space u = false.
Proof.
  intros Hs Hf Hu. destruct (exists_last Hs) as (t & u & ->). exists t, u. split; [done|].
  apply Hu. rewrite forallb_app in Hf. cbn in Hf. by apply andb_true_iff in Hf as [_ [Hf _]%andb_true_iff].
Qed.

Lemma parameter_unit_no_space u : is_parameter_unit u = true -> is_space u = false.
Proof. unfold is_parameter_unit, is_lower, is_digit, is_space, existsb. lia. Qed.

Lemma digit_no_space u : is_digit u = true -> is_space u = false.
Proof. unfold is_digit, is_space. lia. Qed.

Lemma key_wf k : is_key k = true -> k <> [] /\ forallb is_parameter_unit k = true
  /\ match k with u :: _ => is_space u = false | [] => False end.
Proof.
  unfold is_key. intros [H1 H2]%andb_true_iff. destruct k as [|u k]; [done|]. split; [done|]. split; [done|].
  cbn in H2. apply andb_true_iff in H2 as [H2 _]. by apply parameter_unit_no_space.
Qed.

Lemma sf_bare_last v : plain_bare v = true -> exists t u, sf_bare v = t ++ [u] /\ is_space u = false.
Proof.
  destruct v as [[n| | | |]|s|b|l|s|n|s]; cbn [plain_bare sf_bare]; try done; intros H.
  - destruct (sf_integer_digits n) as (d & Hd & Hne & _ & ->).
    destruct (last_of _ _ Hne Hd digit_no_space) as (t & u & -> & Hu). eexists (_ ++ t), u. by rewrite <-app_assoc.
  - by exists (34 :: escape s), 34.
  - exists [63], (if b then 49 else 48). by destruct b.
  - by exists (58 :: btoa l), 58.
Qed.

Lemma sf_param_last kv : is_key (fst kv) = true -> plain_bare (snd kv) = true ->
  exists t u, sf_param kv = t ++ [u] /\ is_space u = false.
Proof.
  intros (Hne & Hk & _)%key_wf Hv. unfold sf_param. case_bool_decide.
  - rewrite app_nil_r. destruct (last_of _ _ Hne Hk parameter_unit_no_space) as (t & u & -> & Hu). by exists (59 :: t), u.
  - destruct (sf_bare_last _ Hv) as (t & u & -> & Hu). exists (59 :: fst kv ++ 61 :: t), u. split; [|done].
    cbn. by rewrite <-app_assoc.
Qed.

Lemma sf_text_last items ps : plain_params ps = true ->
  exists t u, sf_inner items ++ sf_params ps = t ++ [u] /\ is_space u = false.
Proof.
  intros [Hp _]%plain_params_wf. destruct ps as [|kv ps _] using rev_ind.
  - exists (40 :: JsString.join [32] (map sf_item items)), 41. by rewrite app_nil_r.
  - rewrite forallb_app in Hp. cbn in Hp. apply andb_true_iff in Hp as [_ [[Hk Hv]%andb_true_iff _]%andb_true_iff].
    destruct (sf_param_last kv Hk Hv) as (t & u & E & Hu). exists (sf_inner items ++ sf_params ps ++ t), u.
    split; [|done]. unfold sf_params. rewrite flat_map_app. cbn [flat_map]. by rewrite E, app_nil_r, <-!app_assoc.
Qed.

Lemma sf_param_trimmed kv : is_key (fst kv) = true -> plain_bare (snd kv) = true -> trimmed (sf_param kv).
Proof. intros Hk Hv. split; [done|]. by apply sf_param_last. Qed.

(** ** [splitDictionary] *)

Definition is_delimiter (u : Z) : bool := existsb (fun v => v =? u) [34; 58; 40; 41; 44].

Lemma split_units s : forall cur d rest, 0 <= d -> forallb (fun u => negb (is_delimiter u)) s = true ->
  split_members cur d false false false (s ++ rest) = split_members (cur ++ s) d false false false rest.
Proof.
  induction s as [|u s IH]; intros cur d rest Hd H; [by rewrite app_nil_r|].
  cbn [forallb is_plain] in H. apply andb_true_iff in H as [Hu Hs]. unfold is_delimiter, existsb in Hu.
  cbn [app split_members andb negb].
  rewrite !(proj2 (Z.eqb_neq u _)) by lia. cbn.
  rewrite (proj2 (Z.ltb_ge d 0)) by lia. cbn. rewrite IH by done. by rewrite <-app_assoc.
Qed.

Lemma split_in_string s : forall cur d rest, 0 <= d ->
  split_members cur d true false false (escape s ++ rest) = split_members (cur ++ escape s) d true false false rest.
Proof.
  induction s as [|u s IH]; intros cur d rest Hd; [by rewrite app_nil_r|].
  cbn [escape flat_map]. fold (escape s). destruct (needs_escape u) eqn:E; unfold needs_escape in E.
  - cbn [app split_members andb negb Z.eqb Pos.eqb]. rewrite IH by done. by rewrite <-!app_assoc.
  - apply orb_false_iff in E as [E1 E2]. cbn [app split_members andb negb]. rewrite E1, E2. cbn.
    rewrite (proj2 (Z.ltb_ge d 0)) by lia. cbn. rewrite IH by done. by rewrite <-app_assoc.
Qed.

Lemma split_string s cur d rest : 0 <= d ->
  split_members cur d false false false ((34 :: escape s ++ [34]) ++ rest)
  = split_members (cur ++ 34 :: escape s ++ [34]) d false false false rest.
Proof.
  intros Hd. cbn [app split_members andb negb Z.eqb Pos.eqb]. rewrite (proj2 (Z.ltb_ge d 0)) by lia. cbn.
  rewrite <-app_assoc, split_in_string by done. cbn [app split_members andb negb Z.eqb Pos.eqb].
  rewrite (proj2 (Z.ltb_ge d 0)) by lia. cbn. by rewrite <-!app_assoc.
Qed.

Lemma split_in_bytes s : forall cur d rest, 0 <= d -> forallb (fun u => negb (u =? 58)) s = true ->
  split_members cur d false true false (s ++ rest) = split_members (cur ++ s) d false true false rest.
Proof.
  induction s as [|u s IH]; intros cur d rest Hd H; [by rewrite app_nil_r|].
  cbn [forallb] in H. apply andb_true_iff in H as [Hu%negb_true_iff Hs].
  cbn [app split_members andb negb]. rewrite Hu. cbn.
  rewrite (proj2 (Z.ltb_ge d 0)) by lia. cbn. rewrite IH by done. by rewrite <-app_assoc.
Qed.

Lemma split_colon cur d b rest : 0 <= d ->
  split_members cur d false b false (58 :: rest) = split_members (cur ++ [58]) d false (negb b) false rest.
Proof.
  intros Hd. destruct b; cbn [split_members andb negb Z.eqb Pos.eqb]; by rewrite (proj2 (Z.ltb_ge d 0)) by lia.
Qed.

Lemma split_bytes l cur d rest : 0 <= d ->
  split_members cur d false false false ((58 :: btoa l ++ [58]) ++ rest)
  = split_members (cur ++ 58 :: btoa l ++ [58]) d false false false rest.
Proof.
  intros Hd. cbn [app]. rewrite split_colon, <-app_assoc, split_in_bytes by (done || apply btoa_no_colon). cbn [app].
  rewrite split_colon by done. by rewrite <-!app_assoc.
Qed.

Lemma digits_no_delimiter d : forallb is_digit d = true -> forallb (fun u => negb (is_delimiter u)) d = true.
Proof.
  rewrite !forallb_forall. intros Hg u Hu. specialize (Hg u Hu). unfold is_digit, is_delimiter, existsb in *. lia.
Qed.

Lemma integer_no_delimiter n : forallb (fun u => negb (is_delimiter u)) (sf_integer n) = true.
Proof.
  destruct (sf_integer_digits n) as (d & Hd & _ & _ & ->). rewrite forallb_app. apply andb_true_iff.
  split; [by destruct (n <? 0)|by apply digits_no_delimiter].
Qed.

Lemma split_bare v cur d rest : 0 <= d -> plain_bare v = true ->
  split_members cur d false false false (sf_bare v ++ rest) = split_members (cur ++ sf_bare v) d false false false rest.
Proof.
  intros Hd. destruct v as [[n| | | |]|s|b|l|s|n|s]; cbn [plain_bare sf_bare]; try done; intros _.
  - apply split_units; [done|apply integer_no_delimiter].
  - by apply split_string.
  - destruct b; by apply (split_units [63; _]).
  - by apply split_bytes.
Qed.

Lemma key_no_delimiter k : is_key k = true -> forallb (fun u => negb (is_delimiter u)) k = true.
Proof.
  intros (_ & H & _)%key_wf. rewrite forallb_forall in H |- *. intros u Hu. specialize (H u Hu).
  unfold is_parameter_unit, is_lower, is_digit, is_delimiter, existsb in *. lia.
Qed.

Lemma split_params ps : forall cur d rest, 0 <= d -> forallb plain_param ps = true ->
  split_members cur d false false false (sf_params ps ++ rest) = split_members (cur ++ sf_params ps) d false false false rest.
Proof.
  induction ps as [|[k v] ps IH]; intros cur d rest Hd H; [by rewrite app_nil_r|].
  cbn in H. apply andb_true_iff in H as [[Hk Hv]%andb_true_iff Hp].
  cbn [sf_params flat_map]. rewrite <-app_assoc. unfold sf_param at 1 3. cbn [fst snd].
  change (59 :: k ++ ?x) with ((59 :: k) ++ x). rewrite <-!app_assoc.
  rewrite split_units by (done || cbn; by apply key_no_delimiter).
  rewrite app_assoc. case_bool_decide.
  - cbn [app]. fold (sf_params ps). rewrite (IH (cur ++ 59 :: k)) by done. by rewrite <-!app_assoc.
  - change (61 :: sf_bare v) with ([61] ++ sf_bare v). rewrite <-!app_assoc.
    rewrite (split_units [61]) by done. rewrite split_bare by done. fold (sf_params ps).
    rewrite IH by done. by rewrite <-!app_assoc.
Qed.

Lemma split_item i cur d rest : 0 <= d -> plain_item i = true ->
  split_members cur d false false false (sf_item i ++ rest) = split_members (cur ++ sf_item i) d false false false rest.
Proof.
  unfold plain_item. intros Hd [Hv [Hp _]%plain_params_wf]%andb_true_iff. unfold sf_item.
  rewrite <-app_assoc, split_bare, split_params by done. by rewrite <-app_assoc.
Qed.

Lemma split_items items : forall cur d rest, 0 <= d -> forallb plain_item items = true ->
  split_members cur d false false false (JsString.join [32] (map sf_item items) ++ rest)
  = split_members (cur ++ JsString.join [32] (map sf_item items)) d false false false rest.
Proof.
  induction items as [|i items IH]; intros cur d rest Hd H; [by rewrite app_nil_r|].
  cbn in H. apply andb_true_iff in H as [Hi Hp]. destruct items as [|j items].
  - cbn [map JsString.join]. by apply split_item.
  - cbn [map]. rewrite join_cons, <-!app_assoc, split_item by done. rewrite (split_units [32]) by done.
    cbn [map] in IH. rewrite IH by done. by rewrite <-!app_assoc.
Qed.

(** The delimiters, outside of a string. *)
Lemma split_open cur rest :
  split_members cur 0 false false false (40 :: rest) = split_members (cur ++ [40]) 1 false false false rest.
Proof. done. Qed.
Lemma split_close cur rest :
  split_members cur 1 false false false (41 :: rest) = split_members (cur ++ [41]) 0 false false false rest.
Proof. done. Qed.
Lemma split_end cur : trimmed cur -> split_members cur 0 false false false [] = Ok [cur].
Proof.
  intros H. cbn [split_members orb negb Z.eqb throw_if mbind res_bind]. rewrite trim_trimmed by done.
  by destruct cur; [destruct H|].
Qed.

(** The member [key=(items)parameters] is one member. *)
Lemma splitDictionary_inner key items ps : is_key key = true -> forallb plain_item items = true -> plain_params ps = true ->
  splitDictionary (key ++ 61 :: sf_inner items ++ sf_params ps) = Ok [key ++ 61 :: sf_inner items ++ sf_params ps].
Proof.
  intros Hk Hi Hp. pose proof (plain_params_wf _ Hp) as [Hp' _]. unfold splitDictionary.
  rewrite split_units by (done || by apply key_no_delimiter).
  change (61 :: ?x) with ([61] ++ x). rewrite split_units by done. unfold sf_inner at 1. cbn [app].
  rewrite split_open, <-(app_assoc (JsString.join _ _)), split_items by done.
  change ([41] ++ ?x) with (41 :: x). rewrite split_close.
  rewrite <-(app_nil_r (sf_params ps)) at 1. rewrite split_params by done.
  match goal with |- split_members ?x _ _ _ _ _ = _ => assert (E : x = key ++ 61 :: sf_inner items ++ sf_params ps) end.
  { unfold sf_inner. cbn. by rewrite <-!app_assoc. }
  rewrite E. apply split_end, trimmed_app; [by apply key_wf|].
  destruct (sf_text_last items ps Hp) as (t & u & -> & Hu). by exists (61 :: t), u.
Qed.

Lemma splitDictionary_bytes key l : is_key key = true ->
  splitDictionary (key ++ 61 :: 58 :: btoa l ++ [58]) = Ok [key ++ 61 :: 58 :: btoa l ++ [58]].
Proof.
  intros Hk. unfold splitDictionary. rewrite split_units by (done || by apply key_no_delimiter).
  change (61 :: ?x) with ([61] ++ x). rewrite split_units by done.
  change (58 :: btoa l ++ [58]) with ((58 :: btoa l ++ [58])). rewrite <-(app_nil_r (58 :: btoa l ++ [58])) at 1.
  rewrite split_bytes by done.
  match goal with |- split_members ?x _ _ _ _ _ = _ => assert (E : x = key ++ 61 :: 58 :: btoa l ++ [58]) end.
  { by rewrite <-!app_assoc. }
  rewrite E. apply split_end, trimmed_app; [by apply key_wf|]. by exists (61 :: 58 :: btoa l), 58.
Qed.

(** ** [findInnerListClose] *)

Lemma find_close_units s : forall i rest, forallb (fun u => negb ((u =? 34) || (u =? 41))) s = true ->
  find_close i false false (s ++ rest) = find_close (i + zlen s) false false rest.
Proof.
  induction s as [|u s IH]; intros i rest H; [by rewrite Z.add_0_r|].
  cbn [forallb] in H. apply andb_true_iff in H as [[H1 H2]%negb_true_iff%orb_false_iff Hs].
  cbn [app find_close andb negb]. rewrite H1, H2, IH by done. f_equal. rewrite zlen_cons. lia.
Qed.

Lemma find_close_quoted s : forall i rest,
  find_close i true false (escape s ++ 34 :: rest) = find_close (i + zlen (escape s) + 1) false false rest.
Proof.
  induction s as [|u s IH]; intros i rest.
  - change (zlen (escape [])) with 0. by rewrite Z.add_0_r.
  - cbn [escape flat_map]. fold (escape s). rewrite <-app_assoc, zlen_app. destruct (needs_escape u) eqn:E; unfold needs_escape in E.
    + cbn [app find_close andb negb Z.eqb Pos.eqb]. rewrite IH. f_equal. change (zlen [92; u]) with 2. lia.
    + apply orb_false_iff in E as [E1 E2]. cbn [app find_close andb negb]. rewrite E1, E2, IH. f_equal. change (zlen [u]) with 1. lia.
Qed.

Lemma no_delimiter_close s : forallb (fun u => negb (is_delimiter u)) s = true ->
  forallb (fun u => negb ((u =? 34) || (u =? 41))) s = true.
Proof.
  intros Hs. rewrite forallb_forall in Hs |- *. intros u Hu. specialize (Hs u Hu). unfold is_delimiter, existsb in Hs. lia.
Qed.

Lemma btoa_no_close l : forallb (fun u => negb ((u =? 34) || (u =? 41))) (btoa l) = true.
Proof.
  unfold btoa. rewrite forallb_app. apply andb_true_iff. split.
  - apply forallb_forall. intros u (x & <- & Hx)%in_map_iff. pose proof (sextets_range l) as Hr.
    rewrite forallb_forall in Hr. specialize (Hr x Hx). unfold std_char, sextet in *. repeat case_match; lia.
  - unfold padding. apply forallb_forall. intros u Hu%repeat_spec. by subst.
Qed.

Lemma find_close_bare v i rest : plain_bare v = true ->
  find_close i false false (sf_bare v ++ rest) = find_close (i + zlen (sf_bare v)) false false rest.
Proof.
  destruct v as [[n| | | |]|s|b|l|s|n|s]; cbn [plain_bare sf_bare]; try done; intros _.
  - apply find_close_units, no_delimiter_close, integer_no_delimiter.
  - cbn [app find_close andb negb Z.eqb Pos.eqb]. rewrite <-app_assoc. cbn [app]. rewrite find_close_quoted.
    f_equal. rewrite zlen_cons, zlen_app. change (zlen [34]) with 1. lia.
  - destruct b; by apply (find_close_units [63; _]).
  - apply find_close_units. cbn [forallb]. rewrite forallb_app, btoa_no_close. done.
Qed.

Lemma find_close_params ps : forall i rest, forallb plain_param ps = true ->
  find_close i false false (sf_params ps ++ rest) = find_close (i + zlen (sf_params ps)) false false rest.
Proof.
  induction ps as [|[k v] ps IH]; intros i rest H; [by rewrite Z.add_0_r|].
  cbn [forallb fst snd] in H. apply andb_true_iff in H as [[Hk Hv]%andb_true_iff Hp].
  cbn [sf_params flat_map]. fold (sf_params ps). rewrite <-app_assoc, zlen_app. unfold sf_param. cbn [fst snd].
  change (59 :: k ++ ?x) with ((59 :: k) ++ x). rewrite <-!app_assoc.
  rewrite find_close_units by (apply no_delimiter_close; cbn; by apply key_no_delimiter).
  rewrite zlen_app. case_bool_decide.
  - cbn [app]. rewrite IH by done. f_equal. change (zlen []) with 0. lia.
  - change (61 :: sf_bare v) with ([61] ++ sf_bare v). rewrite <-!app_assoc.
    rewrite (find_close_units [61]), find_close_bare, IH by done. f_equal. rewrite zlen_app. lia.
Qed.

Lemma find_close_items items : forall i rest, forallb plain_item items = true ->
  find_close i false false (JsString.join [32] (map sf_item items) ++ rest)
  = find_close (i + zlen (JsString.join [32] (map sf_item items))) false false rest.
Proof.
  assert (Hone : forall j i rest, plain_item j = true ->
    find_close i false false (sf_item j ++ rest) = find_close (i + zlen (sf_item j)) false false rest).
  { intros j i rest [Hv [Hp _]%plain_params_wf]%andb_true_iff. unfold sf_item.
    rewrite <-app_assoc, find_close_bare, find_close_params by done. f_equal. rewrite zlen_app. lia. }
  induction items as [|j items IH]; intros i rest H; [by rewrite Z.add_0_r|].
  cbn [forallb] in H. apply andb_true_iff in H as [Hj Hp]. destruct items as [|k items]; [by apply Hone|].
  cbn [map] in *. rewrite join_cons, <-!app_assoc, Hone by done. rewrite (find_close_units [32]) by done.
  rewrite IH by done. f_equal. rewrite !zlen_app. lia.
Qed.

Lemma findInnerListClose_inner items rest : forallb plain_item items = true ->
  findInnerListClose (sf_inner items ++ rest) = zlen (sf_inner items) - 1.
Proof.
  intros H. unfold findInnerListClose, sf_inner, slice_from. cbn [app].
  change (drop (Z.to_nat 1) (40 :: ?x)) with x. rewrite <-app_assoc, find_close_items by done. cbn.
  rewrite zlen_cons, zlen_app. change (zlen [41]) with 1. lia.
Qed.

(** ** [scanParameterSegments] *)

Definition segment_stop (r : jsstr) : Prop := match r with [] => True | u :: _ => u = 59 end.

Lemma scan_quoted_plain s r : scan_quoted (escape s ++ 34 :: r) = (escape s ++ [34], r).
Proof.
  induction s as [|u s IH]; [done|]. cbn [escape flat_map]. fold (escape s). rewrite <-app_assoc.
  destruct (needs_escape u) eqn:E; unfold needs_escape in E.
  - cbn [app scan_quoted]. by rewrite IH.
  - assert (Hne : u <> 92 /\ u <> 34) by lia. destruct Hne as [H92 H34]. cbn [app].
    transitivity (let '(q, r0) := scan_quoted (escape s ++ 34 :: r) in (u :: q, r0)); [|by rewrite IH].
    cbn [scan_quoted]. destruct u as [|p|p]; try done. repeat (destruct p as [p|p|]; try done).
Qed.

Lemma scan_value_other u s : u <> 34 -> u <> 37 -> u <> 58 ->
  scan_value (u :: s) = Simple.span (fun v => negb (v =? 59)) (u :: s).
Proof. intros H1 H2 H3. destruct u as [|p|p]; try done. repeat (destruct p as [p|p|]; try done). Qed.

Lemma span_segment s r : forallb (fun u => negb (u =? 59)) s = true -> segment_stop r ->
  Simple.span (fun u => negb (u =? 59)) (s ++ r) = (s, r).
Proof. intros Hs Hr. apply span_all; [done|]. destruct r as [|u r]; [done|]. cbn in Hr. by subst u. Qed.

Lemma scan_value_plain v r : plain_bare v = true -> v <> BBoolean true -> segment_stop r ->
  scan_value (sf_bare v ++ r) = (sf_bare v, r).
Proof.
  destruct v as [[n| | | |]|s|b|l|s|n|s]; cbn [plain_bare sf_bare]; try done; intros H Hb Hr.
  - pose proof (integer_no_delimiter n) as Hg. destruct (sf_integer_digits n) as (d & Hd & Hne & _ & E).
    assert (Hs : Simple.span (fun u => negb (u =? 59)) (sf_integer n ++ r) = (sf_integer n, r)).
    { apply span_segment; [|done]. rewrite E, forallb_app. apply andb_true_iff. split; [by destruct (n <? 0)|].
      rewrite forallb_forall in Hd |- *. intros u Hu. specialize (Hd u Hu). unfold is_digit in Hd. lia. }
    assert (Hu : exists u s, sf_integer n = u :: s /\ u <> 34 /\ u <> 37 /\ u <> 58).
    { destruct (digits_head d Hd Hne) as (u & s & -> & Hu). rewrite E. destruct (n <? 0); eexists _, _; (split; [reflexivity|lia]). }
    destruct Hu as (u & s & Eu & Hu). rewrite Eu in *. cbn [app] in *. by rewrite scan_value_other by tauto.
  - cbn [app scan_value]. rewrite <-app_assoc. cbn [app]. by rewrite scan_quoted_plain.
  - destruct b; [done|]. cbn [app scan_value Simple.span Z.eqb Pos.eqb negb]. destruct r as [|u r]; [done|]. cbn in Hr. by subst u.
  - cbn [app scan_value]. rewrite <-app_assoc. cbn [app].
    rewrite indexOf_app by (apply (forallb_not_elem (fun u => negb (u =? 58))); [done|apply btoa_no_colon]).
    rewrite (proj2 (Z.eqb_neq _ _)) by (unfold zlen; lia). unfold slice, slice_from. rewrite Z.sub_0_r.
    replace (btoa l ++ 58 :: r) with ((btoa l ++ [58]) ++ r) by by rewrite <-app_assoc.
    replace (Z.to_nat (zlen (btoa l) + 1)) with (length (btoa l ++ [58])) by (rewrite length_app; unfold zlen; cbn; lia).
    change (Z.to_nat 0) with 0%nat. rewrite drop_0. rewrite take_app_length, drop_app_length. done.
Qed.

Lemma scan_segment_plain kv r : is_key (fst kv) = true -> plain_bare (snd kv) = true -> segment_stop r ->
  exists body, sf_param kv = 59 :: body /\ scan_segment (body ++ r) = (sf_param kv, r).
Proof.
  intros (_ & Hk & _)%key_wf Hv Hr. eexists. split; [done|]. unfold scan_segment, sf_param.
  rewrite <-app_assoc. rewrite span_all; [|done|].
  - case_bool_decide as Hb.
    + destruct r as [|u r]; [done|]. cbn in Hr. by subst u.
    + cbn [app]. by rewrite scan_value_plain.
  - case_bool_decide; [|done]. destruct r as [|u r]; [done|]. cbn in Hr. by subst u.
Qed.

Lemma scan_segments_plain ps : forall fuel, forallb plain_param ps = true ->
  (length ps < fuel)%nat -> scan_segments fuel (sf_params ps) = map sf_param ps.
Proof.
  induction ps as [|kv ps IH]; intros fuel H Hf; (destruct fuel as [|fuel]; [cbn in Hf; lia|]); [done|].
  cbn [forallb] in H. apply andb_true_iff in H as [[Hk Hv]%andb_true_iff Hp].
  destruct (scan_segment_plain kv (sf_params ps) Hk Hv) as (body & E & Hs); [by destruct ps|].
  cbn [sf_params flat_map map]. fold (sf_params ps). cbn [scan_segments].
  rewrite E at 1. cbn [app dropWhile Z.eqb Pos.eqb]. rewrite Hs, trim_trimmed by by apply sf_param_trimmed.
  f_equal. apply IH; [done|cbn in Hf; lia].
Qed.

Lemma scanParameterSegments_plain ps : forallb plain_param ps = true -> scanParameterSegments (sf_params ps) = map sf_param ps.
Proof.
  intros H. apply scan_segments_plain; [done|]. pose proof (sf_params_length ps). lia.
Qed.

(** ** Parsing what is serialized *)

Lemma sf_param_plain kv : is_key (fst kv) = true -> plain_bare (snd kv) = true -> plain_params [kv] = true.
Proof. intros Hk Hv. unfold plain_params, plain_param. cbn. rewrite Hk, Hv. cbn. apply bool_decide_eq_true. apply NoDup_singleton. Qed.

Section Parsing.
Context `{SF : StructuredFields} `{Laws : !Rfc8941}.

Lemma parse_segment_plain kv : is_key (fst kv) = true -> plain_bare (snd kv) = true ->
  parse_segment false (sf_param kv) = Ok kv.
Proof.
  intros Hk Hv. unfold parse_segment.
  pose proof (rfc_parse_inner_list (js "x") [] [kv] ltac:(done) ltac:(done) (sf_param_plain kv Hk Hv)) as H.
  replace (js "x" ++ 61 :: sf_inner [] ++ sf_params [kv]) with (js "x=()" ++ sf_param kv) in H
    by (unfold sf_params; cbn [flat_map]; by rewrite app_nil_r).
  rewrite H. by destruct kv.
Qed.

Lemma parseSignatureParameterOccurrences_plain items ps : forallb plain_item items = true -> forallb plain_param ps = true ->
  parseSignatureParameterOccurrences (sf_inner items ++ sf_params ps) false = Ok ps.
Proof.
  intros Hi Hp. unfold parseSignatureParameterOccurrences. rewrite findInnerListClose_inner by done.
  unfold slice_from. rewrite drop_app_zlen by lia.
  rewrite scanParameterSegments_plain by done.
  induction ps as [|kv ps IH]; [done|]. cbn [forallb] in Hp. apply andb_true_iff in Hp as [[Hk Hv]%andb_true_iff Hp].
  cbn [map map_res]. by rewrite parse_segment_plain, IH.
Qed.

Lemma dictionary_entries_inner key items ps malformed : is_key key = true -> forallb plain_item items = true ->
  plain_params ps = true -> zlen (key ++ 61 :: sf_inner items ++ sf_params ps) <= MAX_HEADER_LENGTH ->
  dictionary_entries (key ++ 61 :: sf_inner items ++ sf_params ps) malformed
  = Ok [((key, InnerList items ps), key ++ 61 :: sf_inner items ++ sf_params ps)].
Proof.
  intros Hk Hi Hp Hl. unfold dictionary_entries, assertHeaderBound. rewrite (proj2 (Z.ltb_ge _ _)) by done. cbn [throw_if mbind res_bind].
  by rewrite splitDictionary_inner, rfc_parse_inner_list.
Qed.

Lemma dictionary_entries_bytes key l malformed : is_key key = true ->
  zlen (key ++ 61 :: 58 :: btoa l ++ [58]) <= MAX_HEADER_LENGTH ->
  dictionary_entries (key ++ 61 :: 58 :: btoa l ++ [58]) malformed
  = Ok [((key, Item (BBytes l, [])), key ++ 61 :: 58 :: btoa l ++ [58])].
Proof.
  intros Hk Hl. unfold dictionary_entries, assertHeaderBound. rewrite (proj2 (Z.ltb_ge _ _)) by done. cbn [throw_if mbind res_bind].
  by rewrite splitDictionary_bytes, rfc_parse_bytes.
Qed.

Lemma parseSignature_bytes key l : is_key key = true -> zlen (key ++ 61 :: 58 :: btoa l ++ [58]) <= MAX_HEADER_LENGTH ->
  parseSignature (key ++ 61 :: 58 :: btoa l ++ [58]) = Ok [(key, l)].
Proof. intros Hk Hl. unfold parseSignature. by rewrite dictionary_entries_bytes. Qed.

Lemma parseSha256ContentDigest_bytes l covered :
  zlen (js "sha-256=:" ++ btoa l ++ [58]) <= MAX_HEADER_LENGTH -> existsb unsupported_digest_member covered = false ->
  parseSha256ContentDigest (js "sha-256=:" ++ btoa l ++ [58]) covered = Ok l.
Proof.
  intros Hl Hc. unfold parseSha256ContentDigest. rewrite Hc. cbn [throw_if mbind res_bind].
  change (js "sha-256=:" ++ ?x) with (js "sha-256" ++ 61 :: 58 :: x) in *.
  unfold parseDictionaryField, assertHeaderBound. rewrite (proj2 (Z.ltb_ge _ _)) by done. cbn [throw_if mbind res_bind].
  by rewrite splitDictionary_bytes, rfc_parse_bytes.
Qed.

End Parsing.
