(* ===== verification/HttpBase.v ===== *)
(** The signature base of [http-signatures/src/index.ts] as a text: what it is for simple
    components and parameters, and that it determines what is signed. *)

From S2P Require Import Prelude JsString Base64 Url Utils Json HttpMessages SignatureFields PlainFields FieldText.

(** ** Texts *)

(** Units that UTF-8 encodes one by one, without line breaks. *)
Definition is_clean_unit (u : Z) : bool := (0 <=? u) && (u <? 55296) && negb (u =? 10).
Definition is_clean (s : jsstr) : bool := forallb is_clean_unit s.

Lemma low_units s : forallb (fun u => (0 <=? u) && (u <? 55296)) s = true -> units16 s = true /\ valid_unicode s = true.
Proof.
  induction s as [|u s IH]; [done|]. cbn [forallb]. intros [Hu Hs]%andb_true_iff. destruct (IH Hs) as [H1 H2].
  unfold units16 in *. cbn [forallb valid_unicode].
  split; [rewrite H1; unfold unit16; lia|]. rewrite H2. unfold is_high, is_low.
  replace ((55296 <=? u) && (u <=? 56319)) with false by lia. replace ((56320 <=? u) && (u <=? 57343)) with false by lia.
  done.
Qed.

Lemma clean_no_lf s : is_clean s = true -> 10 ∉ s.
Proof. intros H. by apply (forallb_not_elem is_clean_unit). Qed.

Lemma clean_join ls : Forall (fun l => is_clean l = true) ls ->
  forallb (fun u => (0 <=? u) && (u <? 55296)) (JsString.join [10] ls) = true.
Proof.
  assert (H1 : forall l, is_clean l = true -> forallb (fun u => (0 <=? u) && (u <? 55296)) l = true).
  { intros l. unfold is_clean, is_clean_unit. rewrite !forallb_forall. intros H u Hu. specialize (H u Hu). lia. }
  induction 1 as [|l ls Hl Hls IH]; [done|]. destruct ls as [|k ls]; [by apply H1|].
  rewrite join_cons, !forallb_app, IH, H1 by done. done.
Qed.

Lemma clean_app a b : is_clean (a ++ b) = is_clean a && is_clean b.
Proof. apply forallb_app. Qed.

(** Printable ASCII is clean. *)
Lemma plain_clean s : is_plain s = true -> is_clean s = true.
Proof. unfold is_plain, is_clean. rewrite !forallb_forall. intros H u Hu. specialize (H u Hu). unfold is_plain_unit, is_clean_unit in *. lia. Qed.

Lemma digits_clean s : forallb is_digit s = true -> is_clean s = true.
Proof. unfold is_clean. rewrite !forallb_forall. intros H u Hu. specialize (H u Hu). unfold is_digit, is_clean_unit in *. lia. Qed.

Lemma key_clean k : is_key k = true -> is_clean k = true.
Proof.
  intros (_ & H & _)%key_wf. unfold is_clean. rewrite forallb_forall in H |- *. intros u Hu. specialize (H u Hu).
  unfold is_parameter_unit, is_lower, is_digit, existsb, is_clean_unit in *. lia.
Qed.

Lemma escape_clean s : is_plain s = true -> is_clean (escape s) = true.
Proof.
  induction s as [|u s IH]; [done|]. unfold is_plain. cbn [forallb]. intros [Hu Hs]%andb_true_iff.
  cbn [escape flat_map]. fold (escape s). rewrite clean_app, (IH Hs), andb_true_r.
  assert (Hc : is_clean_unit u = true) by (unfold is_plain_unit, is_clean_unit in *; lia).
  destruct (needs_escape u); unfold is_clean; cbn [forallb]; by rewrite Hc.
Qed.

Lemma btoa_clean l : is_clean (btoa l) = true.
Proof.
  unfold btoa. rewrite clean_app. apply andb_true_iff. split.
  - apply forallb_forall. intros u (x & <- & Hx)%in_map_iff. pose proof (sextets_range l) as Hr.
    rewrite forallb_forall in Hr. specialize (Hr x Hx). unfold std_char, sextet, is_clean_unit in *. repeat case_match; lia.
  - unfold padding. apply forallb_forall. intros u Hu%repeat_spec. by subst.
Qed.

Lemma sf_bare_clean v : plain_bare v = true -> is_clean (sf_bare v) = true.
Proof.
  destruct v as [[n| | | |]|s|b|l|s|n|s]; cbn [plain_bare sf_bare]; try done; intros H.
  - destruct (sf_integer_digits n) as (d & Hd & _ & _ & ->). rewrite clean_app. apply andb_true_iff.
    split; [by destruct (n <? 0)|by apply digits_clean].
  - change (34 :: ?x ++ [34]) with ([34] ++ x ++ [34]). by rewrite !clean_app, escape_clean.
  - by destruct b.
  - change (58 :: ?x ++ [58]) with ([58] ++ x ++ [58]). by rewrite !clean_app, btoa_clean.
Qed.

Lemma sf_params_clean ps : forallb plain_param ps = true -> is_clean (sf_params ps) = true.
Proof.
  induction ps as [|[k v] ps IH]; [done|]. cbn [forallb fst snd]. intros [[Hk Hv]%andb_true_iff Hp]%andb_true_iff.
  cbn [sf_params flat_map]. fold (sf_params ps). rewrite clean_app, (IH Hp) by done. unfold sf_param. cbn [fst snd].
  change (59 :: k ++ ?x) with ([59] ++ k ++ x). rewrite !clean_app, (key_clean k) by done.
  case_bool_decide; [done|]. change (61 :: sf_bare v) with ([61] ++ sf_bare v). by rewrite clean_app, (sf_bare_clean v).
Qed.

Lemma sf_item_clean i : plain_item i = true -> is_clean (sf_item i) = true.
Proof.
  unfold plain_item. intros [Hv [Hp _]%plain_params_wf]%andb_true_iff. unfold sf_item.
  by rewrite clean_app, (sf_bare_clean _ Hv), (sf_params_clean _ Hp).
Qed.

Lemma sf_inner_clean items : forallb plain_item items = true -> is_clean (sf_inner items) = true.
Proof.
  intros H. unfold sf_inner. change (40 :: ?x) with ([40] ++ x). rewrite !clean_app. cbn [andb]. rewrite andb_true_r.
  change (is_clean [40]) with true. cbn [andb].
  induction items as [|i items IH]; [done|]. cbn [forallb] in H. apply andb_true_iff in H as [Hi Hs].
  destruct items as [|j items]; cbn [map] in *; [by apply sf_item_clean|].
  rewrite join_cons, !clean_app, (sf_item_clean i Hi), (IH Hs) by done. done.
Qed.

(** ** Validated components *)

(** The names of the parameters of a component are distinct: they are the keys of an object. *)
Definition named_once (c : ComponentIdentifier) : Prop := NoDup (map fst (componentParams c)).

Lemma map_get_unique {A} (m : list (jsstr * A)) k v : NoDup (map fst m) -> (k, v) ∈ m -> map_get k m = Some v.
Proof.
  induction m as [|[k' w] m IH]; [by intros _ ?%elem_of_nil|]. cbn [map fst]. intros [Hk Hd]%NoDup_cons.
  intros [[= -> ->]|Hin]%elem_of_cons; cbn; [by rewrite bool_decide_eq_true_2|].
  rewrite bool_decide_eq_false_2; [by apply IH|]. intros ->. apply Hk. apply list_elem_of_In, in_map_iff.
  exists (k, v). split; [done|]. by apply list_elem_of_In.
Qed.

Lemma toStructuredParams_keys ps : map fst (toStructuredParams ps) = map fst ps.
Proof. unfold toStructuredParams. rewrite map_map. apply map_ext. by intros []. Qed.

Lemma validated_simple c : validateComponentIdentifier c = Ok tt -> named_once c -> simple_item (component_item c) = true.
Proof.
  unfold validateComponentIdentifier, named_once. set (name := componentName c). set (ps := componentParams c).
  intros ([] & _ & (allowed & Ha & Hf)%bind_Ok)%bind_Ok Hd. unfold simple_item, component_item. fold name ps. cbn [fst snd].
  rewrite toStructuredParams_keys. apply andb_true_iff. split; [|by apply bool_decide_eq_true]. cbn [simple_bare andb].
  apply forallb_forall. intros [k b] ([k' v] & [= <- <-] & Hin)%in_map_iff. cbn [snd].
  apply list_elem_of_In in Hin. pose proof (map_get_unique ps k' v Hd Hin) as Hget.
  apply for_each_unit in Hf. rewrite Forall_forall in Hf. specialize (Hf _ Hin). cbn in Hf.
  apply bind_Ok in Hf as ([] & Hk%throw_if_Ok & Hr%throw_if_Ok). apply negb_false_iff, bool_decide_eq_true in Hk.
  unfold allowed_params in Ha. destruct (decide (k' = js "req")) as [->|Hne].
  { rewrite bool_decide_eq_true_2 in Hr by done. by apply negb_false_iff, bool_decide_eq_true in Hr as ->. }
  clear Hr. case_bool_decide as Hq.
  - apply bind_Ok in Ha as ([] & Hn%throw_if_Ok & [= <-]).
    assert (k' = js "name") as -> by (clear -Hk Hne; set_solver). rewrite Hget in Hn. by destruct v.
  - case_bool_decide; [injection Ha as <-; clear -Hk Hne; set_solver|]. case_bool_decide; [injection Ha as <-; clear -Hk Hne; set_solver|].
    apply bind_Ok in Ha as ([] & Hn%throw_if_Ok & [= <-]).
    assert (k' = js "key") as -> by (clear -Hk Hne; set_solver). rewrite Hget in Hn. by destruct v.
Qed.

(** ** The base of a simple signature *)

Section Base.
Context `{Url : URLApi} `{SF : StructuredFields} `{Laws : !Rfc8941}.

(** The values of the parameters are strings, integers, booleans or byte sequences. *)
Record simple_signature (p : SignatureParams) : Prop := {
  si_components : forall c, c ∈ components p -> named_once c;
  si_parameters : forall ps, signatureParameterList p = Ok ps -> simple_params ps = true
}.

(** The components and the parameters [ps] of the signature have texts. *)
Record plain_signature (p : SignatureParams) (ps : parameters) : Prop := {
  pl_components : forallb plain_item (map component_item (components p)) = true;
  pl_parameters : signatureParameterList p = Ok ps;
  pl_plain : forallb plain_param ps = true
}.

Definition sig_text (p : SignatureParams) (ps : parameters) : jsstr :=
  sf_inner (map component_item (components p)) ++ sf_params ps.

Lemma sig_text_clean p ps : plain_signature p ps -> is_clean (sig_text p ps) = true.
Proof.
  intros [H1 _ H2]. unfold sig_text. by rewrite clean_app, (sf_inner_clean _ H1), (sf_params_clean _ H2).
Qed.

Lemma plain_item_simple i : plain_item i = true -> simple_item i = true.
Proof.
  assert (Hb : forall v, plain_bare v = true -> simple_bare v = true) by by intros [[]| | | | | |].
  unfold plain_item, plain_params, simple_item, simple_params. intros [Hv [Hp ->]%andb_true_iff]%andb_true_iff.
  rewrite (Hb _ Hv). rewrite andb_true_r. cbn. rewrite forallb_forall in Hp |- *. intros kv Hin.
  apply Hb. specialize (Hp kv Hin). unfold plain_param in Hp. by apply andb_true_iff in Hp as [_ Hp].
Qed.

Lemma plain_items_simple l : forallb plain_item l = true -> forallb simple_item l = true.
Proof. rewrite !forallb_forall. intros H i Hi. by apply plain_item_simple, H. Qed.

(** A parameter is serialized when it has a text. *)
Lemma serialize_param kv : simple_bare (snd kv) = true ->
  serializeStructuredParameters [kv] = if plain_param kv then Some (sf_param kv) else None.
Proof using Laws.
  intros Hs. rewrite rfc_parameters.
  - unfold plain_params, sf_params. cbn [forallb map flat_map]. rewrite app_nil_r, andb_true_r.
    replace (distinct [fst kv]) with true; [by rewrite andb_true_r|]. symmetry. apply bool_decide_eq_true, NoDup_singleton.
  - unfold simple_params. cbn. by rewrite Hs.
  - apply bool_decide_eq_true, NoDup_singleton.
Qed.

Lemma serializeSigParams_plain p ps : plain_signature p ps -> serializeSigParams p = Ok (sig_text p ps).
Proof.
  intros [Hc Hl Hp]. unfold serializeSigParams. rewrite rfc_inner_list; [|by apply plain_items_simple|done|done].
  rewrite Hc. cbn. rewrite Hl. cbn.
  assert (map_res (fun kv => serialized (serializeStructuredParameters [kv])) ps = Ok (map sf_param ps)) as ->.
  { clear Hl. induction ps as [|kv ps IH]; [done|]. cbn [forallb] in Hp. apply andb_true_iff in Hp as [Hkv Hp].
    cbn [map_res map]. rewrite serialize_param, Hkv.
    2: { unfold plain_param in Hkv. apply andb_true_iff in Hkv as [_ Hv]. by destruct (snd kv) as [[]| | | | | |]. }
    cbn. by rewrite (IH Hp). }
  cbn. unfold sig_text, sf_params. by rewrite app_nil_r, flat_map_concat_map.
Qed.

Lemma validate_after_all seen l : validate_after seen l = Ok tt -> Forall (fun c => validateComponentIdentifier c = Ok tt) l.
Proof.
  revert seen. induction l as [|c l IH]; [by constructor|]. intros seen. cbn [validate_after].
  intros ([] & Hc & ([] & _ & H)%bind_Ok)%bind_Ok. constructor; [done|]. by eapply IH.
Qed.

(** What is serialized has a text. *)
Lemma serialized_plain p text : simple_signature p -> validateComponents (components p) = Ok tt ->
  serializeSigParams p = Ok text -> exists ps, plain_signature p ps /\ text = sig_text p ps.
Proof.
  intros [Hn Hs] Hv%validate_after_all H. assert (Hsimple : forallb simple_item (map component_item (components p)) = true).
  { apply forallb_forall. intros i (c & <- & Hc%list_elem_of_In)%in_map_iff. rewrite Forall_forall in Hv.
    apply validated_simple; [by apply Hv|by apply Hn]. }
  assert (Hp : exists ps, plain_signature p ps).
  { unfold serializeSigParams in H. apply bind_Ok in H as (inner & Hi & (ps & Hl & (parts & Hparts & _)%bind_Ok)%bind_Ok).
    rewrite rfc_inner_list in Hi by done. exists ps. split; [by destruct (forallb plain_item _)|done|].
    specialize (Hs ps Hl). apply map_res_Forall2 in Hparts. clear Hl Hi.
    induction Hparts as [|kv part l l' Hkv _ IH]; [done|]. unfold simple_params in Hs. cbn [forallb] in Hs |- *.
    apply andb_true_iff in Hs as [Hs1 Hs2]. rewrite IH by done. rewrite serialize_param in Hkv by done.
    by destruct (plain_param kv). }
  destruct Hp as [ps Hp]. exists ps. split; [done|]. rewrite (serializeSigParams_plain p ps) in H by done. by injection H as <-.
Qed.

Lemma base_plain msg p base : simple_signature p -> signature_base msg p = Ok base -> exists ps, plain_signature p ps.
Proof.
  intros Hs ([] & Hv & (lines & _ & (text & Ht & _)%bind_Ok)%bind_Ok)%bind_Ok.
  destruct (serialized_plain p text Hs Hv Ht) as (ps & Hp & _). by exists ps.
Qed.

Lemma component_line_plain msg c l : plain_item (component_item c) = true -> component_line msg c = Ok l ->
  exists v, extractComponentValue msg c = Ok v /\ l = sf_item (component_item c) ++ js ": " ++ v.
Proof.
  intros Hc (name & Hn & (v & Hv & [= <-])%bind_Ok)%bind_Ok. unfold serializeComponentIdentifier in Hn.
  rewrite rfc_item in Hn by by apply plain_item_simple. unfold component_item in Hc. rewrite Hc in Hn. injection Hn as <-.
  by exists v.
Qed.

(** No value of a covered component has a line break. *)
Definition clean_values (msg : HttpMessage) (p : SignatureParams) : Prop :=
  forall c v, c ∈ components p -> extractComponentValue msg c = Ok v -> is_clean v = true.

Definition base_last (text : jsstr) : jsstr := 34 :: js "@signature-params" ++ 34 :: js ": " ++ text.

Lemma signature_base_plain msg p ps base : plain_signature p ps -> signature_base msg p = Ok base ->
  exists lines, base = JsString.join [10] (lines ++ [base_last (sig_text p ps)])
    /\ Forall2 (fun c l => exists v, extractComponentValue msg c = Ok v /\ l = sf_item (component_item c) ++ js ": " ++ v)
         (components p) lines.
Proof.
  intros Hp ([] & _ & (lines & Hl & H)%bind_Ok)%bind_Ok. rewrite (serializeSigParams_plain p ps) in H by done.
  injection H as <-. exists lines. split; [done|]. apply map_res_Forall2 in Hl.
  destruct Hp as [Hc _ _]. revert Hc. induction Hl as [|c l cs ls Hl _ IH]; [done|].
  cbn [map forallb]. intros [Hc Hcs]%andb_true_iff. constructor; [by apply component_line_plain|by apply IH].
Qed.

Lemma base_lines_clean msg p ps lines : plain_signature p ps -> clean_values msg p ->
  Forall2 (fun c l => exists v, extractComponentValue msg c = Ok v /\ l = sf_item (component_item c) ++ js ": " ++ v)
    (components p) lines ->
  Forall (fun l => is_clean l = true) (lines ++ [base_last (sig_text p ps)]).
Proof.
  intros Hp Hv Hl. apply Forall_app. split.
  - destruct Hp as [Hc _ _]. unfold clean_values in Hv. revert Hc Hv.
    induction Hl as [|c l cs ls (v & He & ->) _ IH]; [done|]. cbn [map forallb]. intros [Hc Hcs]%andb_true_iff Hv.
    constructor; [|apply IH; [done|]; intros c' v' Hin; apply Hv; by apply list_elem_of_further].
    rewrite !clean_app, (sf_item_clean _ Hc). apply (Hv c v); [apply list_elem_of_here|done].
  - apply Forall_singleton. unfold base_last. change (34 :: ?a ++ 34 :: ?b ++ ?x) with (([34] ++ a ++ [34]) ++ b ++ x).
    rewrite !clean_app, (sig_text_clean p ps Hp). done.
Qed.

Lemma base_last_inj a b : base_last a = base_last b -> a = b.
Proof. unfold base_last. intros H. by simplify_list_eq. Qed.

(** The text determines the components and the parameters: it parses. *)
Lemma sig_text_inj p q ps qs : plain_signature p ps -> plain_signature q qs -> sig_text p ps = sig_text q qs ->
  map component_item (components p) = map component_item (components q) /\ ps = qs.
Proof.
  intros [Hc _ Hp] [Hd _ Hq] E. unfold sig_text in E.
  pose proof (parseSignatureParameterOccurrences_plain _ _ Hc Hp) as H1. rewrite E in H1.
  rewrite (parseSignatureParameterOccurrences_plain _ _ Hd Hq) in H1. injection H1 as ->. split; [|done].
  apply app_inv_tail in E.
  pose proof (rfc_parse_inner_list (js "x") _ [] ltac:(done) Hc ltac:(done)) as H1.
  pose proof (rfc_parse_inner_list (js "x") _ [] ltac:(done) Hd ltac:(done)) as H2. rewrite E, H2 in H1. by injection H1.
Qed.

(** C7: The signature base determines what is signed: two messages with the same base have
    the same covered components, in the same order and with the same parameters, the same
    signature parameters, and the same value of every covered component.  So a signature of a
    request is none of a request with another method, target or digest, nor of a response,
    whatever quotes and backslashes the strings have.  The parameters are strings, integers,
    booleans or byte sequences, and those of a component have distinct names, as the keys of
    an object; the values of the components are those of parsed messages: they have no line
    breaks, and no units from U+D800 on. *)
Theorem signature_base_binds m1 m2 p q b :
  simple_signature p -> simple_signature q -> clean_values m1 p -> clean_values m2 q ->
  buildSignatureInput m1 p = Ok b -> buildSignatureInput m2 q = Ok b ->
  map component_item (components p) = map component_item (components q)
  /\ signatureParameterList p = signatureParameterList q
  /\ Forall2 (fun c d => extractComponentValue m1 c = extractComponentValue m2 d) (components p) (components q).
Proof.
  intros Sp Sq Hv1 Hv2 (b1 & H1 & [= <-])%bind_Ok (b2 & H2 & [= E])%bind_Ok.
  destruct (base_plain m1 p b1 Sp H1) as [ps Hp]. destruct (base_plain m2 q b2 Sq H2) as [qs Hq].
  apply (signature_base_plain m1 p ps) in H1 as (l1 & -> & Hl1); [|done].
  apply (signature_base_plain m2 q qs) in H2 as (l2 & -> & Hl2); [|done].
  pose proof (base_lines_clean m1 p ps l1 Hp Hv1 Hl1) as Hc1. pose proof (base_lines_clean m2 q qs l2 Hq Hv2 Hl2) as Hc2.
  apply utf8_encode_inj in E; try by apply low_units, clean_join.
  apply (f_equal (split_on 10)) in E.
  assert (Hlf : forall ls, Forall (fun l => is_clean l = true) ls -> Forall (fun l => 10 ∉ l) ls).
  { intros ls Hls. eapply Forall_impl; [exact Hls|]. apply clean_no_lf. }
  rewrite !split_join in E by first [by apply Hlf|by intros [_ ?]%app_eq_nil].
  apply app_inj_tail in E as [-> Et%base_last_inj%eq_sym].
  destruct (sig_text_inj p q ps qs Hp Hq Et) as [Ec ->]. split; [done|].
  split; [by rewrite (pl_parameters _ _ Hp), (pl_parameters _ _ Hq)|].
  revert Ec Hl2. generalize (components q). clear Hv1 Hc1 Hc2 Hp Sp. induction Hl1 as [|c l cs ls (v & He & ->) _ IH]; intros ds Ec Hl2.
  - apply Forall2_nil_inv_r in Hl2 as ->. constructor.
  - apply Forall2_cons_inv_r in Hl2 as (d & ds' & (w & Hd & Ew) & Hds & ->). cbn [map] in Ec.
    assert (component_item c = component_item d /\ map component_item cs = map component_item ds') as [Ei Es] by (split; congruence).
    constructor; [|by apply IH]. rewrite Ei in Ew. apply app_inv_head, app_inv_head in Ew. congruence.
Qed.

End Base.
