(* ===== verification/HttpRoundTrip.v ===== *)
(** What a profile signs, another profile accepts ([createSignedHttpRequest] and
    [verifySignedHttpRequest]). *)

From S2P Require Import Prelude Effects JsString Base64 Sha256 Url Utils Json Jwk Lifecycle Budget.
From S2P Require Import Verification HttpMessages SignatureFields HttpSignatures ProfileRules HttpSafety PlainFields FieldText HttpBase.

(** ** UTF-8 of clean texts *)

Definition is_low_unit (u : Z) : bool := (0 <=? u) && (u <? 55296).

Lemma utf8_lossy_low u r : is_low_unit u = true -> utf8_lossy None (map b2z (utf8_scalar u) ++ r) = u :: utf8_lossy None r.
Proof.
  unfold is_low_unit. intros Hu. unfold utf8_scalar.
  destruct (u <? 128) eqn:E1; [|destruct (u <? 2048) eqn:E2; [|replace (u <? 65536) with true by lia]];
    cbn [map app utf8_lossy]; rewrite !b2z_z2b_small by divmod_lia; unfold lossy_start.
  - by rewrite E1.
  - rewrite (proj2 (Z.ltb_ge _ _)) by divmod_lia.
    replace ((194 <=? 192 + u / 64) && (192 + u / 64 <? 224)) with true by divmod_lia. cbn [app].
    replace ((128 <=? 128 + u mod 64) && (128 + u mod 64 <=? 191)) with true by divmod_lia.
    cbn [Z.eqb Pos.eqb]. unfold units_of_scalar.
    replace ((192 + u / 64 - 192) * 64 + (128 + u mod 64 - 128)) with u by divmod_lia.
    by replace (u <? 65536) with true by lia.
  - rewrite (proj2 (Z.ltb_ge _ _)) by divmod_lia.
    replace ((194 <=? 224 + u / 4096) && (224 + u / 4096 <? 224)) with false by divmod_lia.
    replace ((224 <=? 224 + u / 4096) && (224 + u / 4096 <? 240)) with true by divmod_lia. cbn [app].
    replace (((if 224 + u / 4096 =? 224 then 160 else 128) <=? 128 + u / 64 mod 64)
             && (128 + u / 64 mod 64 <=? (if 224 + u / 4096 =? 237 then 159 else 191))) with true
      by (destruct (224 + u / 4096 =? 224) eqn:?, (224 + u / 4096 =? 237) eqn:?; divmod_lia).
    cbn [Z.eqb Pos.eqb Z.sub Z.add Z.opp Z.pos_sub Pos.pred_double].
    replace ((128 <=? 128 + u mod 64) && (128 + u mod 64 <=? 191)) with true by divmod_lia.
    cbn [Z.eqb Pos.eqb]. unfold units_of_scalar.
    replace (((224 + u / 4096 - 224) * 64 + (128 + u / 64 mod 64 - 128)) * 64 + (128 + u mod 64 - 128)) with u by divmod_lia.
    by replace (u <? 65536) with true by lia.
Qed.

Lemma text_decode_encode s : forallb is_low_unit s = true -> text_decode (utf8_encode s) = s.
Proof.
  intros H. unfold text_decode. assert (utf8_lossy None (map b2z (utf8_encode s)) = s) as ->.
  { induction s as [|u s IH]; [done|]. cbn [forallb] in H. apply andb_true_iff in H as [Hu Hs].
    assert (utf8_encode (u :: s) = utf8_scalar u ++ utf8_encode s) as ->.
    { cbn [utf8_encode]. unfold is_low_unit, is_high, is_low in *.
      replace ((55296 <=? u) && (u <=? 56319)) with false by lia.
      by replace ((56320 <=? u) && (u <=? 57343)) with false by lia. }
    rewrite map_app, utf8_lossy_low, IH by done. done. }
  destruct s as [|u s]; [done|]. cbn [forallb] in H. apply andb_true_iff in H as [Hu _]. unfold is_low_unit in Hu.
  destruct (Z.eq_dec u 65279) as [->|Hne]; [done|].
  destruct u as [|p|p]; try done. repeat (destruct p as [p|p|]; try done).
Qed.

(** ** What signing has done *)

Section Signing.
Context `{Url : URLApi} `{Uni : Unicode} `{Jwk : JwkApi} `{H256 : Hash256} `{SF : StructuredFields} (env : Environment).
Context (p : HttpSignaturesProfile) (opts : HttpSigningOptions).

Notation returning := (@returning event exn _).
Notation added := (default [] (so_additionalComponents opts)).

Definition base_components (content : option bytes) : list ComponentIdentifier :=
  DEFAULT_COMPONENTS ++ match content with Some _ => [CName (js "content-digest")] | None => [] end.

(** The parameters of the signature, made at the time [ms]. *)
Definition signing_params (covered : list ComponentIdentifier) (kid httpAlg nonce : jsstr) (ms : Z) : SignatureParams :=
  {| label := default DEFAULT_HTTP_SIGNATURE_LABEL (so_label opts); components := covered;
     keyId := Some (pf_domain p ++ 35 :: kid); alg := Some httpAlg; created := Some (NInt (ms / 1000));
     expires := (fun n => NInt (ms / 1000 + integer_of n)) <$> so_expiresInSeconds opts;
     SignatureFields.nonce := Some nonce; tag := so_tag opts; sp_parameters := None |}.

(** The request that is signed: with the digest of its content. *)
Record signed_request (req signed : Request) : Prop := {
  sr_key : exists kp key kid t, env_signingKey env t kp = Ok key /\ as_str (get key "kid") = Some kid
    /\ exists content covered jose httpAlg raw nonce_bytes now_at h h1 h2 input text,
      (forall c, content = Some c -> zlen c <= MAX_HTTP_CONTENT_BYTES) /\ (content = None -> rq_body req = None)
      /\ h = match content with
             | Some c => headers_set (rq_headers req) (js "Content-Digest") (digest_value c)
             | None => Ok (rq_headers req)
             end
      /\ add_components added (base_components content) = Ok covered
      /\ check_expiry (pf_config p) (so_expiresInSeconds opts) = Ok tt
      /\ jwkSignatureAlg key = Ok jose /\ joseAlgToHttpSigAlg jose = Ok httpAlg
      /\ let params := signing_params covered kid httpAlg (toBase64Url nonce_bytes) (env_now env now_at) in
         h ≫= (fun h0 => buildSignatureInput (Alone (MRequest (mkRequest (rq_method req) (rq_url req) h0 (content ≫= body_of) false))) params) = Ok input
         /\ verifyWithKey input raw key (Some jose) = true
         /\ serializeSigParams params = Ok text
         /\ h ≫= (fun h0 => setDictionaryMember h0 (js "Signature-Input") (label params) text) = Ok h1
         /\ setDictionaryMember h1 (js "Signature") (label params) (58 :: btoa raw ++ [58]) = Ok h2
         /\ signed = mkRequest (rq_method req) (rq_url req) h2 (content ≫= body_of) false
}.

Lemma signRequest_spec req t : so_responseSignature opts = None ->
  returning (signRequest env p req opts) t (fun signed _ => signed_request req signed).
Proof.
  intros Hno. unfold signRequest. rewrite Hno. step. step. step. step. intros kp _. step.
  apply returning_ask. intros key Hkey. step. step. intros kid (k & Hkid%of_option_Ok & Hh)%bind_Ok.
  apply bind_Ok in Hh as ([] & _ & [= ->]). step.
  assert (Hcontent : returning match rq_body req with
      | Some _ => b ← readBoundedBody env (MRequest req) MAX_HTTP_CONTENT_BYTES; mret (Some b)
      | None => mret None
      end (t ++ [ESigningKey kp (Ok key)])
      (fun content _ => (forall c, content = Some c -> zlen c <= MAX_HTTP_CONTENT_BYTES) /\ (content = None -> rq_body req = None))).
  { destruct (rq_body req) as [b|] eqn:Eb; [|by step]. step. unfold readBoundedBody. step. step. step. intros _. step. rewrite Eb.
    eapply returning_mono; [by apply read_chunks_spec|]. intros c t1 _ (_ & -> & Hl). step. split; [|done].
    by intros c' [= <-]. }
  eapply returning_mono; [exact Hcontent|]. clear Hcontent. intros content t1 _ [Hsize Hnone].
  step. eapply (returning_mono _ _ (fun h0 _ => match content with
      | Some c => headers_set (rq_headers req) (js "Content-Digest") (digest_value c)
      | None => Ok (rq_headers req) end = Ok h0)); [destruct content; step; [by intros|done]|].
  intros h0 t2 _ Hh0. step. step. intros covered Hcov. step. apply returning_call_at. step. step. intros [] Hexp.
  step. step. intros jose Hjose. step. step. intros httpAlg Halg. step. cbn [generateNonce NONCE_BYTES]. step. step. intros _.
  step. apply returning_call_at. step. step. rewrite Hno. step. step. unfold signHttpMessage. step. step. step. step. intros input Hinput.
  step. apply returning_ask. intros raw _. step. step. intros a Ha. step. step. intros Hver%negb_false_iff.
  step. step. intros text Htext. step. step. intros h1 Hh1. step. step. intros h2 Hh2.
  rewrite Hjose in Ha. injection Ha as <-.
  cbn [asMessage fst message_headers] in *. unfold rebuildRequest in *. cbn [rq_bodyUsed rq_body rq_headers] in *.
  assert (Hb : returning (whole_body false (content ≫= body_of)) (((t2 ++ [ENow (env_now env t2)]) ++
      [ERandom (env_random env (t2 ++ [ENow (env_now env t2)]) 32)]) ++ [ESign kp input (Ok raw)])
      (fun body _ => body = content ≫= body_of)).
  { destruct content as [c|]; [|by apply returning_ret]. apply returning_bind, returning_check. intros _.
    apply returning_ret. cbn. by rewrite app_nil_r. }
  assert (Hm : match content ≫= (fun b => body_of b) with Some _ => content ≫= (fun b => body_of b) | None => rq_body req end
               = content ≫= body_of) by (destruct content; [done|by apply Hnone]).
  rewrite Hm in *. step. eapply returning_mono; [exact Hb|]. intros body t3 _ ->. step. step. step. step.
  split. exists kp, key, kid, t. split; [done|]. split; [done|].
  exists content, covered, jose, httpAlg, raw. eexists _, t2, _, h1, h2, input, text.
  split; [exact Hsize|]. split; [exact Hnone|]. split; [reflexivity|]. rewrite Hh0. split_and!; try done.
  cbn. f_equal. f_equal. by destruct content.
Qed.

End Signing.

(** ** What the fields of a signed request parse to *)

(** The component as its item parses. *)
Definition canon (c : ComponentIdentifier) : ComponentIdentifier :=
  match componentParams c with [] => CName (componentName c) | ps => CObject (componentName c) (Some ps) end.

Lemma canon_name c : componentName (canon c) = componentName c.
Proof. unfold canon. by destruct (componentParams c). Qed.
Lemma canon_params c : componentParams (canon c) = componentParams c.
Proof. unfold canon. by destruct (componentParams c) eqn:E. Qed.
Lemma canon_item c : component_item (canon c) = component_item c.
Proof. unfold component_item. by rewrite canon_name, canon_params. Qed.
Lemma canon_same a b : sameComponent (canon a) (canon b) = sameComponent a b.
Proof. unfold sameComponent. by rewrite !canon_name, !canon_params. Qed.
Lemma canon_validate c : validateComponentIdentifier (canon c) = validateComponentIdentifier c.
Proof. unfold validateComponentIdentifier. by rewrite canon_name, canon_params. Qed.
Lemma canon_req c : req_true (canon c) = req_true c.
Proof. unfold req_true. by rewrite canon_params. Qed.

Lemma fromStructuredParams_to ps : forallb plain_param (toStructuredParams ps) = true ->
  fromStructuredParams (toStructuredParams ps) = Ok ps.
Proof.
  unfold toStructuredParams, fromStructuredParams. induction ps as [|[k v] ps IH]; [done|]. cbn [map forallb fst snd].
  intros [[_ Hv]%andb_true_iff Hp]%andb_true_iff. cbn [map_res]. rewrite IH by done.
  destruct v as [s|[]|b]; done.
Qed.

Lemma parseComponentItem_canon c : plain_item (component_item c) = true -> parseComponentItem (component_item c) = Ok (canon c).
Proof.
  unfold plain_item, component_item. cbn [fst snd]. intros [_ [Hp _]%plain_params_wf]%andb_true_iff.
  unfold parseComponentItem. rewrite fromStructuredParams_to by done. cbn. unfold canon. by destruct (componentParams c).
Qed.

Lemma parse_components_canon l : forallb plain_item (map component_item l) = true ->
  map_res parseComponentItem (map component_item l) = Ok (map canon l).
Proof.
  induction l as [|c l IH]; [done|]. cbn [map forallb]. intros [Hc Hl]%andb_true_iff. cbn [map_res].
  by rewrite parseComponentItem_canon, IH.
Qed.

Section Fields.
Context `{Url : URLApi} `{SF : StructuredFields}.

Lemma validate_canon seen l : validate_after seen l = Ok tt -> validate_after (map canon seen) (map canon l) = Ok tt.
Proof.
  revert seen. induction l as [|c l IH]; [done|]. intros seen. cbn [validate_after map]. rewrite canon_validate.
  intros ([] & -> & ([] & Hd & H)%bind_Ok)%bind_Ok. cbn [mbind res_bind].
  assert (existsb (fun s => sameComponent s (canon c)) (map canon seen) = existsb (fun s => sameComponent s c) seen) as ->.
  { clear. induction seen as [|s seen IH]; [done|]. cbn. by rewrite canon_same, IH. }
  destruct (existsb _ seen); [by apply bind_Ok in Hd as (? & _ & [=])|]. specialize (IH (seen ++ [c]) H). by rewrite map_app in IH.
Qed.

Lemma extract_canon msg c : extractComponentValue msg (canon c) = extractComponentValue msg c.
Proof. unfold extractComponentValue. by rewrite canon_validate, canon_req, canon_name, canon_params. Qed.

Lemma serialize_canon c : serializeComponentIdentifier (canon c) = serializeComponentIdentifier c.
Proof. unfold serializeComponentIdentifier. by rewrite canon_name, canon_params. Qed.

(** The value of a component is that of a request with more fields. *)
Lemma extract_more_fields r1 r2 c v : rq_method r1 = rq_method r2 -> rq_url r1 = rq_url r2 ->
  (forall name w, headers_get (rq_headers r1) name = Some w -> headers_get (rq_headers r2) name = Some w) ->
  extractComponentValue (Alone (MRequest r1)) c = Ok v -> extractComponentValue (Alone (MRequest r2)) c = Ok v.
Proof.
  intros Hm Hu Hh. unfold extractComponentValue. intros ([] & -> & H)%bind_Ok. cbn [mbind res_bind asMessage] in *.
  apply bind_Ok in H as ([] & Ht & H). cbn [as_response is_none orb andb] in *. rewrite Ht. cbn [mbind res_bind].
  apply throw_if_Ok in Ht. rewrite andb_true_r in Ht. rewrite Ht in *. cbn [of_option mbind res_bind as_request] in *.
  rewrite <-Hu. destruct (new_URL (rq_url r1)) as [u|]; [|done]. cbn [of_option mbind res_bind] in *.
  destruct (is_request_component _).
  - revert H. unfold derived_value. by rewrite Hm.
  - destruct (bool_decide _); [done|]. cbn [message_headers] in *. unfold field_value in *.
    apply bind_Ok in H as (w & Hw%of_option_Ok & H). by rewrite (Hh _ _ Hw).
Qed.

(** ** The parameters of a profile *)

Definition verified_params (s : SignatureParams) (ps : parameters) : SignatureParams :=
  mkSignatureParams (label s) (map canon (components s)) (keyId s) (alg s) (created s) (expires s) (nonce s) (tag s) (Some ps).

(** The parameters as signing makes them: all present but the expiry and the tag. *)
Definition signing_parameters (k a n : jsstr) (c : Z) (e : option Z) (t : option jsstr) : parameters :=
  [(js "keyid", BString k); (js "alg", BString a); (js "created", BNumber (NInt c)); (js "nonce", BString n)]
  ++ match e with Some e => [(js "expires", BNumber (NInt e))] | None => [] end
  ++ match t with Some t => [(js "tag", BString t)] | None => [] end.

Lemma signing_parameters_distinct k a n c e t : distinct (map fst (signing_parameters k a n c e t)) = true.
Proof. destruct e, t; reflexivity. Qed.

Lemma check_signing_parameters k a n c e t :
  check_parameters [] (signing_parameters k a n c e t) = Ok (signing_parameters k a n c e t).
Proof. destruct e, t; reflexivity. Qed.

Lemma apply_signing_parameters l cs k a n c e t ps :
  applySignatureInputParams (mkSignatureParams l cs None None None None None None ps) (signing_parameters k a n c e t)
  = Ok (mkSignatureParams l cs (Some k) (Some a) (Some (NInt c)) (NInt <$> e) (Some n) t ps).
Proof. destruct e, t; reflexivity. Qed.

End Fields.

(** ** Fields that are set *)

Lemma http_space_space u : is_space u = false -> is_http_space u = false.
Proof. unfold is_space, is_http_space. lia. Qed.

Lemma normalize_trimmed s : trimmed s -> normalize_value s = s.
Proof.
  intros [H (t & u & -> & Hu)]. unfold normalize_value.
  destruct (t ++ [u]) as [|w l] eqn:E; [done|]. cbn [dropWhile]. rewrite (http_space_space _ H), <-E, rev_app_distr. cbn.
  by rewrite (http_space_space _ Hu), <-rev_involutive, rev_app_distr.
Qed.

Lemma headers_set_trimmed h name value h' : trimmed value -> headers_set h name value = Ok h' -> h' = <[toLowerAscii name := value]> h.
Proof. intros Ht. unfold headers_set. rewrite normalize_trimmed by done. by intros ([] & _ & [= <-])%bind_Ok. Qed.

Lemma setDictionaryMember_fresh `{SF : StructuredFields} h name lbl value h' : headers_get h name = None ->
  trimmed (lbl ++ 61 :: value) -> setDictionaryMember h name lbl value = Ok h' ->
  h' = <[toLowerAscii name := lbl ++ 61 :: value]> h.
Proof.
  intros Hn Ht [H|(e & _ & [=])]%catch_Ok. apply bind_Ok in H as (d & _ & H). apply bind_Ok in H as ([] & _ & H).
  rewrite Hn in H. by eapply headers_set_trimmed.
Qed.

Lemma zlen_btoa_digest `{H256 : Hash256} l : zlen (btoa (digest l)) = 44.
Proof.
  assert (Hl : zlen (digest l) = 32) by (unfold zlen; by rewrite digest_length).
  unfold btoa. rewrite zlen_app. unfold zlen at 1. rewrite length_map. fold (zlen (sextets (digest l))).
  by rewrite length_sextets, Hl.
Qed.

(** A label that is set is a key. *)
Lemma setDictionaryMember_key `{SF : StructuredFields} `{Laws : !Rfc8941} h name lbl value h' :
  setDictionaryMember h name lbl value = Ok h' -> is_key lbl = true.
Proof.
  intros [H|(e & _ & [=])]%catch_Ok. apply bind_Ok in H as (d & Hd%of_option_Ok & H). apply bind_Ok in H as ([] & Ht%throw_if_Ok & _).
  apply orb_false_iff in Ht as [_ Hg]. apply rfc_parse_keys in Hd. rewrite forallb_forall in Hd.
  destruct (map_get lbl d) as [m|] eqn:E; [|done]. apply map_get_elem, list_elem_of_In in E. exact (Hd _ E).
Qed.

Lemma sameComponent_refl c : validateComponentIdentifier c = Ok tt -> named_once c -> sameComponent c c = true.
Proof.
  intros Hv Hd. pose proof (validated_simple c Hv Hd) as Hs. unfold simple_item, component_item in Hs. cbn [fst snd] in Hs.
  unfold sameComponent. rewrite bool_decide_eq_true_2, Nat.eqb_refl by done. cbn [andb]. apply forallb_forall. intros [k v] Hin.
  rewrite (map_get_unique _ k v Hd) by by apply list_elem_of_In.
  rewrite !andb_true_iff in Hs. destruct Hs as [[_ Hs] _]. unfold simple_params in Hs. rewrite forallb_forall in Hs.
  assert (Hb : simple_bare (of_param v) = true).
  { apply (Hs (k, of_param v)). apply in_map_iff. by exists (k, v). }
  destruct v as [s|[z| | | |]|[]]; try done; cbn; by rewrite bool_decide_eq_true_2.
Qed.

Lemma add_components_spec added base covered : add_components added base = Ok covered ->
  exists more, covered = base ++ more /\ (forall c, c ∈ more -> c ∈ added) /\ (length more <= length added)%nat
    /\ forall c, c ∈ added -> named_once c -> existsb (fun d => sameComponent d c) covered = true.
Proof.
  unfold add_components. revert base. induction added as [|c added IH]; intros base; cbn [for_each].
  - intros [= <-]. exists []. rewrite app_nil_r. split; [done|]. split; [by intros c ?%elem_of_nil|]. split; [done|].
    by intros c ?%elem_of_nil.
  - intros (covered1 & ([] & Hval & [= <-])%bind_Ok & H)%bind_Ok. apply IH in H as (more & -> & Hin & Hl & Hall).
    destruct (existsb _ base) eqn:Ec.
    + exists more. split; [done|]. split; [intros d Hd; apply list_elem_of_further; by apply Hin|]. split; [cbn; lia|].
      intros d [->|Hd]%elem_of_cons Hn; [by rewrite existsb_app, Ec|by apply Hall].
    + exists (c :: more). rewrite <-app_assoc in *. split; [done|]. split; [|split; [cbn; lia|]].
      * intros d [->|Hd]%elem_of_cons; [apply list_elem_of_here|apply list_elem_of_further; by apply Hin].
      * intros d [->|Hd]%elem_of_cons Hn; [|by apply Hall].
        rewrite !existsb_app. cbn. rewrite sameComponent_refl by done. by rewrite orb_true_r.
Qed.

(** ** Runs of the verifier *)

Section Delivers.
Context `{Url : URLApi} `{Uni : Unicode} `{Jwk : JwkApi} `{H256 : Hash256} `{SF : StructuredFields} (env : Environment).
Context (p : HttpSignaturesProfile) (opts : HttpVerificationOptions).

Context (Hun : undisturbed env (vo_timeoutMs opts)).

Lemma delivers_read c : zlen c <= MAX_HTTP_CONTENT_BYTES -> delivers (read_chunks env MAX_HTTP_CONTENT_BYTES false [] [c]) c.
Proof.
  intros Hc. cbn [read_chunks app]. eapply delivers_bind; [eapply delivers_wait; [exact Hun|apply delivers_ret]|].
  eapply delivers_bind; [apply delivers_check; change (zlen []) with 0; lia|].
  eapply delivers_bind; [eapply delivers_wait; [exact Hun|by apply delivers_check]|apply delivers_ret].
Qed.

Lemma delivers_fresh s : (forall t, timely p (integer_of (default NNaN (created s))) (integer_of <$> expires s) (env_now env t / 1000)) ->
  delivers (checkFreshness env p s) tt.
Proof.
  intros H. apply delivers_call. intros t. destruct (H t) as [H1 H2 H3].
  eapply delivers_bind; [apply delivers_check; lia|]. eapply delivers_bind; [apply delivers_check; lia|].
  destruct (integer_of <$> expires s) as [e|]; [|apply delivers_ret].
  eapply delivers_bind; [apply delivers_check; lia|]. eapply delivers_bind; [apply delivers_check; lia|]. apply delivers_check. lia.
Qed.

End Delivers.

Section RoundTrip.
Context `{Url : URLApi} `{Uni : Unicode} `{Jwk : JwkApi} `{H256 : Hash256} `{SF : StructuredFields} `{Laws : !Rfc8941}.
(** The signer with its options, and the verifier with its options. *)
Context (envS envV : Environment) (ps pv : HttpSignaturesProfile).
Context (opts : HttpSigningOptions) (vopts : HttpVerificationOptions) (v : VerifiedIdentity).

Notation added := (default [] (so_additionalComponents opts)).

(** The signer's keys are those of the identity [v], under their [kid], and its key
    identifiers parse; it adds at most 60 components, whose parameters have distinct names,
    and it adds [content-digest] only to a request with content, and only for SHA-256. *)
Record signer_ready (req : Request) : Prop := {
  sg_key : forall t kp key kid, env_signingKey envS t kp = Ok key -> as_str (get key "kid") = Some kid ->
    parseKeyId (pf_domain ps ++ 35 :: kid) = Ok (pf_domain ps, kid) /\ keyById (vi_jwks v) kid = Some key;
  sg_added : forall c, c ∈ added -> named_once c;
  sg_digest : forall c, c ∈ added -> componentName c = js "content-digest" ->
    rq_body req <> None /\ unsupported_digest_member c = false;
  sg_few : (length added <= 60)%nat;
  sg_plain_mode : so_responseSignature opts = None
}.

(** The verifier resolves the signer's domain to [v], its clock is near, and it requires
    only components that are signed, and the tag, if any, that is signed. *)
Record verifier_ready (req : Request) : Prop := {
  vf_undisturbed : undisturbed envV (vo_timeoutMs vopts);
  vf_resolves : forall t, env_verifyDomain envV t (pf_domain ps) (vo_peerCert vopts) = Ok v;
  vf_fresh : forall ts tv, let now := env_now envS ts / 1000 in
    timely pv now ((fun n => now + integer_of n) <$> so_expiresInSeconds opts) (env_now envV tv / 1000);
  vf_components : forall l c, vo_requiredComponents vopts = Some l -> c ∈ l ->
    c ∈ DEFAULT_COMPONENTS \/ c ∈ added \/ (c = CName (js "content-digest") /\ rq_body req <> None);
  vf_tag : forall tg, vo_requiredTag vopts = Some tg -> so_tag opts = Some tg
}.

(** The signature fields fit their bound, and the values of the components have no line
    breaks, and no units from U+D800 on. *)
Record fits (signed : Request) : Prop := {
  ft_input : forall h, headers_get (rq_headers signed) (js "Signature-Input") = Some h -> zlen h <= MAX_HEADER_LENGTH;
  ft_signature : forall h, headers_get (rq_headers signed) (js "Signature") = Some h -> zlen h <= MAX_HEADER_LENGTH;
  ft_clean : forall c w, c ∈ DEFAULT_COMPONENTS ++ [CName (js "content-digest")] ++ added ->
    extractComponentValue (Alone (MRequest signed)) c = Ok w -> is_clean w = true
}.

Definition unsigned (req : Request) : Prop :=
  headers_get (rq_headers req) (js "Signature-Input") = None /\ headers_get (rq_headers req) (js "Signature") = None.

(** What the fields of the signed request say. *)
Record signed_fields (req signed : Request) (s : SignatureParams) (raw : bytes) (key : jwk) (kid : jsstr) : Prop := {
  sf_inputs : exists h, headers_get (rq_headers signed) (js "Signature-Input") = Some h /\ h <> [] /\ parseSignatureInput h = Ok [(label s, s)];
  sf_signatures : exists h, headers_get (rq_headers signed) (js "Signature") = Some h /\ h <> [] /\ parseSignature h = Ok [(label s, raw)];
  sf_keyid : keyId s = Some (pf_domain ps ++ 35 :: kid);
  sf_known : parseKeyId (pf_domain ps ++ 35 :: kid) = Ok (pf_domain ps, kid) /\ keyById (vi_jwks v) kid = Some key;
  sf_time : exists t, created s = Some (NInt (env_now envS t / 1000))
    /\ integer_of <$> expires s = (fun n => env_now envS t / 1000 + integer_of n) <$> so_expiresInSeconds opts;
  sf_tag : tag s = so_tag opts;
  sf_covers : forall c, c ∈ DEFAULT_COMPONENTS \/ c ∈ added -> covers s c = true;
  sf_body : rq_body signed = None -> rq_body req = None;
  sf_signed : exists jose httpAlg base, jwkSignatureAlg key = Ok jose /\ joseAlgToHttpSigAlg jose = Ok httpAlg
    /\ alg s = Some httpAlg /\ buildSignatureInput (Alone (MRequest signed)) s = Ok (utf8_encode base)
    /\ forallb is_low_unit base = true /\ verifyWithKey (utf8_encode base) raw key (Some jose) = true;
  sf_content : match rq_body signed with
    | None => hasComponentNamed (components s) (js "content-digest") = false
    | Some b => exists c, b = mkStream [c] false /\ rq_bodyUsed signed = false /\ zlen c <= MAX_HTTP_CONTENT_BYTES
        /\ covers s (CName (js "content-digest")) = true
        /\ headers_get (rq_headers signed) (js "Content-Digest") = Some (digest_value c)
        /\ existsb unsupported_digest_member (components s) = false
    end
}.

Lemma covers_name l s n : components s = map canon l -> CName n ∈ l -> covers s (CName n) = true.
Proof.
  intros E H. apply existsb_exists. exists (CName n). rewrite E. split.
  - apply in_map_iff. exists (CName n). split; [done|]. by apply list_elem_of_In.
  - unfold sameComponent. cbn. by rewrite bool_decide_eq_true_2.
Qed.

Lemma covers_canon l s c : components s = map canon l -> existsb (fun d => sameComponent d c) l = true -> covers s c = true.
Proof.
  intros E (d & Hd & Hs)%existsb_exists. apply existsb_exists. exists (canon d). rewrite E. split; [by apply in_map|].
  unfold sameComponent in *. by rewrite canon_name, canon_params.
Qed.

Lemma covers_named s n : covers s (CName n) = true -> hasComponentNamed (components s) n = true.
Proof.
  intros (c & Hc & Hs)%existsb_exists. apply existsb_exists. exists c. split; [done|].
  unfold sameComponent in Hs. by apply andb_true_iff in Hs as [[Hs _]%andb_true_iff _].
Qed.

(** What the verifier requires is covered. *)
Lemma required_covered req signed s raw key kid : verifier_ready req -> signed_fields req signed s raw key kid ->
  forallb (covers s) (default DEFAULT_COMPONENTS (vo_requiredComponents vopts)) = true.
Proof.
  intros Hv Hf. apply forallb_forall. intros c Hc%list_elem_of_In.
  assert (c ∈ DEFAULT_COMPONENTS \/ c ∈ added \/ (c = CName (js "content-digest") /\ rq_body req <> None)) as [H|[H|[-> Hb]]].
  { destruct (vo_requiredComponents vopts) as [l|] eqn:E; [by eapply (vf_components _ Hv)|by left]. }
  - by apply (sf_covers _ _ _ _ _ _ Hf); left.
  - by apply (sf_covers _ _ _ _ _ _ Hf); right.
  - pose proof (sf_content _ _ _ _ _ _ Hf) as Hcont. destruct (rq_body signed) eqn:E; [|by destruct Hb; apply (sf_body _ _ _ _ _ _ Hf)].
    by destruct Hcont as (? & _ & _ & _ & Hcov & _).
Qed.

Lemma candidate_delivers req signed s raw key kid : verifier_ready req -> signed_fields req signed s raw key kid ->
  delivers (verifySignatureCandidate envV pv signed s raw vopts) v.
Proof.
  intros Hvr Hsf. pose proof (required_covered _ _ _ _ _ _ Hvr Hsf) as Hreq. destruct Hvr as [Hun Hres Hfresh _ _].
  destruct Hsf as [_ _ Hk (Hp & Hkey) (ts & Hc & He) _ _ _ (jose & h & base & Hj & Hh & Ha & Hb & Hlow & Hv) Hcontent].
  unfold verifySignatureCandidate.
  eapply delivers_bind; [apply delivers_check; by apply negb_false_iff|].
  eapply (delivers_bind _ _ (pf_domain ps ++ 35 :: kid)); [apply delivers_lift; rewrite Hk; by destruct (pf_domain ps)|].
  rewrite Hc. eapply delivers_bind; [by apply delivers_check|].
  eapply (delivers_bind _ _ (pf_domain ps, kid)); [apply delivers_lift; by rewrite Hp|].
  eapply delivers_bind; [apply delivers_fresh; intros t; rewrite Hc, He; apply (Hfresh ts t)|].
  eapply delivers_bind; [eapply delivers_wait; [done|]; by apply delivers_ask|].
  eapply delivers_bind; [by apply delivers_lift, of_option_Ok|].
  eapply delivers_bind; [|].
  { unfold verify_body. destruct (rq_body signed) as [b|] eqn:Eb; cbn [is_none negb andb].
    - destruct Hcontent as (c & -> & Hu & Hsize & Hcov & Hd & Hun'). rewrite Hcov. rewrite (covers_named _ _ Hcov). cbn [negb].
      eapply delivers_bind; [by apply delivers_check|]. eapply delivers_bind; [by apply delivers_check|]. rewrite Hd.
      change (digest_value c) with (js "sha-256=:" ++ btoa (digest c) ++ [58]).
      eapply delivers_bind.
      { apply delivers_lift. apply parseSha256ContentDigest_bytes; [|done]. rewrite !zlen_app, zlen_btoa_digest. done. }
      eapply delivers_bind; [|apply delivers_check, negb_false_iff, constantTimeEqual_spec; reflexivity].
      unfold readBoundedBody. eapply delivers_bind; [|].
      { eapply delivers_bind; [by apply delivers_check|]. rewrite Eb. apply delivers_ret. }
      cbn. by eapply delivers_read.
    - rewrite Hcontent. eapply delivers_bind; [by apply delivers_check|]. apply delivers_ret. }
  eapply delivers_bind; [by apply delivers_lift|]. eapply delivers_bind; [by apply delivers_lift|].
  eapply delivers_bind; [apply delivers_check; rewrite Ha; destruct h; [done|by rewrite bool_decide_eq_true_2]|].
  eapply (delivers_bind _ _ (utf8_encode base)); [apply delivers_lift; by rewrite Hb|].
  eapply delivers_bind; [apply delivers_check, negb_false_iff|apply delivers_ret]. by rewrite text_decode_encode.
Qed.

Notation sp := (signing_params ps opts).

(** The parameters that signing makes, as values. *)
Definition made_parameters (kid httpAlg nonce : jsstr) (ms : Z) : parameters :=
  signing_parameters (pf_domain ps ++ 35 :: kid) httpAlg nonce (ms / 1000)
    ((fun n => ms / 1000 + integer_of n) <$> so_expiresInSeconds opts) (so_tag opts).

Lemma profile_parameters_made covered kid httpAlg nonce ms :
  profile_parameters (sp covered kid httpAlg nonce ms) = made_parameters kid httpAlg nonce ms.
Proof. unfold profile_parameters, made_parameters, signing_params. by destruct (so_expiresInSeconds opts), (so_tag opts). Qed.

Lemma made_simple kid httpAlg nonce ms : simple_params (made_parameters kid httpAlg nonce ms) = true.
Proof. unfold made_parameters. by destruct (so_expiresInSeconds opts), (so_tag opts). Qed.

Lemma covered_components req content covered : signer_ready req -> (content = None -> rq_body req = None) ->
  add_components added (base_components content) = Ok covered ->
  (forall c, c ∈ covered -> named_once c) /\ (length covered <= 64)%nat
  /\ (forall c, c ∈ covered -> c ∈ DEFAULT_COMPONENTS ++ [CName (js "content-digest")] ++ added)
  /\ (forall c, c ∈ base_components content -> c ∈ covered)
  /\ (forall c, c ∈ added -> existsb (fun d => sameComponent d c) covered = true)
  /\ (forall c, c ∈ covered -> componentName c = js "content-digest" -> unsupported_digest_member c = false /\ content <> None).
Proof.
  intros Hs Hnone (more & -> & Hin & Hlen & Hall)%add_components_spec. pose proof (sg_few _ Hs).
  assert (Hbase : forall c, c ∈ base_components content -> c ∈ DEFAULT_COMPONENTS \/ (c = CName (js "content-digest") /\ content <> None)).
  { unfold base_components. intros c [Hc|Hc]%elem_of_app; [by left|]. destruct content; [|by apply elem_of_nil in Hc].
    apply list_elem_of_singleton in Hc. by right. }
  assert (Hdef : forall c, c ∈ DEFAULT_COMPONENTS -> named_once c /\ componentName c <> js "content-digest").
  { intros c Hd. by repeat (apply elem_of_cons in Hd as [->|Hd]; [split; [constructor|done]|]); apply elem_of_nil in Hd. }
  split; [|split; [|split; [|split; [|split]]]].
  - intros c [Hc|Hc]%elem_of_app; [|by apply (sg_added _ Hs), Hin].
    destruct (Hbase c Hc) as [Hd|[-> _]]; [by apply Hdef|constructor].
  - rewrite length_app. unfold base_components. destruct content; cbn in *; lia.
  - intros c [Hc|Hc]%elem_of_app; rewrite !elem_of_app; [|right; right; by apply Hin].
    destruct (Hbase c Hc) as [?|[-> _]]; [by left|right; left; apply list_elem_of_here].
  - intros c Hc. rewrite elem_of_app. by left.
  - intros c Hc. apply Hall; [done|by apply (sg_added _ Hs)].
  - intros c [Hc|Hc]%elem_of_app Hn.
    + destruct (Hbase c Hc) as [Hd|[-> ?]]; [by destruct (Hdef c Hd)|done].
    + destruct (sg_digest _ Hs c (Hin c Hc) Hn) as [Hb Hu]. split; [done|]. intros E. by apply Hb, Hnone.
Qed.

Lemma verified_plain p0 psl : plain_signature p0 psl -> check_parameters [] psl = Ok psl -> plain_signature (verified_params p0 psl) psl.
Proof.
  intros [H1 H2 H3] Hck. split; [|done|done]. cbn [verified_params components]. rewrite map_map.
  by rewrite (map_ext _ component_item) by apply canon_item.
Qed.

(** The base of the request without the signature fields is that of the request with them. *)
Lemma same_base unsigned_ signed p0 psl input : plain_signature p0 psl -> sp_parameters p0 = None ->
  check_parameters [] psl = Ok psl -> profile_parameters p0 = psl ->
  rq_method unsigned_ = rq_method signed -> rq_url unsigned_ = rq_url signed ->
  (forall name w, headers_get (rq_headers unsigned_) name = Some w -> headers_get (rq_headers signed) name = Some w) ->
  buildSignatureInput (Alone (MRequest unsigned_)) p0 = Ok input ->
  buildSignatureInput (Alone (MRequest signed)) (verified_params p0 psl) = Ok input
  /\ validateComponents (map canon (components p0)) = Ok tt.
Proof.
  intros Hp0 Hno Hck Hpp Hm Hu Hh (base & Hb & [= <-])%bind_Ok. unfold buildSignatureInput, signature_base in *.
  apply bind_Ok in Hb as ([] & Hval & Hb). apply bind_Ok in Hb as (lines & Hl & Hb).
  assert (Hval' : validateComponents (map canon (components p0)) = Ok tt) by by apply (validate_canon []).
  split; [|done]. cbn [verified_params components]. rewrite Hval'. cbn [mbind res_bind].
  assert (map_res (component_line (Alone (MRequest signed))) (map canon (components p0)) = Ok lines) as ->.
  { apply map_res_Forall2 in Hl. apply map_res_Forall2. clear - Hl Hm Hu Hh. induction Hl as [|c l cs ls Hc _ IH]; [constructor|].
    cbn [map]. constructor; [|done]. unfold component_line in *. rewrite serialize_canon.
    apply bind_Ok in Hc as (n & -> & (w & Hw & [= <-])%bind_Ok). cbn [mbind res_bind]. rewrite extract_canon.
    by rewrite (extract_more_fields unsigned_ signed c w). }
  cbn [mbind res_bind]. rewrite (serializeSigParams_plain p0 psl) in Hb by done.
  rewrite (serializeSigParams_plain _ psl (verified_plain p0 psl Hp0 Hck)).
  assert (sig_text (verified_params p0 psl) psl = sig_text p0 psl) as ->.
  { unfold sig_text. cbn [verified_params components]. rewrite map_map. by rewrite (map_ext _ component_item) by apply canon_item. }
  by rewrite Hb.
Qed.

Lemma sig_text_trimmed p0 psl : plain_params psl = true -> trimmed (sig_text p0 psl).
Proof.
  intros Hp. unfold sig_text. split; [done|]. by apply sf_text_last.
Qed.

Lemma member_text key text : is_key key = true -> trimmed text ->
  trim (slice_from (key ++ 61 :: text) (indexOf (key ++ 61 :: text) [61] + 1)) = text.
Proof.
  intros (_ & Hk & _)%key_wf Ht. rewrite indexOf_app by by apply (forallb_not_elem is_parameter_unit).
  unfold slice_from. replace (Z.to_nat (zlen key + 1)) with (length (key ++ [61])) by (rewrite length_app; unfold zlen; cbn; lia).
  change (61 :: text) with ([61] ++ text). rewrite app_assoc, drop_app_length. by apply trim_trimmed.
Qed.

Lemma parse_signed_input p0 psl k a n c e t : is_key (label p0) = true ->
  forallb plain_item (map component_item (components p0)) = true -> (length (components p0) <= 64)%nat ->
  validateComponents (map canon (components p0)) = Ok tt ->
  psl = signing_parameters k a n c e t -> plain_params psl = true ->
  zlen (label p0 ++ 61 :: sig_text p0 psl) <= MAX_HEADER_LENGTH ->
  parseSignatureInput (label p0 ++ 61 :: sig_text p0 psl)
  = Ok [(label p0, mkSignatureParams (label p0) (map canon (components p0)) (Some k) (Some a) (Some (NInt c)) (NInt <$> e) (Some n) t (Some psl))].
Proof.
  intros Hl Hc Hlen Hval Hpsl Hp Hfit. unfold parseSignatureInput, sig_text.
  rewrite dictionary_entries_inner by done. cbn [mbind res_bind map_res]. unfold parse_input_member. cbn [snd fst].
  rewrite (proj2 (Z.ltb_ge _ _)) by (unfold zlen; rewrite length_map; lia). cbn [throw_if mbind res_bind].
  rewrite parse_components_canon by done. cbn [mbind res_bind]. rewrite Hval. cbn [catch mbind res_bind].
  rewrite (member_text (label p0) (sf_inner (map component_item (components p0)) ++ sf_params psl)) by (done || by apply sig_text_trimmed).
  rewrite parseSignatureParameterOccurrences_plain by (done || by apply plain_params_wf). cbn [mbind res_bind].
  rewrite Hpsl. by rewrite apply_signing_parameters.
Qed.

Lemma headers_get_insert h name value other : toLowerAscii other <> toLowerAscii name ->
  headers_get (<[toLowerAscii name := value]> h) other = headers_get h other.
Proof. intros H. unfold headers_get. by rewrite lookup_insert_ne. Qed.

(** The headers after signing. *)
Lemma signed_headers h0 h1 h2 lbl text raw : is_key lbl = true -> trimmed text ->
  headers_get h0 (js "Signature-Input") = None -> headers_get h0 (js "Signature") = None ->
  setDictionaryMember h0 (js "Signature-Input") lbl text = Ok h1 ->
  setDictionaryMember h1 (js "Signature") lbl (58 :: btoa raw ++ [58]) = Ok h2 ->
  headers_get h2 (js "Signature-Input") = Some (lbl ++ 61 :: text)
  /\ headers_get h2 (js "Signature") = Some (lbl ++ 61 :: 58 :: btoa raw ++ [58])
  /\ (forall name w, headers_get h0 name = Some w -> headers_get h2 name = Some w).
Proof.
  intros Hl [_ (a & u & -> & Hu)] Hi Hs H1 H2. pose proof (key_wf _ Hl) as (_ & _ & Hhead).
  apply setDictionaryMember_fresh in H1; [|done|apply trimmed_app; [done|by exists (61 :: a), u]].
  apply setDictionaryMember_fresh in H2; [|rewrite H1; by rewrite headers_get_insert|apply trimmed_app; [done|by exists (61 :: 58 :: btoa raw), 58]].
  subst h1 h2. unfold headers_get in *. split; [|split].
  - by rewrite lookup_insert_ne, lookup_insert_eq.
  - by rewrite lookup_insert_eq.
  - intros name w Hw. rewrite !lookup_insert_ne; [done|congruence|congruence].
Qed.

Lemma digest_headers h content h0 :
  Ok h0 = match content with Some c => headers_set h (js "Content-Digest") (digest_value c) | None => Ok h end ->
  (forall name, toLowerAscii name <> toLowerAscii (js "Content-Digest") -> headers_get h0 name = headers_get h name)
  /\ forall c, content = Some c -> headers_get h0 (js "Content-Digest") = Some (digest_value c).
Proof.
  intros Hh. destruct content as [c|]; [|by injection Hh as ->].
  apply eq_sym, headers_set_trimmed in Hh as ->.
  2: { split; [done|]. exists (js "sha-256=:" ++ toStdBase64 (digest c)), 58. unfold digest_value. by rewrite app_assoc. }
  split; [intros name Hne; by apply headers_get_insert|].
  intros c' [= <-]. unfold headers_get. by rewrite lookup_insert_eq.
Qed.

Lemma covered_content req signed content covered s : signer_ready req -> (content = None -> rq_body req = None) -> add_components added (base_components content) = Ok covered ->
  components s = map canon covered -> rq_body signed = content ≫= body_of -> rq_bodyUsed signed = false ->
  (forall c, content = Some c -> zlen c <= MAX_HTTP_CONTENT_BYTES /\ headers_get (rq_headers signed) (js "Content-Digest") = Some (digest_value c)) ->
  match rq_body signed with
  | None => hasComponentNamed (components s) (js "content-digest") = false
  | Some b => exists c, b = mkStream [c] false /\ rq_bodyUsed signed = false /\ zlen c <= MAX_HTTP_CONTENT_BYTES
      /\ covers s (CName (js "content-digest")) = true
      /\ headers_get (rq_headers signed) (js "Content-Digest") = Some (digest_value c)
      /\ existsb unsupported_digest_member (components s) = false
  end.
Proof.
  intros Hs Hnone Hcov Ec Hb Hu Hc. destruct (covered_components req content covered Hs Hnone Hcov) as (_ & _ & _ & Hbase & _ & Hdig).
  rewrite Hb. destruct content as [c|]; cbn [mbind option_bind body_of].
  - destruct (Hc c eq_refl) as [Hsize Hd]. exists c. split_and!; try done.
    + apply (covers_name covered); [done|]. apply Hbase. unfold base_components. rewrite elem_of_app. right. apply list_elem_of_here.
    + rewrite existsb_false_Forall, Forall_forall, Ec. intros d (e & -> & He)%list_elem_of_fmap.
      unfold unsupported_digest_member. rewrite canon_name, canon_params. case_bool_decide as Hn; [|done].
      destruct (Hdig e He Hn) as [Hd' _]. unfold unsupported_digest_member in Hd'. by rewrite bool_decide_eq_true_2 in Hd'.
  - apply not_true_iff_false. rewrite Ec. intros (d & (e & <- & He)%in_map_iff & Hn%bool_decide_eq_true)%existsb_exists.
    rewrite canon_name in Hn. apply list_elem_of_In in He. by destruct (Hdig e He Hn).
Qed.

Lemma base_low signed covered p0 psl input : plain_signature p0 psl -> check_parameters [] psl = Ok psl -> components p0 = covered ->
  fits signed -> (forall c, c ∈ covered -> c ∈ DEFAULT_COMPONENTS ++ [CName (js "content-digest")] ++ added) ->
  buildSignatureInput (Alone (MRequest signed)) (verified_params p0 psl) = Ok input ->
  exists base, input = utf8_encode base /\ forallb is_low_unit base = true.
Proof.
  intros Hp0 Hck Ec Hfit Hsub (base & Hb & [= <-])%bind_Ok. exists base. split; [done|].
  apply (signature_base_plain _ _ psl) in Hb as (lines & -> & Hl); [|by apply verified_plain].
  apply clean_join. eapply base_lines_clean; [by apply verified_plain| |exact Hl].
  intros c w Hc Hw. cbn [verified_params components] in Hc. apply list_elem_of_fmap in Hc as (d & -> & Hd).
  rewrite extract_canon in Hw. apply (ft_clean _ Hfit d w); [apply Hsub; by rewrite <-Ec|done].
Qed.

Lemma signed_request_fields req signed : signer_ready req -> unsigned req -> fits signed -> signed_request envS ps opts req signed ->
  exists s raw key kid, signed_fields req signed s raw key kid.
Proof.
  intros Hs [Hni Hns] Hfit [(kp & key & kid & tk & Hkey & Hkid & content & covered & jose & httpAlg & raw & nb & at_ & h & h1 & h2 & input & text
    & Hsize & Hnone & Hh & Hcov & Hexp & Hjose & Halg & Hinput & Hver & Htext & Hh1 & Hh2 & Esigned)].
  destruct (sg_key _ Hs tk kp key kid Hkey Hkid) as (Hkid' & Hby).
  set (p0 := signing_params ps opts covered kid httpAlg (toBase64Url nb) (env_now envS at_)) in *.
  set (psl := made_parameters kid httpAlg (toBase64Url nb) (env_now envS at_)).
  destruct (covered_components req content covered Hs Hnone Hcov) as (Hnamed & Hlen & Hsub & Hbase & Hadd & _).
  assert (Hpro : profile_parameters p0 = psl) by apply profile_parameters_made.
  destruct h as [h0|e]; [|done]. cbn [mbind res_bind] in *.
  assert (Hvc : validateComponents (components p0) = Ok tt).
  { unfold buildSignatureInput, signature_base in Hinput. by apply bind_Ok in Hinput as (? & ([] & ? & _)%bind_Ok & _). }
  assert (Hp0 : plain_signature p0 psl /\ text = sig_text p0 psl).
  { destruct (serialized_plain p0 text) as (psl' & Hp & ->); [split; [done|]|done|done|].
    - intros x [= <-]. rewrite Hpro. apply made_simple.
    - pose proof (pl_parameters _ _ Hp) as E. cbn in E. injection E as <-. rewrite <-Hpro. done. }
  destruct Hp0 as [Hp0 ->]. assert (Hpp : plain_params psl = true).
  { unfold plain_params. rewrite (pl_plain _ _ Hp0). apply signing_parameters_distinct. }
  assert (Hck : check_parameters [] psl = Ok psl) by apply check_signing_parameters.
  assert (Hlabel : is_key (label p0) = true) by by eapply setDictionaryMember_key.
  destruct (digest_headers _ _ _ Hh) as [Hkeep Hdig].
  destruct (signed_headers h0 h1 h2 (label p0) (sig_text p0 psl) raw) as (Hgi & Hgs & Hmore); try done;
    [by apply sig_text_trimmed|by rewrite Hkeep|by rewrite Hkeep|].
  set (ru := mkRequest (rq_method req) (rq_url req) h0 (content ≫= body_of) false) in *.
  assert (Esh : rq_headers signed = h2) by by rewrite Esigned.
  destruct (same_base ru signed p0 psl input Hp0) as [Hsame Hval]; try done; try (by rewrite Esigned).
  destruct (base_low signed covered p0 psl input) as (base & -> & Hlow); try done.
  exists (verified_params p0 psl), raw, key, kid. split; rewrite ?Esh; try done.
  - exists (label p0 ++ 61 :: sig_text p0 psl). split; [done|]. split; [by destruct (label p0)|].
    erewrite parse_signed_input; try done; [|apply Hp0|apply (ft_input _ Hfit); by rewrite Esh]. f_equal. f_equal. f_equal.
    unfold verified_params. cbn [p0 signing_params expires label components keyId alg created SignatureFields.nonce tag].
    f_equal. by destruct (so_expiresInSeconds opts).
  - exists (label p0 ++ 61 :: 58 :: btoa raw ++ [58]). split; [done|]. split; [by destruct (label p0)|].
    apply parseSignature_bytes; [done|]. apply (ft_signature _ Hfit). by rewrite Esh.
  - exists at_. split; [done|]. cbn. by destruct (so_expiresInSeconds opts).
  - intros c [Hc|Hc].
    + assert (Hcv : c ∈ covered) by (apply Hbase; unfold base_components; rewrite elem_of_app; by left).
      by repeat (apply elem_of_cons in Hc as [->|Hc]; [by apply (covers_name covered)|]); apply elem_of_nil in Hc.
    + apply (covers_canon covered); [done|by apply Hadd].
  - rewrite Esigned. cbn. destruct content; [done|by intros _; apply Hnone].
  - by exists jose, httpAlg, base.
  - rewrite <-Esh. apply (covered_content req signed content covered); try done; [by rewrite Esigned|by rewrite Esigned|].
    intros c Hc. split; [by apply Hsize|]. rewrite Esh. by apply Hmore, Hdig.
Qed.


End RoundTrip.
