(* ===== verification/HttpExamples.v ===== *)
(** Concrete exchanges of signed HTTP messages: the theorems of [HttpSafety], [HttpBase] and
    [HttpRoundTrip] applied to them. *)

From S2P Require Import Prelude Effects JsString Base64 Sha256 Url Utils TxtRecord Json Jwk AgentStatus Lifecycle LogRegistry Budget.
From S2P Require Import StreamVerifier Verification HttpMessages SignatureFields HttpSignatures HttpSafety PlainFields FieldText HttpBase HttpRoundTrip.

(** A hash for examples: the first 32 octets. *)
Definition FirstOctets : Hash256.
Proof.
  refine {| digest m := take 32 (m ++ repeat x00 32) |}.
  intros m. rewrite length_take, length_app, repeat_length. lia.
Defined.

Section Examples.
#[local] Existing Instances FirstOctets SimpleUrl AsciiUnicode ToyJwk SimpleFields.

Definition example_raw : bytes := ok_or [] (fromBase64Url (x_of "OO")).
Definition example_cert : TLSCertificate := mkTLSCertificate (Some 9000000000000) [].
Definition example_signer : VerifiedIdentity :=
  mkVerifiedIdentity (js "bot.example.com") new_record (mkJWKS [example_operational]) (mkJWKS [example_entity])
    example_entity [] example_cert example_cert (mkAgentStatus ACTIVE None None) 1700000000000 300 (Some 1800000000000)
    (Some 1600000000000) 1700000000000 VALID (NoopLogReader []).

(** One environment for every party: the clock stands still, the key provider has the
    operational key, and the resolver knows its identity. *)
Definition example_env : Environment := {|
  env_now _ := 1700000000000;
  env_performanceNow _ := 0;
  env_abort _ := Live;
  env_aborted _ := false;
  env_random _ n := repeat x07 (Z.to_nat n);
  env_signingKey _ _ := Ok example_operational;
  env_sign _ _ _ := Ok example_raw;
  env_verifyDomain _ _ _ := Ok example_signer;
  env_fetch _ _ := Throw (EError "TypeError: fetch failed");
  env_transport _ _ := Throw (EError "TypeError: fetch failed")
|}.
Definition example_profile : HttpSignaturesProfile := mkProfile (js "bot.example.com") (Some 0%nat) (mkProfileConfig None None).
Definition example_request : Request :=
  mkRequest (js "POST") (js "https://api.example/orders?id=7") (<[js "x-trace" := js "abc"]> ∅)
    (Some (mkStream [utf8_encode (js "{}")] false)) false.

(** A tag with quotes and a backslash. *)
Definition example_tag : jsstr := js "dnsid " ++ [34] ++ js "v1" ++ [92; 34].
Definition example_options : HttpSigningOptions :=
  mkSigningOptions (Some [CName (js "x-trace"); CObject (js "@query-param") (Some [(js "name", PString (js "id"))])])
    None (Some example_tag) (Some (NInt 60)) None.
Definition example_verification : HttpVerificationOptions :=
  mkVerificationOptions None None (Some [CName (js "@method"); CName (js "x-trace"); CName (js "content-digest")]) (Some example_tag).
Definition response_options : ResponseSignatureOptions := mkResponseOptions (js "bot.example.com") None.
Definition negotiated_options : HttpSigningOptions := mkSigningOptions None None None None (Some response_options).
Definition example_response : Response := mkResponse 201 ∅ (Some (mkStream [utf8_encode (js "done")] false)) false.

(** ** Evaluation *)

Definition returned {A} (o : outcome exn A * list event) : option (A * list event) :=
  match o with (Returns a, t) => Some (a, t) | _ => None end.

Lemma returned_inv {A} (o : outcome exn A * list event) a t : returned o = Some (a, t) -> o = (Returns a, t).
Proof. destruct o as [[b|e] u]; [|done]. by intros [= -> ->]. Qed.

(** What [clean_values] and [fits] ask for, as tests. *)
Definition clean_on (msg : HttpMessage) (l : list ComponentIdentifier) : bool :=
  forallb (fun c => match extractComponentValue msg c with Ok v => is_clean v | Throw _ => true end) l.

Lemma clean_on_spec msg l c v : clean_on msg l = true -> c ∈ l -> extractComponentValue msg c = Ok v -> is_clean v = true.
Proof. unfold clean_on. rewrite forallb_forall. intros H Hc%list_elem_of_In Hv. specialize (H c Hc). by rewrite Hv in H. Qed.

Definition short (o : option jsstr) : bool := match o with Some h => zlen h <=? MAX_HEADER_LENGTH | None => true end.
Definition fits_b (r : Request) : bool :=
  short (headers_get (rq_headers r) (js "Signature-Input")) && short (headers_get (rq_headers r) (js "Signature"))
  && clean_on (Alone (MRequest r)) (DEFAULT_COMPONENTS ++ [CName (js "content-digest")] ++ default [] (so_additionalComponents example_options)).

Lemma fits_b_spec r : fits_b r = true -> fits example_options r.
Proof.
  intros [[H1 H2]%andb_true_iff H3]%andb_true_iff. split.
  - intros h Hh. rewrite Hh in H1. by apply Z.leb_le in H1.
  - intros h Hh. rewrite Hh in H2. by apply Z.leb_le in H2.
  - intros c w. by apply clean_on_spec.
Qed.

(** A request that is signed and verified. *)
Definition request_exchange : option ((Request * list event) * (VerifiedIdentity * list event)) :=
  '(r, t) ← returned (createSignedHttpRequest example_env example_profile example_request (Some example_options) []);
  '(v, t') ← returned (verifySignedHttpRequest example_env example_profile r example_verification []);
  if fits_b r then Some ((r, t), (v, t')) else None.

Lemma request_exchange_inv r t v t' : request_exchange = Some ((r, t), (v, t')) ->
  createSignedHttpRequest example_env example_profile example_request (Some example_options) [] = (Returns r, t)
  /\ verifySignedHttpRequest example_env example_profile r example_verification [] = (Returns v, t') /\ fits_b r = true.
Proof.
  intros ([r1 t1] & H1%returned_inv & ([v1 t2] & H2%returned_inv & H)%bind_Some)%bind_Some.
  destruct (fits_b r1) eqn:E; [|done]. apply Some_inj, pair_equal_spec in H as [H3 H4].
  apply pair_equal_spec in H3 as [-> ->]. apply pair_equal_spec in H4 as [-> ->]. exact (conj H1 (conj H2 E)).
Qed.

(** A request that asks for a signed response, the response, and its verification. *)
Definition response_exchange : option (Request * Response * (VerifiedIdentity * list event)) :=
  '(r, _) ← returned (createSignedHttpRequest example_env example_profile example_request (Some negotiated_options) []);
  '(s, _) ← returned (signRequestedHttpResponse example_env example_profile r example_response []);
  '(v, t) ← returned (verifySignedHttpResponse example_env example_profile r s response_options None None []);
  Some (r, s, (v, t)).

Lemma response_exchange_inv r s v t : response_exchange = Some (r, s, (v, t)) ->
  verifySignedHttpResponse example_env example_profile r s response_options None None [] = (Returns v, t).
Proof.
  intros ([r1 t1] & _ & ([s1 t2] & _ & ([v1 t3] & H%returned_inv & E)%bind_Some)%bind_Some)%bind_Some.
  apply Some_inj, pair_equal_spec in E as [E1 E2]. apply pair_equal_spec in E1 as [-> ->].
  apply pair_equal_spec in E2 as [-> ->]. exact H.
Qed.

(** Two requests that differ in a field that is not covered. *)
Definition base_params : SignatureParams :=
  mkSignatureParams (js "sig1") [CName (js "@method"); CObject (js "@query-param") (Some [(js "name", PString (js "id"))]); CName (js "x-trace")]
    (Some (js "bot.example.com#o1")) None (Some (NInt 1700000000)) None None (Some example_tag) None.
Definition other_request : Request := with_headers example_request (<[js "x-other" := js "1"]> (rq_headers example_request)).
Definition base_of (r : Request) : res bytes := buildSignatureInput (Alone (MRequest r)) base_params.
Definition same_bases : bool :=
  bool_decide (base_of example_request = base_of other_request) && is_ok (base_of example_request)
  && clean_on (Alone (MRequest example_request)) (components base_params) && clean_on (Alone (MRequest other_request)) (components base_params).

Lemma examples_run :
  bool_decide (is_Some request_exchange) && bool_decide (is_Some response_exchange) && same_bases = true.
Proof. vm_compute. reflexivity. Qed.

Lemma request_exchange_runs : is_Some request_exchange.
Proof. pose proof examples_run as H. apply andb_true_iff in H as [[H _]%andb_true_iff _]. by apply bool_decide_eq_true in H. Qed.
Lemma response_exchange_runs : is_Some response_exchange.
Proof. pose proof examples_run as H. apply andb_true_iff in H as [[_ H]%andb_true_iff _]. by apply bool_decide_eq_true in H. Qed.

(** ** Witnesses *)

Lemma verifySignedHttpRequest_sound_witness : exists r v t,
  verifySignedHttpRequest example_env example_profile r example_verification [] = (Returns v, t)
  /\ request_accepted example_env example_profile r example_verification v t.
Proof.
  destruct request_exchange_runs as [[[r t] [v t']] H]. destruct (request_exchange_inv _ _ _ _ H) as (_ & Hv & _).
  exists r, v, t'. exact (conj Hv (verifySignedHttpRequest_sound example_env example_profile r example_verification [] v t' Hv)).
Defined.

Lemma verifySignedHttpResponse_sound_witness : exists r s v t,
  verifySignedHttpResponse example_env example_profile r s response_options None None [] = (Returns v, t)
  /\ response_accepted example_profile r s None response_options v t.
Proof.
  destruct response_exchange_runs as [[[r s] [v t]] H]. pose proof (response_exchange_inv _ _ _ _ H) as Hv.
  exists r, s, v, t. exact (conj Hv (verifySignedHttpResponse_sound example_env example_profile r s None response_options None [] v t Hv)).
Defined.

Lemma base_params_simple : simple_signature base_params.
Proof.
  split; [|by intros ps [= <-]]. intros c Hc. cbn [base_params components] in Hc. unfold named_once.
  apply elem_of_cons in Hc as [->|Hc]; [constructor|]. apply elem_of_cons in Hc as [->|Hc]; [apply NoDup_singleton|].
  apply list_elem_of_singleton in Hc as ->. constructor.
Qed.

Lemma signature_base_binds_witness : exists b,
  base_of example_request = Ok b /\ base_of other_request = Ok b
  /\ Forall2 (fun c d => extractComponentValue (Alone (MRequest example_request)) c = extractComponentValue (Alone (MRequest other_request)) d)
       (components base_params) (components base_params).
Proof.
  pose proof examples_run as H. apply andb_true_iff in H as [_ H]. unfold same_bases in H.
  rewrite !andb_true_iff, bool_decide_eq_true in H. destruct H as [[[He Hok] Hc1] Hc2].
  assert (exists b, base_of example_request = Ok b) as [b Hb] by (destruct (base_of example_request) as [b|]; [by exists b|done]).
  assert (Ho : base_of other_request = Ok b) by congruence.
  exists b. split; [exact Hb|]. split; [exact Ho|].
  apply (signature_base_binds (Alone (MRequest example_request)) (Alone (MRequest other_request)) base_params base_params
    b base_params_simple base_params_simple); [| |exact Hb|exact Ho].
  - intros c v. apply clean_on_spec. exact Hc1.
  - intros c v. apply clean_on_spec. exact Hc2.
Defined.

Lemma example_signer_ready : signer_ready example_env example_profile example_options example_signer example_request.
Proof.
  assert (Hin : forall c, c ∈ default [] (so_additionalComponents example_options) -> named_once c /\ componentName c <> js "content-digest").
  { intros c Hc. cbn [example_options so_additionalComponents default] in Hc.
    apply elem_of_cons in Hc as [->|Hc]; [split; [constructor|done]|].
    apply list_elem_of_singleton in Hc as ->. split; [apply NoDup_singleton|done]. }
  split; try reflexivity.
  - intros t kp key kid [= <-]. intros [= <-]. split; vm_compute; reflexivity.
  - intros c Hc. by apply Hin.
  - intros c Hc Hn. by destruct (Hin c Hc).
  - cbn. lia.
Qed.

Lemma example_verifier_ready :
  verifier_ready example_env example_env example_profile example_profile example_options example_verification example_signer example_request.
Proof.
  split.
  - split; intros; cbn; lia || reflexivity.
  - reflexivity.
  - intros ts tv. change (env_now example_env ts) with 1700000000000. change (env_now example_env tv) with 1700000000000.
    assert (Ha : max_age (pf_config example_profile) = 300) by reflexivity.
    assert (Hs : clock_skew (pf_config example_profile) = 5) by reflexivity.
    split; rewrite ?Ha, ?Hs; cbn; lia.
  - intros l c [= <-] Hc. apply elem_of_cons in Hc as [->|Hc]; [left; apply list_elem_of_here|].
    apply elem_of_cons in Hc as [->|Hc]; [right; left; apply list_elem_of_here|].
    apply list_elem_of_singleton in Hc as ->. right. right. done.
  - by intros tg [= <-].
Qed.


(** A transport that carries the request to a server with the same profile. *)
Definition transport_env : Environment := {|
  env_now _ := 1700000000000;
  env_performanceNow _ := 0;
  env_abort _ := Live;
  env_aborted _ := false;
  env_random _ n := repeat x07 (Z.to_nat n);
  env_signingKey _ _ := Ok example_operational;
  env_sign _ _ _ := Ok example_raw;
  env_verifyDomain _ _ _ := Ok example_signer;
  env_fetch _ _ := Throw (EError "TypeError: fetch failed");
  env_transport _ request :=
    match fst (signRequestedHttpResponse example_env example_profile request example_response []) with
    | Returns s => Ok (s, None)
    | Raises e => Throw e
    end
|}.
Definition fetch_options : CreateSignedFetchOptions := mkFetchOptions false true None (fun _ => Some negotiated_options) None.
Definition fetched : option (Response * list event) :=
  returned (signedFetch transport_env example_profile fetch_options false example_request []).

Lemma fetched_runs : bool_decide (is_Some fetched) = true.
Proof. vm_compute. reflexivity. Qed.

Lemma signedFetch_authenticated_witness : exists response new policy,
  signedFetch transport_env example_profile fetch_options false example_request [] = (Returns response, new)
  /\ responsePolicy response_options DEFAULT_HTTP_SIGNATURE_LABEL = Ok policy
  /\ authenticated transport_env example_profile fetch_options example_request policy response [] new.
Proof.
  destruct (bool_decide_eq_true_1 _ fetched_runs) as [[response t] H]. pose proof (returned_inv _ _ _ H) as Hrun.
  destruct (signedFetch_authenticated transport_env example_profile fetch_options false example_request example_request
    response_options [] response t Hrun eq_refl eq_refl) as (policy & new & Hp & -> & Ha).
  exists response, new, policy. exact (conj Hrun (conj Hp Ha)).
Defined.

End Examples.
