(* ===== verification/Jose.v ===== *)
(** Compact JOSE tokens: [jose/src/index.ts] and the token parsers of
    [protocol/src/strict-json.ts].

    The calls of the key provider, the resolver, the clock and the random source are those
    of the environment of [HttpSignatures]. *)

From S2P Require Import SharedVerification.
From S2P Require Import Publishing.
From S2P Require Import Prelude Effects JsString Base64 Url Utils Json Double Jwk Verification HttpMessages HttpSignatures.

(** ** [JSON.stringify]

    The members of an object come in the order of the language: array indices by value, then
    the other names as they were added.  A member without a value is left out. *)

Definition is_index_name (name : jsstr) : bool :=
  forallb is_digit name && bool_decide (dec (digits_value name) = name) && (digits_value name <? 4294967295).
Definition index_before {A} (a b : jsstr * A) : bool := digits_value (fst a) <? digits_value (fst b).
Definition own_order {A} (m : list (jsstr * A)) : list (jsstr * A) :=
  sort_by index_before (List.filter (fun kv => is_index_name (fst kv)) m)
  ++ List.filter (fun kv => negb (is_index_name (fst kv))) m.

Fixpoint JSON_stringify (v : json) : jsstr :=
  match v with
  | JNull | JUndefined => js "null"
  | JBool b => js (if b then "true" else "false")
  | JNumber n => stringify_number n
  | JString s => stringify_string s
  | JArray l => [91] ++ join [44] (map JSON_stringify l) ++ [93]
  | JObject m =>
      let texts := flat_map (fun kv => if is_undefined (snd kv) then [] else [(fst kv, JSON_stringify (snd kv))]) m in
      [123] ++ join [44] (map (fun kv => stringify_string (fst kv) ++ [58] ++ snd kv) (own_order texts)) ++ [125]
  end.

(** ** Compact tokens: [strict-json.ts] *)

Record compact := mkCompact {
  cp_header64 : jsstr; cp_payload64 : jsstr; cp_signature64 : jsstr;
  cp_header : list (jsstr * json); cp_payload : bytes; cp_signature : bytes
}.

Definition parseJoseObject (bs : bytes) : res (list (jsstr * json)) :=
  catch
    (value ← parseStrictJson bs;
     match value with JObject m => Ok m | _ => Throw (EError "expected JSON object") end)
    (fun _ => Throw (recordInvalid "malformed JOSE JSON object")).

Definition decode_part (part : jsstr) : res bytes :=
  throw_if (negb (forallb is_b64url part)) (EError "invalid base64url");;
  octets ← fromBase64Url part;
  throw_if (negb (bool_decide (toBase64Url octets = part))) (EError "noncanonical base64url");;
  Ok octets.

Definition unsupported_header (header : list (jsstr * json)) : bool :=
  negb (nonempty_str (get header "alg")) || negb (nonempty_str (get header "kid"))
  || (has_member header (js "typ") && is_none (as_str (get header "typ")))
  || has_member header (js "crit")
  || (has_member header (js "b64") && match get header "b64" with JBool true => false | _ => true end).

Definition parseCompactJose (token : jsstr) : res compact :=
  catch
    (throw_if (1024 * 1024 <? zlen token) (EError "token too large");;
     match split_on 46 token with
     | [h; p; s] =>
         throw_if (16 * 1024 <? zlen h) (EError "invalid compact structure");;
         header64 ← decode_part h;
         payload ← decode_part p;
         signature ← decode_part s;
         header ← parseJoseObject header64;
         throw_if (unsupported_header header) (EError "unsupported protected header");;
         Ok (mkCompact h p s header payload signature)
     | _ => Throw (EError "invalid compact structure")
     end)
    (fun _ => Throw (recordInvalid "malformed JOSE compact token")).

(** ** Profiles *)

Definition APPLICATION_JOSE_ALGS : list jsstr :=
  map js ["EdDSA"; "ES256"; "ES384"; "ES512"; "RS256"; "RS384"; "RS512"; "PS256"; "PS384"; "PS512"]%string.
Definition DEFAULT_JWT_EXPIRY_SECONDS : number := NInt (15 * 60).
Definition DEFAULT_JWT_MAX_LIFETIME_SECONDS : number := NInt (15 * 60).
Definition DEFAULT_JWT_CLOCK_SKEW_SECONDS : number := NInt 60.

Record JWTOptions := mkJWTOptions {
  jo_audience : jsstr; jo_expiry : option number; jo_additionalClaims : option (list (jsstr * json)) }.
Record JoseProfileConfig := mkJoseConfig { maxLifetime : option number; jc_clockSkew : option number }.
Record JoseProfile := mkJose { jp_domain : option jsstr; jp_keyProvider : option provider; jp_config : JoseProfileConfig }.
Record JWTVerificationOptions := mkJWTVerification {
  jv_timeoutMs : option Z; jv_expectedAudience : option jsstr; jv_peerCert : option TLSCertificate }.

Definition max_lifetime (c : JoseProfileConfig) : number := default DEFAULT_JWT_MAX_LIFETIME_SECONDS (maxLifetime c).
Definition jwt_skew (c : JoseProfileConfig) : number := default DEFAULT_JWT_CLOCK_SKEW_SECONDS (jc_clockSkew c).

(** [Date.now() / 1000] *)
Definition seconds (ms : Z) : number := rounded ms 1000.

Definition validateAlgorithm (header : list (jsstr * json)) : res unit :=
  throw_if (match get header "alg" with JString a => negb (bool_decide (a ∈ APPLICATION_JOSE_ALGS)) | _ => true end)
    (signatureInvalid "JOSE alg not in application-layer allowlist").

Definition RESERVED : list jsstr := map js ["iss"; "sub"; "aud"; "iat"; "exp"; "jti"]%string.
(** The assignment to [__proto__] makes no member. *)
Definition add_claim (claims : list (jsstr * json)) (kv : jsstr * json) : res (list (jsstr * json)) :=
  throw_if (bool_decide (fst kv ∈ RESERVED)) (EArgument "additionalClaims must not override reserved claim");;
  Ok (if bool_decide (fst kv = js "__proto__") then claims else set_member claims (fst kv) (snd kv)).

(** [crypto.randomUUID()] from sixteen random octets. *)
Definition uuid_text (l : bytes) : jsstr :=
  let at_ i := b2z (nth i l x00) in
  let octets := map (fun i => z2b (if (i =? 6)%nat then Z.lor (Z.land (at_ i) 15) 64
                                   else if (i =? 8)%nat then Z.lor (Z.land (at_ i) 63) 128 else at_ i)) (seq 0 16) in
  let part a b := to_hex (slice octets a b) in
  join [45] [part 0 4; part 4 6; part 6 8; part 8 10; part 10 16].

Section Profile.
Context `{Url : URLApi} `{Uni : Unicode} `{Jwk : JwkApi}.

(** *** Creation *)

Definition new_JoseProfile (domain : option jsstr) (keyProvider : option provider) (config : option JoseProfileConfig)
    : res JoseProfile :=
  d ← match domain with
      | None => Ok None
      | Some d => catch (Some <$> normalizeFQDN d true) (fun _ => Throw (EArgument "domain is not a valid agent FQDN"))
      end;
  let c := default (mkJoseConfig None None) config in
  throw_if (negb (finite_non_negative (max_lifetime c)) || num_le (max_lifetime c) (NInt 0) || negb (finite_non_negative (jwt_skew c)))
    (EArgument "invalid JOSE lifetime or clock skew");;
  Ok (mkJose d keyProvider c).
Definition createJoseProfile := new_JoseProfile.
Definition fromIdentityManager (m : IdentityManager) (config : option JoseProfileConfig) : res JoseProfile :=
  domain ← requireLocalDomain m;
  keyProvider ← getKeyProvider m;
  new_JoseProfile (Some domain) (Some keyProvider) config.

Definition requireKeyProvider (p : JoseProfile) : res (provider * jsstr) :=
  match jp_keyProvider p, jp_domain p with
  | Some k, Some ((_ :: _) as d) => Ok (k, d)
  | _, _ => Throw (EArgument "JOSE signing requires a keyProvider and local domain")
  end.

Context (env : Environment).

(** *** Signing *)

Definition compact_text (header payload : jsstr) (signature : bytes) : jsstr :=
  header ++ 46 :: payload ++ 46 :: toBase64Url signature.
Definition encode_json (v : json) : jsstr := toBase64Url (utf8_encode (JSON_stringify v)).

Definition sign_parts (header64 payload64 : jsstr) (keyProvider : provider) : run jsstr :=
  sig ← sign_with env keyProvider (utf8_encode (header64 ++ 46 :: payload64));
  mret (compact_text header64 payload64 sig).
Definition signCompact (header payload : json) (keyProvider : provider) : run jsstr :=
  sign_parts (encode_json header) (encode_json payload) keyProvider.

Definition randomUUID : run jsstr := l ← call (fun t => env_random env t 16) ERandom; mret (uuid_text l).

Definition check_jwt_expiry (c : JoseProfileConfig) (expiry : number) : res unit :=
  throw_if (negb (finite_non_negative expiry) || num_le expiry (NInt 0) || num_lt (max_lifetime c) expiry)
    (EArgument "JWT expiry exceeds maximum lifetime").

Definition base_claims (domain audience : jsstr) (now : Z) (exp : number) (jti : jsstr) : list (jsstr * json) :=
  [(js "iss", JString domain); (js "sub", JString domain); (js "aud", JString audience);
   (js "iat", JNumber (NInt now)); (js "exp", JNumber exp); (js "jti", JString jti)].
Definition jose_header (alg : jsstr) (kid : json) (typ : string) : json :=
  JObject [(js "alg", JString alg); (js "kid", kid); (js "typ", JString (js typ))].

Definition createJWT (p : JoseProfile) (opts : JWTOptions) : run jsstr :=
  '(keyProvider, domain) ← lift (requireKeyProvider p);
  check (length (jo_audience opts) =? 0)%nat (EArgument "audience is required");;
  audience ← lift (catch (normalizeFQDN (jo_audience opts) false) (fun _ => Throw (EArgument "audience is not a valid FQDN")));
  let expiry := default DEFAULT_JWT_EXPIRY_SECONDS (jo_expiry opts) in
  lift (check_jwt_expiry (jp_config p) expiry);;
  key ← signing_key env keyProvider;
  ms ← date_now env;
  let now := ms / 1000 in
  let exp := num_add (NInt now) expiry in
  check (num_le exp (NInt now)) (EArgument "JWT expiry is below timestamp resolution");;
  jti ← randomUUID;
  claims ← lift (for_each add_claim (default [] (jo_additionalClaims opts)) (base_claims domain audience now exp jti));
  alg ← lift (jwkSignatureAlg key);
  signCompact (jose_header alg (get key "kid") "JWT") (JObject claims) keyProvider.

Definition createJWS (p : JoseProfile) (payload : bytes) : run jsstr :=
  '(keyProvider, domain) ← lift (requireKeyProvider p);
  key ← signing_key env keyProvider;
  kid ← lift (kid_without_hash key);
  alg ← lift (jwkSignatureAlg key);
  sign_parts (encode_json (jose_header alg (JString (domain ++ 35 :: kid)) "jose")) (toBase64Url payload) keyProvider.

(** *** Verification *)

Definition finite_claim (v : json) : option number :=
  match v with JNumber n => if is_finite n then Some n else None | _ => None end.

(** The claims about the parties; the issuer. *)
Definition check_parties (claims : list (jsstr * json)) (expectedAudience : jsstr) : res jsstr :=
  iss ← match get claims "iss" with
        | JString ((_ :: _) as iss) => Ok iss
        | _ => Throw (recordInvalid "JWT iss claim must be a non-empty string")
        end;
  let differs := recordInvalid "JWT sub must equal iss" in
  sub ← of_option (as_str (get claims "sub")) differs;
  catch (a ← normalizeFQDN sub false; b ← normalizeFQDN iss false; throw_if (negb (bool_decide (a = b))) differs)
    (fun _ => Throw differs);;
  let audList := match get claims "aud" with JArray l => l | v => [v] end in
  let normalizedAuds := map (fun a => match a with
    | JString a => match normalizeFQDN a false with Ok n => Some n | Throw _ => None end
    | _ => None end) audList in
  throw_if ((length normalizedAuds =? 0)%nat || existsb is_none normalizedAuds
            || negb (bool_decide (Some expectedAudience ∈ normalizedAuds))) (recordInvalid "JWT audience mismatch");;
  Ok iss.

(** The claims about the time; the expiry. *)
Definition check_times (c : JoseProfileConfig) (claims : list (jsstr * json)) (now : number) : res number :=
  iat ← of_option (finite_claim (get claims "iat")) (recordInvalid "JWT missing required iat claim");
  throw_if (num_lt (num_add now (jwt_skew c)) iat) (recordInvalid "JWT issued-at time is in the future");;
  exp ← of_option (finite_claim (get claims "exp")) (recordInvalid "JWT missing required exp claim");
  throw_if (num_le exp iat) (recordInvalid "JWT exp must be after iat");;
  throw_if (num_lt (max_lifetime c) (num_sub exp iat)) (recordInvalid "JWT lifetime exceeds maximum");;
  throw_if (num_le exp now) (recordInvalid "JWT is expired");;
  let nbf := get claims "nbf" in
  throw_if (negb (is_undef nbf) && is_none (finite_claim nbf)) (recordInvalid "JWT nbf claim must be a number");;
  throw_if (match finite_claim nbf with Some nbf => num_lt (num_add now (jwt_skew c)) nbf | None => false end)
    (recordInvalid "JWT not yet valid (nbf)");;
  Ok exp.

(** The key that the header names verifies the token. *)
Definition check_token (token : compact) (vd : VerifiedIdentity) (kid : jsstr) : res unit :=
  sigKey ← of_option (keyById (vi_jwks vd) kid) (newVerificationError "kid not found in JWKS" KeyNotFound None false);
  alg ← match get (cp_header token) "alg" with
        | JString ((_ :: _) as alg) =>
            throw_if (negb (bool_decide (alg ∈ APPLICATION_JOSE_ALGS))) (signatureInvalid "alg not in application-layer allowlist");; Ok alg
        | _ => Throw (signatureInvalid "alg not in application-layer allowlist")
        end;
  keyAlg ← jwkSignatureAlg sigKey;
  throw_if (negb (bool_decide (alg = keyAlg))) (signatureInvalid "alg mismatch");;
  sig ← fromBase64Url (cp_signature64 token);
  throw_if (negb (verifyWithKey (utf8_encode (cp_header64 token ++ 46 :: cp_payload64 token)) sig sigKey (Some alg)))
    (signatureInvalid "signature invalid").

Definition header_kid (token : compact) : res jsstr :=
  match get (cp_header token) "kid" with
  | JString ((_ :: _) as kid) => Ok kid
  | _ => Throw (signatureInvalid "missing kid header")
  end.

Definition verifyJWTWithinBudget (p : JoseProfile) (jwt : jsstr) (opts : JWTVerificationOptions) : run VerifiedIdentity :=
  audience ← lift (match match jv_expectedAudience opts with Some a => Some a | None => jp_domain p end with
                   | Some ((_ :: _) as a) => Ok a
                   | _ => Throw (EArgument "expected audience is required")
                   end);
  expectedAudience ← lift (catch (normalizeFQDN audience false) (fun _ => Throw (EArgument "expected audience must be an FQDN")));
  token ← lift (parseCompactJose jwt);
  lift (validateAlgorithm (cp_header token));;
  claims ← lift (parseJoseObject (cp_payload token));
  iss ← lift (check_parties claims expectedAudience);
  ms ← date_now env;
  exp ← lift (check_times (jp_config p) claims (seconds ms));
  vd ← try_with (wait env (resolve env iss (jv_peerCert opts)))
         (fun e => raise (match e with EArgument m => recordInvalid m | e => e end));
  kid ← lift (header_kid token);
  lift (check_token token vd kid);;
  ms ← date_now env;
  check (num_le exp (seconds ms)) (recordInvalid "JWT expired during verification");;
  mret vd.
Definition verifyJWT (p : JoseProfile) (jwt : jsstr) (opts : JWTVerificationOptions) : run VerifiedIdentity :=
  budgeted env (jv_timeoutMs opts) (verifyJWTWithinBudget p jwt opts).

Definition verifyJWSWithinBudget (jws : jsstr) (peerCert : option TLSCertificate) : run (bytes * VerifiedIdentity) :=
  token ← lift (parseCompactJose jws);
  lift (validateAlgorithm (cp_header token));;
  compoundKid ← lift (header_kid token);
  '(domain, kid) ← lift (catch (parseKeyId compoundKid) (fun e =>
    Throw (if argument_or_validation e then signatureInvalid "invalid kid in JWS header" else e)));
  vd ← wait env (resolve env domain peerCert);
  lift (check_token token vd kid);;
  mret (cp_payload token, vd).
Definition verifyJWS (jws : jsstr) (peerCert : option TLSCertificate) (timeoutMs : option Z) : run (bytes * VerifiedIdentity) :=
  budgeted env timeoutMs (verifyJWSWithinBudget jws peerCert).

End Profile.
