(* ===== verification/JoseSafety.v ===== *)
(** What an accepted token has shown ([Jose]). *)

From S2P Require Import Prelude Effects JsString Base64 Url Utils Json Double Jwk Verification.
From S2P Require Import HttpMessages HttpSignatures ProfileRules Jose.

(** ** The text of a token *)

Lemma decode_part_Ok part l : decode_part part = Ok l -> part = toBase64Url l.
Proof.
  unfold decode_part. intros (? & _ & H)%bind_Ok. apply bind_Ok in H as (l' & _ & H).
  apply bind_Ok in H as (? & E%throw_if_Ok%negb_false_iff%bool_decide_eq_true & [= ->]). done.
Qed.

(** A token is the text of its parts, each of which is the only text of its octets. *)
Lemma parseCompactJose_Ok token c : parseCompactJose token = Ok c ->
  token = compact_text (cp_header64 c) (cp_payload64 c) (cp_signature c)
  /\ cp_payload64 c = toBase64Url (cp_payload c) /\ cp_signature64 c = toBase64Url (cp_signature c)
  /\ (exists octets, cp_header64 c = toBase64Url octets /\ parseJoseObject octets = Ok (cp_header c))
  /\ unsupported_header (cp_header c) = false /\ zlen token <= 1024 * 1024 /\ zlen (cp_header64 c) <= 16 * 1024.
Proof.
  unfold parseCompactJose. intros [H|(e & _ & H)]%catch_Ok; [|done].
  apply bind_Ok in H as (? & Hl%throw_if_Ok%Z.ltb_ge & H).
  destruct (split_on 46 token) as [|h [|p [|s [|? ?]]]] eqn:Es; try done.
  apply bind_Ok in H as (? & Hh%throw_if_Ok%Z.ltb_ge & H).
  apply bind_Ok in H as (octets & Eh%decode_part_Ok & H).
  apply bind_Ok in H as (payload & Ep%decode_part_Ok & H).
  apply bind_Ok in H as (sig & E%decode_part_Ok & H).
  apply bind_Ok in H as (header & Hp & H). apply bind_Ok in H as (? & Hu%throw_if_Ok & [= <-]).
  cbn [cp_header64 cp_payload64 cp_signature64 cp_header cp_payload cp_signature].
  split_and!; try done; [|by exists octets].
  rewrite <-(join_split 46 token), Es. cbn [join]. unfold compact_text. by rewrite <-E.
Qed.

(** ** Accepted tokens *)

Section Accepted.
Context `{Url : URLApi} `{Uni : Unicode} `{Jwk : JwkApi} (env : Environment).

Notation returning := (@returning event exn _).

(** A key of the identity, the one that the header names by [kid], verifies the text of the
    token's header and payload, under the algorithm of the header and of the key. *)
Record token_signed (token : compact) (v : VerifiedIdentity) (kid : jsstr) : Prop := {
  ts_key : exists key alg, keyById (vi_jwks v) kid = Some key
    /\ get (cp_header token) "alg" = JString alg /\ jwkSignatureAlg key = Ok alg /\ alg ∈ APPLICATION_JOSE_ALGS
    /\ verifyWithKey (utf8_encode (cp_header64 token ++ 46 :: cp_payload64 token)) (cp_signature token) key (Some alg) = true
}.

Lemma check_token_Ok jws token v kid : parseCompactJose jws = Ok token ->
  check_token token v kid = Ok tt -> token_signed token v kid.
Proof.
  intros (_ & _ & Es & _)%parseCompactJose_Ok (key & Hk%of_option_Ok & H)%bind_Ok.
  apply bind_Ok in H as (alg & Ha & H).
  assert (get (cp_header token) "alg" = JString alg /\ alg ∈ APPLICATION_JOSE_ALGS) as [Hg Hin].
  { destruct (get _ _) as [| | | |[|u a]| |]; try done.
    apply bind_Ok in Ha as (? & Hin%throw_if_Ok%negb_false_iff%bool_decide_eq_true & [= <-]). done. }
  apply bind_Ok in H as (ka & Hka & H). apply bind_Ok in H as (? & E%throw_if_Ok%negb_false_iff%bool_decide_eq_true & H).
  apply bind_Ok in H as (sig & Hs & Hv%throw_if_Ok%negb_false_iff). subst ka.
  rewrite Es, fromBase64Url_toBase64Url in Hs. injection Hs as <-. constructor. by exists key, alg.
Qed.

Lemma header_kid_Ok token kid : header_kid token = Ok kid -> get (cp_header token) "kid" = JString kid.
Proof. unfold header_kid. destruct (get _ _) as [| | | |[|u k]| |]; try done. by intros [= <-]. Qed.

(** *** JWS *)

Record jws_accepted (jws : jsstr) (peerCert : option TLSCertificate) (payload : bytes) (v : VerifiedIdentity)
    (t : list event) : Prop := {
  ja_token : exists token key_id domain kid,
    parseCompactJose jws = Ok token /\ cp_payload token = payload
    /\ get (cp_header token) "kid" = JString key_id /\ parseKeyId key_id = Ok (domain, kid)
    /\ EVerifyDomain domain peerCert (Ok v) ∈ t /\ token_signed token v kid
}.

(** The payload of a JWS is accepted only as signed by the identity that is returned: the
    token is the one text of its header, payload and signature; the [kid] of the header
    names a domain, which the resolver has verified in this call, and a key of that
    identity's key set; that key verifies the signature over the header and payload of this
    token, under the algorithm of the header, which is the key's own and is allowed. *)
Theorem verifyJWS_sound jws peerCert timeoutMs t payload v t' :
  verifyJWS env jws peerCert timeoutMs t = (Returns (payload, v), t') -> jws_accepted jws peerCert payload v t'.
Proof.
  apply (returning_run (verifyJWS env jws peerCert timeoutMs) t (fun r => jws_accepted jws peerCert (fst r) (snd r))).
  apply returning_budgeted. intros t1 _. unfold verifyJWSWithinBudget.
  step. step. intros token Ht. step. step. intros _ _. step. step. intros key_id Hk%header_kid_Ok.
  step. step. intros [domain kid] Hp. apply catch_Ok in Hp as [Hp|(e & _ & Hp)]; [|done].
  step. step. intros t2 _. apply returning_ask. intros v1 _. step. step. intros [] Hc. step. intros t3 Hp3.
  constructor. exists token, key_id, domain, kid. split_and!; try done; [|by eapply check_token_Ok].
  eapply elem_of_prefix; [|exact Hp3]. apply elem_of_app. right. by left.
Qed.

(** *** JWT *)

Context (p : JoseProfile) (opts : JWTVerificationOptions).

(** The claims are of the issuer, for this audience. *)
Definition for_audience (claims : list (jsstr * json)) (iss expected : jsstr) : Prop :=
  get claims "iss" = JString iss
  /\ (exists sub n, get claims "sub" = JString sub /\ normalizeFQDN sub false = Ok n /\ normalizeFQDN iss false = Ok n)
  /\ exists aud, aud ∈ (match get claims "aud" with JArray l => l | a => [a] end)
     /\ exists s, aud = JString s /\ normalizeFQDN s false = Ok expected.

(** The claims hold at [now], in seconds. *)
Record timely_claims (claims : list (jsstr * json)) (iat exp now : number) : Prop := {
  tc_iat : get claims "iat" = JNumber iat /\ is_finite iat = true /\ num_lt (num_add now (jwt_skew (jp_config p))) iat = false;
  tc_exp : get claims "exp" = JNumber exp /\ is_finite exp = true /\ num_le exp iat = false /\ num_le exp now = false;
  tc_lifetime : num_lt (max_lifetime (jp_config p)) (num_sub exp iat) = false;
  tc_nbf : get claims "nbf" = JUndefined
           \/ exists nbf, get claims "nbf" = JNumber nbf /\ num_lt (num_add now (jwt_skew (jp_config p))) nbf = false
}.

Lemma finite_claim_Some j n : finite_claim j = Some n -> j = JNumber n /\ is_finite n = true.
Proof. destruct j; try done. cbn. destruct (is_finite n0) eqn:E; [|done]. by intros [= <-]. Qed.

Lemma check_parties_Ok claims expected iss : check_parties claims expected = Ok iss -> for_audience claims iss expected.
Proof.
  intros (i & Hi & H)%bind_Ok. apply bind_Ok in H as (sub & Hs%of_option_Ok & H).
  apply bind_Ok in H as (? & [Hn|(? & _ & Hn)]%catch_Ok & H); [|done].
  apply bind_Ok in Hn as (n & Hn1 & Hn). apply bind_Ok in Hn as (n' & Hn2 & E%throw_if_Ok%negb_false_iff%bool_decide_eq_true). subst n'.
  apply bind_Ok in H as (? & Ha%throw_if_Ok & [= ->]).
  apply orb_false_iff in Ha as [_ Ha%negb_false_iff%bool_decide_eq_true].
  split; [destruct (get claims "iss") as [| | | |[|]| |]; by simplify_eq|]. split.
  - exists sub, n. split_and!; try done. by destruct (get claims "sub"); simplify_eq/=.
  - apply list_elem_of_fmap in Ha as (aud & E & Hin). exists aud. split; [by destruct (get claims "aud")|].
    destruct aud as [| | | |s| |]; try done. exists s. split; [done|]. destruct (normalizeFQDN s false); by simplify_eq.
Qed.

Lemma check_times_Ok claims now exp : check_times (jp_config p) claims now = Ok exp -> exists iat, timely_claims claims iat exp now.
Proof.
  intros (iat & [Hi Fi]%of_option_Ok%finite_claim_Some & H)%bind_Ok. apply bind_Ok in H as (? & H1%throw_if_Ok & H).
  apply bind_Ok in H as (e & [He Fe]%of_option_Ok%finite_claim_Some & H). apply bind_Ok in H as (? & H2%throw_if_Ok & H).
  apply bind_Ok in H as (? & H3%throw_if_Ok & H). apply bind_Ok in H as (? & H4%throw_if_Ok & H).
  apply bind_Ok in H as (? & H5%throw_if_Ok & H). apply bind_Ok in H as (? & H6%throw_if_Ok & [= ->]).
  exists iat. constructor; try done. destruct (finite_claim (get claims "nbf")) as [nbf|] eqn:En.
  - apply finite_claim_Some in En as [-> _]. right. by exists nbf.
  - left. rewrite andb_true_r in H5. destruct (get claims "nbf"); by simplify_eq/=.
Qed.

(** The token was accepted: [t] ends after a reading of the clock that follows the answer of
    the resolver, and the token had not expired then. *)
Record jwt_accepted (jwt : jsstr) (v : VerifiedIdentity) (t : list event) : Prop := {
  jt_token : exists token claims iss kid iat exp ms,
    parseCompactJose jwt = Ok token /\ parseJoseObject (cp_payload token) = Ok claims
    /\ (exists a expected, match jv_expectedAudience opts with Some a => Some a | None => jp_domain p end = Some a
        /\ normalizeFQDN a false = Ok expected /\ for_audience claims iss expected)
    /\ timely_claims claims iat exp (seconds ms) /\ ENow ms ∈ t
    /\ get (cp_header token) "kid" = JString kid /\ token_signed token v kid
    /\ exists t1 t2 ms', t = t1 ++ t2 /\ EVerifyDomain iss (jv_peerCert opts) (Ok v) ∈ t1
       /\ ENow ms' ∈ t2 /\ num_le exp (seconds ms') = false
}.

(** C10: A JWT is accepted only from the identity that is returned: the token is the one text
    of its header, claims and signature; its subject is its issuer, and the verifier is in
    its audience; it was issued no later than now and the skew, lives no longer than the profile allows,
    and has not expired, neither at the start nor after the resolver has verified the
    issuer; a key of the issuer's key set, named by the header, verifies the signature over
    the header and claims of this token, under the algorithm of the header, which is the
    key's own and is allowed. *)
Theorem verifyJWT_sound jwt t v t' : verifyJWT env p jwt opts t = (Returns v, t') -> jwt_accepted jwt v t'.
Proof.
  apply (returning_run (verifyJWT env p jwt opts) t (jwt_accepted jwt)).
  apply returning_budgeted. intros t1 _. unfold verifyJWTWithinBudget.
  step. step. intros a Ha. step. step. intros expected [He|(? & _ & He)]%catch_Ok; [|done].
  step. step. intros token Ht. step. step. intros _ _. step. step. intros claims Hc.
  step. step. intros iss Hi%check_parties_Ok. step. step. intros ms. step. step. intros exp [iat Htime]%check_times_Ok.
  step. apply returning_try; [|intros; step]. step. intros t2 Hp2. apply returning_ask. intros v1 _.
  step. step. intros kid Hk%header_kid_Ok. step. step. intros [] Hs. step. step. intros ms'. step. step. intros Hlate.
  step. intros t3 [k Ek]. constructor. exists token, claims, iss, kid, iat, exp, ms. subst t3.
  split_and!; try done; [| |by eapply check_token_Ok|].
  - exists a, expected. split_and!; try done. by destruct (match jv_expectedAudience opts with Some _ => _ | None => _ end) as [[|]|]; simplify_eq.
  - rewrite !elem_of_app. do 3 left. eapply elem_of_prefix; [|exact Hp2]. rewrite elem_of_app. right. by left.
  - eexists (t2 ++ [_]), (ENow ms' :: k), ms'. split; [by rewrite <-!app_assoc|]. split; [apply elem_of_app; right; by left|].
    split; [by left|done].
Qed.

End Accepted.
