(* ===== verification/JoseRoundTrip.v ===== *)
(** What a profile signs, a profile that resolves the signer accepts ([Jose]). *)

From S2P Require Import Prelude Effects JsString Base64 Url Utils Json JsonText Double Jwk Verification.
From S2P Require Import HttpMessages HttpSignatures ProfileRules Jose JoseSafety.

(** ** The order of members *)

Lemma own_order_perm {A} (m : list (jsstr * A)) : own_order m ≡ₚ m.
Proof.
  unfold own_order. rewrite sort_by_perm. induction m as [|kv m IH]; [done|]. cbn [List.filter].
  destruct (is_index_name (fst kv)); cbn [negb app]; [by constructor|]. by rewrite <-Permutation_middle; constructor.
Qed.

Lemma own_order_map {A B} (f : A -> B) m : own_order (map (fun kv => (fst kv, f (snd kv))) m)
  = map (fun kv => (fst kv, f (snd kv))) (own_order m).
Proof.
  unfold own_order. set (g := fun kv : jsstr * A => (fst kv, f (snd kv))).
  assert (Hf : forall P, List.filter (fun kv : jsstr * B => P (fst kv)) (map g m) = map g (List.filter (fun kv => P (fst kv)) m)).
  { intros P. induction m as [|kv m IH]; [done|]. cbn. destruct (P (fst kv)); cbn; by rewrite IH. }
  rewrite (Hf is_index_name), (Hf (fun k => negb (is_index_name k))), map_app. f_equal. by apply sort_by_map.
Qed.

Lemma get_member_perm m m' k : NoDup (map fst m) -> m ≡ₚ m' -> get_member m k = get_member m' k.
Proof.
  intros Hnd H. induction H as [|[k0 v0] m m' H IH|[k1 v1] [k2 v2] m|m m' m'' H1 IH1 H2 IH2]; cbn in *; [done| | |].
  - apply NoDup_cons in Hnd as [_ Hnd]. rewrite (IH Hnd). done.
  - apply NoDup_cons in Hnd as [Hn _]. repeat case_bool_decide; subst; try done. exfalso. apply Hn. by left.
  - rewrite (IH1 Hnd). apply IH2. by rewrite <-H1.
Qed.

Lemma get_member_None m k : k ∉ map fst m -> get_member m k = JUndefined.
Proof.
  induction m as [|[k0 v0] m IH]; [done|]. cbn. intros [Hk H]%not_elem_of_cons. rewrite bool_decide_false by done. by apply IH.
Qed.

(** ** What [JSON.stringify] writes *)

(** The number is written as a number, or as [null]; the text of every finite number is a
    literal in the language, which is proved for the integers ([number_text_int]). *)
Definition number_text (n : number) : bool :=
  match n with
  | NInfinity _ | NNaN => true
  | _ => match parse_number (stringify_number n) with Some (_, []) => true | _ => false end
  end.
Lemma number_text_int z : isSafeInteger z = true -> number_text (NInt z) = true.
Proof. intros H%reads_back_int%bool_decide_eq_true. unfold number_text. by rewrite H. Qed.

(** The values of the language without functions and cycles: any strings, arrays, absent
    values, objects with distinct names. *)
Fixpoint writable (v : json) : bool :=
  match v with
  | JNull | JUndefined | JBool _ => true
  | JNumber n => number_text n
  | JString s => units16 s
  | JArray l => forallb writable l
  | JObject m => forallb (fun kv => units16 (fst kv) && writable (snd kv)) m && bool_decide (NoDup (map fst m))
  end.
Definition writable_member (kv : jsstr * json) : Prop := units16 (fst kv) = true /\ writable (snd kv) = true.

(** The values that are read as they were written. *)
Definition scalar (v : json) : bool :=
  match v with JNull | JBool _ | JString _ => true | JNumber n => reads_back n | _ => false end.

(** The text of a value is read as some value, and passes the scan for duplicate names. *)
Definition written (v : json) (t : jsstr) : Prop :=
  (exists w, reads_as w t /\ (scalar v = true -> w = v)) /\ scans v t /\ well_formed t = true.

Lemma written_serialized v t : scalar v = true -> readable v = true -> serializeJson v = Ok t -> written v t.
Proof.
  intros Hs Hr Ht. split; [|split; [by apply serialized_scans|by eapply serialized_well_formed]].
  exists v. split; [|done]. replace v with (sort_json v) by (by destruct v). by apply serialized_reads.
Qed.

(** The text of a value does not depend on the value that it is scanned as. *)
Lemma written_null v : scalar v = false -> written v (js "null").
Proof.
  intros Hv. destruct (written_serialized JNull (js "null")) as ((w & Hw & _) & Hs & Hf); [done..|].
  split; [exists w; by rewrite Hv|done].
Qed.

Lemma written_number n : number_text n = true -> written (JNumber n) (stringify_number n).
Proof.
  intros H. assert (Hn : forall n' t, parse_number t = Some (n', []) -> (reads_back n = true -> n' = n) -> written (JNumber n) t).
  { intros n' t Hp Hb. pose proof (number_plain _ _ Hp) as Hpl. split; [|split; [|by apply ascii_well_formed, plain_ascii]].
    - exists (JNumber n'). split; [by apply reads_number|]. cbn. by intros ->%Hb.
    - intros r stack _. by apply scan_plain. }
  unfold number_text in H. destruct n; try (by apply written_null);
    (destruct (parse_number _) as [[n' [|? ?]]|] eqn:E; [|done..]); apply (Hn n'); try done;
    intros Hb%bool_decide_eq_true; congruence.
Qed.

Definition member_line (kv : jsstr * json) : jsstr := stringify_string (fst kv) ++ [58] ++ JSON_stringify (snd kv).

(** The members that have a value. *)
Definition defined (m : list (jsstr * json)) : list (jsstr * json) := List.filter (fun kv => negb (is_undefined (snd kv))) m.

Lemma stringify_object m : JSON_stringify (JObject m) = [123] ++ join [44] (map member_line (own_order (defined m))) ++ [125].
Proof.
  cbn [JSON_stringify].
  replace (flat_map _ m) with (map (fun kv => (fst kv, JSON_stringify (snd kv))) (defined m)).
  { by rewrite (own_order_map JSON_stringify), map_map. }
  induction m as [|kv m IH]; [done|]. cbn [defined List.filter flat_map]. rewrite <-IH. by destruct (is_undefined (snd kv)).
Qed.

(** What is read of a member. *)
Definition same_member (kv kv' : jsstr * json) : Prop := fst kv' = fst kv /\ (scalar (snd kv) = true -> snd kv' = snd kv).

Lemma same_names kvs kvs' : Forall2 same_member kvs kvs' -> map fst kvs' = map fst kvs.
Proof. induction 1 as [|? ? ? ? [H _] _ IH]; [done|]. cbn. by rewrite H, IH. Qed.

Lemma members_written kvs :
  Forall (fun kv => units16 (fst kv) = true /\ written (snd kv) (JSON_stringify (snd kv))) kvs ->
  exists kvs', Forall2 same_member kvs kvs' /\ Forall2 (member_of reads_as) kvs' (map member_line kvs)
    /\ Forall2 (member_of scans) kvs (map member_line kvs) /\ Forall (fun t => well_formed t = true) (map member_line kvs).
Proof.
  induction 1 as [|[k v] kvs [Hu ((w & Hr & Hw) & Hs & Hf)] _ (kvs' & H1 & H2 & H3 & H4)]; [by exists []|].
  cbn [fst snd] in *. exists ((k, w) :: kvs'). split_and!; constructor; try done.
  - split; [done|]. by exists (JSON_stringify v).
  - split; [done|]. by exists (JSON_stringify v).
  - unfold member_line. cbn [fst snd]. by rewrite !well_formed_app by (done || by apply stringify_well_formed).
Qed.

Lemma object_well_formed ts : Forall (fun t => well_formed t = true) ts -> well_formed ([123] ++ join [44] ts ++ [125]) = true.
Proof. intros H. rewrite !well_formed_app; try done. by apply join_well_formed. Qed.

Lemma Forall_defined (P : jsstr * json -> Prop) m : Forall P m -> Forall P (own_order (defined m)).
Proof.
  intros H. rewrite own_order_perm. unfold defined. rewrite !Forall_forall in *. intros kv Hin. apply H.
  apply list_elem_of_In, filter_In in Hin as [Hin _]. by apply list_elem_of_In.
Qed.
Lemma NoDup_defined m : NoDup (map fst m) -> NoDup (map fst (own_order (defined m))).
Proof.
  rewrite own_order_perm. unfold defined. induction m as [|kv m IH]; [done|]. cbn. intros [Hn Hnd]%NoDup_cons.
  destruct (negb _); [|by apply IH]. cbn. constructor; [|by apply IH].
  intros (kv' & E & Hin)%list_elem_of_fmap. apply Hn. apply list_elem_of_In, filter_In in Hin as [Hin _].
  apply list_elem_of_fmap. exists kv'. split; [done|]. by apply list_elem_of_In.
Qed.

(** The text of any value is read. *)
Lemma stringify_written v : writable v = true -> written v (JSON_stringify v).
Proof.
  induction v as [| |b|n|s|l IH|m IH] using json_ind'; intros Hw.
  - by apply written_serialized.
  - by apply written_null.
  - by apply written_serialized; [..|destruct b].
  - by apply written_number.
  - split; [|split]; [exists (JString s); split; [by apply reads_string|done]| |by apply stringify_well_formed].
    intros r stack Hr. cbn [JSON_stringify]. unfold stringify_string. rewrite <-!app_assoc. cbn [app].
    apply scan_string; [by apply quote_units_text|done].
  - cbn in Hw. apply forallb_true_Forall in Hw. cbn [JSON_stringify].
    assert (exists ws, Forall2 reads_as ws (map JSON_stringify l) /\ Forall2 scans l (map JSON_stringify l)
      /\ Forall (fun t => well_formed t = true) (map JSON_stringify l)) as (ws & H1 & H2 & H3).
    { induction IH as [|v l Hv _ IHl]; [by exists []|]. apply Forall_cons in Hw as [Hwv Hwl].
      destruct (Hv Hwv) as ((w & Hr & _) & Hs & Hf). destruct (IHl Hwl) as (ws & ? & ? & ?).
      exists (w :: ws). split_and!; by constructor. }
    split; [exists (JArray ws); split; [by apply reads_array|done]|]. split.
    + intros r stack _. rewrite <-!app_assoc. cbn [app]. rewrite scan_open_array, (scan_elements l) by done.
      by rewrite scan_close by lia.
    + rewrite !well_formed_app; try done. by apply join_well_formed.
  - cbn in Hw. apply andb_true_iff in Hw as [Hw Hnd%bool_decide_eq_true]. apply forallb_true_Forall in Hw.
    assert (Hm : Forall (fun kv => units16 (fst kv) = true /\ written (snd kv) (JSON_stringify (snd kv))) m).
    { rewrite Forall_forall in *. intros kv Hin. specialize (Hw _ Hin). apply andb_true_iff in Hw as [Hu Hw].
      split; [done|]. by apply IH. }
    rewrite stringify_object. destruct (members_written _ (Forall_defined _ _ Hm)) as (kvs' & H1 & H2 & H3 & H4).
    apply NoDup_defined in Hnd. split; [|split; [|by apply object_well_formed]].
    + exists (JObject kvs'). split; [|done]. split; [by eexists _, _|]. intros fuel r _ Hf.
      apply parse_object; [by rewrite (same_names _ _ H1)|done|done].
    + intros r stack _. by eapply scan_object.
Qed.

(** The text of an object is read, member by member, in the order of the language. *)
Lemma stringify_parses m : NoDup (map fst m) -> Forall writable_member m ->
  exists kvs, parseJoseObject (utf8_encode (JSON_stringify (JObject m))) = Ok kvs /\ Forall2 same_member (own_order (defined m)) kvs.
Proof.
  intros Hnd Hm.
  assert (Hm' : Forall (fun kv => units16 (fst kv) = true /\ written (snd kv) (JSON_stringify (snd kv))) m).
  { eapply Forall_impl; [exact Hm|]. intros kv [Hu Hw]. split; [done|by apply stringify_written]. }
  destruct (members_written _ (Forall_defined _ _ Hm')) as (kvs & H1 & H2 & H3 & H4). apply NoDup_defined in Hnd.
  exists kvs. split; [|done]. rewrite stringify_object. set (ts := map member_line _) in *.
  destruct (decode_well_formed ([123] ++ join [44] ts ++ [125])) as [Ed _]; [by apply object_well_formed|by eexists _, _|].
  unfold parseJoseObject, parseStrictJson. rewrite Ed. cbn [of_option mbind res_bind].
  pose proof (scan_object _ ts [] [] Hnd H3) as Hs. rewrite app_nil_r in Hs. unfold scan in Hs. rewrite Hs.
  cbn [length scan_members mbind res_bind]. rewrite (parse_reads (JObject kvs)); [done|].
  split; [by eexists _, _|]. intros fuel r _ Hf. apply parse_object; [by rewrite (same_names _ _ H1)|done|done].
Qed.

(** The members that are scalars, and those that are absent, are read as they were. *)
Lemma get_member_defined m k : NoDup (map fst m) -> get_member (own_order (defined m)) k = get_member m k.
Proof.
  intros Hnd. rewrite <-(get_member_perm (defined m)).
  2: { apply NoDup_defined in Hnd. by rewrite own_order_perm in Hnd. }
  2: { by rewrite own_order_perm. }
  unfold defined. induction m as [|[k0 v0] m IH]; [done|]. cbn in *. apply NoDup_cons in Hnd as [Hn Hnd].
  destruct (is_undefined v0) eqn:Eu; cbn; rewrite IH by done; [|done].
  case_bool_decide as E; [|done]. subst k0. rewrite get_member_None by done. by destruct v0.
Qed.

Lemma get_member_same kvs kvs' k : Forall2 same_member kvs kvs' -> Forall (fun kv => is_undefined (snd kv) = false) kvs ->
  scalar (get_member kvs k) = true \/ get_member kvs k = JUndefined -> get_member kvs' k = get_member kvs k.
Proof.
  induction 1 as [|[k0 v0] [k1 v1] kvs kvs' [Hk Hv] _ IH]; [done|]. cbn in *. subst k1.
  intros [Hu Hd]%Forall_cons. case_bool_decide as E; [|by apply IH]. intros [Hs| ->]; [by apply Hv|done].
Qed.

Lemma get_member_read m kvs k : NoDup (map fst m) -> Forall2 same_member (own_order (defined m)) kvs ->
  scalar (get_member m k) = true \/ get_member m k = JUndefined -> get_member kvs k = get_member m k.
Proof.
  intros Hnd Hs Hk. pose proof (get_member_defined m k Hnd) as E. rewrite <-E in Hk |- *. apply (get_member_same _ _ k Hs); [|done].
  rewrite own_order_perm, Forall_forall. intros kv [_ Hkv]%list_elem_of_In%filter_In. by apply negb_true_iff.
Qed.

(** ** Claims *)

Lemma set_member_names m k v k' : k' ∈ map fst (set_member m k v) <-> k' = k \/ k' ∈ map fst m.
Proof.
  induction m as [|[k0 v0] m IH]; cbn; [rewrite list_elem_of_singleton; set_solver|].
  case_bool_decide; cbn; rewrite !elem_of_cons, ?IH; [subst|]; tauto.
Qed.

Lemma NoDup_set_member m k v : NoDup (map fst m) -> NoDup (map fst (set_member m k v)).
Proof.
  induction m as [|[k0 v0] m IH]; cbn; [repeat constructor; set_solver|]. intros [Hn Hnd]%NoDup_cons.
  case_bool_decide as E; cbn; constructor; auto. rewrite set_member_names. by intros [->|].
Qed.

Lemma Forall_set_member (P : jsstr * json -> Prop) m k v : P (k, v) -> Forall P m -> Forall P (set_member m k v).
Proof.
  intros Hk. induction 1 as [|[k0 v0] m H0 Hm IH]; cbn; [by repeat constructor|].
  case_bool_decide as E; [subst|]; by constructor.
Qed.

(** The claims that are added keep those that are reserved; the others are among the added. *)
Lemma add_claims_Ok added base claims : NoDup (map fst base) -> Forall writable_member base ->
  Forall writable_member added -> for_each add_claim added base = Ok claims ->
  NoDup (map fst claims) /\ Forall writable_member claims
  /\ (forall k, k ∈ RESERVED -> get_member claims k = get_member base k)
  /\ forall k, (k, get_member claims k) ∈ added \/ get_member claims k = get_member base k.
Proof.
  intros Hnd Hb Ha. apply (for_each_inv (fun claims => NoDup (map fst claims) /\ Forall writable_member claims
    /\ (forall k, k ∈ RESERVED -> get_member claims k = get_member base k)
    /\ forall k, (k, get_member claims k) ∈ added \/ get_member claims k = get_member base k)); [|by auto].
  intros m [k0 v0] m' Hin (H1 & H2 & H3 & H4) (? & Hr%throw_if_Ok%bool_decide_eq_false & [= <-])%bind_Ok. cbn [fst snd] in *.
  rewrite Forall_forall in Ha. pose proof (Ha _ Hin) as Hkv. case_bool_decide; [done|].
  split_and!; [by apply NoDup_set_member|by apply Forall_set_member| |].
  - intros k Hk. rewrite get_member_set_ne; [by apply H3|]. by intros ->.
  - intros k. destruct (decide (k0 = k)) as [->|Hne]; [left; by rewrite get_member_set|by rewrite get_member_set_ne].
Qed.

Lemma uuid_well_formed l : well_formed (uuid_text l) = true.
Proof.
  apply ascii_well_formed. unfold uuid_text. assert (Hh : forall l, ascii (to_hex l) = true).
  { intros l'. unfold ascii, to_hex. induction l' as [|b l' IH]; [done|]. cbn [map concat]. rewrite forallb_app, IH, andb_true_r.
    destruct b; done. }
  cbn [join]. unfold ascii in *. by rewrite !forallb_app, !Hh.
Qed.

(** ** Texts of tokens *)

Lemma decode_part_text l : decode_part (toBase64Url l) = Ok l.
Proof.
  unfold decode_part. rewrite toBase64Url_alphabet. cbn [negb throw_if mbind res_bind].
  rewrite fromBase64Url_toBase64Url. cbn [mbind res_bind]. by rewrite bool_decide_true.
Qed.

Lemma base64url_no_dot l : 46 ∉ toBase64Url l.
Proof.
  intros H. pose proof (toBase64Url_alphabet l) as Ha. apply forallb_true_Forall in Ha.
  rewrite Forall_forall in Ha. by specialize (Ha _ H).
Qed.

Lemma compact_parses octets header payload sig :
  let h := toBase64Url octets in let token := compact_text h (toBase64Url payload) sig in
  parseJoseObject octets = Ok header -> unsupported_header header = false ->
  zlen token <= 1024 * 1024 -> zlen h <= 16 * 1024 ->
  parseCompactJose token = Ok (mkCompact h (toBase64Url payload) (toBase64Url sig) header payload sig).
Proof.
  intros h token Hh Hu Hl Hl'. unfold parseCompactJose. rewrite (proj2 (Z.ltb_ge _ _) Hl). cbn [throw_if mbind res_bind].
  replace (split_on 46 token) with [h; toBase64Url payload; toBase64Url sig].
  2: { symmetry. change token with (join [46] [h; toBase64Url payload; toBase64Url sig]).
       apply split_join; [done|repeat constructor; apply base64url_no_dot]. }
  rewrite (proj2 (Z.ltb_ge _ _) Hl'). unfold h. rewrite !decode_part_text. cbn [throw_if mbind res_bind].
  rewrite Hh. cbn [mbind res_bind]. by rewrite Hu.
Qed.

(** ** Runs of a signer and of a verifier *)

Section RoundTrip.
Context `{Url : URLApi} `{Uni : Unicode} `{Jwk : JwkApi} (envS envV : Environment) (ps pv : JoseProfile).
(** The signer's domain and key, and the identity that the verifier resolves. *)
Context (domain : jsstr) (kp : provider) (key : jwk) (kid alg : jsstr) (v : VerifiedIdentity).

Notation returning := (@returning event exn _).

(** The provider has one key, which the identity publishes and under which its signatures
    verify. *)
Record signs : Prop := {
  si_domain : jp_domain ps = Some domain /\ units16 domain = true;
  si_provider : jp_keyProvider ps = Some kp;
  si_key : forall t, env_signingKey envS t kp = Ok key;
  si_kid : get key "kid" = JString kid /\ kid <> [] /\ units16 kid = true;
  si_alg : jwkSignatureAlg key = Ok alg;
  si_verifies : forall t payload raw, env_sign envS t kp payload = Ok raw -> verifyWithKey payload raw key (Some alg) = true;
  si_published : keyById (vi_jwks v) kid = Some key
}.

Lemma alg_well_formed a : a ∈ APPLICATION_JOSE_ALGS -> well_formed a = true /\ a <> [].
Proof.
  intros H. assert (Forall (fun a => well_formed a = true /\ a <> []) APPLICATION_JOSE_ALGS) as Ha by (by repeat constructor).
  rewrite Forall_forall in Ha. by apply Ha.
Qed.

Lemma jwkSignatureAlg_allowed k a : jwkSignatureAlg k = Ok a -> a ∈ APPLICATION_JOSE_ALGS.
Proof.
  unfold jwkSignatureAlg, derivedSignatureAlg. intros (? & _ & H)%bind_Ok. destruct (negb (is_undef (get k "alg"))).
  - apply bind_Ok in H as (b & Hb%of_option_Ok & H). apply bind_Ok in H as (? & _ & [= ->]).
    destruct (get k "alg"); try done. by case_bool_decide; simplify_eq.
  - repeat (case_match; [injection H as <-; by apply (bool_decide_eq_true_1 _)|]). done.
Qed.

Lemma validate_header header a : get header "alg" = JString a -> a ∈ APPLICATION_JOSE_ALGS -> validateAlgorithm header = Ok tt.
Proof. unfold validateAlgorithm. intros -> H. by rewrite bool_decide_true. Qed.

Definition header_members (kid : jsstr) (typ : string) : list (jsstr * json) :=
  [(js "alg", JString alg); (js "kid", JString kid); (js "typ", JString (js typ))].

Lemma header_parses k typ : alg ∈ APPLICATION_JOSE_ALGS -> units16 k = true -> k <> [] -> units16 (js typ) = true ->
  parseJoseObject (utf8_encode (JSON_stringify (jose_header alg (JString k) typ))) = Ok (header_members k typ)
  /\ unsupported_header (header_members k typ) = false.
Proof.
  intros [Ha Hne]%alg_well_formed Hk Hk' Ht. split.
  - change (jose_header alg (JString k) typ) with (JObject (header_members k typ)).
    destruct (stringify_parses (header_members k typ)) as (kvs & -> & Hs).
    + apply (bool_decide_eq_true_1 _). by vm_compute.
    + by apply andb_true_iff in Ha as [Ha _]; repeat constructor.
    + f_equal. change (own_order (defined (header_members k typ))) with (header_members k typ) in Hs.
      unfold header_members in Hs |- *. apply Forall2_cons_inv_l in Hs as ([k1 v1] & ? & [E1 V1] & Hs & ->).
      apply Forall2_cons_inv_l in Hs as ([k2 v2] & ? & [E2 V2] & Hs & ->).
      apply Forall2_cons_inv_l in Hs as ([k3 v3] & ? & [E3 V3] & ->%Forall2_nil_inv_l & ->).
      cbn in *. subst. by rewrite V1, V2, V3.
  - unfold unsupported_header, get. cbn. by destruct alg, k.
Qed.

(** What was signed is accepted. *)
Lemma token_accepted octets payload raw header t : signs ->
  env_sign envS t kp (utf8_encode (toBase64Url octets ++ 46 :: toBase64Url payload)) = Ok raw ->
  get header "alg" = JString alg ->
  check_token (mkCompact (toBase64Url octets) (toBase64Url payload) (toBase64Url raw) header payload raw) v kid = Ok tt.
Proof.
  intros Hs Hraw Ha. pose proof (jwkSignatureAlg_allowed _ _ (si_alg Hs)) as Hin. pose proof (alg_well_formed _ Hin) as [_ Hne].
  unfold check_token. rewrite (si_published Hs). cbn [of_option mbind res_bind cp_header]. rewrite Ha.
  replace (match alg with [] => _ | _ :: _ => _ end) with (Ok alg : res jsstr) by (destruct alg; [done|by rewrite bool_decide_true]).
  cbn [mbind res_bind]. rewrite (si_alg Hs). cbn [mbind res_bind]. rewrite bool_decide_true by done.
  cbn [negb throw_if mbind res_bind cp_signature64 cp_header64 cp_payload64]. rewrite fromBase64Url_toBase64Url.
  cbn [mbind res_bind]. by rewrite (si_verifies Hs _ _ _ Hraw).
Qed.

Lemma sign_parts_spec h p t : returning (sign_parts envS h p kp) t (fun token _ => exists t0 raw,
  token = compact_text h p raw /\ env_sign envS t0 kp (utf8_encode (h ++ 46 :: p)) = Ok raw).
Proof. unfold sign_parts, sign_with. step. apply returning_ask. intros raw Hraw. step. by exists t, raw. Qed.

Lemma requireKeyProvider_signs k d : signs -> requireKeyProvider ps = Ok (k, d) -> k = kp /\ d = domain.
Proof.
  intros Hs. unfold requireKeyProvider. rewrite (si_provider Hs), (proj1 (si_domain Hs)). destruct domain; by intros [= <- <-].
Qed.

Notation jws_header := (encode_json (jose_header alg (JString (domain ++ 35 :: kid)) "jose")).

Lemma createJWS_spec payload t : signs -> returning (createJWS envS ps payload) t (fun jws _ => exists t0 raw,
  jws = compact_text jws_header (toBase64Url payload) raw
  /\ env_sign envS t0 kp (utf8_encode (jws_header ++ 46 :: toBase64Url payload)) = Ok raw).
Proof.
  intros Hs. unfold createJWS. step. step. intros [k d] [-> ->]%requireKeyProvider_signs; [|done].
  step. unfold signing_key. apply returning_ask. intros a Ha. rewrite (si_key Hs) in Ha. injection Ha as <-.
  step. step. intros kid' Hk. step. step. intros a Ha. rewrite (si_alg Hs) in Ha. injection Ha as <-.
  unfold kid_without_hash in Hk. rewrite (proj1 (si_kid Hs)) in Hk. cbn [as_str of_option mbind res_bind] in Hk.
  apply bind_Ok in Hk as (? & _ & [= <-]). apply sign_parts_spec.
Qed.

(** What [createJWS] signs, [verifyJWS] accepts, with the payload. *)
Theorem jws_verifies payload jws peerCert timeoutMs t t1 :
  signs -> undisturbed envV timeoutMs -> parseKeyId (domain ++ 35 :: kid) = Ok (domain, kid) ->
  (forall t, env_verifyDomain envV t domain peerCert = Ok v) ->
  createJWS envS ps payload t = (Returns jws, t1) -> zlen jws <= 1024 * 1024 -> zlen jws_header <= 16 * 1024 ->
  forall t2, exists t3, verifyJWS envV jws peerCert timeoutMs t2 = (Returns (payload, v), t3).
Proof.
  intros Hs Hun Hkid Hres Hrun Hlen Hlen'.
  pose proof (returning_run _ _ _ _ _ (createJWS_spec payload t Hs) Hrun) as (t0 & raw & -> & Hraw).
  pose proof (jwkSignatureAlg_allowed _ _ (si_alg Hs)) as Hin.
  destruct (header_parses (domain ++ 35 :: kid) "jose" Hin) as [Hp Hu]; [|by destruct domain|done|].
  { destruct Hs as [[_ Hd] _ _ (_ & _ & Hk) _ _ _]. unfold units16 in *. rewrite forallb_app, Hd. exact Hk. }
  apply (delivers_budgeted envV _ Hun). unfold verifyJWSWithinBudget.
  eapply delivers_bind; [apply delivers_lift, (compact_parses _ _ _ _ Hp Hu Hlen Hlen')|].
  eapply (delivers_bind _ _ tt); [by apply delivers_lift, (validate_header _ alg)|].
  eapply (delivers_bind _ _ (domain ++ 35 :: kid)); [apply delivers_lift; by destruct domain|].
  eapply (delivers_bind _ _ (domain, kid)); [apply delivers_lift; by rewrite Hkid|].
  eapply delivers_bind; [eapply delivers_wait; [done|]; by apply delivers_ask|].
  eapply delivers_bind; [apply delivers_lift; by eapply token_accepted|]. apply delivers_ret.
Qed.

(** ** JWT *)

(** The options of the issuer and of the verifier; the issuer's clock shows [ms]. *)
Context (opts : JWTOptions) (vopts : JWTVerificationOptions) (audience : jsstr) (ms z : Z).

Notation now := (ms / 1000).
Notation added := (default [] (jo_additionalClaims opts)).
Notation jwt_header := (encode_json (jose_header alg (JString kid) "JWT")).

(** The lifetime is a whole number of seconds; the added claims have any values that
    [JSON.stringify] writes, under names that are not reserved ([createJWT] refuses others). *)
Record issues : Prop := {
  is_audience : normalizeFQDN (jo_audience opts) false = Ok audience /\ units16 audience = true;
  is_expiry : default DEFAULT_JWT_EXPIRY_SECONDS (jo_expiry opts) = NInt z /\ 0 < z;
  is_clock : (forall t, env_now envS t = ms) /\ 0 <= now /\ isSafeInteger (now + z) = true;
  is_added : Forall writable_member added
}.

(** The verifier is the audience, resolves the issuer to [v], and its clock is near: not
    before the issue and not at the expiry, and an added [nbf] claim is a number that it has
    reached. *)
Record receives : Prop := {
  rc_undisturbed : undisturbed envV (jv_timeoutMs vopts);
  rc_resolves : forall t, env_verifyDomain envV t domain (jv_peerCert vopts) = Ok v;
  rc_names : (exists n, normalizeFQDN domain false = Ok n) /\ normalizeFQDN audience false = Ok audience;
  rc_audience : exists a, match jv_expectedAudience vopts with Some a => Some a | None => jp_domain pv end = Some a
                /\ a <> [] /\ normalizeFQDN a false = Ok audience;
  rc_issued : forall t, num_lt (num_add (seconds (env_now envV t)) (jwt_skew (jp_config pv))) (NInt now) = false;
  rc_alive : forall t, num_le (NInt (now + z)) (seconds (env_now envV t)) = false;
  rc_begun : forall nbf, (js "nbf", nbf) ∈ added -> nbf = JUndefined
    \/ exists n, nbf = JNumber n /\ is_finite n = true /\ reads_back n = true
         /\ forall t, num_lt (num_add (seconds (env_now envV t)) (jwt_skew (jp_config pv))) n = false;
  rc_lifetime : num_lt (max_lifetime (jp_config pv)) (NInt z) = false
}.

Notation base jti := (base_claims domain audience now (NInt (now + z)) jti).

Lemma createJWT_spec t : signs -> issues -> returning (createJWT envS ps opts) t (fun jwt _ => exists t0 raw jti claims,
  for_each add_claim added (base (uuid_text jti)) = Ok claims
  /\ jwt = compact_text jwt_header (encode_json (JObject claims)) raw
  /\ env_sign envS t0 kp (utf8_encode (jwt_header ++ 46 :: encode_json (JObject claims))) = Ok raw).
Proof.
  intros Hs Hi. unfold createJWT. step. step. intros [k d] [-> ->]%requireKeyProvider_signs; [|done].
  step. step. intros _. step. step. intros a Ha. rewrite (proj1 (is_audience Hi)) in Ha. injection Ha as <-.
  step. step. intros _ _. step. unfold signing_key. apply returning_ask. intros a Ha. rewrite (si_key Hs) in Ha. injection Ha as <-.
  step. unfold date_now. apply returning_call_at. destruct (is_clock Hi) as (Hms & Hnow & Hsafe). rewrite Hms.
  rewrite (proj1 (is_expiry Hi)), num_add_int by done. step. step. intros _. step. unfold randomUUID.
  step. apply returning_call. intros jti. step. step. step. intros claims Hc. step. step. intros a Ha.
  rewrite (si_alg Hs) in Ha. injection Ha as <-. rewrite (proj1 (si_kid Hs)).
  eapply returning_mono; [apply sign_parts_spec|]. intros token t' _ (t0 & raw & -> & Hraw). by exists t0, raw, jti, claims.
Qed.

Lemma base_writable jti : signs -> issues ->
  NoDup (map fst (base (uuid_text jti))) /\ Forall writable_member (base (uuid_text jti)).
Proof.
  intros Hs Hi. destruct (is_clock Hi) as (_ & Hnow & Hsafe). destruct (is_expiry Hi) as [_ Hz].
  destruct (is_audience Hi) as [_ Ha]. destruct (si_domain Hs) as [_ Hd].
  split; [by apply (bool_decide_eq_true_1 _); vm_compute|].
  assert (isSafeInteger now = true) by (apply isSafeInteger_spec; apply isSafeInteger_spec in Hsafe; lia).
  pose proof (uuid_well_formed jti) as [Hj _]%andb_true_iff. unfold base_claims.
  rewrite !Forall_cons, Forall_nil. split_and!; try done; (split; [done|]); by first [done|apply number_text_int].
Qed.

(** The claims that are read: those of the code, and perhaps a time that has been reached. *)
Lemma base_read jti claims m : issues -> NoDup (map fst claims) -> Forall2 same_member (own_order (defined claims)) m ->
  (forall k, k ∈ RESERVED -> get_member claims k = get_member (base jti) k) ->
  forall k, k ∈ RESERVED -> get_member m k = get_member (base jti) k.
Proof.
  intros Hi Hnd Hs Hb k Hk. rewrite <-(Hb k Hk). apply (get_member_read claims); [done|done|left]. rewrite (Hb k Hk).
  destruct (is_clock Hi) as (_ & Hnow & Hsafe). destruct (is_expiry Hi) as [_ Hz].
  assert (isSafeInteger now = true) by (apply isSafeInteger_spec; apply isSafeInteger_spec in Hsafe; lia).
  revert k Hk. apply Forall_forall. repeat constructor; by apply reads_back_int.
Qed.

Lemma nbf_read jti claims m : receives -> NoDup (map fst claims) -> Forall2 same_member (own_order (defined claims)) m ->
  (forall k, (k, get_member claims k) ∈ added \/ get_member claims k = get_member (base jti) k) ->
  get m "nbf" = JUndefined \/ (js "nbf", get m "nbf") ∈ added.
Proof.
  intros Hr Hnd Hs Hadd. pose proof (get_member_read claims m (js "nbf") Hnd Hs) as E.
  destruct (Hadd (js "nbf")) as [Hin|E0]; [|left; unfold get; rewrite E; [done|by right]].
  destruct (rc_begun Hr _ Hin) as [E0|(n & E0 & _ & Hb & _)]; [left; unfold get; rewrite E; [done|by right]|].
  right. unfold get. rewrite E; [done|left]. by rewrite E0.
Qed.

(** The claims that are read pass the checks of the verifier. *)
Lemma claims_accepted jti m : issues -> receives ->
  (forall k, k ∈ RESERVED -> get_member m k = get_member (base jti) k) ->
  get m "nbf" = JUndefined \/ (js "nbf", get m "nbf") ∈ added -> domain <> [] ->
  check_parties m audience = Ok domain
  /\ forall t, check_times (jp_config pv) m (seconds (env_now envV t)) = Ok (NInt (now + z)).
Proof.
  intros Hi Hr Hm Hnbf Hne. destruct (is_clock Hi) as (_ & Hnow & Hsafe). destruct (is_expiry Hi) as [_ Hz].
  destruct (rc_names Hr) as [[n Hn] Ha].
  assert (Hg : forall name j, js name ∈ RESERVED -> get_member (base jti) (js name) = j -> get m name = j).
  { intros name j Hin <-. by apply Hm. }
  pose proof (fun name j H => Hg name j (bool_decide_eq_true_1 _ H)) as Hget. clear Hg. split.
  - unfold check_parties. rewrite (Hget "iss"%string (JString domain)), (Hget "sub"%string (JString domain)),
      (Hget "aud"%string (JString audience)) by done.
    destruct domain as [|u d] eqn:Ed; [done|]. rewrite <-Ed in *. cbn [mbind res_bind as_str of_option].
    rewrite Hn. cbn [mbind res_bind]. rewrite (bool_decide_true (n = n)) by done. cbn [negb throw_if catch mbind res_bind map].
    rewrite Ha. cbn [length Nat.eqb existsb is_none orb]. rewrite bool_decide_true by (by left). done.
  - intros t. unfold check_times. rewrite (Hget "iat"%string (JNumber (NInt now))), (Hget "exp"%string (JNumber (NInt (now + z)))) by done.
    cbn [finite_claim is_finite value_of of_option mbind res_bind]. rewrite (rc_issued Hr). cbn [throw_if mbind res_bind].
    assert (Hlt : num_le (NInt (now + z)) (NInt now) = false).
    { cbn [num_le]. rewrite num_lt_int. apply negb_false_iff, Z.ltb_lt. lia. }
    rewrite Hlt. cbn [throw_if mbind res_bind]. rewrite num_sub_int.
    2: { apply isSafeInteger_spec. apply isSafeInteger_spec in Hsafe. lia. }
    replace (now + z - now) with z by lia. rewrite (rc_lifetime Hr). cbn [throw_if mbind res_bind].
    rewrite (rc_alive Hr). cbn [throw_if mbind res_bind].
    assert (get m "nbf" = JUndefined \/ exists n, get m "nbf" = JNumber n /\ is_finite n = true
      /\ num_lt (num_add (seconds (env_now envV t)) (jwt_skew (jp_config pv))) n = false) as [-> |(n' & -> & Hf & Hlt')].
    { destruct Hnbf as [|[|(n' & E & Hf & _ & Hlt')]%(rc_begun Hr)]; [by left|by left|right; by exists n']. }
    { done. }
    cbn [finite_claim]. by rewrite Hf, Hlt'.
Qed.

(** C11: What [createJWT] issues, [verifyJWT] accepts: for every issuer with a key that its
    identity publishes and every lifetime of whole seconds that the verifier's limit allows,
    with any additional claims that it does not refuse (any values of the language that
    [JSON.stringify] writes, nested ones included), a verifier in the audience that resolves
    the issuer and is not aborted returns the issuer's identity, as long as its clock is
    within the skew of the issue, before the expiry, and past an added [nbf], which has to be
    a number, and the token and its header are within the limits of the parser (one MiB and
    16 KiB). *)
Theorem jwt_verifies jwt t t1 : signs -> issues -> receives ->
  createJWT envS ps opts t = (Returns jwt, t1) -> zlen jwt <= 1024 * 1024 -> zlen jwt_header <= 16 * 1024 ->
  forall t2, exists t3, verifyJWT envV pv jwt vopts t2 = (Returns v, t3).
Proof.
  intros Hs Hi Hr Hrun Hlen Hlen'.
  pose proof (returning_run _ _ _ _ _ (createJWT_spec t Hs Hi) Hrun) as (t0 & raw & jti & claims & Hc & -> & Hraw).
  destruct (base_writable jti Hs Hi) as [Hnd Hb].
  apply add_claims_Ok in Hc as (Hnd' & Hp' & Hres & Hadd); [|done..|by apply is_added].
  destruct (stringify_parses claims Hnd' Hp') as (read & Hread & Hsame).
  pose proof (jwkSignatureAlg_allowed _ _ (si_alg Hs)) as Hin. destruct (si_kid Hs) as (_ & Hkne & Hkw).
  destruct (header_parses kid "JWT" Hin Hkw Hkne eq_refl) as [Hp Hu].
  assert (Hdne : domain <> []).
  { intros E. destruct (rc_names Hr) as [[n Hn] _]. by rewrite E in Hn. }
  destruct (claims_accepted (uuid_text jti) read Hi Hr) as [Hpar Htim]; [by apply (base_read (uuid_text jti) claims)| |done|].
  { by apply (nbf_read (uuid_text jti) claims). }
  destruct (rc_audience Hr) as (a & Ea & Hane & Ha).
  apply (delivers_budgeted envV _ (rc_undisturbed Hr)). unfold verifyJWTWithinBudget.
  eapply (delivers_bind _ _ a); [apply delivers_lift; rewrite Ea; by destruct a|].
  eapply (delivers_bind _ _ audience); [apply delivers_lift; by rewrite Ha|].
  eapply delivers_bind; [apply delivers_lift, (compact_parses _ _ _ _ Hp Hu Hlen Hlen')|].
  eapply (delivers_bind _ _ tt); [by apply delivers_lift, (validate_header _ alg)|].
  eapply delivers_bind; [by apply delivers_lift, Hread|].
  eapply delivers_bind; [by apply delivers_lift|]. apply delivers_call. intros t2.
  eapply delivers_bind; [by apply delivers_lift|].
  eapply (delivers_bind _ _ v).
  { apply delivers_try. eapply delivers_wait; [by apply rc_undisturbed|]. by apply delivers_ask, (rc_resolves Hr). }
  eapply (delivers_bind _ _ kid); [apply delivers_lift; by destruct kid|].
  eapply delivers_bind; [apply delivers_lift; by eapply token_accepted|]. apply delivers_call. intros t5.
  eapply delivers_bind; [by apply delivers_check, (rc_alive Hr)|]. apply delivers_ret.
Qed.

End RoundTrip.
