(* ===== verification/JoseExamples.v ===== *)
(** Concrete tokens: the theorems of [JoseSafety] and [JoseRoundTrip] applied to them. *)

From S2P Require Import Prelude Effects JsString Base64 Sha256 Url Utils Json JsonText Double Jwk Verification.
From S2P Require Import StreamVerifier HttpMessages HttpSignatures PlainFields ProfileRules HttpExamples Jose JoseSafety JoseRoundTrip.

Section Examples.
#[local] Existing Instances SimpleUrl AsciiUnicode ToyJwk.

Definition issuer : JoseProfile := mkJose (Some (js "bot.example.com")) (Some 0%nat) (mkJoseConfig None None).
Definition verifier : JoseProfile := mkJose (Some (js "api.example")) None (mkJoseConfig (Some (NInt 600)) None).
Definition jwt_options : JWTOptions :=
  mkJWTOptions (js "API.example.") (Some (NInt 300)) (Some [(js "scope", JString (js "read")); (js "7", JNumber (NInt 1)); (js "nbf", JNumber (NInt 1700000030));
      (js "grants", JObject [(js "z", JArray [JNull; JUndefined; JString [92; 34; 55296]]); (js "none", JUndefined); (js "a", JBool true)])]).
Definition no_options : JWTVerificationOptions := mkJWTVerification None None None.

(** The token is made and verified in the environment of the other examples. *)
Definition jwt_exchange : option ((jsstr * list event) * (VerifiedIdentity * list event)) :=
  '(jwt, t) ← returned (createJWT example_env issuer jwt_options []);
  '(v, t') ← returned (verifyJWT example_env verifier jwt no_options t);
  if zlen jwt <=? 1024 * 1024 then Some ((jwt, t), (v, t')) else None.
Definition jws_exchange : option (jsstr * list event * (bytes * VerifiedIdentity * list event)) :=
  '(jws, t) ← returned (createJWS example_env issuer (utf8_encode (js "hello")) []);
  '(payload, v, t') ← returned (verifyJWS example_env jws None None t);
  Some (jws, t, (payload, v, t')).

Lemma jwt_exchange_inv jwt t v t' : jwt_exchange = Some ((jwt, t), (v, t')) ->
  createJWT example_env issuer jwt_options [] = (Returns jwt, t)
  /\ verifyJWT example_env verifier jwt no_options t = (Returns v, t') /\ zlen jwt <= 1024 * 1024.
Proof.
  intros ([r1 t1] & H1%returned_inv & ([v1 t2] & H2%returned_inv & H)%bind_Some)%bind_Some.
  destruct (Z.leb_spec (zlen r1) (1024 * 1024)) as [E|]; [|done]. apply Some_inj, pair_equal_spec in H as [H3 H4].
  apply pair_equal_spec in H3 as [-> ->]. apply pair_equal_spec in H4 as [-> ->]. exact (conj H1 (conj H2 E)).
Qed.

Lemma jws_exchange_inv jws t payload v t' : jws_exchange = Some (jws, t, (payload, v, t')) ->
  verifyJWS example_env jws None None t = (Returns (payload, v), t').
Proof.
  intros ([r1 t1] & _ & ([[p1 v1] t2] & H2%returned_inv & H)%bind_Some)%bind_Some.
  apply Some_inj, pair_equal_spec in H as [H3 H4]. apply pair_equal_spec in H3 as [-> ->].
  apply pair_equal_spec in H4 as [H4 ->]. apply pair_equal_spec in H4 as [-> ->]. exact H2.
Qed.

Lemma tokens_run : bool_decide (is_Some jwt_exchange) && bool_decide (is_Some jws_exchange) = true.
Proof. vm_compute. reflexivity. Qed.
Lemma jwt_exchange_runs : is_Some jwt_exchange.
Proof. pose proof tokens_run as H. apply andb_true_iff in H as [H _]. by apply bool_decide_eq_true in H. Qed.
Lemma jws_exchange_runs : is_Some jws_exchange.
Proof. pose proof tokens_run as H. apply andb_true_iff in H as [_ H]. by apply bool_decide_eq_true in H. Qed.

(** ** Witnesses *)

Lemma verifyJWT_sound_witness : exists jwt t v t',
  verifyJWT example_env verifier jwt no_options t = (Returns v, t') /\ jwt_accepted verifier no_options jwt v t'.
Proof.
  destruct jwt_exchange_runs as [[[jwt t] [v t']] H]. destruct (jwt_exchange_inv _ _ _ _ H) as (_ & Hv & _).
  exists jwt, t, v, t'. exact (conj Hv (verifyJWT_sound example_env verifier no_options jwt t v t' Hv)).
Defined.

Lemma verifyJWS_sound_witness : exists jws t payload v t',
  verifyJWS example_env jws None None t = (Returns (payload, v), t') /\ jws_accepted jws None payload v t'.
Proof.
  destruct jws_exchange_runs as [[[jws t] [[payload v] t']] H]. pose proof (jws_exchange_inv _ _ _ _ _ H) as Hv.
  exists jws, t, payload, v, t'. exact (conj Hv (verifyJWS_sound example_env jws None None t payload v t' Hv)).
Defined.

Lemma issuer_signs : signs example_env issuer (js "bot.example.com") 0%nat example_operational (js "o1") (js "EdDSA") example_signer.
Proof.
  split; try (by split_and!); try reflexivity.
  intros t payload raw [= <-]. vm_compute. reflexivity.
Qed.

Lemma issuer_issues : issues example_env jwt_options (js "api.example") 1700000000000 300.
Proof.
  split.
  - split; vm_compute; reflexivity.
  - split; [reflexivity|lia].
  - split_and!; [reflexivity|vm_compute; discriminate|vm_compute; reflexivity].
  - apply (bool_decide_eq_true_1 _). vm_compute. reflexivity.
Qed.

Lemma verifier_receives : receives example_env verifier (js "bot.example.com") example_signer jwt_options no_options (js "api.example") 1700000000000 300.
Proof.
  split.
  - split; intros; cbn; lia || reflexivity.
  - reflexivity.
  - split; [eexists|]; vm_compute; reflexivity.
  - exists (js "api.example"). split_and!; [reflexivity|discriminate|vm_compute; reflexivity].
  - intros t. vm_compute. reflexivity.
  - intros t. vm_compute. reflexivity.
  - intros nbf Hin. right. exists (NInt 1700000030). cbn in Hin.
    assert (E : nbf = JNumber (NInt 1700000030)).
    { revert Hin. rewrite !elem_of_cons, elem_of_nil. intros [H|[H|[H|[H|[]]]]]; apply pair_equal_spec in H as [H1 H2]; [|..|exact H2|]; discriminate H1. }
    split_and!; [exact E|reflexivity|vm_compute; reflexivity|]. intros t. vm_compute. reflexivity.
  - vm_compute. reflexivity.
Qed.

Lemma jwt_verifies_witness : exists jwt t,
  createJWT example_env issuer jwt_options [] = (Returns jwt, t)
  /\ forall t2, exists t3, verifyJWT example_env verifier jwt no_options t2 = (Returns example_signer, t3).
Proof.
  destruct jwt_exchange_runs as [[[jwt t] [v t']] H]. destruct (jwt_exchange_inv _ _ _ _ H) as (Hr & _ & Hl).
  exists jwt, t. split; [exact Hr|].
  apply (jwt_verifies example_env example_env issuer verifier (js "bot.example.com") 0%nat example_operational (js "o1")
    (js "EdDSA") example_signer jwt_options no_options (js "api.example") 1700000000000 300 jwt [] t
    issuer_signs issuer_issues verifier_receives Hr Hl).
  apply Z.leb_le. vm_compute. reflexivity.
Defined.

End Examples.
